(* ===== verification/_CoqProject ===== *)
-Q . S2P
Prelude.v
GoLib.v
HexEncoding.v
Interfaces.v
Node.v
Tracer.v
Trie.v
TrieSpec.v
Merkle.v
TrieRefine.v
TrieMap.v
Hasher.v
Commit.v
CommitRefine.v
Traversal.v
TrieTheorems.v
LevelDB.v
LdbIter.v
HexCodec.v
SimpleDB.v
SimpleDBTheorems.v
BatchLog.v
ShardedDB.v
ShardedDBTheorems.v
CachedWriter.v
CachedWriterTheorems.v
Connections.v
ConnectionsTheorems.v
ChainPool.v
Subscriptions.v
WsSubscriptions.v
SubscriptionsTheorems.v
FreeGas.v
FreeGasRefine.v
FreeGasTheorems.v
BlsAccounts.v
BlsAccountsRefine.v
BlsAccountsTheorems.v
Notifications.v
PrivateKeys.v
AccountAbi.v
AccountHandler.v
AccountHandlerFrame.v
AccountToy.v
AccountFlow.v
AccountControl.v
AccountRuns.v
CircuitBreaker.v
AccountState.v
Wire.v
Connection.v
ConnectionTheorems.v
SocketServer.v
ChainClient.v
ChainClientTheorems.v
RpcServer.v
RpcServerTheorems.v
RobotHandler.v
RobotTheorems.v
FileHandler.v
FileTheorems.v
ArgumentEncode.v
Storage.v
Receipts.v
ReceiptsTheorems.v
Transaction.v
TransactionTheorems.v
Bls.v
RpcPayload.v
TransactionErrors.v
TcpClient.v
TcpFlows.v
TcpLogic.v
TcpClientTheorems.v
RpcClient.v
RpcClientTheorems.v
ErrorDecoder.v
Proxy.v
ProxyTraffic.v
TransactionArgs.v
