(* ===== verification/Prelude.v ===== *)
(** * MetaCoSign: a verification library

    MetaCoSign is a Go code base around a blockchain node and the proxy in front of it: a Merkle
    Patricia trie and the receipts kept in it, account state, transactions that travel between
    Ethereum's formats and the node's own, LevelDB and file stores, an RPC and TCP front end that signs
    its users' transactions with BLS keys and handles some contract addresses itself, and the
    connections, chain clients and command line client that talk to it.  This library models the parts
    that carry the program's own logic and proves what they promise to each other.

    ** How the code is modelled

    A Go function becomes a Rocq function.  [outcome] tells a returned value, a returned error, a
    panic and exhausted fuel apart; [comp] adds the state an operation changes and keeps on every
    path.  Bytes are the Standard Library's [byte]; machine integers are [Z] with their wrap-around
    written out ([u64], [i64], [z2b]); Go maps are [gmap].  Packages outside the repository
    (go-ethereum, protobuf, goleveldb, blst, the clock, sockets) are type classes of operations with a
    second class of documented laws where a proof needs them; each has a concrete instance (the
    [Toy...] modules, [map_ldb], [FlakyStore], [FailingStore]) on which the witnesses evaluate.  What
    Go leaves open (the order of map iteration, of worker results, of goroutines that race) is a
    parameter or a step relation, and theorems hold for every choice.  Concurrent parts are labelled
    step relations whose invariants are proved by induction on the run ([CachedWriter],
    [ChainClient], [TcpClient]); the command line client's goroutines are programs of a small
    language with sends, waits and timeouts, with a weakest-precondition logic over them
    ([TcpLogic]).

    ** Files

    - [Prelude]: bytes, outcomes and the computation monad, hex strings, list lemmas.
    - [GoLib]: 64-bit arithmetic, slices, strconv, encoding/binary in both byte orders, math/big;
      [HexCodec]: hex decoding, string trimming.
    - [Interfaces]: go-ethereum's hash functions and protobuf as classes, with instances.

    pkg/trie (a key-value map with a canonical root hash, stored as hashed nodes):
    - [HexEncoding]: node/encoding.go, the nibble and compact encodings of keys.
    - [Node]: the node types of node/*.go, their records and [DecodeNode].
    - [Tracer]: tracer.go, the record of inserted, deleted and read paths.
    - [Trie]: trie.go and trie_reader.go: get, insert, delete, resolve and the public operations.
    - [TrieSpec]: the abstract trie (an inductive tree without hashes) and its canonical form.
    - [Merkle]: the hash of an abstract trie and when a database stores it.
    - [TrieRefine]: a concrete node represents an abstract trie; get, insert and delete refine it.
    - [TrieMap]: an abstract trie holds a finite map; [Implements] is the contract clients use.
    - [Hasher]: hasher.go; hashing returns the abstract hash and keeps the representation.
    - [Commit], [CommitRefine]: committer.go, node/node_set.go; the node set a commit returns, written
      to the database, stores the trie.
    - [Traversal]: Count, GetAll, GetKeyValue, export and import, GetRootHash.
    - [TrieTheorems]: the trie's theorems and their witnesses.

    Stores (pkg/storage, pkg/ldb_storage, pkg/file_db and their kin):
    - [LevelDB]: a store with contents, read faults and atomic batches, and addresses; [LdbIter] adds
      ordered iteration over a key range.
    - [FreeGas], [FreeGasRefine], [FreeGasTheorems]: contract_free_gas_storage.go.
    - [BlsAccounts], [BlsAccountsRefine], [BlsAccountsTheorems]: bls_account_storage.go.
    - [Notifications]: the notification store and its pages.
    - [PrivateKeys]: the store of encrypted BLS keys.
    - [SimpleDB], [SimpleDBTheorems]: the file database and its recovery from the file.
    - [BatchLog]: the batch log format and its reader.
    - [ShardedDB], [ShardedDBTheorems]: the sharded database and where a key lives.
    - [CachedWriter], [CachedWriterTheorems]: the write-back cache over a batch writer, as a machine
      of callers and flushes.
    - [Storage]: memorydb.go and the storage interface the receipts write to.

    Network (pkg/network, pkg/connection_manager, pkg/loggers of events):
    - [CircuitBreaker]: circuit_breaker.go.
    - [Wire]: message framing; [Connection], [ConnectionTheorems]: connection.go, dialling, sending,
      the read loop and closing.
    - [Connections], [ConnectionsTheorems]: the connection table by type and address.
    - [SocketServer]: the accept loop, the handler and its route table.
    - [ChainPool]: the pool of chain connections; [ChainClient], [ChainClientTheorems]: the client that
      pairs requests with replies by id, as a machine of calls, replies, timeouts and reconnections.
    - [Subscriptions], [WsSubscriptions], [SubscriptionsTheorems]: event subscriptions, their table and
      their delivery.

    The proxy (cmd/rpc-client and the handlers of pkg):
    - [AccountAbi], [AccountHandler], [AccountHandlerFrame], [AccountToy], [AccountFlow],
      [AccountControl], [AccountRuns]: the account handler over the account, notification, free-gas
      and key stores: decoding, the queries, the registration and confirmation flows, access control.
    - [RobotHandler], [RobotTheorems]: the robot handler, its queues and its retry loops.
    - [FileHandler], [FileTheorems]: the file handler, chunked uploads and downloads.
    - [RpcServer], [RpcServerTheorems]: the proxy's connections and the answers it routes.
    - [RpcPayload]: the buffer pool and the body reader of pkg/rpc_client; [RpcClient],
      [RpcClientTheorems]: the client that builds, signs and sends the transactions of the proxy's users,
      over HTTP and over TCP.
    - [ErrorDecoder]: pkg/debug, the decoder of reverted calls.
    - [Proxy]: the handlers of cmd/rpc-client/handlers, the routing of HTTP requests and WebSocket messages
      (internal/proxy) and of endpoints (main.go), over the client, the key store, the registry of
      artifacts and the error decoder.
    - [ProxyTraffic]: [Body], the reading of request bodies and the accounting of their memory; [Traffic],
      a proxied WebSocket connection as a machine of readers, one goroutine per message and the main
      goroutine.
    - [TransactionArgs]: transaction_args.go, the defaults of calls and their messages.

    Node logic:
    - [AccountState]: pkg/state, accounts and contract state.
    - [ArgumentEncode]: pkg/smart_contract/argument_encode/decoder.go.
    - [Receipts], [ReceiptsTheorems]: pkg/receipt over the trie and a storage.
    - [Transaction], [TransactionTheorems]: pkg/transaction, against Ethereum's types and accounts;
      [TransactionErrors]: its table of errors, codes and hashes.
    - [Bls]: pkg/bls over blst, and the signatures it gives to transactions.

    The command line client (cmd/rpc-client/client-tcp):
    - [TcpClient]: its state, handler, router of receipts and goroutines; [TcpFlows]: its calls, files,
      subscriptions and communicator; [TcpLogic]: the program logic and the invariant of every run;
      [TcpClientTheorems]: what the runs guarantee.

    ** What is proved

    - Trie: any sequence of operations answers like a finite map; the root hash is a function of that
      map; commit, write and reload give the map back; node records and key encodings are lossless;
      Count and GetAll agree with the map.  What happens when a node is missing is stated as the code
      does it.
    - Receipts: after a commit every receipt is read back from storage, whatever the iteration and
      worker order; discarding returns to the last commit.  Proved against [Implements] and the
      storage laws only.
    - Free-gas lists and BLS accounts: each operation refines an operation on plain lists (append,
      swap-remove, window) and leaves every other list alone.  The free-gas code changes nothing when
      the store fails; for the BLS code the consequences of read faults, of a failure between its two
      batches and of two concurrent additions are theorems.
    - File database, sharded database, cached writer, notifications, private keys: the recovered
      contents, the shard a key is found in, what a flush may lose, the order of pages, decryption of
      what was encrypted.
    - Circuit breaker: an invariant of every reachable state, when it trips, what half-open admits.
    - Wire and connections: messages survive framing whatever the sizes of the reads, the read loop
      terminates, the table's two views agree.
    - Chain client and proxy: a reply reaches the call with its id and no other; an answer goes to the
      connection that asked.
    - Account, robot and file handlers: who may do what, which stores an operation may change, the
      order of a queue's transactions, that an upload writes only inside its directory and only with
      the declared chunks.
    - RPC client: what is posted decodes to the parts it was made from, at most three attempts, what
      is in a built transaction and who signed it, that the two transports build the same one, and
      that a pooled buffer has one owner.
    - Proxy: a private key is stored only for a signed, fresh and valid request of its own address; HTTP and
      WebSocket answer alike, and what a panicking handler does to a request on each; the identifiers of
      the answers; what a successful push of an artifact has verified and when the error decoder finds it;
      the text of a revert reaches the caller.
    - Bodies and traffic: a body is read whole or refused at the limit and gives its memory back; every
      request and message of a connection is accounted for exactly once in every interleaving; no
      goroutine is stuck on the error channel; a response belongs to a request of its connection.
    - Accounts: protobuf and JSON round trips, balances stay non-negative, the BLS key is set once.
    - Transactions: Ethereum transactions survive conversion, transport and back with a valid
      signature, with the exact exceptions; hash caches stay correct under the clearing setters; the
      hash determines every hashed field up to a Keccak collision; the fee check is equivalent to a
      possible debit; a registration that passes is signed with both keys.
    - Command line client: in every run a call returns success only for a receipt of the transaction
      it sent, and a receipt reaches the goroutine that waits for it; the ways in which it hangs,
      panics or answers wrongly are theorems about runs.

    ** Fuel

    The recursions of get, insert and delete follow the key but pass through resolved nodes, so they
    take fuel [walk_fuel], a bound computed from the key's length: every descent either consumes a
    nibble or resolves a hash node, which is followed by a node that consumes one.  The refinement
    theorems show that it never runs out on a represented trie.  The whole-trie walks take the fuel as
    an argument; their theorems give a bound beyond which the result does not change.  The numeric
    conversions of [GoLib] use fuel computed from the number, with the lemmas that it is enough.  The
    read loop of a connection takes fuel bounded by the bytes left ([read_loop_terminates]); retry
    loops recurse on the attempts the code allows, and polling loops on the code's own bound.

    ** Not modelled

    Goroutines inside an operation are read as their sequential result, except where an interleaving
    is the point (the machines named above and [BlsAccountsTheorems]).  Left out: what only hands calls on
    to a library (the LevelDB and Badger wrappers, the remote storage, the block number file, net/http's
    servers and reverse proxy, TLS, dialling and accepting sockets, quic-go), because it has no state of its
    own to reason about; logging, printing and the JSON of transactions and receipts; the external
    compilers and bytecode tools, which run other programs; the demonstration and benchmark programs under
    cmd; generated and vendored code (pkg/proto, generated ABI bindings, pkg/bls/blst).  The account and
    robot handlers are known to [Proxy] and [RpcServer] by what they answer, and proved on their own. *)

From stdpp Require Export prelude gmap strings list.
From Stdlib Require Export ZArith Lia ZifyNat.
From Stdlib Require Import Strings.Byte.

#[export] Set Default Goal Selector "!".

(** The hint database of the trie components. *)
Create HintDb trie.

(** ** Bytes

    A Go [byte] is the Standard Library's [byte]; arithmetic on it goes through
    [Z] and comes back with Go's wrap-around ([z2b]). *)

Abbreviation byte := Corelib.Init.Byte.byte.
Abbreviation bytes := (list byte).

Definition b2z (b : byte) : Z := Z.of_N (Byte.to_N b).

Definition z2b (z : Z) : byte :=
  match Byte.of_N (Z.to_N (z mod 256)) with Some b => b | None => Byte.x00 end.

#[export] Instance byte_eq_dec : EqDecision byte := Byte.byte_eq_dec.

#[export] Instance byte_inhabited : Inhabited byte := populate Byte.x00.

#[export] Program Instance byte_countable : Countable byte :=
  inj_countable Byte.to_N Byte.of_N _.
Next Obligation. exact Byte.of_to_N. Qed.

Lemma b2z_range b : (0 <= b2z b < 256)%Z.
Proof.
  unfold b2z. pose proof (Byte.to_N_bounded b).
  split; [apply N2Z.is_nonneg | lia].
Qed.

Lemma z2b_b2z b : z2b (b2z b) = b.
Proof.
  unfold z2b. rewrite Z.mod_small by apply b2z_range.
  unfold b2z. by rewrite N2Z.id, Byte.of_to_N.
Qed.

Lemma b2z_z2b z : b2z (z2b z) = (z mod 256)%Z.
Proof.
  unfold z2b, b2z. pose proof (Z.mod_pos_bound z 256 ltac:(lia)) as Hz.
  destruct (Byte.of_N (Z.to_N (z mod 256))) eqn:E.
  - apply Byte.to_of_N in E. rewrite E. apply Z2N.id; lia.
  - apply Byte.of_N_None_iff in E. lia.
Qed.

#[export] Instance b2z_inj : Inj (=) (=) b2z.
Proof. intros x y H. rewrite <- (z2b_b2z x), <- (z2b_b2z y). by f_equal. Qed.

(** ** Outcomes of Go functions

    A call returns, returns an error value, panics, or (for a fuelled recursion)
    runs out of fuel.  [comp] adds an explicit state that survives all four. *)

Inductive outcome (E A : Type) : Type :=
  | Ok (a : A)
  | Fail (e : E)
  | Panic
  | OutOfFuel.
Arguments Ok {_ _} _.
Arguments Fail {_ _} _.
Arguments Panic {_ _}.
Arguments OutOfFuel {_ _}.

Definition comp (St E A : Type) : Type := St → outcome E A * St.

#[export] Instance comp_ret {St E} : MRet (comp St E) := λ A a s, (Ok a, s).

#[export] Instance comp_bind {St E} : MBind (comp St E) := λ A B k m s,
  match m s with
  | (Ok a, s') => k a s'
  | (Fail e, s') => (Fail e, s')
  | (Panic, s') => (Panic, s')
  | (OutOfFuel, s') => (OutOfFuel, s')
  end.

Definition c_fail {St E A} (e : E) : comp St E A := λ s, (Fail e, s).
Definition c_panic {St E A} : comp St E A := λ s, (Panic, s).
Definition c_nofuel {St E A} : comp St E A := λ s, (OutOfFuel, s).
Definition c_modify {St E} (f : St → St) : comp St E unit := λ s, (Ok tt, f s).
Definition c_get {St E} : comp St E St := λ s, (Ok s, s).

(** [c_try m h] is Go's [if err != nil]: [h] continues with the result or the error. *)
Definition c_try {St E A B} (m : comp St E A) (h : A + E → comp St E B) : comp St E B :=
  λ s, match m s with
       | (Ok a, s') => h (inl a) s'
       | (Fail e, s') => h (inr e) s'
       | (Panic, s') => (Panic, s')
       | (OutOfFuel, s') => (OutOfFuel, s')
       end.

Lemma comp_bind_ok {St E A B} (k : A → comp St E B) (m : comp St E A) s a s' :
  m s = (Ok a, s') → (m ≫= k) s = k a s'.
Proof. intros H. unfold mbind, comp_bind. by rewrite H. Qed.

(** [lia] on goals with constant [/] and [mod]. *)
Ltac zlia := zify; Z.to_euclidean_division_equations; lia.

(** ** [encoding/hex] *)

Definition hex_digit (z : Z) : Ascii.ascii :=
  default Ascii.zero (String.get (Z.to_nat z) "0123456789abcdef").

Fixpoint hex_EncodeToString (b : bytes) : string :=
  match b with
  | [] => ""
  | x :: b => String (hex_digit (b2z x / 16)) (String (hex_digit (b2z x mod 16)) (hex_EncodeToString b))
  end.

Definition hex_pair (x : byte) : Ascii.ascii * Ascii.ascii :=
  (hex_digit (b2z x / 16), hex_digit (b2z x mod 16)).

Definition hex_unpair (p : Ascii.ascii * Ascii.ascii) : option byte :=
  list_find (λ x, hex_pair x = p) (z2b <$> seqZ 0 256) ≫= λ r, Some r.2.

Lemma hex_unpair_pair x : hex_unpair (hex_pair x) = Some x.
Proof. by destruct x; vm_compute. Qed.

#[export] Instance hex_pair_inj : Inj (=) (=) hex_pair.
Proof.
  intros x y E. pose proof (hex_unpair_pair x) as R. rewrite E, hex_unpair_pair in R. congruence.
Qed.

#[export] Instance hex_EncodeToString_inj : Inj (=) (=) hex_EncodeToString.
Proof.
  intros x. induction x as [|a x IH]; intros [|b y] E; simplify_eq/=; [done|].
  f_equal; [|by apply IH]. apply hex_pair_inj. unfold hex_pair. congruence.
Qed.

Lemma hex_EncodeToString_length b : String.length (hex_EncodeToString b) = 2 * length b.
Proof. induction b; simpl; lia. Qed.

(** ** Lists *)

Lemma alter_insert_list {A} (f : A → A) (l : list A) i x :
  l !! i = Some x → alter f i l = <[i := f x]> l.
Proof.
  intros Hx. apply list_eq. intros j. destruct (decide (i = j)) as [<-|].
  - rewrite list_lookup_alter_eq, list_lookup_insert_eq, Hx by (by eapply lookup_lt_Some). done.
  - by rewrite list_lookup_alter_ne, list_lookup_insert_ne.
Qed.
