(* ===== verification/GoLib.v ===== *)
(** * What the program uses of Go's standard library

    Fixed-width integers, [strconv], [strings.Repeat] and [encoding/binary]. *)

From S2P Require Import Prelude.
From stdpp Require Import strings.
From Stdlib Require Import Strings.Byte.

(** ** Fixed-width integers *)

Definition u64 (z : Z) : Z := (z mod 2 ^ 64)%Z.
Definition i64 (z : Z) : Z := ((z + 2 ^ 63) mod 2 ^ 64 - 2 ^ 63)%Z.

Lemma u64_small z : (0 ≤ z < 2 ^ 64)%Z → u64 z = z.
Proof. intros Hz. by apply Z.mod_small. Qed.

Lemma i64_small z : (- 2 ^ 63 ≤ z < 2 ^ 63)%Z → i64 z = z.
Proof. intros Hz. unfold i64. rewrite Z.mod_small; lia. Qed.

(** ** Strings and bytes *)

Abbreviation str_bytes := String.list_byte_of_string.
Abbreviation bytes_str := String.string_of_list_byte.

Lemma str_bytes_inv b : bytes_str (str_bytes b) = b.
Proof. apply String.string_of_list_byte_of_string. Qed.

Lemma str_app_length (a b : string) : String.length (a +:+ b) = (String.length a + String.length b)%nat.
Proof. induction a as [|c a IH]; simpl; [done|]. by rewrite IH. Qed.

Lemma str_app_assoc (a b c : string) : (a +:+ b) +:+ c = a +:+ (b +:+ c).
Proof. induction a as [|x a IH]; [done|]. exact (f_equal (String x) IH). Qed.

Lemma str_app_inj_l (p a b : string) : p +:+ a = p +:+ b → a = b.
Proof. induction p as [|c p IH]; simpl; [done|]. intros [= E]. auto. Qed.

Lemma str_app_inj_len (a b c d : string) : String.length a = String.length b → a +:+ c = b +:+ d → a = b ∧ c = d.
Proof.
  revert b. induction a as [|x a IH]; intros [|y b] Hl E; simplify_eq/=; [done|].
  destruct (IH b) as [-> ->]; [lia|done..].
Qed.

(** Two prefixes neither of which extends the other. *)
Fixpoint diverge (p q : string) : bool :=
  match p, q with
  | String c p, String d q => if decide (c = d) then diverge p q else true
  | _, _ => false
  end.

Lemma diverge_ne p q a b : diverge p q = true → p +:+ a ≠ q +:+ b.
Proof.
  revert q. induction p as [|c p IH]; intros [|d q] E; simpl in *; try done.
  destruct (decide (c = d)) as [->|Hn]; intros [= Eq]; [by apply (IH q)|].
  by apply Hn.
Qed.

Lemma str_app_nil_r (p : string) : p +:+ EmptyString = p.
Proof. induction p as [|c p IH]; [done|]. exact (f_equal (String c) IH). Qed.

Lemma diverge_ne_l p q b : diverge p q = true → p ≠ q +:+ b.
Proof. intros E. rewrite <- (str_app_nil_r p). by apply diverge_ne. Qed.

(** ** Slices *)

Definition zeros (n : nat) : bytes := replicate n x00.

(** [copy(dst, src)] overwrites the first min(len dst, len src) bytes of [dst]. *)
Definition go_copy (dst src : bytes) : bytes :=
  take (Nat.min (length dst) (length src)) src ++ drop (Nat.min (length dst) (length src)) dst.

(** [copy(dst[off:], src)] *)
Definition copy_at (dst : bytes) (off : nat) (src : bytes) : bytes :=
  take off dst ++ go_copy (drop off dst) src.

(** [b[lo:hi]]; [None] is the bounds panic. *)
Definition go_slice (b : bytes) (lo hi : Z) : option bytes :=
  if (lo <=? hi)%Z && (hi <=? Z.of_nat (length b))%Z && (0 <=? lo)%Z
  then Some (take (Z.to_nat (hi - lo)) (drop (Z.to_nat lo) b)) else None.

Lemma go_copy_full dst src : length dst = length src → go_copy dst src = src.
Proof.
  intros E. unfold go_copy. rewrite E, Nat.min_id, take_ge by lia. rewrite drop_ge by lia. apply app_nil_r.
Qed.

Lemma go_copy_prefix dst src : length src ≤ length dst → go_copy dst src = src ++ drop (length src) dst.
Proof. intros E. unfold go_copy. rewrite Nat.min_r by lia. by rewrite take_ge by lia. Qed.

Lemma go_slice_app a b c lo hi : Z.of_nat (length a) = lo → (Z.of_nat (length a) + Z.of_nat (length b))%Z = hi →
  go_slice (a ++ b ++ c) lo hi = Some b.
Proof.
  intros <- <-. unfold go_slice. rewrite !length_app.
  rewrite (proj2 (Z.leb_le _ _)), (proj2 (Z.leb_le _ _)), (proj2 (Z.leb_le _ _)) by lia. simpl. f_equal.
  rewrite Nat2Z.id, drop_app_length.
  replace (Z.to_nat (Z.of_nat (length a) + Z.of_nat (length b) - Z.of_nat (length a))) with (length b) by lia.
  apply take_app_length.
Qed.

(** ** strconv *)

Definition digit_char (d : Z) : Ascii.ascii := Ascii.ascii_of_nat (48 + Z.to_nat d).

Definition char_digit (c : Ascii.ascii) : option Z :=
  let n := Z.of_nat (Ascii.nat_of_ascii c) in
  if decide (48 ≤ n ≤ 57)%Z then Some (n - 48)%Z else None.

Fixpoint digits (fuel : nat) (n : Z) : list Z :=
  match fuel with
  | O => []
  | S fuel => if (n <? 10)%Z then [n] else digits fuel (n / 10) ++ [n mod 10]%Z
  end.

Definition of_digits (ds : list Z) : Z := foldl (λ a d, (a * 10 + d)%Z) 0%Z ds.

Definition digits_str (ds : list Z) : string := String.string_of_list_ascii (digit_char <$> ds).

(** [FormatUint(n, 10)]: twenty digits hold any uint64. *)
Definition FormatUint (n : Z) : string := digits_str (digits 20 n).

(** [ParseUint(s, 10, 64)] *)
Definition ParseUint (s : string) : option Z :=
  match s with
  | EmptyString => None
  | _ =>
    ds ← mapM char_digit (String.list_ascii_of_string s);
    let v := of_digits ds in
    if (v <? 2 ^ 64)%Z then Some v else None
  end.

Definition strings_Repeat (s : string) (n : nat) : string := Nat.iter n (λ r, s +:+ r) EmptyString.

Lemma char_digit_char d : (0 ≤ d < 10)%Z → char_digit (digit_char d) = Some d.
Proof.
  intros Hd. unfold char_digit, digit_char. rewrite Ascii.nat_ascii_embedding by lia.
  rewrite decide_True by lia. f_equal. lia.
Qed.

Lemma digits_bounds fuel n : (0 ≤ n)%Z → Forall (λ d, (0 ≤ d < 10)%Z) (digits fuel n).
Proof.
  revert n. induction fuel as [|fuel IH]; intros n Hn; simpl; [constructor|].
  destruct (Z.ltb_spec n 10); [by repeat constructor; lia|].
  apply Forall_app. split; [apply IH; zlia|]. repeat constructor; zlia.
Qed.

Lemma of_digits_snoc ds d : of_digits (ds ++ [d]) = (of_digits ds * 10 + d)%Z.
Proof. unfold of_digits. by rewrite foldl_app. Qed.

Lemma of_digits_digits fuel n : (0 ≤ n < 10 ^ Z.of_nat fuel)%Z → of_digits (digits fuel n) = n.
Proof.
  revert n. induction fuel as [|fuel IH]; intros n Hn; [change (0 = n)%Z; simpl in Hn; lia|].
  cbn [digits]. destruct (Z.ltb_spec n 10); [done|]. rewrite of_digits_snoc, IH; [zlia|].
  rewrite Nat2Z.inj_succ, Z.pow_succ_r in Hn by lia. split; [zlia|].
  apply Z.div_lt_upper_bound; lia.
Qed.

Lemma digits_nonempty fuel n : digits (S fuel) n ≠ [].
Proof. cbn [digits]. destruct (n <? 10)%Z; [done|]. by destruct (digits fuel (n / 10)). Qed.

Lemma parse_digits_str ds : ds ≠ [] → Forall (λ d, (0 ≤ d < 10)%Z) ds → (of_digits ds < 2 ^ 64)%Z →
  ParseUint (digits_str ds) = Some (of_digits ds).
Proof.
  intros Hne Hds Hv. unfold ParseUint, digits_str.
  rewrite String.list_ascii_of_string_of_list_ascii.
  assert (mapM char_digit (digit_char <$> ds) = Some ds) as ->.
  { apply mapM_Some, Forall2_fmap_l, Forall_Forall2_diag. eapply Forall_impl; [exact Hds|].
    intros d Hd. by apply char_digit_char. }
  cbn [mbind option_bind]. apply Z.ltb_lt in Hv. rewrite Hv. by destruct ds.
Qed.

Lemma digits_str_zeros k ds : strings_Repeat "0" k +:+ digits_str ds = digits_str (replicate k 0%Z ++ ds).
Proof. induction k as [|k IH]; [done|]. exact (f_equal (String (digit_char 0)) IH). Qed.

Lemma of_digits_zeros k ds : of_digits (replicate k 0%Z ++ ds) = of_digits ds.
Proof. unfold of_digits. rewrite foldl_app. f_equal. induction k; simpl; done. Qed.

(** A zero-padded number parses back. *)
Lemma ParseUint_padded k n : (0 ≤ n < 2 ^ 64)%Z →
  ParseUint (strings_Repeat "0" k +:+ FormatUint n) = Some n.
Proof.
  intros Hn. unfold FormatUint. rewrite digits_str_zeros.
  assert (of_digits (replicate k 0%Z ++ digits 20 n) = n) as E.
  { rewrite of_digits_zeros. apply of_digits_digits. lia. }
  rewrite parse_digits_str, E; [done| |..].
  - intros [_ Hnil]%app_eq_nil. by apply digits_nonempty in Hnil.
  - apply Forall_app. split; [apply Forall_replicate; lia|apply digits_bounds; lia].
  - lia.
Qed.

(** ** encoding/binary *)

Fixpoint be_bytes (k : nat) (n : Z) : bytes :=
  match k with O => [] | S k => be_bytes k (n / 256) ++ [z2b n] end.

Definition PutUint64 (n : Z) : bytes := be_bytes 8 n.

(** [BigEndian.Uint64]: [None] is the index panic on a short slice. *)
Definition Uint64 (b : bytes) : option Z :=
  if (8 <=? length b)%nat then Some (foldl (λ a x, (a * 256 + b2z x)%Z) 0%Z (take 8 b)) else None.

Lemma be_bytes_length k n : length (be_bytes k n) = k.
Proof. revert n. induction k as [|k IH]; intros n; simpl; [done|]. rewrite length_app, IH. simpl. lia. Qed.

Lemma be_bytes_value k n : (0 ≤ n < 256 ^ Z.of_nat k)%Z →
  foldl (λ a x, (a * 256 + b2z x)%Z) 0%Z (be_bytes k n) = n.
Proof.
  revert n. induction k as [|k IH]; intros n Hn; [simpl in *; lia|].
  cbn [be_bytes]. rewrite foldl_app, IH.
  - simpl. rewrite b2z_z2b. zlia.
  - rewrite Nat2Z.inj_succ, Z.pow_succ_r in Hn by lia. split; [zlia|]. apply Z.div_lt_upper_bound; lia.
Qed.

Lemma Uint64_PutUint64 n : (0 ≤ n < 2 ^ 64)%Z → Uint64 (PutUint64 n) = Some n.
Proof.
  intros Hn. unfold Uint64, PutUint64. rewrite be_bytes_length. cbn [Nat.leb].
  rewrite take_ge by (by rewrite be_bytes_length). by rewrite be_bytes_value.
Qed.

(** ** math/big *)

(** [Bytes]: the absolute value in big-endian order, without leading zeros. *)
Fixpoint min_bytes (fuel : nat) (n : Z) : bytes :=
  match fuel with
  | O => []
  | S fuel => if (n =? 0)%Z then [] else min_bytes fuel (n / 256) ++ [z2b n]
  end.

Definition big_fuel (n : Z) : nat := S (Z.to_nat (Z.log2 n)).

Definition big_Bytes (z : Z) : bytes := min_bytes (big_fuel (Z.abs z)) (Z.abs z).

Definition big_SetBytes (b : bytes) : Z := foldl (λ a x, (a * 256 + b2z x)%Z) 0%Z b.

(** [String] and [SetString(s, 10)] *)
Definition big_String (z : Z) : string :=
  let s := digits_str (digits (big_fuel (Z.abs z)) (Z.abs z)) in
  if (z <? 0)%Z then String.String (Ascii.ascii_of_nat 45) s else s.

Definition parse_nat (s : string) : option Z :=
  match s with
  | EmptyString => None
  | _ => of_digits <$> mapM char_digit (String.list_ascii_of_string s)
  end.

(** An optional sign, then digits. *)
Definition big_SetString (s : string) : option Z :=
  match s with
  | String.String c s' =>
    if decide (c = Ascii.ascii_of_nat 45) then Z.opp <$> parse_nat s'
    else if decide (c = Ascii.ascii_of_nat 43) then parse_nat s'
    else parse_nat s
  | EmptyString => None
  end.

Lemma big_fuel_bound b n : (2 ≤ b)%Z → (0 ≤ n)%Z → (n < b ^ Z.of_nat (big_fuel n))%Z.
Proof.
  intros Hb Hn. unfold big_fuel. rewrite Nat2Z.inj_succ, Z2Nat.id by apply Z.log2_nonneg.
  destruct (decide (n = 0%Z)) as [->|Hne]; [apply Z.pow_pos_nonneg; [lia|simpl; lia]|].
  eapply Z.lt_le_trans; [apply Z.log2_spec; lia|].
  apply Z.pow_le_mono_l; lia.
Qed.

Lemma min_bytes_value fuel n : (0 ≤ n < 256 ^ Z.of_nat fuel)%Z → big_SetBytes (min_bytes fuel n) = n.
Proof.
  unfold big_SetBytes. revert n. induction fuel as [|fuel IH]; intros n Hn; [simpl in *; lia|].
  cbn [min_bytes]. destruct (Z.eqb_spec n 0) as [->|Hne]; [done|].
  rewrite foldl_app, IH.
  - simpl. rewrite b2z_z2b. zlia.
  - rewrite Nat2Z.inj_succ, Z.pow_succ_r in Hn by lia. split; [zlia|]. apply Z.div_lt_upper_bound; lia.
Qed.

(** The sign is lost. *)
Lemma big_SetBytes_Bytes z : big_SetBytes (big_Bytes z) = Z.abs z.
Proof. apply min_bytes_value. split; [lia|]. apply big_fuel_bound; lia. Qed.

Lemma parse_nat_digits ds : ds ≠ [] → Forall (λ d, (0 ≤ d < 10)%Z) ds →
  parse_nat (digits_str ds) = Some (of_digits ds).
Proof.
  intros Hne Hds. unfold parse_nat, digits_str. rewrite String.list_ascii_of_string_of_list_ascii.
  assert (mapM char_digit (digit_char <$> ds) = Some ds) as ->; [|by destruct ds].
  apply mapM_Some, Forall2_fmap_l, Forall_Forall2_diag. eapply Forall_impl; [exact Hds|].
  intros d Hd. by apply char_digit_char.
Qed.

Lemma digit_char_not_sign d : (0 ≤ d < 10)%Z →
  digit_char d ≠ Ascii.ascii_of_nat 45 ∧ digit_char d ≠ Ascii.ascii_of_nat 43.
Proof.
  intros Hd. split; intros E; apply (f_equal Ascii.nat_of_ascii) in E; unfold digit_char in E;
    rewrite !Ascii.nat_ascii_embedding in E; lia.
Qed.

Lemma big_SetString_String z : big_SetString (big_String z) = Some z.
Proof.
  unfold big_String. set (ds := digits (big_fuel (Z.abs z)) (Z.abs z)).
  assert (Forall (λ d, (0 ≤ d < 10)%Z) ds) as Hds by (apply digits_bounds; lia).
  assert (ds ≠ []) as Hne by apply digits_nonempty.
  assert (of_digits ds = Z.abs z) as Hv by (apply of_digits_digits; split; [lia|apply big_fuel_bound; lia]).
  pose proof (parse_nat_digits ds Hne Hds) as Hp. rewrite Hv in Hp.
  destruct (Z.ltb_spec z 0).
  - unfold big_SetString. rewrite decide_True by done. rewrite Hp. simpl. f_equal. lia.
  - assert (Z.abs z = z) as Ez by lia. rewrite Ez in Hp.
    destruct ds as [|d ds']; [done|]. inversion Hds as [|? ? Hd _]; subst.
    destruct (digit_char_not_sign d Hd). unfold big_SetString.
    change (digits_str (d :: ds')) with (String.String (digit_char d) (digits_str ds')) in *.
    cbn iota. by rewrite !decide_False.
Qed.

#[global] Arguments PutUint64 : simpl never.
#[global] Arguments Uint64 : simpl never.
#[global] Arguments big_Bytes : simpl never.
#[global] Arguments big_SetBytes : simpl never.
#[global] Arguments big_String : simpl never.
#[global] Arguments big_SetString : simpl never.
#[global] Arguments FormatUint : simpl never.
#[global] Arguments ParseUint : simpl never.

(** ** Little-endian integers and length-prefixed records

    Shared by the file database, the batch logs and the wire protocol. *)

Definition le_bytes (k : nat) (z : Z) : bytes := rev (be_bytes k z).
Definition le_value (b : bytes) : Z := foldl (λ a x, (a * 256 + b2z x)%Z) 0%Z (rev b).

Lemma le_bytes_length k z : length (le_bytes k z) = k.
Proof. unfold le_bytes. by rewrite length_rev, be_bytes_length. Qed.

Lemma le_value_bytes k z : (0 ≤ z < 256 ^ Z.of_nat k)%Z → le_value (le_bytes k z) = z.
Proof. intros Hz. unfold le_value, le_bytes. rewrite rev_involutive. by apply be_bytes_value. Qed.

Lemma le_value_range b : (0 ≤ le_value b < 256 ^ Z.of_nat (length b))%Z.
Proof.
  unfold le_value. rewrite <- length_rev. induction (rev b) as [|x l IH] using rev_ind; [simpl; lia|].
  rewrite foldl_app, length_app. cbn [foldl length]. rewrite Nat2Z.inj_add, Z.pow_add_r by lia. pose proof (b2z_range x). simpl (256 ^ Z.of_nat 1)%Z. nia.
Qed.

(** A record with its length in front, as eight little-endian bytes. *)
Definition frame (b : bytes) : bytes := le_bytes 8 (Z.of_nat (length b)) ++ b.

Lemma frame_length b : length (frame b) = 8 + length b.
Proof. unfold frame. by rewrite length_app, le_bytes_length. Qed.

Lemma frame_header b (rest : bytes) : take 8 (frame b ++ rest) = le_bytes 8 (Z.of_nat (length b)).
Proof. unfold frame. rewrite <- app_assoc. apply take_app_length'. by rewrite le_bytes_length. Qed.

Lemma frame_body b rest : drop 8 (frame b ++ rest) = b ++ rest.
Proof. unfold frame. rewrite <- app_assoc. apply drop_app_length'. by rewrite le_bytes_length. Qed.

Lemma frame_value (b : bytes) : (Z.of_nat (length b) < 2 ^ 64)%Z → le_value (le_bytes 8 (Z.of_nat (length b))) = Z.of_nat (length b).
Proof. intros Hb. apply le_value_bytes. change (256 ^ Z.of_nat 8)%Z with (2 ^ 64)%Z. lia. Qed.
