(* ===== verification/HexEncoding.v ===== *)
(** * Key encodings of the trie ([pkg/trie/node/encoding.go])

    Three encodings of a key: key bytes, hex (one nibble per byte, terminator 16
    for a key that ends at a value) and compact (two nibbles per byte behind a
    flag nibble).  The file models every function of encoding.go; the same code
    is duplicated in [pkg/common/encoding.go]. *)

From S2P Require Import Prelude.
From Stdlib Require Import Strings.Byte.

(** The terminator nibble, 16. *)
Definition terminator : byte := Byte.x10.

(** [nibbles[ni]<<4 | nibbles[ni+1]], with the shift truncated to a byte. *)
Definition pack (hi lo : byte) : byte :=
  z2b (Z.lor (b2z (z2b (Z.shiftl (b2z hi) 4))) (b2z lo)).

(** [decodeNibbles]: [None] is the index panic on an odd number of nibbles. *)
Fixpoint decodeNibbles (nibbles : bytes) : option bytes :=
  match nibbles with
  | [] => Some []
  | [_] => None
  | hi :: lo :: rest => cons (pack hi lo) <$> decodeNibbles rest
  end.

Definition KeybytesToHex (str : bytes) : bytes :=
  (str ≫= λ b, [z2b (b2z b / 16); z2b (b2z b mod 16)]) ++ [terminator].

Definition HasTerm (s : bytes) : bool :=
  match last s with Some b => bool_decide (b = terminator) | None => false end.

(** [hex[:len(hex)-1]] when the terminator is present. *)
Definition dropTerm (hex : bytes) : bytes :=
  if HasTerm hex then take (length hex - 1) hex else hex.

(** [None] is the panic "can't convert hex key of odd length". *)
Definition HexToKeybytes (hex : bytes) : option bytes :=
  let hex := dropTerm hex in
  if Nat.odd (length hex) then None else decodeNibbles hex.

Definition HexToCompact (hex : bytes) : bytes :=
  let flag := if HasTerm hex then 32%Z else 0%Z in
  let hex := dropTerm hex in
  if Nat.odd (length hex) then
    match hex with
    | h0 :: hex' => z2b (Z.lor (Z.lor flag 16) (b2z h0)) :: default [] (decodeNibbles hex')
    | [] => [z2b flag]
    end
  else z2b flag :: default [] (decodeNibbles hex).

Definition CompactToHex (compact : bytes) : bytes :=
  if decide (compact = []) then compact else
  let base := KeybytesToHex compact in
  let b0 := match base with b :: _ => b2z b | [] => 0%Z end in
  let base := if (b0 <? 2)%Z then take (length base - 1) base else base in
  drop (Z.to_nat (2 - Z.land b0 1)) base.

(** The in-place loop: [hex[bi] = hex[ni]<<4 | hex[ni+1]]; [None] is an index panic.
    [fuel] bounds the iterations; [length hex] is always enough. *)
Fixpoint compactLoop (fuel bi ni hexLen : nat) (hex : bytes) : option bytes :=
  match fuel with
  | O => Some hex
  | S fuel =>
    if (ni <? hexLen)%nat then
      match hex !! ni, hex !! (ni + 1)%nat with
      | Some hi, Some lo =>
        if (bi <? length hex)%nat
        then compactLoop fuel (bi + 1) (ni + 2) hexLen (<[bi := pack hi lo]> hex)
        else None
      | _, _ => None
      end
    else Some hex
  end.

Definition hexToCompactInPlace (hex : bytes) : option bytes :=
  let term := HasTerm hex in
  let hexLen := if term then (length hex - 1)%nat else length hex in
  let firstByte := if term then 32%Z else 0%Z in
  let binLen := (hexLen / 2 + 1)%nat in
  let odd := Nat.odd hexLen in
  let firstByte := if odd
                   then Z.lor (Z.lor firstByte 16) (match hex with h :: _ => b2z h | [] => 0%Z end)
                   else firstByte in
  let ni := if odd then 1%nat else 0%nat in
  match compactLoop (length hex) 1 ni hexLen hex with
  | Some hex' =>
    if (0 <? length hex')%nat
    then Some (take binLen (<[0%nat := z2b firstByte]> hex'))
    else None
  | None => None
  end.

Fixpoint PrefixLen (a b : bytes) : nat :=
  match a, b with
  | x :: a', y :: b' => if decide (x = y) then S (PrefixLen a' b') else 0%nat
  | _, _ => 0%nat
  end.

(** ** Hex keys *)

Definition nibble (b : byte) : Prop := (b2z b < 16)%Z.

#[export] Instance nibble_dec b : Decision (nibble b).
Proof. unfold nibble. apply _. Defined.

(** A complete key: nibbles closed by the terminator. *)
Definition hexkey (k : bytes) : Prop := ∃ l, k = l ++ [terminator] ∧ Forall nibble l.

(** The keys a short node may carry: a complete key, or nibbles only. *)
Definition hexpath (k : bytes) : Prop := hexkey k ∨ Forall nibble k.

Lemma nibble_elem b : nibble b →
  b ∈ [x00; x01; x02; x03; x04; x05; x06; x07; x08; x09; x0a; x0b; x0c; x0d; x0e; x0f]%byte.
Proof.
  intros H. pose proof (b2z_range b). rewrite <- (z2b_b2z b).
  change (z2b (b2z b) ∈ z2b <$> seqZ 0 16).
  apply list_elem_of_fmap. exists (b2z b). split; [done|].
  apply elem_of_seqZ. unfold nibble in H. lia.
Qed.

(** Case analysis over the sixteen nibbles, closing each case by computation. *)
Ltac nibble_cases :=
  repeat match goal with
  | H : nibble ?b |- _ => apply nibble_elem in H
  | H : _ ∈ _ :: _ |- _ => apply elem_of_cons in H as [->|H]
  | H : _ ∈ [] |- _ => by apply elem_of_nil in H
  end.

Lemma nibble_not_term b : nibble b → b ≠ terminator.
Proof. intros H ->. by vm_compute in H. Qed.

Lemma term_not_nibble : ¬ nibble terminator.
Proof. intros H. by apply nibble_not_term in H. Qed.

Lemma pack_split hi lo : nibble hi → nibble lo →
  z2b (b2z (pack hi lo) / 16) = hi ∧ z2b (b2z (pack hi lo) mod 16) = lo.
Proof. intros H1 H2. nibble_cases; by vm_compute. Qed.

Lemma split_pack b : pack (z2b (b2z b / 16)) (z2b (b2z b mod 16)) = b.
Proof. by destruct b; vm_compute. Qed.

Lemma split_nibbles b : nibble (z2b (b2z b / 16)) ∧ nibble (z2b (b2z b mod 16)).
Proof.
  unfold nibble. pose proof (b2z_range b). rewrite !b2z_z2b.
  split; zlia.
Qed.

Lemma HasTerm_snoc l : HasTerm (l ++ [terminator]) = true.
Proof. unfold HasTerm. rewrite last_snoc. by apply bool_decide_true. Qed.

Lemma HasTerm_nibbles l : Forall nibble l → HasTerm l = false.
Proof.
  intros H. unfold HasTerm. destruct (last l) as [b|] eqn:E; [|done].
  apply bool_decide_false, nibble_not_term.
  apply last_Some_elem_of in E. by eapply Forall_forall.
Qed.

Lemma HasTerm_hexkey k : hexkey k → HasTerm k = true.
Proof. intros (l & -> & _). apply HasTerm_snoc. Qed.

Lemma dropTerm_snoc l : dropTerm (l ++ [terminator]) = l.
Proof.
  unfold dropTerm. rewrite HasTerm_snoc, length_app. simpl.
  replace (length l + 1 - 1)%nat with (length l) by lia. apply take_app_length.
Qed.

Lemma dropTerm_nibbles l : Forall nibble l → dropTerm l = l.
Proof. intros H. unfold dropTerm. by rewrite HasTerm_nibbles. Qed.

(** ** Round trips *)

Lemma decodeNibbles_split (k : bytes) :
  decodeNibbles (k ≫= λ b, [z2b (b2z b / 16); z2b (b2z b mod 16)]) = Some k.
Proof.
  induction k as [|b k IH]; [done|].
  rewrite bind_cons. cbn [app decodeNibbles]. rewrite IH. simpl. by rewrite split_pack.
Qed.

Lemma decodeNibbles_even (l : bytes) :
  Nat.even (length l) = true → Forall nibble l →
  ∃ k, decodeNibbles l = Some k ∧
       (k ≫= λ b, [z2b (b2z b / 16); z2b (b2z b mod 16)]) = l ∧ length l = (2 * length k)%nat.
Proof.
  remember (length l) as n eqn:Hn. revert l Hn.
  induction n as [n IH] using lt_wf_ind. intros [|hi [|lo rest]] Hn Hev Hf; simpl in *; subst.
  - by exists [].
  - done.
  - inversion Hf as [|?? Hhi Hf']; subst. inversion Hf' as [|?? Hlo Hf'']; subst.
    destruct (IH (length rest) ltac:(lia) rest eq_refl Hev Hf'') as (k & -> & Hk & Hlen).
    exists (pack hi lo :: k). destruct (pack_split hi lo Hhi Hlo) as [E1 E2].
    split; [done|]. split; [|simpl; lia].
    by rewrite bind_cons, E1, E2, Hk.
Qed.

Lemma KeybytesToHex_hexkey k : hexkey (KeybytesToHex k).
Proof.
  eexists. split; [done|]. induction k as [|b k IH]; [constructor|].
  destruct (split_nibbles b). rewrite bind_cons. by repeat constructor.
Qed.

Lemma even_split_length (k : bytes) :
  length (k ≫= λ b, [z2b (b2z b / 16); z2b (b2z b mod 16)]) = (2 * length k)%nat.
Proof. induction k as [|b k IH]; [done|]. rewrite bind_cons, length_app, IH. simpl. lia. Qed.

Lemma KeybytesToHex_length k : length (KeybytesToHex k) = (2 * length k + 1)%nat.
Proof. unfold KeybytesToHex. by rewrite length_app, even_split_length. Qed.

Lemma odd_double n : Nat.odd (2 * n) = false.
Proof. rewrite Nat.odd_mul. done. Qed.

(** Decoding the hex form of a key gives the key back: no panic, no loss. *)
Lemma HexToKeybytes_KeybytesToHex k : HexToKeybytes (KeybytesToHex k) = Some k.
Proof.
  unfold HexToKeybytes, KeybytesToHex.
  rewrite dropTerm_snoc, even_split_length, odd_double. apply decodeNibbles_split.
Qed.

#[export] Instance KeybytesToHex_inj : Inj (=) (=) KeybytesToHex.
Proof.
  intros x y H. apply (f_equal HexToKeybytes) in H.
  rewrite !HexToKeybytes_KeybytesToHex in H. by injection H.
Qed.

(** Compact flag bytes: the low nibble survives, the high nibble is the flag. *)
Lemma flag_split (f : Z) (h : byte) : f ∈ [0; 32]%Z → nibble h →
  b2z (z2b (Z.lor (Z.lor f 16) (b2z h))) = (f + 16 + b2z h)%Z.
Proof.
  intros Hf Hh. nibble_cases; by vm_compute.
Qed.

Lemma HexToCompact_even (l : bytes) (f : Z) :
  Nat.odd (length l) = false → Forall nibble l → f ∈ [0; 32]%Z →
  CompactToHex (z2b f :: default [] (decodeNibbles l)) =
    l ++ (if decide (f = 32%Z) then [terminator] else []).
Proof.
  intros Hodd Hl Hf.
  assert (Nat.even (length l) = true) as Hev by (by rewrite <- Nat.negb_odd, Hodd).
  destruct (decodeNibbles_even l Hev Hl) as (k & -> & Hk & _). simpl default.
  unfold CompactToHex. rewrite decide_False by done.
  unfold KeybytesToHex. rewrite bind_cons, Hk.
  apply elem_of_cons in Hf as [->|Hf]; [|apply list_elem_of_singleton in Hf as ->].
  - cbn -[terminator app take length drop].
    replace (take _ _) with (z2b 0 :: z2b 0 :: l).
    + cbn. by rewrite app_nil_r.
    + change (z2b 0 :: z2b 0 :: l ++ [terminator]) with ((z2b 0 :: z2b 0 :: l) ++ [terminator]).
      rewrite length_app. rewrite take_app_le by (simpl; lia).
      rewrite take_ge; [done|simpl; lia].
  - done.
Qed.

Lemma HexToCompact_odd (h : byte) (l : bytes) (f : Z) :
  Nat.odd (S (length l)) = true → nibble h → Forall nibble l → f ∈ [0; 32]%Z →
  CompactToHex (z2b (Z.lor (Z.lor f 16) (b2z h)) :: default [] (decodeNibbles l)) =
    h :: l ++ (if decide (f = 32%Z) then [terminator] else []).
Proof.
  intros Hodd Hh Hl Hf.
  assert (Nat.even (length l) = true) as Hev by (by rewrite Nat.odd_succ in Hodd).
  destruct (decodeNibbles_even l Hev Hl) as (k & -> & Hk & _). simpl default.
  unfold CompactToHex. rewrite decide_False by done.
  unfold KeybytesToHex. rewrite bind_cons, Hk. rewrite flag_split by done.
  pose proof (b2z_range h). unfold nibble in Hh.
  apply elem_of_cons in Hf as [->|Hf]; [|apply list_elem_of_singleton in Hf as ->].
  - replace ((0 + 16 + b2z h) / 16)%Z with 1%Z by zlia.
    replace ((0 + 16 + b2z h) mod 16)%Z with (b2z h) by zlia. rewrite z2b_b2z.
    cbn -[terminator app take length drop].
    replace (take _ _) with (z2b 1 :: h :: l).
    + cbn. by rewrite app_nil_r.
    + change (z2b 1 :: h :: l ++ [terminator]) with ((z2b 1 :: h :: l) ++ [terminator]).
      rewrite length_app. rewrite take_app_le by (simpl; lia).
      rewrite take_ge; [done|simpl; lia].
  - replace ((32 + 16 + b2z h) / 16)%Z with 3%Z by zlia.
    replace ((32 + 16 + b2z h) mod 16)%Z with (b2z h) by zlia. by rewrite z2b_b2z.
Qed.

Lemma compact_body_roundtrip (l : bytes) (f : Z) :
  Forall nibble l → f ∈ [0; 32]%Z →
  CompactToHex (if Nat.odd (length l) then
    match l with
    | h0 :: l' => z2b (Z.lor (Z.lor f 16) (b2z h0)) :: default [] (decodeNibbles l')
    | [] => [z2b f]
    end
    else z2b f :: default [] (decodeNibbles l)) =
  l ++ (if decide (f = 32%Z) then [terminator] else []).
Proof.
  intros Hl Hf. destruct (Nat.odd (length l)) eqn:E; [|by apply HexToCompact_even].
  destruct l as [|h l]; [done|]. inversion Hl; subst. by apply HexToCompact_odd.
Qed.

Lemma CompactToHex_HexToCompact k : hexpath k → CompactToHex (HexToCompact k) = k.
Proof.
  intros [(l & -> & Hl)|Hl]; unfold HexToCompact.
  - rewrite HasTerm_snoc, dropTerm_snoc. rewrite compact_body_roundtrip; [done..|set_solver].
  - rewrite HasTerm_nibbles, dropTerm_nibbles by done.
    rewrite compact_body_roundtrip; [simpl; by rewrite app_nil_r|done|set_solver].
Qed.

(** ** The in-place variant *)

Lemma compactLoop_spec fuel : ∀ bi ni hexLen hex rest dec,
  hexLen ≤ length hex → drop ni (take hexLen hex) = rest → decodeNibbles rest = Some dec →
  length rest ≤ fuel → bi ≤ ni + 1 →
  ∃ hex', compactLoop fuel bi ni hexLen hex = Some hex' ∧ length hex' = length hex ∧
          take (bi + length dec) hex' = take bi hex ++ dec.
Proof.
  induction fuel as [|fuel IH]; intros bi ni hexLen hex rest dec Hlen Hrest Hdec Hfuel Hbi.
  { destruct rest; [|simpl in *; lia]. simplify_eq/=. exists hex.
    rewrite Nat.add_0_r, app_nil_r. done. }
  assert (length rest = hexLen - ni) as Hlr by (rewrite <- Hrest, length_drop, length_take; lia).
  cbn [compactLoop]. destruct (Nat.ltb_spec ni hexLen) as [Hlt|Hge]; last first.
  { destruct rest; [|simpl in *; lia]. simplify_eq/=. exists hex.
    rewrite Nat.add_0_r, app_nil_r. done. }
  destruct rest as [|hi [|lo rest]]; [simpl in *; lia|done|].
  assert (∀ j x, (hi :: lo :: rest) !! j = Some x → hex !! (ni + j) = Some x) as Hlook.
  { intros j x Hj. rewrite <- Hrest, lookup_drop in Hj.
    rewrite lookup_take_Some in Hj. tauto. }
  pose proof (Hlook 0 hi eq_refl) as H0. rewrite Nat.add_0_r in H0.
  rewrite H0, (Hlook 1 lo eq_refl).
  cbn [decodeNibbles] in Hdec. apply fmap_Some in Hdec as (dec' & Hdec' & ->).
  simpl in Hlr, Hfuel. destruct (Nat.ltb_spec bi (length hex)) as [Hb|]; [|lia].
  destruct (IH (bi + 1) (ni + 2) hexLen (<[bi:=pack hi lo]> hex) rest dec')
    as (hex' & -> & Hl' & Ht); [by rewrite length_insert| |done|lia|lia|].
  { rewrite take_insert_lt, drop_insert_lt by lia.
    rewrite <- drop_drop, Hrest. done. }
  exists hex'. rewrite length_insert in Hl'. split; [done|]. split; [done|].
  replace (bi + length (pack hi lo :: dec')) with (bi + 1 + length dec') by (simpl; lia).
  rewrite Ht, Nat.add_1_r, (take_S_r _ _ (pack hi lo)).
  - rewrite take_insert_ge by lia. by rewrite <- app_assoc.
  - by rewrite list_lookup_insert_eq.
Qed.

(** [hexToCompactInPlace] is [HexToCompact] on every non-empty hex path (it panics
    on the empty slice, which [HexToCompact] accepts). *)
Lemma decodeNibbles_length l k : decodeNibbles l = Some k → length l = 2 * length k.
Proof.
  revert k. remember (length l) as n eqn:Hn. revert l Hn.
  induction n as [n IH] using lt_wf_ind. intros [|hi [|lo l]] -> k H; simplify_eq/=; [done|].
  apply fmap_Some in H as (k' & Hk & ->). simpl. 
  rewrite (IH (length l) ltac:(lia) l eq_refl k' Hk). lia.
Qed.

Lemma inPlace_body (hex l : bytes) (n : nat) (f : Z) :
  take n hex = l → n ≤ length hex → hex ≠ [] → Forall nibble l →
  (λ hex', take (n / 2 + 1) (<[0 := z2b (if Nat.odd n
      then Z.lor (Z.lor f 16) (match hex with h :: _ => b2z h | [] => 0%Z end) else f)]> hex'))
    <$> compactLoop (length hex) 1 (if Nat.odd n then 1 else 0) n hex =
  Some (if Nat.odd (length l) then
    match l with
    | h0 :: l' => z2b (Z.lor (Z.lor f 16) (b2z h0)) :: default [] (decodeNibbles l')
    | [] => [z2b f]
    end
    else z2b f :: default [] (decodeNibbles l)).
Proof.
  intros Ht Hn Hne Hl. assert (length l = n) as Hlen by (rewrite <- Ht, length_take; lia).
  rewrite Hlen.
  set (rest := drop (if Nat.odd n then 1 else 0) l).
  assert (Nat.even (length rest) = true) as Hev.
  { unfold rest. rewrite length_drop, Hlen. destruct (Nat.odd n) eqn:E.
    - rewrite <- Nat.negb_odd, Nat.odd_sub by (apply Nat.odd_spec in E as [m ->]; lia).
      by rewrite E.
    - rewrite Nat.sub_0_r. by rewrite <- Nat.negb_odd, E. }
  destruct (decodeNibbles_even rest Hev ltac:(by apply Forall_drop)) as (dec & Hdec & _ & Hld).
  assert (length rest = n - (if Nat.odd n then 1 else 0)) as Hlr
    by (unfold rest; rewrite length_drop; lia).
  destruct (compactLoop_spec (length hex) 1 (if Nat.odd n then 1 else 0) n hex rest dec)
    as (hex' & -> & Hl' & Htk); [done|by rewrite Ht|done|lia|destruct (Nat.odd n); lia|].
  cbn [fmap option_fmap option_map].
  assert (n / 2 = length dec) as Hdiv.
  { clear -Hlr Hld. clearbody rest. revert Hlr. destruct (Nat.odd n) eqn:E; intros; [|zlia].
    apply Nat.odd_spec in E as [m ->]. zlia. }
  destruct hex as [|h0 hex0]; [done|]. destruct hex' as [|h0' hex0']; [done|].
  rewrite Hdiv, Nat.add_1_r. simpl in Htk |- *. 
  injection Htk as _ Htk. rewrite Htk. f_equal.
  destruct (Nat.odd n) eqn:E.
  - destruct n as [|n]; [done|]. simpl in Ht. destruct l as [|x l]; [done|].
    injection Ht as <- Ht. unfold rest in Hdec. simpl in Hdec. rewrite drop_0 in Hdec.
    by rewrite Hdec.
  - unfold rest in Hdec. rewrite drop_0 in Hdec. by rewrite Hdec.
Qed.

Lemma compactLoop_length fuel bi ni hexLen hex hex' :
  compactLoop fuel bi ni hexLen hex = Some hex' → length hex' = length hex.
Proof.
  revert bi ni hex. induction fuel as [|fuel IH]; intros bi ni hex H; simplify_eq/=; [done|].
  repeat case_match; simplify_eq/=; [|done]. apply IH in H. by rewrite H, length_insert.
Qed.

Lemma hexToCompactInPlace_eq hex :
  hexpath hex → hex ≠ [] → hexToCompactInPlace hex = Some (HexToCompact hex).
Proof.
  intros Hp Hne. unfold hexToCompactInPlace, HexToCompact.
  set (n := if HasTerm hex then length hex - 1 else length hex).
  set (f := if HasTerm hex then 32%Z else 0%Z).
  assert (take n hex = dropTerm hex) as Ht.
  { unfold n, dropTerm. destruct (HasTerm hex); [done|]. by rewrite take_ge. }
  assert (Forall nibble (dropTerm hex)) as Hl.
  { destruct Hp as [(l & -> & Hl)|Hl]; [by rewrite dropTerm_snoc|by rewrite dropTerm_nibbles]. }
  assert (n ≤ length hex) as Hn by (unfold n; destruct (HasTerm hex); lia).
  pose proof (inPlace_body hex (dropTerm hex) n f Ht Hn Hne Hl) as H.
  destruct (compactLoop _ _ _ _ _) as [hex'|] eqn:E; [|done].
  apply compactLoop_length in E. rewrite <- H.
  destruct hex' as [|h hex']; [by destruct hex|]. done.
Qed.

(** ** Common prefixes *)

Lemma PrefixLen_split a b : ∃ p a' b', a = p ++ a' ∧ b = p ++ b' ∧ PrefixLen a b = length p ∧
  (a' = [] ∨ b' = [] ∨ ∃ x y a'' b'', a' = x :: a'' ∧ b' = y :: b'' ∧ x ≠ y).
Proof.
  revert b. induction a as [|x a IH]; intros [|y b]; simpl.
  1-3: exists []; eexists _, _; naive_solver.
  case_decide as Hxy; [subst|].
  - destruct (IH b) as (p & a' & b' & -> & -> & -> & H).
    exists (y :: p), a', b'. naive_solver.
  - exists [], (x :: a), (y :: b). naive_solver.
Qed.

Lemma PrefixLen_app p a b : PrefixLen (p ++ a) (p ++ b) = length p + PrefixLen a b.
Proof. induction p as [|x p IH]; simpl; [done|]. by rewrite decide_True, IH. Qed.

Lemma hexkey_cons x k : hexkey (x :: k) ↔ (x = terminator ∧ k = []) ∨ (nibble x ∧ hexkey k).
Proof.
  split.
  - intros ([|y l] & Heq & Hl); simplify_eq/=; [by left|]. right.
    inversion Hl; subst. split; [done|]. by exists l.
  - intros [[-> ->]|[Hx (l & -> & Hl)]]; [by exists []|].
    exists (x :: l). split; [done|]. by constructor.
Qed.

Lemma hexkey_not_nil : ¬ hexkey [].
Proof. intros ([] & ? & _); done. Qed.

Lemma hexkey_nibbles_app p k : Forall nibble p → hexkey (p ++ k) ↔ hexkey k.
Proof.
  intros Hp. induction Hp as [|x p Hx Hp IH]; [done|]. simpl. rewrite hexkey_cons, IH.
  split; [|naive_solver]. intros [[-> _]|[_ ?]]; [by apply term_not_nibble in Hx|done].
Qed.

Lemma hexkey_app_nonempty p k : hexkey (p ++ k) → k ≠ [] → Forall nibble p ∧ hexkey k.
Proof.
  revert k. induction p as [|x p IH]; intros k H Hk; simpl in *; [done|].
  apply hexkey_cons in H as [[-> H]|[Hx H]].
  - apply app_eq_nil in H as [_ ->]. done.
  - destruct (IH k H Hk). split; [by constructor|done].
Qed.

(** No complete key is a proper prefix of another. *)
Lemma hexkey_prefix_free p a : hexkey p → hexkey (p ++ a) → a = [].
Proof.
  intros (l & -> & Hl) H. rewrite <- app_assoc in H.
  apply hexkey_nibbles_app in H; [|done]. simpl in H.
  apply hexkey_cons in H as [[_ ?]|[H _]]; [done|]. by apply term_not_nibble in H.
Qed.

Lemma hexkey_index x k : hexkey (x :: k) → (Z.to_nat (b2z x) < 17)%nat.
Proof.
  intros [[-> _]|[Hx _]]%hexkey_cons; [vm_compute; lia|]. unfold nibble in Hx. lia.
Qed.

#[export] Hint Resolve KeybytesToHex_hexkey HasTerm_hexkey : trie.
