(* ===== verification/Interfaces.v ===== *)
(** * Interfaces to the packages the repository only calls

    go-ethereum's [common] and [crypto], and google.golang.org/protobuf, are not
    part of the sources.  Each is a class of operations, together with a separate
    class of the documented facts the code relies on.  [ToyCrypto] and [ToyProto]
    instantiate both with concrete functions, so that every statement made under
    the laws can be evaluated on concrete inputs. *)

From S2P Require Import Prelude.
From Stdlib Require Import Strings.Byte.

(** ** go-ethereum [common] and [crypto] *)

Class EthCommon := {
  Keccak256 : bytes → bytes;
  BytesToHash : bytes → bytes;
}.

(** [common.Hash{}] *)
Definition zeroHash : bytes := replicate 32 x00.

Class EthCommonLaws `{EthCommon} : Prop := {
  Keccak256_length b : length (Keccak256 b) = 32;
  BytesToHash_32 b : length b = 32 → BytesToHash b = b;
  BytesToHash_length b : length (BytesToHash b) = 32;
}.

(** ** Protocol buffers

    [proto.Marshal] is total on the messages of this development (proto3, bytes and
    integer fields only); [proto.Unmarshal] may fail. *)

Class Proto (T : Type) := {
  proto_Marshal : T → bytes;
  proto_Unmarshal : bytes → option T;
  proto_default : T;
}.

Class ProtoLaws (T : Type) `{Proto T} : Prop := {
  proto_roundtrip (m : T) : proto_Unmarshal (proto_Marshal m) = Some m;
  proto_empty : proto_Unmarshal [] = Some (proto_default : T);
}.

Lemma proto_Marshal_nonempty `{ProtoLaws T} (m : T) : m ≠ proto_default → proto_Marshal m ≠ [].
Proof.
  intros Hm E. pose proof (proto_roundtrip m) as R. rewrite E, proto_empty in R. congruence.
Qed.

#[export] Instance proto_Marshal_inj `{ProtoLaws T} : Inj (=) (=) (proto_Marshal (T:=T)).
Proof.
  intros x y E. pose proof (proto_roundtrip x) as R. rewrite E, proto_roundtrip in R. congruence.
Qed.

(** ** Concrete instances *)

Module ToyCrypto.

(** A 32-byte polynomial checksum stands in for Keccak-256. *)
Definition checksum (b : bytes) : Z :=
  foldl (λ acc x, Z.land (acc * 1003 + b2z x + 7) (2 ^ 64 - 1))%Z 1%Z b.

Definition digest (b : bytes) : bytes :=
  x01 :: let c := checksum b in (λ i, z2b (Z.land (Z.shiftr c (8 * Z.of_nat (i mod 8))) 255)) <$> seq 0 31.

#[export] Instance toy_eth : EthCommon := {|
  Keccak256 := digest;
  BytesToHash b := if decide (length b = 32) then b else
    replicate (32 - length b) x00 ++ drop (length b - 32) b;
|}.

#[export] Instance toy_eth_laws : EthCommonLaws.
Proof.
  split.
  - intros b. done.
  - intros b Hb. simpl. by rewrite decide_True.
  - intros b. simpl. case_decide; [done|]. rewrite length_app, length_replicate, length_drop. lia.
Qed.

End ToyCrypto.

Module ToyProto.

(** A self-delimiting codec per message type gives a [Proto]: the default message is
    empty, as in protobuf. *)
Class Ser (T : Type) := {
  ser : T → bytes;
  deser : bytes → option (T * bytes);
  deser_ser x rest : deser (ser x ++ rest) = Some (x, rest);
}.

Definition toy_proto `{EqDecision T, Ser T} (dflt : T) : Proto T := {|
  proto_Marshal m := if decide (m = dflt) then [] else x02 :: ser m;
  proto_Unmarshal b := match b with [] => Some dflt | _ :: b => fst <$> deser b end;
  proto_default := dflt;
|}.

Lemma toy_proto_laws `{EqDecision T, Ser T} (dflt : T) : @ProtoLaws T (toy_proto dflt).
Proof.
  split; [|done]. intros m. simpl. case_decide; [by subst|].
  rewrite <- (app_nil_r (ser m)), deser_ser. done.
Qed.

(** Byte strings: each byte is announced by x01, x00 ends the string. *)
Fixpoint deser_bytes (b : bytes) : option (bytes * bytes) :=
  match b with
  | x00 :: b => Some ([], b)
  | _ :: x :: b => '(l, rest) ← deser_bytes b; Some (x :: l, rest)
  | _ => None
  end.

#[export] Program Instance ser_bytes : Ser bytes := {|
  ser b := foldr (λ x r, x01 :: x :: r) [x00] b;
  deser := deser_bytes;
|}.
Next Obligation. induction x as [|x l IH]; intros rest; simpl; [done|]. by rewrite IH. Qed.

Fixpoint deser_list {T} (d : bytes → option (T * bytes)) (fuel : nat) (b : bytes) : option (list T * bytes) :=
  match fuel, b with
  | S fuel, x00 :: b => Some ([], b)
  | S fuel, _ :: b => '(x, b) ← d b; '(l, rest) ← deser_list d fuel b; Some (x :: l, rest)
  | _, _ => None
  end.

Definition enc_list `{Ser T} (l : list T) : bytes := foldr (λ x r, x01 :: ser x ++ r) [x00] l.

Lemma deser_enc_list `{Ser T} (l : list T) rest : ∀ fuel, length (enc_list l ++ rest) ≤ fuel →
  deser_list deser fuel (enc_list l ++ rest) = Some (l, rest).
Proof.
  induction l as [|x l IH]; intros [|fuel] Hf; simpl in *; [lia|done|lia|].
  rewrite <- app_assoc, deser_ser. simpl. rewrite IH; [done|].
  rewrite !length_app in *. lia.
Qed.

#[export] Instance ser_list `{Ser T} : Ser (list T) := {|
  ser := enc_list;
  deser b := deser_list deser (length b) b;
  deser_ser l rest := deser_enc_list l rest _ (le_n _);
|}.

#[export] Program Instance ser_prod `{Ser A, Ser B} : Ser (A * B) := {|
  ser '(a, b) := ser a ++ ser b;
  deser b := '(x, b) ← deser b; '(y, b) ← deser b; Some ((x, y), b);
|}.
Next Obligation. intros A SA B SB [a b] rest. simpl. rewrite <- app_assoc, deser_ser. simpl. by rewrite deser_ser. Qed.

(** Integers, through their binary code. *)
Fixpoint pos_bytes (p : positive) : bytes :=
  match p with
  | xH => []
  | xO q => x00 :: pos_bytes q
  | xI q => x01 :: pos_bytes q
  end.

Fixpoint bytes_pos (b : bytes) : positive :=
  match b with
  | [] => xH
  | x :: b => if decide (x = x00) then xO (bytes_pos b) else xI (bytes_pos b)
  end.

Lemma bytes_pos_bytes p : bytes_pos (pos_bytes p) = p.
Proof. induction p; simpl; by rewrite ?IHp. Qed.

Definition deser_Z (b : bytes) : option (Z * bytes) :=
  '(l, rest) ← deser_bytes b; z ← decode (bytes_pos l); Some (z, rest).

Lemma deser_ser_Z z rest : deser_Z (ser (pos_bytes (encode z)) ++ rest) = Some (z, rest).
Proof.
  unfold deser_Z. pose proof (deser_ser (pos_bytes (encode z)) rest) as E. change deser with deser_bytes in E.
  rewrite E. cbn [mbind option_bind]. by rewrite bytes_pos_bytes, decode_encode.
Qed.

#[export] Instance ser_Z : Ser Z := {| ser z := ser (pos_bytes (encode z)); deser_ser := deser_ser_Z |}.

(** A message type isomorphic to one with a codec. *)
Definition ser_iso `{Ser A} {B} (f : B → A) (g : A → B) (E : ∀ b, g (f b) = b) : Ser B.
Proof.
  refine {| ser b := ser (f b); deser b := '(a, rest) ← deser b; Some (g a, rest) |}.
  intros b rest. rewrite deser_ser. cbn [mbind option_bind]. by rewrite E.
Defined.

End ToyProto.
