(* ===== verification/Node.v ===== *)
(** * Trie nodes ([pkg/trie/node])

    The node types of full_node.go, short_node.go, hash_node.go, value_node.go,
    their protobuf encoding and [DecodeNode] (node.go).  A nil [Node] interface is
    [NilNode]; a nil [HashNode] slice in a flag is [None]. *)

From S2P Require Import Prelude Interfaces HexEncoding.
From Stdlib Require Import Strings.Byte.

Definition TOTAL_CHILD_NODE : nat := 17.

(** ** Protobuf messages ([pkg/proto/merkle_patricia_trie.pb.go]) *)

Definition MPTNODE_TYPE_FULL : Z := 0.
Definition MPTNODE_TYPE_SHORT : Z := 1.

Record MPTNode := { mpt_Type : Z; mpt_Data : bytes }.
Record MPTFullNode := { mpt_Nodes : list bytes; mpt_full_Value : bytes }.
Record MPTShortNode := { mpt_Key : bytes; mpt_Value : bytes }.

Class TrieProto := {
  #[export] node_proto :: Proto MPTNode;
  #[export] full_proto :: Proto MPTFullNode;
  #[export] short_proto :: Proto MPTShortNode;
}.

Class TrieProtoLaws `{TrieProto} : Prop := {
  #[export] node_proto_laws :: ProtoLaws MPTNode;
  #[export] full_proto_laws :: ProtoLaws MPTFullNode;
  #[export] short_proto_laws :: ProtoLaws MPTShortNode;
  node_default : proto_default = {| mpt_Type := 0; mpt_Data := [] |};
  full_default : proto_default = {| mpt_Nodes := []; mpt_full_Value := [] |};
}.

(** ** Nodes *)

Record NodeFlag := { Hash : option bytes; Dirty : bool }.

(** [NewFlag]: a fresh node has no cached hash and must be written. *)
Definition NewFlag : NodeFlag := {| Hash := None; Dirty := true |}.

Inductive Node :=
  | NilNode
  | ValueNode (v : bytes)
  | HashNode (h : bytes)
  | ShortNode (Key : bytes) (Val : Node) (Flags : NodeFlag)
  | FullNode (Children : list Node) (Flags : NodeFlag).

(** The nested induction principle. *)
Section NodeInd.
Context (P : Node → Prop) (Hnil : P NilNode) (Hval : ∀ v, P (ValueNode v))
  (Hhash : ∀ h, P (HashNode h)) (Hshort : ∀ k n f, P n → P (ShortNode k n f))
  (Hfull : ∀ cs f, Forall P cs → P (FullNode cs f)).

Fixpoint Node_ind' (n : Node) : P n :=
  match n with
  | NilNode => Hnil
  | ValueNode v => Hval v
  | HashNode h => Hhash h
  | ShortNode k n f => Hshort k n f (Node_ind' n)
  | FullNode cs f => Hfull cs f
      ((fix go (cs : list Node) : Forall P cs :=
          match cs with
          | [] => Forall_nil_2 _
          | c :: cs => Forall_cons_2 _ _ _ (Node_ind' c) (go cs)
          end) cs)
  end.

End NodeInd.

(** [Cache]: hash and value nodes report (nil, dirty); a nil interface panics. *)
Definition Cache (n : Node) : option (option bytes * bool) :=
  match n with
  | NilNode => None
  | ValueNode _ | HashNode _ => Some (None, true)
  | ShortNode _ _ f | FullNode _ f => Some (Hash f, Dirty f)
  end.

Section Codec.
Context `{EthCommon} `{TrieProto}.

(** [Marshal]; [None] is the nil-interface panic of a short node without a value. *)
Fixpoint Marshal (n : Node) : option bytes :=
  match n with
  | NilNode => None
  | ValueNode v => Some v
  | HashNode h => Some h
  | ShortNode k v _ =>
      valBuf ← Marshal v;
      let bSN := proto_Marshal {| mpt_Key := k; mpt_Value := valBuf |} in
      Some (proto_Marshal {| mpt_Type := MPTNODE_TYPE_SHORT; mpt_Data := bSN |})
  | FullNode cs _ =>
      bufNodes ← mapM (λ c, match c with NilNode => Some zeroHash | _ => Marshal c end) cs;
      let bFN := proto_Marshal {| mpt_Nodes := bufNodes; mpt_full_Value := [] |} in
      Some (proto_Marshal {| mpt_Type := MPTNODE_TYPE_FULL; mpt_Data := bFN |})
  end.

(** [NodeToBytes] drops Marshal's error, which no node type returns. *)
Definition NodeToBytes (n : Node) : option bytes := Marshal n.

(** The loop of [FullNode.Unmarshal]; [None] is an index panic past slot 16. *)
Fixpoint unmarshalChildren (i : nat) (nodes : list bytes) (children : list Node)
    : option (list Node) :=
  match nodes with
  | [] => Some children
  | v :: rest =>
    if decide (BytesToHash v = zeroHash) then unmarshalChildren (S i) rest children
    else if (i <? length children)%nat
         then unmarshalChildren (S i) rest (<[i := HashNode v]> children)
         else None
  end.

(** [FullNode.Unmarshal]: [inl tt] is the decoding error, [None] a panic. *)
Definition FullNode_Unmarshal (hash : option bytes) (buf : bytes) : option (unit + Node) :=
  match proto_Unmarshal buf with
  | None => Some (inl tt)
  | Some protoFN =>
    children ← unmarshalChildren 0 (mpt_Nodes protoFN) (replicate TOTAL_CHILD_NODE NilNode);
    Some (inr (FullNode children {| Hash := hash; Dirty := false |}))
  end.

Definition ShortNode_Unmarshal (hash : option bytes) (buf : bytes) : unit + Node :=
  match proto_Unmarshal buf with
  | None => inl tt
  | Some protoSN =>
    let key := CompactToHex (mpt_Key protoSN) in
    let val := if HasTerm key then ValueNode (mpt_Value protoSN)
               else HashNode (mpt_Value protoSN) in
    inr (ShortNode key val {| Hash := hash; Dirty := false |})
  end.

(** [DecodeNode] never returns an error: what does not parse becomes a hash node, an
    unknown type a nil node.  [None] is the panic of [FullNode.Unmarshal]. *)
Definition DecodeNode (hash : option bytes) (buf : bytes) : option Node :=
  match proto_Unmarshal buf with
  | None => Some (HashNode buf)
  | Some protoNode =>
    if (mpt_Type protoNode =? MPTNODE_TYPE_FULL)%Z then
      r ← FullNode_Unmarshal hash (mpt_Data protoNode);
      Some (match r with inl _ => HashNode (mpt_Data protoNode) | inr n => n end)
    else if (mpt_Type protoNode =? MPTNODE_TYPE_SHORT)%Z then
      Some (match ShortNode_Unmarshal hash (mpt_Data protoNode) with
            | inl _ => HashNode (mpt_Data protoNode) | inr n => n end)
    else Some NilNode
  end.

End Codec.

(** ** Decoding what was encoded *)

Section CodecFacts.
Context `{EthCommonLaws} `{TrieProtoLaws}.

Lemma DecodeNode_short hash k v :
  hexpath k →
  DecodeNode hash (proto_Marshal {| mpt_Type := MPTNODE_TYPE_SHORT;
      mpt_Data := proto_Marshal {| mpt_Key := HexToCompact k; mpt_Value := v |} |}) =
  Some (ShortNode k (if HasTerm k then ValueNode v else HashNode v)
          {| Hash := hash; Dirty := false |}).
Proof.
  intros Hk. unfold DecodeNode. rewrite proto_roundtrip. simpl.
  unfold ShortNode_Unmarshal. rewrite proto_roundtrip. simpl.
  by rewrite CompactToHex_HexToCompact.
Qed.

Lemma unmarshalChildren_spec nodes : ∀ (i : nat) pre,
  length pre = i → (i + length nodes = 17)%nat →
  unmarshalChildren i nodes (pre ++ replicate (length nodes) NilNode) =
  Some (pre ++ ((λ v, if decide (BytesToHash v = zeroHash) then NilNode else HashNode v) <$> nodes)).
Proof.
  induction nodes as [|v nodes IH]; intros i pre Hpre Hlen; [done|]. simpl in *.
  case_decide.
  - specialize (IH (S i) (pre ++ [NilNode])). rewrite <- !app_assoc in IH. apply IH.
    + rewrite length_app. simpl. lia.
    + lia.
  - rewrite (proj2 (Nat.ltb_lt _ _)) by (rewrite length_app, length_cons, length_replicate; lia).
    rewrite <- (Nat.add_0_r i), <- Hpre, insert_app_r. simpl. 
    specialize (IH (S i) (pre ++ [HashNode v])). rewrite <- !app_assoc in IH.
    rewrite Nat.add_0_r, Hpre. apply IH.
    + rewrite length_app. simpl. lia.
    + lia.
Qed.

Lemma DecodeNode_full hash (nodes : list bytes) :
  length nodes = 17 →
  DecodeNode hash (proto_Marshal {| mpt_Type := MPTNODE_TYPE_FULL;
      mpt_Data := proto_Marshal {| mpt_Nodes := nodes; mpt_full_Value := [] |} |}) =
  Some (FullNode ((λ v, if decide (BytesToHash v = zeroHash) then NilNode else HashNode v) <$> nodes)
          {| Hash := hash; Dirty := false |}).
Proof.
  intros Hlen.
  assert (unmarshalChildren 0 nodes (replicate TOTAL_CHILD_NODE NilNode) =
    Some ((λ v, if decide (BytesToHash v = zeroHash) then NilNode else HashNode v) <$> nodes)) as E.
  { pose proof (unmarshalChildren_spec nodes 0 [] eq_refl Hlen) as E. by rewrite Hlen in E. }
  unfold DecodeNode. rewrite proto_roundtrip. cbn [mpt_Type mpt_Data Z.eqb MPTNODE_TYPE_FULL].
  unfold FullNode_Unmarshal. rewrite proto_roundtrip. cbn [mpt_Nodes].
  by rewrite E.
Qed.

Lemma marshalled_nonempty t data :
  (t = MPTNODE_TYPE_SHORT ∨ data ≠ []) →
  proto_Marshal {| mpt_Type := t; mpt_Data := data |} ≠ [].
Proof.
  intros Hd. apply proto_Marshal_nonempty. rewrite node_default.
  intros [= -> ->]. by destruct Hd.
Qed.

Lemma full_data_nonempty nodes :
  nodes ≠ [] → proto_Marshal {| mpt_Nodes := nodes; mpt_full_Value := [] |} ≠ [].
Proof. intros Hn. apply proto_Marshal_nonempty. rewrite full_default. by intros [=]. Qed.

End CodecFacts.
