(* ===== verification/Tracer.v ===== *)
(** * The change tracer ([pkg/trie/tracer.go])

    [sync.Map]s used as sets and as a map; the paths they are keyed by are the Go
    strings of the hex paths. *)

From S2P Require Import Prelude.

Record Tracer := {
  inserts : gset bytes;
  deletes : gset bytes;
  oldKeys : list (option bytes);
  accessList : gmap bytes bytes;
}.

Definition newTracer : Tracer :=
  {| inserts := ∅; deletes := ∅; oldKeys := []; accessList := ∅ |}.

Definition onRead (path val : bytes) (t : Tracer) : Tracer :=
  {| inserts := inserts t; deletes := deletes t; oldKeys := oldKeys t;
     accessList := <[path := val]> (accessList t) |}.

Definition onInsert (path : bytes) (t : Tracer) : Tracer :=
  if decide (path ∈ deletes t)
  then {| inserts := inserts t; deletes := deletes t ∖ {[path]}; oldKeys := oldKeys t;
          accessList := accessList t |}
  else {| inserts := inserts t ∪ {[path]}; deletes := deletes t; oldKeys := oldKeys t;
          accessList := accessList t |}.

Definition onDelete (path : bytes) (t : Tracer) : Tracer :=
  if decide (path ∈ inserts t)
  then {| inserts := inserts t ∖ {[path]}; deletes := deletes t; oldKeys := oldKeys t;
          accessList := accessList t |}
  else {| inserts := inserts t; deletes := deletes t ∪ {[path]}; oldKeys := oldKeys t;
          accessList := accessList t |}.

(** [t.tracer.oldKeys = append(t.tracer.oldKeys, h)] *)
Definition addOldKey (h : option bytes) (t : Tracer) : Tracer :=
  {| inserts := inserts t; deletes := deletes t; oldKeys := oldKeys t ++ [h];
     accessList := accessList t |}.

Definition reset (t : Tracer) : Tracer :=
  {| inserts := ∅; deletes := ∅; oldKeys := []; accessList := ∅ |}.

(** [copy] keeps everything but [oldKeys]. *)
Definition copy (t : Tracer) : Tracer :=
  {| inserts := inserts t; deletes := deletes t; oldKeys := [];
     accessList := accessList t |}.

(** [deletedNodes], in the iteration order of [elements] (Go's is unspecified). *)
Definition deletedNodes (t : Tracer) : list bytes :=
  filter (λ p, is_Some (accessList t !! p)) (elements (deletes t)).

(** ** The tracer's invariant: no path is both inserted and deleted. *)

Definition tracer_ok (t : Tracer) : Prop := inserts t ## deletes t.

Lemma newTracer_ok : tracer_ok newTracer.
Proof. unfold tracer_ok. set_solver. Qed.

Lemma onRead_ok p v t : tracer_ok t → tracer_ok (onRead p v t).
Proof. done. Qed.

Lemma addOldKey_ok h t : tracer_ok t → tracer_ok (addOldKey h t).
Proof. done. Qed.

Lemma onInsert_ok p t : tracer_ok t → tracer_ok (onInsert p t).
Proof. unfold tracer_ok, onInsert. intros H. case_decide; simpl; set_solver. Qed.

Lemma onDelete_ok p t : tracer_ok t → tracer_ok (onDelete p t).
Proof. unfold tracer_ok, onDelete. intros H. case_decide; simpl; set_solver. Qed.

(** Inserting and then deleting a path (or the converse) leaves no trace of it. *)
Lemma onDelete_onInsert p t :
  tracer_ok t → p ∉ inserts t → onDelete p (onInsert p t) = t.
Proof.
  intros Hok Hp. unfold onInsert, onDelete. destruct t as [i d o a]; simpl in *.
  unfold tracer_ok in Hok. simpl in Hok.
  destruct (decide (p ∈ d)) as [Hd|Hd]; simpl.
  - rewrite decide_False by done. f_equal. apply leibniz_equiv. intros q. 
    destruct (decide (q = p)); set_solver.
  - rewrite decide_True by set_solver. f_equal. apply leibniz_equiv. intros q.
    destruct (decide (q = p)); set_solver.
Qed.

#[export] Hint Resolve newTracer_ok onRead_ok addOldKey_ok onInsert_ok onDelete_ok : trie.
