(* ===== verification/Trie.v ===== *)
(** * The Merkle Patricia trie ([pkg/trie/trie.go], [trie_reader.go], [errors.go])

    One definition per function.  The recursive workers thread the tracer through a
    state-and-error monad; a resolved hash node makes the recursion non-structural,
    so they take fuel, and the public operations supply an amount that is proved to
    be enough ([TrieRefine]). *)

From S2P Require Import Prelude Interfaces HexEncoding Node Tracer.
From Stdlib Require Import Strings.Byte.

(** [trie_db.DB]: [Get], where [None] is any error. *)
Definition DB : Type := bytes → option bytes.

Inductive trie_error :=
  | ErrCommitted
  | MissingNodeError (NodeHash Path : bytes)
  | ParallelGetError (errors : list (option trie_error)).

Definition EmptyRootHash : bytes := z2b <$>
  [0x56; 0xe8; 0x1f; 0x17; 0x1b; 0xcc; 0x55; 0xa6; 0xff; 0x83; 0x45; 0xe6; 0x92; 0xc0; 0xf8; 0x6e;
   0x5b; 0x48; 0xe0; 0x1b; 0x99; 0x6c; 0xad; 0xc0; 0x01; 0x62; 0x2f; 0xb5; 0xe3; 0x63; 0xb4; 0x21]%Z.

(** The monad of the recursive workers. *)
Definition TM : Type → Type := comp Tracer trie_error.

#[export] Instance TM_ret : MRet TM := comp_ret.
#[export] Instance TM_bind : MBind TM := comp_bind.

Record MerklePatriciaTrie := {
  root : Node;
  committed : bool;
  reader : DB;
  tracer : Tracer;
  isHash : bool;
}.

Definition set_root (r : Node) (t : MerklePatriciaTrie) : MerklePatriciaTrie :=
  {| root := r; committed := committed t; reader := reader t; tracer := tracer t; isHash := isHash t |}.
Definition set_tracer (tr : Tracer) (t : MerklePatriciaTrie) : MerklePatriciaTrie :=
  {| root := root t; committed := committed t; reader := reader t; tracer := tr; isHash := isHash t |}.

(** Indexing [Children[b]] with a byte. *)
Definition child (cs : list Node) (b : byte) : option Node := cs !! Z.to_nat (b2z b).
Definition set_child (cs : list Node) (b : byte) (n : Node) : option (list Node) :=
  if (Z.to_nat (b2z b) <? length cs)%nat then Some (<[Z.to_nat (b2z b) := n]> cs) else None.

(** [panic] on an out-of-range index. *)
Definition or_panic {A} (o : option A) : TM A :=
  match o with Some a => mret a | None => c_panic end.

(** Running the worker monad. *)
Lemma TM_bind_ok {A B} (m : TM A) (k : A → TM B) tr a tr' :
  m tr = (Ok a, tr') → (m ≫= k) tr = k a tr'.
Proof. exact (comp_bind_ok k m tr a tr'). Qed.

Lemma TM_or_panic {A B} (o : option A) (a : A) (k : A → TM B) :
  o = Some a → (or_panic o ≫= k) = k a.
Proof. by intros ->. Qed.

Lemma TM_modify {B} f (k : unit → TM B) tr : (c_modify f ≫= k) tr = k tt (f tr).
Proof. done. Qed.

Lemma TM_try_ok {A B} (m : TM A) (h : A + trie_error → TM B) tr a tr' :
  m tr = (Ok a, tr') → c_try m h tr = h (inl a) tr'.
Proof. unfold c_try. by intros ->. Qed.

Section Trie.
Context `{EthCommon} `{TrieProto}.

Definition reader_node (db : DB) (path hash : bytes) : TM bytes :=
  match db hash with
  | Some [] | None => c_fail (MissingNodeError hash path)
  | Some blob => mret blob
  end.

Definition resolveAndTrack (db : DB) (n prefix : bytes) : TM Node :=
  blob ← reader_node db prefix (BytesToHash n);
  _ ← c_modify (onRead prefix blob);
  or_panic (DecodeNode (Some n) blob).

Definition resolve (db : DB) (n : Node) (prefix : bytes) : TM Node :=
  match n with
  | HashNode h => resolveAndTrack db h prefix
  | _ => mret n
  end.

Definition concat (s1 s2 : bytes) : bytes := s1 ++ s2.

(** ** get *)

Fixpoint get (fuel : nat) (db : DB) (origNode : Node) (key : bytes) (pos : nat)
    : TM (option bytes * Node * bool) :=
  match fuel with
  | O => c_nofuel
  | S fuel =>
    match origNode with
    | NilNode => mret (None, NilNode, false)
    | ValueNode v => mret (Some v, origNode, false)
    | ShortNode nk nv nf =>
      if (length key <? pos + length nk)%nat || bool_decide (nk ≠ take (length nk) (drop pos key))
      then mret (None, origNode, false)
      else
        '(value, newnode, didResolve) ← get fuel db nv key (pos + length nk);
        mret (value, if didResolve : bool then ShortNode nk newnode nf else origNode, didResolve)
    | FullNode cs nf =>
      b ← or_panic (key !! pos);
      c ← or_panic (child cs b);
      '(value, newnode, didResolve) ← get fuel db c key (pos + 1);
      if didResolve : bool
      then cs' ← or_panic (set_child cs b newnode); mret (value, FullNode cs' nf, didResolve)
      else mret (value, origNode, didResolve)
    | HashNode h =>
      c ← resolveAndTrack db h (take pos key);
      '(value, newnode, _) ← get fuel db c key pos;
      mret (value, newnode, true)
    end
  end.

(** ** insert *)

Fixpoint insert (fuel : nat) (db : DB) (n : Node) (prefix key : bytes) (value : Node)
    : TM (bool * Node) :=
  match fuel with
  | O => c_nofuel
  | S fuel =>
    match key with
    | [] =>
      match n with
      | ValueNode v =>
        match value with
        | ValueNode w => mret (bool_decide (v ≠ w), value)
        | _ => c_panic
        end
      | _ => mret (true, value)
      end
    | k0 :: krest =>
      match n with
      | ShortNode nk nv nf =>
        let matchlen := PrefixLen key nk in
        if decide (matchlen = length nk) then
          '(dirty, nn) ← insert fuel db nv (prefix ++ take matchlen key) (drop matchlen key) value;
          if negb dirty then mret (false, n)
          else
            _ ← c_modify (addOldKey (Hash nf));
            mret (true, ShortNode nk nn NewFlag)
        else
          b1 ← or_panic (nk !! matchlen);
          '(_, c1) ← insert fuel db NilNode (prefix ++ take (matchlen + 1) nk)
                       (drop (matchlen + 1) nk) nv;
          cs1 ← or_panic (set_child (replicate TOTAL_CHILD_NODE NilNode) b1 c1);
          b2 ← or_panic (key !! matchlen);
          '(_, c2) ← insert fuel db NilNode (prefix ++ take (matchlen + 1) key)
                       (drop (matchlen + 1) key) value;
          cs2 ← or_panic (set_child cs1 b2 c2);
          if decide (matchlen = 0%nat) then
            _ ← c_modify (addOldKey (Hash nf));
            mret (true, FullNode cs2 NewFlag)
          else
            _ ← c_modify (onInsert (prefix ++ take matchlen key));
            _ ← c_modify (addOldKey (Hash nf));
            mret (true, ShortNode (take matchlen key) (FullNode cs2 NewFlag) NewFlag)
      | FullNode cs nf =>
        c ← or_panic (child cs k0);
        '(dirty, nn) ← insert fuel db c (prefix ++ [k0]) krest value;
        if negb dirty then mret (false, n)
        else
          _ ← c_modify (addOldKey (Hash nf));
          cs' ← or_panic (set_child cs k0 nn);
          mret (true, FullNode cs' NewFlag)
      | NilNode =>
        _ ← c_modify (onInsert prefix);
        mret (true, ShortNode key value NewFlag)
      | HashNode h =>
        c_try (resolveAndTrack db h prefix) (λ r,
          match r with
          | inr _ => insert fuel db NilNode prefix key value
          | inl rn =>
            '(dirty, nn) ← insert fuel db rn prefix key value;
            if negb dirty then mret (false, rn) else mret (true, nn)
          end)
      | ValueNode _ => c_panic
      end
    end
  end.

(** ** delete *)

(** The reduction loop: the index of the only non-nil child, -1 for none, -2 for several. *)
Fixpoint findSingle (i : nat) (pos : Z) (cs : list Node) : Z :=
  match cs with
  | [] => pos
  | c :: cs =>
    match c with
    | NilNode => findSingle (S i) pos cs
    | _ => if (pos =? -1)%Z then findSingle (S i) (Z.of_nat i) cs else (-2)%Z
    end
  end.

(** The reduction that follows the removal of a branch's child. *)
Definition reduceFull (db : DB) (prefix : bytes) (cs : list Node) : TM (bool * Node) :=
  let pos := findSingle 0 (-1) cs in
  if (0 <=? pos)%Z then
    rest ← or_panic (cs !! Z.to_nat pos);
    if (pos =? 16)%Z then mret (true, ShortNode [z2b pos] rest NewFlag)
    else
      cnode ← resolve db rest (prefix ++ [z2b pos]);
      match cnode with
      | ShortNode ck cv _ =>
        _ ← c_modify (onDelete (prefix ++ [z2b pos]));
        mret (true, ShortNode ([z2b pos] ++ ck) cv NewFlag)
      | _ => mret (true, ShortNode [z2b pos] rest NewFlag)
      end
  else mret (true, FullNode cs NewFlag).

Fixpoint delete (fuel : nat) (db : DB) (n : Node) (prefix key : bytes) : TM (bool * Node) :=
  match fuel with
  | O => c_nofuel
  | S fuel =>
    match n with
    | ShortNode nk nv nf =>
      let matchlen := PrefixLen key nk in
      if (matchlen <? length nk)%nat then mret (false, n)
      else if decide (matchlen = length key) then
        _ ← c_modify (onDelete prefix);
        mret (true, NilNode)
      else
        '(dirty, c) ← delete fuel db nv (prefix ++ take (length nk) key) (drop (length nk) key);
        if negb dirty then mret (false, n)
        else
          match c with
          | ShortNode ck cv _ =>
            _ ← c_modify (onDelete (prefix ++ nk));
            mret (true, ShortNode (concat nk ck) cv NewFlag)
          | _ => mret (true, ShortNode nk c NewFlag)
          end
    | FullNode cs nf =>
      k0 ← or_panic (head key);
      c ← or_panic (child cs k0);
      '(dirty, nn) ← delete fuel db c (prefix ++ [k0]) (tail key);
      if negb dirty then mret (false, n)
      else
        cs' ← or_panic (set_child cs k0 nn);
        match nn with
        | NilNode => reduceFull db prefix cs'
        | _ => mret (true, FullNode cs' NewFlag)
        end
    | ValueNode _ => mret (true, NilNode)
    | NilNode => mret (false, NilNode)
    | HashNode h =>
      rn ← resolveAndTrack db h prefix;
      '(dirty, nn) ← delete fuel db rn prefix key;
      if negb dirty then mret (false, rn) else mret (true, nn)
    end
  end.

(** ** Public operations *)

(** Fuel for one walk down a key: a hash node and the node behind it per nibble. *)
Definition walk_fuel (hexkey : bytes) : nat := 2 * length hexkey + 4.

Definition hashKey (t : MerklePatriciaTrie) (key : bytes) : bytes :=
  if bool_decide (length key = 32) || negb (isHash t) then key else Keccak256 key.

(** Run a worker on the trie's own tracer. *)
Definition with_tracer {A} (m : TM A) : comp MerklePatriciaTrie trie_error A :=
  λ t, let '(r, tr) := m (tracer t) in (r, set_tracer tr t).

Definition New (rootHash : bytes) (db : DB) (isHash : bool)
    : outcome trie_error MerklePatriciaTrie :=
  if bool_decide (rootHash ≠ zeroHash) && bool_decide (rootHash ≠ EmptyRootHash) then
    match resolveAndTrack db rootHash [] newTracer with
    | (Ok rootnode, tr) =>
      Ok {| root := rootnode; committed := false; reader := db; tracer := tr; isHash := isHash |}
    | (Fail e, _) => Fail e
    | (Panic, _) => Panic
    | (OutOfFuel, _) => OutOfFuel
    end
  else Ok {| root := NilNode; committed := false; reader := db; tracer := newTracer;
             isHash := isHash |}.

Definition Copy (t : MerklePatriciaTrie) : MerklePatriciaTrie :=
  {| root := root t; committed := false; reader := reader t; tracer := newTracer;
     isHash := isHash t |}.

Definition Get (key : bytes) : comp MerklePatriciaTrie trie_error (option bytes) := λ t,
  if committed t then (Fail ErrCommitted, t) else
  let k := KeybytesToHex (hashKey t key) in
  ('(value, _, _) ← with_tracer (get (walk_fuel k) (reader t) (root t) k 0);
   mret value) t.

Definition update (key value : bytes) : comp MerklePatriciaTrie trie_error unit := λ t,
  let k := KeybytesToHex key in
  if bool_decide (length value ≠ 0)
  then
    ('(_, n) ← with_tracer (insert (walk_fuel k) (reader t) (root t) [] k (ValueNode value));
     c_modify (set_root n)) t
  else
    ('(_, n) ← with_tracer (delete (walk_fuel k) (reader t) (root t) [] k);
     c_modify (set_root n)) t.

Definition Update (key value : bytes) : comp MerklePatriciaTrie trie_error unit := λ t,
  if committed t then (Fail ErrCommitted, t) else update (hashKey t key) value t.

(** [ParallelGet]: one goroutine per key; each reads the same root and only adds to the
    access list, so they are run here one after the other. *)
Fixpoint parallelGets (keys : list bytes)
    : comp MerklePatriciaTrie trie_error (list (option bytes * option trie_error)) :=
  match keys with
  | [] => mret []
  | key :: keys =>
    r ← c_try (λ t, let k := KeybytesToHex (hashKey t key) in
                    with_tracer (get (walk_fuel k) (reader t) (root t) k 0) t)
          (λ r, match r with
                | inl (value, _, _) => mret (value, None)
                | inr e => mret (None, Some e)
                end);
    rs ← parallelGets keys;
    mret (r :: rs)
  end.

Definition ParallelGet (keys : list bytes)
    : comp MerklePatriciaTrie trie_error (list (option bytes)) := λ t,
  if committed t then (Fail ErrCommitted, t) else
  (rs ← parallelGets keys;
   if bool_decide (Forall (λ r, r.2 = None) rs) then mret (rs.*1)
   else c_fail (ParallelGetError (rs.*2))) t.

End Trie.
