(* ===== verification/TrieSpec.v ===== *)
(** * The abstract trie

    What [MerklePatriciaTrie] implements: a finite map from complete hex keys to
    non-empty values, held as a tree without hashes, flags or database.  [tlookup]
    gives a tree its meaning, [wf] is the canonical form the Go code maintains, and
    [tinsert]/[tdelete] are the reference updates.  The main facts are that the
    updates are map updates, preserve [wf], and that [wf] trees with the same
    content are equal ([wf_canonical]). *)

From S2P Require Import Prelude HexEncoding.
From Stdlib Require Import Strings.Byte.

Inductive tree :=
  | TNil
  | TValue (v : bytes)
  | TShort (k : bytes) (t : tree)
  | TFull (cs : list tree).

#[export] Instance TNil_dec (t : tree) : Decision (t = TNil).
Proof. destruct t; [left; done|right..]; done. Defined.

Definition idx (x : byte) : nat := Z.to_nat (b2z x).

Lemma idx_inj x y : idx x = idx y → x = y.
Proof.
  intros E. apply b2z_inj. unfold idx in E.
  pose proof (b2z_range x). pose proof (b2z_range y). lia.
Qed.

Lemma idx_nibble x : nibble x → idx x < 16.
Proof. unfold nibble, idx. pose proof (b2z_range x). lia. Qed.

Lemma idx_term : idx terminator = 16.
Proof. done. Qed.

Lemma idx_z2b i : i < 256 → idx (z2b (Z.of_nat i)) = i.
Proof. intros Hi. unfold idx. rewrite b2z_z2b, Z.mod_small by lia. lia. Qed.

Lemma idx_lt16_nibble x : idx x < 16 → nibble x.
Proof. unfold nibble, idx. pose proof (b2z_range x). lia. Qed.

(** ** Meaning *)

Fixpoint tlookup (t : tree) (k : bytes) : option bytes :=
  match t with
  | TNil => None
  | TValue v => match k with [] => Some v | _ => None end
  | TShort p c =>
    if decide (take (length p) k = p) then tlookup c (drop (length p) k) else None
  | TFull cs =>
    match k with
    | [] => None
    | x :: k' =>
      (fix go (cs : list tree) (i : nat) : option bytes :=
         match cs, i with
         | c :: _, O => tlookup c k'
         | _ :: cs, S i => go cs i
         | [], _ => None
         end) cs (idx x)
    end
  end.

Lemma tlookup_full cs x k : tlookup (TFull cs) (x :: k) = cs !! idx x ≫= λ c, tlookup c k.
Proof.
  cbn [tlookup]. generalize (idx x). induction cs as [|c cs IH]; by intros [|i].
Qed.

Lemma tlookup_short p c k : tlookup (TShort p c) (p ++ k) = tlookup c k.
Proof. simpl. by rewrite take_app_length, decide_True, drop_app_length. Qed.

Lemma tlookup_short_Some p c k v :
  tlookup (TShort p c) k = Some v → ∃ k', k = p ++ k' ∧ tlookup c k' = Some v.
Proof.
  simpl. case_decide as E; [|done]. intros ?. exists (drop (length p) k). split; [|done].
  rewrite <- E at 1. by rewrite take_drop.
Qed.

Lemma tlookup_short_None p c k : (∀ k', k ≠ p ++ k') → tlookup (TShort p c) k = None.
Proof.
  intros Hk. destruct (tlookup _ k) eqn:E; [|done].
  apply tlookup_short_Some in E as (k' & -> & _). by destruct (Hk k').
Qed.

(** ** Canonical form *)

Definition two (cs : list tree) : Prop :=
  ∃ i j c d, i ≠ j ∧ cs !! i = Some c ∧ c ≠ TNil ∧ cs !! j = Some d ∧ d ≠ TNil.

Inductive wf : tree → Prop :=
  | wf_leaf k v : hexkey k → v ≠ [] → wf (TShort k (TValue v))
  | wf_ext k cs : k ≠ [] → Forall nibble k → wf (TFull cs) → wf (TShort k (TFull cs))
  | wf_full cs :
      length cs = 17 →
      (∀ i c, i < 16 → cs !! i = Some c → c ≠ TNil → wf c) →
      (∀ c, cs !! 16 = Some c → c ≠ TNil → ∃ v, c = TValue v ∧ v ≠ []) →
      two cs → wf (TFull cs).

Definition wf_root (t : tree) : Prop := t = TNil ∨ wf t.

#[export] Hint Constructors wf : trie.

Lemma wf_not_nil t : wf t → t ≠ TNil.
Proof. by destruct 1. Qed.

Lemma wf_root_nil : wf_root TNil.
Proof. by left. Qed.

Lemma wf_root_wf t : wf t → wf_root t.
Proof. by right. Qed.

#[export] Hint Resolve wf_root_nil wf_root_wf wf_not_nil : trie.

Lemma wf_full_child cs i c : wf (TFull cs) → i < 16 → cs !! i = Some c → wf_root c.
Proof.
  inversion 1 as [| |? ? Hc _ _]; subst. intros Hi E.
  destruct (decide (c = TNil)) as [->|Hn]; [by left|right; eauto].
Qed.

(** Only complete keys carry values, and values are never empty. *)
Lemma wf_lookup_key t k v : wf t → tlookup t k = Some v → hexkey k ∧ v ≠ [].
Proof.
  intros Hwf. revert k v. induction Hwf as [k w Hk Hw|p cs Hp Hn Hwf IH|cs Hlen Hc IH Hs _]; intros q v E.
  - apply tlookup_short_Some in E as (k' & -> & E). destruct k'; simplify_eq/=.
    by rewrite app_nil_r.
  - apply tlookup_short_Some in E as (k' & -> & E). apply IH in E as [??].
    split; [|done]. by apply hexkey_nibbles_app.
  - destruct q as [|x q]; [done|]. rewrite tlookup_full in E.
    apply bind_Some in E as (c & Hx & E).
    assert (c ≠ TNil) as Hne by (by intros ->).
    pose proof (lookup_lt_Some _ _ _ Hx) as Hlt. rewrite Hlen in Hlt.
    destruct (decide (idx x = 16)) as [H16|].
    + rewrite H16 in Hx. destruct (Hs _ Hx Hne) as (w & -> & Hw).
      destruct q; simplify_eq/=. split; [|done].
      rewrite <- idx_term in H16. apply idx_inj in H16 as ->. apply hexkey_cons. by left.
    + assert (idx x < 16) as Hi by lia. destruct (IH _ _ Hi Hx Hne _ _ E) as [??].
      split; [|done]. apply hexkey_cons. right. split; [by apply idx_lt16_nibble|done].
Qed.

Lemma wf_root_lookup_key t k v : wf_root t → tlookup t k = Some v → hexkey k ∧ v ≠ [].
Proof. intros [->|H]; [done|by apply wf_lookup_key]. Qed.

Lemma wf_full_nonempty_child cs i c : wf (TFull cs) → cs !! i = Some c → c ≠ TNil →
  (∀ j c', j < 16 → cs !! j = Some c' → c' ≠ TNil → ∃ k v, tlookup c' k = Some v) →
  ∃ k v, tlookup (TFull cs) (z2b (Z.of_nat i) :: k) = Some v.
Proof.
  inversion 1 as [| |? Hlen Hc Hs _]; subst. intros Hi Hn IH.
  pose proof (lookup_lt_Some _ _ _ Hi) as Hlt. rewrite Hlen in Hlt.
  assert (∃ k v, tlookup c k = Some v) as (k & v & E).
  { destruct (decide (i = 16)) as [->|].
    - destruct (Hs _ Hi Hn) as (w & -> & _). by exists [], w.
    - apply (IH i c); [lia|done..]. }
  exists k, v. rewrite tlookup_full, idx_z2b by lia. by rewrite Hi.
Qed.

Lemma wf_inhabited t : wf t → ∃ k v, tlookup t k = Some v.
Proof.
  induction 1 as [k v Hk Hv|p cs Hp Hn Hwf IH|cs Hlen Hc IH Hs Htwo].
  - exists k, v. rewrite <- (app_nil_r k) at 2. by rewrite tlookup_short.
  - destruct IH as (k & v & E). exists (p ++ k), v. by rewrite tlookup_short.
  - pose proof (wf_full cs Hlen Hc Hs Htwo) as Hwf.
    destruct Htwo as (i & j & c & d & _ & Hi & Hci & _).
    destruct (wf_full_nonempty_child cs i c Hwf Hi Hci IH) as (k & v & E). eauto.
Qed.

(** A branch holds two keys that differ in their first nibble. *)
Lemma wf_full_two_keys cs : wf (TFull cs) → ∃ x k v y q w, x ≠ y ∧
  tlookup (TFull cs) (x :: k) = Some v ∧ tlookup (TFull cs) (y :: q) = Some w.
Proof.
  intros Hwf. inversion Hwf as [| |? Hlen Hc Hs (i & j & c & d & Hij & Hi & Hci & Hj & Hdj)]; subst.
  pose proof (lookup_lt_Some _ _ _ Hi). pose proof (lookup_lt_Some _ _ _ Hj).
  assert (∀ j c', j < 16 → cs !! j = Some c' → c' ≠ TNil → ∃ k v, tlookup c' k = Some v) as Hin
    by eauto using wf_inhabited.
  destruct (wf_full_nonempty_child cs i c Hwf Hi Hci Hin) as (k & v & E1).
  destruct (wf_full_nonempty_child cs j d Hwf Hj Hdj Hin) as (q & w & E2).
  exists (z2b (Z.of_nat i)), k, v, (z2b (Z.of_nat j)), q, w. split; [|done].
  intros E. apply (f_equal idx) in E. rewrite !idx_z2b in E by lia. done.
Qed.

(** ** Canonicity *)

Lemma short_key_fst p c k x q v :
  p = x :: q → tlookup (TShort p c) k = Some v → ∃ k', k = x :: k'.
Proof. intros -> E. apply tlookup_short_Some in E as (k' & -> & _). by eexists. Qed.

(** A short node is never a branch: all its keys start alike. *)
Lemma short_not_full p c cs :
  p ≠ [] → wf (TFull cs) → (∀ k, tlookup (TShort p c) k = tlookup (TFull cs) k) → False.
Proof.
  intros Hp Hf E. destruct p as [|x q]; [done|].
  destruct (wf_full_two_keys cs Hf) as (a & k & v & b & k' & w & Hab & E1 & E2).
  rewrite <- E in E1, E2.
  destruct (short_key_fst _ _ _ x q _ eq_refl E1) as [? [= ->]].
  destruct (short_key_fst _ _ _ x q _ eq_refl E2) as [? [= ->]]. done.
Qed.

(** The keys below an extension have exactly its key as common prefix. *)
Lemma ext_prefix_le p cs q c :
  wf (TFull cs) → (∀ k, tlookup (TShort p (TFull cs)) k = tlookup (TShort q c) k) →
  ∃ r, p = q ++ r.
Proof.
  intros Hf E. destruct (wf_full_two_keys cs Hf) as (a & k & v & b & k' & w & Hab & E1 & E2).
  pose proof (E (p ++ a :: k)) as F1. pose proof (E (p ++ b :: k')) as F2.
  rewrite tlookup_short, E1 in F1. rewrite tlookup_short, E2 in F2.
  symmetry in F1, F2. apply tlookup_short_Some in F1 as (r1 & F1 & _).
  apply tlookup_short_Some in F2 as (r2 & F2 & _). clear -Hab F1 F2.
  revert q F1 F2. induction p as [|x p IH]; intros [|y q] F1 F2; simplify_eq/=; eauto.
  destruct (IH q) as [r ->]; eauto.
Qed.

Lemma leaf_lookup k v q : tlookup (TShort k (TValue v)) q = if decide (q = k) then Some v else None.
Proof.
  case_decide as E.
  - subst. rewrite <- (app_nil_r k) at 2. by rewrite tlookup_short.
  - apply eq_None_not_Some. intros [w Hw].
    apply tlookup_short_Some in Hw as (k' & -> & Hw). destruct k'; simplify_eq/=.
    by rewrite app_nil_r in E.
Qed.

Lemma wf_short_nonempty p c : wf (TShort p c) → p ≠ [].
Proof. inversion 1; subst; [|done]. intros ->. by apply hexkey_not_nil. Qed.

Lemma leaf_not_ext k v p cs :
  wf (TFull cs) → (∀ q, tlookup (TShort k (TValue v)) q = tlookup (TShort p (TFull cs)) q) → False.
Proof.
  intros Hf E. destruct (wf_full_two_keys cs Hf) as (a & q & x & b & r & y & Hab & E1 & E2).
  pose proof (E (p ++ a :: q)) as F1. pose proof (E (p ++ b :: r)) as F2.
  rewrite tlookup_short, leaf_lookup in F1, F2. rewrite E1 in F1. rewrite E2 in F2.
  repeat case_decide; simplify_eq/=. 
Qed.

(** Slots with the same content are equal when canonical subtrees are. *)
Lemma slot_canonical cs cs' i c c' :
  wf (TFull cs) → wf (TFull cs') → cs !! i = Some c → cs' !! i = Some c' →
  (∀ k, tlookup c k = tlookup c' k) → (wf c → wf c' → c = c') → c = c'.
Proof.
  intros Hwf Hwf' Hci Hci' Ec Heq.
  inversion Hwf as [| |? Hlen Hc Hs _]; subst. inversion Hwf' as [| |? Hlen' Hc' Hs' _]; subst.
  pose proof (lookup_lt_Some _ _ _ Hci) as Hi. rewrite Hlen in Hi.
  destruct (decide (i = 16)) as [->|].
  - destruct (decide (c = TNil)) as [->|Hn]; [|destruct (Hs _ Hci Hn) as (w & -> & _)];
    (destruct (decide (c' = TNil)) as [->|Hn']; [|destruct (Hs' _ Hci' Hn') as (w' & -> & _)]);
    specialize (Ec []); simpl in Ec; congruence.
  - assert (i < 16) as Hi' by lia.
    destruct (wf_full_child cs i c) as [->|Hw]; [done..| |];
    (destruct (wf_full_child cs' i c') as [->|Hw']; [done..| |]); [done|..|by apply Heq].
    + destruct (wf_inhabited c' Hw') as (k & w & Ek). by rewrite <- Ec in Ek.
    + destruct (wf_inhabited c Hw) as (k & w & Ek). by rewrite Ec in Ek.
Qed.

Lemma ext_prefix_eq p cs p' cs' :
  wf (TFull cs) → wf (TFull cs') →
  (∀ k, tlookup (TShort p (TFull cs)) k = tlookup (TShort p' (TFull cs')) k) → p = p'.
Proof.
  intros Hwf Hwf' E. destruct (ext_prefix_le p cs p' (TFull cs') Hwf E) as [r1 Hr1].
  destruct (ext_prefix_le p' cs' p (TFull cs) Hwf' ltac:(done)) as [r2 Hr2].
  assert (r1 = []) as ->; [|by rewrite app_nil_r in Hr1].
  rewrite Hr1, <- app_assoc in Hr2. apply (f_equal length) in Hr2.
  rewrite !length_app in Hr2. destruct r1; [done|]. simpl in Hr2. lia.
Qed.

(** Canonical trees with the same content are the same tree. *)
Lemma wf_canonical t : wf t → ∀ t', wf t' → (∀ k, tlookup t k = tlookup t' k) → t = t'.
Proof.
  induction 1 as [k v Hk Hv|p cs Hp Hn Hwf IH|cs Hlen Hc IH Hs Htwo]; intros t' Hwf' E;
    destruct Hwf' as [k' v' Hk' Hv'|p' cs' Hp' Hn' Hwf'|cs' Hlen' Hc' Hs' Htwo'].
  - pose proof (E k) as F. rewrite !leaf_lookup in F. repeat case_decide; by simplify_eq/=.
  - by destruct (leaf_not_ext k v p' cs').
  - destruct (short_not_full k (TValue v) cs'); eauto with trie. intros ->. by apply hexkey_not_nil.
  - by destruct (leaf_not_ext k' v' p cs).
  - pose proof (ext_prefix_eq p cs p' cs' Hwf Hwf' E) as <-. f_equal. apply IH; [done|].
    intros k. specialize (E (p ++ k)). by rewrite !tlookup_short in E.
  - destruct (short_not_full p (TFull cs) cs'); eauto with trie.
  - destruct (short_not_full k' (TValue v') cs); eauto with trie. intros ->. by apply hexkey_not_nil.
  - destruct (short_not_full p' (TFull cs') cs); eauto with trie.
  - f_equal. apply list_eq_same_length with 17; [done..|]. intros i c c' Hi Hci Hci'.
    eapply (slot_canonical cs cs' i); eauto with trie.
    + intros k. specialize (E (z2b (Z.of_nat i) :: k)).
      rewrite !tlookup_full, idx_z2b in E by lia. by rewrite Hci, Hci' in E.
    + intros Hw Hw'. destruct (decide (i = 16)) as [->|].
      * destruct (Hs _ Hci (wf_not_nil _ Hw)) as (w & -> & _). inversion Hw.
      * apply (IH i c); [lia|by eauto with trie..| |].
        -- done.
        -- intros k. specialize (E (z2b (Z.of_nat i) :: k)).
           rewrite !tlookup_full, idx_z2b in E by lia. by rewrite Hci, Hci' in E.
Qed.

Lemma wf_root_canonical t t' :
  wf_root t → wf_root t' → (∀ k, tlookup t k = tlookup t' k) → t = t'.
Proof.
  intros [->|Hw] [->|Hw'] E; [done|..|by apply wf_canonical].
  - destruct (wf_inhabited t' Hw') as (k & w & Ek). by rewrite <- E in Ek.
  - destruct (wf_inhabited t Hw) as (k & w & Ek). by rewrite E in Ek.
Qed.

(** ** Reference updates *)

Definition tleaf (k : bytes) (c : tree) : tree :=
  match k with [] => c | _ => TShort k c end.

Definition empty_slots : list tree := replicate 17 TNil.

(** Two subtrees below different nibbles. *)
Definition tbranch (x : byte) (c : tree) (y : byte) (d : tree) : tree :=
  TFull (<[idx y := d]> (<[idx x := c]> empty_slots)).

Fixpoint tinsert (t : tree) (k v : bytes) : tree :=
  match t with
  | TNil => tleaf k (TValue v)
  | TValue _ => TValue v
  | TShort p c =>
    let m := PrefixLen k p in
    if decide (m = length p) then TShort p (tinsert c (drop m k) v)
    else
      match p !! m, k !! m with
      | Some x, Some y =>
        let b := tbranch x (tleaf (drop (m + 1) p) c) y (tleaf (drop (m + 1) k) (TValue v)) in
        if decide (m = 0) then b else TShort (take m k) b
      | _, _ => t
      end
  | TFull cs =>
    match k with
    | [] => t
    | x :: k' =>
      TFull (alter (λ c, tinsert c k' v) (idx x) cs)
    end
  end.

Definition tmerge (p : bytes) (c : tree) : tree :=
  match c with TShort q d => TShort (p ++ q) d | _ => TShort p c end.

(** The index of the only subtree, when there is exactly one. *)
Fixpoint tsingle (i : nat) (acc : option nat) (cs : list tree) : option nat :=
  match cs with
  | [] => acc
  | TNil :: cs => tsingle (S i) acc cs
  | _ :: cs => match acc with None => tsingle (S i) (Some i) cs | Some _ => None end
  end.

Definition treduce (cs : list tree) : tree :=
  match tsingle 0 None cs with
  | Some i =>
    match cs !! i with
    | Some c => tmerge [z2b (Z.of_nat i)] c
    | None => TFull cs
    end
  | None => TFull cs
  end.

Fixpoint tdelete (t : tree) (k : bytes) : tree :=
  match t with
  | TNil | TValue _ => TNil
  | TShort p c =>
    if decide (PrefixLen k p < length p) then t
    else if decide (PrefixLen k p = length k) then TNil
    else tmerge p (tdelete c (drop (length p) k))
  | TFull cs =>
    match k with
    | [] => t
    | x :: k' =>
      let cs' := alter (λ c, tdelete c k') (idx x) cs in
      match cs' !! idx x with Some TNil => treduce cs' | _ => TFull cs' end
    end
  end.

Lemma tinsert_full cs x k v c :
  cs !! idx x = Some c → tinsert (TFull cs) (x :: k) v = TFull (<[idx x := tinsert c k v]> cs).
Proof. intros Hc. cbn [tinsert]. by rewrite (alter_insert_list _ _ _ c). Qed.

Lemma tdelete_full cs x k c :
  cs !! idx x = Some c →
  tdelete (TFull cs) (x :: k) =
  let cs' := <[idx x := tdelete c k]> cs in
  match tdelete c k with TNil => treduce cs' | _ => TFull cs' end.
Proof.
  intros Hc. cbn [tdelete]. rewrite (alter_insert_list _ _ _ c) by done.
  cbn zeta. rewrite list_lookup_insert_eq by (by eapply lookup_lt_Some). by destruct (tdelete c k).
Qed.

(** ** Building blocks of the update proofs *)

(** What a branch slot may hold: a canonical subtree below a nibble, a value below the
    terminator. *)
Definition slot_ok (x : byte) (c : tree) : Prop :=
  (nibble x ∧ wf c) ∨ (x = terminator ∧ ∃ v, c = TValue v ∧ v ≠ []).

Lemma slot_ok_not_nil x c : slot_ok x c → c ≠ TNil.
Proof. intros [[_ H]|[_ (v & -> & _)]]; [by apply wf_not_nil|done]. Qed.

Lemma slot_ok_idx x c : slot_ok x c → idx x < 17.
Proof. intros [[H _]|[-> _]]; [apply idx_nibble in H; lia|rewrite idx_term; lia]. Qed.

Lemma leaf_slot_ok x k v : hexkey (x :: k) → v ≠ [] → slot_ok x (tleaf k (TValue v)).
Proof.
  intros [[-> ->]|[Hx Hk]]%hexkey_cons Hv; [right; eauto|left].
  destruct k; [by apply hexkey_not_nil in Hk|]. split; [done|]. by constructor.
Qed.

Lemma tlookup_tleaf k c q : tlookup (tleaf k c) q = tlookup (TShort k c) q.
Proof. destruct k; [|done]. exact (eq_sym (tlookup_short [] c q)). Qed.

Lemma tlookup_tmerge p c q : tlookup (tmerge p c) q = tlookup (TShort p c) q.
Proof.
  destruct c as [|v|k t|cs]; try done. simpl tmerge.
  destruct (tlookup (TShort p (TShort k t)) q) eqn:E.
  - apply tlookup_short_Some in E as (q' & -> & E). apply tlookup_short_Some in E as (q'' & -> & E).
    by rewrite app_assoc, tlookup_short.
  - destruct (tlookup (TShort (p ++ k) t) q) eqn:F; [|done].
    apply tlookup_short_Some in F as (q' & -> & F).
    rewrite <- app_assoc, !tlookup_short in E. congruence.
Qed.

Lemma tlookup_full_insert cs x c z q : idx x < length cs →
  tlookup (TFull (<[idx x := c]> cs)) (z :: q) =
  if decide (z = x) then tlookup c q else tlookup (TFull cs) (z :: q).
Proof.
  intros Hx. rewrite !tlookup_full. case_decide as E; [subst|].
  - by rewrite list_lookup_insert_eq.
  - rewrite list_lookup_insert_ne; [done|]. intros ?. by apply E, idx_inj.
Qed.

Lemma tlookup_empty_slots q : tlookup (TFull empty_slots) q = None.
Proof.
  destruct q as [|z q]; [done|]. rewrite tlookup_full.
  destruct (empty_slots !! idx z) eqn:E; [|done].
  apply lookup_replicate in E as [-> _]. done.
Qed.

Lemma two_insert cs i c : two cs → c ≠ TNil → two (<[i := c]> cs).
Proof.
  intros (a & b & d & e & Hab & Ha & Hd & Hb & He) Hc.
  assert (∀ j x, cs !! j = Some x → x ≠ TNil → ∃ y, <[i := c]> cs !! j = Some y ∧ y ≠ TNil) as Hj.
  { intros j x Hj Hx. destruct (decide (i = j)) as [<-|].
    - exists c. by rewrite list_lookup_insert_eq by (by eapply lookup_lt_Some).
    - exists x. by rewrite list_lookup_insert_ne. }
  destruct (Hj a d Ha Hd) as (y & ? & ?). destruct (Hj b e Hb He) as (z & ? & ?).
  by exists a, b, y, z.
Qed.

(** The slot conditions of [wf_full] survive writing a good subtree, or nil, into a slot. *)
Definition slots_ok (cs : list tree) : Prop :=
  length cs = 17 ∧ (∀ i c, i < 16 → cs !! i = Some c → c ≠ TNil → wf c) ∧
  (∀ c, cs !! 16 = Some c → c ≠ TNil → ∃ v, c = TValue v ∧ v ≠ []).

Lemma slots_ok_wf cs : slots_ok cs → two cs → wf (TFull cs).
Proof. intros (? & ? & ?) ?. by constructor. Qed.

Lemma wf_slots_ok cs : wf (TFull cs) → slots_ok cs.
Proof. by inversion 1. Qed.

Lemma slots_ok_insert cs x c : slots_ok cs → slot_ok x c ∨ c = TNil → slots_ok (<[idx x := c]> cs).
Proof.
  intros (Hlen & Hc & Hs) Hx. split; [by rewrite length_insert|]. split.
  - intros i d Hi Hd Hn. apply list_lookup_insert_Some in Hd as [(<- & <- & _)|(Hne & Hd)]; [|by eauto].
    destruct Hx as [[[_ ?]|[-> _]]| ->]; [done|rewrite idx_term in Hi; lia|done].
  - intros d Hd Hn. apply list_lookup_insert_Some in Hd as [(He & <- & _)|(Hne & Hd)]; [|by eauto].
    destruct Hx as [[[Hx _]|[_ ?]]| ->]; [apply idx_nibble in Hx; lia|done|done].
Qed.

Lemma slots_ok_slot cs x c : slots_ok cs → cs !! idx x = Some c → c ≠ TNil → slot_ok x c.
Proof.
  intros (Hlen & Hc & Hs) Hx Hn. pose proof (lookup_lt_Some _ _ _ Hx) as Hi.
  destruct (decide (idx x = 16)) as [E|].
  - right. split; [|rewrite E in Hx; eauto]. apply idx_inj. by rewrite E.
  - left. assert (idx x < 16) by lia. split; [by apply idx_lt16_nibble|eauto].
Qed.

Lemma wf_full_insert cs x c : wf (TFull cs) → slot_ok x c → wf (TFull (<[idx x := c]> cs)).
Proof.
  intros Hwf Hx. apply slots_ok_wf.
  - apply slots_ok_insert; [by apply wf_slots_ok|by left].
  - inversion Hwf; subst. apply two_insert; [done|by eapply slot_ok_not_nil].
Qed.

Lemma tbranch_wf x c y d : x ≠ y → slot_ok x c → slot_ok y d → wf (tbranch x c y d).
Proof.
  intros Hxy Hc Hd. pose proof (slot_ok_idx _ _ Hc). pose proof (slot_ok_idx _ _ Hd).
  assert (slots_ok empty_slots) as Hempty.
  { split; [done|]. split; intros *; intros;
      match goal with E : empty_slots !! _ = _ |- _ => by apply lookup_replicate in E as [-> _] end. }
  apply slots_ok_wf.
  - apply slots_ok_insert; [apply slots_ok_insert; [done|by left]|by left].
  - assert (idx x ≠ idx y) by (by intros ?%idx_inj).
    exists (idx x), (idx y), c, d. split; [done|].
    rewrite list_lookup_insert_ne, !list_lookup_insert_eq by (rewrite ?length_insert; simpl; lia).
    repeat split; eauto using slot_ok_not_nil.
Qed.

Lemma tlookup_tbranch x c y d z q : x ≠ y → idx x < 17 → idx y < 17 →
  tlookup (tbranch x c y d) (z :: q) =
  if decide (z = y) then tlookup d q else if decide (z = x) then tlookup c q else None.
Proof.
  intros Hxy Hx Hy. unfold tbranch.
  rewrite tlookup_full_insert by (rewrite length_insert; simpl; lia).
  case_decide; [done|]. rewrite tlookup_full_insert by (simpl; lia).
  case_decide; [done|]. apply tlookup_empty_slots.
Qed.

(** How a complete key meets a short node: it runs through it, or leaves it at a nibble. *)
Lemma short_cases p c k : wf (TShort p c) → hexkey k →
  (∃ k', k = p ++ k' ∧ PrefixLen k p = length p ∧
     ((∃ v, c = TValue v ∧ v ≠ [] ∧ hexkey p ∧ k' = []) ∨
      (∃ cs, c = TFull cs ∧ wf c ∧ Forall nibble p ∧ hexkey k'))) ∨
  (∃ pr x p' y k', p = pr ++ x :: p' ∧ k = pr ++ y :: k' ∧ x ≠ y ∧ PrefixLen k p = length pr ∧
     Forall nibble pr ∧ slot_ok x (tleaf p' c) ∧ hexkey (y :: k')).
Proof.
  intros Hwf Hk. destruct (PrefixLen_split k p) as (pr & k' & p' & -> & -> & Hm & Hcase).
  rewrite Hm. destruct p' as [|x p'].
  { left. rewrite app_nil_r in *. exists k'. split; [done|]. split; [done|].
    inversion Hwf as [? v Hp Hv|? cs Hp Hn Hf|]; subst.
    - left. exists v. split; [done|]. split; [done|]. split; [done|]. by eapply hexkey_prefix_free.
    - right. exists cs. split; [done|]. split; [done|]. split; [done|]. by eapply hexkey_nibbles_app. }
  right. destruct k' as [|y k'].
  { exfalso. rewrite app_nil_r in Hk. inversion Hwf as [? v Hp Hv|? cs Hp Hn Hf|]; subst.
    - by apply hexkey_prefix_free in Hp.
    - apply Forall_app in Hn as [Hn _]. apply HasTerm_hexkey in Hk.
      by rewrite HasTerm_nibbles in Hk. }
  destruct Hcase as [?|[?|(y0 & x0 & k0 & p0 & [= -> ->] & [= -> ->] & Hne)]]; [done..|].
  apply hexkey_app_nonempty in Hk as [Hpr Hk]; [|done].
  exists pr, x0, p0, y0, k0. split_and!; [done..|by apply not_eq_sym|done|done| |done].
  inversion Hwf as [? v Hp Hv|? cs Hp Hn Hf|]; subst.
  - apply hexkey_nibbles_app in Hp; [|done]. by apply leaf_slot_ok.
  - left. apply Forall_app in Hn as [_ Hn]. inversion Hn; subst.
    split; [done|]. destruct p0; [done|]. simpl. by constructor.
Qed.

(** ** [tinsert] *)

Lemma tinsert_short_through p c k' v :
  tinsert (TShort p c) (p ++ k') v = TShort p (tinsert c k' v).
Proof.
  cbn [tinsert]. assert (PrefixLen (p ++ k') p = length p) as ->.
  { rewrite <- (app_nil_r p) at 2. rewrite PrefixLen_app. by destruct k'; simpl; lia. }
  by rewrite decide_True, drop_app_length.
Qed.

Lemma tinsert_short_split pr x p' y k' c v : x ≠ y →
  tinsert (TShort (pr ++ x :: p') c) (pr ++ y :: k') v =
  tleaf pr (tbranch x (tleaf p' c) y (tleaf k' (TValue v))).
Proof.
  intros Hxy. cbn [tinsert].
  assert (PrefixLen (pr ++ y :: k') (pr ++ x :: p') = length pr) as ->.
  { rewrite PrefixLen_app. simpl. rewrite decide_False by done. lia. }
  rewrite decide_False by (rewrite length_app; simpl; lia).
  rewrite !list_lookup_middle by done.
  rewrite !(Nat.add_1_r (length pr)), !drop_app_ge by lia.
  replace (S (length pr) - length pr) with 1 by lia. simpl drop. rewrite take_app_length.
  destruct pr; [by rewrite decide_True|by rewrite decide_False].
Qed.

Lemma split_lookup pr x p' y k' c v q :
  x ≠ y → idx x < 17 → idx y < 17 →
  tlookup (tleaf pr (tbranch x (tleaf p' c) y (tleaf k' (TValue v)))) q =
  if decide (q = pr ++ y :: k') then Some v else tlookup (TShort (pr ++ x :: p') c) q.
Proof.
  intros Hxy Hx Hy. rewrite tlookup_tleaf.
  assert (∀ r, tlookup (TShort (pr ++ x :: p') c) (pr ++ r) = tlookup (TShort (x :: p') c) r) as Hpr.
  { intros r.
    change (TShort (pr ++ x :: p') c) with (tmerge pr (TShort (x :: p') c)).
    by rewrite tlookup_tmerge, tlookup_short. }
  destruct (decide (take (length pr) q = pr)) as [E|E]; last first.
  { assert (∀ r, q ≠ pr ++ r) as Hq by (intros r ->; by rewrite take_app_length in E).
    rewrite tlookup_short_None by done. rewrite decide_False by (apply Hq).
    rewrite tlookup_short_None; [done|]. intros r. rewrite <- app_assoc. apply Hq. }
  rewrite <- (take_drop (length pr) q), E. set (r := drop (length pr) q). clearbody r. clear E q.
  rewrite tlookup_short, Hpr. destruct r as [|z r].
  { rewrite decide_False by (by intros ?%app_inv_head). done. }
  rewrite tlookup_tbranch by done. rewrite !tlookup_tleaf.
  destruct (decide (z = y)) as [->|Hzy].
  - rewrite leaf_lookup, (tlookup_short_None (x :: p')) by (by intros ? [=]).
    apply decide_ext. split; [by intros ->|]. by intros [= ?]%app_inv_head.
  - destruct (decide (pr ++ z :: r = pr ++ y :: k')) as [?%app_inv_head|_]; [congruence|].
    destruct (decide (z = x)) as [->|Hzx].
    + change (TShort (x :: p') c) with (tmerge [x] (TShort p' c)).
      rewrite tlookup_tmerge. exact (eq_sym (tlookup_short [x] (TShort p' c) r)).
    + symmetry. apply tlookup_short_None. by intros ? [=].
Qed.

(** Inserting is a map update. *)
Lemma tinsert_lookup t : wf_root t → ∀ k v q, hexkey k →
  tlookup (tinsert t k v) q = if decide (q = k) then Some v else tlookup t q.
Proof.
  assert (∀ k v q, hexkey k →
    tlookup (tinsert TNil k v) q = if decide (q = k) then Some v else None) as Hnil.
  { intros k v q Hk. simpl. by rewrite tlookup_tleaf, leaf_lookup. }
  intros [->|Hwf]; [apply Hnil|].
  induction Hwf as [p w Hp Hw|p cs Hp Hn Hwf IH|cs Hlen Hc IH Hs Htwo]; intros k v q Hk.
  - destruct (short_cases p (TValue w) k) as [(k' & -> & _ & [(? & _ & _ & _ & ->)|(? & [=] & _)])|
      (pr & x & p' & y & k' & -> & -> & Hxy & _ & _ & Hx & Hy)]; [by constructor|done|..].
    + rewrite tinsert_short_through, app_nil_r. simpl tinsert. rewrite !leaf_lookup.
      by repeat case_decide.
    + rewrite tinsert_short_split, split_lookup; eauto using slot_ok_idx. by eapply hexkey_index.
  - destruct (short_cases p (TFull cs) k) as [(k' & -> & _ & [(? & [=] & _)|(? & _ & _ & _ & Hk')])|
      (pr & x & p' & y & k' & -> & -> & Hxy & _ & _ & Hx & Hy)]; [by constructor|done|..].
    + rewrite tinsert_short_through. destruct (decide (take (length p) q = p)) as [E|E].
      * rewrite <- (take_drop (length p) q), E, !tlookup_short, IH by done.
        apply decide_ext. split; [by intros ->|by intros ?%app_inv_head].
      * assert (∀ r, q ≠ p ++ r) as Hq by (intros r ->; by rewrite take_app_length in E).
        by rewrite !tlookup_short_None, decide_False by done.
    + rewrite tinsert_short_split, split_lookup; eauto using slot_ok_idx. by eapply hexkey_index.
  - destruct k as [|x k]; [by apply hexkey_not_nil in Hk|].
    pose proof (hexkey_index _ _ Hk) as Hx. fold (idx x) in Hx.
    destruct (lookup_lt_is_Some_2 cs (idx x)) as [c Hcx]; [lia|].
    rewrite (tinsert_full cs x k v c Hcx). destruct q as [|z q]; [by rewrite decide_False|].
    rewrite tlookup_full_insert by lia. destruct (decide (z = x)) as [->|]; last first.
    { by rewrite decide_False by congruence. }
    rewrite tlookup_full, Hcx. cbn [mbind option_bind].
    transitivity (if decide (q = k) then Some v else tlookup c q);
      [|apply decide_ext; split; [by intros ->|by intros [=]]].
    apply hexkey_cons in Hk as [[-> ->]|[Hxn Hk]].
    + rewrite idx_term in Hcx. destruct (decide (c = TNil)) as [->|Hcn].
      * simpl. by destruct q.
      * destruct (Hs _ Hcx Hcn) as (w & -> & _). simpl. by destruct q.
    + destruct (decide (c = TNil)) as [->|Hcn]; [by apply Hnil|].
      apply (IH (idx x)); [by apply idx_nibble|done..].
Qed.

Definition is_full (t : tree) : Prop := match t with TFull _ => True | _ => False end.

Lemma tinsert_is_full t k v : is_full t → is_full (tinsert t k v).
Proof. destruct t; try done. by destruct k. Qed.

Lemma tleaf_branch_wf pr b : Forall nibble pr → wf b → is_full b → wf (tleaf pr b).
Proof. intros Hpr Hb Hf. destruct pr; [done|]. destruct b; try done. by constructor. Qed.

(** Inserting a non-empty value keeps the canonical form. *)
Lemma tinsert_wf t : wf_root t → ∀ k v, hexkey k → v ≠ [] → wf (tinsert t k v).
Proof.
  assert (∀ k v, hexkey k → v ≠ [] → wf (tinsert TNil k v)) as Hnil.
  { intros k v Hk Hv. destruct k; [by apply hexkey_not_nil in Hk|]. by constructor. }
  intros [->|Hwf]; [apply Hnil|].
  induction Hwf as [p w Hp Hw|p cs Hp Hn Hwf IH|cs Hlen Hc IH Hs Htwo]; intros k v Hk Hv.
  - destruct (short_cases p (TValue w) k) as [(k' & -> & _ & [(? & _ & _ & _ & ->)|(? & [=] & _)])|
      (pr & x & p' & y & k' & -> & -> & Hxy & _ & Hpr & Hx & Hy)]; [by constructor|done|..].
    + rewrite tinsert_short_through. by constructor.
    + rewrite tinsert_short_split by done.
      apply tleaf_branch_wf; [done|apply tbranch_wf; by eauto using leaf_slot_ok|done].
  - destruct (short_cases p (TFull cs) k) as [(k' & -> & _ & [(? & [=] & _)|(? & _ & _ & _ & Hk')])|
      (pr & x & p' & y & k' & -> & -> & Hxy & _ & Hpr & Hx & Hy)]; [by constructor|done|..].
    + rewrite tinsert_short_through. specialize (IH k' v Hk' Hv).
      pose proof (tinsert_is_full (TFull cs) k' v I). destruct (tinsert _ _ _); try done.
      by constructor.
    + rewrite tinsert_short_split by done.
      apply tleaf_branch_wf; [done|apply tbranch_wf; by eauto using leaf_slot_ok|done].
  - destruct k as [|x k]; [by apply hexkey_not_nil in Hk|].
    pose proof (hexkey_index _ _ Hk) as Hx. fold (idx x) in Hx.
    destruct (lookup_lt_is_Some_2 cs (idx x)) as [c Hcx]; [lia|].
    rewrite (tinsert_full cs x k v c Hcx). apply wf_full_insert; [by constructor|].
    apply hexkey_cons in Hk as [[-> ->]|[Hxn Hk]].
    + right. split; [done|]. exists v. split; [|done]. rewrite idx_term in Hcx.
      destruct (decide (c = TNil)) as [->|Hcn]; [done|]. by destruct (Hs _ Hcx Hcn) as (w & -> & _).
    + left. split; [done|]. destruct (decide (c = TNil)) as [->|Hcn]; [by apply Hnil|].
      apply (IH (idx x)); [by apply idx_nibble|done..].
Qed.

(** ** [tdelete] *)

Definition all_nil (cs : list tree) : Prop := ∀ i c, cs !! i = Some c → c = TNil.

Lemma all_nil_cons c cs : all_nil (c :: cs) ↔ c = TNil ∧ all_nil cs.
Proof.
  split.
  - intros Ha. split; [by apply (Ha 0)|]. intros i d Hd. by apply (Ha (S i)).
  - intros [-> Ha] [|i] d Hd; simplify_eq/=; [done|]. by eapply Ha.
Qed.

Lemma two_cons c cs : two cs → two (c :: cs).
Proof.
  intros (i & j & a & b & Hij & ?). exists (S i), (S j), a, b. split; [lia|]. done.
Qed.

Lemma not_all_nil cs : all_nil cs ∨ ∃ i c, cs !! i = Some c ∧ c ≠ TNil.
Proof.
  induction cs as [|c cs IH]; [by left|]. destruct (decide (c = TNil)) as [->|Hc].
  - destruct IH as [Ha|(i & d & ?)]; [left; by apply all_nil_cons|right; by exists (S i), d].
  - right. by exists 0, c.
Qed.

(** With an index already found, one more subtree makes the search give up. *)
Lemma tsingle_some i a cs r : tsingle i (Some a) cs = r →
  (r = Some a ∧ all_nil cs) ∨ (r = None ∧ ∃ j c, cs !! j = Some c ∧ c ≠ TNil).
Proof.
  revert i r. induction cs as [|c cs IH]; intros i r <-; [by left|].
  destruct (decide (c = TNil)) as [->|Hc].
  - simpl. destruct (IH (S i) _ eq_refl) as [[-> Ha]|[-> (j & d & ?)]].
    + left. split; [done|]. by apply all_nil_cons.
    + right. split; [done|]. by exists (S j), d.
  - right. split; [by destruct c|]. by exists 0, c.
Qed.

Lemma tsingle_none i cs :
  match tsingle i None cs with
  | Some j => ∃ c, i ≤ j ∧ cs !! (j - i) = Some c ∧ c ≠ TNil ∧
                   (∀ j' c', cs !! j' = Some c' → j' ≠ j - i → c' = TNil)
  | None => all_nil cs ∨ two cs
  end.
Proof.
  revert i. induction cs as [|c cs IH]; intros i; [by left|].
  destruct (decide (c = TNil)) as [->|Hc].
  - simpl. specialize (IH (S i)). destruct (tsingle (S i) None cs) as [j|].
    + destruct IH as (c & Hj & Hc & Hn & Hu). exists c. split; [lia|].
      replace (j - i) with (S (j - S i)) by lia. split; [done|]. split; [done|].
      intros [|j'] c' Hc' Hne; simplify_eq/=; [done|]. eapply Hu; [done|lia].
    + destruct IH as [Ha|Ht]; [left; by apply all_nil_cons|right; by apply two_cons].
  - assert (tsingle i None (c :: cs) = tsingle (S i) (Some i) cs) as -> by (by destruct c).
    destruct (tsingle_some (S i) i cs _ eq_refl) as [[-> Ha]|[-> (j & d & Hd & Hdn)]].
    + exists c. rewrite Nat.sub_diag. split; [lia|]. split; [done|]. split; [done|].
      intros [|j'] c' Hc' Hne; simplify_eq/=. by eapply Ha.
    + right. exists 0, (S j), c, d. done.
Qed.

Lemma tlookup_single cs i c q : i < 256 → cs !! i = Some c →
  (∀ j' c', cs !! j' = Some c' → j' ≠ i → c' = TNil) →
  tlookup (TShort [z2b (Z.of_nat i)] c) q = tlookup (TFull cs) q.
Proof.
  intros Hi Hc Hu. destruct q as [|z q]; [done|]. rewrite tlookup_full.
  destruct (decide (z = z2b (Z.of_nat i))) as [->|Hz].
  - rewrite idx_z2b, Hc by done. apply (tlookup_short [z2b (Z.of_nat i)] c q).
  - rewrite tlookup_short_None by (by intros ? [=]).
    destruct (cs !! idx z) as [d|] eqn:Ed; [|done]. simpl.
    rewrite (Hu _ _ Ed); [done|]. intros E. apply Hz, idx_inj. by rewrite idx_z2b.
Qed.

Lemma tmerge_wf x c : slot_ok x c → wf (tmerge [x] c).
Proof.
  intros [[Hx Hc]|[-> (v & -> & Hv)]].
  - destruct Hc as [k v Hk Hv|k cs Hk Hn Hf|cs]; simpl.
    + apply wf_leaf; [|done]. apply hexkey_cons. by right.
    + apply wf_ext; [done|by constructor|done].
    + apply wf_ext; [done|by constructor|by constructor].
  - apply wf_leaf; [|done]. by exists [].
Qed.

Lemma tmerge_wf_nibbles p c : p ≠ [] → Forall nibble p → wf c → wf (tmerge p c).
Proof.
  intros Hp Hn Hc. destruct Hc as [k v Hk Hv|k cs Hk Hkn Hf|cs]; simpl.
  - constructor; [|done]. by apply hexkey_nibbles_app.
  - constructor; [by destruct p|by apply Forall_app|done].
  - constructor; [done..|by constructor].
Qed.

(** Reducing a branch keeps its content and gives a canonical tree. *)
Lemma treduce_spec cs : slots_ok cs → ¬ all_nil cs →
  wf (treduce cs) ∧ ∀ q, tlookup (treduce cs) q = tlookup (TFull cs) q.
Proof.
  intros Hok Hna. unfold treduce. pose proof (tsingle_none 0 cs) as Hs.
  destruct (tsingle 0 None cs) as [i|].
  - destruct Hs as (c & _ & Hc & Hn & Hu). rewrite Nat.sub_0_r in *. rewrite Hc.
    pose proof (lookup_lt_Some _ _ _ Hc) as Hi. destruct Hok as (Hlen & ? & ?).
    split.
    + apply tmerge_wf. apply (slots_ok_slot cs); [done| |done]. by rewrite idx_z2b by lia.
    + intros q. rewrite tlookup_tmerge. apply tlookup_single; [lia|done..].
  - destruct Hs as [?|Ht]; [done|]. split; [by apply slots_ok_wf|done].
Qed.

Lemma tdelete_short_leaf p v : tdelete (TShort p (TValue v)) p = TNil.
Proof.
  simpl. assert (PrefixLen p p = length p) as ->.
  { rewrite <- (app_nil_r p) at 1 2. rewrite PrefixLen_app. simpl. lia. }
  by rewrite decide_False, decide_True by lia.
Qed.

Lemma tdelete_short_through p c k : k ≠ [] →
  tdelete (TShort p c) (p ++ k) = tmerge p (tdelete c k).
Proof.
  intros Hk. cbn [tdelete]. assert (PrefixLen (p ++ k) p = length p) as ->.
  { rewrite <- (app_nil_r p) at 2. rewrite PrefixLen_app. destruct k; simpl; lia. }
  rewrite decide_False by lia. rewrite decide_False; [by rewrite drop_app_length|].
  rewrite length_app. destruct k; [done|simpl; lia].
Qed.

Lemma tdelete_short_split pr x p' y k' c : x ≠ y →
  tdelete (TShort (pr ++ x :: p') c) (pr ++ y :: k') = TShort (pr ++ x :: p') c.
Proof.
  intros Hxy. cbn [tdelete].
  rewrite PrefixLen_app. simpl. rewrite (decide_False (P := y = x)) by done.
  rewrite decide_True; [done|]. rewrite length_app. simpl. lia.
Qed.

Lemma split_lookup_other pr x p' y k' c : x ≠ y →
  tlookup (TShort (pr ++ x :: p') c) (pr ++ y :: k') = None.
Proof.
  intros Hxy. apply tlookup_short_None. intros r. rewrite <- app_assoc.
  by intros [= ?]%app_inv_head.
Qed.

(** What deleting [k] from [t] must achieve. *)
Definition deletes_key (t t' : tree) (k : bytes) : Prop :=
  wf_root t' ∧ ∀ q, tlookup t' q = if decide (q = k) then None else tlookup t q.

Lemma deletes_key_id t k : wf_root t → tlookup t k = None → deletes_key t t k.
Proof. intros Hw Hk. split; [done|]. intros q. case_decide; by subst. Qed.

(** A branch never disappears: one of its two keys survives. *)
Lemma deletes_key_full cs t' k : wf (TFull cs) → deletes_key (TFull cs) t' k → wf t'.
Proof.
  intros Hwf [[->|Hw] Hl]; [exfalso|done].
  destruct (wf_full_two_keys cs Hwf) as (a & q & x & b & r & y & Hab & E1 & E2).
  pose proof (Hl (a :: q)) as F1. pose proof (Hl (b :: r)) as F2.
  repeat case_decide; simplify_eq/=; congruence.
Qed.

Lemma tdelete_slot cs x k c c' :
  wf (TFull cs) → cs !! idx x = Some c →
  (c' = TNil ∨ slot_ok x c') → (∀ q, tlookup c' q = if decide (q = k) then None else tlookup c q) →
  deletes_key (TFull cs)
    (match c' with TNil => treduce (<[idx x := c']> cs) | _ => TFull (<[idx x := c']> cs) end) (x :: k).
Proof.
  intros Hwf Hx Hc' Hl. pose proof (lookup_lt_Some _ _ _ Hx) as Hlt.
  assert (∀ q, tlookup (TFull (<[idx x := c']> cs)) q =
    if decide (q = x :: k) then None else tlookup (TFull cs) q) as Hfull.
  { intros [|z q]; [by rewrite decide_False|]. rewrite tlookup_full_insert by done.
    destruct (decide (z = x)) as [->|]; [|by rewrite decide_False by congruence].
    rewrite Hl, tlookup_full, Hx. apply decide_ext. split; [by intros ->|by intros [=]]. }
  destruct (decide (c' = TNil)) as [->|Hn].
  - destruct (treduce_spec (<[idx x := TNil]> cs)) as [Hw Hr].
    + apply slots_ok_insert; [by apply wf_slots_ok|by right].
    + intros Ha. inversion Hwf as [| |? _ _ _ (i & j & d & e & Hij & Hi & Hd & Hj & He)]; subst.
      destruct (decide (i = idx x)) as [->|].
      * apply He. eapply (Ha j). by rewrite list_lookup_insert_ne.
      * apply Hd. eapply (Ha i). by rewrite list_lookup_insert_ne.
    + split; [by right|]. intros q. by rewrite Hr.
  - destruct Hc' as [?|Hok]; [done|].
    assert (∀ a b : tree, match c' with TNil => a | _ => b end = b) as -> by (by destruct c').
    split; [right; by apply wf_full_insert|done].
Qed.

(** Deleting is a map deletion and keeps the canonical form. *)
Lemma tdelete_spec t k : wf_root t → hexkey k → deletes_key t (tdelete t k) k.
Proof.
  intros [->|Hwf] Hk; [split; [by left|]; intros q; by case_decide|]. revert k Hk.
  induction Hwf as [p w Hp Hw|p cs Hp Hn Hwf IH|cs Hlen Hc IH Hs Htwo]; intros k Hk.
  - destruct (short_cases p (TValue w) k) as [(k' & -> & _ & [(? & _ & _ & _ & ->)|(? & [=] & _)])|
      (pr & x & p' & y & k' & -> & -> & Hxy & _ & Hpr & Hx & Hy)]; [by constructor|done|..].
    + rewrite app_nil_r, tdelete_short_leaf. split; [by left|].
      intros q. rewrite leaf_lookup. by repeat case_decide.
    + rewrite tdelete_short_split by done.
      apply deletes_key_id; [right; by constructor|by apply split_lookup_other].
  - destruct (short_cases p (TFull cs) k) as [(k' & -> & _ & [(? & [=] & _)|(? & _ & _ & _ & Hk')])|
      (pr & x & p' & y & k' & -> & -> & Hxy & _ & Hpr & Hx & Hy)]; [by constructor|done|..].
    + rewrite tdelete_short_through by (intros ->; by apply hexkey_not_nil).
      pose proof (IH k' Hk') as HD. pose proof (deletes_key_full _ _ _ Hwf HD) as Hw'.
      split; [right; by apply tmerge_wf_nibbles|]. intros q. rewrite tlookup_tmerge.
      destruct (decide (take (length p) q = p)) as [E|E].
      * rewrite <- (take_drop (length p) q), E, !tlookup_short, (proj2 HD).
        apply decide_ext. split; [by intros ->|by intros ?%app_inv_head].
      * assert (∀ r, q ≠ p ++ r) as Hq by (intros r ->; by rewrite take_app_length in E).
        by rewrite !tlookup_short_None, decide_False by done.
    + rewrite tdelete_short_split by done.
      apply deletes_key_id; [right; by constructor|by apply split_lookup_other].
  - destruct k as [|x k]; [by apply hexkey_not_nil in Hk|].
    pose proof (hexkey_index _ _ Hk) as Hx. fold (idx x) in Hx.
    destruct (lookup_lt_is_Some_2 cs (idx x)) as [c Hcx]; [lia|].
    rewrite (tdelete_full cs x k c Hcx). cbn zeta.
    apply (tdelete_slot cs x k c); [by constructor|done|..];
      apply hexkey_cons in Hk as [[-> ->]|[Hxn Hk]]; rewrite ?idx_term in Hcx;
      (destruct (decide (c = TNil)) as [->|Hcn]; [try by left; done|]).
    + left. by destruct (Hs _ Hcx Hcn) as (w & -> & _).
    + destruct (IH _ _ (idx_nibble _ Hxn) Hcx Hcn k Hk) as [[->|Hw] _]; [by left|right; by left].
    + intros q. by case_decide.
    + intros q. destruct (Hs _ Hcx Hcn) as (w & -> & _). by destruct q.
    + intros q. by case_decide.
    + apply (IH _ _ (idx_nibble _ Hxn) Hcx Hcn k Hk).
Qed.

Lemma treduce_two cs : two cs → treduce cs = TFull cs.
Proof.
  intros (i & j & c & d & Hij & Hi & Hc & Hj & Hd). unfold treduce.
  pose proof (tsingle_none 0 cs) as Hs. destruct (tsingle 0 None cs) as [m|]; [|done].
  destruct Hs as (e & _ & _ & _ & Hu). exfalso.
  destruct (decide (i = m - 0)) as [->|]; [apply Hd|apply Hc]; by eapply Hu; eauto.
Qed.
