(* ===== verification/Merkle.v ===== *)
(** * Trees in memory and on disk

    [merkle] is the hash the hasher assigns to an abstract tree, [blob] the record
    the committer writes for it, [stored db t] says that a database holds every
    record of [t], and [Rep db n t] that the in-memory node [n], with its cached
    hashes, dirty flags and unresolved hash nodes, stands for [t]. *)

From S2P Require Import Prelude Interfaces HexEncoding Node Tracer Trie TrieSpec.
From Stdlib Require Import Strings.Byte.

Section Merkle.
Context `{EthCommon} `{TrieProto}.

Definition short_record (key val : bytes) : bytes :=
  proto_Marshal {| mpt_Type := MPTNODE_TYPE_SHORT;
                   mpt_Data := proto_Marshal {| mpt_Key := key; mpt_Value := val |} |}.

Definition full_record (nodes : list bytes) : bytes :=
  proto_Marshal {| mpt_Type := MPTNODE_TYPE_FULL;
                   mpt_Data := proto_Marshal {| mpt_Nodes := nodes; mpt_full_Value := [] |} |}.

(** The bytes of slot [i] that are hashed: an absent child is empty in slots 0 to 15
    and a zero hash in slot 16. *)
Definition hash_slot (i : nat) (ref : option bytes) : bytes :=
  match ref with
  | None => if decide (i < 16) then [] else zeroHash
  | Some h => h
  end.

(** The reference a parent holds: the hash of a node, the bytes of a value. *)
Fixpoint merkle (t : tree) : bytes :=
  match t with
  | TNil => []
  | TValue v => v
  | TShort k c => Keccak256 (short_record (HexToCompact k) (merkle c))
  | TFull cs => Keccak256 (full_record (imap hash_slot
      ((λ c, match c with TNil => None | _ => Some (merkle c) end) <$> cs)))
  end.

(** The bytes of a slot that are written: an absent child is a zero hash. *)
Definition blob_slot (c : tree) : bytes :=
  match c with TNil => zeroHash | _ => merkle c end.

Definition blob (t : tree) : bytes :=
  match t with
  | TNil => []
  | TValue v => v
  | TShort k c => short_record (HexToCompact k) (merkle c)
  | TFull cs => full_record (blob_slot <$> cs)
  end.

Inductive stored (db : DB) : tree → Prop :=
  | stored_leaf k v :
      hexkey k → db (merkle (TShort k (TValue v))) = Some (blob (TShort k (TValue v))) →
      stored db (TShort k (TValue v))
  | stored_ext k cs :
      Forall nibble k → db (merkle (TShort k (TFull cs))) = Some (blob (TShort k (TFull cs))) →
      stored db (TFull cs) → stored db (TShort k (TFull cs))
  | stored_full cs :
      length cs = 17 → cs !! 16 = Some TNil →
      (∀ i c, cs !! i = Some c → c ≠ TNil → merkle c ≠ zeroHash) →
      (∀ i c, cs !! i = Some c → c ≠ TNil → stored db c) →
      db (merkle (TFull cs)) = Some (blob (TFull cs)) →
      stored db (TFull cs).

(** Cached hashes are right, and a node not marked dirty is on disk under its cached hash. *)
Definition flag_ok (db : DB) (f : NodeFlag) (t : tree) : Prop :=
  (∀ h, Hash f = Some h → h = merkle t) ∧
  (Dirty f = false → Hash f = Some (merkle t) ∧ stored db t).

(** Every loaded node below carries a cached hash. *)
Inductive all_hashed : Node → Prop :=
  | all_hashed_nil : all_hashed NilNode
  | all_hashed_value v : all_hashed (ValueNode v)
  | all_hashed_hash h : all_hashed (HashNode h)
  | all_hashed_short k n f : Hash f ≠ None → all_hashed n → all_hashed (ShortNode k n f)
  | all_hashed_full cs f : Hash f ≠ None → Forall all_hashed cs → all_hashed (FullNode cs f).

Inductive Rep (db : DB) : Node → tree → Prop :=
  | Rep_nil : Rep db NilNode TNil
  | Rep_value v : Rep db (ValueNode v) (TValue v)
  | Rep_hash t : stored db t → Rep db (HashNode (merkle t)) t
  | Rep_short k n f t :
      Rep db n t → flag_ok db f (TShort k t) → (Hash f ≠ None → all_hashed n) →
      Rep db (ShortNode k n f) (TShort k t)
  | Rep_full cs f ts :
      Forall2 (Rep db) cs ts → flag_ok db f (TFull ts) → (Hash f ≠ None → Forall all_hashed cs) →
      Rep db (FullNode cs f) (TFull ts).

Lemma NewFlag_ok db t : flag_ok db NewFlag t.
Proof. by split. Qed.

Lemma NewFlag_unhashed (P : Prop) : Hash NewFlag ≠ None → P.
Proof. done. Qed.

Lemma Rep_short_new db k n t : Rep db n t → Rep db (ShortNode k n NewFlag) (TShort k t).
Proof. intros HR. constructor; [done|apply NewFlag_ok|apply NewFlag_unhashed]. Qed.

Lemma Rep_full_new db cs ts : Forall2 (Rep db) cs ts → Rep db (FullNode cs NewFlag) (TFull ts).
Proof. intros HR. constructor; [done|apply NewFlag_ok|apply NewFlag_unhashed]. Qed.

Lemma Rep_nil_inv db n : Rep db n TNil → n = NilNode.
Proof. inversion 1 as [| |t Hs| |]; [done|]. inversion Hs. Qed.

Lemma Rep_value_inv db n v : Rep db n (TValue v) → n = ValueNode v.
Proof. inversion 1 as [| |t Hs| |]; [done|]. inversion Hs. Qed.

Lemma Rep_empty_slots db : Forall2 (Rep db) (replicate 17 NilNode) empty_slots.
Proof. repeat constructor. Qed.

Lemma Rep_lookup db cs ts i t : Forall2 (Rep db) cs ts → ts !! i = Some t →
  ∃ n, cs !! i = Some n ∧ Rep db n t.
Proof. intros HR Ht. by eapply Forall2_lookup_r. Qed.

Lemma Rep_insert db cs ts i n t : Forall2 (Rep db) cs ts → Rep db n t →
  Forall2 (Rep db) (<[i := n]> cs) (<[i := t]> ts).
Proof. intros. by apply Forall2_insert. Qed.

End Merkle.

#[export] Hint Constructors all_hashed : trie.
#[export] Hint Resolve Rep_nil Rep_value Rep_hash Rep_short_new Rep_full_new : trie.
#[export] Hint Resolve Rep_empty_slots Rep_insert : trie.

(** ** Resolving a stored node *)

Section Resolve.
Context `{EthCommonLaws} `{TrieProtoLaws}.

Lemma merkle_length t : t ≠ TNil → (∀ v, t ≠ TValue v) → length (merkle t) = 32.
Proof. destruct t; intros Hn Hv; [done|by edestruct Hv|apply Keccak256_length..]. Qed.

Lemma stored_length db t : stored db t → length (merkle t) = 32.
Proof. intros Hs. apply merkle_length; by destruct Hs. Qed.

Lemma stored_blob db t : stored db t → db (merkle t) = Some (blob t) ∧ blob t ≠ [].
Proof.
  intros Hs. split; [by destruct Hs|].
  destruct Hs as [k v ??|k cs ??|cs Hlen ????]; simpl.
  - apply marshalled_nonempty. by left.
  - apply marshalled_nonempty. by left.
  - apply marshalled_nonempty. right. apply full_data_nonempty. by destruct cs.
Qed.

(** A hash node's record decodes to a short or full node for the same tree. *)
Definition resolved (n : Node) : Prop :=
  match n with ShortNode _ _ _ | FullNode _ _ => True | _ => False end.

Lemma decode_stored db t : stored db t →
  ∃ n, DecodeNode (Some (merkle t)) (blob t) = Some n ∧ Rep db n t ∧ resolved n ∧ all_hashed n.
Proof.
  intros Hs. assert (flag_ok db {| Hash := Some (merkle t); Dirty := false |} t) as Hf.
  { split; simpl; [congruence|done]. }
  destruct Hs as [k v Hk Hdb|k cs Hk Hdb Hcs|cs Hlen H16 Hnz Hc Hdb]; cbn [blob];
    unfold short_record, full_record.
  - rewrite DecodeNode_short by (by left). rewrite HasTerm_hexkey by done.
    eexists. split; [done|]. split; [|split; [done|]]; constructor; eauto with trie.
  - rewrite DecodeNode_short by (by right). rewrite HasTerm_nibbles by done.
    eexists. split; [done|]. split; [|split; [done|]]; constructor; eauto with trie.
  - rewrite DecodeNode_full by (by rewrite length_fmap).
    assert (Forall all_hashed ((λ v, if decide (BytesToHash v = zeroHash) then NilNode else HashNode v)
      <$> (blob_slot <$> cs))) as Hah.
    { apply Forall_fmap, Forall_true. intros v. simpl. case_decide; constructor. }
    eexists. split; [done|]. split; [|split; [done|by constructor]]. constructor; [|done..].
    rewrite <- list_fmap_compose. apply Forall2_fmap_l, Forall2_same_length_lookup.
    split; [done|]. intros i c c' Hi Hi'. simplify_eq.
    destruct (decide (c = TNil)) as [->|Hn]; simpl.
    + rewrite decide_True; [constructor|]. by apply BytesToHash_32.
    + assert (blob_slot c = merkle c) as -> by (by destruct c).
      pose proof (stored_length db c (Hc _ _ Hi Hn)).
      rewrite BytesToHash_32, decide_False by eauto. constructor. eauto.
Qed.

Lemma resolve_ok db t prefix tr : stored db t →
  ∃ n, resolveAndTrack db (merkle t) prefix tr = (Ok n, onRead prefix (blob t) tr) ∧
       Rep db n t ∧ resolved n ∧ all_hashed n.
Proof.
  intros Hs. destruct (decode_stored db t Hs) as (n & Hd & HR & Hr).
  destruct (stored_blob db t Hs) as [Hb Hne]. exists n. split; [|done].
  unfold resolveAndTrack, reader_node.
  rewrite BytesToHash_32, Hb by (by eapply stored_length).
  destruct (blob t) as [|b bl]; [done|].
  unfold mbind, TM_bind, comp_bind, mret, TM_ret, comp_ret, c_modify. by rewrite Hd.
Qed.

End Resolve.
