(* ===== verification/TrieRefine.v ===== *)
(** * The Go trie implements the abstract trie

    [get], [insert] and [delete] on a node that represents [t] return what
    [tlookup], [tinsert] and [tdelete] say about [t]: no panic, no error, and enough
    fuel, whatever mixture of loaded and unloaded nodes represents [t]. *)

From S2P Require Import Prelude Interfaces HexEncoding Node Tracer Trie TrieSpec Merkle.
From Stdlib Require Import Strings.Byte.

(** The trees a worker meets, with the rest of the key. *)
Definition fits (t : tree) (k : bytes) : Prop :=
  (wf_root t ∧ hexkey k) ∨ (k = [] ∧ (t = TNil ∨ ∃ v, t = TValue v ∧ v ≠ [])).

Lemma fits_wf t k : wf t → fits t k → hexkey k.
Proof. intros Hw [[_ ?]|[_ [->|(v & -> & _)]]]; [done|inversion Hw..]. Qed.

Lemma fits_short p c k : wf (TShort p c) → hexkey (p ++ k) → fits c k.
Proof.
  intros Hw Hk. inversion Hw as [? v Hp Hv|? cs Hp Hn Hf|]; subst.
  - right. split; [by eapply hexkey_prefix_free|right; eauto].
  - left. split; [by right|by eapply hexkey_nibbles_app].
Qed.

Lemma fits_full cs x k c : wf (TFull cs) → hexkey (x :: k) → cs !! idx x = Some c → fits c k.
Proof.
  intros Hw Hk Hc. inversion Hw as [| |? Hlen Hcs Hs _]; subst.
  apply hexkey_cons in Hk as [[-> ->]|[Hx Hk]].
  - right. split; [done|]. rewrite idx_term in Hc. destruct (decide (c = TNil)); [by left|right; eauto].
  - left. split; [|done]. eapply wf_full_child; eauto using idx_nibble.
Qed.

Lemma fits_full_child cs x k : wf (TFull cs) → hexkey (x :: k) → ∃ c, cs !! idx x = Some c.
Proof.
  intros Hw Hk. inversion Hw; subst. apply hexkey_index in Hk. fold (idx x) in Hk.
  apply lookup_lt_is_Some_2. lia.
Qed.

Lemma fits_short_wf p c k : fits (TShort p c) k → wf (TShort p c) ∧ hexkey k.
Proof. intros [[[?|?] ?]|[_ [?|(v & ? & _)]]]; done. Qed.

Lemma fits_full_wf cs k : fits (TFull cs) k → wf (TFull cs) ∧ hexkey k.
Proof. intros [[[?|?] ?]|[_ [?|(v & ? & _)]]]; done. Qed.

(** Fuel: one step per node, two when it must first be loaded. *)
Definition need (n : Node) (k : bytes) : nat :=
  2 * length k + match n with HashNode _ => 2 | _ => 1 end.

Lemma need_le n k : need n k ≤ 2 * length k + 2.
Proof. unfold need. destruct n; lia. Qed.

(** Children of represented branches. *)
Lemma set_child_ok cs x n : idx x < length cs → set_child cs x n = Some (<[idx x := n]> cs).
Proof. intros Hx. unfold set_child. fold (idx x). by rewrite (proj2 (Nat.ltb_lt _ _)). Qed.

Section Refine.
Context `{EthCommonLaws} `{TrieProtoLaws}.
Context (db : DB).

(** ** get *)

Lemma get_refines fuel : ∀ n t key pos tr,
  Rep db n t → pos ≤ length key → fits t (drop pos key) → need n (drop pos key) ≤ fuel →
  ∃ n' b tr', get fuel db n key pos tr = (Ok (tlookup t (drop pos key), n', b), tr') ∧
    Rep db n' t ∧ (all_hashed n → all_hashed n') ∧ (tracer_ok tr → tracer_ok tr').
Proof.
  induction fuel as [|fuel IH]; intros n t key pos tr HR Hpos Hfit Hfuel.
  { unfold need in Hfuel. destruct n; lia. }
  unfold need in Hfuel. rewrite length_drop in Hfuel.
  destruct HR as [|v|t Hs|p n f t HR Hf Hc|cs f ts HR Hf Hc]; cbn [get].
  - eexists _, _, _. split; [done|]. split; [constructor|done].
  - destruct Hfit as [[[?|Hw] _]|[Hk _]]; [done|inversion Hw|]. rewrite Hk.
    eexists _, _, _. split; [done|]. split; [constructor|done].
  - destruct (resolve_ok db t (take pos key) tr Hs) as (m & Hres & HRm & Hrm & Hah).
    rewrite (TM_bind_ok _ _ _ _ _ Hres).
    destruct (IH m t key pos (onRead (take pos key) (blob t) tr))
      as (n' & b & tr' & Hget & HR' & Hh & Htr); [done..| |].
    { unfold need. rewrite length_drop. destruct m; try done; lia. }
    rewrite (TM_bind_ok _ _ _ _ _ Hget). eexists _, _, _. by eauto.
  - destruct (fits_short_wf _ _ _ Hfit) as [Hw Hk]. pose proof (wf_short_nonempty _ _ Hw) as Hp.
    destruct (decide (take (length p) (drop pos key) = p)) as [E|E]; last first.
    { assert ((length key <? pos + length p) || bool_decide (p ≠ take (length p) (drop pos key)) = true)
        as -> by (apply orb_true_iff; right; apply bool_decide_true; congruence).
      eexists _, _, _. split; [|split; [by constructor|done]].
      unfold mret, TM_ret, comp_ret. simpl. by rewrite decide_False. }
    assert (length p ≤ length key - pos) as Hlp.
    { rewrite <- E, length_take, length_drop. lia. }
    rewrite (proj2 (Nat.ltb_ge _ _)) by lia. rewrite bool_decide_false by (intros Hx; congruence).
    cbn [orb]. destruct (IH n t key (pos + length p) tr) as (n' & b & tr' & Hget & HR' & Hh & Htr);
      [done|lia|..].
    + rewrite <- drop_drop. eapply fits_short; [done|]. rewrite <- E at 1. by rewrite take_drop.
    + pose proof (need_le n (drop (pos + length p) key)). rewrite length_drop in *.
      destruct p; [done|]. simpl in *. lia.
    + rewrite (TM_bind_ok _ _ _ _ _ Hget). eexists _, _, _.
      split; [simpl; rewrite decide_True by done; by rewrite drop_drop|].
      destruct b; (split; [constructor; by eauto|]); (split; [|done]); [|done].
      inversion 1; subst. constructor; eauto.
  - destruct (fits_full_wf _ _ Hfit) as [Hw Hk].
    destruct (drop pos key) as [|x k] eqn:Ek; [by apply hexkey_not_nil in Hk|].
    assert (key !! pos = Some x) as Hx.
    { pose proof (lookup_drop key pos 0) as L. rewrite Ek, Nat.add_0_r in L. done. }
    assert (drop (pos + 1) key = k) as Ek' by (by rewrite <- drop_drop, Ek).
    destruct (fits_full_child _ _ _ Hw Hk) as [c Hcx].
    destruct (Rep_lookup db cs ts (idx x) c HR Hcx) as (m & Hm & HRm).
    pose proof (lookup_lt_Some _ _ _ Hx).
    destruct (IH m c key (pos + 1) tr) as (n' & b & tr' & Hget & HR' & Hh & Htr);
      [done|lia|rewrite Ek'; by eapply fits_full|..].
    { pose proof (need_le m (drop (pos + 1) key)). rewrite length_drop in *. lia. }
    rewrite Ek' in Hget.
    rewrite (TM_or_panic _ _ _ Hx), (TM_or_panic _ m) by done. rewrite (TM_bind_ok _ _ _ _ _ Hget).
    rewrite tlookup_full, Hcx. cbn [mbind option_bind].
    rewrite (TM_or_panic _ _ _ (set_child_ok cs x n' (lookup_lt_Some _ _ _ Hm))).
    assert (Forall all_hashed cs → Forall all_hashed (<[idx x := n']> cs)) as Hins.
    { intros Hall. apply Forall_insert; [done|]. apply Hh. by eapply Forall_lookup_1. }
    destruct b; eexists _, _, _; (split; [done|split; [|split; [|done]]]); [| |by constructor|done].
    + rewrite <- (list_insert_id ts (idx x) c) by done. constructor; [by apply Rep_insert| |eauto].
      by rewrite list_insert_id.
    + inversion 1; subst. constructor; eauto.
Qed.

(** ** insert *)

(** Inserting below an absent node makes a leaf, or the value itself at the end of the key. *)
Definition leaf_node (k : bytes) (v : Node) : Node :=
  match k with [] => v | _ => ShortNode k v NewFlag end.

Lemma insert_absent fuel prefix k v tr : 1 ≤ fuel → ∃ tr',
  insert fuel db NilNode prefix k v tr = (Ok (true, leaf_node k v), tr') ∧
  (tracer_ok tr → tracer_ok tr').
Proof.
  intros Hf. destruct fuel; [lia|]. destruct k; cbn [insert]; [by eexists|].
  rewrite TM_modify. eexists. split; [done|]. apply onInsert_ok.
Qed.

Lemma Rep_leaf_node k n t : Rep db n t → Rep db (leaf_node k n) (tleaf k t).
Proof. intros HR. destruct k; simpl; eauto with trie. Qed.

(** The outcome of an insertion of [v] at [key] below [n]. *)
Definition insert_post (t : tree) (key v : bytes) (tr : Tracer)
    (r : outcome trie_error (bool * Node) * Tracer) : Prop :=
  ∃ d n' tr', r = (Ok (d, n'), tr') ∧ Rep db n' (tinsert t key v) ∧
    (d = false → tinsert t key v = t) ∧ (tracer_ok tr → tracer_ok tr').

(** The branching-out case of a short node. *)
Lemma insert_split fuel pr x p' y k' n f t prefix v tr :
  x ≠ y → Rep db n t → idx x < 17 → idx y < 17 → 1 ≤ fuel →
  insert_post (TShort (pr ++ x :: p') t) (pr ++ y :: k') v tr
    (insert (S fuel) db (ShortNode (pr ++ x :: p') n f) prefix (pr ++ y :: k') (ValueNode v) tr).
Proof.
  intros Hxy HR Hx Hy Hfuel. unfold insert_post. rewrite tinsert_short_split by done.
  assert (PrefixLen (pr ++ y :: k') (pr ++ x :: p') = length pr) as Hm.
  { rewrite PrefixLen_app. simpl. rewrite decide_False by done. lia. }
  destruct (pr ++ y :: k') as [|k0 kr] eqn:Ek; [by destruct pr|].
  cbn [insert]. rewrite <- Ek in *. rewrite Hm.
  rewrite decide_False by (rewrite length_app; simpl; lia).
  rewrite (TM_or_panic _ x) by (by apply list_lookup_middle).
  rewrite !(Nat.add_1_r (length pr)), !drop_app_ge by lia.
  replace (S (length pr) - length pr) with 1 by lia. simpl drop.
  destruct (insert_absent fuel (prefix ++ take (S (length pr)) (pr ++ x :: p')) p' n tr Hfuel)
    as (tr1 & E1 & Htr1). rewrite (TM_bind_ok _ _ _ _ _ E1).
  rewrite (TM_or_panic _ _ _ (set_child_ok (replicate TOTAL_CHILD_NODE NilNode) x (leaf_node p' n) Hx)).
  rewrite (TM_or_panic _ y) by (by apply list_lookup_middle).
  destruct (insert_absent fuel (prefix ++ take (S (length pr)) (pr ++ y :: k')) k' (ValueNode v) tr1 Hfuel)
    as (tr2 & E2 & Htr2). rewrite (TM_bind_ok _ _ _ _ _ E2).
  rewrite (TM_or_panic _ _ _ (set_child_ok (<[idx x := leaf_node p' n]> (replicate TOTAL_CHILD_NODE NilNode))
    y (leaf_node k' (ValueNode v)) ltac:(by rewrite length_insert))).
  assert (Rep db (FullNode (<[idx y := leaf_node k' (ValueNode v)]>
      (<[idx x := leaf_node p' n]> (replicate TOTAL_CHILD_NODE NilNode))) NewFlag)
    (tbranch x (tleaf p' t) y (tleaf k' (TValue v)))) as HRb.
  { apply Rep_full_new, Rep_insert; [apply Rep_insert|];
      eauto using Rep_empty_slots, Rep_leaf_node with trie. }
  rewrite take_app_length. destruct pr as [|z pr]; cbn [length].
  - rewrite decide_True by done. rewrite TM_modify. eexists _, _, _.
    split; [done|]. split; [done|]. split; [done|]. eauto with trie.
  - rewrite decide_False by done. rewrite !TM_modify. eexists _, _, _.
    split; [done|]. split; [eauto with trie|]. split; [done|]. eauto with trie.
Qed.

Lemma insert_refines fuel : ∀ n t prefix key v tr,
  Rep db n t → fits t key → need n key ≤ fuel →
  insert_post t key v tr (insert fuel db n prefix key (ValueNode v) tr).
Proof.
  induction fuel as [|fuel IH]; intros n t prefix key v tr HR Hfit Hfuel.
  { unfold need in Hfuel. destruct n; lia. }
  unfold need in Hfuel. destruct HR as [|w|t Hs|p n f t HR Hf Hcl|cs f ts HR Hf Hcl].
  - destruct (insert_absent (S fuel) prefix key (ValueNode v) tr) as (tr' & E & Htr); [lia|].
    eexists _, _, _. split; [done|]. split; [|done]. apply Rep_leaf_node. constructor.
  - destruct Hfit as [[[?|Hw] _]|[-> _]]; [done|inversion Hw|]. eexists _, _, _.
    split; [done|]. split; [constructor|]. split; [|done]. 
    intros Hd. apply bool_decide_eq_false in Hd. simpl. f_equal. destruct (decide (w = v)); [done|tauto].
  - assert (hexkey key) as Hk by (destruct Hfit as [[_ ?]|[_ [->|(? & -> & _)]]]; [done|inversion Hs..]).
    destruct key as [|k0 kr]; [by apply hexkey_not_nil in Hk|].
    destruct (resolve_ok db t prefix tr Hs) as (m & Hres & HRm & Hrm & Hah).
    cbn [insert]. rewrite (TM_try_ok _ _ _ _ _ Hres).
    destruct (IH m t prefix (k0 :: kr) v (onRead prefix (blob t) tr) HRm Hfit)
      as (d & n' & tr' & Hins & HR' & Hd & Htr); [unfold need; destruct m; try done; lia|].
    rewrite (TM_bind_ok _ _ _ _ _ Hins).
    destruct d; (eexists _, _, _; split; [done|]; split; [|split; [done|by eauto]]); [done|].
    by rewrite Hd.
  - destruct (fits_short_wf _ _ _ Hfit) as [Hw Hk].
    destruct (short_cases p t key Hw Hk) as [(k' & -> & Hm & Hc)|
      (pr & x & p' & y & k' & -> & -> & Hxy & _ & _ & Hx & Hy)]; last first.
    { apply insert_split; eauto using slot_ok_idx; [by eapply hexkey_index|].
      rewrite length_app in Hfuel. simpl in Hfuel. lia. }
    pose proof (wf_short_nonempty _ _ Hw) as Hp. clear Hc.
    destruct (IH n t (prefix ++ take (length p) (p ++ k')) k' v tr HR)
      as (d & n' & tr' & Hins & HR' & Hd & Htr).
    { by eapply fits_short. }
    { pose proof (need_le n k'). rewrite length_app in Hfuel. destruct p; [done|]. simpl in Hfuel. lia. }
    unfold insert_post. rewrite tinsert_short_through.
    destruct (p ++ k') as [|k0 kr] eqn:Ek; [by destruct p|].
    cbn [insert]. rewrite <- Ek in *. rewrite Hm, decide_True, drop_app_length by done.
    rewrite (TM_bind_ok _ _ _ _ _ Hins). destruct d; cbn [negb].
    + rewrite TM_modify. eexists _, _, _. split; [done|].
      split; [eauto with trie|]. split; [done|]. eauto with trie.
    + eexists _, _, _. split; [done|]. rewrite Hd by done. split; [by constructor|done].
  - destruct (fits_full_wf _ _ Hfit) as [Hw Hk].
    destruct key as [|x k]; [by apply hexkey_not_nil in Hk|].
    destruct (fits_full_child _ _ _ Hw Hk) as [c Hc].
    destruct (Rep_lookup db cs ts (idx x) c HR Hc) as (m & Hm & HRm).
    destruct (IH m c (prefix ++ [x]) k v tr HRm) as (d & n' & tr' & Hins & HR' & Hd & Htr).
    { by eapply fits_full. }
    { pose proof (need_le m k). simpl in Hfuel. lia. }
    unfold insert_post. rewrite (tinsert_full _ _ _ _ c) by done. cbn [insert].
    rewrite (TM_or_panic _ m) by done. rewrite (TM_bind_ok _ _ _ _ _ Hins). destruct d; cbn [negb].
    + rewrite TM_modify, (TM_or_panic _ _ _ (set_child_ok cs x n' (lookup_lt_Some _ _ _ Hm))).
      eexists _, _, _. split; [done|]. split; [eauto with trie|]. split; [done|].
      eauto with trie.
    + eexists _, _, _. rewrite Hd, list_insert_id by done. split; [done|]. split; [by constructor|done].
Qed.

(** ** delete *)

(** The outcome of deleting [key] below [n]; a changed node is never left unloaded. *)
Definition delete_post (t : tree) (key : bytes) (tr : Tracer)
    (r : outcome trie_error (bool * Node) * Tracer) : Prop :=
  ∃ d n' tr', r = (Ok (d, n'), tr') ∧ Rep db n' (tdelete t key) ∧
    (d = false → tdelete t key = t) ∧ (d = true → resolved n' ∨ n' = NilNode) ∧
    (tracer_ok tr → tracer_ok tr').

Lemma findSingle_refines cs ts : Forall2 (Rep db) cs ts → ∀ i acc,
  let z := findSingle i (match acc with None => -1 | Some a => Z.of_nat a end)%Z cs in
  match tsingle i acc ts with Some j => z = Z.of_nat j | None => (z < 0)%Z end.
Proof.
  induction 1 as [|n t cs ts HR _ IH]; intros i acc; [by destruct acc|].
  destruct (decide (t = TNil)) as [->|Ht].
  - apply Rep_nil_inv in HR as ->. apply IH.
  - assert (n ≠ NilNode) as Hn by (intros ->; by inversion HR).
    destruct acc as [a|].
    + assert (tsingle i (Some a) (t :: ts) = None) as -> by (by destruct t).
      assert (findSingle i (Z.of_nat a) (n :: cs) = (-2)%Z) as ->; [|done].
      destruct n; [done|..]; simpl; (destruct (Z.eqb_spec (Z.of_nat a) (-1)); [lia|done]).
    + assert (tsingle i None (t :: ts) = tsingle (S i) (Some i) ts) as -> by (by destruct t).
      specialize (IH (S i) (Some i)). by destruct n.
Qed.

(** Replacing a branch by its only subtree. *)
Lemma resolve_slot n t prefix tr : Rep db n t → wf t →
  ∃ m tr', resolve db n prefix tr = (Ok m, tr') ∧ Rep db m t ∧ resolved m ∧
    (tracer_ok tr → tracer_ok tr').
Proof.
  intros HR Hw. destruct HR as [|v|t Hs|k n f t HR Hf Hcl|cs f ts HR Hf Hcl]; try by inversion Hw.
  - destruct (resolve_ok db t prefix tr Hs) as (m & Hres & HRm & Hrm & Hah).
    eexists _, _. split; [exact Hres|]. done.
  - eexists _, _. by repeat split; [constructor|].
  - eexists _, _. by repeat split; [constructor|].
Qed.

Lemma reduce_refines cs ts prefix tr :
  Forall2 (Rep db) cs ts → slots_ok ts → ∃ n' tr',
  reduceFull db prefix cs tr = (Ok (true, n'), tr') ∧ Rep db n' (treduce ts) ∧ resolved n' ∧
  (tracer_ok tr → tracer_ok tr').
Proof.
  intros HR Hok. unfold reduceFull, treduce.
  pose proof (findSingle_refines cs ts HR 0 None) as Hfs. cbn zeta in Hfs.
  pose proof (tsingle_none 0 ts) as Hs. destruct (tsingle 0 None ts) as [j|]; last first.
  { rewrite (proj2 (Z.leb_gt _ _)) by done. eexists _, _. split; [done|]. split; [|done].
    by apply Rep_full_new. }
  destruct Hs as (c & _ & Hc & Hn & _). rewrite Nat.sub_0_r in Hc. rewrite Hfs, Nat2Z.id, Hc.
  rewrite (proj2 (Z.leb_le _ _)) by lia. pose proof (lookup_lt_Some _ _ _ Hc) as Hj.
  destruct (Rep_lookup db cs ts j c HR Hc) as (m & Hm & HRm). rewrite (TM_or_panic _ _ _ Hm).
  pose proof (proj1 Hok) as Hlen.
  assert (slot_ok (z2b (Z.of_nat j)) c) as Hslot.
  { apply (slots_ok_slot ts); [done| |done]. by rewrite idx_z2b by lia. }
  destruct (Z.eqb_spec (Z.of_nat j) 16) as [Ej|Ej].
  - eexists _, _. split; [done|]. split; [|done]. destruct Hslot as [[Hnib _]|[_ (v & -> & _)]].
    + apply idx_nibble in Hnib. rewrite idx_z2b in Hnib by lia. lia.
    + by apply Rep_short_new.
  - destruct Hslot as [[_ Hw]|[Ht _]]; last first.
    { apply (f_equal idx) in Ht. rewrite idx_z2b in Ht by lia. rewrite idx_term in Ht. lia. }
    destruct (resolve_slot m c (prefix ++ [z2b (Z.of_nat j)]) tr HRm Hw)
      as (cn & tr' & Hres & HRc & Hrc & Htr). rewrite (TM_bind_ok _ _ _ _ _ Hres).
    destruct HRc as [|v|t Hst|k n f t HRn Hf Hcl|cs0 f ts0 HRn Hf Hcl]; try done.
    + rewrite TM_modify. eexists _, _. split; [done|]. split; [eauto with trie|].
      split; [done|]. eauto with trie.
    + eexists _, _. split; [done|]. split; [eauto with trie|]. done.
Qed.

Lemma delete_full_refines fuel cs f ts x k m c prefix tr :
  Forall2 (Rep db) cs ts → Rep db (FullNode cs f) (TFull ts) → wf (TFull ts) →
  ts !! idx x = Some c → cs !! idx x = Some m →
  delete_post c k tr (delete fuel db m (prefix ++ [x]) k tr) →
  slots_ok (<[idx x := tdelete c k]> ts) →
  delete_post (TFull ts) (x :: k) tr (delete (S fuel) db (FullNode cs f) prefix (x :: k) tr).
Proof.
  intros HR Hf Hw Hc Hm (d & n' & tr' & Hdel & HR' & Hd & Hres & Htr) Hok.
  unfold delete_post. rewrite (tdelete_full _ _ _ c) by done. cbn [delete head tail].
  rewrite (TM_or_panic _ x), (TM_or_panic _ m) by done. rewrite (TM_bind_ok _ _ _ _ _ Hdel).
  inversion Hw as [| |? _ _ _ Htwo]; subst.
  destruct d; cbn [negb]; last first.
  { rewrite Hd by done. cbn zeta. rewrite list_insert_id by done. eexists _, _, _.
    assert (match c with TNil => treduce ts | _ => TFull ts end = TFull ts) as ->.
    { destruct c; [by apply treduce_two|done..]. }
    split; [done|]. split; [done|done]. }
  rewrite (TM_or_panic _ _ _ (set_child_ok cs x n' (lookup_lt_Some _ _ _ Hm))). cbn zeta.
  pose proof (Rep_insert db cs ts (idx x) n' _ HR HR') as HRi.
  destruct (decide (tdelete c k = TNil)) as [E|E].
  - rewrite E in *. apply Rep_nil_inv in HR' as ->.
    destruct (reduce_refines _ _ prefix tr' HRi Hok) as (n2 & tr2 & Hred & HR2 & Hr2 & Htr2).
    eexists _, _, _. split; [exact Hred|]. split; [done|]. split; [done|]. split; [by left|]. eauto.
  - assert (n' ≠ NilNode) as Hn by (intros ->; by inversion HR'; congruence).
    assert (∀ a b : tree, match tdelete c k with TNil => a | _ => b end = b) as ->
      by (by destruct (tdelete c k)).
    eexists true, (FullNode (<[idx x := n']> cs) NewFlag), tr'.
    split; [by destruct n'|]. split; [eauto with trie|].
    split; [done|]. split; [by left|done].
Qed.

(** Slots stay well-formed when a key is deleted below one of them. *)
Lemma tdelete_slots_ok ts x k c :
  wf (TFull ts) → hexkey (x :: k) → ts !! idx x = Some c → slots_ok (<[idx x := tdelete c k]> ts).
Proof.
  intros Hw Hk Hc. apply slots_ok_insert; [by apply wf_slots_ok|].
  destruct (decide (tdelete c k = TNil)) as [?|Hn]; [by right|left].
  apply hexkey_cons in Hk as [[-> ->]|[Hx Hk]].
  - exfalso. destruct (fits_full ts terminator [] c Hw) as [[_ Hk]|[_ [->|(v & -> & _)]]];
      [apply hexkey_cons; by left|done|by apply hexkey_not_nil in Hk|done..].
  - left. split; [done|]. destruct (tdelete_spec c k) as [[?|?] _]; [|done..].
    eapply wf_full_child; eauto using idx_nibble.
Qed.

Lemma delete_ext_refines fuel p n f cs k prefix tr :
  Rep db n (TFull cs) → Rep db (ShortNode p n f) (TShort p (TFull cs)) → wf (TFull cs) → hexkey k →
  (∀ pre tr, delete_post (TFull cs) k tr (delete fuel db n pre k tr)) →
  delete_post (TShort p (TFull cs)) (p ++ k) tr
    (delete (S fuel) db (ShortNode p n f) prefix (p ++ k) tr).
Proof.
  intros HR Hf Hw Hk IH. unfold delete_post.
  assert (k ≠ []) as Hkn by (intros ->; by apply hexkey_not_nil).
  rewrite tdelete_short_through by done. cbn [delete].
  assert (PrefixLen (p ++ k) p = length p) as ->.
  { rewrite <- (app_nil_r p) at 2. rewrite PrefixLen_app. destruct k; simpl; lia. }
  rewrite (proj2 (Nat.ltb_ge _ _)) by lia.
  rewrite decide_False by (rewrite length_app; destruct k; [done|simpl; lia]).
  rewrite drop_app_length, take_app_length.
  destruct (IH (prefix ++ p) tr) as (d & n' & tr' & Hdel & HR' & Hd & Hres & Htr).
  rewrite (TM_bind_ok _ _ _ _ _ Hdel). destruct d; cbn [negb]; last first.
  { rewrite Hd by done. eexists _, _, _. split; [done|]. split; [done|done]. }
  pose proof (deletes_key_full _ _ _ Hw (tdelete_spec (TFull cs) k (or_intror Hw) Hk)) as Hw'.
  destruct (Hres eq_refl) as [Hr| ->]; last first.
  { inversion HR' as [E| | | |]. by apply wf_not_nil in Hw'. }
  destruct HR' as [|v|t Hst|q m g t HRn Hg Hcg|cs0 g ts0 HRn Hg Hcg]; try done.
  - rewrite TM_modify. eexists _, _, _. split; [done|]. split; [eauto with trie|].
    split; [done|]. split; [by left|]. eauto with trie.
  - eexists _, _, _. split; [done|]. split; [apply Rep_short_new; by constructor|].
    split; [done|]. split; [by left|done].
Qed.

Lemma delete_refines fuel : ∀ n t prefix key tr,
  Rep db n t → fits t key → need n key ≤ fuel →
  delete_post t key tr (delete fuel db n prefix key tr).
Proof.
  induction fuel as [|fuel IH]; intros n t prefix key tr HR Hfit Hfuel.
  { unfold need in Hfuel. destruct n; lia. }
  unfold need in Hfuel. destruct HR as [|w|t Hs|p n f t HR Hf Hcl|cs f ts HR Hf Hcl].
  - eexists _, _, _. split; [done|]. split; [constructor|done].
  - eexists _, _, _. split; [done|]. split; [constructor|]. split; [done|]. split; [by right|done].
  - destruct (resolve_ok db t prefix tr Hs) as (m & Hres & HRm & Hrm & Hah).
    cbn [delete]. rewrite (TM_bind_ok _ _ _ _ _ Hres).
    destruct (IH m t prefix key (onRead prefix (blob t) tr) HRm Hfit)
      as (d & n' & tr' & Hdel & HR' & Hd & Hr & Htr); [unfold need; destruct m; try done; lia|].
    rewrite (TM_bind_ok _ _ _ _ _ Hdel). destruct d; cbn [negb].
    + by eexists _, _, _.
    + eexists _, _, _. split; [done|]. rewrite Hd by done. done.
  - destruct (fits_short_wf _ _ _ Hfit) as [Hw Hk].
    destruct (short_cases p t key Hw Hk) as [(k' & -> & Hm & Hc)|
      (pr & x & p' & y & k' & -> & -> & Hxy & Hm & _ & Hx & Hy)]; last first.
    { unfold delete_post. rewrite tdelete_short_split by done. cbn [delete].
      rewrite Hm, (proj2 (Nat.ltb_lt _ _)) by (rewrite length_app; simpl; lia).
      eexists _, _, _. split; [done|]. split; [by constructor|done]. }
    destruct Hc as [(v & -> & _ & _ & ->)|(cs & -> & Hwc & Hn & Hk')].
    + unfold delete_post. cbn [delete]. rewrite Hm, (proj2 (Nat.ltb_ge _ _)) by lia.
      rewrite decide_True by (by rewrite app_nil_r). rewrite TM_modify, app_nil_r, tdelete_short_leaf.
      eexists _, _, _. split; [done|]. split; [constructor|]. split; [done|]. split; [by right|].
      apply onDelete_ok.
    + apply delete_ext_refines; [done|by constructor|done..|]. intros pre tr0.
      apply IH; [done|by left; split; [right|]|].
      pose proof (need_le n k'). pose proof (wf_short_nonempty _ _ Hw).
      rewrite length_app in Hfuel. destruct p; [done|]. simpl in Hfuel. lia.
  - destruct (fits_full_wf _ _ Hfit) as [Hw Hk].
    destruct key as [|x k]; [by apply hexkey_not_nil in Hk|].
    destruct (fits_full_child _ _ _ Hw Hk) as [c Hc].
    destruct (Rep_lookup db cs ts (idx x) c HR Hc) as (m & Hm & HRm).
    eapply delete_full_refines; eauto using tdelete_slots_ok, Rep_full.
    apply IH; [done|by eapply fits_full|].
    pose proof (need_le m k). simpl in Hfuel. lia.
Qed.

End Refine.
