(* ===== verification/TrieMap.v ===== *)
(** * The trie as a finite map

    The public operations [New], [Get], [Update] and [ParallelGet] implement a
    [gmap] from (hashed) keys to values. *)

From S2P Require Import Prelude Interfaces HexEncoding Node Tracer Trie TrieSpec Merkle TrieRefine.
From Stdlib Require Import Strings.Byte.

(** [Update] with an empty value deletes. *)
Definition map_update (k v : bytes) (m : gmap bytes bytes) : gmap bytes bytes :=
  if decide (v = []) then base.delete k m else <[k := v]> m.

Lemma map_update_lookup k v m q :
  map_update k v m !! q =
  if decide (q = k) then (if decide (v = []) then None else Some v) else m !! q.
Proof.
  unfold map_update. destruct (decide (v = [])), (decide (q = k)) as [->|]; by simplify_map_eq.
Qed.

Section Map.
Context `{EthCommon} `{TrieProto}.

(** The canonical tree [T] holds exactly the bindings of [m]. *)
Definition holds (T : tree) (m : gmap bytes bytes) : Prop :=
  wf_root T ∧ (∀ k, tlookup T (KeybytesToHex k) = m !! k) ∧
  (∀ q v, tlookup T q = Some v → ∃ k, q = KeybytesToHex k).

(** The trie [t] holds exactly the bindings of [m]. *)
Definition Implements (t : MerklePatriciaTrie) (m : gmap bytes bytes) : Prop :=
  ∃ T, committed t = false ∧ holds T m ∧ Rep (reader t) (root t) T ∧ tracer_ok (tracer t).

(** The configuration an operation never changes. *)
Definition same_config (t t' : MerklePatriciaTrie) : Prop :=
  reader t' = reader t ∧ isHash t' = isHash t.

Lemma hashKey_config t t' k : same_config t t' → hashKey t' k = hashKey t k.
Proof. intros [_ E]. unfold hashKey. by rewrite E. Qed.

(** A sequence of updates; the first error would stop it. *)
Fixpoint run_updates (ups : list (bytes * bytes)) : comp MerklePatriciaTrie trie_error unit :=
  match ups with
  | [] => mret tt
  | (k, v) :: ups => _ ← Update k v; run_updates ups
  end.

(** The map the same sequence describes, on the keys the trie stores under. *)
Fixpoint model_updates (hk : bytes → bytes) (ups : list (bytes * bytes)) (m : gmap bytes bytes)
    : gmap bytes bytes :=
  match ups with
  | [] => m
  | (k, v) :: ups => model_updates hk ups (map_update (hk k) v m)
  end.

End Map.

(** A map has one canonical tree. *)
Lemma holds_unique T1 T2 m : holds T1 m → holds T2 m → T1 = T2.
Proof.
  intros (Hw1 & Hl1 & Hk1) (Hw2 & Hl2 & Hk2). apply wf_root_canonical; [done..|]. intros q.
  destruct (tlookup T1 q) as [v|] eqn:E1.
  - destruct (Hk1 q v E1) as [k ->]. by rewrite Hl2, <- Hl1.
  - destruct (tlookup T2 q) as [v|] eqn:E2; [|done].
    destruct (Hk2 q v E2) as [k ->]. by rewrite <- E2, Hl2, <- Hl1.
Qed.

Lemma holds_empty : holds TNil ∅.
Proof. split; [by left|]. split; [|done]. intros k. by rewrite lookup_empty. Qed.

Lemma holds_update T m k v : holds T m →
  holds (if decide (v = []) then tdelete T (KeybytesToHex k) else tinsert T (KeybytesToHex k) v)
    (map_update k v m).
Proof.
  intros (Hw & Hl & Hk). pose proof (KeybytesToHex_hexkey k) as Hkey.
  set (T' := if decide (v = []) then _ else _).
  assert (wf_root T' ∧ ∀ q, tlookup T' q = if decide (q = KeybytesToHex k)
    then (if decide (v = []) then None else Some v) else tlookup T q) as [Hw' Hl'].
  { unfold T'. destruct (decide (v = [])); [by apply tdelete_spec|].
    split; [right; by apply tinsert_wf|]. intros q. by apply tinsert_lookup. }
  split; [done|]. split.
  - intros q. rewrite Hl', map_update_lookup, Hl. apply decide_ext.
    split; [by intros ?%KeybytesToHex_inj|by intros ->].
  - intros q w. rewrite Hl'. destruct (decide (q = KeybytesToHex k)) as [->|]; eauto.
Qed.

Lemma with_tracer_ok {A} (m : TM A) t a tr' :
  m (tracer t) = (Ok a, tr') → with_tracer m t = (Ok a, set_tracer tr' t).
Proof. intros E. unfold with_tracer. by rewrite E. Qed.

Section MapFacts.
Context `{EthCommonLaws} `{TrieProtoLaws}.

Lemma New_empty_implements db h t : New EmptyRootHash db h = Ok t → Implements t ∅ ∧ isHash t = h.
Proof.
  unfold New. rewrite (bool_decide_false (EmptyRootHash ≠ EmptyRootHash)) by tauto.
  rewrite andb_false_r. intros [= <-]. split; [|done]. exists TNil. split; [done|].
  split; [apply holds_empty|]. split; [constructor|apply newTracer_ok].
Qed.

Lemma root_fits T k : wf_root T → fits T (KeybytesToHex k).
Proof. intros Hw. left. split; [done|apply KeybytesToHex_hexkey]. Qed.

Lemma root_fuel n k : need n (KeybytesToHex k) ≤ walk_fuel (KeybytesToHex k).
Proof. unfold walk_fuel. pose proof (need_le n (KeybytesToHex k)). lia. Qed.

Lemma Get_implements t m k : Implements t m →
  ∃ t', Get k t = (Ok (m !! hashKey t k), t') ∧ Implements t' m ∧ same_config t t'.
Proof.
  intros (T & Hc & HT & HR & Htr). unfold Get. rewrite Hc.
  set (key := KeybytesToHex (hashKey t k)).
  destruct (get_refines (reader t) (walk_fuel key) (root t) T key 0 (tracer t))
    as (n' & b & tr' & Hget & _ & _ & Htr'); [done|lia|by apply root_fits, HT|by apply root_fuel|].
  rewrite drop_0 in Hget. unfold key in Hget at 3. rewrite (proj1 (proj2 HT)) in Hget.
  exists (set_tracer tr' t). split; [|split; [|done]].
  - by rewrite (comp_bind_ok _ _ _ _ _ (with_tracer_ok _ _ _ _ Hget)).
  - exists T. repeat (split; [done|]). by apply Htr'.
Qed.

Lemma Update_implements t m k v : Implements t m →
  ∃ t', Update k v t = (Ok tt, t') ∧ Implements t' (map_update (hashKey t k) v m) ∧ same_config t t'.
Proof.
  intros (T & Hc & HT & HR & Htr). unfold Update, update. rewrite Hc.
  pose proof (holds_update T m (hashKey t k) v HT) as HT'.
  set (key := KeybytesToHex (hashKey t k)) in *. destruct (decide (v = [])) as [->|Hv].
  - rewrite bool_decide_false by (simpl; tauto).
    destruct (delete_refines (reader t) (walk_fuel key) (root t) T [] key (tracer t))
      as (d & n' & tr' & Hdel & HR' & _ & _ & Htr'); [done|by apply root_fits, HT|by apply root_fuel|].
    rewrite (comp_bind_ok _ _ _ _ _ (with_tracer_ok _ _ _ _ Hdel)).
    eexists. split; [done|]. split; [|done]. eexists. simpl. eauto.
  - rewrite bool_decide_true by (by destruct v).
    destruct (insert_refines (reader t) (walk_fuel key) (root t) T [] key v (tracer t))
      as (d & n' & tr' & Hins & HR' & _ & Htr'); [done|by apply root_fits, HT|by apply root_fuel|].
    rewrite (comp_bind_ok _ _ _ _ _ (with_tracer_ok _ _ _ _ Hins)).
    eexists. split; [done|]. split; [|done]. eexists. simpl. eauto.
Qed.

Lemma run_updates_implements ups t m : Implements t m →
  ∃ t', run_updates ups t = (Ok tt, t') ∧ Implements t' (model_updates (hashKey t) ups m) ∧
        same_config t t'.
Proof.
  revert t m. induction ups as [|[k v] ups IH]; intros t m Hm; [by exists t|].
  destruct (Update_implements t m k v Hm) as (t1 & E1 & Hm1 & Hcfg1).
  destruct (IH t1 _ Hm1) as (t2 & E2 & Hm2 & Hcfg2). exists t2. split; [|split].
  - cbn [run_updates]. by rewrite (comp_bind_ok _ _ _ _ _ E1).
  - cbn [model_updates]. assert (∀ m, model_updates (hashKey t) ups m = model_updates (hashKey t1) ups m) as ->;
      [|done]. clear -Hcfg1. induction ups as [|[a b] ups IH]; intros m; [done|].
    cbn [model_updates]. by rewrite IH, (hashKey_config t t1).
  - destruct Hcfg1, Hcfg2. split; congruence.
Qed.

Lemma parallelGets_implements keys t m : Implements t m →
  ∃ t', parallelGets keys t = (Ok ((λ k, (m !! hashKey t k, None)) <$> keys), t') ∧
        Implements t' m ∧ same_config t t'.
Proof.
  revert t. induction keys as [|k keys IH]; intros t Hm; [by exists t|].
  pose proof Hm as (T & Hc & HT & HR & Htr).
  set (key := KeybytesToHex (hashKey t k)).
  destruct (get_refines (reader t) (walk_fuel key) (root t) T key 0 (tracer t))
    as (n' & b & tr' & Hget & _ & _ & Htr'); [done|lia|by apply root_fits, HT|by apply root_fuel|].
  rewrite drop_0 in Hget. unfold key in Hget at 3. rewrite (proj1 (proj2 HT)) in Hget.
  destruct (IH (set_tracer tr' t)) as (t2 & E2 & Hm2 & Hcfg2).
  { exists T. repeat (split; [done|]). by apply Htr'. }
  exists t2. split; [|done]. cbn [parallelGets].
  rewrite (comp_bind_ok _ _ t (m !! hashKey t k, None) (set_tracer tr' t)).
  - by rewrite (comp_bind_ok _ _ _ _ _ E2).
  - unfold c_try. cbn zeta. fold key. by rewrite (with_tracer_ok _ _ _ _ Hget).
Qed.

Lemma ParallelGet_implements keys t m : Implements t m →
  ∃ t', ParallelGet keys t = (Ok ((λ k, m !! hashKey t k) <$> keys), t') ∧
        Implements t' m ∧ same_config t t'.
Proof.
  intros Hm. destruct (parallelGets_implements keys t m Hm) as (t' & E & Hm' & Hcfg).
  exists t'. split; [|done]. pose proof Hm as (T & Hc & _). unfold ParallelGet. rewrite Hc.
  rewrite (comp_bind_ok _ _ _ _ _ E). rewrite bool_decide_true.
  - rewrite <- list_fmap_compose. done.
  - apply Forall_fmap, Forall_true. done.
Qed.

End MapFacts.
