(* ===== verification/Hasher.v ===== *)
(** * Hashing ([pkg/trie/hasher.go], [MerklePatriciaTrie.Hash])

    [hash] collapses a node to its hash and returns the node with the hash cached in
    every flag.  The goroutines of [hashFullNodeChildren] write disjoint slots, so
    the parallel and the sequential branch are the same function. *)

From S2P Require Import Prelude Interfaces HexEncoding Node Tracer Trie TrieSpec Merkle TrieRefine TrieMap.
From Stdlib Require Import Strings.Byte.

Section Hasher.
Context `{EthCommon} `{TrieProto}.

Definition hashData (data : bytes) : bytes := Keccak256 data.

(** [shortnodeToHash] and [fullnodeToHash]: [None] is Marshal's nil panic. *)
Definition nodeToHash (collapsed : Node) : option bytes := hashData <$> Marshal collapsed.

(** [cached.Flags.Hash = hn] *)
Definition cache_hash (h : bytes) (f : NodeFlag) : NodeFlag := {| Hash := Some h; Dirty := Dirty f |}.

(** [hash]: the collapsed hash node (or the node itself) and the caching copy. *)
Fixpoint hash (n : Node) : option (Node * Node) :=
  match n with
  | NilNode => None
  | ValueNode _ | HashNode _ => Some (n, n)
  | ShortNode k v f =>
    match Hash f with
    | Some h => Some (HashNode h, n)
    | None =>
      '(cv, kv) ← match v with
                  | FullNode _ _ | ShortNode _ _ _ => hash v
                  | _ => Some (v, v)
                  end;
      h ← nodeToHash (ShortNode (HexToCompact k) cv f);
      Some (HashNode h, ShortNode k kv (cache_hash h f))
    end
  | FullNode cs f =>
    match Hash f with
    | Some h => Some (HashNode h, n)
    | None =>
      kids ← (fix go (i : nat) (cs : list Node) : option (list (Node * Node)) :=
                match cs with
                | [] => Some []
                | c :: cs =>
                  r ← (if (i <? 16)%nat
                       then match c with
                            | NilNode => Some (ValueNode [], NilNode)
                            | _ => hash c
                            end
                       else Some (c, c));
                  rs ← go (S i) cs;
                  Some (r :: rs)
                end) 0%nat cs;
      h ← nodeToHash (FullNode (kids.*1) f);
      Some (HashNode h, FullNode (kids.*2) (cache_hash h f))
    end
  end.

(** [hashRoot] *)
Definition hashRoot (t : MerklePatriciaTrie) : option (Node * Node) :=
  match root t with
  | NilNode => Some (HashNode EmptyRootHash, NilNode)
  | n => hash n
  end.

(** [Hash]: the type assertion [hash.(node.HashNode)] panics on a bare value node. *)
Definition TrieHash : comp MerklePatriciaTrie trie_error bytes := λ t,
  match hashRoot t with
  | Some (HashNode h, cached) => (Ok (BytesToHash h), set_root cached t)
  | _ => (Panic, t)
  end.

(** The slot loop of [hashFullNodeChildren] as a function of its own. *)
Definition hash_child (i : nat) (c : Node) : option (Node * Node) :=
  if (i <? 16)%nat then match c with NilNode => Some (ValueNode [], NilNode) | _ => hash c end
  else Some (c, c).

Fixpoint hash_children (i : nat) (cs : list Node) : option (list (Node * Node)) :=
  match cs with
  | [] => Some []
  | c :: cs => r ← hash_child i c; rs ← hash_children (S i) cs; Some (r :: rs)
  end.

Lemma hash_full cs f : Hash f = None →
  hash (FullNode cs f) =
  kids ← hash_children 0 cs; h ← nodeToHash (FullNode (kids.*1) f);
  Some (HashNode h, FullNode (kids.*2) (cache_hash h f)).
Proof. intros E. cbn [hash]. rewrite E. done. Qed.

End Hasher.

Section HasherFacts.
Context `{EthCommonLaws} `{TrieProtoLaws}.
Context (db : DB).

Lemma cache_hash_ok f t : flag_ok db f t → Hash f = None → flag_ok db (cache_hash (merkle t) f) t.
Proof.
  intros [_ Hd] E. split; simpl.
  - congruence.
  - intros Hf. destruct (Hd Hf). congruence.
Qed.

(** What a parent keeps of a hashed subtree. *)
Definition ref_node (t : tree) : Node :=
  match t with TValue v => ValueNode v | _ => HashNode (merkle t) end.

Definition collapsed (i : nat) (t : tree) : Node :=
  match t with TNil => if decide (i < 16) then ValueNode [] else NilNode | _ => ref_node t end.

Lemma Marshal_ref_node t : Marshal (ref_node t) = Some (merkle t).
Proof. by destruct t. Qed.

(** The record that is hashed for a branch is the one [merkle] hashes. *)
Lemma Marshal_collapsed ts f :
  hashData <$> Marshal (FullNode (imap collapsed ts) f) = Some (merkle (TFull ts)).
Proof.
  cbn [Marshal]. set (g := λ c, match c with NilNode => Some zeroHash | _ => Marshal c end).
  assert (mapM g (imap collapsed ts) =
    Some (imap hash_slot ((λ c, match c with TNil => None | _ => Some (merkle c) end) <$> ts))) as ->; [|done].
  apply mapM_Some. rewrite imap_fmap. apply Forall2_same_length_lookup.
  split; [by rewrite !length_imap|]. intros i c h Hc Hh.
  apply list_lookup_imap_Some in Hc as (t & Ht & ->). apply list_lookup_imap_Some in Hh as (t' & Ht' & ->).
  simplify_eq. destruct (decide (t = TNil)) as [->|Hn].
  - unfold collapsed. simpl. by case_decide.
  - assert (collapsed i t = ref_node t) as -> by (by destruct t).
    assert (g (ref_node t) = Some (merkle t)) as -> by (by destruct t). by destruct t.
Qed.

(** The trees the hasher meets. *)
Definition hashable (t : tree) : Prop := wf t ∨ ∃ v, t = TValue v.

(** What hashing a representation of [t] gives. *)
Definition hash_post (n : Node) (t : tree) : Prop :=
  ∃ cached, hash n = Some (ref_node t, cached) ∧ Rep db cached t ∧ all_hashed cached ∧
    (resolved n → resolved cached).

Lemma hash_children_refines cs ts : ∀ i,
  Forall2 (Rep db) cs ts → Forall (λ n, ∀ t, Rep db n t → hashable t → hash_post n t) cs →
  (∀ j t, ts !! j = Some t → t ≠ TNil → if decide (i + j < 16) then wf t else ∃ v, t = TValue v) →
  ∃ kids, hash_children i cs = Some kids ∧ kids.*1 = imap (λ j, collapsed (i + j)) ts ∧
    Forall2 (Rep db) (kids.*2) ts ∧ Forall all_hashed (kids.*2).
Proof.
  intros i HR. revert i. induction HR as [|n t cs ts HR HRs IH]; intros i HI Hts.
  { exists []. repeat split; constructor. }
  inversion HI as [|?? Hn HI']; subst.
  destruct (IH (S i) HI') as (kids & Ek & K1 & K2 & K3).
  { intros j t' Hj. specialize (Hts (S j) t' Hj). by rewrite Nat.add_succ_r in Hts. }
  assert (∃ cn, hash_child i n = Some (collapsed i t, cn) ∧ Rep db cn t ∧ all_hashed cn)
    as (cn & Eh & HRc & Hac).
  { specialize (Hts 0 t eq_refl). rewrite Nat.add_0_r in Hts. unfold hash_child, collapsed.
    destruct (Nat.ltb_spec i 16) as [Hi|Hi]; (destruct (decide (t = TNil)) as [->|Ht]).
    - apply Rep_nil_inv in HR as ->. rewrite decide_True by done. eexists. repeat split; constructor.
    - rewrite decide_True in Hts by done. destruct (Hn t HR (or_introl (Hts Ht))) as (c & E & ? & ? & _).
      assert (n ≠ NilNode) by (intros ->; by inversion HR; congruence).
      exists c. split; [|done]. destruct n; [done|..]; rewrite E; by destruct t.
    - apply Rep_nil_inv in HR as ->. rewrite decide_False by lia. eexists. repeat split; constructor.
    - rewrite decide_False in Hts by lia. destruct (Hts Ht) as [v ->].
      apply Rep_value_inv in HR as ->. eexists. repeat split; constructor. }
  exists ((collapsed i t, cn) :: kids). cbn [hash_children]. rewrite Eh, Ek.
  split; [done|]. split; [|split; by constructor].
  rewrite fmap_cons, imap_cons, K1, Nat.add_0_r. f_equal. apply imap_ext. intros j t' _. simpl.
  by rewrite Nat.add_succ_r.
Qed.

Lemma hash_refines n : ∀ t, Rep db n t → hashable t → hash_post n t.
Proof.
  induction n as [|v|h|k n f IH|cs f IH] using Node_ind'; intros t HR Ht;
    inversion HR as [|?|? Hs|? ? ? t' HR' Hf Hah|? ? ts HRs Hf Hah]; subst.
  - destruct Ht as [Hw|[? [=]]]. inversion Hw.
  - eexists. split; [done|]. split; [constructor|]. split; [constructor|done].
  - eexists. split; [by inversion Hs; subst|]. split; [by constructor|]. split; [constructor|done].
  - destruct Ht as [Hw|[? [=]]]. unfold hash_post. cbn [hash].
    destruct (Hash f) as [h|] eqn:Ef.
    { rewrite (proj1 Hf h Ef). eexists. split; [done|]. split; [done|]. split; [|done].
      constructor; [congruence|]. apply Hah. congruence. }
    assert (∃ cn, match n with FullNode _ _ | ShortNode _ _ _ => hash n | _ => Some (n, n) end =
      Some (ref_node t', cn) ∧ Rep db cn t' ∧ all_hashed cn) as (cn & E & HRc & Hac).
    { assert (hashable t') as Ht'.
      { inversion Hw; subst; [right; eauto|by left]. }
      destruct (IH t' HR' Ht') as (cn & E & ? & ? & _).
      destruct n; [inversion HR'; subst; inversion Hw|..]; simpl in E; eauto. }
    rewrite E. cbn [mbind option_bind]. unfold nodeToHash. cbn [Marshal].
    rewrite Marshal_ref_node. cbn [mbind option_bind fmap option_fmap option_map].
    eexists. split; [done|]. split; [|split; [|done]].
    + constructor; [done|by apply (cache_hash_ok f (TShort k t'))|done].
    + by constructor.
  - destruct Ht as [Hw|[? [=]]]. unfold hash_post.
    destruct (Hash f) as [h|] eqn:Ef.
    { cbn [hash]. rewrite Ef, (proj1 Hf h Ef). eexists. split; [done|]. split; [done|]. split; [|done].
      constructor; [congruence|]. apply Hah. congruence. }
    rewrite hash_full by done.
    destruct (hash_children_refines cs ts 0 HRs IH) as (kids & Ek & K1 & K2 & K3).
    { intros j t Hj Hn. inversion Hw as [| |? Hl Hlo Hhi _]; subst.
      destruct (decide (0 + j < 16)) as [Hlt|Hge]; [by eapply Hlo|].
      assert (j = 16) as -> by (apply lookup_lt_Some in Hj; lia). naive_solver. }
    rewrite Ek. cbn [mbind option_bind]. unfold nodeToHash. rewrite K1.
    change (imap (λ j, collapsed (0 + j)) ts) with (imap collapsed ts). rewrite Marshal_collapsed.
    cbn [mbind option_bind]. eexists. split; [done|]. split; [|split; [|done]].
    + constructor; [done|by apply cache_hash_ok|done].
    + by constructor.
Qed.

(** ** The root hash *)

(** The root hash of a tree: the fixed empty root, or the hash of its root node. *)
Definition root_of (T : tree) : bytes :=
  match T with TNil => EmptyRootHash | _ => merkle T end.

End HasherFacts.

Section HashFacts.
Context `{EthCommonLaws} `{TrieProtoLaws}.

Lemma EmptyRootHash_length : length EmptyRootHash = 32.
Proof. done. Qed.

Lemma root_of_length T : wf_root T → length (root_of T) = 32.
Proof.
  intros [->|Hw]; [done|]. destruct T; [inversion Hw..| |]; apply Keccak256_length.
Qed.

(** [Hash] on a representation of [T] returns its root hash and only caches. *)
Lemma TrieHash_refines t T : wf_root T → Rep (reader t) (root t) T →
  ∃ n, TrieHash t = (Ok (root_of T), set_root n t) ∧ Rep (reader t) n T ∧ all_hashed n ∧
    (n = NilNode ↔ T = TNil).
Proof.
  intros Hw HR. pose proof (root_of_length T Hw) as Hlen. unfold TrieHash.
  destruct Hw as [->|Hw].
  { unfold hashRoot. rewrite (Rep_nil_inv _ _ HR). exists NilNode. rewrite BytesToHash_32 by done.
    repeat split; constructor. }
  destruct (hash_refines (reader t) (root t) T HR (or_introl Hw)) as (n & E & HRn & Hah & _).
  exists n.
  assert (hashRoot t = Some (HashNode (root_of T), n)) as E'.
  { unfold hashRoot. destruct T; [inversion Hw..| |]; by destruct (root t). }
  rewrite E', BytesToHash_32 by done. split; [done|]. split; [done|]. split; [done|].
  split; [intros ->|intros ->; inversion Hw]. by inversion HRn.
Qed.

Lemma TrieHash_implements t m : Implements t m →
  ∃ T t', holds T m ∧ TrieHash t = (Ok (root_of T), t') ∧ Implements t' m ∧ same_config t t'.
Proof.
  intros (T & Hc & HT & HR & Htr). destruct (TrieHash_refines t T (proj1 HT) HR) as (n & E & HRn & _).
  exists T, (set_root n t). repeat (split; [done|]). split; [|done]. by exists T.
Qed.

End HashFacts.

