(* ===== verification/CommitRefine.v ===== *)
(** * What the committer collects, and reading it back

    [commit_refines] says which records the committer puts into the node set;
    [stored_after_write] that a database in which they have been written, in any
    order, holds the whole trie; [New_stored] that [New] reads it back. *)

From S2P Require Import Prelude Interfaces HexEncoding Node Tracer Trie TrieSpec Merkle TrieRefine TrieMap Hasher Commit.
From Stdlib Require Import Strings.Byte.

(** [s] is the short or full node of [t] at path [p]. *)
Inductive node_at : tree → bytes → tree → Prop :=
  | at_short_here k c : node_at (TShort k c) [] (TShort k c)
  | at_full_here cs : node_at (TFull cs) [] (TFull cs)
  | at_short k c p s : node_at c p s → node_at (TShort k c) (k ++ p) s
  | at_full cs i c p s : i < 16 → cs !! i = Some c → node_at c p s →
      node_at (TFull cs) (z2b (Z.of_nat i) :: p) s.

#[export] Hint Constructors node_at : trie.

(** All short and full nodes of a tree. *)
Fixpoint subnodes (t : tree) : list tree :=
  match t with
  | TNil | TValue _ => []
  | TShort _ c => t :: subnodes c
  | TFull cs => t :: mjoin (subnodes <$> cs)
  end.

Lemma subnodes_full cs i c s : cs !! i = Some c → s ∈ subnodes c → s ∈ subnodes (TFull cs).
Proof.
  intros Hc Hs. cbn [subnodes]. right. apply list_elem_of_join. exists (subnodes c). split; [done|].
  apply list_elem_of_fmap. exists c. split; [done|]. by eapply list_elem_of_lookup_2.
Qed.

Lemma node_at_subnodes t p s : node_at t p s → s ∈ subnodes t.
Proof.
  induction 1 as [| |k c p s _ IH|cs i c p s _ Hc _ IH]; [left..|by right|].
  by eapply subnodes_full.
Qed.

Lemma node_at_is_node t p s : node_at t p s → (∃ k c, s = TShort k c) ∨ (∃ cs, s = TFull cs).
Proof. induction 1; eauto. Qed.

Lemma node_at_value v p s : ¬ node_at (TValue v) p s.
Proof. by inversion 1. Qed.

Section Good.
Context `{EthCommon} `{TrieProto}.

(** No collision and no reserved hash among the nodes of [T]. *)
Definition hash_good (T : tree) : Prop :=
  Forall (λ s, Forall (λ s', merkle s = merkle s' → blob s = blob s') (subnodes T)) (subnodes T) ∧
  Forall (λ s, merkle s ≠ zeroHash) (subnodes T) ∧
  merkle T ≠ EmptyRootHash.

(** No value sits in the seventeenth slot of a branch. *)
Definition no_branch_values (T : tree) : Prop :=
  ∀ p cs, node_at T p (TFull cs) → cs !! 16 = Some TNil.

(** The records of [t], below [path], are in [set'] or already on disk, and [set']
    differs from [set] by records of [t] only. *)
Definition collected (db : DB) (path : bytes) (t : tree) (set set' : NodeSet) : Prop :=
  (∀ p s, node_at t p s →
     Nodes set' !! hex_EncodeToString (path ++ p) = Some (NewWrapper (merkle s) (blob s)) ∨
     db (merkle s) = Some (blob s)) ∧
  (∀ q, (∀ r, q ≠ hex_EncodeToString (path ++ r)) → Nodes set' !! q = Nodes set !! q) ∧
  (∀ q w, Nodes set' !! q = Some w →
     Nodes set !! q = Some w ∨ ∃ p s, node_at t p s ∧ w = NewWrapper (merkle s) (blob s)).

End Good.

(** Keys of one length leave the value slots of branches empty. *)
Lemma fixed_length_no_branch_values T : wf T → ∀ L,
  (∀ k v, tlookup T k = Some v → length k = L) → no_branch_values T.
Proof.
  induction 1 as [k v Hk Hv|k cs Hk Hn Hwf IH|cs Hlen Hc IH Hs Htwo]; intros L HL p ds Hat.
  - inversion Hat as [| |??? ? Hat'|]; subst. by apply node_at_value in Hat'.
  - inversion Hat as [| |??? ? Hat'|]; subst. eapply (IH (L - length k)); [|done].
    intros q v E. specialize (HL (k ++ q) v). rewrite tlookup_short, length_app in HL.
    specialize (HL E). lia.
  - pose proof (wf_full cs Hlen Hc Hs Htwo) as Hwf.
    inversion Hat as [|?| |? i c q ? Hi Hci Hat']; subst.
    + destruct (lookup_lt_is_Some_2 ds 16) as [c Hc16]; [lia|].
      destruct (decide (c = TNil)) as [->|Hne]; [done|]. destruct (Hs c Hc16 Hne) as (v & -> & _).
      assert (L = 1) as ->.
      { rewrite <- (HL [terminator] v); [done|]. by rewrite tlookup_full, idx_term, Hc16. }
      destruct (wf_full_two_keys ds Hwf) as (x & k & w & y & q & u & Hxy & E1 & E2).
      pose proof (HL _ _ E1) as L1. pose proof (HL _ _ E2) as L2.
      apply wf_lookup_key in E1 as [K1 _]; [|done]. apply wf_lookup_key in E2 as [K2 _]; [|done].
      destruct k, q; [|done..]. apply hexkey_cons in K1, K2.
      destruct K1 as [[-> _]|[_ K1]]; [|by apply hexkey_not_nil in K1].
      destruct K2 as [[-> _]|[_ K2]]; [done|by apply hexkey_not_nil in K2].
    + eapply (IH i c Hi Hci); [by intros ->; inversion Hat'| |done].
      instantiate (1 := L - 1). intros k v E. specialize (HL (z2b (Z.of_nat i) :: k) v).
      rewrite tlookup_full, idx_z2b, Hci in HL by lia. specialize (HL E). simpl in HL. lia.
Qed.

Section CommitFacts.
Context `{EthCommonLaws} `{TrieProtoLaws}.

Lemma stored_nodes db t : stored db t → ∀ p s, node_at t p s → db (merkle s) = Some (blob s).
Proof.
  induction 1 as [k v Hk Hdb|k cs Hk Hdb Hst IH|cs Hlen H16 Hnz Hst IH Hdb]; intros p s Hat.
  - inversion Hat as [| |??? ? Hat'|]; subst; [done|]. inversion Hat'.
  - inversion Hat as [| |??? ? Hat'|]; subst; [done|]. eauto.
  - inversion Hat as [| | |? i c q ? Hi Hc Hat']; subst; [done|].
    assert (c ≠ TNil) by (by intros ->; inversion Hat'). eauto.
Qed.

(** The converse: a database with all the records of a good tree stores it. *)
Lemma nodes_stored db T : wf T → no_branch_values T →
  Forall (λ s, merkle s ≠ zeroHash) (subnodes T) →
  (∀ p s, node_at T p s → db (merkle s) = Some (blob s)) → stored db T.
Proof.
  induction 1 as [k v Hk Hv|k cs Hk Hn Hwf IH|cs Hlen Hc IH Hs Htwo]; intros Hnb Hz Hdb.
  - constructor; [done|]. apply (Hdb []). constructor.
  - constructor; [done|apply (Hdb []); constructor|]. apply IH.
    + intros p ds Hat. eapply Hnb. by constructor.
    + by inversion Hz.
    + intros p s Hat. eapply Hdb. by constructor.
  - assert (cs !! 16 = Some TNil) as H16 by (eapply (Hnb []); constructor).
    assert (∀ i c, cs !! i = Some c → c ≠ TNil → i < 16) as Hlt.
    { intros i c Hci Hne. pose proof (lookup_lt_Some _ _ _ Hci).
      destruct (decide (i = 16)) as [->|]; [congruence|lia]. }
    rewrite Forall_forall in Hz. constructor; [done..| | |apply (Hdb []); constructor].
    + intros i c Hci Hne. apply Hz. eapply subnodes_full; [done|].
      pose proof (Hc i c (Hlt i c Hci Hne) Hci Hne) as Hw. inversion Hw; left.
    + intros i c Hci Hne. pose proof (Hlt i c Hci Hne) as Hi. apply (IH i c Hi Hci Hne).
      * intros p ds Hat. by eapply Hnb, at_full.
      * apply Forall_forall. intros s Hin. apply Hz. by eapply subnodes_full.
      * intros p s Hat. by eapply Hdb, at_full.
Qed.

(** ** The committer *)

Context (db : DB) (tr : Tracer) (cl : bool).

Lemma collected_same path t set :
  (∀ p s, node_at t p s → db (merkle s) = Some (blob s)) → collected db path t set set.
Proof. intros Hs. split; [by right; eauto|]. split; [done|by left]. Qed.

(** [store] on a collapsed node whose flag carries the hash of [t]. *)
Lemma store_ok path n t set h : Cache n = Some (Some h, true) → h = merkle t →
  length h = 32 → Marshal n = Some (blob t) →
  ∃ set', store tr cl path n set = (Ok (HashNode (merkle t)), set') ∧
    Nodes set' = <[hex_EncodeToString path := NewWrapper (merkle t) (blob t)]> (Nodes set).
Proof.
  intros Hc -> Hl Hm. unfold store, NodeToBytes. rewrite Hc, Hm, BytesToHash_32 by done.
  eexists. split; [done|]. destruct n as [| | |? [| | | |] ?|]; try done. by destruct cl.
Qed.

(** What the parent keeps of a committed child. *)
Definition kept (t : tree) : Node := match t with TNil => NilNode | _ => ref_node t end.

Lemma Marshal_kept ts f : Marshal (FullNode (kept <$> ts) f) = Some (blob (TFull ts)).
Proof.
  cbn [Marshal blob]. unfold full_record.
  assert (mapM (λ c, match c with NilNode => Some zeroHash | _ => Marshal c end) (kept <$> ts) =
    Some (blob_slot <$> ts)) as ->; [|done].
  apply mapM_Some, Forall2_fmap, Forall_Forall2_diag, Forall_true. intros t. by destruct t.
Qed.

Definition commit_post (n : Node) (t : tree) : Prop := ∀ path set,
  ∃ set', commit tr cl path n set = (Ok (HashNode (merkle t)), set') ∧ collected db path t set set'.

(** Adding the node itself on top of what was collected below it. *)
Lemma collected_here path t set set1 set2 :
  (∀ p s, node_at t p s → (p = [] ∧ s = t) ∨
     (p ≠ [] ∧ (Nodes set1 !! hex_EncodeToString (path ++ p) = Some (NewWrapper (merkle s) (blob s)) ∨
     db (merkle s) = Some (blob s)))) →
  (∀ q, (∀ r, q ≠ hex_EncodeToString (path ++ r)) → Nodes set1 !! q = Nodes set !! q) →
  (∀ q w, Nodes set1 !! q = Some w →
     Nodes set !! q = Some w ∨ ∃ p s, node_at t p s ∧ w = NewWrapper (merkle s) (blob s)) →
  node_at t [] t →
  Nodes set2 = <[hex_EncodeToString path := NewWrapper (merkle t) (blob t)]> (Nodes set1) →
  collected db path t set set2.
Proof.
  intros A B C Hh E. unfold collected. rewrite E. split; [|split].
  - intros p s Hat. destruct (A p s Hat) as [[-> ->]|[Hp Hs]].
    + left. by rewrite app_nil_r, lookup_insert_eq.
    + destruct Hs as [Hs|Hs]; [left|by right]. rewrite lookup_insert_ne; [done|].
      intros [=Heq]%hex_EncodeToString_inj. apply Hp. apply (app_inv_head path). by rewrite app_nil_r.
  - intros q Hq. rewrite lookup_insert_ne; [by apply B|]. intros <-. apply (Hq []). by rewrite app_nil_r.
  - intros q w. rewrite lookup_insert_Some. intros [[<- <-]|[_ Hw]]; [right; eauto|by apply C].
Qed.

Lemma commit_child_refines path i n t set : Rep db n t → all_hashed n →
  (wf t → commit_post n t) →
  (t ≠ TNil → if decide (i < 16) then wf t else ∃ v, t = TValue v) →
  ∃ set', commit_child tr cl path i n set = (Ok (kept t), set') ∧
    (if decide (i < 16) then collected db (path ++ [z2b (Z.of_nat i)]) t set set' else set' = set).
Proof.
  intros HR Hah IH Ht. unfold commit_child.
  destruct (decide (t = TNil)) as [->|Hn].
  { apply Rep_nil_inv in HR as ->. exists set. split; [by destruct (i <? 16)|].
    case_decide; [|done]. apply collected_same. by inversion 1. }
  specialize (Ht Hn). destruct (Nat.ltb_spec i 16) as [Hi|Hi]; destruct (decide (i < 16)); [|lia..|].
  - assert (kept t = HashNode (merkle t)) as -> by (inversion Ht; done).
    destruct (IH Ht (path ++ [z2b (Z.of_nat i)]) set) as (set1 & E & Hset).
    inversion HR as [|?|? Hs|? ? ? t' HR' Hf ?|? ? ts HRs Hf ?]; subst; [done|inversion Ht|..|by eauto|by eauto].
    exists set. split; [done|]. apply collected_same. by apply stored_nodes.
  - destruct Ht as [v ->].
    apply Rep_value_inv in HR as ->. by exists set.
Qed.

Lemma commit_children_refines path cs ts : Forall2 (Rep db) cs ts → ∀ i set,
  Forall all_hashed cs →
  Forall (λ n, ∀ t, Rep db n t → all_hashed n → wf t → commit_post n t) cs →
  (∀ j t, ts !! j = Some t → t ≠ TNil → if decide (i + j < 16) then wf t else ∃ v, t = TValue v) →
  i + length cs = 17 →
  ∃ set', commitChildren tr cl path i cs set = (Ok (kept <$> ts), set') ∧
    (∀ j t p s, i + j < 16 → ts !! j = Some t → node_at t p s →
       Nodes set' !! hex_EncodeToString (path ++ z2b (Z.of_nat (i + j)) :: p) =
         Some (NewWrapper (merkle s) (blob s)) ∨ db (merkle s) = Some (blob s)) ∧
    (∀ q, (∀ j r, i ≤ j → j < 16 → q ≠ hex_EncodeToString (path ++ z2b (Z.of_nat j) :: r)) →
       Nodes set' !! q = Nodes set !! q) ∧
    (∀ q w, Nodes set' !! q = Some w → Nodes set !! q = Some w ∨
       ∃ j t p s, i + j < 16 ∧ ts !! j = Some t ∧ node_at t p s ∧ w = NewWrapper (merkle s) (blob s)).
Proof.
  induction 1 as [|n t cs ts HR HRs IH]; intros i set Hah HI Hts Hlen.
  { exists set. repeat split; auto. by intros [] ???. }
  inversion Hah as [|?? Hahn Hahs]; inversion HI as [|?? HIn HIs]; subst. simpl in Hlen.
  destruct (commit_child_refines path i n t set HR Hahn (HIn t HR Hahn)) as (set1 & E1 & Hc1).
  { specialize (Hts 0 t eq_refl). by rewrite Nat.add_0_r in Hts. }
  destruct (IH (S i) set1 Hahs HIs) as (set2 & E2 & A & B & C); [|lia|].
  { intros j t' Hj. specialize (Hts (S j) t' Hj). by rewrite Nat.add_succ_r in Hts. }
  exists set2. split; [|split; [|split]].
  - cbn [commitChildren]. unfold mbind, CM_bind, comp_bind in *. rewrite E1. 
    fold (commitChildren tr cl path). by rewrite E2.
  - intros [|j] t' p s Hj Ht' Hat; simplify_eq/=.
    + rewrite Nat.add_0_r in *. rewrite decide_True in Hc1 by done.
      destruct (proj1 Hc1 p s Hat) as [Hs|Hs]; [left|by right].
      rewrite <- app_assoc in Hs. rewrite B; [done|]. intros j r Hij Hj' Heq.
      apply hex_EncodeToString_inj, app_inv_head in Heq. injection Heq as Heq _.
      apply (f_equal idx) in Heq. rewrite !idx_z2b in Heq by lia. lia.
    + rewrite <- Nat.add_succ_comm in *. eauto.
  - intros q Hq. rewrite B by (intros; apply Hq; lia).
    destruct (decide (i < 16)); [|by subst]. apply Hc1. intros r. rewrite <- app_assoc. by apply Hq.
  - intros q w Hw. destruct (C q w Hw) as [Hw1|(j & t' & p & s & Hj & Ht' & Hat & ->)].
    + destruct (decide (i < 16)); [|subst; by left].
      destruct (proj2 (proj2 Hc1) q w Hw1) as [?|(p & s & Hat & ->)]; [by left|right].
      exists 0, t, p, s. rewrite Nat.add_0_r. done.
    + right. exists (S j), t', p, s. rewrite <- Nat.add_succ_comm. done.
Qed.

Lemma commit_refines n : ∀ t, Rep db n t → all_hashed n → wf t → commit_post n t.
Proof.
  induction n as [|v|h|k n f IH|cs f IH] using Node_ind'; intros t HR Hah Hw path set;
    inversion HR as [|?|? Hs|? ? ? t' HR' Hf _|? ? ts HRs Hf _]; subst; try by inversion Hw.
  - exists set. split; [done|]. apply collected_same. by apply stored_nodes.
  - inversion Hah as [| | |? ? ? Hh Hah'|]; subst.
    destruct (Hash f) as [h|] eqn:Eh; [|done]. pose proof (proj1 Hf h Eh) as ->.
    cbn [commit Cache]. rewrite Eh. destruct (Dirty f) eqn:Ed.
    2: { exists set. split; [done|]. apply collected_same, stored_nodes. by apply Hf. }
    assert (∃ set1, match n with FullNode _ _ => commit tr cl (path ++ k) n | _ => mret n end set =
      (Ok (ref_node t'), set1) ∧ collected db (path ++ k) t' set set1) as (set1 & E1 & A & B & C).
    { inversion Hw as [? v ? ?|? cs ? ? Hw'|]; subst.
      - apply Rep_value_inv in HR' as ->. exists set. split; [done|]. apply collected_same. by inversion 1.
      - destruct (IH _ HR' Hah' Hw' (path ++ k) set) as (set1 & E1 & Hset1).
        inversion HR' as [| |? Hs| |]; subst; [|by eauto].
        exists set. split; [done|]. apply collected_same. by apply stored_nodes. }
    rewrite (comp_bind_ok _ _ _ _ _ E1).
    destruct (store_ok path (ShortNode (HexToCompact k) (ref_node t') f) (TShort k t') set1
      (merkle (TShort k t'))) as (set2 & E2 & Hn2); [by rewrite <- Eh, <- Ed|done|apply Keccak256_length| |].
    { cbn [Marshal]. by rewrite Marshal_ref_node. }
    exists set2. split; [done|]. eapply collected_here; [..|done].
    + intros p s Hat. inversion Hat as [| |? ? q ? Hat'|]; subst; [by left|right].
      rewrite app_assoc. split; [|by apply A].
      intros [Hk _]%app_eq_nil. subst. inversion Hw; [by apply hexkey_not_nil|done].
    + intros q Hq. apply B. intros r. rewrite <- app_assoc. apply Hq.
    + intros q w Hq. destruct (C q w Hq) as [?|(p & s & Hat & ->)]; [by left|right; eauto with trie].
    + constructor.
  - inversion Hah as [| | | |? ? Hh Hahs]; subst.
    destruct (Hash f) as [h|] eqn:Eh; [|done]. pose proof (proj1 Hf h Eh) as ->.
    destruct (Dirty f) eqn:Ed.
    2: { exists set. cbn [commit Cache]. rewrite Eh, Ed. split; [done|].
         apply collected_same, stored_nodes. by apply Hf. }
    rewrite commit_full by (rewrite Ed; naive_solver).
    inversion Hw as [| |? Hlen Hlo Hhi _]; subst.
    destruct (commit_children_refines path cs ts HRs 0 set Hahs IH) as (set1 & E1 & A & B & C).
    { intros j t Hj Hn. destruct (decide (0 + j < 16)) as [Hlt|Hge]; [by eapply Hlo|].
      assert (j = 16) as -> by (apply lookup_lt_Some in Hj; lia). naive_solver. }
    { by rewrite (Forall2_length _ _ _ HRs). }
    rewrite (comp_bind_ok _ _ _ _ _ E1).
    destruct (store_ok path (FullNode (kept <$> ts) f) (TFull ts) set1 (merkle (TFull ts)))
      as (set2 & E2 & Hn2); [by rewrite <- Eh, <- Ed|done|apply Keccak256_length|apply Marshal_kept|].
    exists set2. split; [done|]. eapply collected_here; [..|done].
    + intros p s Hat. inversion Hat as [|?| |? i c q ? Hi Hc Hat']; subst; [by left|right].
      split; [done|]. by apply (A i c).
    + intros q Hq. apply B. intros j r _ _. apply Hq.
    + intros q w Hq. destruct (C q w Hq) as [?|(j & t & p & s & Hj & Ht & Hat & ->)]; [by left|].
      right. exists (z2b (Z.of_nat j) :: p), s. split; [|done]. by econstructor.
    + constructor.
Qed.

End CommitFacts.

(** ** Writing the node set and loading the trie again *)

(** Writing pairs in order. *)
Fixpoint put_all (kvs : list (bytes * bytes)) (db : DB) : DB :=
  match kvs with
  | [] => db
  | (k, v) :: kvs => put_all kvs (λ h, if decide (h = k) then Some v else db h)
  end.

Lemma put_all_in kvs db k v :
  (k, v) ∈ kvs → (∀ w, (k, w) ∈ kvs → w = v) → put_all kvs db k = Some v.
Proof.
  revert db. induction kvs as [|[a b] kvs IH]; intros db Hin Hall; [by apply not_elem_of_nil in Hin|].
  cbn [put_all]. destruct (decide ((k, v) ∈ kvs)) as [Hin'|Hnin].
  - apply IH; [done|]. intros w Hw. apply Hall. by right.
  - apply elem_of_cons in Hin as [[= <- <-]|]; [|done].
    assert (∀ db, put_all kvs db k = db k) as ->; [|by rewrite decide_True].
    assert (∀ w, (k, w) ∉ kvs) as Hno.
    { intros w Hw. assert (w = v) as -> by (apply Hall; by right). done. }
    clear -Hno. induction kvs as [|[a b] kvs IH]; intros db; [done|]. cbn [put_all].
    rewrite IH by (intros w Hw; apply (Hno w); by right). rewrite decide_False; [done|].
    intros ->. apply (Hno b). left.
Qed.

Lemma put_all_notin kvs db k : (∀ w, (k, w) ∉ kvs) → put_all kvs db k = db k.
Proof.
  revert db. induction kvs as [|[a b] kvs IH]; intros db Hno; [done|]. cbn [put_all].
  rewrite IH by (intros w Hw; apply (Hno w); by right). rewrite decide_False; [done|].
  intros ->. apply (Hno b). left.
Qed.

Section Written.
Context `{EthCommonLaws} `{TrieProtoLaws}.

(** The nodes of a possibly nil node set. *)
Definition set_nodes (ns : option NodeSet) : gmap string NodeWrapper := from_option Nodes ∅ ns.

(** What a client writes: every node with a non-zero hash. *)
Definition batch_of (ns : option NodeSet) : list (bytes * bytes) :=
  omap (λ '(_, w), if decide (nw_Hash w = zeroHash) then None else Some (nw_Hash w, nw_Blob w))
    (map_to_list (set_nodes ns)).

(** The node set of a commit of [T] has its records, or they are on disk. *)
Definition covers (db : DB) (T : tree) (ns : option NodeSet) : Prop :=
  (∀ p s, node_at T p s →
     (∃ q, set_nodes ns !! q = Some (NewWrapper (merkle s) (blob s))) ∨ db (merkle s) = Some (blob s)) ∧
  (∀ q w, set_nodes ns !! q = Some w →
     w = NewDeleted ∨ ∃ p s, node_at T p s ∧ w = NewWrapper (merkle s) (blob s)).

Lemma add_deleted_nodes paths set q w :
  (∀ q w, Nodes set !! q = Some w → w = NewDeleted) →
  Nodes (add_deleted paths set) !! q = Some w → w = NewDeleted.
Proof.
  revert set. induction paths as [|path paths IH]; intros set Hset; [apply Hset|].
  cbn [add_deleted foldl]. apply IH. intros q' w'. simpl. rewrite lookup_insert_Some. naive_solver.
Qed.

Lemma TrieCommit_refines cl t T : wf_root T → Rep (reader t) (root t) T →
  ∃ ns, TrieCommit cl t = (Ok (root_of T, ns, oldKeys (tracer t)), set_tracer (reset (tracer t)) t) ∧
    covers (reader t) T ns.
Proof.
  intros Hw HR. unfold TrieCommit.
  assert (∀ q w, Nodes (add_deleted (deletedNodes (tracer t)) NewNodeSet) !! q = Some w → w = NewDeleted) as Hdel.
  { intros q w. apply add_deleted_nodes. done. }
  destruct Hw as [->|Hw].
  { rewrite (Rep_nil_inv _ _ HR).
    assert (∀ ns, (∀ q w, set_nodes ns !! q = Some w → w = NewDeleted) → covers (reader t) TNil ns) as Hcov.
    { intros ns Hns. split; [by inversion 1|eauto]. }
    destruct (deletedNodes (tracer t)) as [|p ps]; (eexists; split; [done|]; apply Hcov); [done|].
    exact Hdel. }
  destruct (TrieHash_refines (Trie.Copy t) T (or_intror Hw) HR) as (n & E & HRn & Hah & Hnil).
  assert (root t ≠ NilNode) as Hr by (intros Er; rewrite Er in HR; inversion HR; subst; inversion Hw).
  rewrite E. cbn [root set_root].
  assert (∀ A (x y : A), match root t with NilNode => x | _ => y end = y) as Hmatch by (by destruct (root t)).
  rewrite Hmatch. clear Hmatch.
  destruct (Cache n) as [[h d]|] eqn:Ec.
  2: { destruct n; try done. rewrite (proj1 Hnil eq_refl) in Hw. inversion Hw. }
  destruct d.
  - destruct (commit_refines (reader t) (tracer t) cl n T HRn Hah Hw []
      (add_deleted (deletedNodes (tracer t)) NewNodeSet)) as (set' & E' & A & _ & C).
    rewrite E'. eexists. split; [done|]. split; simpl.
    + intros p s Hat. destruct (A p s Hat); [left; eauto|by right].
    + intros q w Hq. destruct (C q w Hq) as [?|?]; [left; eauto|by right].
  - eexists. split; [done|]. split; [|intros q w Hq; simpl in Hq; by rewrite lookup_empty in Hq]. intros p s Hat. right.
    apply (stored_nodes _ T) with p; [|done].
    inversion HRn as [|?|? Hs|? ? ? t' HR' Hf ?|? ? ts HRs Hf ?]; subst; simplify_eq/=; by apply Hf.
Qed.

(** Writing the node set, in any order, stores the tree. *)
Lemma stored_after_write db T ns batch : wf T → no_branch_values T → hash_good T →
  covers db T ns → batch ≡ₚ batch_of ns → stored (put_all batch db) T.
Proof.
  intros Hw Hnb (Hcoll & Hz & _) [A C] Hperm. apply nodes_stored; [done..|].
  rewrite Forall_forall in Hz. rewrite Forall_forall in Hcoll.
  intros p s Hat. pose proof (node_at_subnodes _ _ _ Hat) as Hsub.
  assert (∀ w, (merkle s, w) ∈ batch → w = blob s) as Hsame.
  { intros w. rewrite Hperm. unfold batch_of. rewrite list_elem_of_omap.
    intros ([q nw] & Hq & Hif). apply elem_of_map_to_list in Hq.
    destruct (C q nw Hq) as [->|(p' & s' & Hat' & ->)]; [done|].
    destruct (decide _); simplify_eq/=.
    symmetry. pose proof (Hcoll s Hsub) as Hs. rewrite Forall_forall in Hs. apply Hs; [|done].
    by eapply node_at_subnodes. }
  destruct (A p s Hat) as [[q Hq]|Hdb].
  - apply put_all_in; [|done]. rewrite Hperm. unfold batch_of. apply list_elem_of_omap.
    exists (q, NewWrapper (merkle s) (blob s)). split; [by apply elem_of_map_to_list|].
    simpl. rewrite decide_False; [done|]. by apply Hz.
  - destruct (decide (Exists (λ kv, kv.1 = merkle s) batch)) as [Hex|Hnex].
    + apply Exists_exists in Hex as ([k w] & Hin & Hk). simpl in Hk. subst k.
      apply put_all_in; [|done]. rewrite <- (Hsame w Hin). done.
    + rewrite put_all_notin; [done|]. intros w Hin. apply Hnex, Exists_exists. by exists (merkle s, w).
Qed.

(** [New] on the root hash of a stored tree loads it. *)
Lemma New_stored db T h : wf T → stored db T → merkle T ≠ EmptyRootHash → merkle T ≠ zeroHash →
  ∃ t, New (merkle T) db h = Ok t ∧ Rep db (root t) T ∧ reader t = db ∧ isHash t = h ∧
    committed t = false ∧ tracer_ok (tracer t).
Proof.
  intros Hw Hs He Hz. destruct (resolve_ok db T [] newTracer Hs) as (n & E & HR & _).
  unfold New. rewrite !bool_decide_true by done. simpl. rewrite E. eexists. split; [done|]. done.
Qed.

End Written.
