(* ===== verification/Traversal.v ===== *)
(** * Whole-trie traversals ([Count], [GetAll], [GetKeyValue], [GetRootHash], [ExportTrie], [ImportTrie])

    The three recursive walks of trie.go visit the same nodes in the same order and
    differ in what they do at a value; [traverse] is that walk. *)

From S2P Require Import Prelude Interfaces HexEncoding Node Tracer Trie TrieSpec Merkle TrieRefine TrieMap Hasher.
From Stdlib Require Import Strings.Byte.

Section Traversal.
Context `{EthCommon} `{TrieProto}.

(** The loop over [n.Children]; nil children are skipped. *)
Fixpoint each_child {A} (f : bytes → Node → A → TM A) (prefix : bytes) (i : nat) (cs : list Node)
    (acc : A) : TM A :=
  match cs with
  | [] => mret acc
  | NilNode :: cs => each_child f prefix (S i) cs acc
  | c :: cs => acc' ← f (prefix ++ [z2b (Z.of_nat i)]) c acc; each_child f prefix (S i) cs acc'
  end.

Fixpoint traverse {A} (leaf : bytes → bytes → A → A) (fuel : nat) (db : DB)
    (prefix : bytes) (origNode : Node) (acc : A) : TM A :=
  match fuel with
  | O => c_nofuel
  | S fuel =>
    match origNode with
    | NilNode => mret acc
    | ValueNode v => mret (leaf prefix v acc)
    | ShortNode k v _ => traverse leaf fuel db (prefix ++ k) v acc
    | FullNode cs _ => each_child (traverse leaf fuel db) prefix 0 cs acc
    | HashNode h =>
      child ← resolveAndTrack db h prefix;
      traverse leaf fuel db prefix child acc
    end
  end.

(** [data[hex.EncodeToString(append(prefix, KeybytesToHex(Keccak256(prefix))...))]] *)
Definition export_key (prefix : bytes) : string :=
  hex_EncodeToString (prefix ++ KeybytesToHex (Keccak256 prefix)).

Definition countRecursive : nat → DB → bytes → Node → Z → TM Z :=
  traverse (λ _ _ count, (count + 1)%Z).

Definition getAll : nat → DB → bytes → Node → gmap string bytes → TM (gmap string bytes) :=
  traverse (λ prefix v data, <[export_key prefix := v]> data).

Definition getKeyValue : nat → DB → bytes → Node → gmap string bytes → TM (gmap string bytes) :=
  traverse (λ prefix v data, <[export_key prefix := v]> data).

Definition walk_all {A} (f : nat → DB → bytes → Node → A → TM A) (fuel : nat) (init : A)
    : comp MerklePatriciaTrie trie_error A := λ t,
  if committed t then (Fail ErrCommitted, t)
  else with_tracer (f fuel (reader t) [] (root t) init) t.

Definition Count (fuel : nat) := walk_all countRecursive fuel 0%Z.
Definition GetAll (fuel : nat) := walk_all getAll fuel ∅.
Definition GetKeyValue (fuel : nat) := walk_all getKeyValue fuel ∅.

(** ** Export, import and the root hash of a map *)

Record TrieData := { RootHash : bytes; KeyValues : gmap string bytes }.

(** [ExportTrie] up to the gob encoding of the file. *)
Definition ExportTrie (fuel : nat) : comp MerklePatriciaTrie trie_error TrieData :=
  h ← TrieHash; kvs ← GetAll fuel; mret {| RootHash := h; KeyValues := kvs |}.

(** A fresh memory database holds nothing. *)
Definition empty_db : DB := λ _, None.

Definition update_all : list (string * bytes) → comp MerklePatriciaTrie trie_error unit :=
  fix go kvs := match kvs with
    | [] => mret tt
    | (k, v) :: kvs => _ ← Update (String.list_byte_of_string k) v; go kvs
    end.

(** [ImportTrie] after the file is decoded. *)
Definition ImportTrie (data : TrieData) : outcome trie_error MerklePatriciaTrie :=
  match New (RootHash data) empty_db true with
  | Ok t =>
    match update_all (map_to_list (KeyValues data)) t with
    | (Ok _, t') => Ok t'
    | (Fail e, _) => Fail e
    | (Panic, _) => Panic
    | (OutOfFuel, _) => OutOfFuel
    end
  | o => o
  end.

(** [GetRootHash], over the map's entries in the order [data] lists them; errors of
    [Update] are ignored. *)
Fixpoint update_ignoring (FromHex : string → bytes) (data : list (string * bytes))
    : comp MerklePatriciaTrie trie_error unit :=
  match data with
  | [] => mret tt
  | (k, v) :: data => c_try (Update (FromHex k) v) (λ _, update_ignoring FromHex data)
  end.

Definition GetRootHash (FromHex : string → bytes) (data : list (string * bytes))
    : outcome trie_error bytes :=
  match New zeroHash empty_db false with
  | Ok t => fst ((_ ← update_ignoring FromHex data; TrieHash) t)
  | Fail e => Fail e
  | Panic => Panic
  | OutOfFuel => OutOfFuel
  end.

End Traversal.

(** ** The bindings of a tree, in the order of the walk *)

Section Bindings.

Definition slot_bindings (f : bytes → tree → list (bytes * bytes)) (prefix : bytes)
    : nat → list tree → list (bytes * bytes) :=
  fix go i cs := match cs with
    | [] => []
    | c :: cs => f (prefix ++ [z2b (Z.of_nat i)]) c ++ go (S i) cs
    end.

Fixpoint tbindings (prefix : bytes) (t : tree) : list (bytes * bytes) :=
  match t with
  | TNil => []
  | TValue v => [(prefix, v)]
  | TShort k c => tbindings (prefix ++ k) c
  | TFull cs => slot_bindings tbindings prefix 0 cs
  end.

(** Fuel that suffices: every node may first have to be resolved. *)
Fixpoint tneed (t : tree) : nat :=
  match t with
  | TNil | TValue _ => 1
  | TShort _ c => 2 + tneed c
  | TFull cs => 2 + foldr (λ c m, Nat.max (tneed c) m) 0 cs
  end.

Lemma tneed_child cs i c : cs !! i = Some c → 2 + tneed c ≤ tneed (TFull cs).
Proof.
  cbn [tneed]. intros Hc. assert (tneed c ≤ foldr (λ c m, Nat.max (tneed c) m) 0 cs); [|lia].
  revert i Hc. induction cs as [|d cs IH]; intros [|i] Hc; simplify_eq/=; [lia|].
  specialize (IH i Hc). lia.
Qed.

End Bindings.

Lemma slot_bindings_elem f prefix cs b : ∀ i,
  b ∈ slot_bindings f prefix i cs ↔ ∃ j c, cs !! j = Some c ∧ b ∈ f (prefix ++ [z2b (Z.of_nat (i + j))]) c.
Proof.
  induction cs as [|c cs IH]; intros i; cbn [slot_bindings].
  - rewrite elem_of_nil. split; [done|]. by intros (j & ? & ? & _).
  - rewrite elem_of_app. fold (slot_bindings f prefix). rewrite IH. split.
    + intros [Hb|(j & d & Hd & Hb)]; [exists 0, c; by rewrite Nat.add_0_r|].
      exists (S j), d. by rewrite <- Nat.add_succ_comm.
    + intros ([|j] & d & Hd & Hb); simplify_eq/=; [left; by rewrite Nat.add_0_r in Hb|right].
      exists j, d. split; [done|]. simpl. by rewrite <- Nat.add_succ_r.
Qed.

Lemma tbindings_value prefix v b : b ∈ tbindings prefix (TValue v) ↔ b = (prefix, v).
Proof. simpl. by rewrite list_elem_of_singleton. Qed.

Lemma tbindings_elem t : wf t → ∀ prefix q v,
  (q, v) ∈ tbindings prefix t ↔ ∃ k, q = prefix ++ k ∧ tlookup t k = Some v.
Proof.
  induction 1 as [k w Hk Hw|k cs Hk Hn Hwf IH|cs Hlen Hc IH Hs Htwo]; intros prefix q v.
  - cbn [tbindings]. rewrite list_elem_of_singleton. split.
    + intros [= -> ->]. exists k. split; [done|]. rewrite <- (app_nil_r k) at 2. by rewrite tlookup_short.
    + intros (k' & -> & E). apply tlookup_short_Some in E as ([|? ?] & -> & E); simplify_eq/=.
      by rewrite app_nil_r.
  - change (tbindings prefix (TShort k (TFull cs))) with (tbindings (prefix ++ k) (TFull cs)).
    rewrite IH. split.
    + intros (k' & -> & E). exists (k ++ k'). by rewrite app_assoc, tlookup_short.
    + intros (k' & -> & E). apply tlookup_short_Some in E as (k'' & -> & E). exists k''. by rewrite app_assoc.
  - assert (∀ j c p, cs !! j = Some c →
      (q, v) ∈ tbindings p c ↔ ∃ k, q = p ++ k ∧ tlookup c k = Some v) as Hslot.
    { intros j c p Hj. pose proof (lookup_lt_Some _ _ _ Hj).
      destruct (decide (c = TNil)) as [->|Hn].
      { cbn [tbindings tlookup]. rewrite elem_of_nil. naive_solver. }
      destruct (decide (j = 16)) as [->|]; [|apply (IH j); [lia|done..]].
      destruct (Hs c Hj Hn) as (w & -> & _). rewrite tbindings_value. split.
      - intros [= -> ->]. exists []. by rewrite app_nil_r.
      - intros ([|? ?] & -> & E); simplify_eq/=. by rewrite app_nil_r. }
    cbn [tbindings]. rewrite slot_bindings_elem. split.
    + intros (j & c & Hj & Hb). pose proof (lookup_lt_Some _ _ _ Hj).
      apply (Hslot j) in Hb as (k & -> & E); [|done]. rewrite <- app_assoc.
      eexists. split; [done|]. cbn [app]. rewrite tlookup_full, idx_z2b by lia. simpl. by rewrite Hj.
    + intros ([|x k] & -> & E); [done|]. rewrite tlookup_full in E. apply bind_Some in E as (c & Hj & E).
      exists (idx x), c. split; [done|]. apply (Hslot (idx x)); [done|]. exists k.
      split; [|done]. rewrite <- app_assoc. simpl. do 2 f_equal. apply idx_inj. rewrite idx_z2b; [done|].
      apply lookup_lt_Some in Hj. lia.
Qed.

Lemma tbindings_root_elem t prefix q v : wf_root t →
  (q, v) ∈ tbindings prefix t ↔ ∃ k, q = prefix ++ k ∧ tlookup t k = Some v.
Proof.
  intros [->|Hw]; [|by apply tbindings_elem]. cbn [tbindings tlookup]. rewrite elem_of_nil. naive_solver.
Qed.

(** Every walk extends its prefix. *)
Lemma tbindings_prefix t : ∀ prefix q v, (q, v) ∈ tbindings prefix t → ∃ k, q = prefix ++ k.
Proof.
  revert t. fix IH 1. intros [|w|k c|cs] prefix q v; cbn [tbindings].
  - by rewrite elem_of_nil.
  - rewrite list_elem_of_singleton. intros [= -> ->]. exists []. by rewrite app_nil_r.
  - intros Hb. apply IH in Hb as (k' & ->). exists (k ++ k'). by rewrite app_assoc.
  - generalize 0 as i. induction cs as [|c cs IHcs]; intros i; cbn [slot_bindings]; [by rewrite elem_of_nil|].
    rewrite elem_of_app. intros [Hb|Hb]; [|by eapply IHcs].
    apply IH in Hb as (k' & ->). eexists. by rewrite <- app_assoc.
Qed.

Lemma slot_bindings_NoDup prefix cs : ∀ i, i + length cs ≤ 256 →
  (∀ j c p, cs !! j = Some c → NoDup (tbindings p c)) →
  NoDup (slot_bindings tbindings prefix i cs).
Proof.
  induction cs as [|c cs IH]; intros i Hi Hnd; cbn [slot_bindings]; [constructor|]. simpl in Hi.
  apply NoDup_app. split; [by apply (Hnd 0)|]. split.
  - intros [q v] H1 H2. fold (slot_bindings tbindings prefix) in H2.
    apply slot_bindings_elem in H2 as (j & d & Hd & H2). apply lookup_lt_Some in Hd.
    apply tbindings_prefix in H1 as (k1 & ->). apply tbindings_prefix in H2 as (k2 & E).
    rewrite <- !app_assoc in E. apply app_inv_head in E. injection E as E _.
    apply (f_equal idx) in E. rewrite !idx_z2b in E by lia. lia.
  - apply IH; [lia|]. intros j d p Hd. by apply (Hnd (S j)).
Qed.

Lemma tbindings_NoDup t prefix : wf_root t → NoDup (tbindings prefix t).
Proof.
  intros [->|Hw]; [constructor|]. revert prefix.
  induction Hw as [k v _ _|k cs _ _ _ IH|cs Hlen Hc IH Hs _]; intros prefix; cbn [tbindings].
  - apply NoDup_singleton.
  - apply IH.
  - apply slot_bindings_NoDup; [lia|]. intros j c p Hj. pose proof (lookup_lt_Some _ _ _ Hj).
    destruct (decide (c = TNil)) as [->|Hn]; [constructor|].
    destruct (decide (j = 16)) as [->|]; [|apply (IH j); [lia|done..]].
    destruct (Hs c Hj Hn) as (w & -> & _). apply NoDup_singleton.
Qed.

(** The bindings of a tree that holds [m] are those of [m]. *)
Lemma tbindings_holds T m : holds T m →
  tbindings [] T ≡ₚ (λ '(k, v), (KeybytesToHex k, v)) <$> map_to_list m.
Proof.
  intros (Hw & Hl & Hk). apply NoDup_Permutation.
  - by apply tbindings_NoDup.
  - apply NoDup_fmap_2_strong; [|apply NoDup_map_to_list].
    intros [k v] [k' v'] _ _ [= E ->]. f_equal. by apply KeybytesToHex_inj.
  - intros [q v]. rewrite tbindings_root_elem by done. rewrite list_elem_of_fmap. split.
    + intros (k & -> & E). destruct (Hk k v E) as [k' ->]. exists (k', v). split; [done|].
      by apply elem_of_map_to_list; rewrite <- Hl.
    + intros ([k v'] & [= -> ->] & Hin). apply elem_of_map_to_list in Hin.
      exists (KeybytesToHex k). split; [done|]. by rewrite Hl.
Qed.

Section TraversalFacts.
Context `{EthCommonLaws} `{TrieProtoLaws}.

Definition fold_leaves {A} (leaf : bytes → bytes → A → A) (l : list (bytes * bytes)) (acc : A) : A :=
  foldl (λ acc '(q, v), leaf q v acc) acc l.

Lemma fold_leaves_app {A} (leaf : bytes → bytes → A → A) l l' acc :
  fold_leaves leaf (l ++ l') acc = fold_leaves leaf l' (fold_leaves leaf l acc).
Proof. apply foldl_app. Qed.

Lemma traverse_value {A} (leaf : bytes → bytes → A → A) fuel db prefix v acc tr : 1 ≤ fuel →
  traverse leaf fuel db prefix (ValueNode v) acc tr = (Ok (leaf prefix v acc), tr).
Proof. intros Hf. destruct fuel; [lia|done]. Qed.

Lemma each_child_refines {A} (leaf : bytes → bytes → A → A) f db prefix cs ts :
  Forall2 (Rep db) cs ts →
  (∀ j n t, cs !! j = Some n → ts !! j = Some t → t ≠ TNil → ∀ p acc tr, ∃ tr',
     f p n acc tr = (Ok (fold_leaves leaf (tbindings p t) acc), tr') ∧ (tracer_ok tr → tracer_ok tr')) →
  ∀ i acc tr, ∃ tr',
    each_child f prefix i cs acc tr =
      (Ok (fold_leaves leaf (slot_bindings tbindings prefix i ts) acc), tr') ∧
    (tracer_ok tr → tracer_ok tr').
Proof.
  induction 1 as [|n t cs ts HR HRs IH]; intros Hf i acc tr; [by exists tr|].
  cbn [slot_bindings]. fold (slot_bindings tbindings prefix). rewrite fold_leaves_app.
  specialize (IH (λ j, Hf (S j))). destruct (decide (t = TNil)) as [->|Hn].
  { apply Rep_nil_inv in HR as ->. apply IH. }
  destruct (Hf 0 n t eq_refl eq_refl Hn (prefix ++ [z2b (Z.of_nat i)]) acc tr) as (tr1 & E1 & Ht1).
  destruct (IH (S i) (fold_leaves leaf (tbindings (prefix ++ [z2b (Z.of_nat i)]) t) acc) tr1) as (tr2 & E2 & Ht2).
  exists tr2. split; [|auto]. destruct n; [inversion HR; subst; done|..];
    cbn [each_child]; by rewrite (TM_bind_ok _ _ _ _ _ E1).
Qed.

(** Resolving a hash node costs one more unit of fuel. *)
Definition hash_cost (n : Node) : nat := match n with HashNode _ => 1 | _ => 0 end.

Lemma traverse_refines {A} (leaf : bytes → bytes → A → A) db fuel : ∀ n t prefix acc tr,
  Rep db n t → wf_root t ∨ (∃ v, t = TValue v) → tneed t + hash_cost n ≤ fuel →
  ∃ tr', traverse leaf fuel db prefix n acc tr = (Ok (fold_leaves leaf (tbindings prefix t) acc), tr') ∧
    (tracer_ok tr → tracer_ok tr').
Proof.
  induction fuel as [|fuel IH]; intros n t prefix acc tr HR Ht Hf; [destruct t; simpl in Hf; lia|].
  inversion HR as [|v|? Hs|k n' f t' HR' _ _|cs f ts HRs _ _]; subst; cbn [traverse hash_cost] in *.
  - by exists tr.
  - by exists tr.
  - destruct (resolve_ok db t prefix tr Hs) as (n & E & HRn & Hr & _).
    rewrite (TM_bind_ok _ _ _ _ _ E).
    destruct (IH n t prefix acc (onRead prefix (blob t) tr) HRn Ht) as (tr' & E' & Htr').
    { destruct n; simpl in *; by try lia. }
    exists tr'. split; [done|]. intros Htr. by apply Htr', onRead_ok.
  - apply (IH n' t' (prefix ++ k)); [done| |cbn [tneed] in Hf; destruct n'; simpl; lia].
    destruct Ht as [[|Hw]|[? ?]]; [done| |done]. inversion Hw; subst; [right; eauto|left; by right].
  - destruct Ht as [[|Hw]|[? ?]]; [done| |done]. inversion Hw as [| |? Hlen Hlo Hhi _]; subst.
    cbn [tbindings]. apply (each_child_refines leaf (traverse leaf fuel db) db prefix cs ts HRs).
    intros j n t Hn Ht Hne p acc' tr'. pose proof (tneed_child ts j t Ht). apply IH.
    + by eapply Forall2_lookup_lr.
    + pose proof (lookup_lt_Some _ _ _ Ht). destruct (decide (j = 16)) as [->|].
      * destruct (Hhi t Ht Hne) as (v & -> & _). right. eauto.
      * left. right. apply (Hlo j); [lia|done..].
    + destruct n; simpl; lia.
Qed.

(** The whole-trie walks on a trie that implements [m]. *)
Lemma walk_all_implements {A} (leaf : bytes → bytes → A → A) init t m : Implements t m →
  ∃ T fuel0, holds T m ∧ ∀ fuel, fuel0 ≤ fuel → ∃ t',
    walk_all (traverse leaf) fuel init t = (Ok (fold_leaves leaf (tbindings [] T) init), t') ∧
    Implements t' m ∧ same_config t t'.
Proof.
  intros (T & Hc & HT & HR & Htr). exists T, (tneed T + 1). split; [done|]. intros fuel Hf.
  destruct (traverse_refines leaf (reader t) fuel (root t) T [] init (tracer t)) as (tr' & E & Htr');
    [done|left; apply HT|destruct (root t); simpl; lia|].
  exists (set_tracer tr' t). unfold walk_all. rewrite Hc, (with_tracer_ok _ _ _ _ E).
  split; [done|]. split; [|done]. exists T. repeat (split; [done|]). by apply Htr'.
Qed.

Lemma count_fold l acc : fold_leaves (λ _ _ count, (count + 1)%Z) l acc = (acc + Z.of_nat (length l))%Z.
Proof.
  revert acc. induction l as [|[q v] l IH]; intros acc; [simpl; lia|].
  change (fold_leaves (λ _ _ count, (count + 1)%Z) l (acc + 1)%Z = (acc + Z.of_nat (S (length l)))%Z).
  rewrite IH. lia.
Qed.

Lemma Count_implements t m : Implements t m → ∃ fuel0, ∀ fuel, fuel0 ≤ fuel → ∃ t',
  Count fuel t = (Ok (Z.of_nat (size m)), t') ∧ Implements t' m ∧ same_config t t'.
Proof.
  intros Hm. destruct (walk_all_implements (λ _ _ count, (count + 1)%Z) 0%Z t m Hm) as (T & f0 & HT & Hw).
  exists f0. intros fuel Hf. destruct (Hw fuel Hf) as (t' & E & HI). exists t'. split; [|done].
  unfold Count, countRecursive. rewrite E, count_fold, (tbindings_holds T m HT), length_fmap, length_map_to_list.
  done.
Qed.

(** Export keys are distinct: a hex key ends at its terminator. *)
#[export] Instance export_key_inj : Inj (=) (=) (λ k, export_key (KeybytesToHex k)).
Proof.
  intros k k' E. apply hex_EncodeToString_inj in E.
  apply KeybytesToHex_inj. apply app_eq_inv in E as [(a & E1 & _)|(a & E1 & _)].
  - assert (a = []) as -> by (eapply (hexkey_prefix_free (KeybytesToHex k'));
      [apply KeybytesToHex_hexkey|rewrite <- E1; apply KeybytesToHex_hexkey]).
    by rewrite app_nil_r in E1.
  - assert (a = []) as -> by (eapply (hexkey_prefix_free (KeybytesToHex k));
      [apply KeybytesToHex_hexkey|rewrite <- E1; apply KeybytesToHex_hexkey]).
    by rewrite app_nil_r in E1.
Qed.

Lemma insert_fold_lookup g l (d : gmap string bytes) x v : NoDup ((g ∘ fst) <$> l) →
  fold_leaves (λ q w d, <[g q := w]> d) l d !! x = Some v ↔
  (∃ q, (q, v) ∈ l ∧ g q = x) ∨ (x ∉ (g ∘ fst) <$> l ∧ d !! x = Some v).
Proof.
  revert d. induction l as [|[q w] l IH]; intros d Hnd.
  { unfold fold_leaves. simpl. split; [intros; right; split; [by apply not_elem_of_nil|done]|].
    intros [(q & Hq & _)|[_ ?]]; [by apply not_elem_of_nil in Hq|done]. }
  apply NoDup_cons in Hnd as [Hn Hnd].
  change (fold_leaves (λ q w d, <[g q := w]> d) l (<[g q := w]> d) !! x = Some v ↔
   (∃ q', (q', v) ∈ (q, w) :: l ∧ g q' = x) ∨ (x ∉ g q :: ((g ∘ fst) <$> l) ∧ d !! x = Some v)).
  rewrite IH by done. rewrite not_elem_of_cons, lookup_insert_Some. setoid_rewrite elem_of_cons.
  simpl in Hn. split.
  - intros [(q' & ? & ?)|[Hx [[<- <-]|[Hne ?]]]]; [left; eauto|left; eauto|right; naive_solver].
  - intros [(q' & [[= -> ->]|Hin] & <-)|[[Hne Hx] Hd]]; [right; auto|left; eauto|right; auto].
Qed.

Lemma GetAll_implements t m : Implements t m → ∃ fuel0, ∀ fuel, fuel0 ≤ fuel → ∃ t',
  GetAll fuel t = (Ok (kmap (λ k, export_key (KeybytesToHex k)) m), t') ∧
  Implements t' m ∧ same_config t t'.
Proof.
  intros Hm. destruct (walk_all_implements (λ q v d, <[export_key q := v]> d) (∅ : gmap string bytes) t m Hm)
    as (T & f0 & HT & Hw).
  exists f0. intros fuel Hf. destruct (Hw fuel Hf) as (t' & E & HI). exists t'. split; [|done].
  unfold GetAll, getAll. rewrite E. do 2 f_equal. pose proof (tbindings_holds T m HT) as Hp.
  apply map_eq. intros x. apply option_eq. intros v. rewrite insert_fold_lookup.
  - rewrite lookup_kmap_Some by apply _. setoid_rewrite Hp. setoid_rewrite list_elem_of_fmap. split.
    + intros [(q & ([k w] & [= -> ->] & Hin) & <-)|[_ Hx]]; [|by rewrite lookup_empty in Hx].
      apply elem_of_map_to_list in Hin. eauto.
    + intros (k & -> & Hk). left. exists (KeybytesToHex k). split; [|done].
      exists (k, v). split; [done|]. by apply elem_of_map_to_list.
  - rewrite Hp, <- list_fmap_compose.
    apply NoDup_fmap_2_strong; [|apply NoDup_map_to_list].
    intros [k w] [k' w'] H1' H2' Ek. simpl in Ek. apply export_key_inj in Ek as ->.
    apply elem_of_map_to_list in H1', H2'. congruence.
Qed.

End TraversalFacts.
