(* ===== verification/TrieTheorems.v ===== *)
(** * The trie's contract

    The properties of the Merkle Patricia trie, for any Keccak-256 and any protobuf
    codec that satisfy the laws of [Interfaces], and their instances at concrete
    tries under the stand-in hash and codec of [Toy]. *)

From S2P Require Import Prelude Interfaces HexEncoding Node Tracer Trie TrieSpec Merkle TrieRefine TrieMap Hasher Commit CommitRefine Traversal.
From Stdlib Require Import Strings.Byte.

(** ** A concrete codec *)

Module Toy.
Export ToyCrypto ToyProto.

#[export] Instance MPTNode_eq_dec : EqDecision MPTNode.
Proof. solve_decision. Defined.
#[export] Instance MPTFullNode_eq_dec : EqDecision MPTFullNode.
Proof. solve_decision. Defined.
#[export] Instance MPTShortNode_eq_dec : EqDecision MPTShortNode.
Proof. solve_decision. Defined.

#[export] Instance MPTNode_ser : ToyProto.Ser MPTNode :=
  ToyProto.ser_iso (λ n, (mpt_Type n, mpt_Data n)) (λ '(t, d), {| mpt_Type := t; mpt_Data := d |})
    (λ n, match n with Build_MPTNode _ _ => eq_refl end).
#[export] Instance MPTFullNode_ser : ToyProto.Ser MPTFullNode :=
  ToyProto.ser_iso (λ n, (mpt_Nodes n, mpt_full_Value n))
    (λ '(t, d), {| mpt_Nodes := t; mpt_full_Value := d |})
    (λ n, match n with Build_MPTFullNode _ _ => eq_refl end).
#[export] Instance MPTShortNode_ser : ToyProto.Ser MPTShortNode :=
  ToyProto.ser_iso (λ n, (mpt_Key n, mpt_Value n)) (λ '(t, d), {| mpt_Key := t; mpt_Value := d |})
    (λ n, match n with Build_MPTShortNode _ _ => eq_refl end).

#[export] Instance toy_trie_proto : TrieProto := {|
  node_proto := ToyProto.toy_proto {| mpt_Type := 0; mpt_Data := [] |};
  full_proto := ToyProto.toy_proto {| mpt_Nodes := []; mpt_full_Value := [] |};
  short_proto := ToyProto.toy_proto {| mpt_Key := []; mpt_Value := [] |};
|}.

#[export] Instance toy_trie_proto_laws : TrieProtoLaws.
Proof. split; [apply ToyProto.toy_proto_laws..|done|done]. Qed.

(** Keys, values and update sequences for the examples. *)
Definition key (n : Z) : bytes := replicate 31 x00 ++ [z2b n].
Definition val (n : Z) : bytes := [z2b n; x2a].

End Toy.

Import Toy.

(** ** The specification: a finite map with a root hash *)

Inductive op :=
  | OGet (k : bytes)
  | OUpdate (k v : bytes)
  | OParallelGet (ks : list bytes)
  | OHash
  | OCommit (collectLeaf : bool).

Inductive reply :=
  | RValue (v : option bytes)
  | RDone
  | RValues (vs : list (option bytes))
  | RRoot (h : bytes).

Section Spec.
Context `{EthCommon} `{TrieProto}.

(** The canonical tree of a map. *)
Definition tree_of (m : gmap bytes bytes) : tree :=
  map_fold (λ k v T, tinsert T (KeybytesToHex k) v) TNil m.

Definition run_op (o : op) : comp MerklePatriciaTrie trie_error reply :=
  match o with
  | OGet k => v ← Get k; mret (RValue v)
  | OUpdate k v => _ ← Update k v; mret RDone
  | OParallelGet ks => vs ← ParallelGet ks; mret (RValues vs)
  | OHash => h ← TrieHash; mret (RRoot h)
  | OCommit cl => '(h, _, _) ← TrieCommit cl; mret (RRoot h)
  end.

Fixpoint run_ops (os : list op) : comp MerklePatriciaTrie trie_error (list reply) :=
  match os with
  | [] => mret []
  | o :: os => r ← run_op o; rs ← run_ops os; mret (r :: rs)
  end.

Definition spec_op (hk : bytes → bytes) (o : op) (m : gmap bytes bytes) : reply * gmap bytes bytes :=
  match o with
  | OGet k => (RValue (m !! hk k), m)
  | OUpdate k v => (RDone, map_update (hk k) v m)
  | OParallelGet ks => (RValues ((λ k, m !! hk k) <$> ks), m)
  | OHash | OCommit _ => (RRoot (root_of (tree_of m)), m)
  end.

Fixpoint spec_ops (hk : bytes → bytes) (os : list op) (m : gmap bytes bytes) : list reply :=
  match os with
  | [] => []
  | o :: os => let '(r, m) := spec_op hk o m in r :: spec_ops hk os m
  end.

End Spec.

Lemma holds_values T m k v : holds T m → m !! k = Some v → v ≠ [].
Proof.
  intros (Hw & Hl & _) Hk. rewrite <- Hl in Hk. by apply wf_root_lookup_key in Hk as [_ ?].
Qed.

Lemma tree_of_holds m : (∀ k v, m !! k = Some v → v ≠ []) → holds (tree_of m) m.
Proof.
  unfold tree_of. induction m as [|k v m Hk Hfirst IH] using map_first_key_ind; intros Hv.
  { rewrite map_fold_empty. apply holds_empty. }
  rewrite map_fold_insert_first_key by done.
  assert (v ≠ []) as Hne by (apply (Hv k); by rewrite lookup_insert_eq).
  pose proof (holds_update (map_fold (λ k v T, tinsert T (KeybytesToHex k) v) TNil m) m k v) as Hup.
  unfold map_update in Hup. rewrite !(decide_False (P := v = [])) in Hup by done. apply Hup, IH.
  intros k' v' Hk'. apply (Hv k'). rewrite lookup_insert_ne; [done|]. congruence.
Qed.

Lemma tree_of_unique T m : holds T m → tree_of m = T.
Proof.
  intros HT. eapply holds_unique; [|done]. apply tree_of_holds. intros k v. by eapply holds_values.
Qed.

Section Contract.
Context `{EthCommonLaws} `{TrieProtoLaws}.

Lemma TrieCommit_implements cl t m : Implements t m →
  ∃ ns old t', TrieCommit cl t = (Ok (root_of (tree_of m), ns, old), t') ∧
    covers (reader t) (tree_of m) ns ∧ Implements t' m ∧ same_config t t'.
Proof.
  intros (T & Hc & HT & HR & Htr). rewrite (tree_of_unique T m HT).
  destruct (TrieCommit_refines cl t T (proj1 HT) HR) as (ns & E & Hcov).
  eexists _, _, _. split; [done|]. split; [done|]. split; [|done].
  exists T. repeat (split; [done|]). apply newTracer_ok.
Qed.

Lemma run_op_implements o t m : Implements t m → ∃ t',
  run_op o t = (Ok (spec_op (hashKey t) o m).1, t') ∧ Implements t' (spec_op (hashKey t) o m).2 ∧
  same_config t t'.
Proof.
  intros Hm. destruct o as [k|k v|ks| |cl]; cbn [run_op spec_op fst snd].
  - destruct (Get_implements t m k Hm) as (t' & E & ?). exists t'. by rewrite (comp_bind_ok _ _ _ _ _ E).
  - destruct (Update_implements t m k v Hm) as (t' & E & ?). exists t'. by rewrite (comp_bind_ok _ _ _ _ _ E).
  - destruct (ParallelGet_implements ks t m Hm) as (t' & E & ?). exists t'. by rewrite (comp_bind_ok _ _ _ _ _ E).
  - destruct (TrieHash_implements t m Hm) as (T & t' & HT & E & ?). exists t'.
    by rewrite (comp_bind_ok _ _ _ _ _ E), (tree_of_unique T m HT).
  - destruct (TrieCommit_implements cl t m Hm) as (ns & old & t' & E & _ & ?). exists t'.
    by rewrite (comp_bind_ok _ _ _ _ _ E).
Qed.

Lemma run_ops_implements os t m : Implements t m → ∃ t', run_ops os t = (Ok (spec_ops (hashKey t) os m), t').
Proof.
  revert t m. induction os as [|o os IH]; intros t m Hm; [by exists t|].
  destruct (run_op_implements o t m Hm) as (t1 & E1 & Hm1 & Hcfg).
  destruct (IH t1 _ Hm1) as (t2 & E2). exists t2. cbn [run_ops spec_ops].
  rewrite (comp_bind_ok _ _ _ _ _ E1). rewrite (comp_bind_ok _ _ _ _ _ E2).
  destruct (spec_op (hashKey t) o m) as [r m']. simpl. 
  assert (∀ m, spec_ops (hashKey t1) os m = spec_ops (hashKey t) os m) as Hk; [|by rewrite Hk].
  clear -Hcfg. induction os as [|o os IH]; intros m; [done|]. cbn [spec_ops].
  assert (spec_op (hashKey t1) o m = spec_op (hashKey t) o m) as ->; [|destruct (spec_op _ o m); by rewrite IH].
  destruct o; simpl; rewrite ?(hashKey_config t t1) by done; try done.
  do 2 f_equal. apply list_fmap_ext. intros i k _. by rewrite (hashKey_config t t1).
Qed.

(** C1: Starting from an empty trie, any sequence of [Get], [Update], [ParallelGet], [Hash]
    and [Commit] succeeds and answers exactly what a finite map keyed by [hashKey] answers,
    the root hash being a function of that map alone. *)
Theorem trie_refines_map db h t os :
  New EmptyRootHash db h = Ok t →
  ∃ t', run_ops os t = (Ok (spec_ops (hashKey t) os ∅), t').
Proof. intros Ht. apply run_ops_implements. by eapply New_empty_implements. Qed.

(** C3: The root hash does not depend on the order of updates: two update sequences that
    describe the same map, each on a fresh trie, end with equal [Hash]. *)
Theorem root_hash_canonical db1 db2 h t1 t2 ups1 ups2 :
  New EmptyRootHash db1 h = Ok t1 → New EmptyRootHash db2 h = Ok t2 →
  model_updates (hashKey t1) ups1 ∅ = model_updates (hashKey t2) ups2 ∅ →
  ∃ r s1 s2, (_ ← run_updates ups1; TrieHash) t1 = (Ok r, s1) ∧
             (_ ← run_updates ups2; TrieHash) t2 = (Ok r, s2).
Proof.
  intros E1 E2 Em. destruct (New_empty_implements db1 h t1 E1) as [I1 _].
  destruct (New_empty_implements db2 h t2 E2) as [I2 _].
  destruct (run_updates_implements ups1 t1 ∅ I1) as (u1 & R1 & J1 & _).
  destruct (run_updates_implements ups2 t2 ∅ I2) as (u2 & R2 & J2 & _).
  destruct (TrieHash_implements u1 _ J1) as (T1 & v1 & HT1 & X1 & _).
  destruct (TrieHash_implements u2 _ J2) as (T2 & v2 & HT2 & X2 & _).
  exists (root_of T1), v1, v2. rewrite (comp_bind_ok _ _ _ _ _ R1), (comp_bind_ok _ _ _ _ _ R2), X1, X2.
  rewrite Em in HT1. by rewrite (holds_unique T1 T2 _ HT1 HT2).
Qed.

Lemma holds_key_length T m L : holds T m → (∀ k v, m !! k = Some v → length k = L) →
  ∀ k v, tlookup T k = Some v → length k = 2 * L + 1.
Proof.
  intros (Hw & Hl & Hk) HL q v Hq. destruct (Hk q v Hq) as [k ->]. rewrite Hl in Hq.
  rewrite <- (HL k v Hq). apply KeybytesToHex_length.
Qed.

Lemma commit_reload cl t m L h : Implements t m →
  (∀ k v, m !! k = Some v → length k = L) → hash_good (tree_of m) →
  ∃ ns old t', TrieCommit cl t = (Ok (root_of (tree_of m), ns, old), t') ∧ same_config t t' ∧
    ∀ batch, batch ≡ₚ batch_of ns → ∃ t2,
      New (root_of (tree_of m)) (put_all batch (reader t)) h = Ok t2 ∧
      reader t2 = put_all batch (reader t) ∧ isHash t2 = h ∧ Implements t2 m.
Proof.
  intros Hm HL Hgood. destruct (TrieCommit_implements cl t m Hm) as (ns & old & t' & E & Hcov & _ & Hcfg).
  exists ns, old, t'. split; [done|]. split; [done|]. intros batch Hp.
  assert (holds (tree_of m) m) as HT.
  { destruct Hm as (T & _ & HT & _). by rewrite (tree_of_unique T m HT). }
  destruct (proj1 HT) as [Hnil|Hw].
  { rewrite Hnil in *. cbn [root_of].
    set (t2 := {| root := NilNode; committed := false; reader := put_all batch (reader t);
                  tracer := newTracer; isHash := h |}).
    exists t2. split.
    { unfold New. rewrite (bool_decide_false (EmptyRootHash ≠ EmptyRootHash)) by tauto. by rewrite andb_false_r. }
    split; [done|]. split; [done|]. exists TNil. repeat (split; [done|]). split; [constructor|apply newTracer_ok]. }
  assert (no_branch_values (tree_of m)) as Hnb.
  { eapply (fixed_length_no_branch_values _ Hw (2 * L + 1)). by eapply holds_key_length. }
  pose proof (stored_after_write (reader t) (tree_of m) ns batch Hw Hnb Hgood Hcov Hp) as Hst.
  destruct (New_stored (put_all batch (reader t)) (tree_of m) h Hw Hst) as (t2 & En & HR & Hrd & Hh & Hc & Htr).
  - apply Hgood.
  - destruct Hgood as (_ & Hz & _). rewrite Forall_forall in Hz. apply Hz.
    inversion Hw; left.
  - exists t2. assert (root_of (tree_of m) = merkle (tree_of m)) as -> by (by inversion Hw).
    repeat (split; [done|]). exists (tree_of m). rewrite Hrd. done.
Qed.


(** [Count] returns the number of bindings of the map the trie implements (with enough
    fuel for the depth of the trie), and leaves the trie's contents unchanged. *)
Theorem count_is_size t m : Implements t m → ∃ fuel0, ∀ fuel, fuel0 ≤ fuel → ∃ t',
  Count fuel t = (Ok (Z.of_nat (size m)), t') ∧ Implements t' m.
Proof.
  intros Hm. destruct (Count_implements t m Hm) as (f & Hf). exists f. intros fuel Hle.
  destruct (Hf fuel Hle) as (t' & E & ? & _). by exists t'.
Qed.

(** [GetAll] returns exactly one entry per binding, under the export key of its hex path. *)
Theorem getall_is_kmap t m : Implements t m → ∃ fuel0, ∀ fuel, fuel0 ≤ fuel → ∃ t',
  GetAll fuel t = (Ok (kmap (λ k, export_key (KeybytesToHex k)) m), t') ∧ Implements t' m.
Proof.
  intros Hm. destruct (GetAll_implements t m Hm) as (f & Hf). exists f. intros fuel Hle.
  destruct (Hf fuel Hle) as (t' & E & ? & _). by exists t'.
Qed.

(** ** Root hash of a map, export and import *)

Lemma model_updates_perm hk ups ups' : ups ≡ₚ ups' → NoDup (hk <$> ups.*1) →
  ∀ m, model_updates hk ups m = model_updates hk ups' m.
Proof.
  induction 1 as [|[k v] ups ups' Hp IH|[k v] [k' v'] ups|ups1 ups2 ups3 Hp1 IH1 Hp2 IH2]; intros Hnd m.
  - done.
  - cbn [model_updates]. apply IH. by apply NoDup_cons in Hnd as [_ ?].
  - cbn [model_updates]. f_equal. apply NoDup_cons in Hnd as [Hn _]. apply not_elem_of_cons in Hn as [Hn _].
    simpl in Hn. apply map_eq. intros q. rewrite !map_update_lookup.
    destruct (decide (q = hk k)), (decide (q = hk k')); congruence.
  - rewrite IH1, IH2; [done| |done]. by rewrite <- Hp1.
Qed.

Lemma update_ignoring_implements FromHex data t m : Implements t m →
  ∃ t', update_ignoring FromHex data t = (Ok tt, t') ∧
    Implements t' (model_updates (hashKey t) (prod_map FromHex id <$> data) m).
Proof.
  revert t m. induction data as [|[k v] data IH]; intros t m Hm; [by exists t|].
  destruct (Update_implements t m (FromHex k) v Hm) as (t1 & E1 & Hm1 & Hcfg).
  destruct (IH t1 _ Hm1) as (t2 & E2 & Hm2). exists t2. cbn [update_ignoring].
  unfold c_try. rewrite E1. split; [done|]. cbn [fmap list_fmap model_updates prod_map fst snd id].
  assert (∀ l m, model_updates (hashKey t) l m = model_updates (hashKey t1) l m) as ->; [|done].
  clear -Hcfg. induction l as [|[a b] l IH]; intros m; [done|]. cbn [model_updates].
  by rewrite IH, (hashKey_config t t1).
Qed.

(** [GetRootHash] gives the same root whatever order Go's map iteration visits the entries
    in, as long as [FromHex] sends no two keys to the same bytes. *)
Theorem get_root_hash_order_independent FromHex data data' :
  data ≡ₚ data' → NoDup (FromHex <$> data.*1) →
  ∃ r, GetRootHash FromHex data = Ok r ∧ GetRootHash FromHex data' = Ok r.
Proof.
  intros Hp Hnd. unfold GetRootHash, New. rewrite (bool_decide_false (zeroHash ≠ zeroHash)) by tauto.
  cbn [andb]. set (t := {| root := NilNode |}).
  assert (Implements t ∅) as Hm.
  { exists TNil. repeat (split; [done|]). split; [apply holds_empty|]. split; [constructor|apply newTracer_ok]. }
  destruct (update_ignoring_implements FromHex data t ∅ Hm) as (t1 & E1 & M1).
  destruct (update_ignoring_implements FromHex data' t ∅ Hm) as (t2 & E2 & M2).
  destruct (TrieHash_implements t1 _ M1) as (T1 & s1 & H1' & X1 & _).
  destruct (TrieHash_implements t2 _ M2) as (T2 & s2 & H2' & X2 & _).
  exists (root_of T1). rewrite (comp_bind_ok _ _ _ _ _ E1), (comp_bind_ok _ _ _ _ _ E2), X1, X2.
  rewrite (model_updates_perm _ _ (prod_map FromHex id <$> data')) in H1'.
  - by rewrite (holds_unique T1 T2 _ H1' H2').
  - by rewrite Hp.
  - assert (hashKey t <$> (prod_map FromHex id <$> data).*1 = FromHex <$> data.*1) as ->; [|done].
    rewrite <- !list_fmap_compose. apply list_fmap_ext. intros i [k v] _. simpl.
    unfold hashKey. simpl. by rewrite orb_true_r.
Qed.

(** [ImportTrie] cannot load what [ExportTrie] wrote: it opens the exported root on an
    empty memory database, so every non-empty trie fails with a missing root node. *)
Theorem export_import_fails t m : Implements t m → m ≠ ∅ → hash_good (tree_of m) →
  ∃ fuel d t', ExportTrie fuel t = (Ok d, t') ∧
    ImportTrie d = Fail (MissingNodeError (RootHash d) []).
Proof.
  intros Hm Hne Hgood. destruct (TrieHash_implements t m Hm) as (T & t1 & HT & E1 & Hm1 & _).
  rewrite (tree_of_unique T m HT) in Hgood.
  destruct (GetAll_implements t1 m Hm1) as (f & Hf). destruct (Hf f (le_n _)) as (t2 & E2 & _).
  exists f, {| RootHash := root_of T; KeyValues := kmap (λ k, export_key (KeybytesToHex k)) m |}, t2.
  unfold ExportTrie. rewrite (comp_bind_ok _ _ _ _ _ E1), (comp_bind_ok _ _ _ _ _ E2). split; [done|].
  pose proof HT as (Hw & Hl & _). pose proof (root_of_length T Hw) as Hlen. destruct Hw as [->|Hw].
  { destruct Hne. apply map_eq. intros k. by rewrite <- Hl, lookup_empty. }
  assert (root_of T = merkle T) as Er by (by inversion Hw). rewrite Er in *.
  destruct Hgood as (_ & Hz & He). rewrite Forall_forall in Hz.
  unfold ImportTrie, New. cbn [RootHash]. rewrite !bool_decide_true; [|done|apply Hz; by inversion Hw; left].
  cbn [andb]. unfold resolveAndTrack, reader_node, mbind, TM_bind, comp_bind, empty_db.
  by rewrite BytesToHash_32.
Qed.

(** ** Missing nodes *)

(** C40: When a branch's child is a hash whose record is missing, [Update] of a value below it
    succeeds and replaces the whole subtree by one leaf, while deleting the same key reports
    the missing node. *)
Theorem update_over_missing_node t cs f k x krest h v :
  committed t = false → root t = FullNode cs f → length cs = 17 →
  KeybytesToHex (hashKey t k) = x :: krest → krest ≠ [] →
  cs !! Z.to_nat (b2z x) = Some (HashNode h) → reader t (BytesToHash h) = None → v ≠ [] →
  (∃ t', Update k v t = (Ok tt, t') ∧
     root t' = FullNode (<[Z.to_nat (b2z x) := ShortNode krest (ValueNode v) NewFlag]> cs) NewFlag) ∧
  (∃ t', Update k [] t = (Fail (MissingNodeError (BytesToHash h) [x]), t') ∧ root t' = root t).
Proof.
  intros Hc Hr Hlen Hk Hkr Hx Hmiss Hv. unfold Update, update. rewrite Hc, Hk, Hr.
  pose proof (lookup_lt_Some _ _ _ Hx) as Hlt. set (i := Z.to_nat (b2z x)) in *.
  destruct krest as [|y krest]; [done|].
  assert (∃ n, walk_fuel (x :: y :: krest) = S (S (S n))) as [n ->] by (unfold walk_fuel; simpl; eauto).
  assert (∀ tr, resolveAndTrack (reader t) h [x] tr = (Fail (MissingNodeError (BytesToHash h) [x]), tr)) as Hres.
  { intros tr. unfold resolveAndTrack, reader_node. by rewrite Hmiss. }
  split.
  - rewrite bool_decide_true by (by destruct v). unfold with_tracer. eexists.
    cbn [insert]. unfold child. fold i. rewrite (TM_or_panic _ _ _ Hx). cbn [app].
    unfold or_panic, mbind, TM_bind, comp_bind, mret, TM_ret, comp_ret, c_try. rewrite Hres.
    unfold c_modify, set_child. fold i. rewrite (proj2 (Nat.ltb_lt _ _)) by lia. simpl. done.
  - rewrite bool_decide_false by (simpl; tauto). unfold with_tracer. eexists.
    cbn [delete]. rewrite (TM_or_panic (head (x :: y :: krest)) x _ eq_refl). unfold child. fold i.
    rewrite (TM_or_panic _ _ _ Hx). cbn [app tail]. unfold mbind, TM_bind, comp_bind.
    rewrite Hres. split; [reflexivity|]. exact Hr.
Qed.

(** In a hashing trie a key [k] and the 32-byte key [Keccak256 k] name the same entry:
    what is written under the first is read back under the second. *)
Theorem hashed_key_alias t m k v : Implements t m → isHash t = true → length k ≠ 32 → v ≠ [] →
  ∃ t1 t2, Update k v t = (Ok tt, t1) ∧ Get (Keccak256 k) t1 = (Ok (Some v), t2).
Proof.
  intros Hm Hh Hk Hv. destruct (Update_implements t m k v Hm) as (t1 & E1 & M1 & Hcfg).
  destruct (Get_implements t1 _ (Keccak256 k) M1) as (t2 & E2 & _). exists t1, t2. split; [done|].
  rewrite E2. do 2 f_equal. rewrite (hashKey_config t t1) by done. rewrite map_update_lookup.
  rewrite (decide_False (P := v = [])) by done. rewrite decide_True; [done|].
  unfold hashKey. rewrite Hh, Keccak256_length. rewrite (bool_decide_true (32 = 32)) by done.
  by rewrite (bool_decide_false (length k = 32)).
Qed.

End Contract.

(** ** Keys and node records *)

(** Key encodings are lossless: nibbles decode to the key, the compact form decodes to
    the hex path, and the in-place encoder computes the same compact bytes. *)
Theorem key_encodings_roundtrip k hex : hexpath hex → hex ≠ [] →
  HexToKeybytes (KeybytesToHex k) = Some k ∧ CompactToHex (HexToCompact hex) = hex ∧
  hexToCompactInPlace hex = Some (HexToCompact hex).
Proof.
  intros Hh Hne. split; [apply HexToKeybytes_KeybytesToHex|].
  split; [by apply CompactToHex_HexToCompact|by apply hexToCompactInPlace_eq].
Qed.

Lemma key_encodings_roundtrip_witness :
  HexToKeybytes (KeybytesToHex [x12; xff]) = Some [x12; xff] ∧
  CompactToHex (HexToCompact [x01; x02; x0f; x10]) = [x01; x02; x0f; x10] ∧
  hexToCompactInPlace [x01; x02; x0f; x10] = Some (HexToCompact [x01; x02; x0f; x10]).
Proof.
  apply (key_encodings_roundtrip [x12; xff] [x01; x02; x0f; x10]); [|done].
  left. exists [x01; x02; x0f]. split; [done|]. by repeat constructor.
Defined.

Section Records.
Context `{EthCommonLaws} `{TrieProtoLaws}.

(** A committed node decodes to itself: a leaf or extension keeps its hex key and its
    value or child hash, a branch of non-zero child hashes keeps all seventeen slots; the
    decoded node is clean and carries the hash it was loaded under. *)
Theorem node_record_roundtrip h k v cs :
  hexpath k → length cs = 17 →
  Forall (λ c, c = NilNode ∨ ∃ r, c = HashNode r ∧ length r = 32 ∧ r ≠ zeroHash) cs →
  let clean := {| Hash := Some h; Dirty := false |} in
  (∃ b, NodeToBytes (ShortNode (HexToCompact k) (if HasTerm k then ValueNode v else HashNode v) NewFlag) = Some b ∧
     DecodeNode (Some h) b = Some (ShortNode k (if HasTerm k then ValueNode v else HashNode v) clean)) ∧
  (∃ b, NodeToBytes (FullNode cs NewFlag) = Some b ∧ DecodeNode (Some h) b = Some (FullNode cs clean)).
Proof.
  intros Hk Hlen Hcs clean. split.
  - unfold NodeToBytes. eexists. split; [by destruct (HasTerm k)|]. by apply DecodeNode_short.
  - set (slot := λ c : Node, match c with HashNode r => r | _ => zeroHash end).
    assert (mapM (λ c, match c with NilNode => Some zeroHash | _ => Marshal c end) cs = Some (slot <$> cs)) as E.
    { apply mapM_Some, Forall2_fmap_r, Forall_Forall2_diag. eapply Forall_impl; [exact Hcs|].
      by intros c [->|(r & -> & _)]. }
    unfold NodeToBytes. cbn [Marshal]. rewrite E. eexists. split; [done|].
    rewrite DecodeNode_full by (by rewrite length_fmap). do 2 f_equal. rewrite <- list_fmap_compose.
    rewrite <- (list_fmap_id cs) at 2. apply list_fmap_ext. intros i c Hi.
    rewrite Forall_lookup in Hcs. destruct (Hcs i c Hi) as [->|(r & -> & Hr & Hz)]; simpl.
    + rewrite decide_True; [done|]. by apply BytesToHash_32.
    + rewrite BytesToHash_32, decide_False by done. done.
Qed.

End Records.

Lemma hex_of_string_ne (path : string) : path ≠ EmptyString →
  hex_EncodeToString (String.list_byte_of_string path) ≠ path.
Proof.
  intros Hp E. apply (f_equal String.length) in E.
  assert (String.length (hex_EncodeToString (String.list_byte_of_string path)) = 2 * String.length path) as L.
  { clear. induction path as [|c path IH]; [done|].
    change (S (S (String.length (hex_EncodeToString (String.list_byte_of_string path)))) =
      2 * S (String.length path)). lia. }
  rewrite L in E. destruct path; [done|]. simpl in E. lia.
Qed.

(** [NodeSet.Merge] hex-encodes the other set's keys, which already are hex strings, once
    more: the merged node is not found under its own path, whose entry stays as it was. *)
Theorem merge_misplaces_nodes path n set : path ≠ EmptyString →
  Nodes (Merge [(path, n)] set) !! path = Nodes set !! path ∧
  Nodes (Merge [(path, n)] set) !! hex_EncodeToString (String.list_byte_of_string path) = Some n.
Proof.
  intros Hp. cbn [Merge foldl]. unfold MergeOne.
  assert (∀ s : NodeSet, Nodes s = Nodes set →
    Nodes (AddNode (String.list_byte_of_string path) n s) !! path = Nodes set !! path ∧
    Nodes (AddNode (String.list_byte_of_string path) n s) !!
      hex_EncodeToString (String.list_byte_of_string path) = Some n) as Hadd.
  { intros s Es. unfold AddNode. cbn [Nodes]. rewrite Es, lookup_insert_eq. split; [|done].
    rewrite lookup_insert_ne; [done|]. apply hex_of_string_ne, Hp. }
  by destruct (Nodes set !! path); apply Hadd.
Qed.

(** ** The theorems at concrete tries *)

Definition new_trie (h : bool) : MerklePatriciaTrie :=
  {| root := NilNode; committed := false; reader := empty_db; tracer := newTracer; isHash := h |}.

Lemma new_trie_New h : New EmptyRootHash empty_db h = Ok (new_trie h).
Proof. done. Qed.

Definition some_updates : list (bytes * bytes) :=
  [(key 1, val 1); (key 2, val 2); (key 200, val 3); (key 2, [])].

Definition other_updates : list (bytes * bytes) := [(key 200, val 3); (key 1, val 1)].

Definition some_map : gmap bytes bytes := model_updates (hashKey (new_trie true)) some_updates ∅.
Definition some_trie : MerklePatriciaTrie := snd (run_updates some_updates (new_trie true)).

Lemma new_trie_implements h : Implements (new_trie h) ∅.
Proof. by eapply New_empty_implements. Qed.

Lemma some_trie_implements : Implements some_trie some_map.
Proof.
  destruct (run_updates_implements some_updates (new_trie true) ∅ (new_trie_implements true)) as (t' & E & Hm & _).
  unfold some_trie. by rewrite E.
Qed.

Lemma some_map_good : hash_good (tree_of some_map).
Proof. apply (bool_decide_unpack _). vm_compute. exact I. Qed.

Lemma some_map_keys k v : some_map !! k = Some v → length k = 32.
Proof.
  assert (map_Forall (λ k _, length k = 32) some_map) as Hf; [|by apply Hf].
  apply (bool_decide_unpack _). vm_compute. exact I.
Qed.

Lemma trie_refines_map_witness : ∃ t', run_ops [OUpdate (key 1) (val 1); OGet (key 1); OCommit true; OGet (key 2)]
    (new_trie true) = (Ok (spec_ops (hashKey (new_trie true))
      [OUpdate (key 1) (val 1); OGet (key 1); OCommit true; OGet (key 2)] ∅), t').
Proof. exact (trie_refines_map empty_db true (new_trie true) _ (new_trie_New true)). Defined.

Lemma root_hash_canonical_witness : ∃ r s1 s2,
  (_ ← run_updates some_updates; TrieHash) (new_trie true) = (Ok r, s1) ∧
  (_ ← run_updates other_updates; TrieHash) (new_trie true) = (Ok r, s2).
Proof.
  apply (root_hash_canonical empty_db empty_db true (new_trie true) (new_trie true)); [done..|].
  apply (bool_decide_unpack _). vm_compute. exact I.
Defined.


Lemma count_is_size_witness : ∃ fuel0, ∀ fuel, fuel0 ≤ fuel → ∃ t',
  Count fuel some_trie = (Ok (Z.of_nat (size some_map)), t') ∧ Implements t' some_map.
Proof. exact (count_is_size some_trie some_map some_trie_implements). Defined.

Lemma getall_is_kmap_witness : ∃ fuel0, ∀ fuel, fuel0 ≤ fuel → ∃ t',
  GetAll fuel some_trie = (Ok (kmap (λ k, export_key (KeybytesToHex k)) some_map), t') ∧ Implements t' some_map.
Proof. exact (getall_is_kmap some_trie some_map some_trie_implements). Defined.

Lemma get_root_hash_order_independent_witness : ∃ r,
  GetRootHash String.list_byte_of_string [("a", val 1); ("ab", val 2)] = Ok r ∧
  GetRootHash String.list_byte_of_string [("ab", val 2); ("a", val 1)] = Ok r.
Proof.
  apply (get_root_hash_order_independent String.list_byte_of_string [("a", val 1); ("ab", val 2)]).
  - constructor.
  - apply (bool_decide_unpack _). vm_compute. exact I.
Defined.

Lemma export_import_fails_witness : ∃ fuel d t', ExportTrie fuel some_trie = (Ok d, t') ∧
  ImportTrie d = Fail (MissingNodeError (RootHash d) []).
Proof.
  apply (export_import_fails some_trie some_map some_trie_implements); [|exact some_map_good].
  intros E. apply (f_equal size) in E. by vm_compute in E.
Defined.

(** A branch whose slot 0 was never written to the database. *)
Definition holed_trie : MerklePatriciaTrie :=
  set_root (FullNode (<[0 := HashNode (digest [x07])]> (replicate 17 NilNode)) NewFlag) (new_trie true).

Lemma update_over_missing_node_witness :
  (∃ t', Update (key 1) (val 1) holed_trie = (Ok tt, t') ∧
     root t' = FullNode (<[0 := ShortNode (tail (KeybytesToHex (key 1))) (ValueNode (val 1)) NewFlag]>
       (<[0 := HashNode (digest [x07])]> (replicate 17 NilNode))) NewFlag) ∧
  (∃ t', Update (key 1) [] holed_trie = (Fail (MissingNodeError (BytesToHash (digest [x07])) [x00]), t') ∧
     root t' = root holed_trie).
Proof.
  apply (update_over_missing_node holed_trie _ NewFlag (key 1) x00 (tail (KeybytesToHex (key 1))) (digest [x07]) (val 1));
    done.
Defined.

Lemma hashed_key_alias_witness : ∃ t1 t2, Update [x61] (val 7) some_trie = (Ok tt, t1) ∧
  Get (Keccak256 [x61]) t1 = (Ok (Some (val 7)), t2).
Proof. apply (hashed_key_alias some_trie some_map [x61] (val 7) some_trie_implements); done. Defined.

Lemma node_record_roundtrip_witness :
  let cs := <[3 := HashNode (digest [x07])]> (replicate 17 NilNode) in
  let clean := {| Hash := Some (digest []); Dirty := false |} in
  (∃ b, NodeToBytes (ShortNode (HexToCompact [x05; x10]) (ValueNode (val 1)) NewFlag) = Some b ∧
     DecodeNode (Some (digest [])) b = Some (ShortNode [x05; x10] (ValueNode (val 1)) clean)) ∧
  (∃ b, NodeToBytes (FullNode cs NewFlag) = Some b ∧
     DecodeNode (Some (digest [])) b = Some (FullNode cs clean)).
Proof.
  apply (node_record_roundtrip (digest []) [x05; x10] (val 1)).
  - left. exists [x05]. by repeat constructor.
  - done.
  - repeat (constructor; [by left|]). constructor; [|repeat (constructor; [by left|]); constructor].
    right. exists (digest [x07]). by repeat split.
Defined.

Lemma merge_misplaces_nodes_witness :
  Nodes (Merge [("0a", NewDeleted)] NewNodeSet) !! "0a" = Nodes NewNodeSet !! "0a" ∧
  Nodes (Merge [("0a", NewDeleted)] NewNodeSet) !! hex_EncodeToString (String.list_byte_of_string "0a") = Some NewDeleted.
Proof. apply (merge_misplaces_nodes "0a" NewDeleted NewNodeSet). done. Defined.

(** Commit and reload of [ups] on a fresh trie with keys stored as they are. *)
Definition reload_raw (ups : list (bytes * bytes)) : option (MerklePatriciaTrie * MerklePatriciaTrie) :=
  let '(_, t) := run_updates ups (new_trie false) in
  match TrieCommit true t with
  | (Ok (r, ns, _), t') =>
    match New r (put_all (batch_of ns) empty_db) false with Ok t2 => Some (t', t2) | _ => None end
  | _ => None
  end.

(** The one-length condition of [commit_write_reload] is needed: with [isHash] off and a key that
    is a prefix of another, its value sits in the branch's seventeenth slot, which [Unmarshal]
    reads back as a hash; after the reload its [Get] fails where it succeeded before. *)
Theorem prefix_key_lost_on_reload : ∃ t t2 h p,
  reload_raw [([x12], val 1); ([x12; x34], val 2)] = Some (t, t2) ∧
  fst (Get [x12] t) = Ok (Some (val 1)) ∧ fst (Get [x12] t2) = Fail (MissingNodeError h p) ∧
  fst (Get [x12; x34] t2) = Ok (Some (val 2)).
Proof. vm_compute. do 4 eexists. by repeat split. Qed.
