(* ===== verification/LevelDB.v ===== *)
(** * The key-value store interface ([pkg/ldb_storage/storage.go] over goleveldb)

    [LevelDBStorage] forwards [Get], [Put], [Delete] and [WriteBatch] to goleveldb,
    which is a parameter: a store with logical contents, reads that may fail, and
    atomic batches that are applied as a whole or not at all. *)

From S2P Require Import Prelude GoLib.
From Stdlib Require Import Strings.Byte.

Inductive ldb_result := Found (v : bytes) | NotFound | ReadError.

Inductive batch_op := BPut (k : string) (v : bytes) | BDelete (k : string).

Definition apply_op (m : gmap string bytes) (o : batch_op) : gmap string bytes :=
  match o with BPut k v => <[k := v]> m | BDelete k => base.delete k m end.

(** A batch is applied in order. *)
Definition apply_batch (ops : list batch_op) (m : gmap string bytes) : gmap string bytes :=
  foldl apply_op m ops.

Class LevelDB (St : Type) := {
  contents : St → gmap string bytes;
  ldb_Get : string → St → ldb_result;
  ldb_Write : list batch_op → St → option St;  (** [None]: the write failed, the store is unchanged *)
}.

Class LevelDBLaws (St : Type) `{LevelDB St} : Prop := {
  ldb_found k v s : ldb_Get k s = Found v → contents s !! k = Some v;
  ldb_notfound k s : ldb_Get k s = NotFound → contents s !! k = None;
  ldb_written ops s s' : ldb_Write ops s = Some s' → contents s' = apply_batch ops (contents s);
}.

(** The store reported a failure. *)
Definition ldb_fault `{LevelDB St} (s : St) : Prop :=
  (∃ k, ldb_Get k s = ReadError) ∨ (∃ ops, ldb_Write ops s = None).

Lemma ldb_get_content `{LevelDBLaws St} k s :
  match contents s !! k with
  | Some v => ldb_Get k s = Found v ∨ ldb_Get k s = ReadError
  | None => ldb_Get k s = NotFound ∨ ldb_Get k s = ReadError
  end.
Proof.
  destruct (ldb_Get k s) as [v| |] eqn:E.
  - rewrite (ldb_found _ _ _ E). by left.
  - rewrite (ldb_notfound _ _ E). by left.
  - destruct (contents s !! k); by right.
Qed.

(** A store that never fails. *)
Class LevelDBReliable (St : Type) `{LevelDB St} : Prop := ldb_reliable (s : St) : ¬ ldb_fault s.

(** Without a fault the store answers from its contents. *)
Lemma ldb_Get_ok `{LevelDBLaws St} k s : ¬ ldb_fault s →
  ldb_Get k s = match contents s !! k with Some v => Found v | None => NotFound end.
Proof.
  intros Hok. pose proof (ldb_get_content k s) as Hg.
  destruct (contents s !! k), Hg as [E|E]; try done; destruct Hok; left; eauto.
Qed.

Lemma ldb_Write_ok `{LevelDBLaws St} ops s : ¬ ldb_fault s →
  ∃ s', ldb_Write ops s = Some s' ∧ contents s' = apply_batch ops (contents s).
Proof.
  intros Hok. destruct (ldb_Write ops s) as [s'|] eqn:E; [|destruct Hok; right; eauto].
  exists s'. split; [done|]. by apply ldb_written.
Qed.

(** ** Instances *)

(** A store without failures is its contents. *)
#[export] Instance map_ldb : LevelDB (gmap string bytes) := {|
  contents := id;
  ldb_Get k m := match m !! k with Some v => Found v | None => NotFound end;
  ldb_Write ops m := Some (apply_batch ops m);
|}.

#[export] Instance map_ldb_laws : LevelDBLaws (gmap string bytes).
Proof.
  split.
  - intros k v s. simpl. destruct (s !! k) eqn:E; naive_solver.
  - intros k s. simpl. destruct (s !! k) eqn:E; naive_solver.
  - intros ops s s'. simpl. by intros [= <-].
Qed.

Lemma map_ldb_no_fault (s : gmap string bytes) : ¬ ldb_fault s.
Proof. intros [[k E]|[ops E]]; simpl in E; [by destruct (s !! k)|done]. Qed.

#[export] Instance map_ldb_reliable : LevelDBReliable (gmap string bytes).
Proof. exact map_ldb_no_fault. Qed.

(** A store some of whose keys cannot be read. *)
Record FlakyStore := { fl_map : gmap string bytes; fl_bad : gset string }.

#[export] Instance flaky_ldb : LevelDB FlakyStore := {|
  contents := fl_map;
  ldb_Get k s := if decide (k ∈ fl_bad s) then ReadError
    else match fl_map s !! k with Some v => Found v | None => NotFound end;
  ldb_Write ops s := Some {| fl_map := apply_batch ops (fl_map s); fl_bad := fl_bad s |};
|}.

#[export] Instance flaky_ldb_laws : LevelDBLaws FlakyStore.
Proof.
  split.
  - intros k v [m bad]. simpl. case_decide; [done|]. destruct (m !! k) eqn:E; naive_solver.
  - intros k [m bad]. simpl. case_decide; [done|]. destruct (m !! k) eqn:E; naive_solver.
  - intros ops [m bad] s'. simpl. by intros [= <-].
Qed.

(** A store that fails every operation after a number of writes. *)
Record FailingStore := { fs_map : gmap string bytes; fs_left : nat }.

#[export] Instance failing_ldb : LevelDB FailingStore := {|
  contents := fs_map;
  ldb_Get k s := match fs_left s with
    | O => ReadError
    | S _ => match fs_map s !! k with Some v => Found v | None => NotFound end
    end;
  ldb_Write ops s := match fs_left s with
    | O => None
    | S n => Some {| fs_map := apply_batch ops (fs_map s); fs_left := n |}
    end;
|}.

#[export] Instance failing_ldb_laws : LevelDBLaws FailingStore.
Proof.
  split.
  - intros k v [m [|n]]; simpl; [done|]. destruct (m !! k) eqn:E; naive_solver.
  - intros k [m [|n]]; simpl; [done|]. destruct (m !! k) eqn:E; naive_solver.
  - intros ops [m [|n]] s'; simpl; [done|]. by intros [= <-].
Qed.

(** ** Addresses ([go-ethereum/common])

    [Address] is twenty bytes; [Hex] is the checksummed hexadecimal form. *)

Class EthAddress := {
  BytesToAddress : bytes → bytes;
  AddressHex : bytes → string;
}.

Class EthAddressLaws `{EthAddress} : Prop := {
  BytesToAddress_length b : length (BytesToAddress b) = 20;
  BytesToAddress_20 b : length b = 20 → BytesToAddress b = b;
  BytesToAddress_nil : BytesToAddress [] = zeros 20;
  AddressHex_length a : length a = 20 → String.length (AddressHex a) = 42;
  AddressHex_inj a b : length a = 20 → length b = 20 → AddressHex a = AddressHex b → a = b;
}.

Module ToyAddress.

#[export] Instance toy_address : EthAddress := {|
  BytesToAddress b := if decide (length b = 20) then b
    else replicate (20 - length b) x00 ++ drop (length b - 20) b;
  AddressHex a := "0x" +:+ hex_EncodeToString a;
|}.

#[export] Instance toy_address_laws : EthAddressLaws.
Proof.
  split.
  - intros b. simpl. case_decide; [done|]. rewrite length_app, length_replicate, length_drop. lia.
  - intros b Hb. simpl. by rewrite decide_True.
  - done.
  - intros a Ha. unfold AddressHex, toy_address. by rewrite str_app_length, hex_EncodeToString_length, Ha.
  - intros a b _ _ E. apply hex_EncodeToString_inj. by apply str_app_inj_l in E.
Qed.

End ToyAddress.
