(* ===== verification/LdbIter.v ===== *)
(** * Ordered iteration over a LevelDB

    goleveldb's [NewIterator] walks the keys from a start key in byte order.  [LevelDBIter] adds
    it to the store interface; the string order and what zero-padded numbers do in it are shared
    by the stores that rely on it. *)

From S2P Require Import Prelude GoLib LevelDB.
From stdpp Require Import sorting.
From Stdlib Require Import Strings.Ascii.

(** ** Byte order on strings *)

Abbreviation str_le := String.le.

Lemma str_le_compare a b : str_le a b ↔ String.compare a b ≠ Gt.
Proof. unfold String.le, String.leb. by destruct (String.compare a b). Qed.

Lemma ascii_compare_spec c d : CompareSpec (c = d) (N_of_ascii c < N_of_ascii d)%N (N_of_ascii d < N_of_ascii c)%N (Ascii.compare c d).
Proof.
  unfold Ascii.compare. destruct (N.compare_spec (N_of_ascii c) (N_of_ascii d)) as [E| |]; constructor; try done.
  apply (f_equal ascii_of_N) in E. by rewrite !ascii_N_embedding in E.
Qed.

Lemma str_compare_app_l p a b : String.compare (p +:+ a) (p +:+ b) = String.compare a b.
Proof.
  induction p as [|c p IH]; [done|]. simpl. destruct (ascii_compare_spec c c) as [_| |]; [done|lia..].
Qed.

(** The strings with one prefix are an interval. *)
Lemma str_le_prefix_convex p a b z : str_le (p +:+ a) b → str_le b (p +:+ z) → ∃ y, b = p +:+ y.
Proof.
  rewrite !str_le_compare. revert b. induction p as [|c p IH]; intros b; [by exists b|].
  destruct b as [|d b]; simpl; [done|].
  destruct (ascii_compare_spec c d) as [<-|Hc|]; [|destruct (ascii_compare_spec d c) as [->| |]; [lia..|done]|done].
  destruct (ascii_compare_spec c c) as [_| |]; [|lia..]. intros Ha Hz.
  destruct (IH b) as [y ->]; [done..|]. by exists y.
Qed.

(** ** Zero-padded numbers *)

(** [%0kd] *)
Definition pad_width (k : nat) (n : Z) : string :=
  let s := FormatUint n in strings_Repeat "0" (k - String.length s) +:+ s.

Fixpoint fixed_digits (k : nat) (n : Z) : list Z :=
  match k with O => [] | S k => fixed_digits k (n / 10) ++ [n mod 10]%Z end.

Lemma fixed_digits_length k n : length (fixed_digits k n) = k.
Proof. revert n. induction k as [|k IH]; intros n; simpl; [done|]. rewrite length_app, IH. simpl. lia. Qed.

Lemma fixed_digits_0 k : fixed_digits k 0 = replicate k 0%Z.
Proof.
  induction k as [|k IH]; [done|]. cbn [fixed_digits]. change (0 / 10)%Z with 0%Z. rewrite IH.
  change (0 mod 10)%Z with 0%Z. by rewrite <- replicate_cons_app.
Qed.

Lemma digits_fixed fuel n k : (0 ≤ n < 10 ^ Z.of_nat k)%Z → (0 < k)%nat → (n < 10 ^ Z.of_nat fuel)%Z → (0 < fuel)%nat →
  length (digits fuel n) ≤ k ∧ replicate (k - length (digits fuel n)) 0%Z ++ digits fuel n = fixed_digits k n.
Proof.
  revert n k. induction fuel as [|fuel IH]; intros n k Hn Hk Hf Hf0; [lia|].
  destruct k as [|k]; [lia|]. cbn [digits fixed_digits]. destruct (Z.ltb_spec n 10) as [Hlt|Hge].
  - simpl. rewrite Nat.sub_0_r, (Z.div_small n 10), (Z.mod_small n 10), fixed_digits_0 by lia. split; [lia|done].
  - rewrite Nat2Z.inj_succ, Z.pow_succ_r in Hn, Hf by lia.
    assert (0 < k) by (destruct k; simpl in *; lia). assert (0 < fuel) by (destruct fuel; simpl in *; lia).
    assert (0 ≤ n / 10 < 10 ^ Z.of_nat k)%Z by (split; [zlia|apply Z.div_lt_upper_bound; lia]).
    assert (n / 10 < 10 ^ Z.of_nat fuel)%Z by (apply Z.div_lt_upper_bound; lia).
    destruct (IH (n / 10)%Z k) as [Hl E]; [done..|]. rewrite length_app. simpl. split; [lia|].
    rewrite <- E, app_assoc. do 2 f_equal. f_equal. lia.
Qed.

Lemma digits_str_length ds : String.length (digits_str ds) = length ds.
Proof. induction ds as [|d ds IH]; [done|]. exact (f_equal S IH). Qed.

Lemma pad_width_digits k n : (0 ≤ n < 10 ^ Z.of_nat k)%Z → (0 < k)%nat → (n < 10 ^ 20)%Z →
  pad_width k n = digits_str (fixed_digits k n).
Proof.
  intros Hn Hk Hb. destruct (digits_fixed 20 n k Hn Hk Hb ltac:(lia)) as [_ E].
  unfold pad_width, FormatUint. rewrite digits_str_length, digits_str_zeros. by rewrite E.
Qed.

Lemma digit_char_compare a b : (0 ≤ a < 10)%Z → (0 ≤ b < 10)%Z → Ascii.compare (digit_char a) (digit_char b) = (a ?= b)%Z.
Proof.
  intros Ha Hb. unfold Ascii.compare, digit_char, ascii_of_nat. rewrite !N_ascii_embedding by lia.
  destruct (Z.compare_spec a b) as [->| |]; [apply N.compare_refl|apply N.compare_lt_iff; lia|apply N.compare_gt_iff; lia].
Qed.

Lemma digits_str_compare_snoc ds es a b : length ds = length es → (0 ≤ a < 10)%Z → (0 ≤ b < 10)%Z →
  String.compare (digits_str (ds ++ [a])) (digits_str (es ++ [b])) =
    match String.compare (digits_str ds) (digits_str es) with Eq => (a ?= b)%Z | r => r end.
Proof.
  intros Hl Ha Hb. revert es Hl. induction ds as [|d ds IH]; intros [|e es] Hl; try discriminate; cbn [app].
  - change (match Ascii.compare (digit_char a) (digit_char b) with Eq => Eq | r => r end = (a ?= b)%Z).
    rewrite digit_char_compare by done. by destruct (a ?= b)%Z.
  - injection Hl as Hl. specialize (IH es Hl). unfold digits_str in *. cbn [fmap list_fmap String.string_of_list_ascii String.compare].
    destruct (Ascii.compare _ _); [exact IH|done..].
Qed.

(** Padded to one width, numbers are ordered as strings. *)
Lemma fixed_digits_compare k a b : (0 ≤ a < 10 ^ Z.of_nat k)%Z → (0 ≤ b < 10 ^ Z.of_nat k)%Z →
  String.compare (digits_str (fixed_digits k a)) (digits_str (fixed_digits k b)) = (a ?= b)%Z.
Proof.
  revert a b. induction k as [|k IH]; intros a b Ha Hb; cbn [fixed_digits].
  - simpl in *. by replace a with 0%Z by lia; replace b with 0%Z by lia.
  - rewrite Nat2Z.inj_succ, Z.pow_succ_r in Ha, Hb by lia.
    rewrite digits_str_compare_snoc by (rewrite ?fixed_digits_length; zlia).
    rewrite IH by (split; [zlia|apply Z.div_lt_upper_bound; lia]).
    destruct (Z.compare_spec (a / 10) (b / 10)) as [E|E|E]; symmetry.
    + destruct (Z.compare_spec (a mod 10) (b mod 10)); [apply Z.compare_eq_iff|apply Z.compare_lt_iff|apply Z.compare_gt_iff]; zlia.
    + apply Z.compare_lt_iff. zlia.
    + apply Z.compare_gt_iff. zlia.
Qed.

Lemma pad_width_compare k a b : (0 < k ≤ 20)%nat → (0 ≤ a < 10 ^ Z.of_nat k)%Z → (0 ≤ b < 10 ^ Z.of_nat k)%Z →
  String.compare (pad_width k a) (pad_width k b) = (a ?= b)%Z.
Proof.
  intros Hk Ha Hb. assert (10 ^ Z.of_nat k ≤ 10 ^ 20)%Z by (apply Z.pow_le_mono_r; lia).
  rewrite !pad_width_digits by lia. by apply fixed_digits_compare.
Qed.

(** ** The iterator *)

(** [ldb_Iter start s]: the entries [Next] yields from [start] on, and whether the walk then
    stopped with an error. *)
Class LevelDBIter (St : Type) `{LevelDB St} := ldb_Iter : string → St → list (string * bytes) * bool.

(** The keys from [start] on, in order. *)
Definition entries_from (start : string) (m : gmap string bytes) (l : list (string * bytes)) : Prop :=
  StronglySorted str_le l.*1 ∧ NoDup l.*1 ∧ ∀ k v, (k, v) ∈ l ↔ m !! k = Some v ∧ str_le start k.

Class LevelDBIterLaws (St : Type) `{LevelDBIter St} : Prop := ldb_iter_spec start s :
  ∃ l, entries_from start (contents s) l ∧
    (ldb_Iter start s = (l, false) ∨ (∃ l', l' `prefix_of` l ∧ ldb_Iter start s = (l', true))).

(** The iterator of a store without failures. *)
Definition sorted_entries (start : string) (m : gmap string bytes) : list (string * bytes) :=
  merge_sort (λ x y, str_le x.1 y.1) (filter (λ x, str_le start x.1) (map_to_list m)).

#[export] Instance map_ldb_iter : LevelDBIter (gmap string bytes) := λ start m, (sorted_entries start m, false).

Lemma sorted_entries_from start m : entries_from start m (sorted_entries start m).
Proof.
  unfold sorted_entries. set (R := λ x y : string * bytes, str_le x.1 y.1).
  set (l := filter _ _).
  assert (merge_sort R l ≡ₚ l) as HP by apply merge_sort_Permutation.
  assert (Transitive R) by (intros x y z; unfold R; apply transitivity).
  assert (Total R) by (intros x y; apply String.le_total).
  split_and!.
  - pose proof (StronglySorted_merge_sort R l) as HS. revert HS. clear HP.
    generalize (merge_sort R l). intros k' HS. induction HS as [|x k _ IH HF]; [constructor|].
    cbn. constructor; [done|]. by apply Forall_fmap.
  - rewrite HP. apply NoDup_fmap_2_strong; [|apply NoDup_filter, NoDup_map_to_list].
    intros [k v] [k' v'] Hx Hy. unfold l in *. rewrite list_elem_of_filter, elem_of_map_to_list in Hx, Hy. simpl.
    naive_solver.
  - intros k v. rewrite HP. unfold l. rewrite list_elem_of_filter, elem_of_map_to_list. naive_solver.
Qed.

#[export] Instance map_ldb_iter_laws : LevelDBIterLaws (gmap string bytes).
Proof. intros start s. exists (sorted_entries start s). split; [apply sorted_entries_from|by left]. Qed.

(** A store whose writes fail when they touch certain keys. *)
Record StuckStore := { st_map : gmap string bytes; st_bad : gset string }.

Definition op_key (o : batch_op) : string := match o with BPut k _ | BDelete k => k end.

#[export] Instance stuck_ldb : LevelDB StuckStore := {|
  contents := st_map;
  ldb_Get k s := match st_map s !! k with Some v => Found v | None => NotFound end;
  ldb_Write ops s := if decide (Exists (λ o, op_key o ∈ st_bad s) ops) then None
    else Some {| st_map := apply_batch ops (st_map s); st_bad := st_bad s |};
|}.

#[export] Instance stuck_ldb_laws : LevelDBLaws StuckStore.
Proof.
  split.
  - intros k v [m bad]. simpl. destruct (m !! k) eqn:E; naive_solver.
  - intros k [m bad]. simpl. destruct (m !! k) eqn:E; naive_solver.
  - intros ops [m bad] s'. simpl. case_decide; [done|]. by intros [= <-].
Qed.

#[export] Instance stuck_ldb_iter : LevelDBIter StuckStore := λ start s, (sorted_entries start (st_map s), false).
