(* ===== verification/HexCodec.v ===== *)
(** * Hexadecimal strings and string trimming

    [encoding/hex] decoding, the prefix and space functions of [strings], and the decoders of
    [cmd/rpc-client/utils/decode.go], which accept an optional 0x and an odd number of digits. *)

From S2P Require Import Prelude GoLib.
From Stdlib Require Import Strings.Byte Strings.Ascii.

(** ** [strings] *)

Fixpoint HasPrefix (s p : string) {struct p} : bool :=
  match p, s with
  | EmptyString, _ => true
  | String c p, String d s => if decide (c = d) then HasPrefix s p else false
  | String _ _, EmptyString => false
  end.

(** [s[n:]] *)
Fixpoint str_drop (n : nat) (s : string) : string :=
  match n, s with
  | O, _ => s
  | S n, String _ s => str_drop n s
  | S _, EmptyString => EmptyString
  end.

Definition TrimPrefix (s p : string) : string := if HasPrefix s p then str_drop (String.length p) s else s.

(** The encodings of the code points [unicode.IsSpace] accepts. *)
Definition space_encodings : list bytes :=
  [[x09]; [x0a]; [x0b]; [x0c]; [x0d]; [x20]; [xc2; x85]; [xc2; xa0]; [xe1; x9a; x80]; [xe2; x80; xa8];
   [xe2; x80; xa9]; [xe2; x80; xaf]; [xe2; x81; x9f]; [xe3; x80; x80]] ++
  ((λ z, [xe2; x80; z2b z]) <$> seqZ 128 11).

Fixpoint strip (fuel : nat) (encs : list bytes) (b : bytes) : bytes :=
  match fuel with
  | O => b
  | S fuel =>
    match list_find (λ e, take (length e) b = e) encs with
    | Some (_, e) => strip fuel encs (drop (length e) b)
    | None => b
    end
  end.

Definition TrimSpace (s : string) : string :=
  let b := strip (String.length s) space_encodings (str_bytes s) in
  bytes_str (rev (strip (length b) ((@rev byte) <$> space_encodings) (rev b))).

(** ** [hex.DecodeString] *)

Definition fromHexChar (c : ascii) : option Z :=
  let n := Z.of_nat (nat_of_ascii c) in
  if decide (48 ≤ n ≤ 57)%Z then Some (n - 48)%Z
  else if decide (97 ≤ n ≤ 102)%Z then Some (n - 87)%Z
  else if decide (65 ≤ n ≤ 70)%Z then Some (n - 55)%Z
  else None.

(** An odd number of digits and any other character are errors. *)
Fixpoint hex_DecodeString (s : string) : option bytes :=
  match s with
  | EmptyString => Some []
  | String a (String b s) =>
    x ← fromHexChar a; y ← fromHexChar b; r ← hex_DecodeString s; Some (z2b (x * 16 + y) :: r)
  | String _ EmptyString => None
  end.

(** ** [DecodeHexString] and [DecodeHexPooled] *)

Definition strip_0x (hexStr : string) : string :=
  if HasPrefix hexStr "0x" || HasPrefix hexStr "0X" then str_drop 2 hexStr else hexStr.

Definition even_digits (hexStr : string) : string :=
  if (String.length hexStr mod 2 =? 1)%nat then "0" +:+ hexStr else hexStr.

Definition DecodeHexString (hexStr : string) : option bytes := hex_DecodeString (even_digits (strip_0x hexStr)).

(** The pooled decoder streams the digits into a buffer of half their number; [io.ReadFull] fails
    when the stream ends or breaks before the buffer is full. *)
Fixpoint hex_stream (s : string) : bytes :=
  match s with
  | String a (String b s) =>
    match fromHexChar a, fromHexChar b with
    | Some x, Some y => z2b (x * 16 + y) :: hex_stream s
    | _, _ => []
    end
  | _ => []
  end.

Definition DecodeHexPooled (hexStr : string) : option bytes :=
  let s := even_digits (strip_0x hexStr) in
  let needed := (String.length s / 2)%nat in
  let got := hex_stream s in
  if (length got =? needed)%nat then Some got else None.

(** ** Round trips *)

Lemma hex_digit_value z : (0 ≤ z < 16)%Z → fromHexChar (hex_digit z) = Some z.
Proof.
  intros Hz. assert (Forall (λ z, fromHexChar (hex_digit z) = Some z) (seqZ 0 16)) as HF by (apply (bool_decide_unpack _); by vm_compute).
  rewrite Forall_forall in HF. apply HF. apply elem_of_seqZ. lia.
Qed.

Lemma hex_pair_value b : z2b (b2z b / 16 * 16 + b2z b mod 16) = b.
Proof. rewrite <- (z2b_b2z b) at 3. f_equal. pose proof (b2z_range b). zlia. Qed.

Lemma hex_decode_encode b : hex_DecodeString (hex_EncodeToString b) = Some b.
Proof.
  induction b as [|x b IH]; [done|]. cbn [hex_EncodeToString hex_DecodeString].
  pose proof (b2z_range x). rewrite !hex_digit_value by zlia. cbn [mbind option_bind]. rewrite IH. cbn.
  by rewrite hex_pair_value.
Qed.

Lemma str_ind2 (P : string → Prop) : P EmptyString → (∀ a, P (String a EmptyString)) →
  (∀ a b s, P s → P (String a (String b s))) → ∀ s, P s.
Proof.
  intros H0 H1 H2. fix IH 1. intros [|a [|b s]]; [exact H0|exact (H1 a)|exact (H2 a b s (IH s))].
Qed.

Lemma hex_stream_decode s : String.length s mod 2 = 0 →
  hex_DecodeString s = if (length (hex_stream s) =? String.length s / 2)%nat then Some (hex_stream s) else None.
Proof.
  induction s as [|a|a b s IH] using str_ind2; intros He; [done|done|].
  cbn [String.length hex_stream hex_DecodeString] in *.
  replace (S (S (String.length s))) with (String.length s + 1 * 2) in * by lia.
  rewrite Nat.Div0.mod_add in He. rewrite Nat.div_add, Nat.add_1_r by lia.
  destruct (fromHexChar a) as [x|]; [|done]. destruct (fromHexChar b) as [y|]; [|done].
  cbn [mbind option_bind length Nat.eqb]. rewrite (IH He). by destruct (_ =? _)%nat.
Qed.

Lemma even_digits_even s : String.length (even_digits s) mod 2 = 0.
Proof.
  unfold even_digits. destruct (Nat.eqb_spec (String.length s mod 2) 1) as [E|E].
  - cbn [String.length String.append]. change (String.length ("0" +:+ s)) with (S (String.length s)).
    rewrite <- Nat.add_1_r, Nat.Div0.add_mod, E. done.
  - pose proof (Nat.mod_upper_bound (String.length s) 2 ltac:(lia)). lia.
Qed.

(** The two decoders agree on every string, and both invert the encoding with and without 0x. *)
Theorem hex_decoders_agree s : DecodeHexPooled s = DecodeHexString s.
Proof. unfold DecodeHexPooled, DecodeHexString. rewrite hex_stream_decode by apply even_digits_even. done. Qed.

Lemma hex_no_x b r : strip_0x ("0x" +:+ hex_EncodeToString b +:+ r) = hex_EncodeToString b +:+ r.
Proof. done. Qed.

Lemma DecodeHexString_0x b : DecodeHexString ("0x" +:+ hex_EncodeToString b) = Some b.
Proof.
  unfold DecodeHexString. replace (strip_0x _) with (hex_EncodeToString b).
  - unfold even_digits. rewrite hex_EncodeToString_length.
    rewrite Nat.mul_comm, Nat.Div0.mod_mul. apply hex_decode_encode.
  - rewrite <- (str_app_nil_r (hex_EncodeToString b)) at 2. rewrite hex_no_x. by rewrite str_app_nil_r.
Qed.
