(* ===== verification/SimpleDB.v ===== *)
(** * The append-only file database ([pkg/storage/simpledb.go])

    Records are appended to a data file as length, value and key; a hash table maps a key to the
    offset of its latest record and is rewritten into an index file.  The model keeps the files as
    byte strings with the positions of the open handles, and every system call may fail. *)

From S2P Require Import Prelude GoLib LevelDB.
From Stdlib Require Import Strings.Byte.

Definition KeySize : nat := 32.
Definition IndexEntry : nat := KeySize + 8.

(** One system call transfers at most this many bytes. *)
Definition maxRW : Z := 1073741824.

(** The data file, the index file and [Compact]'s temporary file. *)
Inductive fid := Data | Index | Temp.

(** A handle is its position in the file; [None] is closed.  [tempFile] is local to [Compact]. *)
Record SimpleDB := {
  file : option nat;
  indexFile : option nat;
  tempFile : option nat;
  indexMap : gmap bytes Z;
  dbPath : string;
  indexPath : string;
}.

(** The disk, and the number of system calls made so far. *)
Record Disk := { files : gmap string bytes; calls : nat }.

Inductive sdb_error := ErrKeySize | ErrKeyNotFound | ErrIO | ErrEOF | ErrUnknownDB.

Definition handle (f : fid) (d : SimpleDB) : option nat :=
  match f with Data => file d | Index => indexFile d | Temp => tempFile d end.
Definition set_handle (f : fid) (p : option nat) (d : SimpleDB) : SimpleDB :=
  {| file := match f with Data => p | _ => file d end; indexFile := match f with Index => p | _ => indexFile d end;
     tempFile := match f with Temp => p | _ => tempFile d end;
     indexMap := indexMap d; dbPath := dbPath d; indexPath := indexPath d |}.
Definition set_map (m : gmap bytes Z) (d : SimpleDB) : SimpleDB :=
  {| file := file d; indexFile := indexFile d; tempFile := tempFile d; indexMap := m; dbPath := dbPath d; indexPath := indexPath d |}.
Definition path_of (f : fid) (d : SimpleDB) : string :=
  match f with Data => dbPath d | Index => indexPath d | Temp => dbPath d +:+ ".tmp" end.
Definition set_file (path : string) (b : bytes) (k : Disk) : Disk := {| files := <[path := b]> (files k); calls := calls k |}.

(** [pwrite]: a gap before the position is filled with zeros, an empty write does nothing. *)
Definition write_at (c : bytes) (p : nat) (b : bytes) : bytes :=
  match b with [] => c | _ => take p c ++ zeros (p - length c) ++ b ++ drop (p + length b) c end.

Section SimpleDB.
(** [fault n] says whether the [n]-th system call fails; a failing write gets that many bytes out.
    [iter] is the order in which Go ranges over a map. *)
Context (fault : nat → option nat) (iter : gmap bytes Z → list (bytes * Z)).

Definition SM : Type → Type := comp (Disk * SimpleDB) sdb_error.
#[export] Instance SM_ret : MRet SM := comp_ret.
#[export] Instance SM_bind : MBind SM := comp_bind.

Definition syscall {A} (k : option nat → SM A) : SM A := λ '(d, s), k (fault (calls d)) ({| files := files d; calls := S (calls d) |}, s).
Definition or_fail {A} (k : SM A) : SM A := syscall (λ o, match o with None => k | Some _ => c_fail ErrIO end).

Definition on_db (f : SimpleDB → SimpleDB) : SM unit := c_modify (λ '(d, s), (d, f s)).
Definition position (f : fid) : SM nat := λ '(d, s), match handle f s with Some p => (Ok p, (d, s)) | None => (Fail ErrIO, (d, s)) end.
Definition content (f : fid) : SM bytes := λ '(d, s), (Ok (default [] (files d !! path_of f s)), (d, s)).
Definition put_content (f : fid) (b : bytes) : SM unit := c_modify (λ '(d, s), (set_file (path_of f s) b d, s)).

Definition f_Seek (f : fid) (off : Z) : SM unit :=
  _ ← position f; or_fail (if (off <? 0)%Z then c_fail ErrIO else on_db (set_handle f (Some (Z.to_nat off)))).
Definition f_SeekEnd (f : fid) : SM Z :=
  _ ← position f; or_fail (c ← content f; _ ← on_db (set_handle f (Some (length c))); mret (Z.of_nat (length c))).
Definition f_Truncate (f : fid) : SM unit := _ ← position f; or_fail (put_content f []).
Definition f_Sync (f : fid) : SM unit := _ ← position f; or_fail (mret tt).
Definition f_Close (f : fid) : SM unit := _ ← position f; or_fail (on_db (set_handle f None)).

Definition f_Write (f : fid) (b : bytes) : SM unit :=
  p ← position f;
  syscall (λ o,
    let b := match o with None => b | Some k => take k b end in
    c ← content f;
    _ ← put_content f (write_at c p b);
    _ ← on_db (set_handle f (Some (p + length b)));
    match o with None => mret tt | Some _ => c_fail ErrIO end).

(** [Read] into a fresh slice of [n] bytes *)
Definition f_Read (f : fid) (n : nat) : SM bytes :=
  p ← position f;
  match n with
  | O => mret []
  | _ => or_fail (
    c ← content f;
    match take (Z.to_nat (Z.min (Z.of_nat n) maxRW)) (drop p c) with
    | [] => c_fail ErrEOF
    | got => _ ← on_db (set_handle f (Some (p + length got))); mret (go_copy (zeros n) got)
    end)
  end.

(** [io.ReadFull] of a few bytes *)
Definition f_ReadFull (f : fid) (n : nat) : SM bytes :=
  p ← position f;
  or_fail (
    c ← content f;
    let got := take n (drop p c) in
    _ ← on_db (set_handle f (Some (p + length got)));
    if (length got <? n)%nat then c_fail ErrEOF else mret got).

(** [os.OpenFile(path, O_RDWR|O_CREATE)] *)
Definition f_Open (f : fid) : SM unit :=
  or_fail (c ← content f; _ ← put_content f c; on_db (set_handle f (Some 0))).

(** ** The index file *)

Fixpoint write_entries (es : list (bytes * Z)) : SM unit :=
  match es with
  | [] => mret tt
  | (key, offset) :: es =>
    _ ← f_Write Index key;
    _ ← f_Write Index (le_bytes 8 (u64 offset));
    write_entries es
  end.

Definition saveIndex : SM unit :=
  _ ← f_Truncate Index;
  _ ← f_Seek Index 0;
  s ← c_get;
  _ ← write_entries (iter (indexMap s.2));
  f_Sync Index.

(** The loop of [loadIndex]; [n] is the number of times it may run. *)
Fixpoint read_entries (n : nat) : SM unit :=
  match n with
  | O => mret tt
  | S n =>
    c_try (f_Read Index KeySize) (λ r,
      match r with
      | inr ErrEOF => mret tt
      | inr e => c_fail e
      | inl key =>
        b ← f_ReadFull Index 8;
        _ ← on_db (λ d, set_map (<[key := i64 (le_value b)]> (indexMap d)) d);
        read_entries n
      end)
  end.

Definition loadIndex : SM unit :=
  fileSize ← or_fail (c ← content Index; mret (length c));
  _ ← f_Seek Index 0;
  read_entries ((fileSize + (IndexEntry - 1)) / IndexEntry).

(** ** Opening and closing *)

Definition closed_db (dbPath indexPath : string) : SimpleDB :=
  {| file := None; indexFile := None; tempFile := None; indexMap := ∅; dbPath := dbPath; indexPath := indexPath |}.

Definition Open (dbPath indexPath : string) : SM unit :=
  _ ← on_db (λ _, closed_db dbPath indexPath);
  _ ← f_Open Data;
  _ ← f_Open Index;
  loadIndex.

Definition Close : SM unit :=
  _ ← saveIndex;
  _ ← f_Close Data;
  f_Close Index.

(** ** Operations *)

(** A record at the end of a file; its offset. *)
Definition append_record (f : fid) (key value : bytes) : SM Z :=
  offset ← f_SeekEnd f;
  _ ← f_Write f (le_bytes 4 (Z.of_nat (length value) mod 2 ^ 32));
  _ ← f_Write f value;
  _ ← f_Write f key;
  mret offset.

Definition index_put (key : bytes) (offset : Z) : SM unit := on_db (λ d, set_map (<[key := offset]> (indexMap d)) d).

Definition Put (key value : bytes) : SM unit :=
  if (length key =? KeySize)%nat then
    _ ← on_db (λ d, set_map (base.delete key (indexMap d)) d);
    offset ← append_record Data key value;
    _ ← index_put key offset;
    saveIndex
  else c_fail ErrKeySize.

Fixpoint put_all (kvs : list (bytes * bytes)) : SM unit :=
  match kvs with
  | [] => mret tt
  | (key, value) :: kvs =>
    if (length key =? KeySize)%nat then
      offset ← append_record Data key value;
      _ ← index_put key offset;
      put_all kvs
    else c_fail ErrKeySize
  end.

(** The result of the last [saveIndex] is dropped. *)
Definition BatchPut (kvs : list (bytes * bytes)) : SM unit :=
  _ ← put_all kvs;
  c_try saveIndex (λ _, mret tt : SM unit).

(** [Get] reads without the lock, in three system calls. *)
Definition get_offset (key : bytes) : SM Z :=
  if (length key =? KeySize)%nat then
    s ← c_get;
    match indexMap s.2 !! key with Some offset => mret offset | None => c_fail ErrKeyNotFound end
  else c_fail ErrKeySize.

Definition read_size : SM nat := b ← f_ReadFull Data 4; mret (Z.to_nat (le_value b)).

Definition Get (key : bytes) : SM bytes :=
  offset ← get_offset key;
  _ ← f_Seek Data offset;
  valueSize ← read_size;
  f_Read Data valueSize.

(** [Get] as a thread that can be interleaved with others. *)
Inductive get_thread := GSeek (offset : Z) | GSize | GValue (n : nat) | GDone (r : option bytes).

Definition get_next {A} (r : outcome sdb_error A * (Disk * SimpleDB)) (k : A → get_thread) : get_thread * (Disk * SimpleDB) :=
  (match r.1 with Ok a => k a | _ => GDone None end, r.2).

Definition get_step (t : get_thread) (s : Disk * SimpleDB) : get_thread * (Disk * SimpleDB) :=
  match t with
  | GSeek offset => get_next (f_Seek Data offset s) (λ _, GSize)
  | GSize => get_next (read_size s) GValue
  | GValue n => get_next (f_Read Data n s) (λ v, GDone (Some v))
  | GDone r => (GDone r, s)
  end.

(** The index file is not rewritten. *)
Definition Delete (key : bytes) : SM unit :=
  if (length key =? KeySize)%nat then on_db (λ d, set_map (base.delete key (indexMap d)) d) else c_fail ErrKeySize.

(** ** Compaction *)

Fixpoint copy_live (es : list (bytes * Z)) (newIndexMap : gmap bytes Z) : SM (gmap bytes Z) :=
  match es with
  | [] => mret newIndexMap
  | (key, offset) :: es =>
    _ ← f_Seek Data offset;
    valueSize ← read_size;
    value ← f_Read Data valueSize;
    newOffset ← append_record Temp key value;
    copy_live es (<[key := newOffset]> newIndexMap)
  end.

Definition os_Create (f : fid) : SM unit := or_fail (_ ← put_content f []; on_db (set_handle f (Some 0))).
Definition os_Remove (f : fid) : SM unit :=
  or_fail (c_modify (λ '(d, s), ({| files := base.delete (path_of f s) (files d); calls := calls d |}, s))).
(** [os.Rename] of the temporary file to the data file *)
Definition os_Rename : SM unit :=
  or_fail (c_modify (λ '(d, s),
    ({| files := <[path_of Data s := default [] (files d !! path_of Temp s)]> (base.delete (path_of Temp s) (files d)); calls := calls d |}, s))).

Definition Compact : SM unit :=
  _ ← os_Create Temp;
  s ← c_get;
  newIndexMap ← copy_live (iter (indexMap s.2)) ∅;
  _ ← f_Close Temp;
  _ ← f_Close Data;
  _ ← os_Remove Data;
  _ ← os_Rename;
  _ ← f_Open Data;
  _ ← on_db (set_map newIndexMap);
  saveIndex.

(** ** The manager of open databases *)

Definition MM : Type → Type := comp (Disk * gmap string SimpleDB) sdb_error.
#[export] Instance MM_ret : MRet MM := comp_ret.
#[export] Instance MM_bind : MBind MM := comp_bind.

(** An operation on one database: what becomes of it, and the result. *)
Definition with_db {A} (d : SimpleDB) (c : SM A) : MM (SimpleDB * (sdb_error + A)) := λ '(k, dbs),
  match c (k, d) with
  | (Ok a, (k', d')) => (Ok (d', inr a), (k', dbs))
  | (Fail e, (k', d')) => (Ok (d', inl e), (k', dbs))
  | (Panic, (k', d')) => (Panic, (k', dbs))
  | (OutOfFuel, (k', d')) => (OutOfFuel, (k', dbs))
  end.
Definition set_db (basePath : string) (d : SimpleDB) : MM unit := c_modify (λ '(k, dbs), (k, <[basePath := d]> dbs)).

(** [os.MkdirAll], and [os.Create] of a file that does not exist *)
Definition ensure_dir : SM unit := or_fail (mret tt).
Definition ensure_file (f : fid) : SM unit :=
  s ← c_get;
  match files s.1 !! path_of f s.2 with
  | Some _ => mret tt
  | None => _ ← os_Create f; on_db (set_handle f None)
  end.

Definition GetOrCreate (basePath : string) : MM SimpleDB :=
  s ← c_get;
  match s.2 !! basePath with
  | Some d => mret d
  | None =>
    let indexPath := basePath +:+ "_index" in
    '(d, r) ← with_db (closed_db basePath indexPath)
                (_ ← ensure_dir; _ ← ensure_dir; _ ← ensure_file Data; _ ← ensure_file Index; Open basePath indexPath);
    match r with
    | inl e => c_fail e
    | inr _ => _ ← set_db basePath d; mret d
    end
  end.

(** A database that fails to close stays in the map, whatever was closed of it. *)
Definition mgr_Close (basePath : string) : MM unit :=
  s ← c_get;
  match s.2 !! basePath with
  | None => c_fail ErrUnknownDB
  | Some d =>
    '(d', r) ← with_db d Close;
    match r with
    | inl e => _ ← set_db basePath d'; c_fail e
    | inr _ => c_modify (λ '(k, dbs), (k, base.delete basePath dbs))
    end
  end.

Fixpoint close_each (l : list (string * SimpleDB)) : MM unit :=
  match l with
  | [] => mret tt
  | (basePath, d) :: l =>
    '(d', r) ← with_db d Close;
    _ ← set_db basePath d';
    match r with inl e => c_fail e | inr _ => close_each l end
  end.

(** [order] is how Go ranges over the map of databases. *)
Definition CloseAll (order : gmap string SimpleDB → list (string * SimpleDB)) : MM unit :=
  s ← c_get;
  _ ← close_each (order s.2);
  c_modify (λ '(k, _), (k, ∅)).

End SimpleDB.
