(* ===== verification/SimpleDBTheorems.v ===== *)
(** * The file database is a map

    Without faults every operation refines the same operation on a finite map, a database that is
    closed and reopened holds the same map, and compaction keeps it in a file without dead records.
    With faults: what a failing or interrupted write can lose. *)

From S2P Require Import Prelude GoLib LevelDB SimpleDB.
From Stdlib Require Import Strings.Byte.

(** ** Bytes *)

Lemma write_at_end c b : write_at c (length c) b = c ++ b.
Proof.
  unfold write_at. destruct b as [|x b]; [by rewrite app_nil_r|].
  rewrite take_ge, Nat.sub_diag, drop_ge by lia. by rewrite app_nil_r.
Qed.

Lemma drop_take_app (c1 b c2 : bytes) : take (length b) (drop (length c1) (c1 ++ b ++ c2)) = b.
Proof. by rewrite drop_app_length, take_app_length. Qed.

(** ** Reasoning about runs *)

Section Spec.
Context (fault : nat → option nat) (iter : gmap bytes Z → list (bytes * Z)).

Implicit Types (F : gmap string bytes) (s : SimpleDB) (f : fid).

(** From files [F] and database [s], [c] returns some [a] in a state that satisfies [Q]. *)
Definition wp {A} (c : comp (Disk * SimpleDB) sdb_error A) F s (Q : A → gmap string bytes → SimpleDB → Prop) : Prop :=
  ∀ n, ∃ a F' n' s', c ({| files := F; calls := n |}, s) = (Ok a, ({| files := F'; calls := n' |}, s')) ∧ Q a F' s'.

Lemma wp_ret {A} (a : A) F s Q : Q a F s → wp (mret a) F s Q.
Proof. intros HQ n. by exists a, F, n, s. Qed.

Lemma sdb_wp_bind {A B} (m : comp (Disk * SimpleDB) sdb_error A) (k : A → comp (Disk * SimpleDB) sdb_error B) F s Q :
  wp m F s (λ a F' s', wp (k a) F' s' Q) → wp (m ≫= k) F s Q.
Proof.
  intros Hm n. destruct (Hm n) as (a & F' & n' & s' & E & Hk). destruct (Hk n') as (b & F2 & n2 & s2 & E2 & HQ).
  exists b, F2, n2, s2. by rewrite (comp_bind_ok _ _ _ _ _ E).
Qed.

Lemma sdb_wp_mono {A} (c : comp (Disk * SimpleDB) sdb_error A) F s (P Q : A → gmap string bytes → SimpleDB → Prop) :
  wp c F s P → (∀ a F' s', P a F' s' → Q a F' s') → wp c F s Q.
Proof. intros Hc HPQ n. destruct (Hc n) as (a & F' & n' & s' & E & HP). eauto 8. Qed.

Lemma wp_get F s (Q : Disk * SimpleDB → gmap string bytes → SimpleDB → Prop) :
  (∀ n, Q ({| files := F; calls := n |}, s) F s) → wp c_get F s Q.
Proof. intros HQ n. by exists ({| files := F; calls := n |}, s), F, n, s. Qed.

Lemma wp_on_db g F s Q : Q tt F (g s) → wp (on_db g) F s Q.
Proof. intros HQ n. by exists tt, F, n, (g s). Qed.

Section NoFault.
Context (Hf : ∀ n, fault n = None).

Lemma wp_syscall {A} (k : option nat → comp (Disk * SimpleDB) sdb_error A) F s Q : wp (k None) F s Q → wp (syscall fault k) F s Q.
Proof using Hf. intros Hk n. unfold syscall. cbn [calls files]. rewrite Hf. apply Hk. Qed.

Lemma wp_or_fail {A} (k : comp (Disk * SimpleDB) sdb_error A) F s Q : wp k F s Q → wp (or_fail fault k) F s Q.
Proof using Hf. exact (wp_syscall (λ o, match o with None => k | Some _ => c_fail ErrIO end) F s Q). Qed.

Lemma wp_position f p F s Q : handle f s = Some p → Q p F s → wp (position f) F s Q.
Proof. intros Hp HQ n. unfold position. rewrite Hp. by exists p, F, n, s. Qed.

Lemma wp_content_default f F s Q : Q (default [] (F !! path_of f s)) F s → wp (content f) F s Q.
Proof. intros HQ n. by exists (default [] (F !! path_of f s)), F, n, s. Qed.

Lemma wp_content f c F s Q : F !! path_of f s = Some c → Q c F s → wp (content f) F s Q.
Proof. intros Hc HQ n. unfold content. cbn [files]. rewrite Hc. by exists c, F, n, s. Qed.

Lemma wp_put_content f b F s Q : Q tt (<[path_of f s := b]> F) s → wp (put_content f b) F s Q.
Proof. intros HQ n. by exists tt, (<[path_of f s := b]> F), n, s. Qed.

Lemma path_set_handle f g p s : path_of f (set_handle g p s) = path_of f s.
Proof. by destruct f. Qed.

Lemma wp_Seek f p off F s Q : handle f s = Some p → Q tt F (set_handle f (Some off) s) → wp (f_Seek fault f (Z.of_nat off)) F s Q.
Proof using Hf.
  intros Hp HQ. apply sdb_wp_bind, (wp_position f p); [done|]. apply wp_or_fail. destruct (Z.ltb_spec (Z.of_nat off) 0); [lia|].
  apply wp_on_db. by rewrite Nat2Z.id.
Qed.

Lemma wp_SeekEnd f p c F s Q : handle f s = Some p → F !! path_of f s = Some c →
  Q (Z.of_nat (length c)) F (set_handle f (Some (length c)) s) → wp (f_SeekEnd fault f) F s Q.
Proof using Hf.
  intros Hp Hc HQ. apply sdb_wp_bind, (wp_position f p); [done|]. apply wp_or_fail, sdb_wp_bind, (wp_content f c); [done|].
  apply sdb_wp_bind, wp_on_db. by apply wp_ret.
Qed.

Lemma wp_Truncate f p F s Q : handle f s = Some p → Q tt (<[path_of f s := []]> F) s → wp (f_Truncate fault f) F s Q.
Proof using Hf. intros Hp HQ. apply sdb_wp_bind, (wp_position f p); [done|]. by apply wp_or_fail, wp_put_content. Qed.

Lemma wp_Sync f p F s Q : handle f s = Some p → Q tt F s → wp (f_Sync fault f) F s Q.
Proof using Hf. intros Hp HQ. apply sdb_wp_bind, (wp_position f p); [done|]. by apply wp_or_fail, wp_ret. Qed.

Lemma wp_Close f p F s Q : handle f s = Some p → Q tt F (set_handle f None s) → wp (f_Close fault f) F s Q.
Proof using Hf. intros Hp HQ. apply sdb_wp_bind, (wp_position f p); [done|]. by apply wp_or_fail, wp_on_db. Qed.

(** A write at the end of the file *)
Lemma wp_append f b c F s Q : handle f s = Some (length c) → F !! path_of f s = Some c →
  Q tt (<[path_of f s := c ++ b]> F) (set_handle f (Some (length (c ++ b))) s) → wp (f_Write fault f b) F s Q.
Proof using Hf.
  intros Hp Hc HQ. apply sdb_wp_bind, (wp_position f (length c)); [done|]. apply wp_syscall. cbv zeta.
  apply sdb_wp_bind, (wp_content f c); [done|]. apply sdb_wp_bind, wp_put_content, sdb_wp_bind, wp_on_db, wp_ret.
  by rewrite write_at_end, <- length_app.
Qed.

Lemma set_handle_same f p s : handle f s = Some p → set_handle f (Some p) s = s.
Proof. destruct f, s; cbn; by intros ->. Qed.

Lemma set_handle_twice f p q s : set_handle f p (set_handle f q s) = set_handle f p s.
Proof. by destruct f. Qed.

Lemma handle_set f p s : handle f (set_handle f p s) = p.
Proof. by destruct f. Qed.

Lemma wp_ReadFull f n p c F s Q : handle f s = Some p → F !! path_of f s = Some c → length (take n (drop p c)) = n →
  Q (take n (drop p c)) F (set_handle f (Some (p + n)) s) → wp (f_ReadFull fault f n) F s Q.
Proof using Hf.
  intros Hp Hc Hn HQ. apply sdb_wp_bind, (wp_position f p); [done|]. apply wp_or_fail, sdb_wp_bind, (wp_content f c); [done|]. cbv zeta.
  apply sdb_wp_bind, wp_on_db. rewrite Hn. destruct (Nat.ltb_spec n n); [lia|]. by apply wp_ret.
Qed.

Lemma wp_Read f n p c F s Q : handle f s = Some p → F !! path_of f s = Some c → length (take n (drop p c)) = n →
  (Z.of_nat n ≤ maxRW)%Z → Q (take n (drop p c)) F (set_handle f (Some (p + n)) s) → wp (f_Read fault f n) F s Q.
Proof using Hf.
  intros Hp Hc Hn Hm HQ. apply sdb_wp_bind, (wp_position f p); [done|]. destruct n as [|n].
  { apply wp_ret. rewrite Nat.add_0_r, set_handle_same in HQ by done. exact HQ. }
  apply wp_or_fail, sdb_wp_bind, (wp_content f c); [done|]. rewrite Z.min_l, Nat2Z.id by done.
  destruct (take (S n) (drop p c)) as [|x b] eqn:E; [done|]. apply sdb_wp_bind, wp_on_db, wp_ret. rewrite Hn.
  rewrite go_copy_full by (unfold zeros; by rewrite length_replicate). exact HQ.
Qed.

Lemma wp_Open f F s Q : Q tt (<[path_of f s := default [] (F !! path_of f s)]> F) (set_handle f (Some 0) s) → wp (f_Open fault f) F s Q.
Proof using Hf.
  intros HQ. apply wp_or_fail, sdb_wp_bind, wp_content_default, sdb_wp_bind, wp_put_content, wp_on_db. exact HQ.
Qed.

(** ** Records *)

Definition record_of (key value : bytes) : bytes := le_bytes 4 (Z.of_nat (length value)) ++ value ++ key.

Lemma record_length key value : length (record_of key value) = 4 + length value + length key.
Proof. unfold record_of. rewrite !length_app, le_bytes_length. lia. Qed.

Lemma wp_append_record f p c key value F s Q : handle f s = Some p → F !! path_of f s = Some c →
  (Z.of_nat (length value) < 2 ^ 32)%Z →
  Q (Z.of_nat (length c)) (<[path_of f s := c ++ record_of key value]> F) (set_handle f (Some (length (c ++ record_of key value))) s) →
  wp (append_record fault f key value) F s Q.
Proof using Hf.
  intros Hp Hc Hv HQ. unfold append_record, record_of in *. rewrite Z.mod_small by lia.
  apply sdb_wp_bind, (wp_SeekEnd f p c); [done..|]. apply sdb_wp_bind.
  eapply (wp_append f _ c); [apply handle_set|by rewrite path_set_handle|]. rewrite path_set_handle, set_handle_twice.
  apply sdb_wp_bind. eapply (wp_append f _ (c ++ _)); [apply handle_set|rewrite path_set_handle; apply lookup_insert_eq|].
  rewrite path_set_handle, set_handle_twice, insert_insert_eq.
  apply sdb_wp_bind. eapply (wp_append f _ ((c ++ _) ++ _)); [apply handle_set|rewrite path_set_handle; apply lookup_insert_eq|].
  rewrite path_set_handle, set_handle_twice, insert_insert_eq. apply wp_ret. by rewrite <- !app_assoc in *.
Qed.

(** ** The index file *)

Definition entry_bytes (e : bytes * Z) : bytes := e.1 ++ le_bytes 8 (u64 e.2).
Definition index_bytes (es : list (bytes * Z)) : bytes := concat (entry_bytes <$> es).

Lemma wp_write_entries es : ∀ c F s Q, handle Index s = Some (length c) → F !! indexPath s = Some c →
  Q tt (<[indexPath s := c ++ index_bytes es]> F) (set_handle Index (Some (length (c ++ index_bytes es))) s) →
  wp (write_entries fault es) F s Q.
Proof using Hf.
  induction es as [|[key off] es IH]; intros c F s Q Hp Hc HQ; cbn [write_entries].
  - apply wp_ret. unfold index_bytes in HQ. cbn in HQ. rewrite app_nil_r in HQ. rewrite insert_id in HQ by done.
    change {| file := file s; indexFile := Some (length c); tempFile := tempFile s; indexMap := indexMap s; dbPath := dbPath s; indexPath := indexPath s |}
      with (set_handle Index (Some (length c)) s) in HQ. by rewrite set_handle_same in HQ.
  - apply sdb_wp_bind, (wp_append Index key c); [done..|]. apply sdb_wp_bind.
    eapply (wp_append Index _ (c ++ key)); [done|apply lookup_insert_eq|].
    rewrite path_set_handle, set_handle_twice, insert_insert_eq. rewrite <- app_assoc.
    eapply (IH (c ++ key ++ _)); [done|apply lookup_insert_eq|]. cbn [path_of]. change (indexPath (set_handle _ _ s)) with (indexPath s).
    rewrite set_handle_twice, insert_insert_eq. revert HQ. unfold index_bytes. cbn [fmap list_fmap concat entry_bytes fst snd].
    unfold entry_bytes at 1 3. cbn [fst snd]. by rewrite <- !app_assoc.
Qed.

Lemma wp_saveIndex q F s Q : handle Index s = Some q →
  Q tt (<[indexPath s := index_bytes (iter (indexMap s))]> F) (set_handle Index (Some (length (index_bytes (iter (indexMap s))))) s) →
  wp (saveIndex fault iter) F s Q.
Proof using Hf.
  intros Hq HQ. unfold saveIndex. apply sdb_wp_bind, (wp_Truncate Index q); [done|].
  apply sdb_wp_bind, (wp_Seek Index q 0); [done|]. apply sdb_wp_bind, wp_get. intros n. cbn [snd].
  change (indexMap (set_handle Index (Some 0) s)) with (indexMap s).
  apply sdb_wp_bind, (wp_write_entries _ []); [done|apply lookup_insert_eq|].
  rewrite set_handle_twice. cbn [app]. change (indexPath (set_handle Index (Some 0) s)) with (indexPath s). cbn [path_of].
  rewrite insert_insert_eq. by eapply wp_Sync.
Qed.

(** An entry the index file can hold *)
Definition entry_ok (e : bytes * Z) : Prop := length e.1 = KeySize ∧ (0 ≤ e.2 < 2 ^ 63)%Z.

Lemma entry_bytes_length e : entry_ok e → length (entry_bytes e) = IndexEntry.
Proof. intros [Hk _]. unfold entry_bytes. by rewrite length_app, le_bytes_length, Hk. Qed.

Lemma index_bytes_length es : Forall entry_ok es → length (index_bytes es) = length es * IndexEntry.
Proof.
  induction 1 as [|e es He _ IH]; [done|]. unfold index_bytes in *. cbn [fmap list_fmap concat length].
  rewrite length_app, IH, entry_bytes_length by done. done.
Qed.

Definition insert_entry (m : gmap bytes Z) (e : bytes * Z) : gmap bytes Z := <[e.1 := e.2]> m.

Lemma wp_read_entries es : ∀ done_ F s Q, Forall entry_ok es → handle Index s = Some (length done_) →
  F !! indexPath s = Some (done_ ++ index_bytes es) →
  Q tt F (set_map (foldl insert_entry (indexMap s) es) (set_handle Index (Some (length (done_ ++ index_bytes es))) s)) →
  wp (read_entries fault (length es)) F s Q.
Proof using Hf.
  induction es as [|[key off] es IH]; intros done_ F s Q Hes Hp Hc HQ; cbn [read_entries length].
  - apply wp_ret. unfold index_bytes in HQ. cbn in HQ. rewrite app_nil_r in HQ. destruct s. cbn in Hp. by subst.
  - apply Forall_cons in Hes as [[Hk Ho] Hes]. cbn [fst snd] in Hk, Ho.
    unfold index_bytes in Hc, HQ. cbn [fmap list_fmap concat] in Hc, HQ. fold (index_bytes es) in Hc, HQ.
    set (e := entry_bytes (key, off)) in *.
    assert (e = key ++ le_bytes 8 (u64 off)) as Ee by done. assert (length e = IndexEntry) as He by (by apply entry_bytes_length).
    assert (take KeySize (drop (length done_) (done_ ++ e ++ index_bytes es)) = key) as Et.
    { rewrite Ee, <- app_assoc. rewrite <- Hk. apply drop_take_app. }
    assert (wp (f_Read fault Index KeySize) F s (λ k F' s', k = key ∧ F' = F ∧ s' = set_handle Index (Some (length done_ + KeySize)) s)) as Hr.
    { eapply (wp_Read Index KeySize (length done_)); [done|exact Hc|by rewrite Et|done|]. by rewrite Et. }
    intros n. destruct (Hr n) as (k & F' & n' & s' & Ek & -> & -> & ->). unfold c_try. rewrite Ek. clear n Ek Hr. revert n'.
    change (wp (b ← f_ReadFull fault Index 8; _ ← on_db (λ d, set_map (<[key := i64 (le_value b)]> (indexMap d)) d); read_entries fault (length es))
      F (set_handle Index (Some (length done_ + KeySize)) s) Q).
    assert (take 8 (drop (length done_ + KeySize) (done_ ++ e ++ index_bytes es)) = le_bytes 8 (u64 off)) as Eo.
    { rewrite Ee, <- !app_assoc, app_assoc. replace (length done_ + KeySize) with (length (done_ ++ key)) by (rewrite length_app; lia).
      rewrite drop_app_length. rewrite <- (le_bytes_length 8 (u64 off)) at 1. apply take_app_length. }
    apply sdb_wp_bind. eapply (wp_ReadFull Index 8 _ (done_ ++ e ++ index_bytes es)); [apply handle_set|by rewrite path_set_handle|by rewrite Eo, le_bytes_length|].
    rewrite Eo, set_handle_twice. apply sdb_wp_bind, wp_on_db.
    assert (i64 (le_value (le_bytes 8 (u64 off))) = off) as ->.
    { rewrite u64_small, le_value_bytes by lia. apply i64_small. lia. }
    apply (IH (done_ ++ e)); [done|rewrite length_app, He; cbn [handle set_map set_handle indexFile]; f_equal; unfold IndexEntry; lia|by rewrite <- app_assoc|].
    rewrite <- app_assoc. exact HQ.
Qed.

Lemma wp_loadIndex es q F s Q : Forall entry_ok es → handle Index s = Some q → F !! indexPath s = Some (index_bytes es) →
  Q tt F (set_map (foldl insert_entry (indexMap s) es) (set_handle Index (Some (length (index_bytes es))) s)) →
  wp (loadIndex fault) F s Q.
Proof using Hf.
  intros Hes Hq Hc HQ. unfold loadIndex. apply sdb_wp_bind, wp_or_fail, sdb_wp_bind, (wp_content Index (index_bytes es)); [done|].
  apply wp_ret, sdb_wp_bind, (wp_Seek Index q 0); [done|]. rewrite index_bytes_length by done.
  assert ((length es * IndexEntry + (IndexEntry - 1)) / IndexEntry = length es) as ->.
  { rewrite Nat.div_add_l by done. rewrite (Nat.div_small (IndexEntry - 1)) by (unfold IndexEntry, KeySize; lia). lia. }
  apply (wp_read_entries es []); [done|done|done|]. rewrite set_handle_twice. exact HQ.
Qed.

(** ** The database as a map *)

Implicit Types (M : gmap bytes bytes) (c : bytes) (im : gmap bytes Z).

(** The file holds the record of [k] and [v] at [off]. *)
Definition Holds c (off : Z) (k v : bytes) : Prop :=
  ∃ c1 c2, c = c1 ++ record_of k v ++ c2 ∧ off = Z.of_nat (length c1) ∧ length k = KeySize ∧ (Z.of_nat (length v) ≤ maxRW)%Z.

Definition Stored c im M : Prop := ∀ k,
  match im !! k, M !! k with Some off, Some v => Holds c off k v | None, None => True | _, _ => False end.

Definition paths_ok s : Prop := dbPath s ≠ indexPath s ∧ dbPath s +:+ ".tmp" ≠ indexPath s.

(** The open database [s] over the files [F] is the map [M]. *)
Record Inv F s M : Prop := {
  inv_paths : paths_ok s;
  inv_file : is_Some (file s);
  inv_index : is_Some (indexFile s) ∧ is_Some (F !! indexPath s);
  inv_data : ∃ c, F !! dbPath s = Some c ∧ (Z.of_nat (length c) < 2 ^ 63)%Z ∧ Stored c (indexMap s) M;
}.

(** What the files alone hold. *)
Definition Durable F (dbPath indexPath : string) M : Prop :=
  ∃ c es, F !! dbPath = Some c ∧ (Z.of_nat (length c) < 2 ^ 63)%Z ∧ F !! indexPath = Some (index_bytes es) ∧
    Forall entry_ok es ∧ Stored c (foldl insert_entry ∅ es) M.

Lemma holds_app c c2 off k v : Holds c off k v → Holds (c ++ c2) off k v.
Proof. intros (a & b & -> & ? & ?). exists a, (b ++ c2). by rewrite <- !app_assoc. Qed.

Lemma stored_put c im M k v : Stored c im M → length k = KeySize → (Z.of_nat (length v) ≤ maxRW)%Z →
  Stored (c ++ record_of k v) (<[k := Z.of_nat (length c)]> im) (<[k := v]> M).
Proof.
  intros HS Hk Hv k'. destruct (decide (k' = k)) as [->|].
  - rewrite !lookup_insert_eq. exists c, []. by rewrite app_nil_r.
  - rewrite !lookup_insert_ne by done. specialize (HS k'). destruct (im !! k'), (M !! k'); try done. by apply holds_app.
Qed.

Lemma stored_delete c im M k : Stored c im M → Stored c (base.delete k im) (base.delete k M).
Proof.
  intros HS k'. destruct (decide (k' = k)) as [->|]; [by rewrite !lookup_delete_eq|].
  rewrite !lookup_delete_ne by done. apply HS.
Qed.

Lemma stored_entries_ok c im M es : Stored c im M → (Z.of_nat (length c) < 2 ^ 63)%Z → es ≡ₚ map_to_list im → Forall entry_ok es.
Proof.
  intros HS Hc ->. apply Forall_forall. intros [k off] Hin. apply elem_of_map_to_list in Hin. specialize (HS k). rewrite Hin in HS.
  destruct (M !! k) as [v|]; [|done]. destruct HS as (c1 & c2 & -> & -> & Hk & _). split; [done|]. cbn [snd].
  rewrite !length_app in Hc. lia.
Qed.

Lemma insert_entries es m : NoDup es.*1 → foldl insert_entry m es = list_to_map es ∪ m.
Proof.
  revert m. induction es as [|[k off] es IH]; intros m Hnd; cbn [foldl list_to_map foldr]; [by rewrite (left_id_L ∅ (∪))|].
  cbn [fmap list_fmap fst] in Hnd. apply NoDup_cons in Hnd as [Hk Hnd]. rewrite IH by done. unfold insert_entry. cbn [fst snd].
  rewrite <- insert_union_l, insert_union_r; [done|]. by apply not_elem_of_list_to_map_1.
Qed.

Context (Hiter : ∀ m, iter m ≡ₚ map_to_list m).

Lemma reload_iter im : foldl insert_entry ∅ (iter im) = im.
Proof using Hiter.
  rewrite insert_entries, (right_id_L ∅ (∪)).
  - symmetry. apply list_to_map_flip. symmetry. apply Hiter.
  - rewrite (fmap_Permutation fst _ _ (Hiter im)). apply NoDup_fst_map_to_list.
Qed.

(** Once the index is saved the files hold the map. *)
Lemma saved_durable F s c M : F !! dbPath s = Some c → paths_ok s → (Z.of_nat (length c) < 2 ^ 63)%Z → Stored c (indexMap s) M →
  Durable (<[indexPath s := index_bytes (iter (indexMap s))]> F) (dbPath s) (indexPath s) M.
Proof using Hiter.
  intros Hc [Hp _] Hl HS. exists c, (iter (indexMap s)). rewrite lookup_insert_eq, lookup_insert_ne by done.
  split_and!; [done..| |by rewrite reload_iter]. by eapply stored_entries_ok.
Qed.

Lemma wp_save F s M Q : Inv F s M → (∀ F' s', Inv F' s' M → Durable F' (dbPath s) (indexPath s) M →
    dbPath s' = dbPath s → indexPath s' = indexPath s → F' !! dbPath s = F !! dbPath s → Q tt F' s') →
  wp (saveIndex fault iter) F s Q.
Proof using Hf Hiter.
  intros [[Hp Ht] Hfile [[q Hq] Hi] (c & Hc & Hl & HS)] HQ. apply (wp_saveIndex q); [done|]. apply HQ; [|by eapply saved_durable|done..|].
  - split; [done|done|split; [by eexists|]|]; [cbn [indexPath set_handle]; rewrite lookup_insert_eq; by eexists|].
    exists c. cbn [dbPath indexMap set_handle]. by rewrite lookup_insert_ne.
  - by rewrite lookup_insert_ne.
Qed.

(** Reading a record back *)
Lemma wp_fetch {A} c off k v F s (K : bytes → comp (Disk * SimpleDB) sdb_error A) Q : is_Some (file s) → F !! dbPath s = Some c → Holds c off k v →
  (∀ p, wp (K v) F (set_handle Data (Some p) s) Q) →
  wp (_ ← f_Seek fault Data off; n ← read_size fault; b ← f_Read fault Data n; K b) F s Q.
Proof using Hf.
  intros [p Hp] Hc (c1 & c2 & Ec & -> & Hk & Hv) HK.
  assert (drop (length c1) c = le_bytes 4 (Z.of_nat (length v)) ++ v ++ k ++ c2) as Ed.
  { rewrite Ec. unfold record_of. rewrite <- !app_assoc. apply drop_app_length. }
  assert (take 4 (drop (length c1) c) = le_bytes 4 (Z.of_nat (length v))) as E4.
  { rewrite Ed. by apply take_app_length'; rewrite le_bytes_length. }
  assert (take (length v) (drop (length c1 + 4) c) = v) as Ev.
  { rewrite <- drop_drop, Ed. rewrite drop_app_length' by (by rewrite le_bytes_length). apply take_app_length. }
  apply sdb_wp_bind, (wp_Seek Data p); [done|]. unfold read_size. apply sdb_wp_bind, sdb_wp_bind.
  eapply (wp_ReadFull Data 4 (length c1) c); [apply handle_set|done|by rewrite E4, le_bytes_length|]. apply wp_ret.
  rewrite E4, le_value_bytes, Nat2Z.id, set_handle_twice by (unfold maxRW in Hv; lia).
  apply sdb_wp_bind. eapply (wp_Read Data (length v) (length c1 + 4) c); [apply handle_set|done|by rewrite Ev|done|].
  rewrite Ev, set_handle_twice. apply HK.
Qed.

Lemma sdb_inv_handle F s M p : Inv F s M → Inv F (set_handle Data (Some p) s) M.
Proof. intros [Hp Hfile Hi Hd]. split; [done|by eexists|done|done]. Qed.

(** A binding is found; an unbound key is reported, without a system call. *)
Lemma get_ok F s M k v : Inv F s M → length k = KeySize → M !! k = Some v → wp (Get fault k) F s (λ r F' s', r = v ∧ F' = F ∧ Inv F' s' M).
Proof using Hf.
  intros HI Hk Hv. pose proof HI as [_ Hfile _ (c & Hc & Hl & HS)]. specialize (HS k). rewrite Hv in HS.
  destruct (indexMap s !! k) as [off|] eqn:Ek; [|done]. unfold Get, get_offset. rewrite Hk. cbn [Nat.eqb KeySize].
  apply sdb_wp_bind, sdb_wp_bind, wp_get. intros n. cbn [snd]. rewrite Ek. apply wp_ret.
  pose proof (wp_fetch c off k v F s mret (λ r F' s', r = v ∧ F' = F ∧ Inv F' s' M) Hfile Hc HS) as Hw.
  intros n'. destruct (Hw (λ p, wp_ret _ _ _ _ (conj eq_refl (conj eq_refl (sdb_inv_handle F s M p HI)))) n') as (r & F' & n2 & s' & E & HQ).
  exists r, F', n2, s'. split; [|done]. rewrite <- E. unfold mbind, SM_bind, comp_bind.
  destruct (f_Seek fault Data off _) as [[] ?]; try done. destruct (read_size fault _) as [[] ?]; try done.
  by destruct (f_Read fault Data _ _) as [[] ?].
Qed.

Lemma get_missing F s M k n : Inv F s M → length k = KeySize → M !! k = None →
  Get fault k ({| files := F; calls := n |}, s) = (Fail ErrKeyNotFound, ({| files := F; calls := n |}, s)).
Proof.
  intros [_ _ _ (c & Hc & Hl & HS)] Hk Hv. specialize (HS k). rewrite Hv in HS.
  destruct (indexMap s !! k) as [off|] eqn:Ek; [done|]. unfold Get, get_offset. rewrite Hk. cbn [Nat.eqb KeySize].
  unfold mbind, SM_bind, comp_bind, c_get. cbn [snd]. by rewrite Ek.
Qed.

Definition data_size F s : nat := length (default [] (F !! dbPath s)).

(** Appending a record and pointing the index at it *)
Lemma wp_insert {A} F s M k v (K : unit → comp (Disk * SimpleDB) sdb_error A) Q : Inv F s M → length k = KeySize → (Z.of_nat (length v) ≤ maxRW)%Z →
  (Z.of_nat (data_size F s + 36 + length v) < 2 ^ 63)%Z →
  (∀ F' s', Inv F' s' (<[k := v]> M) → dbPath s' = dbPath s → indexPath s' = indexPath s → data_size F' s' = data_size F s + 36 + length v → wp (K tt) F' s' Q) →
  wp (off ← append_record fault Data k v; x ← index_put k off; K x) F s Q.
Proof using Hf.
  intros [[Hp Ht] [p Hfile] [Hq Hi] (c & Hc & Hl & HS)] Hk Hv Hroom HK. unfold data_size in Hroom. rewrite Hc in Hroom. cbn in Hroom.
  apply sdb_wp_bind, (wp_append_record Data p c); [done|done|unfold maxRW in Hv; lia|].
  apply sdb_wp_bind, wp_on_db. apply HK; [|done..|].
  - split; [done|by eexists|split; [done|]|].
    + cbn [indexPath set_map set_handle path_of]. by rewrite lookup_insert_ne.
    + exists (c ++ record_of k v). cbn [dbPath indexMap set_map set_handle path_of]. rewrite lookup_insert_eq. split; [done|].
      split; [rewrite length_app, record_length, Hk; unfold KeySize; lia|by apply stored_put].
  - unfold data_size. cbn [dbPath set_map set_handle path_of]. rewrite lookup_insert_eq, Hc. cbn [default from_option id].
    rewrite length_app, record_length, Hk. unfold KeySize. lia.
Qed.

Lemma inv_delete F s M k : Inv F s M → Inv F (set_map (base.delete k (indexMap s)) s) (base.delete k M).
Proof. intros [Hp Hfile Hi (c & Hc & Hl & HS)]. split; [done..|]. exists c. split_and!; [done..|]. by apply stored_delete. Qed.

Lemma put_ok F s M k v : Inv F s M → length k = KeySize → (Z.of_nat (length v) ≤ maxRW)%Z →
  (Z.of_nat (data_size F s + 36 + length v) < 2 ^ 63)%Z →
  wp (Put fault iter k v) F s (λ _ F' s', Inv F' s' (<[k := v]> M) ∧ Durable F' (dbPath s) (indexPath s) (<[k := v]> M)).
Proof using Hf Hiter.
  intros HI Hk Hv Hroom. unfold Put. rewrite Hk. cbn [Nat.eqb KeySize]. apply sdb_wp_bind, wp_on_db.
  apply (wp_insert F _ (base.delete k M)); [by apply inv_delete|done..|]. rewrite insert_delete_eq. intros F' s' HI' Ed Ei _.
  apply (wp_save F' s' (<[k := v]> M)); [done|]. intros F2 s2 HI2 HD _ _ _. split; [done|]. by rewrite Ed, Ei in HD.
Qed.

(** ** Opening, closing and batches *)

Lemma open_ok F dp ip M s0 : Durable F dp ip M → dp ≠ ip → dp +:+ ".tmp" ≠ ip →
  wp (Open fault dp ip) F s0 (λ _ F' s', F' = F ∧ dbPath s' = dp ∧ indexPath s' = ip ∧ Inv F' s' M).
Proof using Hf.
  intros (c & es & Hc & Hl & Hi & Hes & HS) Hne Ht. unfold Open. apply sdb_wp_bind, wp_on_db.
  apply sdb_wp_bind, wp_Open. cbn [path_of dbPath closed_db]. rewrite Hc, insert_id by done.
  apply sdb_wp_bind, wp_Open. cbn [path_of indexPath set_handle closed_db]. rewrite Hi, insert_id by done.
  eapply (wp_loadIndex es); [done..|]. split_and!; [done..|].
  split; [done|by eexists|split; [by eexists|cbn; by rewrite Hi]|]. exists c. done.
Qed.

Lemma close_ok F s M : Inv F s M → wp (Close fault iter) F s (λ _ F' s',
  file s' = None ∧ indexFile s' = None ∧ Durable F' (dbPath s) (indexPath s) M).
Proof using Hf Hiter.
  intros HI. unfold Close. apply sdb_wp_bind, (wp_save F s M); [done|]. intros F1 s1 [_ [p Hp] [[q Hq] _] _] HD Ed Ei _.
  apply sdb_wp_bind, (wp_Close Data p); [done|]. by apply (wp_Close Index q).
Qed.

Lemma wp_try {A B} (m : comp (Disk * SimpleDB) sdb_error A) (k : A + sdb_error → comp (Disk * SimpleDB) sdb_error B) F s Q :
  wp m F s (λ a F' s', wp (k (inl a)) F' s' Q) → wp (c_try m k) F s Q.
Proof.
  intros Hm n. destruct (Hm n) as (a & F' & n' & s' & E & Hk). destruct (Hk n') as (b & F2 & n2 & s2 & E2 & HQ).
  exists b, F2, n2, s2. unfold c_try. by rewrite E.
Qed.

Definition insert_pair M (kv : bytes * bytes) : gmap bytes bytes := <[kv.1 := kv.2]> M.
Definition pair_ok (kv : bytes * bytes) : Prop := length kv.1 = KeySize ∧ (Z.of_nat (length kv.2) ≤ maxRW)%Z.
Definition batch_size (kvs : list (bytes * bytes)) : nat := sum_list_with (λ kv, 36 + length kv.2) kvs.

Lemma wp_put_all kvs : ∀ F s M Q, Inv F s M → Forall pair_ok kvs → (Z.of_nat (data_size F s + batch_size kvs) < 2 ^ 63)%Z →
  (∀ F' s', Inv F' s' (foldl insert_pair M kvs) → dbPath s' = dbPath s → indexPath s' = indexPath s → Q tt F' s') →
  wp (put_all fault kvs) F s Q.
Proof using Hf.
  induction kvs as [|[k v] kvs IH]; intros F s M Q HI Hok Hroom HQ; cbn [put_all]; [by apply wp_ret, HQ|].
  apply Forall_cons in Hok as [[Hk Hv] Hok]. cbn [fst snd] in Hk, Hv. rewrite Hk. cbn [Nat.eqb KeySize].
  unfold batch_size in Hroom. cbn [sum_list_with snd] in Hroom. fold (batch_size kvs) in Hroom.
  apply (wp_insert F s M); [done..|lia|]. intros F' s' HI' Ed Ei Hsz. apply (IH F' s' (<[k := v]> M)); [done..|lia|].
  intros F2 s2 HI2 Ed2 Ei2. apply HQ; [done|congruence..].
Qed.

Lemma sdb_batch_ok F s M kvs : Inv F s M → Forall pair_ok kvs → (Z.of_nat (data_size F s + batch_size kvs) < 2 ^ 63)%Z →
  wp (BatchPut fault iter kvs) F s (λ _ F' s', Inv F' s' (foldl insert_pair M kvs) ∧ Durable F' (dbPath s) (indexPath s) (foldl insert_pair M kvs)).
Proof using Hf Hiter.
  intros HI Hok Hroom. unfold BatchPut. apply sdb_wp_bind, (wp_put_all kvs F s M); [done..|]. intros F1 s1 HI1 Ed Ei.
  apply wp_try, (wp_save F1 s1 (foldl insert_pair M kvs)); [done|]. intros F2 s2 HI2 HD _ _ _. apply wp_ret. split; [done|].
  by rewrite Ed, Ei in HD.
Qed.

(** ** Compaction *)

Lemma tmp_ne (p : string) : p +:+ ".tmp" ≠ p.
Proof. intros E. apply (f_equal String.length) in E. rewrite str_app_length in E. cbn in E. lia. Qed.

(** The bindings of [M] among the entries *)
Definition take_live M (L : gmap bytes bytes) (e : bytes * Z) : gmap bytes bytes :=
  match M !! e.1 with Some v => <[e.1 := v]> L | None => L end.

Definition live_size M (es : list (bytes * Z)) : nat := sum_list_with (λ e, 36 + length (default [] (M !! e.1))) es.

Lemma wp_copy_live c im M es : (∀ k off, (k, off) ∈ es → im !! k = Some off) → Stored c im M →
  ∀ ct nm L F s Q, is_Some (file s) → is_Some (tempFile s) → F !! dbPath s = Some c → F !! (dbPath s +:+ ".tmp") = Some ct →
  Stored ct nm L →
  (∀ ct' nm' p q, Stored ct' nm' (foldl (take_live M) L es) → length ct' = length ct + live_size M es →
     Q nm' (<[dbPath s +:+ ".tmp" := ct']> F) (set_handle Temp (Some q) (set_handle Data (Some p) s))) →
  wp (copy_live fault es nm) F s Q.
Proof using Hf.
  intros Hes HS. induction es as [|[k off] es IH]; intros ct nm L F s Q [p Hp] [q Hq] Hc Ht HL HQ; cbn [copy_live].
  - apply wp_ret. specialize (HQ ct nm p q HL). cbn in HQ. rewrite insert_id in HQ by done.
    destruct s. cbn in Hp, Hq. subst. apply HQ. lia.
  - pose proof (HS k) as Hk. rewrite (Hes k off) in Hk by (by left). destruct (M !! k) as [v|] eqn:Ev; [|done].
    pose proof Hk as (_ & _ & _ & _ & Hkl & Hvl).
    apply (wp_fetch c off k v); [by eexists|done..|]. intros p'.
    apply sdb_wp_bind, (wp_append_record Temp q ct); [done|done|unfold maxRW in Hvl; lia|]. cbn [path_of].
    change (dbPath (set_handle Data (Some p') s)) with (dbPath s).
    apply (IH ltac:(intros; apply Hes; by right) (ct ++ record_of k v) _ (<[k := v]> L)); [by eexists|by eexists|..].
    + cbn [dbPath set_handle]. by rewrite lookup_insert_ne by apply tmp_ne.
    + cbn [dbPath set_handle]. apply lookup_insert_eq.
    + by apply stored_put.
    + intros ct' nm' p2 q2 HS' Hlen. cbn [dbPath set_handle]. rewrite insert_insert_eq.
      apply (HQ ct' nm' p2 q2); [cbn [foldl]; unfold take_live at 2; cbn [fst]; by rewrite Ev|].
      rewrite Hlen, length_app, record_length, Hkl. unfold live_size. cbn [sum_list_with fst]. rewrite Ev. cbn [default from_option id]. unfold KeySize. lia.
Qed.

Lemma live_lookup M es L k : foldl (take_live M) L es !! k = if decide (k ∈ es.*1 ∧ is_Some (M !! k)) then M !! k else L !! k.
Proof.
  revert L. induction es as [|[k' off] es IH]; intros L; cbn [foldl fmap list_fmap fst].
  { rewrite decide_False; [done|]. intros [Hk _]. by apply not_elem_of_nil in Hk. }
  rewrite IH. unfold take_live. cbn [fst]. pose proof (elem_of_cons es.*1 k k') as Hc.
  destruct (decide (k ∈ es.*1 ∧ is_Some (M !! k))) as [Hd|Hd]; [by rewrite decide_True by naive_solver|].
  destruct (decide (k = k')) as [->|].
  - destruct (M !! k') eqn:E; [rewrite lookup_insert_eq, decide_True by naive_solver; done|].
    rewrite decide_False; [done|]. naive_solver.
  - rewrite decide_False by naive_solver. destruct (M !! k'); [by rewrite lookup_insert_ne|done].
Qed.

Lemma live_all c im M es : es ≡ₚ map_to_list im → Stored c im M → foldl (take_live M) ∅ es = M.
Proof.
  intros Hes HS. apply map_eq. intros k. rewrite live_lookup, lookup_empty. case_decide as Hd; [done|].
  specialize (HS k). destruct (M !! k) as [v|]; [|done]. destruct (im !! k) as [off|] eqn:Ek; [|done].
  destruct Hd. split; [|by eexists]. rewrite (fmap_Permutation fst _ _ Hes). apply (list_elem_of_fmap_2 fst _ (k, off)). by apply elem_of_map_to_list.
Qed.

Lemma compact_ok F s M : Inv F s M → (Z.of_nat (live_size M (iter (indexMap s))) < 2 ^ 63)%Z →
  wp (Compact fault iter) F s (λ _ F' s', Inv F' s' M ∧ Durable F' (dbPath s) (indexPath s) M ∧ data_size F' s = live_size M (iter (indexMap s))).
Proof using Hf Hiter.
  intros [[Hp Ht] [p Hfile] [[q Hq] [ci Hi]] (c & Hc & Hl & HS)] Hroom. unfold Compact.
  apply sdb_wp_bind, wp_or_fail, sdb_wp_bind, wp_put_content, wp_on_db. cbn [path_of].
  apply sdb_wp_bind, wp_get. intros n. cbn [snd indexMap set_handle].
  apply sdb_wp_bind, (wp_copy_live c (indexMap s) M _) with (ct := []) (L := ∅); [|done|by eexists|by eexists|..].
  { intros k off Hin. rewrite Hiter in Hin. by apply elem_of_map_to_list in Hin. }
  { cbn [dbPath set_handle]. by rewrite lookup_insert_ne by apply tmp_ne. }
  { cbn [dbPath set_handle]. apply lookup_insert_eq. }
  { intros k. by rewrite !lookup_empty. }
  intros ct nm p2 q2 HSt Hlen. cbn [dbPath set_handle]. rewrite insert_insert_eq. rewrite (live_all c (indexMap s)) in HSt by done.
  apply sdb_wp_bind, (wp_Close Temp q2); [done|]. apply sdb_wp_bind, (wp_Close Data p2); [done|].
  assert (∀ F s (g : Disk * SimpleDB → Disk * SimpleDB) F' Q, (∀ n, g ({| files := F; calls := n |}, s) = ({| files := F'; calls := n |}, s)) →
    Q tt F' s → wp (or_fail fault (c_modify g)) F s Q) as Hmod.
  { intros F0 s0 g F' Q Hg HQ. apply wp_or_fail. intros n0. exists tt, F', n0, s0. unfold c_modify. by rewrite Hg. }
  apply sdb_wp_bind, (Hmod _ _ _ (base.delete (dbPath s) (<[dbPath s +:+ ".tmp" := ct]> F))); [done|].
  apply sdb_wp_bind, (Hmod _ _ _ (<[dbPath s := ct]> (base.delete (dbPath s +:+ ".tmp") (base.delete (dbPath s) (<[dbPath s +:+ ".tmp" := ct]> F))))).
  { intros n0. cbn [path_of files calls dbPath set_handle]. do 3 f_equal. rewrite lookup_delete_ne by (apply not_eq_sym, tmp_ne). by rewrite lookup_insert_eq. }
  set (F1 := <[dbPath s := ct]> _). assert (F1 !! dbPath s = Some ct) as HF1 by apply lookup_insert_eq.
  apply sdb_wp_bind, wp_Open. cbn [path_of dbPath set_handle]. rewrite HF1, insert_id by done. apply sdb_wp_bind, wp_on_db.
  apply (wp_save _ _ M).
  - split; [done|by eexists|split; [by eexists|]|].
    + cbn [indexPath set_map set_handle]. unfold F1. rewrite lookup_insert_ne, lookup_delete_ne, lookup_delete_ne, lookup_insert_ne by done. by rewrite Hi.
    + exists ct. cbn [dbPath indexMap set_map set_handle]. split; [done|]. split; [|done]. rewrite Hlen. cbn. exact Hroom.
  - intros F' s' HI' HD Ed Ei Esz. split_and!; [done..|]. unfold data_size. cbn [dbPath set_map set_handle] in Esz. rewrite Esz, HF1. cbn. by rewrite Hlen.
Qed.

(** C35: Without faults the open database is a finite map: a binding that is put is read back, and is in
    the files when the call returns; a deleted or unknown key is reported as not found, without a
    change; keys that are not 32 bytes long are refused. *)
Theorem simpledb_is_map F s M k v : Inv F s M → length k = KeySize → (Z.of_nat (length v) ≤ maxRW)%Z →
  (Z.of_nat (data_size F s + 36 + length v) < 2 ^ 63)%Z →
  wp (Put fault iter k v) F s (λ _ F' s', Inv F' s' (<[k := v]> M) ∧ Durable F' (dbPath s) (indexPath s) (<[k := v]> M)) ∧
  (∀ v', M !! k = Some v' → wp (Get fault k) F s (λ r F' s', r = v' ∧ F' = F ∧ Inv F' s' M)) ∧
  (∀ n, M !! k = None → Get fault k ({| files := F; calls := n |}, s) = (Fail ErrKeyNotFound, ({| files := F; calls := n |}, s))) ∧
  wp (Delete k) F s (λ _ F' s', F' = F ∧ Inv F' s' (base.delete k M)) ∧
  (∀ k' st, length k' ≠ KeySize → Put fault iter k' v st = (Fail ErrKeySize, st) ∧ Get fault k' st = (Fail ErrKeySize, st) ∧
     Delete k' st = (Fail ErrKeySize, st)).
Proof using Hf Hiter.
  intros HI Hk Hv Hroom. split_and!.
  - by apply put_ok.
  - intros v'. by apply get_ok.
  - intros n. by apply get_missing.
  - unfold Delete. rewrite Hk. cbn [Nat.eqb KeySize]. apply wp_on_db. split; [done|]. by apply inv_delete.
  - intros k' st Hne. apply Nat.eqb_neq in Hne. unfold Put, Get, Delete, get_offset. rewrite Hne. done.
Qed.

(** A database that is closed and opened again, or opened again after a batch without being closed,
    holds the map it held. *)
Theorem simpledb_reopen F s M kvs s0 : Inv F s M → Forall pair_ok kvs → (Z.of_nat (data_size F s + batch_size kvs) < 2 ^ 63)%Z →
  wp (Close fault iter) F s (λ _ F' _, wp (Open fault (dbPath s) (indexPath s)) F' s0 (λ _ F'' s', F'' = F' ∧ Inv F'' s' M)) ∧
  wp (BatchPut fault iter kvs) F s (λ _ F' s1, Inv F' s1 (foldl insert_pair M kvs) ∧
    wp (Open fault (dbPath s) (indexPath s)) F' s0 (λ _ F'' s', F'' = F' ∧ Inv F'' s' (foldl insert_pair M kvs))).
Proof using Hf Hiter.
  intros HI Hok Hroom. pose proof (inv_paths _ _ _ HI) as [Hp Ht].
  assert (∀ F M', Durable F (dbPath s) (indexPath s) M' →
    wp (Open fault (dbPath s) (indexPath s)) F s0 (λ _ F'' s', F'' = F ∧ Inv F'' s' M')) as Hopen.
  { intros F1 M' HD. eapply sdb_wp_mono; [by apply (open_ok F1 _ _ M')|]. by intros ? ? ? (? & _ & _ & ?). }
  split.
  - eapply sdb_wp_mono; [by apply (close_ok F s M)|]. intros _ F' s' (_ & _ & HD). by apply Hopen.
  - eapply sdb_wp_mono; [by apply (sdb_batch_ok F s M)|]. intros _ F' s' [HI' HD]. split; [done|]. by apply Hopen.
Qed.

(** Compaction keeps the map, in the files too, and leaves a data file with nothing but its records. *)
Theorem simpledb_compact F s M : Inv F s M → (Z.of_nat (live_size M (iter (indexMap s))) < 2 ^ 63)%Z →
  wp (Compact fault iter) F s (λ _ F' s', Inv F' s' M ∧ Durable F' (dbPath s) (indexPath s) M ∧ data_size F' s = live_size M (iter (indexMap s))).
Proof using Hf Hiter. apply compact_ok. Qed.

End NoFault.

(** ** Faults *)

(** A [Put] whose first system call fails has already forgotten the old binding. *)
Theorem failed_put_forgets F s M k v n j : Inv F s M → length k = KeySize → fault n = Some j →
  ∃ st, Put fault iter k v ({| files := F; calls := n |}, s) = (Fail ErrIO, st) ∧ files st.1 = F ∧
    (Get fault k st).1 = Fail ErrKeyNotFound.
Proof.
  intros HI Hk Hj. pose proof HI as [_ [p Hp] _ _]. eexists. split.
  - unfold Put. rewrite Hk. cbn [Nat.eqb KeySize]. unfold append_record, f_SeekEnd, position, or_fail, syscall, mbind, SM_bind, comp_bind, on_db, c_modify.
    cbn [handle set_map file]. rewrite Hp. cbn [calls]. by rewrite Hj.
  - split; [done|]. unfold Get, get_offset. rewrite Hk. cbn [Nat.eqb KeySize].
    unfold mbind, SM_bind, comp_bind, c_get. cbn [snd indexMap set_map]. by rewrite lookup_delete_eq.
Qed.

(** The exact effect of the calls a [Put] makes, one by one. *)
Lemma run_SeekEnd f p c F s n : handle f s = Some p → F !! path_of f s = Some c → fault n = None →
  f_SeekEnd fault f ({| files := F; calls := n |}, s) = (Ok (Z.of_nat (length c)), ({| files := F; calls := S n |}, set_handle f (Some (length c)) s)).
Proof.
  intros Hp Hc Hn. unfold f_SeekEnd, position, or_fail, syscall, content, on_db, c_modify, mbind, SM_bind, comp_bind, mret, SM_ret, comp_ret.
  rewrite Hp. cbn [calls files]. rewrite Hn. cbn [files]. rewrite Hc. done.
Qed.

Lemma run_append f b c F s n : handle f s = Some (length c) → F !! path_of f s = Some c → fault n = None →
  f_Write fault f b ({| files := F; calls := n |}, s) =
    (Ok tt, ({| files := <[path_of f s := c ++ b]> F; calls := S n |}, set_handle f (Some (length (c ++ b))) s)).
Proof.
  intros Hp Hc Hn. unfold f_Write, position, syscall, content, put_content, on_db, c_modify, mbind, SM_bind, comp_bind, mret, SM_ret, comp_ret.
  rewrite Hp. cbn [calls files]. rewrite Hn. cbn [files]. rewrite Hc. cbn [default from_option id]. rewrite write_at_end, length_app. done.
Qed.

Lemma run_append_record p c k v F s n : file s = Some p → F !! dbPath s = Some c → (Z.of_nat (length v) < 2 ^ 32)%Z →
  fault n = None → fault (S n) = None → fault (S (S n)) = None → fault (S (S (S n))) = None →
  append_record fault Data k v ({| files := F; calls := n |}, s) = (Ok (Z.of_nat (length c)),
    ({| files := <[dbPath s := c ++ record_of k v]> F; calls := S (S (S (S n))) |}, set_handle Data (Some (length (c ++ record_of k v))) s)).
Proof.
  intros Hp Hc Hv H0 H1 H2 H3. unfold append_record. rewrite (comp_bind_ok _ _ _ _ _ (run_SeekEnd Data p c F s n Hp Hc H0)).
  rewrite Z.mod_small by lia. set (b := le_bytes 4 _).
  rewrite (comp_bind_ok _ _ _ _ _ (run_append Data b c F (set_handle Data (Some (length c)) s) (S n) eq_refl Hc H1)).
  rewrite (comp_bind_ok _ _ _ _ _ (run_append Data v (c ++ b) (<[dbPath s := c ++ b]> F) (set_handle Data (Some (length (c ++ b))) s) (S (S n))
    eq_refl (lookup_insert_eq _ _ _) H2)).
  rewrite (comp_bind_ok _ _ _ _ _ (run_append Data k ((c ++ b) ++ v) (<[dbPath s := (c ++ b) ++ v]> (<[dbPath s := c ++ b]> F))
    (set_handle Data (Some (length ((c ++ b) ++ v))) s) (S (S (S n))) eq_refl (lookup_insert_eq _ _ _) H3)).
  cbn [path_of dbPath set_handle]. rewrite !insert_insert_eq. unfold record_of. fold b. rewrite <- !app_assoc. done.
Qed.

(** The index is truncated before it is written again: a [Put] that is cut off in between leaves files
    from which the database opens empty, although every record is still there. *)
Theorem interrupted_save_empties F s M k v n j : Inv F s M → length k = KeySize → (Z.of_nat (length v) ≤ maxRW)%Z →
  (Z.of_nat (data_size F s + 36 + length v) < 2 ^ 63)%Z →
  (∀ i, i < 5 → fault (n + i) = None) → fault (n + 5) = Some j →
  ∃ st, Put fault iter k v ({| files := F; calls := n |}, s) = (Fail ErrIO, st) ∧ Durable (files st.1) (dbPath s) (indexPath s) ∅.
Proof.
  intros [[Hne Ht] [p Hp] [[q Hq] Hi] (c & Hc & Hl & HS)] Hk Hv Hroom Hok Hj.
  unfold data_size in Hroom. rewrite Hc in Hroom. cbn in Hroom.
  assert (∀ i, i < 5 → fault (i + n) = None) as Hok' by (intros i ?; rewrite Nat.add_comm; auto).
  rewrite Nat.add_comm in Hj. eexists. split.
  - unfold Put. rewrite Hk. cbn [Nat.eqb KeySize]. unfold mbind at 1, SM_bind at 1, comp_bind at 1, on_db at 1, c_modify at 1. cbn beta iota.
    erewrite (comp_bind_ok _ _ _ _ _ (run_append_record p c k v F (set_map _ s) n Hp Hc ltac:(unfold maxRW in Hv; lia)
      (Hok' 0 ltac:(lia)) (Hok' 1 ltac:(lia)) (Hok' 2 ltac:(lia)) (Hok' 3 ltac:(lia)))).
    unfold index_put, saveIndex, f_Truncate, f_Seek, position, or_fail, syscall, put_content, on_db, c_modify, mbind, SM_bind, comp_bind.
    cbn [handle set_map set_handle indexFile]. rewrite Hq. cbn [calls]. rewrite (Hok' 4 ltac:(lia) : fault (S (S (S (S n)))) = None).
    cbn [handle set_map set_handle indexFile calls]. rewrite Hq. cbn [calls set_file]. change (fault (S (S (S (S (S n))))) = Some j) in Hj. by rewrite Hj.
  - cbn [fst files set_file path_of indexPath dbPath set_map set_handle].
    exists (c ++ record_of k v), []. rewrite lookup_insert_ne, lookup_insert_eq, lookup_insert_eq by done.
    split_and!; [done| |done|by constructor|intros k'; by rewrite !lookup_empty].
    rewrite length_app, record_length, Hk. unfold KeySize. lia.
Qed.

(** A deletion is not written: until something else saves the index, opening the files brings the
    binding back. *)
Theorem delete_not_durable F s M k : Inv F s M → Durable F (dbPath s) (indexPath s) M → length k = KeySize →
  ∃ s', (∀ n, Delete k ({| files := F; calls := n |}, s) = (Ok tt, ({| files := F; calls := n |}, s'))) ∧
    Inv F s' (base.delete k M) ∧ Durable F (dbPath s') (indexPath s') M.
Proof.
  intros HI HD Hk. exists (set_map (base.delete k (indexMap s)) s). split_and!; [|by apply inv_delete|done].
  intros n. unfold Delete. rewrite Hk. done.
Qed.

End Spec.

(** ** A concrete database *)

Definition no_fault : nat → option nat := λ _, None.
Definition fail_at (n : nat) : nat → option nat := λ m, if decide (m = n) then Some 0 else None.
Definition in_order : gmap bytes Z → list (bytes * Z) := map_to_list.

Definition empty_files : gmap string bytes := <["d" := []]> {["d_index" := []]}.
Definition empty_db : SimpleDB := set_handle Index (Some 0) (set_handle Data (Some 0) (closed_db "d" "d_index")).

Lemma empty_inv : Inv empty_files empty_db ∅.
Proof.
  split; [by split|by eexists|split; by eexists|]. exists []. split_and!; [done..|]. intros k. by rewrite !lookup_empty.
Qed.

Lemma empty_durable : Durable empty_files "d" "d_index" ∅.
Proof. exists [], []. split_and!; [done..|by constructor|]. intros k. by rewrite !lookup_empty. Qed.

Definition key (n : Z) : bytes := replicate 31 x00 ++ [z2b n].

Lemma simpledb_is_map_witness : wp (Put no_fault in_order (key 1) [x07]) empty_files empty_db
  (λ _ F' s', Inv F' s' {[key 1 := [x07]]} ∧ Durable F' "d" "d_index" {[key 1 := [x07]]}).
Proof.
  destruct (simpledb_is_map no_fault in_order (λ _, eq_refl) (λ _, reflexivity _) empty_files empty_db ∅ (key 1) [x07] empty_inv) as [R _];
    [done..|]. exact R.
Defined.

Lemma simpledb_reopen_witness : wp (BatchPut no_fault in_order [(key 1, [x07]); (key 2, [])]) empty_files empty_db (λ _ F' s1,
  Inv F' s1 (<[key 2 := []]> {[key 1 := [x07]]}) ∧
  wp (Open no_fault "d" "d_index") F' empty_db (λ _ F'' s', F'' = F' ∧ Inv F'' s' (<[key 2 := []]> {[key 1 := [x07]]}))).
Proof.
  destruct (simpledb_reopen no_fault in_order (λ _, eq_refl) (λ _, reflexivity _) empty_files empty_db ∅
    [(key 1, [x07]); (key 2, [])] empty_db empty_inv) as [_ R]; [by repeat constructor|done|]. exact R.
Defined.

Lemma simpledb_compact_witness : wp (Compact no_fault in_order) empty_files empty_db
  (λ _ F' s', Inv F' s' ∅ ∧ Durable F' "d" "d_index" ∅ ∧ data_size F' empty_db = 0).
Proof. exact (simpledb_compact no_fault in_order (λ _, eq_refl) (λ _, reflexivity _) empty_files empty_db ∅ empty_inv eq_refl). Defined.

Lemma failed_put_forgets_witness : ∃ st, Put (fail_at 4) in_order (key 1) [] ({| files := empty_files; calls := 4 |}, empty_db) = (Fail ErrIO, st) ∧
  files st.1 = empty_files ∧ (Get (fail_at 4) (key 1) st).1 = Fail ErrKeyNotFound.
Proof. exact (failed_put_forgets (fail_at 4) in_order empty_files empty_db ∅ (key 1) [] 4 0 empty_inv eq_refl eq_refl). Defined.

Lemma interrupted_save_empties_witness : ∃ st,
  Put (fail_at 5) in_order (key 1) [x07] ({| files := empty_files; calls := 0 |}, empty_db) = (Fail ErrIO, st) ∧ Durable (files st.1) "d" "d_index" ∅.
Proof.
  apply (interrupted_save_empties (fail_at 5) in_order empty_files empty_db ∅ (key 1) [x07] 0 0 empty_inv); [done..| |done].
  intros i Hi. unfold fail_at. rewrite decide_False by lia. done.
Defined.

Lemma delete_not_durable_witness : ∃ s',
  (∀ n, Delete (key 1) ({| files := empty_files; calls := n |}, empty_db) = (Ok tt, ({| files := empty_files; calls := n |}, s'))) ∧
  Inv empty_files s' (base.delete (key 1) ∅) ∧ Durable empty_files (dbPath s') (indexPath s') ∅.
Proof. exact (delete_not_durable empty_files empty_db ∅ (key 1) empty_inv empty_durable eq_refl). Defined.

(** ** Concurrent readers *)

(** Two readers share the position of the data file. *)
Fixpoint run_two (fault : nat → option nat) (sched : list bool) (t u : get_thread) (s : Disk * SimpleDB) : get_thread * get_thread * (Disk * SimpleDB) :=
  match sched with
  | [] => (t, u, s)
  | true :: sched => let '(t', s') := get_step fault t s in run_two fault sched t' u s'
  | false :: sched => let '(u', s') := get_step fault u s in run_two fault sched t u' s'
  end.

Definition two_keys : Disk * SimpleDB :=
  snd (BatchPut no_fault in_order [(key 1, [x0a; x0b]); (key 2, [x0c; x0d])] ({| files := empty_files; calls := 0 |}, empty_db)).

Definition start (k : bytes) : get_thread := GSeek (default 0%Z (indexMap two_keys.2 !! k)).

(** [Get] reads outside the lock: one reader alone gets its value, but when a second one seeks in
    between, the first returns the other key's value, without an error. *)
Theorem get_race :
  (run_two no_fault [true; true; true] (start (key 1)) (start (key 2)) two_keys).1.1 = GDone (Some [x0a; x0b]) ∧
  (run_two no_fault [true; false; true; true] (start (key 1)) (start (key 2)) two_keys).1.1 = GDone (Some [x0c; x0d]).
Proof. by vm_compute. Qed.
