(* ===== verification/BatchLog.v ===== *)
(** * Append-only logs of batches, puts and deletes ([pkg/storage/batchstore.go])

    A log is a sequence of gob-encoded records, each with its length in front; appending goes through
    a buffered writer that is flushed by a deferred call.  The gob codec is a parameter. *)

From S2P Require Import Prelude GoLib.
From Stdlib Require Import Strings.Byte.

Class Gob (T : Type) := { gob_Encode : T → bytes; gob_Decode : bytes → option T }.
(** A gob message carries its type, so it is never empty. *)
Class GobLaws (T : Type) `{Gob T} : Prop := {
  gob_roundtrip (x : T) : gob_Decode (gob_Encode x) = Some x;
  gob_nonempty (x : T) : gob_Encode x ≠ [];
}.

Abbreviation kv := (bytes * bytes)%type.
Abbreviation disk := (gmap string bytes).

Inductive log_error := ErrMkdir | ErrOpen | ErrWrite | ErrNotExist | ErrReadSize | ErrBadSize | ErrReadData | ErrDecode.

(** What can go wrong while appending: the directory, opening the file, and the number of bytes of
    the record that reach the file before a write fails. *)
Record append_faults := { mkdir_ok : bool; open_ok : bool; stop_at : option nat }.
Definition no_faults : append_faults := {| mkdir_ok := true; open_ok := true; stop_at := None |}.

(** The bytes of an [L]-byte record that [bufio.Writer] (4096 bytes) hands to the file before the
    final flush: none if it fits the buffer, one bufferful if the rest fits, else all of it. *)
Definition written_through (L : nat) : nat := if L <=? 4096 then 0 else if L <=? 2 * 4096 then 4096 else L.

(** [binary.Write] of the size, [writer.Write] of the data and the deferred [Flush], whose error is
    not looked at. *)
Definition write_record (f : append_faults) (data : bytes) (file : bytes) : bytes * option log_error :=
  let r := frame data in
  match stop_at f with
  | None => (file ++ r, None)
  | Some n => (file ++ take n r, if n <? written_through (length r) then Some ErrWrite else None)
  end.

Definition append_record (f : append_faults) (filename : string) (data : bytes) (d : disk) : disk * option log_error :=
  if mkdir_ok f then
    if open_ok f then
      let '(file, e) := write_record f data (default [] (d !! filename)) in (<[filename := file]> d, e)
    else (d, Some ErrOpen)
  else (d, Some ErrMkdir).

Definition maxBatch : Z := 50 * 1024 * 1024.
Definition maxEntry : Z := 10 * 1024 * 1024.

(** The reading loop: the records of a file, each at most [limit] bytes. *)
Fixpoint load_records (limit : Z) (fuel : nat) (b : bytes) : log_error + list bytes :=
  match fuel with
  | 0 => inl ErrReadSize
  | S fuel =>
      match b with
      | [] => inr []
      | _ =>
          if length b <? 8 then inl ErrReadSize
          else
            let size := i64 (le_value (take 8 b)) in
            if (size <=? 0)%Z || (limit <? size)%Z then inl ErrBadSize
            else
              let rest := drop 8 b in
              if length rest <? Z.to_nat size then inl ErrReadData
              else match load_records limit fuel (drop (Z.to_nat size) rest) with
                   | inr l => inr (take (Z.to_nat size) rest :: l)
                   | inl e => inl e
                   end
      end
  end.

(** The loops decode each record as it is read. *)
Fixpoint decode_all {T} `{Gob T} (l : list bytes) : log_error + list T :=
  match l with
  | [] => inr []
  | b :: l => match gob_Decode b with
              | None => inl ErrDecode
              | Some x => match decode_all l with inr r => inr (x :: r) | inl e => inl e end
              end
  end.

Section Logs.
Context `{Gob (list kv), Gob kv, Gob bytes}.

Definition SerializeBatch (data : list kv) : bytes := gob_Encode data.
Definition DeserializeBatch (b : bytes) : option (list kv) := gob_Decode b.
Definition PutToBytes (key value : bytes) : bytes := gob_Encode (key, value).
Definition BytesToPut (b : bytes) : option kv := gob_Decode b.

Definition AppendBatch (f : append_faults) (filename : string) (data : list kv) (d : disk) : disk * option log_error :=
  append_record f filename (SerializeBatch data) d.
Definition AppendPut (f : append_faults) (filename : string) (key value : bytes) (d : disk) : disk * option log_error :=
  append_record f filename (PutToBytes key value) d.
Definition AppendDelete (f : append_faults) (filename : string) (key : bytes) (d : disk) : disk * option log_error :=
  append_record f filename (gob_Encode key) d.

Definition load_file {T} `{Gob T} (limit : Z) (filename : string) (d : disk) : log_error + list T :=
  match d !! filename with
  | None => inl ErrNotExist
  | Some b => match load_records limit (S (length b)) b with inr l => decode_all l | inl e => inl e end
  end.

Definition LoadBatch (filename : string) (d : disk) : log_error + list kv :=
  match load_file (T:=list kv) maxBatch filename d with inr l => inr (concat l) | inl e => inl e end.
Definition LoadAllPut (filename : string) (d : disk) : log_error + list kv := load_file maxEntry filename d.
Definition LoadAllDelete (filename : string) (d : disk) : log_error + list bytes := load_file maxEntry filename d.
End Logs.

(** ** Reading back *)

Definition log_of (l : list bytes) : bytes := concat (frame <$> l).
Definition fits (limit : Z) (b : bytes) : Prop := b ≠ [] ∧ (Z.of_nat (length b) ≤ limit)%Z.

Lemma log_of_app l k : log_of (l ++ k) = log_of l ++ log_of k.
Proof. unfold log_of. by rewrite fmap_app, concat_app. Qed.

(** One record at the front of the rest of the file. *)
Lemma load_step limit fuel b rest : fits limit b → (limit < 2 ^ 63)%Z →
  load_records limit (S fuel) (frame b ++ rest) = match load_records limit fuel rest with inr l => inr (b :: l) | inl e => inl e end.
Proof.
  intros [Nb Hb] Hl. cbn [load_records]. assert (0 < length b) as Pb by (destruct b; [done|simpl; lia]).
  pose proof (frame_length b) as L. destruct (frame b ++ rest) as [|x r] eqn:E; [apply app_nil in E as [E _]; rewrite E in L; simpl in L; lia|]. rewrite <- E.
  assert ((length (frame b ++ rest) <? 8) = false) as -> by (apply Nat.ltb_ge; rewrite length_app; lia).
  rewrite frame_header, frame_value by lia. rewrite i64_small by lia.
  assert ((Z.of_nat (length b) <=? 0)%Z || (limit <? Z.of_nat (length b))%Z = false) as -> by (apply orb_false_iff; split; lia).
  rewrite frame_body, Nat2Z.id. assert ((length (b ++ rest) <? length b) = false) as -> by (apply Nat.ltb_ge; rewrite length_app; lia).
  by rewrite drop_app_length, take_app_length.
Qed.

Lemma load_log limit l : (limit < 2 ^ 63)%Z → Forall (fits limit) l → ∀ fuel rest, length l ≤ fuel →
  load_records limit fuel (log_of l ++ rest) = match load_records limit (fuel - length l) rest with inr k => inr (l ++ k) | inl e => inl e end.
Proof.
  intros Hl. induction l as [|b l IH]; intros Fl fuel rest Hf.
  - simpl. rewrite Nat.sub_0_r. by destruct (load_records limit fuel rest).
  - apply Forall_cons in Fl as [Fb Fl]. destruct fuel as [|fuel]; [simpl in Hf; lia|]. unfold log_of. rewrite fmap_cons. cbn [concat]. rewrite <- app_assoc.
    rewrite load_step by done. fold (log_of l). rewrite IH by (done || (simpl in Hf; lia)). simpl (S fuel - length (b :: l)).
    by destruct (load_records limit (fuel - length l) rest).
Qed.

(** Too much fuel does no harm: every record is at least nine bytes long. *)
Lemma log_of_length limit l : Forall (fits limit) l → 9 * length l ≤ length (log_of l).
Proof.
  induction l as [|b l IH]; intros Fl; [simpl; lia|]. apply Forall_cons in Fl as [[Nb _] Fl]. unfold log_of. rewrite fmap_cons. cbn [concat length].
  rewrite length_app, frame_length. specialize (IH Fl). unfold log_of in IH. destruct b; [done|]. simpl. lia.
Qed.

Lemma load_whole limit l : (limit < 2 ^ 63)%Z → Forall (fits limit) l → load_records limit (S (length (log_of l))) (log_of l) = inr l.
Proof.
  intros Hl Fl. pose proof (log_of_length limit l Fl). rewrite <- (app_nil_r (log_of l)) at 2. rewrite load_log by (done || lia).
  destruct (S (length (log_of l)) - length l) eqn:E; [lia|]. simpl. by rewrite app_nil_r.
Qed.

(** A record above the limit is refused. *)
Lemma oversized_record limit fuel b rest : (0 ≤ limit < Z.of_nat (length b))%Z → (Z.of_nat (length b) < 2 ^ 63)%Z →
  load_records limit (S fuel) (frame b ++ rest) = inl ErrBadSize.
Proof.
  intros Hl Hb. cbn [load_records]. pose proof (frame_length b) as L.
  destruct (frame b ++ rest) as [|x r] eqn:E; [apply app_nil in E as [E _]; rewrite E in L; simpl in L; lia|]. rewrite <- E.
  assert ((length (frame b ++ rest) <? 8) = false) as -> by (apply Nat.ltb_ge; rewrite length_app; lia).
  rewrite frame_header, frame_value by lia. rewrite i64_small by lia.
  assert ((Z.of_nat (length b) <=? 0)%Z || (limit <? Z.of_nat (length b))%Z = true) as -> by (apply orb_true_iff; right; lia). done.
Qed.

(** A proper, non-empty prefix of a record cannot be read. *)
Lemma torn_record limit fuel b n : fits limit b → (limit < 2 ^ 63)%Z → 0 < n < length (frame b) → ∃ e, load_records limit (S fuel) (take n (frame b)) = inl e.
Proof.
  intros [Nb Hb] Hl Hn. pose proof (frame_length b) as L. cbn [load_records]. assert (length (take n (frame b)) = n) as Ln by (rewrite length_take; lia).
  destruct (take n (frame b)) as [|x r] eqn:E; [simpl in Ln; lia|]. rewrite <- E in *. rewrite Ln. destruct (n <? 8) eqn:E8; [eauto|]. apply Nat.ltb_ge in E8.
  rewrite take_take, Nat.min_l by lia. pose proof (frame_header b []) as Hh. rewrite app_nil_r in Hh. rewrite Hh, frame_value by lia.
  rewrite i64_small by lia. destruct (_ || _); [eauto|]. rewrite Nat2Z.id, length_drop, Ln.
  assert ((n - 8 <? length b) = true) as -> by (apply Nat.ltb_lt; lia). eauto.
Qed.

Lemma decode_encode {T} `{GobLaws T} (l : list T) : decode_all (gob_Encode <$> l) = inr l.
Proof. induction l as [|x l IH]; [done|]. rewrite fmap_cons. cbn [decode_all]. by rewrite gob_roundtrip, IH. Qed.

(** A disk whose file holds the records of a list. *)
Definition holds (d : disk) (filename : string) (l : list bytes) : Prop := default [] (d !! filename) = log_of l.

Lemma append_ok filename b d l : holds d filename l → append_record no_faults filename b d = (<[filename := log_of (l ++ [b])]> d, None).
Proof.
  intros Hh. unfold append_record, write_record; simpl. rewrite Hh, log_of_app. unfold log_of at 3. simpl. by rewrite app_nil_r.
Qed.

Section Properties.
Context `{GobLaws (list kv), GobLaws kv, GobLaws bytes}.

Fixpoint append_batches (filename : string) (l : list (list kv)) (d : disk) : disk * list (option log_error) :=
  match l with
  | [] => (d, [])
  | b :: l => let '(d, e) := AppendBatch no_faults filename b d in let '(d, es) := append_batches filename l d in (d, e :: es)
  end.

Lemma append_batches_ok filename l : ∀ d k, holds d filename k →
  append_batches filename l d = ((if decide (l = []) then d else <[filename := log_of (k ++ (gob_Encode <$> l))]> d), replicate (length l) None).
Proof.
  induction l as [|b l IH]; intros d k Hh; [done|]. cbn [append_batches]. unfold AppendBatch, SerializeBatch. rewrite (append_ok _ _ _ _ Hh).
  rewrite (IH _ (k ++ [gob_Encode b])) by (unfold holds; by rewrite lookup_insert_eq). rewrite (decide_False (P:=b :: l = [])) by done.
  assert (k ++ (gob_Encode <$> b :: l) = (k ++ [gob_Encode b]) ++ (gob_Encode <$> l)) as -> by (by rewrite <- app_assoc).
  f_equal. case_decide as D; [subst; by rewrite app_nil_r|]. by rewrite insert_insert_eq.
Qed.

(** Batches appended one after the other are loaded as one batch in the same order. *)
Theorem batch_log_roundtrip filename l d : d !! filename = None → l ≠ [] →
  Forall (λ b, (Z.of_nat (length (SerializeBatch b)) ≤ maxBatch)%Z) l →
  let '(d', es) := append_batches filename l d in es = replicate (length l) None ∧ LoadBatch filename d' = inr (concat l).
Proof.
  intros Hd Nl Fl. rewrite (append_batches_ok filename l d []) by (unfold holds; by rewrite Hd). rewrite decide_False by done. split; [done|].
  unfold LoadBatch, load_file. rewrite lookup_insert_eq, app_nil_l. rewrite load_whole; [by rewrite decode_encode|done|].
  apply Forall_fmap. eapply Forall_impl; [exact Fl|]. intros b Hb. split; [apply gob_nonempty|done].
Qed.

(** A record that was only partly written makes the whole log unreadable: loading fails although
    every complete batch before it is intact. *)
Theorem torn_log filename l b n d : Forall (λ b, (Z.of_nat (length (SerializeBatch b)) ≤ maxBatch)%Z) (b :: l) →
  0 < n < length (frame (SerializeBatch b)) → d !! filename = Some (log_of (SerializeBatch <$> l) ++ take n (frame (SerializeBatch b))) →
  ∃ e, LoadBatch filename d = inl e.
Proof.
  intros Fl Hn Hd. unfold LoadBatch, load_file. rewrite Hd. apply Forall_cons in Fl as [Fb Fl].
  assert (Forall (fits maxBatch) (SerializeBatch <$> l)) as Fl'.
  { apply Forall_fmap. eapply Forall_impl; [exact Fl|]. intros x Hx. split; [apply gob_nonempty|done]. }
  pose proof (log_of_length _ _ Fl'). rewrite length_fmap in *. rewrite load_log by (done || (rewrite ?length_app, ?length_fmap; lia)). rewrite length_fmap.
  destruct (S (length _) - length l) as [|fuel] eqn:E; [rewrite length_app in E; lia|].
  destruct (torn_record maxBatch fuel (SerializeBatch b) n) as [e ->]; [split; [apply gob_nonempty|done]|done|done|]. eauto.
Qed.

(** A record that fits the buffer is written by the deferred flush alone, whose error is dropped:
    the append reports success whatever part of the record reached the file. *)
Theorem append_hides_failure filename b n d : length (frame (SerializeBatch b)) ≤ 4096 →
  AppendBatch {| mkdir_ok := true; open_ok := true; stop_at := Some n |} filename b d =
    (<[filename := default [] (d !! filename) ++ take n (frame (SerializeBatch b))]> d, None).
Proof.
  intros Hl. unfold AppendBatch, append_record, write_record; simpl. unfold written_through. rewrite (proj2 (Nat.leb_le _ _)) by done. done.
Qed.

(** A batch above fifty megabytes is appended without an error and makes the log unreadable. *)
Theorem oversized_batch filename b d : d !! filename = None → (maxBatch < Z.of_nat (length (SerializeBatch b)) < 2 ^ 63)%Z →
  (AppendBatch no_faults filename b d).2 = None ∧ LoadBatch filename (AppendBatch no_faults filename b d).1 = inl ErrBadSize.
Proof.
  intros Hd Hb. unfold AppendBatch. rewrite (append_ok filename _ d []) by (unfold holds; by rewrite Hd). split; [done|].
  unfold LoadBatch, load_file. cbn [fst]. rewrite lookup_insert_eq, app_nil_l. assert (log_of [SerializeBatch b] = frame (SerializeBatch b) ++ []) as -> by done.
  rewrite oversized_record by (unfold maxBatch in *; lia). done.
Qed.
End Properties.

(** ** Witnesses *)

Module LogExample.
#[local] Instance toy_bytes : Gob bytes := {| gob_Encode b := x01 :: b; gob_Decode b := match b with _ :: b => Some b | [] => None end |}.
#[local] Instance toy_bytes_laws : GobLaws bytes.
Proof. by split. Qed.

(** Each byte of the key is announced by x01, x00 ends it. *)
Fixpoint dec_key (b : bytes) : option (bytes * bytes) :=
  match b with
  | x00 :: b => Some ([], b)
  | _ :: x :: b => match dec_key b with Some (k, r) => Some (x :: k, r) | None => None end
  | _ => None
  end.
Definition enc_key (b : bytes) : bytes := foldr (λ x r, x01 :: x :: r) [x00] b.
Lemma dec_enc_key b r : dec_key (enc_key b ++ r) = Some (b, r).
Proof. induction b as [|x b IH]; [done|]. change (enc_key (x :: b) ++ r) with (x01 :: x :: (enc_key b ++ r)). cbn [dec_key]. by rewrite IH. Qed.

#[local] Instance toy_kv : Gob kv :=
  {| gob_Encode '(k, v) := enc_key k ++ v; gob_Decode b := dec_key b |}.
#[local] Instance toy_kv_laws : GobLaws kv.
Proof. split; [intros [k v]; simpl; apply dec_enc_key|]. intros [[|x k] v]; done. Qed.

Fixpoint dec_list (fuel : nat) (b : bytes) : option (list kv) :=
  match fuel, b with
  | S fuel, x00 :: _ => Some []
  | S fuel, _ :: b =>
      match dec_key b with
      | Some (k, r) => match dec_key r with
                       | Some (v, r) => match dec_list fuel r with Some l => Some ((k, v) :: l) | None => None end
                       | None => None
                       end
      | None => None
      end
  | _, _ => None
  end.
Definition enc_list (l : list kv) : bytes := foldr (λ '(k, v) r, x01 :: enc_key k ++ enc_key v ++ r) [x00] l.
Lemma dec_enc_list l : ∀ fuel, length l < fuel → dec_list fuel (enc_list l) = Some l.
Proof.
  induction l as [|[k v] l IH]; intros [|fuel] Hf; cbn [length] in Hf; try lia; [done|].
  change (enc_list ((k, v) :: l)) with (x01 :: enc_key k ++ enc_key v ++ enc_list l). cbn [dec_list]. by rewrite !dec_enc_key, IH by lia.
Qed.
Lemma enc_list_length l : length l < length (enc_list l).
Proof.
  induction l as [|[k v] l IH]; [simpl; lia|]. change (enc_list ((k, v) :: l)) with (x01 :: enc_key k ++ enc_key v ++ enc_list l).
  cbn [length]. rewrite !length_app. lia.
Qed.

#[local] Instance toy_batch : Gob (list kv) := {| gob_Encode := enc_list; gob_Decode b := dec_list (length b) b |}.
#[local] Instance toy_batch_laws : GobLaws (list kv).
Proof. split; [intros l; simpl; apply dec_enc_list, enc_list_length|]. by intros [|[k v] l]. Qed.

Definition b1 : list kv := [([x01], [x02]); ([x03], [])].
Definition b2 : list kv := [([x05], [x06])].

Lemma batch_log_roundtrip_witness : LoadBatch "f" (append_batches "f" [b1; b2] ∅).1 = inr (b1 ++ b2).
Proof.
  assert (Forall (λ b, (Z.of_nat (length (SerializeBatch b)) ≤ maxBatch)%Z) [b1; b2]) as F by (repeat constructor; by vm_compute).
  pose proof (batch_log_roundtrip "f" [b1; b2] ∅ (lookup_empty _) ltac:(done) F) as R.
  destruct (append_batches "f" [b1; b2] ∅) as [d es]. by destruct R as [_ R].
Defined.

Lemma torn_log_witness : ∃ e, LoadBatch "f" {[ "f" := log_of (SerializeBatch <$> [b1]) ++ take 10 (frame (SerializeBatch b2)) ]} = inl e.
Proof.
  apply (torn_log "f" [b1] b2 10); [repeat constructor; by vm_compute|vm_compute; lia|by vm_compute].
Defined.

Lemma append_hides_failure_witness :
  AppendBatch {| mkdir_ok := true; open_ok := true; stop_at := Some 0 |} "f" b1 ∅ = (<[ "f" := [] ]> ∅, None).
Proof. rewrite (append_hides_failure "f" b1 0 ∅) by (vm_compute; lia). done. Defined.

Lemma oversized_batch_witness :
  let b := [(replicate (Z.to_nat (26 * 1024 * 1024)) x00, [])] in
  LoadBatch "f" (AppendBatch no_faults "f" b ∅).1 = inl ErrBadSize.
Proof.
  apply (oversized_batch "f"); [done|]. unfold SerializeBatch, gob_Encode, toy_batch, enc_list, foldr. rewrite !length_cons, !length_app.
  assert (∀ k, length (enc_key k) = 2 * length k + 1) as E by (intros k; induction k; simpl in *; lia).
  rewrite !E, length_replicate. unfold maxBatch. simpl (length _). lia.
Defined.
End LogExample.
