(* ===== verification/ShardedDB.v ===== *)
(** * The sharded database ([pkg/storage/sharded_db.go], [pkg/storage/replicated_leveldb.go])

    A database split over several LevelDB instances by the hash of the key.  Each instance keeps a
    snapshot that is renewed after every write; reads go to the snapshot first.  The calls into
    LevelDB may fail; the work of the goroutines of a batch is done shard by shard in any order. *)

From S2P Require Import Prelude GoLib.
From Stdlib Require Import Strings.Byte.

Abbreviation kv := (bytes * bytes)%type.
Abbreviation content := (gmap bytes bytes).

Inductive handle_state := NotOpen | IsOpen | Closed.

(** [primary] is the content of the files, read through [primaryDB] once it is open. *)
Record ReplicatedLevelDB := {
  path : string;
  primaryDB : handle_state;
  primary : content;
  snapshot : option content;    (** [None] is the nil snapshot *)
  released : bool;              (** the snapshot was released *)
  calls : nat;                  (** LevelDB calls made so far *)
}.

Inductive rdb_error := ErrIO | ErrNotFound | ErrNoSnapshot.

Definition NewReplicatedLevelDB (path : string) (files : content) : ReplicatedLevelDB :=
  {| path := path; primaryDB := NotOpen; primary := files; snapshot := None; released := false; calls := 0 |}.

Definition put_all (kvs : list kv) (m : content) : content := foldl (λ m '(k, v), <[k := v]> m) m kvs.

Section Replicated.
(** [ok n] says whether the [n]-th LevelDB call of this instance succeeds. *)
Context (ok : nat → bool).

Definition RM : Type → Type := comp ReplicatedLevelDB rdb_error.
#[local] Instance RM_ret : MRet RM := comp_ret.
#[local] Instance RM_bind : MBind RM := comp_bind.

Definition upd (h : handle_state) (p : content) (s : option content) (rel : bool) (r : ReplicatedLevelDB) : ReplicatedLevelDB :=
  {| path := path r; primaryDB := h; primary := p; snapshot := s; released := rel; calls := calls r |}.
Definition set_primary (p : content) (r : ReplicatedLevelDB) : ReplicatedLevelDB := upd (primaryDB r) p (snapshot r) (released r) r.
Definition set_snapshot (s : option content) (rel : bool) (r : ReplicatedLevelDB) : ReplicatedLevelDB := upd (primaryDB r) (primary r) s rel r.
Definition set_db (h : handle_state) (r : ReplicatedLevelDB) : ReplicatedLevelDB := upd h (primary r) (snapshot r) (released r) r.

(** A LevelDB call on the primary: a nil handle panics, a closed one always fails. *)
Definition ldb_call : RM bool := λ r,
  let r' := {| path := path r; primaryDB := primaryDB r; primary := primary r; snapshot := snapshot r; released := released r; calls := S (calls r) |} in
  match primaryDB r with
  | NotOpen => (Panic, r)
  | IsOpen => (Ok (ok (calls r)), r')
  | Closed => (Ok false, r')
  end.

Definition updateSnapshot : RM unit :=
  _ ← c_modify (λ r, match snapshot r with Some s => set_snapshot (Some s) true r | None => r end);
  b ← ldb_call;
  if b : bool then c_modify (λ r, set_snapshot (Some (primary r)) false r)
  else _ ← c_modify (λ r, set_snapshot None false r); c_fail ErrIO.

(** At most five attempts to open; each is a call that may fail. *)
Fixpoint open_loop (n : nat) : RM bool :=
  match n with
  | 0 => mret false
  | S n =>
      r ← c_get;
      _ ← c_modify (λ r, {| path := path r; primaryDB := if ok (calls r) then IsOpen else NotOpen; primary := primary r;
                            snapshot := snapshot r; released := released r; calls := S (calls r) |});
      if ok (calls r) then mret true else open_loop n
  end.

(** [Open]; [dir] says whether the directory could be made. *)
Definition Open (dir : bool) : RM unit :=
  if dir then
    b ← open_loop 5;
    if b : bool then
      b ← ldb_call;
      if b : bool then c_modify (λ r, set_snapshot (Some (primary r)) false r)
      else _ ← c_modify (λ r, set_snapshot None false r); c_fail ErrIO
    else c_fail ErrIO
  else c_fail ErrIO.

Definition rPut (key value : bytes) : RM unit :=
  b ← ldb_call;
  if b : bool then _ ← c_modify (λ r, set_primary (<[key := value]> (primary r)) r); updateSnapshot else c_panic.

Definition rBatchPut (kvs : list kv) : RM unit :=
  b ← ldb_call;
  if b : bool then _ ← c_modify (λ r, set_primary (put_all kvs (primary r)) r); updateSnapshot else c_fail ErrIO.

(** A read of the snapshot: a released one always fails. *)
Definition snapshot_get (key : bytes) : RM (option bytes) :=
  b ← ldb_call;
  r ← c_get;
  mret (if (b : bool) && negb (released r) then snapshot r ≫= lookup key else None).

Definition rGet (key : bytes) : RM bytes :=
  r ← c_get;
  match snapshot r with
  | None => c_fail ErrNoSnapshot
  | Some _ =>
      v ← snapshot_get key;
      match v : option bytes with
      | Some v => mret v
      | None =>
          b ← ldb_call;
          if b : bool then r ← c_get; match primary r !! key with Some v => mret v | None => c_fail ErrNotFound end
          else c_fail ErrIO
      end
  end.

Definition rDelete (key : bytes) : RM unit :=
  b ← ldb_call;
  if b : bool then _ ← c_modify (λ r, set_primary (delete key (primary r)) r); updateSnapshot else c_fail ErrIO.

Definition rHas (key : bytes) : RM bool :=
  r ← c_get;
  match snapshot r with None => mret false | Some _ => v ← snapshot_get key; mret (bool_decide (is_Some (v : option bytes))) end.

(** [Close]: the snapshot is released but not forgotten. *)
Definition rClose : RM unit :=
  _ ← c_modify (λ r, match snapshot r with Some s => set_snapshot (Some s) true r | None => r end);
  c_modify (λ r, match primaryDB r with NotOpen => r | _ => set_db Closed r end).

End Replicated.

(** ** The shards *)

Record ShardelDB := {
  shards : list ReplicatedLevelDB;
  numShards : Z;
  parallelism : Z;
  backupPath : string;
  dbPath : string;
}.

Section Sharded.
(** The MD5 hash, and the failures of each shard. *)
Context (md5 : bytes → bytes) (ok : nat → nat → bool).

Definition DM : Type → Type := comp ShardelDB rdb_error.
#[local] Instance DM_ret : MRet DM := comp_ret.
#[local] Instance DM_bind : MBind DM := comp_bind.

(** Shard types 0 and 1 are known, and both are LevelDB. *)
Definition NewShardelDB (baseDir : string) (n : Z) (parallel : Z) (dbType : Z) (backup : string) (files : nat → content) : option ShardelDB :=
  if (0 <? n)%Z && negb ((dbType =? 0) || (dbType =? 1))%Z then None
  else Some {| shards := (λ i, NewReplicatedLevelDB (baseDir +:+ "/db_shard_" +:+ FormatUint (Z.of_nat i)) (files i)) <$> seq 0 (Z.to_nat n);
               numShards := n; parallelism := parallel; backupPath := backup; dbPath := baseDir |}.

(** The first four bytes of the hash, modulo the number of shards, both as 32-bit numbers; a zero
    divisor panics. *)
Definition getShardIndex (key : bytes) (s : ShardelDB) : option nat :=
  let h := big_SetBytes (take 4 (md5 key)) in
  let n := (numShards s mod 2 ^ 32)%Z in
  if decide (n = 0%Z) then None else Some (Z.to_nat (h mod n)).

Definition with_shards (l : list ReplicatedLevelDB) (s : ShardelDB) : ShardelDB :=
  {| shards := l; numShards := numShards s; parallelism := parallelism s; backupPath := backupPath s; dbPath := dbPath s |}.

(** Run an operation on one shard. *)
Definition on_shard {A} (i : nat) (op : (nat → bool) → comp ReplicatedLevelDB rdb_error A) : DM A := λ s,
  match shards s !! i with
  | None => (Panic, s)
  | Some r => let '(o, r') := op (ok i) r in (o, with_shards (<[i := r']> (shards s)) s)
  end.

(** [getShard] and a call on the result. *)
Definition on_key {A} (key : bytes) (op : (nat → bool) → comp ReplicatedLevelDB rdb_error A) : DM A := λ s,
  match getShardIndex key s with Some i => on_shard i op s | None => (Panic, s) end.

Definition Put (key value : bytes) : DM unit := on_key key (λ ok, rPut ok key value).
Definition Get (key : bytes) : DM bytes := on_key key (λ ok, rGet ok key).
Definition Delete (key : bytes) : DM unit := on_key key (λ ok, rDelete ok key).
Definition Has (key : bytes) : DM bool := value ← Get key; mret (bool_decide (0 < length value)).

Fixpoint open_each (idxs : list nat) (dir : nat → bool) : DM unit :=
  match idxs with [] => mret tt | i :: idxs => _ ← on_shard i (λ ok, Open ok (dir i)); open_each idxs dir end.
Definition OpenAll (dir : nat → bool) : DM unit := s ← c_get; open_each (seq 0 (length (shards s))) dir.

Fixpoint close_each (idxs : list nat) : DM unit :=
  match idxs with [] => mret tt | i :: idxs => _ ← on_shard i (λ _, rClose); close_each idxs end.
Definition CloseAll : DM unit := s ← c_get; close_each (seq 0 (length (shards s))).

(** The items of a batch by shard. *)
Fixpoint group {A} (key : A → bytes) (l : list A) (acc : gmap nat (list A)) (s : ShardelDB) : option (gmap nat (list A)) :=
  match l with
  | [] => Some acc
  | x :: l => i ← getShardIndex (key x) s; group key l (<[i := default [] (acc !! i) ++ [x]]> acc) s
  end.

(** The goroutines of an [errgroup], in some order; all of them run, and the first error is kept. *)
Fixpoint run_group {A} (work : nat → A → DM unit) (l : list (nat * A)) (err : option rdb_error) : DM unit :=
  match l with
  | [] => match err with Some e => c_fail e | None => mret tt end
  | (i, a) :: l =>
      c_try (work i a) (λ r, run_group work l (match err, r with None, inr e => Some e | _, _ => err end))
  end.

Definition BatchPut (order : gmap nat (list kv) → list (nat * list kv)) (kvs : list kv) : DM unit := λ s,
  match group fst kvs ∅ s with
  | None => (Panic, s)
  | Some shardBatches => run_group (λ i batch, on_shard i (λ ok, rBatchPut ok batch)) (order shardBatches) None s
  end.

(** The keys of one shard, deleted one by one until the first error. *)
Fixpoint delete_keys (i : nat) (keys : list bytes) : DM unit :=
  match keys with [] => mret tt | k :: keys => _ ← on_shard i (λ ok, rDelete ok k); delete_keys i keys end.

Definition BatchDelete (order : gmap nat (list bytes) → list (nat * list bytes)) (keys : list bytes) : DM unit := λ s,
  match group id keys ∅ s with
  | None => (Panic, s)
  | Some shardKeys => run_group delete_keys (order shardKeys) None s
  end.

(** ** Write batches *)

Abbreviation shardBatch := (gmap nat (list kv)).

Definition batch_Put (s : ShardelDB) (key value : bytes) (b : shardBatch) : option shardBatch :=
  i ← getShardIndex key s; Some (<[i := default [] (b !! i) ++ [(key, value)]]> b).

(** The entry without its first pair under the key. *)
Fixpoint remove_first (key : bytes) (l : list kv) : option (list kv) :=
  match l with
  | [] => None
  | (k, v) :: l => if decide (k = key) then Some l else match remove_first key l with Some l' => Some ((k, v) :: l') | None => None end
  end.

Definition batch_Delete (s : ShardelDB) (key : bytes) (b : shardBatch) : option shardBatch :=
  i ← getShardIndex key s;
  Some match remove_first key (default [] (b !! i)) with Some l => <[i := l]> b | None => b end.

Definition batch_Write (order : shardBatch → list (nat * list kv)) (b : shardBatch) : DM unit :=
  run_group (λ i batch, match batch with [] => mret tt | _ => on_shard i (λ ok, rBatchPut ok batch) end) (order b) None.

Definition batch_ValueSize (b : shardBatch) : Z :=
  map_fold (λ _ l total, foldl (λ total '(k, v), total + Z.of_nat (length k + length v))%Z total l) 0%Z b.

Definition batch_Reset (b : shardBatch) : shardBatch := (λ _, []) <$> b.

End Sharded.
