(* ===== verification/ShardedDBTheorems.v ===== *)
(** * The sharded database is one map

    [Rep m s] says that the shards of [s] are open, have current snapshots and together hold [m]. *)

From S2P Require Import Prelude GoLib ShardedDB.
From Stdlib Require Import Strings.Byte.

Implicit Types (s : ShardelDB) (k : bytes) (r : ReplicatedLevelDB) (m p : content).

(** ** One shard *)

(** An open instance whose snapshot is current. *)
Record synced (r : ReplicatedLevelDB) : Prop := {
  syn_open : primaryDB r = IsOpen;
  syn_snapshot : snapshot r = Some (primary r);
  syn_live : released r = false;
}.

Section Shard.
Context (ok : nat → bool).

(** Runs an operation of an open instance by cases on its calls. *)
Ltac shard_cases r E :=
  destruct r as [p h m s rel c]; simpl in E; subst h; destruct s as [s|];
  unfold rPut, rBatchPut, rDelete, rGet, snapshot_get, updateSnapshot, ldb_call, c_modify, c_get, c_fail, c_panic, mbind, RM_bind, comp_bind; simpl;
  destruct (ok c); simpl; destruct (ok (S c)); simpl.

(** A batch is written when the first call succeeds, and reported as written when the snapshot could
    also be renewed; likewise for a deletion. *)
Lemma rBatchPut_cases kvs (r : ReplicatedLevelDB) : primaryDB r = IsOpen → ∃ r',
  rBatchPut ok kvs r = (if ok (calls r) && ok (S (calls r)) then Ok tt else Fail ErrIO, r') ∧
  primary r' = (if ok (calls r) then put_all kvs (primary r) else primary r) ∧ primaryDB r' = IsOpen ∧
  (ok (calls r) && ok (S (calls r)) = true → synced r').
Proof.
  intros E. by shard_cases r E; eexists; split_and!; [done..|by intros ?; split].
Qed.

Lemma rDelete_cases key (r : ReplicatedLevelDB) : primaryDB r = IsOpen → ∃ r',
  rDelete ok key r = (if ok (calls r) && ok (S (calls r)) then Ok tt else Fail ErrIO, r') ∧
  primary r' = (if ok (calls r) then delete key (primary r) else primary r) ∧ primaryDB r' = IsOpen ∧
  (ok (calls r) && ok (S (calls r)) = true → synced r').
Proof.
  intros E. by shard_cases r E; eexists; split_and!; [done..|by intros ?; split].
Qed.

(** Without failures every operation does what it says and leaves the snapshot current. *)
Context (reliable : ∀ n, ok n = true).

Lemma rPut_ok key value (r : ReplicatedLevelDB) : synced r →
  ∃ r', rPut ok key value r = (Ok tt, r') ∧ synced r' ∧ primary r' = <[key := value]> (primary r).
Proof.
  intros [E S1 S2]. destruct r as [p h m s rel c]; simpl in *; simplify_eq.
  unfold rPut, updateSnapshot, ldb_call, c_modify, mbind, RM_bind, comp_bind; simpl. rewrite (reliable c). simpl. rewrite (reliable (S c)). simpl.
  eexists. split_and!; [done|by split|done].
Qed.

Lemma rGet_ok key (r : ReplicatedLevelDB) : synced r →
  ∃ r', rGet ok key r = (match primary r !! key with Some v => Ok v | None => Fail ErrNotFound end, r') ∧ synced r' ∧ primary r' = primary r.
Proof.
  intros [E S1 S2]. destruct r as [p h m s rel c]; simpl in *; simplify_eq.
  unfold rGet, snapshot_get, ldb_call, c_get, mbind, RM_bind, comp_bind; simpl. rewrite (reliable c). simpl.
  destruct (m !! key) as [v|] eqn:Em; simpl.
  - eexists. split_and!; [done|by split|done].
  - rewrite (reliable (S c)). simpl. rewrite Em. eexists. split_and!; [done|by split|done].
Qed.

Lemma rBatchPut_ok kvs (r : ReplicatedLevelDB) : synced r →
  ∃ r', rBatchPut ok kvs r = (Ok tt, r') ∧ synced r' ∧ primary r' = put_all kvs (primary r).
Proof.
  intros S. destruct (rBatchPut_cases kvs r (syn_open _ S)) as (r' & E & P & _ & Sy). rewrite !reliable in *. eauto.
Qed.

Lemma rDelete_ok key (r : ReplicatedLevelDB) : synced r →
  ∃ r', rDelete ok key r = (Ok tt, r') ∧ synced r' ∧ primary r' = delete key (primary r).
Proof.
  intros S. destruct (rDelete_cases key r (syn_open _ S)) as (r' & E & P & _ & Sy). rewrite !reliable in *. eauto.
Qed.

End Shard.

(** ** All shards *)

Lemma big_SetBytes_nonneg b : (0 ≤ big_SetBytes b)%Z.
Proof.
  unfold big_SetBytes. assert (∀ a, (0 ≤ a)%Z → (0 ≤ foldl (λ a x, (a * 256 + b2z x)%Z) a b)%Z) as G; [|by apply G].
  induction b as [|x b IH]; intros a Ha; simpl; [done|]. apply IH. pose proof (b2z_range x). lia.
Qed.

Section All.
Context (md5 : bytes → bytes).

Definition sizes (s : ShardelDB) : Prop := (0 < numShards s < 2 ^ 32)%Z ∧ length (shards s) = Z.to_nat (numShards s).

(** The shard of a key, from the number of shards. *)
Definition home (n : Z) (key : bytes) : nat := Z.to_nat (big_SetBytes (take 4 (md5 key)) mod n).

Lemma home_lt s key : sizes s → home (numShards s) key < length (shards s).
Proof. intros [N L]. rewrite L. unfold home. pose proof (Z.mod_pos_bound (big_SetBytes (take 4 (md5 key))) (numShards s)). lia. Qed.

Lemma shard_index s key : sizes s → getShardIndex md5 key s = Some (home (numShards s) key).
Proof. intros [N L]. unfold getShardIndex. rewrite Z.mod_small by lia. rewrite decide_False by lia. done. Qed.

Lemma group_spec {A} (key : A → bytes) s l : sizes s → ∀ acc, ∃ g, group md5 key l acc s = Some g ∧
  ∀ i, g !! i = match default [] (acc !! i) ++ filter (λ x, home (numShards s) (key x) = i) l with
                | [] => acc !! i | l' => Some l' end.
Proof.
  intros Sz. induction l as [|x l IH]; intros acc; simpl.
  - exists acc. split; [done|]. intros i. rewrite app_nil_r. by destruct (acc !! i) as [[|]|].
  - rewrite shard_index by done. simpl. destruct (IH (<[home (numShards s) (key x) := default [] (acc !! home (numShards s) (key x)) ++ [x]]> acc)) as (g & -> & Hg).
    exists g. split; [done|]. intros i. rewrite Hg, filter_cons. destruct (decide (home (numShards s) (key x) = i)) as [<-|N].
    + rewrite lookup_insert_eq. simpl. rewrite <- app_assoc. by destruct (default [] _).
    + by rewrite lookup_insert_ne.
Qed.

Lemma put_all_filter n kvs : ∀ p m k, p !! k = m !! k →
  put_all (filter (λ x, home n x.1 = home n k) kvs) p !! k = put_all kvs m !! k.
Proof.
  induction kvs as [|[k' v] kvs IH]; intros p m k E; [done|]. rewrite filter_cons. simpl. case_decide as D; simpl.
  - apply IH. destruct (decide (k' = k)) as [->|]; [by rewrite !lookup_insert_eq|]. by rewrite !lookup_insert_ne.
  - apply IH. rewrite lookup_insert_ne; [done|]. by intros ->.
Qed.

Definition delete_all (keys : list bytes) m : content := foldl (λ m k, delete k m) m keys.

Lemma delete_all_filter n keys : ∀ p m k, p !! k = m !! k →
  delete_all (filter (λ x, home n x = home n k) keys) p !! k = delete_all keys m !! k.
Proof.
  induction keys as [|k' keys IH]; intros p m k E; [done|]. rewrite filter_cons. simpl. case_decide as D; simpl.
  - apply IH. destruct (decide (k' = k)) as [->|]; [by rewrite !lookup_delete_eq|]. by rewrite !lookup_delete_ne.
  - apply IH. rewrite lookup_delete_ne; [done|]. by intros ->.
Qed.

Lemma on_shard_lookup {A} ok i (op : (nat → bool) → comp ReplicatedLevelDB rdb_error A) s r : shards s !! i = Some r →
  on_shard ok i op s = ((op (ok i) r).1, with_shards (<[i := (op (ok i) r).2]> (shards s)) s).
Proof. intros E. unfold on_shard. rewrite E. by destruct (op (ok i) r). Qed.

(** Some shard of the list fails. *)
Definition any_fails {A} (fails : nat → A → ReplicatedLevelDB → bool) (s : ShardelDB) (l : list (nat * A)) : bool :=
  existsb (λ '(i, a), match shards s !! i with Some r => fails i a r | None => false end) l.

Lemma any_fails_ext {A} (fails : nat → A → ReplicatedLevelDB → bool) s s' l :
  (∀ i a, (i, a) ∈ l → shards s !! i = shards s' !! i) → any_fails fails s l = any_fails fails s' l.
Proof.
  unfold any_fails. induction l as [|[j b] l IH]; intros Hl; [done|]. simpl. rewrite (Hl j b) by left. f_equal. apply IH. intros; eapply Hl; by right.
Qed.

(** The goroutines of a batch touch one shard each: afterwards every shard in the batch has done its
    own work, whatever happened to the others, and an error is reported exactly when one failed. *)
Lemma run_group_spec {A} ok (work : nat → A → DM unit) (op : A → (nat → bool) → comp ReplicatedLevelDB rdb_error unit) (fails : nat → A → ReplicatedLevelDB → bool) l :
  (∀ i a s r, shards s !! i = Some r → work i a s = on_shard ok i (op a) s) → ∀ s err,
  NoDup l.*1 →
  (∀ i a, (i, a) ∈ l → ∃ r, shards s !! i = Some r ∧ (op a (ok i) r).1 = if fails i a r then Fail ErrIO else Ok tt) →
  err = None ∨ err = Some ErrIO →
  ∃ s', run_group work l err s =
      (if bool_decide (err = None) && negb (any_fails fails s l) then Ok tt else Fail ErrIO, s') ∧
    numShards s' = numShards s ∧ length (shards s') = length (shards s) ∧
    (∀ i a r, (i, a) ∈ l → shards s !! i = Some r → shards s' !! i = Some (op a (ok i) r).2) ∧
    (∀ i, i ∉ l.*1 → shards s' !! i = shards s !! i).
Proof.
  intros Hw. induction l as [|[i a] l IH]; intros s err Nd Hl He.
  - exists s. split_and!; [|done..|intros ? ? ? Hi; by apply not_elem_of_nil in Hi|done]. by destruct He as [->| ->].
  - rewrite fmap_cons in Nd. apply NoDup_cons in Nd as [Ni Nd]. destruct (Hl i a) as (r & Er & Eo); [left|].
    cbn [run_group]. unfold c_try. rewrite (Hw _ _ _ _ Er), (on_shard_lookup _ _ _ _ _ Er), Eo. set (s1 := with_shards _ s).
    assert (∀ j, j ≠ i → shards s1 !! j = shards s !! j) as Sj by (intros j Nj; unfold s1; simpl; by rewrite list_lookup_insert_ne).
    assert (∀ j b, (j, b) ∈ l → j ≠ i) as Nj by (intros j b Hj ->; apply Ni; by apply (list_elem_of_fmap_2 fst _ (i, b))).
    assert (any_fails fails s1 l = any_fails fails s l) as Af by (apply any_fails_ext; intros; apply Sj; by eapply Nj).
    assert (∀ err', err' = None ∨ err' = Some ErrIO → bool_decide (err' = None) && negb (any_fails fails s l) =
        bool_decide (err = None) && negb (any_fails fails s ((i, a) :: l)) →
      ∃ s', run_group work l err' s1 =
          (if bool_decide (err = None) && negb (any_fails fails s ((i, a) :: l)) then Ok tt else Fail ErrIO, s') ∧
        numShards s' = numShards s ∧ length (shards s') = length (shards s) ∧
        (∀ j b r, (j, b) ∈ (i, a) :: l → shards s !! j = Some r → shards s' !! j = Some (op b (ok j) r).2) ∧
        (∀ j, j ∉ ((i, a) :: l).*1 → shards s' !! j = shards s !! j)) as G.
    { intros err' He' Eb. destruct (IH s1 err' Nd) as (s' & Es & N' & L' & Q & U); [|done|].
      - intros j b Hj. rewrite Sj by (by eapply Nj). apply Hl. by right.
      - exists s'. rewrite Es, Af, Eb, N', L'. split_and!; [done|done|unfold s1; simpl; by rewrite length_insert| |].
        + intros j b rj [[= -> ->]|Hj]%elem_of_cons Ej; [|apply Q; [done|]; by rewrite Sj by (by eapply Nj)].
          rewrite U by done. unfold s1; simpl. rewrite list_lookup_insert_eq by (by eapply lookup_lt_Some). by simplify_eq.
        + intros j Hj. rewrite fmap_cons in Hj. apply not_elem_of_cons in Hj as [Nji Hj]. rewrite U by done. by apply Sj. }
    unfold any_fails in G |- *; cbn [existsb] in G |- *. rewrite Er in G |- *.
    destruct (fails i a r); (apply G; [destruct He as [->| ->]; auto|]); destruct He as [->| ->]; done.
Qed.

(** ** Refinement *)

Record Rep (m : content) (s : ShardelDB) : Prop := {
  rep_sizes : sizes s;
  rep_synced i r : shards s !! i = Some r → synced r;
  rep_view k i r : shards s !! i = Some r → home (numShards s) k = i → primary r !! k = m !! k;
}.

Lemma rep_shard m s k : Rep m s → ∃ r, shards s !! home (numShards s) k = Some r ∧ synced r ∧ primary r !! k = m !! k.
Proof.
  intros R. destruct (lookup_lt_is_Some_2 _ _ (home_lt s k (rep_sizes _ _ R))) as [r Hr]. exists r.
  split_and!; [done|by eapply rep_synced|by eapply rep_view].
Qed.

(** Replacing the shard of a key. *)
Lemma rep_update (m m' : content) s (k : bytes) r' : Rep m s → synced r' →
  (∀ k', home (numShards s) k' = home (numShards s) k → primary r' !! k' = m' !! k') →
  (∀ k', home (numShards s) k' ≠ home (numShards s) k → m' !! k' = m !! k') →
  Rep m' (with_shards (<[home (numShards s) k := r']> (shards s)) s).
Proof.
  intros [Sz Sy V] S' V1 V2. pose proof (home_lt s k Sz). split; simpl.
  - destruct Sz. split; [done|]. simpl. by rewrite length_insert.
  - intros i r [(_ & -> & _)|[_ E]]%list_lookup_insert_Some; [done|by eapply Sy].
  - intros k' i r [(<- & -> & _)|[N E]]%list_lookup_insert_Some Hk; [by apply V1|]. rewrite V2 by congruence. by eapply V.
Qed.

Section Reliable.
Context (ok : nat → nat → bool) (reliable : ∀ i n, ok i n = true).

Lemma on_key_ok {A} m s (k : bytes) (op : (nat → bool) → comp ReplicatedLevelDB rdb_error A) (m' : content) (o : outcome rdb_error A) : Rep m s →
  (∀ r, synced r → primary r !! k = m !! k → ∃ r', op (ok (home (numShards s) k)) r = (o, r') ∧ synced r' ∧
     ∀ k', home (numShards s) k' = home (numShards s) k → primary r !! k' = m !! k' → primary r' !! k' = m' !! k') →
  (∀ k', k' ≠ k → m' !! k' = m !! k') →
  ∃ s', on_key md5 ok k op s = (o, s') ∧ Rep m' s'.
Proof.
  intros R Hop Hm. destruct (rep_shard m s k R) as (r & Er & Sr & Vr). destruct (Hop r Sr Vr) as (r' & Eo & S' & V').
  eexists. unfold on_key. rewrite (shard_index _ _ (rep_sizes _ _ R)), (on_shard_lookup _ _ _ _ _ Er), Eo. split; [done|]. simpl.
  apply (rep_update m); [done|done| |].
  - intros k' Hk. apply V'; [done|]. by eapply (rep_view _ _ R).
  - intros k' Hk. apply Hm. congruence.
Qed.

Lemma Put_ok m s k v : Rep m s → ∃ s', Put md5 ok k v s = (Ok tt, s') ∧ Rep (<[k := v]> m) s'.
Proof.
  intros R. apply (on_key_ok m); [done| |intros; by apply lookup_insert_ne].
  intros r Sr Vr. destruct (rPut_ok (ok (home (numShards s) k)) (reliable _) k v r Sr) as (r' & -> & S' & P).
  exists r'. split_and!; [done..|]. intros k' _ E. rewrite P. destruct (decide (k = k')) as [->|]; [by rewrite !lookup_insert_eq|by rewrite !lookup_insert_ne].
Qed.

Lemma Get_ok m s k : Rep m s → ∃ s', Get md5 ok k s = (match m !! k with Some v => Ok v | None => Fail ErrNotFound end, s') ∧ Rep m s'.
Proof.
  intros R. apply (on_key_ok m); [done| |done]. intros r Sr Vr.
  destruct (rGet_ok (ok (home (numShards s) k)) (reliable _) k r Sr) as (r' & -> & S' & P). rewrite Vr. exists r'. split_and!; [done..|]. intros; by rewrite P.
Qed.

Lemma Delete_ok m s k : Rep m s → ∃ s', Delete md5 ok k s = (Ok tt, s') ∧ Rep (delete k m) s'.
Proof.
  intros R. apply (on_key_ok m); [done| |intros; by apply lookup_delete_ne].
  intros r Sr Vr. destruct (rDelete_ok (ok (home (numShards s) k)) (reliable _) k r Sr) as (r' & -> & S' & P).
  exists r'. split_and!; [done..|]. intros k' _ E. rewrite P. destruct (decide (k = k')) as [->|]; [by rewrite !lookup_delete_eq|by rewrite !lookup_delete_ne].
Qed.

(** A batch over the shards: each shard applies [upd] to its own items. *)
Lemma batch_ok {A} m s (key : A → bytes) (l : list A) (work : nat → list A → DM unit) (op : list A → (nat → bool) → comp ReplicatedLevelDB rdb_error unit)
    (order : gmap nat (list A) → list (nat * list A)) (app : list A → content → content) :
  Rep m s → (∀ g, order g ≡ₚ map_to_list g) →
  (∀ i a s r, shards s !! i = Some r → work i a s = on_shard ok i (op a) s) →
  (∀ i a r, synced r → ∃ r', op a (ok i) r = (Ok tt, r') ∧ synced r' ∧ primary r' = app a (primary r)) →
  (∀ (p m : content) k, p !! k = m !! k → app (filter (λ x, home (numShards s) (key x) = home (numShards s) k) l) p !! k = app l m !! k) →
  (∀ k, filter (λ x, home (numShards s) (key x) = home (numShards s) k) l = [] → app l m !! k = m !! k) →
  ∃ g s', group md5 key l ∅ s = Some g ∧ run_group work (order g) None s = (Ok tt, s') ∧ Rep (app l m) s'.
Proof.
  intros R Ho Hw Hop Ha He. destruct (group_spec key s l (rep_sizes _ _ R) ∅) as (g & Eg & Hg). exists g.
  assert (∀ i a, (i, a) ∈ order g ↔ g !! i = Some a) as Hi by (intros; by rewrite Ho, elem_of_map_to_list).
  assert (∀ i a, g !! i = Some a → ∃ r, shards s !! i = Some r ∧ synced r) as Hs.
  { intros i a. rewrite Hg, lookup_empty. simpl. destruct (filter _ l) as [|x l'] eqn:Ef; [done|]. intros _.
    assert (x ∈ filter (λ x, home (numShards s) (key x) = i) l) as [<- _]%list_elem_of_filter by (rewrite Ef; left).
    destruct (rep_shard m s (key x) R) as (r & ? & ? & _). eauto. }
  destruct (run_group_spec ok work op (λ _ _ _, false) (order g) Hw s None) as (s' & Es & Ns & Ls & Q & U).
  { rewrite Ho. apply NoDup_fst_map_to_list. }
  { intros i a Ha'%Hi. destruct (Hs i a Ha') as (r & Er & Sr). exists r. split; [done|]. by destruct (Hop i a r Sr) as (r' & -> & _). }
  { by left. }
  exists s'. split_and!; [done| |].
  - rewrite Es. replace (any_fails (λ _ _ _, false) s (order g)) with false; [done|]. unfold any_fails. clear. induction (order g) as [|[i a] l' IH]; [done|]. simpl. rewrite <- IH. by destruct (shards s !! i).
  - assert (∀ i r', shards s' !! i = Some r' → ∃ r, shards s !! i = Some r ∧ synced r' ∧
      primary r' = match g !! i with Some a => app a (primary r) | None => primary r end) as K.
    { intros i r' Er'. destruct (g !! i) as [a|] eqn:Ega.
      - destruct (Hs i a Ega) as (r & Er & Sr). exists r. rewrite (Q i a r (proj2 (Hi i a) Ega) Er) in Er'. destruct (Hop i a r Sr) as (r2 & E2 & S2 & P2).
        rewrite E2 in Er'. by simplify_eq/=.
      - rewrite U in Er'; [exists r'; split_and!; [done|by eapply (rep_synced _ _ R)|done]|].
        intros ([j a] & -> & Hj%Hi)%list_elem_of_fmap. simpl in *. congruence. }
    split.
    + destruct (rep_sizes _ _ R). split; [by rewrite Ns|]. by rewrite Ls, Ns.
    + intros i r' Er'. by destruct (K i r' Er') as (r & _ & ? & _).
    + intros k i r' Er' Hk. rewrite Ns in Hk. destruct (K i r' Er') as (r & Er & _ & ->). pose proof (rep_view _ _ R k i r Er Hk) as V.
      rewrite Hg, lookup_empty. simpl. subst i. destruct (filter _ l) as [|x l'] eqn:Ef; [|rewrite <- Ef; by apply Ha]. by rewrite He.
Qed.
Lemma BatchPut_ok m s order kvs : Rep m s → (∀ g, order g ≡ₚ map_to_list g) →
  ∃ s', BatchPut md5 ok order kvs s = (Ok tt, s') ∧ Rep (put_all kvs m) s'.
Proof.
  intros R Ho. destruct (batch_ok m s fst kvs (λ i batch, on_shard ok i (λ ok, rBatchPut ok batch)) (λ batch ok, rBatchPut ok batch) order put_all R Ho)
    as (g & s' & Eg & Er & R').
  - done.
  - intros i a r. apply (rBatchPut_ok (ok i) (reliable i)).
  - intros p m' k E. by apply (put_all_filter (numShards s)).
  - intros k E. rewrite <- (put_all_filter (numShards s) kvs m m) by done. by rewrite E.
  - exists s'. split; [|done]. unfold BatchPut. by rewrite Eg.
Qed.

(** The deletions of one shard as one operation. *)
Fixpoint shard_deletes (keys : list bytes) (ok : nat → bool) : comp ReplicatedLevelDB rdb_error unit :=
  match keys with [] => mret tt | k :: keys => mbind (λ _, shard_deletes keys ok) (rDelete ok k) end.

Lemma delete_keys_shard i keys : ∀ s r, shards s !! i = Some r → delete_keys ok i keys s = on_shard ok i (shard_deletes keys) s.
Proof.
  induction keys as [|k keys IH]; intros s r E; rewrite (on_shard_lookup _ _ _ _ _ E); simpl.
  - destruct s; simpl in *. unfold with_shards; simpl. by rewrite list_insert_id.
  - unfold mbind, DM_bind, comp_bind. rewrite (on_shard_lookup _ _ _ _ _ E). destruct (rDelete (ok i) k r) as [[[]| | |] r'] eqn:Er; simpl; try done.
    assert (i < length (shards s)) by (by eapply lookup_lt_Some).
    rewrite (IH _ r') by (simpl; by rewrite list_lookup_insert_eq). rewrite (on_shard_lookup _ _ _ _ r') by (simpl; by rewrite list_lookup_insert_eq).
    simpl. unfold with_shards; simpl. by rewrite list_insert_insert_eq.
Qed.

Lemma shard_deletes_ok i keys : ∀ r, synced r → ∃ r', shard_deletes keys (ok i) r = (Ok tt, r') ∧ synced r' ∧ primary r' = delete_all keys (primary r).
Proof.
  induction keys as [|k keys IH]; intros r Sr; simpl; [by exists r|].
  destruct (rDelete_ok (ok i) (reliable i) k r Sr) as (r1 & E1 & S1 & P1). destruct (IH r1 S1) as (r2 & E2 & S2 & P2).
  exists r2. unfold mbind, comp_bind. rewrite E1, E2. split_and!; [done..|]. by rewrite P2, P1.
Qed.

Lemma BatchDelete_ok m s order keys : Rep m s → (∀ g, order g ≡ₚ map_to_list g) →
  ∃ s', BatchDelete md5 ok order keys s = (Ok tt, s') ∧ Rep (delete_all keys m) s'.
Proof.
  intros R Ho. destruct (batch_ok m s id keys (delete_keys ok) shard_deletes order delete_all R Ho) as (g & s' & Eg & Er & R').
  - intros i a s0 r E. by eapply delete_keys_shard.
  - intros i a r. apply shard_deletes_ok.
  - intros p m' k E. by apply (delete_all_filter (numShards s)).
  - intros k E. rewrite <- (delete_all_filter (numShards s) keys m m) by done. unfold id in E. by rewrite E.
  - exists s'. split; [|done]. unfold BatchDelete. by rewrite Eg.
Qed.

End Reliable.

(** ** Opening *)

Lemma open_shard_ok ok r : (∀ n, ok n = true) → ∃ r', Open ok true r = (Ok tt, r') ∧ synced r' ∧ primary r' = primary r.
Proof.
  intros Hok. destruct r as [p h m s rel c]. unfold Open, c_modify, c_get, mbind, RM_bind, comp_bind; cbn [open_loop].
  unfold mbind, RM_bind, comp_bind, c_get, c_modify, mret, RM_ret, comp_ret; simpl. rewrite Hok. unfold ldb_call; simpl. rewrite Hok. simpl.
  eexists. split_and!; [done|by split|done].
Qed.

Lemma open_each_ok ok : (∀ i n, ok i n = true) → ∀ idxs s, NoDup idxs → (∀ i, i ∈ idxs → i < length (shards s)) →
  ∃ s', open_each ok idxs (λ _, true) s = (Ok tt, s') ∧ numShards s' = numShards s ∧ length (shards s') = length (shards s) ∧
    (∀ i r, i ∈ idxs → shards s !! i = Some r → ∃ r', shards s' !! i = Some r' ∧ synced r' ∧ primary r' = primary r) ∧
    (∀ i, i ∉ idxs → shards s' !! i = shards s !! i).
Proof.
  intros Hok idxs. induction idxs as [|i idxs IH]; intros s Nd Hl; cbn [open_each].
  - exists s. split_and!; [done..|intros ? ? Hi; by apply not_elem_of_nil in Hi|done].
  - apply NoDup_cons in Nd as [Ni Nd]. destruct (lookup_lt_is_Some_2 (shards s) i) as [r Er]; [apply Hl; left|].
    unfold mbind, DM_bind, comp_bind. rewrite (on_shard_lookup _ _ _ _ _ Er). destruct (open_shard_ok (ok i) r (Hok i)) as (r1 & E1 & S1 & P1).
    rewrite E1. cbn [fst snd]. set (s1 := with_shards _ s). destruct (IH s1 Nd) as (s' & Es & N' & L' & Q & U).
    { intros j Hj. simpl. rewrite length_insert. apply Hl. by right. }
    simpl in L'. rewrite length_insert in L'. exists s'. split_and!; [done..| |].
    + intros j rj [->|Hj]%elem_of_cons Ej.
      * simplify_eq. exists r1. rewrite U by done. simpl. split_and!; [|done..]. apply list_lookup_insert_eq. by eapply lookup_lt_Some.
      * apply Q; [done|]. simpl. rewrite list_lookup_insert_ne; [done|]. by intros ->.
    + intros j [Nj Hj]%not_elem_of_cons. rewrite U by done. simpl. by rewrite list_lookup_insert_ne.
Qed.

(** ** The database as one map *)

Inductive sdb_op :=
  | SPut (k v : bytes) | SGet (k : bytes) | SDelete (k : bytes) | SHas (k : bytes)
  | SBatchPut (kvs : list kv) | SBatchDelete (keys : list bytes).
Inductive sdb_answer := AOk | AValue (v : bytes) | ABool (b : bool) | AError (e : rdb_error).

Definition answer {A} (f : A → sdb_answer) (o : outcome rdb_error A) : option sdb_answer :=
  match o with Ok a => Some (f a) | Fail e => Some (AError e) | _ => None end.

Section Runs.
Context (ok : nat → nat → bool) (order_put : gmap nat (list kv) → list (nat * list kv)) (order_del : gmap nat (list bytes) → list (nat * list bytes)).

Definition sdb_step (o : sdb_op) (s : ShardelDB) : option sdb_answer * ShardelDB :=
  match o with
  | SPut k v => let '(r, s') := Put md5 ok k v s in (answer (λ _, AOk) r, s')
  | SGet k => let '(r, s') := Get md5 ok k s in (answer AValue r, s')
  | SDelete k => let '(r, s') := Delete md5 ok k s in (answer (λ _, AOk) r, s')
  | SHas k => let '(r, s') := Has md5 ok k s in (answer ABool r, s')
  | SBatchPut kvs => let '(r, s') := BatchPut md5 ok order_put kvs s in (answer (λ _, AOk) r, s')
  | SBatchDelete keys => let '(r, s') := BatchDelete md5 ok order_del keys s in (answer (λ _, AOk) r, s')
  end.

Fixpoint sdb_run (ops : list sdb_op) (s : ShardelDB) : list (option sdb_answer) * ShardelDB :=
  match ops with [] => ([], s) | o :: ops => let '(a, s') := sdb_step o s in let '(l, s'') := sdb_run ops s' in (a :: l, s'') end.

(** The same operations on a finite map; [Has] reports an error for an absent key and denies an
    empty value. *)
Definition map_step (o : sdb_op) m : option sdb_answer * content :=
  match o with
  | SPut k v => (Some AOk, <[k := v]> m)
  | SGet k => (Some match m !! k with Some v => AValue v | None => AError ErrNotFound end, m)
  | SDelete k => (Some AOk, delete k m)
  | SHas k => (Some match m !! k with Some v => ABool (bool_decide (0 < length v)) | None => AError ErrNotFound end, m)
  | SBatchPut kvs => (Some AOk, put_all kvs m)
  | SBatchDelete keys => (Some AOk, delete_all keys m)
  end.
Fixpoint map_run (ops : list sdb_op) m : list (option sdb_answer) * content :=
  match ops with [] => ([], m) | o :: ops => let '(a, m') := map_step o m in let '(l, m'') := map_run ops m' in (a :: l, m'') end.

Lemma sdb_step_ok m s o : Rep m s → (∀ i n, ok i n = true) → (∀ g, order_put g ≡ₚ map_to_list g) → (∀ g, order_del g ≡ₚ map_to_list g) →
  ∃ s', sdb_step o s = ((map_step o m).1, s') ∧ Rep (map_step o m).2 s'.
Proof.
  intros R Hok Hp Hd. destruct o as [k v|k|k|k|kvs|keys]; simpl.
  - destruct (Put_ok ok Hok m s k v R) as (s' & -> & R'). by exists s'.
  - destruct (Get_ok ok Hok m s k R) as (s' & -> & R'). exists s'. by destruct (m !! k).
  - destruct (Delete_ok ok Hok m s k R) as (s' & -> & R'). by exists s'.
  - destruct (Get_ok ok Hok m s k R) as (s' & E & R'). exists s'. unfold Has, mbind, DM_bind, comp_bind. rewrite E. by destruct (m !! k).
  - destruct (BatchPut_ok ok Hok m s order_put kvs R Hp) as (s' & -> & R'). by exists s'.
  - destruct (BatchDelete_ok ok Hok m s order_del keys R Hd) as (s' & -> & R'). by exists s'.
Qed.

Lemma sdb_run_ok ops : ∀ m s, Rep m s → (∀ i n, ok i n = true) → (∀ g, order_put g ≡ₚ map_to_list g) → (∀ g, order_del g ≡ₚ map_to_list g) →
  (sdb_run ops s).1 = (map_run ops m).1.
Proof.
  induction ops as [|o ops IH]; intros m s R Hok Hp Hd; [done|]. cbn [sdb_run map_run].
  destruct (sdb_step_ok m s o R Hok Hp Hd) as (s' & -> & R'). destruct (map_step o m) as [a m']. simpl in R'.
  specialize (IH m' s' R' Hok Hp Hd). destruct (sdb_run ops s'), (map_run ops m'). simpl in *. by rewrite IH.
Qed.

(** C36: Opened over empty files and with a working LevelDB, a database of any number of shards answers
    every sequence of operations as one finite map, in whatever order the shards do their batches. *)
Theorem sharded_is_map n dir backup ops : (0 < n < 2 ^ 32)%Z → (∀ i j, ok i j = true) →
  (∀ g, order_put g ≡ₚ map_to_list g) → (∀ g, order_del g ≡ₚ map_to_list g) →
  ∃ s s', NewShardelDB dir n 1 1 backup (λ _, ∅) = Some s ∧ OpenAll ok (λ _, true) s = (Ok tt, s') ∧
    (sdb_run ops s').1 = (map_run ops ∅).1.
Proof.
  intros Hn Hok Hp Hd. unfold NewShardelDB. rewrite andb_false_r. set (s := {| shards := _ |}). exists s.
  assert (length (shards s) = Z.to_nat n) as Ls by (unfold s; simpl; by rewrite length_fmap, length_seq).
  unfold OpenAll, mbind, DM_bind, comp_bind, c_get.
  destruct (open_each_ok ok Hok (seq 0 (length (shards s))) s) as (s' & -> & N' & L' & Q & _).
  { apply NoDup_seq. }
  { intros i Hi%elem_of_seq. lia. }
  exists s'. split_and!; [done..|]. apply sdb_run_ok; [|done..]. assert (∀ i r', shards s' !! i = Some r' → synced r' ∧ primary r' = ∅) as K.
  { intros i r' Er'. assert (i < length (shards s)) as Hi by (rewrite <- L'; by eapply lookup_lt_Some).
    destruct (lookup_lt_is_Some_2 (shards s) i Hi) as [r Er]. destruct (Q i r) as (r2 & E2 & S2 & P2); [by apply elem_of_seq; lia|done|].
    simplify_eq. split; [done|]. rewrite P2. unfold s in Er. simpl in Er. rewrite list_lookup_fmap in Er. destruct (seq 0 (Z.to_nat n) !! i); by simplify_eq/=. }
  split.
  - split; [by rewrite N'|]. by rewrite L', Ls, N'.
  - intros i r' Er'. by apply (K i).
  - intros k i r' Er' _. destruct (K i r' Er') as [_ ->]. done.
Qed.
End Runs.

(** ** Failures *)

(** Under any failures, a batch over open shards is atomic per shard and not as a whole: each shard
    holds either all of its own pairs or none, according to its write call, untouched shards are
    unchanged, and the error is reported when a write or the following snapshot failed. *)
Theorem batch_put_per_shard ok order kvs s : sizes s → (∀ i r, shards s !! i = Some r → primaryDB r = IsOpen) → (∀ g, order g ≡ₚ map_to_list g) →
  ∃ s' failed, BatchPut md5 ok order kvs s = (if failed : bool then Fail ErrIO else Ok tt, s') ∧ length (shards s') = length (shards s) ∧
    (∀ i r r', shards s !! i = Some r → shards s' !! i = Some r' →
      primary r' = if ok i (calls r) then put_all (filter (λ x, home (numShards s) x.1 = i) kvs) (primary r) else primary r) ∧
    (failed = true ↔ ∃ k v r, (k, v) ∈ kvs ∧ shards s !! home (numShards s) k = Some r ∧
      ok (home (numShards s) k) (calls r) && ok (home (numShards s) k) (S (calls r)) = false).
Proof.
  intros Sz Op Ho. destruct (group_spec fst s kvs Sz ∅) as (g & Eg & Hg).
  assert (∀ i a, (i, a) ∈ order g ↔ g !! i = Some a) as Hi by (intros; by rewrite Ho, elem_of_map_to_list).
  assert (∀ i a, g !! i = Some a → a = filter (λ x, home (numShards s) x.1 = i) kvs ∧ ∃ k v r, (k, v) ∈ kvs ∧ home (numShards s) k = i ∧ shards s !! i = Some r) as Hs.
  { intros i a. rewrite Hg, lookup_empty. simpl. destruct (filter _ kvs) as [|[k v] l'] eqn:Ef; [done|]. intros [= <-]. split; [done|].
    assert ((k, v) ∈ filter (λ x, home (numShards s) x.1 = i) kvs) as [<- Hin]%list_elem_of_filter by (rewrite Ef; left). simpl.
    destruct (lookup_lt_is_Some_2 _ _ (home_lt s k Sz)) as [r Hr]. eauto 8. }
  assert (∀ k v, (k, v) ∈ kvs → is_Some (g !! home (numShards s) k)) as Hk.
  { intros k v Hkv. rewrite Hg, lookup_empty. simpl. destruct (filter _ kvs) as [|x l'] eqn:Ef; [|by eexists].
    exfalso. apply (not_elem_of_nil (k, v)). rewrite <- Ef. by apply list_elem_of_filter. }
  set (fails := λ (i : nat) (a : list kv) r, negb (ok i (calls r) && ok i (S (calls r)))).
  destruct (run_group_spec ok (λ i batch, on_shard ok i (λ ok, rBatchPut ok batch)) (λ batch ok, rBatchPut ok batch) fails (order g) ltac:(done) s None)
    as (s' & Es & Ns & Ls & Q & U).
  { rewrite Ho. apply NoDup_fst_map_to_list. }
  { intros i a Ha%Hi. destruct (Hs i a Ha) as (_ & k & v & r & _ & _ & Er). exists r. split; [done|].
    destruct (rBatchPut_cases (ok i) a r (Op _ _ Er)) as (r' & -> & _). unfold fails. by destruct (_ && _). }
  { by left. }
  exists s', (any_fails fails s (order g)). split_and!.
  - unfold BatchPut. rewrite Eg, Es. by destruct (any_fails _ _ _).
  - done.
  - intros i r r' Er Er'. destruct (g !! i) as [a|] eqn:Ega.
    + destruct (Hs i a Ega) as [-> _]. rewrite (Q i _ r (proj2 (Hi i _) Ega) Er) in Er'. simplify_eq.
      by destruct (rBatchPut_cases (ok i) (filter (λ x, home (numShards s) x.1 = i) kvs) r (Op _ _ Er)) as (r' & -> & P & _).
    + rewrite U in Er'; [|intros ([j a] & -> & Hj%Hi)%list_elem_of_fmap; simpl in *; congruence]. simplify_eq.
      rewrite Hg, lookup_empty in Ega. simpl in Ega. destruct (filter _ kvs); [|done]. by destruct (ok i _).
  - unfold any_fails. rewrite existsb_exists. setoid_rewrite <- list_elem_of_In. split.
    + intros ([i a] & Ha%Hi & F). destruct (Hs i a Ha) as (_ & k & v & r & Hkv & <- & Er). rewrite Er in F. unfold fails in F. apply negb_true_iff in F. eauto 8.
    + intros (k & v & r & Hkv & Er & F). destruct (Hk k v Hkv) as [a Ha]. exists (home (numShards s) k, a). split; [by apply Hi|]. rewrite Er. unfold fails. by rewrite F.
Qed.

(** A deletion put into a write batch never reaches the database: on a batch without the key it does
    nothing, so that writing the batch leaves the stored value in place. *)
Theorem batch_delete_lost ok order m s k : Rep m s → (∀ i n, ok i n = true) → (∀ g, order g ≡ₚ map_to_list g) →
  ∃ b s' s'', batch_Delete md5 s k ∅ = Some b ∧ batch_Write ok order b s = (Ok tt, s') ∧
    Get md5 ok k s' = (match m !! k with Some v => Ok v | None => Fail ErrNotFound end, s'').
Proof.
  intros R Hok Ho. unfold batch_Delete. rewrite (shard_index s k (rep_sizes _ _ R)). simpl. rewrite lookup_empty. simpl.
  destruct (Get_ok ok Hok m s k R) as (s'' & E & _). exists ∅, s, s''. split_and!; [done| |done].
  unfold batch_Write. assert (order ∅ = []) as -> by (apply Permutation_nil; symmetry; rewrite Ho; by rewrite map_to_list_empty). done.
Qed.

End All.

(** ** Witnesses *)

Module ShardedExample.
Definition toy_md5 (b : bytes) : bytes := take 16 (b ++ zeros 16).
Definition sound (i n : nat) : bool := true.
Definition flaky (i n : nat) : bool := negb (bool_decide (i = 1)).
Abbreviation order_kv := (map_to_list (K:=nat) (A:=list kv) (M:=gmap nat (list kv))).
Abbreviation order_key := (map_to_list (K:=nat) (A:=list bytes) (M:=gmap nat (list bytes))).

Definition key1 : bytes := [x00; x00; x00; x01].
Definition key2 : bytes := [x00; x00; x00; x02].
Definition ops1 : list sdb_op := [SBatchPut [(key1, [x0a]); (key2, [x0b])]; SDelete key2; SGet key1; SHas key2].

Lemma sharded_is_map_witness :
  ∃ s s', NewShardelDB "data" 3 1 1 "backup" (λ _, ∅) = Some s ∧ OpenAll sound (λ _, true) s = (Ok tt, s') ∧
    (sdb_run toy_md5 sound order_kv order_key ops1 s').1 = [Some AOk; Some AOk; Some (AValue [x0a]); Some (AError ErrNotFound)].
Proof.
  apply (sharded_is_map toy_md5 sound order_kv order_key 3 "data" "backup" ops1); [lia|done|by intros|by intros].
Defined.

Definition open_db (content_of : nat → content) : ShardelDB :=
  {| shards := (λ i, {| path := EmptyString; primaryDB := IsOpen; primary := content_of i; snapshot := Some (content_of i); released := false; calls := 0 |}) <$> seq 0 3;
     numShards := 3; parallelism := 1; backupPath := EmptyString; dbPath := EmptyString |}.

Lemma open_db_shards f i r : shards (open_db f) !! i = Some r →
  i < 3 ∧ r = {| path := EmptyString; primaryDB := IsOpen; primary := f i; snapshot := Some (f i); released := false; calls := 0 |}.
Proof.
  unfold open_db, shards. rewrite list_lookup_fmap. intros (j & (-> & Hj)%lookup_seq & ->)%fmap_Some. done.
Qed.

Lemma batch_put_per_shard_witness :
  ∃ s', BatchPut toy_md5 flaky order_kv [(key1, [x0a]); (key2, [x0b])] (open_db (λ _, ∅)) = (Fail ErrIO, s') ∧
    (∀ r', shards s' !! 1 = Some r' → primary r' = ∅) ∧ (∀ r', shards s' !! 2 = Some r' → primary r' = {[ key2 := [x0b] ]}).
Proof.
  destruct (batch_put_per_shard toy_md5 flaky order_kv [(key1, [x0a]); (key2, [x0b])] (open_db (λ _, ∅))) as (s' & failed & E & L & P & F).
  - split; [simpl; lia|done].
  - intros i r Er. by destruct (open_db_shards _ _ _ Er) as [_ ->].
  - by intros.
  - destruct failed.
    + exists s'. split; [done|]. split; intros r' Er'; [rewrite (P 1 _ r' eq_refl Er')|rewrite (P 2 _ r' eq_refl Er')]; by vm_compute.
    + exfalso. assert (false = true) as [=]. apply F. eexists key1, [x0a], _. split_and!; [left|by vm_compute|by vm_compute].
Defined.

Lemma batch_delete_lost_witness :
  ∃ b s' s'', batch_Delete toy_md5 (open_db (λ _, {[ key1 := [x07] ]})) key1 ∅ = Some b ∧
    batch_Write sound order_kv b (open_db (λ _, {[ key1 := [x07] ]})) = (Ok tt, s') ∧ Get toy_md5 sound key1 s' = (Ok [x07], s'').
Proof.
  destruct (batch_delete_lost toy_md5 sound order_kv {[ key1 := [x07] ]} (open_db (λ _, {[ key1 := [x07] ]})) key1) as (b & s' & s'' & E1 & E2 & E3);
    [|done|by intros|exists b, s', s''; rewrite lookup_singleton_eq in E3; done]. split.
  - split; [simpl; lia|done].
  - intros i r Er. by destruct (open_db_shards _ _ _ Er) as [_ ->].
  - intros k i r Er _. by destruct (open_db_shards _ _ _ Er) as [_ ->].
Defined.
End ShardedExample.
