(* ===== verification/CachedWriter.v ===== *)
(** * Cached asynchronous writes ([pkg/storage/cached_batch_writer.go]) and the two stores built on
    them ([pkg/storage/artifact_storage.go], [pkg/storage/transaction_storage.go])

    A sharded cache in front of LevelDB, and a goroutine that collects the written items and flushes
    them in batches.  The goroutine is the functions [recv], [flush] and [stop] on the shared state,
    one per case of its select; interleavings are sequences of these steps and of calls. *)

From S2P Require Import Prelude GoLib Interfaces LevelDB HexCodec.
From Stdlib Require Import Strings.Byte Strings.Ascii.

Definition ShardCount : nat := 32.

Record CacheShard (C : Type) := { items : gmap string C; size : Z }.
Arguments items {C} _.
Arguments size {C} _.

Record CachedBatchWriter (St I C : Type) := {
  db : St;
  shards : list (CacheShard C);
  maxCacheSize : Z;
  maxShardSize : Z;
  writeChan : list I;          (** the buffered channel, oldest first *)
  channelBuffer : nat;
  batchSize : Z;
  pending : gmap string I;     (** local to the goroutine *)
  running : bool;              (** the goroutine has not returned *)
  closed : bool;               (** [writeChan] is closed *)
}.
Arguments db {St I C} _.
Arguments shards {St I C} _.
Arguments maxCacheSize {St I C} _.
Arguments maxShardSize {St I C} _.
Arguments writeChan {St I C} _.
Arguments channelBuffer {St I C} _.
Arguments batchSize {St I C} _.
Arguments pending {St I C} _.
Arguments running {St I C} _.
Arguments closed {St I C} _.

(** FNV-1a over 64 bits. *)
Definition fnv_step (hash : Z) (c : byte) : Z := u64 (Z.lxor hash (b2z c) * 1099511628211).
Definition shard_index (key : string) : nat :=
  Z.to_nat (Z.land (foldl fnv_step 14695981039346656037%Z (str_bytes key)) (Z.of_nat ShardCount - 1)).

Section Writer.
Context {St I C : Type} `{LevelDB St}.
Abbreviation Writer := (CachedBatchWriter St I C).
(** [BatchWriteItem.GetID], the store's [serializeFunc], and the orders in which Go ranges over the
    maps of pending and of cached items. *)
Context (GetID : I → string) (serializeFunc : I → option (list (string * bytes))).
Context (order : gmap string I → list (string * I)) (order_cache : gmap string C → list (string * C)).

Definition NewCachedBatchWriter (st : St) (maxCache batch : Z) (buffer : nat) : Writer :=
  let m := Z.quot maxCache (Z.of_nat ShardCount) in
  {| db := st; shards := replicate ShardCount {| items := ∅; size := 0 |}; maxCacheSize := maxCache;
     maxShardSize := if (m <? 1)%Z then 1 else m; writeChan := []; channelBuffer := buffer; batchSize := batch;
     pending := ∅; running := true; closed := false |}.

Definition set_shards (l : list (CacheShard C)) (w : Writer) : Writer :=
  {| db := db w; shards := l; maxCacheSize := maxCacheSize w; maxShardSize := maxShardSize w; writeChan := writeChan w;
     channelBuffer := channelBuffer w; batchSize := batchSize w; pending := pending w; running := running w; closed := closed w |}.
Definition set_work (st : St) (q : list I) (p : gmap string I) (w : Writer) : Writer :=
  {| db := st; shards := shards w; maxCacheSize := maxCacheSize w; maxShardSize := maxShardSize w; writeChan := q;
     channelBuffer := channelBuffer w; batchSize := batchSize w; pending := p; running := running w; closed := closed w |}.
Definition set_flags (run close : bool) (w : Writer) : Writer :=
  {| db := db w; shards := shards w; maxCacheSize := maxCacheSize w; maxShardSize := maxShardSize w; writeChan := writeChan w;
     channelBuffer := channelBuffer w; batchSize := batchSize w; pending := pending w; running := run; closed := close |}.

(** ** The cache *)

Definition getShard (key : string) (w : Writer) : CacheShard C := default {| items := ∅; size := 0 |} (shards w !! shard_index key).
Definition put_shard (key : string) (s : CacheShard C) (w : Writer) : Writer := set_shards (<[shard_index key := s]> (shards w)) w.

(** Deletes the first item of the iteration. *)
Definition evictOneFromShard (s : CacheShard C) : CacheShard C :=
  match order_cache (items s) with
  | [] => s
  | (k, _) :: _ => {| items := delete k (items s); size := size s - 1 |}
  end.

Definition store_shard (limit : Z) (key : string) (item : C) (s : CacheShard C) : CacheShard C :=
  match items s !! key with
  | Some _ => {| items := <[key := item]> (items s); size := size s |}
  | None =>
      let s := if (limit <=? size s)%Z then evictOneFromShard s else s in
      {| items := <[key := item]> (items s); size := size s + 1 |}
  end.

Definition StoreCache (key : string) (item : C) (w : Writer) : Writer :=
  put_shard key (store_shard (maxShardSize w) key item (getShard key w)) w.
Definition LoadCache (key : string) (w : Writer) : option C := items (getShard key w) !! key.
Definition DeleteCache (key : string) (w : Writer) : Writer :=
  let s := getShard key w in
  match items s !! key with Some _ => put_shard key {| items := delete key (items s); size := size s - 1 |} w | None => w end.
Definition GetCacheSize (w : Writer) : Z := foldl (λ total s, (total + size s)%Z) 0%Z (shards w).
Definition GetCacheMaxSize (w : Writer) : Z := maxCacheSize w.
Definition ClearCache (w : Writer) : Writer := set_shards ((λ _, {| items := ∅; size := 0 |}) <$> shards w) w.

(** ** Writing *)

(** [Write] never blocks: an item that finds the channel full is dropped and nil is returned; a
    closed channel panics.  The flag says whether the item was taken. *)
Definition Write (item : I) (w : Writer) : option (Writer * bool) :=
  if closed w then None
  else if decide (length (writeChan w) < channelBuffer w) then Some (set_work (db w) (writeChan w ++ [item]) (pending w) w, true)
  else Some (w, false).

(** The pairs of the pending items, in iteration order; an item that cannot be serialised is skipped. *)
Definition batch_pairs (p : gmap string I) : list (string * bytes) :=
  concat (omap (λ '(_, it), serializeFunc it) (order p)).

Definition flush (w : Writer) : Writer :=
  if decide (pending w = ∅) then w
  else match ldb_Write ((λ '(k, v), BPut k v) <$> batch_pairs (pending w)) (db w) with
       | Some st => set_work st (writeChan w) ∅ w
       | None => set_work (db w) (writeChan w) ∅ w
       end.

(** One item received from the channel. *)
Definition recv (w : Writer) : Writer :=
  match writeChan w with
  | [] => w
  | it :: q =>
      let p := <[GetID it := it]> (pending w) in
      let w := set_work (db w) q p w in
      if (batchSize w <=? Z.of_nat (base.size p))%Z then flush w else w
  end.

(** The stop signal: a last flush, and the goroutine returns. *)
Definition stop (w : Writer) : Writer := set_flags false (closed w) (flush w).

(** [Close] waits for the goroutine and then closes the channel. *)
Definition Close (w : Writer) : Writer := let w := stop w in set_flags (running w) true w.

End Writer.

(** ** Artifacts *)

Record ArtifactData := {
  ArtifactId : string; ContractAddress : string; BytecodeHash : string;
  a_rest : bytes;   (** the remaining fields, which the storage does not look at *)
}.

Definition PREFIX_ARTIFACT_DATA : string := "artifact:".
Definition PREFIX_ADDRESS_TO_ID : string := "addr:".
Definition PREFIX_BYTECODE_TO_ID : string := "bytecode:".

Inductive store_error := ErrNotFound | ErrRead | ErrUnmarshal.

Section Artifacts.
Context {St : Type} `{LevelDB St} `{Proto ArtifactData}.
Context (order_cache : gmap string ArtifactData → list (string * ArtifactData)).
Abbreviation ArtifactStorage := (CachedBatchWriter St ArtifactData ArtifactData).

Definition artifact_pairs (a : ArtifactData) : option (list (string * bytes)) :=
  Some ((PREFIX_ARTIFACT_DATA +:+ ArtifactId a, proto_Marshal a)
    :: (if decide (ContractAddress a = EmptyString) then [] else [(PREFIX_ADDRESS_TO_ID +:+ ContractAddress a, str_bytes (ArtifactId a))])
    ++ (if decide (BytecodeHash a = EmptyString) then [] else [(PREFIX_BYTECODE_TO_ID +:+ BytecodeHash a, str_bytes (ArtifactId a))])).

Definition NewArtifactStorage (st : St) : ArtifactStorage := NewCachedBatchWriter st 500 50 1000.

Definition SaveArtifact (a : ArtifactData) (w : ArtifactStorage) : option (ArtifactStorage * bool) :=
  Write a (StoreCache order_cache (ArtifactId a) a w).

Definition GetArtifactByID (artifactID : string) (w : ArtifactStorage) : (store_error + ArtifactData) * ArtifactStorage :=
  match LoadCache artifactID w with
  | Some a => (inr a, w)
  | None =>
      match ldb_Get (PREFIX_ARTIFACT_DATA +:+ artifactID) (db w) with
      | Found b => match proto_Unmarshal b with
                   | Some a => (inr a, StoreCache order_cache artifactID a w)
                   | None => (inl ErrUnmarshal, w)
                   end
      | NotFound => (inl ErrNotFound, w)
      | ReadError => (inl ErrRead, w)
      end
  end.

(** [GetArtifactIDByAddress] and [GetArtifactIDByBytecodeHash]. *)
Definition get_index (prefix key : string) (w : ArtifactStorage) : store_error + string :=
  match ldb_Get (prefix +:+ key) (db w) with Found b => inr (bytes_str b) | NotFound => inl ErrNotFound | ReadError => inl ErrRead end.
Definition GetArtifactIDByAddress := get_index PREFIX_ADDRESS_TO_ID.
Definition GetArtifactIDByBytecodeHash := get_index PREFIX_BYTECODE_TO_ID.

Definition GetArtifactByAddress (contractAddress : string) (w : ArtifactStorage) : (store_error + ArtifactData) * ArtifactStorage :=
  match GetArtifactIDByAddress contractAddress w with inl e => (inl e, w) | inr id => GetArtifactByID id w end.
Definition GetArtifactByBytecodeHash (bytecodeHash : string) (w : ArtifactStorage) : (store_error + ArtifactData) * ArtifactStorage :=
  match GetArtifactIDByBytecodeHash bytecodeHash w with inl e => (inl e, w) | inr id => GetArtifactByID id w end.

Definition GetCacheStats (w : ArtifactStorage) : Z * Z := (GetCacheSize w, GetCacheMaxSize w).
End Artifacts.

Section Hashes.
Context `{EthCommon} (HashHex : bytes → string).

Definition CalculateArtifactID (bytecodeHash solcVersion optimizerSettings evmVersion linkedLibraries : string) : string :=
  "0x" +:+ hex_EncodeToString (Keccak256 (str_bytes (bytecodeHash +:+ solcVersion +:+ optimizerSettings +:+ evmVersion +:+ linkedLibraries))).

Definition CalculateBytecodeHash (bytecodeHex : string) : option string :=
  let h := match bytecodeHex with
           | String a (String b r) => if decide (String a (String b EmptyString) = "0x"%string) then r else bytecodeHex
           | _ => bytecodeHex
           end in
  match hex_DecodeString h with Some bytecode => Some (HashHex (Keccak256 bytecode)) | None => None end.
End Hashes.

(** ** Transaction errors *)

Record StoredErrorData := { TxHash : string; InputData : string; ErrorMessage : string; CreatedAt : Z }.
Record errorWriteRequest := { e_txHash : string; e_data : StoredErrorData }.

Definition ERROR_STORAGE_PREFIX : string := "error:".

Section Errors.
Context {St : Type} `{LevelDB St} `{Proto StoredErrorData}.
Context (order_cache : gmap string StoredErrorData → list (string * StoredErrorData)).
Abbreviation RobotTransaction := (CachedBatchWriter St errorWriteRequest StoredErrorData).

Definition error_pairs (e : errorWriteRequest) : option (list (string * bytes)) :=
  Some [(ERROR_STORAGE_PREFIX +:+ e_txHash e, proto_Marshal (e_data e))].

Definition NewTransactionStorage (st : St) : RobotTransaction := NewCachedBatchWriter st 500 50 1000.

(** [SaveError] at time [now]. *)
Definition SaveError (now : Z) (txHash inputData errorMessage : string) (w : RobotTransaction) : option (RobotTransaction * bool) :=
  let storedData := {| TxHash := txHash; InputData := inputData; ErrorMessage := errorMessage; CreatedAt := now |} in
  Write {| e_txHash := txHash; e_data := storedData |} (StoreCache order_cache txHash storedData w).

Definition GetErrorByHash (txHashHex : string) (w : RobotTransaction) : (store_error + StoredErrorData) * RobotTransaction :=
  match LoadCache txHashHex w with
  | Some d => (inr d, w)
  | None =>
      match ldb_Get (ERROR_STORAGE_PREFIX +:+ txHashHex) (db w) with
      | Found b => match proto_Unmarshal b with
                   | Some d => (inr d, StoreCache order_cache txHashHex d w)
                   | None => (inl ErrUnmarshal, w)
                   end
      | NotFound => (inl ErrNotFound, w)
      | ReadError => (inl ErrRead, w)
      end
  end.
End Errors.
