(* ===== verification/CachedWriterTheorems.v ===== *)
(** * The cache is sound and bounded, and the writer loses nothing while it runs

    [wreach] gives the states a writer can reach together with the last item taken per id. *)

From S2P Require Import Prelude GoLib Interfaces LevelDB CachedWriter.
From Stdlib Require Import Strings.Byte.

Lemma cache_shard_index_lt key : shard_index key < ShardCount.
Proof.
  unfold shard_index, ShardCount. change (Z.of_nat 32 - 1)%Z with (Z.ones 5). rewrite Z.land_ones by lia.
  pose proof (Z.mod_pos_bound (foldl fnv_step 14695981039346656037%Z (str_bytes key)) (2 ^ 5)). lia.
Qed.

(** ** The cache *)

Section Cache.
Context {St I C : Type} `{LevelDB St} (order_cache : gmap string C → list (string * C)).
Context (order_perm : ∀ m, order_cache m ≡ₚ map_to_list m).
Abbreviation Writer := (CachedBatchWriter St I C).

Record shard_ok (limit : Z) (i : nat) (s : CacheShard C) : Prop := {
  sh_size : size s = Z.of_nat (base.size (items s));
  sh_bound : (size s ≤ limit)%Z;
  sh_keys k : is_Some (items s !! k) → shard_index k = i;
}.

(** The cache holds only the last value stored under a key. *)
Record cache_ok (stored : gmap string C) (w : Writer) : Prop := {
  ca_limit : (1 ≤ maxShardSize w)%Z;
  ca_length : length (shards w) = ShardCount;
  ca_shards i s : shards w !! i = Some s → shard_ok (maxShardSize w) i s;
  ca_sound k c : LoadCache k w = Some c → stored !! k = Some c;
}.

Lemma cache_new st maxCache batch buffer : cache_ok ∅ (NewCachedBatchWriter st maxCache batch buffer).
Proof.
  split.
  - unfold NewCachedBatchWriter, maxShardSize. destruct (_ <? 1)%Z eqn:E; lia.
  - apply length_replicate.
  - intros i s Hs. unfold NewCachedBatchWriter, shards in Hs. apply lookup_replicate in Hs as [-> _].
    split; simpl; [done|unfold NewCachedBatchWriter, maxShardSize; destruct (_ <? 1)%Z eqn:E; lia|]. intros k [x Hx]. by rewrite lookup_empty in Hx.
  - intros k c. unfold LoadCache, getShard, NewCachedBatchWriter, shards. rewrite lookup_replicate_2 by apply cache_shard_index_lt. simpl. by rewrite lookup_empty.
Qed.

Lemma get_shard w stored key : cache_ok stored w → shards w !! shard_index key = Some (getShard key w).
Proof.
  intros O. unfold getShard. destruct (lookup_lt_is_Some_2 (shards w) (shard_index key)) as [s ->]; [|done].
  rewrite (ca_length _ _ O). apply cache_shard_index_lt.
Qed.

Lemma load_put w stored key s k : cache_ok stored w →
  LoadCache k (put_shard key s w) = if decide (shard_index k = shard_index key) then items s !! k else LoadCache k w.
Proof.
  intros O. unfold LoadCache, getShard, put_shard; simpl. case_decide as D.
  - rewrite D, list_lookup_insert_eq; [done|]. rewrite (ca_length _ _ O). apply cache_shard_index_lt.
  - by rewrite list_lookup_insert_ne.
Qed.

(** Replacing a shard by a good one. *)
Lemma put_shard_ok stored stored' key s w : cache_ok stored w → shard_ok (maxShardSize w) (shard_index key) s →
  (∀ k c, shard_index k = shard_index key → items s !! k = Some c → stored' !! k = Some c) →
  (∀ k, shard_index k ≠ shard_index key → stored' !! k = stored !! k) → cache_ok stored' (put_shard key s w).
Proof.
  intros O S V1 V2. split; simpl.
  - apply (ca_limit _ _ O).
  - rewrite length_insert. apply (ca_length _ _ O).
  - intros i s' [(<- & -> & _)|[_ E]]%list_lookup_insert_Some; [done|]. by apply (ca_shards _ _ O).
  - intros k c. erewrite load_put by done. case_decide as D; [by apply V1|]. intros E. rewrite V2 by done. by apply (ca_sound _ _ O).
Qed.

(** Eviction makes room in a full shard and takes out one item. *)
Lemma evict_ok limit i s : (1 ≤ limit)%Z → shard_ok limit i s → (limit ≤ size s)%Z →
  ∃ k, is_Some (items s !! k) ∧ items (evictOneFromShard order_cache s) = delete k (items s) ∧
    shard_ok (limit - 1) i (evictOneFromShard order_cache s).
Proof.
  intros Hl S Hs. unfold evictOneFromShard. pose proof (order_perm (items s)) as P. pose proof (sh_size _ _ _ S) as Es.
  destruct (order_cache (items s)) as [|[k c] l] eqn:E.
  - apply Permutation_length in P. rewrite length_map_to_list in P. simpl in P. lia.
  - assert (items s !! k = Some c) as Ek by (apply elem_of_map_to_list; rewrite <- P; left). exists k. split_and!; [by eexists|done|].
    split; simpl.
    + rewrite map_size_delete_Some by (by eexists). assert (base.size (items s) ≠ 0) by (intros E0; apply map_size_empty_inv in E0; rewrite E0, lookup_empty in Ek; done). lia.
    + pose proof (sh_bound _ _ _ S). lia.
    + intros k' [x Hx]. apply lookup_delete_Some in Hx as [_ Hx]. apply (sh_keys _ _ _ S). by eexists.
Qed.

Lemma store_shard_ok limit key item s : (1 ≤ limit)%Z → shard_ok limit (shard_index key) s →
  shard_ok limit (shard_index key) (store_shard order_cache limit key item s) ∧
  items (store_shard order_cache limit key item s) !! key = Some item ∧
  ∀ k c, k ≠ key → items (store_shard order_cache limit key item s) !! k = Some c → items s !! k = Some c.
Proof.
  intros Hl S. unfold store_shard. destruct (items s !! key) as [old|] eqn:Eo.
  - split_and!; [|apply lookup_insert_eq|intros k c Nk; simpl; by rewrite lookup_insert_ne]. split; simpl.
    + rewrite map_size_insert_Some by (by eexists). apply (sh_size _ _ _ S).
    + apply (sh_bound _ _ _ S).
    + intros k. destruct (decide (key = k)) as [->|]; [done|]. rewrite lookup_insert_ne by done. apply (sh_keys _ _ _ S).
  - set (s' := if (limit <=? size s)%Z then _ else s).
    assert (shard_ok (limit - 1) (shard_index key) s' ∧ (∀ k c, items s' !! k = Some c → items s !! k = Some c)) as [S' Sub].
    { unfold s'. destruct (limit <=? size s)%Z eqn:E.
      - destruct (evict_ok limit (shard_index key) s Hl S) as (k & _ & Ek & S'); [lia|]. split; [done|].
        intros k' c. rewrite Ek. intros [_ ?]%lookup_delete_Some. done.
      - split; [|done]. destruct S as [S1 S2 S3]. split; [done|lia|done]. }
    assert (items s' !! key = None) as En by (destruct (items s' !! key) eqn:E; [apply Sub in E; congruence|done]).
    split_and!; [|apply lookup_insert_eq|intros k c Nk; simpl; rewrite lookup_insert_ne by done; apply Sub]. split; simpl.
    + rewrite map_size_insert_None by done. rewrite (sh_size _ _ _ S'). lia.
    + pose proof (sh_bound _ _ _ S'). lia.
    + intros k. destruct (decide (key = k)) as [->|]; [done|]. rewrite lookup_insert_ne by done. apply (sh_keys _ _ _ S').
Qed.

Lemma StoreCache_ok stored key item w : cache_ok stored w →
  cache_ok (<[key := item]> stored) (StoreCache order_cache key item w) ∧ LoadCache key (StoreCache order_cache key item w) = Some item.
Proof.
  intros O. pose proof (ca_shards _ _ O _ _ (get_shard _ _ key O)) as S.
  destruct (store_shard_ok (maxShardSize w) key item _ (ca_limit _ _ O) S) as (S' & E & V). split.
  - eapply put_shard_ok; [done|done| |].
    + intros k c Hi Hc. destruct (decide (key = k)) as [<-|Nk]; [rewrite lookup_insert_eq; congruence|]. rewrite lookup_insert_ne by done.
      apply (ca_sound _ _ O). unfold LoadCache. apply V in Hc; [|done].
      assert (getShard k w = getShard key w) as -> by (unfold getShard; by rewrite Hi). done.
    + intros k Nk. rewrite lookup_insert_ne; [done|]. by intros ->.
  - unfold StoreCache. erewrite load_put by done. by rewrite decide_True.
Qed.

Lemma DeleteCache_ok stored key w : cache_ok stored w → cache_ok (delete key stored) (DeleteCache key w) ∧ LoadCache key (DeleteCache key w) = None.
Proof.
  intros O. pose proof (ca_shards _ _ O _ _ (get_shard _ _ key O)) as S. unfold DeleteCache. destruct (items (getShard key w) !! key) as [c|] eqn:E.
  - split.
    + eapply put_shard_ok; [done|split; simpl| |].
      * rewrite map_size_delete_Some by (by eexists). pose proof (sh_size _ _ _ S).
        assert (base.size (items (getShard key w)) ≠ 0) by (intros E0; apply map_size_empty_inv in E0; rewrite E0, lookup_empty in E; done). lia.
      * pose proof (sh_bound _ _ _ S). lia.
      * intros k [x Hx]. apply lookup_delete_Some in Hx as [_ Hx]. apply (sh_keys _ _ _ S). by eexists.
      * intros k c' Hi Hc. simpl in Hc. apply lookup_delete_Some in Hc as [Nk Hc]. rewrite lookup_delete_ne by done. apply (ca_sound _ _ O). unfold LoadCache.
        assert (getShard k w = getShard key w) as -> by (unfold getShard; by rewrite Hi). done.
      * intros k Nk. rewrite lookup_delete_ne; [done|]. by intros ->.
    + erewrite load_put by done. rewrite decide_True by done. apply lookup_delete_eq.
  - split; [|done]. destruct O as [O1 O2 O3 O4]. split; [done..|]. intros k c Hk. rewrite lookup_delete_ne; [by apply O4|]. intros <-. unfold LoadCache in Hk. congruence.
Qed.

Lemma ClearCache_ok stored w : cache_ok stored w → cache_ok ∅ (ClearCache w).
Proof.
  intros O. split; simpl.
  - apply (ca_limit _ _ O).
  - rewrite length_fmap. apply (ca_length _ _ O).
  - intros i s. rewrite list_lookup_fmap. intros (s' & _ & ->)%fmap_Some. split; simpl; [done|pose proof (ca_limit _ _ O); lia|].
    intros k [x Hx]. by rewrite lookup_empty in Hx.
  - intros k c. unfold LoadCache, getShard, ClearCache; simpl. rewrite list_lookup_fmap. destruct (shards w !! shard_index k); simpl; by rewrite lookup_empty.
Qed.
Inductive cache_op := CStore (k : string) (c : C) | CDelete (k : string) | CClear.
Definition cache_step (w : Writer) (o : cache_op) : Writer :=
  match o with CStore k c => StoreCache order_cache k c w | CDelete k => DeleteCache k w | CClear => ClearCache w end.
Definition stored_step (m : gmap string C) (o : cache_op) : gmap string C :=
  match o with CStore k c => <[k := c]> m | CDelete k => delete k m | CClear => ∅ end.

Lemma cache_run_ok ops : ∀ stored w, cache_ok stored w → cache_ok (foldl stored_step stored ops) (foldl cache_step w ops).
Proof.
  induction ops as [|o ops IH]; intros stored w O; simpl; [done|]. apply IH.
  destruct o; [by apply StoreCache_ok|by apply DeleteCache_ok|by eapply ClearCache_ok].
Qed.

Lemma cache_run_limit ops : ∀ w, maxShardSize (foldl cache_step w ops) = maxShardSize w.
Proof.
  induction ops as [|o ops IH]; intros w; simpl; [done|]. rewrite IH. destruct o; simpl; [done| |done]. unfold DeleteCache. by destruct (_ !! _).
Qed.

Lemma sum_sizes l z : (∀ i (s : CacheShard C), l !! i = Some s → size s = Z.of_nat (base.size (items s))) →
  foldl (λ total s, (total + size s)%Z) z l = (z + Z.of_nat (sum_list ((λ s, base.size (items s)) <$> l)))%Z.
Proof.
  revert z. induction l as [|s l IH]; intros z Hl; [simpl; lia|]. rewrite fmap_cons. cbn [foldl sum_list]. rewrite IH by (intros i; apply (Hl (S i))).
  pose proof (Hl 0 s eq_refl). change (sum_list_with id (?x :: ?y)) with (x + sum_list_with id y). simpl. lia.
Qed.

Lemma sizes_bound limit l : (∀ i (s : CacheShard C), l !! i = Some s → (0 ≤ size s ≤ limit)%Z) →
  ∀ z, (foldl (λ total s, (total + size s)%Z) z l ≤ z + Z.of_nat (length l) * limit)%Z.
Proof.
  induction l as [|s l IH]; intros Hl z; [simpl; lia|]. cbn [foldl length]. pose proof (Hl 0 s eq_refl).
  specialize (IH (λ i, Hl (S i)) (z + size s)%Z). lia.
Qed.

(** After any operations, the cache returns only the value stored last under a key, a value just
    stored is returned, the reported size is the number of items held, and each of the 32 shards
    holds at most its limit. *)
Theorem cache_sound ops st maxCache batch buffer k c :
  let w := foldl cache_step (NewCachedBatchWriter st maxCache batch buffer) ops in
  (LoadCache k w = Some c → foldl stored_step ∅ ops !! k = Some c) ∧
  LoadCache k (StoreCache order_cache k c w) = Some c ∧
  GetCacheSize w = Z.of_nat (sum_list ((λ s, base.size (items s)) <$> shards w)) ∧
  (GetCacheSize w ≤ 32 * Z.max 1 (Z.quot maxCache 32))%Z.
Proof.
  intros w. assert (cache_ok (foldl stored_step ∅ ops) w) as O by apply cache_run_ok, cache_new.
  assert (maxShardSize w = Z.max 1 (Z.quot maxCache 32)) as Em.
  { unfold w. rewrite cache_run_limit. unfold NewCachedBatchWriter, maxShardSize. change (Z.of_nat ShardCount) with 32%Z. destruct (_ <? 1)%Z eqn:E; lia. }
  split_and!.
  - apply (ca_sound _ _ O).
  - by eapply StoreCache_ok.
  - unfold GetCacheSize. rewrite sum_sizes; [lia|]. intros i s Hs. by apply (sh_size _ _ _ (ca_shards _ _ O i s Hs)).
  - unfold GetCacheSize. rewrite <- Em. pose proof (sizes_bound (maxShardSize w) (shards w)) as B. rewrite (ca_length _ _ O) in B.
    specialize (B ltac:(intros i s Hs; destruct (ca_shards _ _ O i s Hs); lia) 0%Z). unfold ShardCount in B. lia.
Qed.
End Cache.

Lemma load_new {St I C} (st : St) maxCache batch buffer k : LoadCache k (NewCachedBatchWriter (I:=I) (C:=C) st maxCache batch buffer) = None.
Proof. unfold LoadCache, getShard, NewCachedBatchWriter, shards. rewrite lookup_replicate_2 by apply cache_shard_index_lt. apply lookup_empty. Qed.

Lemma load_store {St I C} order_cache k (c : C) (w : CachedBatchWriter St I C) : length (shards w) = ShardCount →
  LoadCache k (StoreCache order_cache k c w) = Some c.
Proof.
  intros L. unfold LoadCache, StoreCache, getShard at 1, put_shard; simpl.
  rewrite list_lookup_insert_eq by (rewrite L; apply cache_shard_index_lt). simpl. unfold store_shard.
  destruct (items (getShard k w) !! k); simpl; apply lookup_insert_eq.
Qed.

(** ** The writer *)

Section NoLoss.
Context {St I C : Type} `{LevelDBLaws St} `{!LevelDBReliable St}.
Context (GetID : I → string) (serializeFunc : I → option (list (string * bytes))).
Context (order : gmap string I → list (string * I)) (order_cache : gmap string C → list (string * C)).
Context (order_perm : ∀ m, order m ≡ₚ map_to_list m).
Abbreviation Writer := (CachedBatchWriter St I C).

Definition put_pairs (kvs : list (string * bytes)) (m : gmap string bytes) : gmap string bytes := foldl (λ m '(k, v), <[k := v]> m) m kvs.

Lemma apply_puts kvs : ∀ m, apply_batch ((λ '(k, v), BPut k v) <$> kvs) m = put_pairs kvs m.
Proof. induction kvs as [|[k v] kvs IH]; intros m; [done|]. apply IH. Qed.

(** Every item has a record of its own, [main] of its id, which no item of another id touches. *)
Context (main : string → string) (val : I → bytes).
Context (ser_main : ∀ it, ∃ kvs, serializeFunc it = Some kvs ∧ (∀ m, put_pairs kvs m !! main (GetID it) = Some (val it)) ∧
  ∀ m id, id ≠ GetID it → put_pairs kvs m !! main id = m !! main id).

Lemma batch_lookup (l : list (string * I)) : ∀ m id, NoDup l.*1 → (∀ k it, (k, it) ∈ l → GetID it = k) →
  let m' := put_pairs (concat (omap (λ '(_, it), serializeFunc it) l)) m in
  (∀ it, (id, it) ∈ l → m' !! main id = Some (val it)) ∧ (id ∉ l.*1 → m' !! main id = m !! main id).
Proof.
  induction l as [|[k it] l IH]; intros m id Nd Hk; cbn zeta.
  - split; [intros it Hi; by apply not_elem_of_nil in Hi|done].
  - rewrite fmap_cons in Nd. apply NoDup_cons in Nd as [Nk Nd]. assert (GetID it = k) as Ek by (apply Hk; left).
    destruct (ser_main it) as (kvs & Es & Hm & Ho). rewrite Ek in Hm, Ho.
    destruct (IH (put_pairs kvs m) id Nd) as [I1 I2]; [intros; apply Hk; by right|].
    assert (put_pairs (concat (omap (λ '(_, it0), serializeFunc it0) ((k, it) :: l))) m =
      put_pairs (concat (omap (λ '(_, it0), serializeFunc it0) l)) (put_pairs kvs m)) as ->.
    { simpl. rewrite Es. simpl. unfold put_pairs. by rewrite foldl_app. }
    split.
    + intros it' [[= -> ->]|Hi]%elem_of_cons; [|by apply I1]. rewrite I2 by done. apply Hm.
    + intros Hn. rewrite fmap_cons in Hn. apply not_elem_of_cons in Hn as [Nid Hn]. rewrite I2 by done. by apply Ho.
Qed.

Definition keyed (p : gmap string I) : Prop := ∀ id it, p !! id = Some it → GetID it = id.

(** A flush moves exactly the pending records into the database. *)
Lemma flush_spec (w : Writer) : keyed (pending w) →
  pending (flush serializeFunc order w) = ∅ ∧ writeChan (flush serializeFunc order w) = writeChan w ∧
  ∀ id, contents (db (flush serializeFunc order w)) !! main id =
    match pending w !! id with Some it => Some (val it) | None => contents (db w) !! main id end.
Proof.
  intros K. unfold flush. case_decide as D; [rewrite D; split_and!; [done..|]; intros id; by rewrite lookup_empty|].
  destruct (ldb_Write_ok ((λ '(k, v), BPut k v) <$> batch_pairs serializeFunc order (pending w)) (db w) (ldb_reliable _)) as (st & -> & Ec).
  split_and!; [done..|]. intros id. simpl. rewrite Ec, apply_puts. unfold batch_pairs.
  destruct (batch_lookup (order (pending w)) (contents (db w)) id) as [B1 B2].
  - rewrite order_perm. apply NoDup_fst_map_to_list.
  - intros k it. rewrite order_perm, elem_of_map_to_list. apply K.
  - destruct (pending w !! id) as [it|] eqn:E; [apply B1; by rewrite order_perm, elem_of_map_to_list|apply B2].
    rewrite order_perm. intros ([k it] & -> & Hk%elem_of_map_to_list)%list_elem_of_fmap. simpl in *. congruence.
Qed.

(** The states of a running writer, with the item taken last under each id. *)
Inductive wreach : Writer → gmap string I → Prop :=
  | wr_new st maxCache batch buffer : wreach (NewCachedBatchWriter st maxCache batch buffer) ∅
  | wr_write w l it w' : wreach w l → Write it w = Some (w', true) → wreach w' (<[GetID it := it]> l)
  | wr_drop w l it w' : wreach w l → Write it w = Some (w', false) → wreach w' l
  | wr_store w l k c : wreach w l → wreach (StoreCache order_cache k c w) l
  | wr_recv w l : wreach w l → wreach (recv GetID serializeFunc order w) l
  | wr_flush w l : wreach w l → wreach (flush serializeFunc order w) l.

(** Where the last item of an id is: in the channel, else pending, else in the database. *)
Definition located (q : list I) (p : gmap string I) (m : gmap string bytes) (id : string) (it : I) : Prop :=
  match last (filter (λ x, GetID x = id) q) with
  | Some it' => it' = it
  | None => match p !! id with Some it' => it' = it | None => m !! main id = Some (val it) end
  end.

Record winv (w : Writer) (l : gmap string I) : Prop := {
  wi_keyed : keyed (pending w);
  wi_located id it : l !! id = Some it → located (writeChan w) (pending w) (contents (db w)) id it;
}.

Lemma winv_flush w l : winv w l → winv (flush serializeFunc order w) l.
Proof.
  intros [K L]. destruct (flush_spec w K) as (P & Q & F). split.
  - rewrite P. intros id it E. by rewrite lookup_empty in E.
  - intros id it E. specialize (L id it E). unfold located in *. rewrite Q, P, lookup_empty. destruct (last _); [done|].
    rewrite F. by destruct (pending w !! id); subst.
Qed.

Lemma winv_take w l it q : writeChan w = it :: q → winv w l → winv (set_work (db w) q (<[GetID it := it]> (pending w)) w) l.
Proof.
  intros E [K L]. split; simpl.
  - intros id x. rewrite lookup_insert_Some. intros [[<- <-]|[_ Hx]]; [done|by apply K].
  - intros id x Hx. specialize (L id x Hx). unfold located in *. rewrite E, filter_cons in L. case_decide as D.
    + rewrite last_cons in L. subst id. destruct (last (filter _ q)); [done|]. by rewrite lookup_insert_eq.
    + destruct (last (filter _ q)); [done|]. by rewrite lookup_insert_ne.
Qed.

Lemma winv_recv w l : winv w l → winv (recv GetID serializeFunc order w) l.
Proof.
  intros Inv. unfold recv. destruct (writeChan w) as [|it q] eqn:E; [done|]. pose proof (winv_take w l it q E Inv) as Inv'.
  simpl. destruct (_ <=? _)%Z; [by apply winv_flush|done].
Qed.

Lemma wreach_inv w l : wreach w l → winv w l.
Proof.
  induction 1 as [st mc b bf|w l it w' _ IH E|w l it w' _ IH E|w l k c _ IH|w l _ IH|w l _ IH].
  - split; simpl; [intros ? ? E|intros ? ? E]; by rewrite lookup_empty in E.
  - unfold Write in E. destruct (closed w); [done|]. case_decide; simplify_eq. destruct IH as [K L]. split; [done|]. simpl.
    intros id x. unfold located. rewrite filter_app. intros [[<- <-]|[Nid Hx]]%lookup_insert_Some.
    + rewrite filter_cons_True, filter_nil by done. by rewrite last_snoc.
    + rewrite (filter_cons_False _ it []), filter_nil by done. rewrite app_nil_r. by apply L.
  - unfold Write in E. destruct (closed w); [done|]. case_decide; simplify_eq. done.
  - destruct IH. by split.
  - by apply winv_recv.
  - by apply winv_flush.
Qed.

(** The goroutine empties the channel with one step per item. *)
Definition drain (w : Writer) : Writer := flush serializeFunc order (Nat.iter (length (writeChan w)) (recv GetID serializeFunc order) w).

Lemma recv_chan w l : winv w l → writeChan (recv GetID serializeFunc order w) = tail (writeChan w).
Proof.
  intros Inv. unfold recv. destruct (writeChan w) as [|it q] eqn:E; [done|]. simpl. destruct (_ <=? _)%Z; [|done].
  by destruct (flush_spec _ (wi_keyed _ _ (winv_take w l it q E Inv))) as (_ & -> & _).
Qed.

Lemma recvs_chan n : ∀ w l, winv w l → winv (Nat.iter n (recv GetID serializeFunc order) w) l ∧
  writeChan (Nat.iter n (recv GetID serializeFunc order) w) = drop n (writeChan w).
Proof.
  induction n as [|n IH]; intros w l Inv; [by rewrite drop_0|]. destruct (IH w l Inv) as [Inv' E]. simpl. split; [by apply winv_recv|].
  rewrite (recv_chan _ l) by done. rewrite E. clear. revert n. induction (writeChan w) as [|x q IHq]; intros [|n]; simpl; done.
Qed.

(** While the database works, every item taken reaches it: once the goroutine has worked off the
    channel and flushed, the record of each id is the one written last. *)
Lemma drain_persists w l : wreach w l → writeChan (drain w) = [] ∧ pending (drain w) = ∅ ∧
  ∀ id it, l !! id = Some it → contents (db (drain w)) !! main id = Some (val it).
Proof.
  intros Inv%wreach_inv. destruct (recvs_chan (length (writeChan w)) w l Inv) as [Inv' E]. rewrite drop_all in E.
  destruct (flush_spec _ (wi_keyed _ _ Inv')) as (P & Q & _). pose proof (winv_flush _ _ Inv') as Inv2. unfold drain.
  split_and!; [by rewrite Q|done|]. intros id it Hl. pose proof (wi_located _ _ Inv2 id it Hl) as L. unfold located in L.
  rewrite Q, E, P, lookup_empty in L. done.
Qed.

End NoLoss.

(** ** The store of transaction errors *)

Section ErrorStore.
Context {St : Type} `{LevelDBLaws St} `{!LevelDBReliable St} `{ProtoLaws StoredErrorData}.
Context (order : gmap string errorWriteRequest → list (string * errorWriteRequest)) (order_cache : gmap string StoredErrorData → list (string * StoredErrorData)).
Context (order_perm : ∀ m, order m ≡ₚ map_to_list m).
Abbreviation Store := (CachedBatchWriter St errorWriteRequest StoredErrorData).

(** Calls of the store and steps of its goroutine. *)
Inductive err_op := ESave (now : Z) (txHash inputData errorMessage : string) | EGet (txHash : string) | ERecv | EFlush.

Definition err_step (o : err_op) (s : Store * gmap string StoredErrorData) : option (Store * gmap string StoredErrorData) :=
  let '(w, l) := s in
  match o with
  | ESave now tx inp msg =>
      match SaveError order_cache now tx inp msg w with
      | Some (w', true) => Some (w', <[tx := {| TxHash := tx; InputData := inp; ErrorMessage := msg; CreatedAt := now |}]> l)
      | Some (w', false) => Some (w', l)
      | None => None
      end
  | EGet tx => Some ((GetErrorByHash order_cache tx w).2, l)
  | ERecv => Some (recv e_txHash error_pairs order w, l)
  | EFlush => Some (flush error_pairs order w, l)
  end.

Fixpoint err_run (ops : list err_op) (s : Store * gmap string StoredErrorData) : option (Store * gmap string StoredErrorData) :=
  match ops with [] => Some s | o :: ops => match err_step o s with Some s' => err_run ops s' | None => None end end.

Lemma error_main it : ∃ kvs, error_pairs it = Some kvs ∧
  (∀ m, put_pairs kvs m !! (ERROR_STORAGE_PREFIX +:+ e_txHash it) = Some (proto_Marshal (e_data it))) ∧
  ∀ m id, id ≠ e_txHash it → put_pairs kvs m !! (ERROR_STORAGE_PREFIX +:+ id) = m !! (ERROR_STORAGE_PREFIX +:+ id).
Proof.
  eexists. split; [done|]. unfold put_pairs; simpl. split; intros; [apply lookup_insert_eq|]. apply lookup_insert_ne. intros E%str_app_inj_l. congruence.
Qed.

Lemma err_step_reach o w l d s' : wreach e_txHash error_pairs order order_cache w l → (λ e, e_data e) <$> l = d → err_step o (w, d) = Some s' →
  ∃ l', wreach e_txHash error_pairs order order_cache s'.1 l' ∧ (λ e, e_data e) <$> l' = s'.2.
Proof.
  intros R E Eo. destruct o as [now tx inp msg|tx| |]; simpl in Eo.
  - destruct (SaveError order_cache now tx inp msg w) as [[w' []]|] eqn:Es; simplify_eq; simpl.
    + eexists. split; [eapply wr_write; [|exact Es]; by apply wr_store|]. simpl. by rewrite fmap_insert.
    + exists l. split; [|done]. eapply wr_drop; [|exact Es]. by apply wr_store.
  - simplify_eq. exists l. split; [|done]. unfold GetErrorByHash. destruct (LoadCache tx w); [done|]. simpl.
    destruct (ldb_Get _ _) as [b| |]; [destruct (proto_Unmarshal b)|..]; simpl; [by apply wr_store|done..].
  - simplify_eq. exists l. split; [by apply wr_recv|done].
  - simplify_eq. exists l. split; [by apply wr_flush|done].
Qed.

Lemma err_run_reach ops : ∀ w l d s', wreach e_txHash error_pairs order order_cache w l → (λ e, e_data e) <$> l = d → err_run ops (w, d) = Some s' →
  ∃ l', wreach e_txHash error_pairs order order_cache s'.1 l' ∧ (λ e, e_data e) <$> l' = s'.2.
Proof.
  induction ops as [|o ops IH]; intros w l d s' R E Er; cbn [err_run] in Er; [simplify_eq; by exists l|].
  destruct (err_step o (w, d)) as [[w1 d1]|] eqn:Eo; [|done]. destruct (err_step_reach o w l d _ R E Eo) as (l1 & R1 & E1). by eapply IH.
Qed.

(** Every error the store has taken is on disk once the goroutine has caught up: a storage opened on
    the database then returns the data saved last for the transaction. *)
Theorem saved_errors_persist st ops w latest tx d : err_run ops (NewTransactionStorage st, ∅) = Some (w, latest) → latest !! tx = Some d →
  let w' := drain e_txHash error_pairs order w in
  writeChan w' = [] ∧ pending w' = ∅ ∧ (GetErrorByHash order_cache tx (NewTransactionStorage (db w'))).1 = inr d.
Proof.
  intros Er Ed w'. destruct (err_run_reach ops _ ∅ ∅ _ (wr_new _ _ _ _ st 500 50 1000) (fmap_empty _) Er) as (l & R & E). simpl in R, E.
  rewrite <- E in Ed. apply lookup_fmap_Some in Ed as (it & <- & Hit).
  destruct (drain_persists e_txHash error_pairs order order_cache order_perm (String.append ERROR_STORAGE_PREFIX) (λ e, proto_Marshal (e_data e)) error_main w l R) as (Q & P & F).
  split_and!; [done..|]. specialize (F tx it Hit). unfold GetErrorByHash.
  unfold NewTransactionStorage at 1. rewrite load_new.
  unfold NewTransactionStorage, NewCachedBatchWriter at 1, db at 1. rewrite (ldb_Get_ok _ _ (ldb_reliable _)). fold w' in F. rewrite F.
  by rewrite proto_roundtrip.
Qed.
(** An error that was saved just before [Close], and one that is only in the channel when a flush is
    requested, is not written: the goroutine flushes its pending items and leaves the channel alone.
    A further save after [Close] panics. *)
Theorem close_loses_queued st now tx inp msg w latest : ldb_Get (ERROR_STORAGE_PREFIX +:+ tx) st = NotFound →
  err_run [ESave now tx inp msg] (NewTransactionStorage st, ∅) = Some (w, latest) →
  is_Some (latest !! tx) ∧ (GetErrorByHash order_cache tx w).1 = inr {| TxHash := tx; InputData := inp; ErrorMessage := msg; CreatedAt := now |} ∧
  (GetErrorByHash order_cache tx (NewTransactionStorage (db (flush error_pairs order w)))).1 = inl ErrNotFound ∧
  (GetErrorByHash order_cache tx (NewTransactionStorage (db (Close error_pairs order w)))).1 = inl ErrNotFound ∧
  ∀ now' tx', SaveError order_cache now' tx' inp msg (Close error_pairs order w) = None.
Proof.
  intros En Er. cbn [err_run err_step] in Er. unfold SaveError in Er. set (d := {| TxHash := tx |}) in *. set (w0 := StoreCache order_cache tx d _) in Er.
  assert (Write {| e_txHash := tx; e_data := d |} w0 = Some (set_work st [{| e_txHash := tx; e_data := d |}] ∅ w0, true)) as Ew by done.
  rewrite Ew in Er. simplify_eq.
  assert (∀ st', st' = st → (GetErrorByHash order_cache tx (NewTransactionStorage st')).1 = inl ErrNotFound) as N.
  { intros st' ->. unfold GetErrorByHash, NewTransactionStorage at 1. rewrite load_new. simpl. by rewrite En. }
  split_and!.
  - rewrite lookup_insert_eq. by eexists.
  - unfold GetErrorByHash. assert (LoadCache tx (set_work st [{| e_txHash := tx; e_data := d |}] ∅ w0) = Some d) as ->; [|done].
    change (LoadCache tx w0 = Some d). unfold w0. by apply load_store.
  - by apply N.
  - by apply N.
  - done.
Qed.
End ErrorStore.

(** ** The store of artifacts *)

Section ArtifactStore.
Context {St : Type} `{LevelDBLaws St} `{!LevelDBReliable St} `{ProtoLaws ArtifactData}.
Context (order order_cache : gmap string ArtifactData → list (string * ArtifactData)).
Context (order_perm : ∀ m, order m ≡ₚ map_to_list m).

Lemma artifact_main a : ∃ kvs, artifact_pairs a = Some kvs ∧
  (∀ m, put_pairs kvs m !! (PREFIX_ARTIFACT_DATA +:+ ArtifactId a) = Some (proto_Marshal a)) ∧
  ∀ m id, id ≠ ArtifactId a → put_pairs kvs m !! (PREFIX_ARTIFACT_DATA +:+ id) = m !! (PREFIX_ARTIFACT_DATA +:+ id).
Proof.
  eexists. split; [done|].
  assert (∀ m x, put_pairs ((if decide (ContractAddress a = EmptyString) then [] else [(PREFIX_ADDRESS_TO_ID +:+ ContractAddress a, str_bytes (ArtifactId a))])
    ++ (if decide (BytecodeHash a = EmptyString) then [] else [(PREFIX_BYTECODE_TO_ID +:+ BytecodeHash a, str_bytes (ArtifactId a))])) m !! (PREFIX_ARTIFACT_DATA +:+ x)
    = m !! (PREFIX_ARTIFACT_DATA +:+ x)) as G.
  { intros m x. unfold put_pairs. rewrite foldl_app. repeat case_decide; simpl; rewrite ?lookup_insert_ne; try done; by apply diverge_ne. }
  split; intros m.
  - change (put_pairs (?kv :: ?l) m) with (put_pairs l (put_pairs [kv] m)). rewrite G. apply lookup_insert_eq.
  - intros id Nid. change (put_pairs (?kv :: ?l) m) with (put_pairs l (put_pairs [kv] m)). rewrite G. apply lookup_insert_ne.
    intros E%str_app_inj_l. congruence.
Qed.

(** Every artifact the store has taken is on disk under its id once the goroutine has caught up. *)
Theorem saved_artifacts_persist w latest id a : wreach ArtifactId artifact_pairs order order_cache w latest → latest !! id = Some a →
  (GetArtifactByID order_cache id (NewArtifactStorage (db (drain ArtifactId artifact_pairs order w : CachedBatchWriter St _ _)))).1 = inr a.
Proof.
  intros R Ea. destruct (drain_persists ArtifactId artifact_pairs order order_cache order_perm (String.append PREFIX_ARTIFACT_DATA) proto_Marshal artifact_main w latest R) as (_ & _ & F).
  specialize (F id a Ea). unfold GetArtifactByID. unfold NewArtifactStorage at 1. rewrite load_new.
  unfold NewArtifactStorage, NewCachedBatchWriter at 1, db at 1. rewrite (ldb_Get_ok _ _ (ldb_reliable _)), F. by rewrite proto_roundtrip.
Qed.
End ArtifactStore.

#[export] Instance ArtifactData_eq_dec : EqDecision ArtifactData.
Proof. solve_decision. Defined.

Lemma artifact_hash_pair `{Proto ArtifactData} a : BytecodeHash a ≠ EmptyString → ∃ kvs, artifact_pairs a = Some kvs ∧
  ∀ m, put_pairs kvs m !! (PREFIX_BYTECODE_TO_ID +:+ BytecodeHash a) = Some (str_bytes (ArtifactId a)).
Proof.
  intros Nh. eexists. split; [done|]. intros m. rewrite (decide_False (P:=BytecodeHash a = _)) by done. rewrite app_comm_cons.
  unfold put_pairs. rewrite foldl_app. apply lookup_insert_eq.
Qed.

(** The flush of two pending artifacts in a given order: the second one owns the shared hash. *)
Lemma flush_two `{Proto ArtifactData} order (p : gmap string ArtifactData) ka a kb b (w : CachedBatchWriter (gmap string bytes) ArtifactData ArtifactData) :
  pending w = p → p ≠ ∅ → order p = [(ka, a); (kb, b)] → BytecodeHash b ≠ EmptyString →
  GetArtifactIDByBytecodeHash (BytecodeHash b) (flush artifact_pairs order w) = inr (ArtifactId b).
Proof.
  intros Ep Np Eo Nb. unfold GetArtifactIDByBytecodeHash, get_index, flush. rewrite Ep, decide_False by done.
  unfold batch_pairs. rewrite Eo. cbn [omap list_omap]. destruct (artifact_hash_pair b Nb) as (kb' & Eb & Hb). rewrite Eb.
  assert (∃ l, artifact_pairs a = Some l) as (la & Ea) by (by eexists). rewrite Ea. cbn [concat]. rewrite app_nil_r.
  change (ldb_Write ?ops (db w)) with (Some (apply_batch ops (db w))). cbn iota.
  assert (∀ l, contents (db (set_work (apply_batch ((λ '(k, v), BPut k v) <$> (l ++ kb')) (db w)) (writeChan w) ∅ w))
    !! (PREFIX_BYTECODE_TO_ID +:+ BytecodeHash b) = Some (str_bytes (ArtifactId b))) as G.
  { intros l. simpl. rewrite apply_puts. unfold put_pairs. rewrite foldl_app. apply Hb. }
  rewrite (ldb_Get_ok _ _ (ldb_reliable _)), G. by rewrite str_bytes_inv.
Qed.

(** Two artifacts with one bytecode hash that are flushed in the same batch: which of them the hash
    leads to afterwards depends on the iteration order of a Go map, not on which was saved last. *)
Theorem bytecode_index_order `{Proto ArtifactData} (a b : ArtifactData) :
  ArtifactId a ≠ ArtifactId b → BytecodeHash a = BytecodeHash b → BytecodeHash a ≠ EmptyString →
  ∃ order1 order2 : gmap string ArtifactData → list (string * ArtifactData),
    (∀ m, order1 m ≡ₚ map_to_list m) ∧ (∀ m, order2 m ≡ₚ map_to_list m) ∧
    let w := set_work (∅ : gmap string bytes) [] (<[ArtifactId b := b]> {[ArtifactId a := a]}) (NewArtifactStorage ∅) in
    GetArtifactIDByBytecodeHash (BytecodeHash a) (flush artifact_pairs order1 w) = inr (ArtifactId a) ∧
    GetArtifactIDByBytecodeHash (BytecodeHash a) (flush artifact_pairs order2 w) = inr (ArtifactId b).
Proof.
  intros Nid Eh Nh. set (p := <[ArtifactId b := b]> {[ArtifactId a := a]} : gmap string ArtifactData).
  set (la := [(ArtifactId b, b); (ArtifactId a, a)]). set (lb := [(ArtifactId a, a); (ArtifactId b, b)]).
  assert (p ≠ ∅) as Np by apply insert_non_empty.
  assert (map_to_list p ≡ₚ la) as Pa.
  { unfold p. rewrite map_to_list_insert; [|by apply lookup_singleton_ne]. by rewrite map_to_list_singleton. }
  exists (λ m, if decide (m = p) then la else map_to_list m), (λ m, if decide (m = p) then lb else map_to_list m).
  cbv zeta. split_and!.
  - intros m. case_decide; subst; [by rewrite Pa|done].
  - intros m. case_decide; subst; [rewrite Pa; apply perm_swap|done].
  - eapply flush_two; [done|done|by rewrite decide_True|done].
  - rewrite Eh. eapply flush_two; [done|done|by rewrite decide_True|congruence].
Qed.

(** ** Witnesses *)

Module WriterExample.
Import ToyProto.

#[local] Instance ser_str : Ser string := ser_iso str_bytes bytes_str str_bytes_inv.
#[local] Instance error_eq_dec : EqDecision StoredErrorData.
Proof. solve_decision. Defined.
#[local] Instance error_ser : Ser StoredErrorData :=
  ser_iso (λ d, (TxHash d, InputData d, ErrorMessage d, CreatedAt d)) (λ '(a, b, c, d), Build_StoredErrorData a b c d) ltac:(by intros []).
#[local] Instance error_proto : Proto StoredErrorData := toy_proto (Build_StoredErrorData "" "" "" 0).
#[local] Instance error_proto_laws : ProtoLaws StoredErrorData.
Proof. apply toy_proto_laws. Qed.
#[local] Instance artifact_ser : Ser ArtifactData :=
  ser_iso (λ d, (ArtifactId d, ContractAddress d, BytecodeHash d, a_rest d)) (λ '(a, b, c, d), Build_ArtifactData a b c d) ltac:(by intros []).
#[local] Instance artifact_proto : Proto ArtifactData := toy_proto (Build_ArtifactData "" "" "" []).
#[local] Instance artifact_proto_laws : ProtoLaws ArtifactData.
Proof. apply toy_proto_laws. Qed.

Abbreviation order_err := (map_to_list (K:=string) (A:=errorWriteRequest) (M:=gmap string errorWriteRequest)).
Abbreviation order_dat := (map_to_list (K:=string) (A:=StoredErrorData) (M:=gmap string StoredErrorData)).
Abbreviation order_art := (map_to_list (K:=string) (A:=ArtifactData) (M:=gmap string ArtifactData)).
Abbreviation empty_db := (∅ : gmap string bytes).

Lemma cache_sound_witness :
  LoadCache "k" (foldl (cache_step (St:=gmap string bytes) (I:=unit) order_dat) (NewCachedBatchWriter empty_db 500 50 1000)
    [CStore "k" (Build_StoredErrorData "k" "" "" 1); CStore "l" (Build_StoredErrorData "l" "" "" 2); CDelete "k"]) = None.
Proof.
  destruct (LoadCache _ _) as [c|] eqn:E; [|done].
  destruct (cache_sound (St:=gmap string bytes) (I:=unit) order_dat (λ m, Permutation_refl _)
    [CStore "k" (Build_StoredErrorData "k" "" "" 1); CStore "l" (Build_StoredErrorData "l" "" "" 2); CDelete "k"] empty_db 500 50 1000 "k" c) as [S _].
  apply S in E. by vm_compute in E.
Defined.

Definition ops1 : list err_op := [ESave 1 "0xa" "in" "first"; ERecv; ESave 2 "0xb" "in" "other"; ESave 3 "0xa" "in" "second"; EFlush].
Definition w1 := default (NewTransactionStorage empty_db, ∅) (err_run order_err order_dat ops1 (NewTransactionStorage empty_db, ∅)).

Lemma saved_errors_persist_witness :
  (GetErrorByHash order_dat "0xa" (NewTransactionStorage (db (drain e_txHash error_pairs order_err w1.1)))).1 = inr (Build_StoredErrorData "0xa" "in" "second" 3).
Proof.
  apply (saved_errors_persist order_err order_dat (λ m, Permutation_refl _) empty_db ops1 w1.1 w1.2); by vm_compute.
Defined.

Lemma close_loses_queued_witness :
  (GetErrorByHash order_dat "0xa" (NewTransactionStorage (db (Close error_pairs order_err
     (default (NewTransactionStorage empty_db, ∅) (err_run order_err order_dat [ESave 1 "0xa" "in" "m"] (NewTransactionStorage empty_db, ∅))).1)))).1 = inl ErrNotFound.
Proof.
  apply (close_loses_queued order_err order_dat empty_db 1 "0xa" "in" "m" _
    (default (NewTransactionStorage empty_db, ∅) (err_run order_err order_dat [ESave 1 "0xa" "in" "m"] (NewTransactionStorage empty_db, ∅))).2); by vm_compute.
Defined.

Definition art1 : ArtifactData := Build_ArtifactData "id1" "0xc" "0xh" [x01].
Definition art2 : ArtifactData := Build_ArtifactData "id2" "0xd" "0xh" [x02].
Definition wa : CachedBatchWriter (gmap string bytes) ArtifactData ArtifactData :=
  set_work empty_db [art1] ∅ (NewArtifactStorage empty_db).

Lemma wa_reach : wreach ArtifactId artifact_pairs order_art order_art wa (<[ArtifactId art1 := art1]> ∅).
Proof. apply (wr_write _ _ _ _ (NewArtifactStorage empty_db) ∅ art1); [apply wr_new|done]. Qed.

Lemma saved_artifacts_persist_witness :
  (GetArtifactByID order_art "id1" (NewArtifactStorage (db (drain ArtifactId artifact_pairs order_art wa)))).1 = inr art1.
Proof. apply (saved_artifacts_persist order_art order_art (λ m, Permutation_refl _) wa (<[ArtifactId art1 := art1]> ∅) "id1" art1 wa_reach). by vm_compute. Defined.

Lemma bytecode_index_order_witness :
  ∃ order1 order2 : gmap string ArtifactData → list (string * ArtifactData),
    (∀ m, order1 m ≡ₚ map_to_list m) ∧ (∀ m, order2 m ≡ₚ map_to_list m) ∧
    let w := set_work empty_db [] (<["id2" := art2]> {["id1" := art1]}) (NewArtifactStorage ∅) in
    GetArtifactIDByBytecodeHash "0xh" (flush artifact_pairs order1 w) = inr "id1"%string ∧
    GetArtifactIDByBytecodeHash "0xh" (flush artifact_pairs order2 w) = inr "id2"%string.
Proof. apply (bytecode_index_order art1 art2); done. Defined.
End WriterExample.
