(* ===== verification/Connections.v ===== *)
(** * The table of network connections ([pkg/network/connections_manager.go],
    [pkg/common/connection_type.go])

    Connections are kept per connection type in shards chosen by the last byte of the address; a
    shard is a concurrent map from the printed address to the connection.  A connection is an object
    with an identity; its address, type and status are read when an operation asks for them. *)

From S2P Require Import Prelude GoLib LevelDB.
From Stdlib Require Import Strings.Byte.

Abbreviation cid := positive.

(** What the methods of a connection answer at the time of a call. *)
Record Conn := { c_Address : bytes; c_Type : string; c_IsConnect : bool }.
Abbreviation conn_env := (cid → Conn).

Definition NONE_TYPE : string := "none".

(** The names with an index of their own, from 1 on; the last one has no way back. *)
Definition connection_types : list string :=
  ["validator"; "node"; "child_node"; "execute_miner"; "verify_miner"; "client"; "storage"; "explorer";
   "state_channel_validator"; "backup"; "master_read_only"].
Definition MASTER_READ_ONLY_IDX : Z := 11.

Definition MapConnectionTypeToIndex (cSType : string) : Z :=
  match list_find (λ n, n = cSType) connection_types with Some (i, _) => Z.of_nat (S i) | None => 0 end.

Definition MapIndexToConnectionType (index : Z) : string :=
  if ((1 <=? index) && (index <? MASTER_READ_ONLY_IDX))%Z then default NONE_TYPE (connection_types !! Z.to_nat (index - 1)) else NONE_TYPE.

Definition MaxConnectionTypes : nat := 20.
Definition numConnectionShards : nat := 32.

Record connectionRecord := { address : bytes; conn : option cid }.
Abbreviation connectionShard := (gmap string connectionRecord).

Record ConnectionsManager := {
  parentConnection : option cid;
  typeToShards : list (list connectionShard);
}.

Definition NewConnectionsManager : ConnectionsManager :=
  {| parentConnection := None; typeToShards := replicate MaxConnectionTypes (replicate numConnectionShards ∅) |}.

Definition calculateShardIndex (address : bytes) : nat :=
  Z.to_nat (Z.land (b2z (address !!! 19)) (Z.of_nat numConnectionShards - 1)).

Definition in_range (cType : Z) (cm : ConnectionsManager) : bool :=
  ((0 <=? cType) && (cType <? Z.of_nat (length (typeToShards cm))))%Z.

Definition shard_at (t i : nat) (cm : ConnectionsManager) : connectionShard :=
  default ∅ (typeToShards cm !! t ≫= λ row, row !! i).

(** A store through the pointer [getShard] returned. *)
Definition set_shard (t i : nat) (f : connectionShard → connectionShard) (cm : ConnectionsManager) : ConnectionsManager :=
  {| parentConnection := parentConnection cm; typeToShards := alter (alter f i) t (typeToShards cm) |}.

Definition set_parent (p : option cid) (cm : ConnectionsManager) : ConnectionsManager :=
  {| parentConnection := p; typeToShards := typeToShards cm |}.

(** [int32(total)] *)
Definition i32 (z : Z) : Z := ((z + 2 ^ 31) mod 2 ^ 32 - 2 ^ 31)%Z.

Section Connections.
(** [iter] is the order in which [Range] visits a shard. *)
Context `{EthAddress} (iter : connectionShard → list (string * connectionRecord)).

Definition addressKey (address : bytes) : string := AddressHex address.

(** [getShard], as the pair of indices of the shard. *)
Definition getShard (cType : Z) (address : bytes) (cm : ConnectionsManager) : option (nat * nat) :=
  if in_range cType cm then Some (Z.to_nat cType, calculateShardIndex address) else None.

Definition add_record (fullMap : gmap bytes cid) (r : connectionRecord) : gmap bytes cid :=
  match conn r with Some c => <[address r := c]> fullMap | None => fullMap end.

Definition ConnectionsByType (cType : Z) (cm : ConnectionsManager) : gmap bytes cid :=
  if in_range cType cm then
    foldl (λ full shard, foldl add_record full ((iter shard).*2)) ∅ (default [] (typeToShards cm !! Z.to_nat cType))
  else ∅.

Definition ConnectionByTypeAndAddress (cType : Z) (address : bytes) (cm : ConnectionsManager) : option cid :=
  '(t, i) ← getShard cType address cm; r ← shard_at t i cm !! addressKey address; conn r.

Definition ConnectionsByTypeAndAddresses (cType : Z) (addresses : list bytes) (cm : ConnectionsManager) : gmap bytes cid :=
  foldl (λ result a, match ConnectionByTypeAndAddress cType a cm with Some c => <[a := c]> result | None => result end) ∅ addresses.

Definition FilterAddressAvailable (env : conn_env) (cType : Z) (addresses : gmap bytes Z) (cm : ConnectionsManager) : gmap bytes Z :=
  filter (λ '(a, _), match ConnectionByTypeAndAddress cType a cm with Some c => c_IsConnect (env c) | None => false end = true) addresses.

Definition countConnectionsByType (cType : Z) (cm : ConnectionsManager) : Z :=
  if in_range cType cm then
    foldl (λ total shard, (total + Z.of_nat (length (iter shard)))%Z) 0%Z (default [] (typeToShards cm !! Z.to_nat cType))
  else 0%Z.

(** One round of the loop of [Stats]; the name of an index is never empty. *)
Definition stats_type (stats : gmap string Z) (cType : Z) (total : Z) : gmap string Z :=
  if (0 <? total)%Z then <[MapIndexToConnectionType cType := i32 total]> stats else stats.

Definition Stats (cm : ConnectionsManager) : gmap string Z :=
  foldl (λ stats t, stats_type stats (Z.of_nat t) (countConnectionsByType (Z.of_nat t) cm)) ∅ (seq 0 (length (typeToShards cm))).

Definition AddParentConnection (c : option cid) (cm : ConnectionsManager) : ConnectionsManager :=
  match c with Some _ => set_parent c cm | None => cm end.

(** The steps of [RemoveConnection]: load and compare, delete, clear the parent. *)
Definition load_matches (env : conn_env) (c : cid) (cm : ConnectionsManager) : bool :=
  match getShard (MapConnectionTypeToIndex (c_Type (env c))) (c_Address (env c)) cm with
  | Some (t, i) =>
      match shard_at t i cm !! addressKey (c_Address (env c)) with
      | Some r => bool_decide (conn r = Some c)
      | None => false
      end
  | None => false
  end.

Definition delete_loaded (env : conn_env) (c : cid) (cm : ConnectionsManager) : ConnectionsManager :=
  match getShard (MapConnectionTypeToIndex (c_Type (env c))) (c_Address (env c)) cm with
  | Some (t, i) => set_shard t i (delete (addressKey (c_Address (env c)))) cm
  | None => cm
  end.

Definition clear_parent (c : cid) (cm : ConnectionsManager) : ConnectionsManager :=
  if decide (parentConnection cm = Some c) then set_parent None cm else cm.

Definition RemoveConnection (env : conn_env) (c : option cid) (cm : ConnectionsManager) : ConnectionsManager :=
  match c with
  | None => cm
  | Some c =>
      match getShard (MapConnectionTypeToIndex (c_Type (env c))) (c_Address (env c)) cm with
      | None => cm
      | Some _ => clear_parent c (if load_matches env c cm then delete_loaded env c cm else cm)
      end
  end.

(** [AddConnectionWithAddress]; the second component lists the connections a goroutine disconnects. *)
Definition AddConnectionWithAddress (env : conn_env) (c : option cid) (addr : bytes) (replace : bool) (cTypeOverride : string)
    (cm : ConnectionsManager) : ConnectionsManager * list cid :=
  match c with
  | None => (cm, [])
  | Some c =>
      let cTypeStr := if decide (cTypeOverride = EmptyString) then c_Type (env c) else cTypeOverride in
      match getShard (MapConnectionTypeToIndex cTypeStr) addr cm with
      | None => (cm, [])
      | Some (t, i) =>
          let existing := shard_at t i cm !! addressKey addr in
          if bool_decide (is_Some existing) && negb replace then (cm, [])
          else
            let old := match existing ≫= conn with
                       | Some o => if decide (o ≠ c) then if c_IsConnect (env o) then [o] else [] else []
                       | None => []
                       end in
            (set_shard t i (insert (addressKey addr) {| address := addr; conn := Some c |}) cm, old)
      end
  end.

Definition AddConnection (env : conn_env) (c : option cid) (replace : bool) (cTypeOverride : string)
    (cm : ConnectionsManager) : ConnectionsManager * list cid :=
  match c with
  | None => (cm, [])
  | Some c' => AddConnectionWithAddress env c (c_Address (env c')) replace cTypeOverride cm
  end.

(** One tick of [HealthCheck] on a shard, then on all of them, with the numbers checked and removed;
    asking a nil connection for its status panics. *)
Definition check_record (env : conn_env) (s : option (connectionShard * Z * Z)) (kr : string * connectionRecord) : option (connectionShard * Z * Z) :=
  '(shard, checked, removed) ← s;
  c ← conn kr.2;
  if c_IsConnect (env c) then Some (shard, (checked + 1)%Z, removed) else Some (delete kr.1 shard, (checked + 1)%Z, (removed + 1)%Z).

Definition check_shard (env : conn_env) (shard : connectionShard) : option (connectionShard * Z * Z) :=
  foldl (check_record env) (Some (shard, 0%Z, 0%Z)) (iter shard).

Definition check_shards (env : conn_env) (rows : list (list connectionShard)) : option (list (list (connectionShard * Z * Z))) :=
  mapM (mapM (check_shard env)) rows.

Definition sumZ (l : list Z) : Z := foldr Z.add 0%Z l.

Definition HealthCheck (env : conn_env) (cm : ConnectionsManager) : option (ConnectionsManager * Z * Z) :=
  match check_shards env (typeToShards cm) with
  | Some rows =>
      Some ({| parentConnection := parentConnection cm; typeToShards := (λ row : list (connectionShard * Z * Z), (λ r, r.1.1) <$> row) <$> rows |},
            sumZ ((λ r, r.1.2) <$> concat rows), sumZ ((λ r, r.2) <$> concat rows))
  | None => None
  end.

End Connections.

Definition calculateDynamicShards (connectionCount : Z) : Z :=
  if (connectionCount <? 1000)%Z then 32
  else if (connectionCount <? 10000)%Z then 64
  else if (connectionCount <? 100000)%Z then 128
  else 256.
