(* ===== verification/ConnectionsTheorems.v ===== *)
(** * The connection table is a map from types and addresses to connections

    [Repr m cm] says that the shards of [cm] hold exactly the bindings of the abstract table [m];
    every operation is shown to act on [m] as its specification says. *)

From S2P Require Import Prelude GoLib LevelDB Connections.
From Stdlib Require Import Strings.Byte.

Abbreviation table := (gmap (nat * bytes) cid).

Lemma shard_index_lt a : calculateShardIndex a < numConnectionShards.
Proof.
  unfold calculateShardIndex, numConnectionShards. pose proof (b2z_range (a !!! 19)) as R.
  change (Z.of_nat 32 - 1)%Z with (Z.ones 5). rewrite Z.land_ones by lia. pose proof (Z.mod_pos_bound (b2z (a !!! 19)) (2 ^ 5)). lia.
Qed.

Lemma type_index s : ∃ t, MapConnectionTypeToIndex s = Z.of_nat t ∧ t ≤ 11.
Proof.
  unfold MapConnectionTypeToIndex. destruct (list_find _ _) as [[i x]|] eqn:E; [|by exists 0; split; [|lia]].
  apply list_find_Some in E as (Hi & _). apply lookup_lt_Some in Hi. exists (S i). simpl in Hi. split; [done|lia].
Qed.

Definition type_of (s : string) : nat := Z.to_nat (MapConnectionTypeToIndex s).

Lemma type_of_spec s : MapConnectionTypeToIndex s = Z.of_nat (type_of s) ∧ type_of s ≤ 11.
Proof. unfold type_of. destruct (type_index s) as (t & -> & ?). by rewrite Nat2Z.id. Qed.

Lemma fold_concat {A B C} (f : A → B → A) (g : C → list B) (l : list C) a :
  foldl (λ a c, foldl f a (g c)) a l = foldl f a (concat (g <$> l)).
Proof. revert a. induction l as [|c l IH]; intros a; [done|]. simpl. by rewrite IH, foldl_app. Qed.

Lemma mapM_all {A B} (f : A → option B) (g : A → B) l : (∀ x, x ∈ l → f x = Some (g x)) → mapM f l = Some (g <$> l).
Proof.
  intros Hf. induction l as [|x l IH]; [done|]. simpl. rewrite (Hf x) by set_solver. simpl. rewrite IH by set_solver. done.
Qed.

Lemma elem_of_concat_fmap {A B} (f : A → list B) l y : y ∈ concat (f <$> l) ↔ ∃ x, x ∈ l ∧ y ∈ f x.
Proof.
  induction l as [|x l IH]; simpl; [set_solver|]. rewrite elem_of_app, IH. setoid_rewrite elem_of_cons. naive_solver.
Qed.

Lemma fmap_concat_fmap {A B C} (h : B → C) (f : A → list B) l : h <$> concat (f <$> l) = concat ((λ x, h <$> f x) <$> l).
Proof. induction l as [|x l IH]; [done|]. rewrite !fmap_cons. cbn [concat]. by rewrite fmap_app, IH. Qed.

(** A concatenation of lists whose elements tell which list they come from. *)
Lemma NoDup_concat_tag {A B} (f : A → list B) (tag : B → nat) l : ∀ n,
  (∀ i x, l !! i = Some x → NoDup (f x) ∧ ∀ y, y ∈ f x → tag y = n + i) → NoDup (concat (f <$> l)).
Proof.
  induction l as [|x l IH]; intros n Hl; [constructor|]. simpl. apply NoDup_app. split_and!.
  - by destruct (Hl 0 x).
  - intros y Hy (z & (j & Hj)%list_elem_of_lookup & Hz)%elem_of_concat_fmap.
    destruct (Hl 0 x) as (_ & T0); [done|]. destruct (Hl (S j) z) as (_ & T1); [done|].
    specialize (T0 y Hy). specialize (T1 y Hz). lia.
  - apply (IH (S n)). intros i y Hy. destruct (Hl (S i) y) as (? & T); [done|]. split; [done|]. intros z Hz. rewrite (T z Hz). lia.
Qed.

Section Table.
Context `{EthAddressLaws} (iter : connectionShard → list (string * connectionRecord)).
Context (iter_perm : ∀ s, iter s ≡ₚ map_to_list s).

Record Repr (m : table) (cm : ConnectionsManager) : Prop := {
  repr_types : length (typeToShards cm) = MaxConnectionTypes;
  repr_shards t row : typeToShards cm !! t = Some row → length row = numConnectionShards;
  repr_keys t a c : m !! (t, a) = Some c → t ≤ 11 ∧ length a = 20;
  repr_content t i k r : t < MaxConnectionTypes → i < numConnectionShards →
    shard_at t i cm !! k = Some r ↔
    ∃ a c, m !! (t, a) = Some c ∧ calculateShardIndex a = i ∧ k = AddressHex a ∧ r = {| address := a; conn := Some c |};
}.

Lemma repr_row m cm t : Repr m cm → t < MaxConnectionTypes → ∃ row, typeToShards cm !! t = Some row ∧ length row = numConnectionShards.
Proof.
  intros R Ht. destruct (lookup_lt_is_Some_2 (typeToShards cm) t) as [row Hrow]; [by rewrite (repr_types _ _ R)|].
  exists row. split; [done|]. by eapply repr_shards.
Qed.

Lemma repr_new : Repr ∅ NewConnectionsManager.
Proof.
  split.
  - done.
  - intros t row Ht. unfold NewConnectionsManager, typeToShards in Ht. apply lookup_replicate in Ht as [-> _]. apply length_replicate.
  - intros t a c. by rewrite lookup_empty.
  - intros t i k r Ht Hi. unfold shard_at, NewConnectionsManager, typeToShards.
    rewrite lookup_replicate_2 by done. cbn [mbind option_bind]. rewrite lookup_replicate_2 by done. cbn [default from_option id]. rewrite lookup_empty.
    split; [done|]. intros (a & c & E & _). by rewrite lookup_empty in E.
Qed.

Lemma repr_parent m cm p : Repr m cm → Repr m (set_parent p cm).
Proof. by intros [? ? ? ?]; split. Qed.

Lemma in_range_repr m cm t : Repr m cm → t < MaxConnectionTypes → in_range (Z.of_nat t) cm = true.
Proof. intros R Ht. unfold in_range. rewrite (repr_types _ _ R). apply andb_true_intro. split; [apply Z.leb_le|apply Z.ltb_lt]; lia. Qed.

Lemma getShard_repr m cm t a : Repr m cm → t < MaxConnectionTypes →
  getShard (Z.of_nat t) a cm = Some (t, calculateShardIndex a).
Proof. intros R Ht. unfold getShard. erewrite in_range_repr by done. by rewrite Nat2Z.id. Qed.

(** The record of an address. *)
Lemma repr_record m cm t a : Repr m cm → t < MaxConnectionTypes → length a = 20 →
  shard_at t (calculateShardIndex a) cm !! AddressHex a = (λ c, {| address := a; conn := Some c |}) <$> m !! (t, a).
Proof.
  intros R Ht La. pose proof (shard_index_lt a) as Hi. destruct (m !! (t, a)) as [c|] eqn:E; simpl.
  - apply (repr_content _ _ R); [done..|]. by exists a, c.
  - destruct (shard_at _ _ _ !! _) as [r|] eqn:Er; [|done]. apply (repr_content _ _ R) in Er as (a' & c & Em & _ & Ek & _); [|done..].
    destruct (repr_keys _ _ R _ _ _ Em) as [_ La']. apply AddressHex_inj in Ek; [|done..]. congruence.
Qed.

Lemma shard_at_set m cm t i f t' i' : Repr m cm → t < MaxConnectionTypes → i < numConnectionShards →
  shard_at t' i' (set_shard t i f cm) = if decide (t = t' ∧ i = i') then f (shard_at t i cm) else shard_at t' i' cm.
Proof.
  intros R Ht Hi. destruct (repr_row _ _ t R Ht) as (row & Hrow & Lrow). unfold shard_at, set_shard; simpl.
  destruct (lookup_lt_is_Some_2 row i) as [s Hs]; [lia|].
  destruct (decide (t = t')) as [<-|Nt]; [|rewrite list_lookup_alter_ne by done; case_decide; [by destruct_and!|done]].
  rewrite list_lookup_alter_eq, Hrow. simpl. destruct (decide (i = i')) as [<-|Ni].
  - rewrite list_lookup_alter_eq, Hs, decide_True by done. done.
  - rewrite list_lookup_alter_ne by done. rewrite decide_False by tauto. done.
Qed.

Lemma set_shard_shape m cm t i f : Repr m cm → length (typeToShards (set_shard t i f cm)) = MaxConnectionTypes ∧
  ∀ t' row, typeToShards (set_shard t i f cm) !! t' = Some row → length row = numConnectionShards.
Proof.
  intros R. simpl. rewrite length_alter. split; [by apply (repr_types _ _ R)|]. intros t' row E.
  destruct (decide (t = t')) as [<-|Nt]; [|rewrite list_lookup_alter_ne in E by done; by eapply (repr_shards _ _ R)].
  rewrite list_lookup_alter_eq in E. destruct (typeToShards cm !! t) as [row'|] eqn:Er; simplify_eq/=.
  rewrite length_alter. by eapply (repr_shards _ _ R).
Qed.

Lemma repr_store m cm t a c : Repr m cm → t ≤ 11 → length a = 20 →
  Repr (<[(t, a) := c]> m) (set_shard t (calculateShardIndex a) (insert (AddressHex a) {| address := a; conn := Some c |}) cm).
Proof.
  intros R Ht La. pose proof (shard_index_lt a) as Hi. assert (t < MaxConnectionTypes) as Ht' by (unfold MaxConnectionTypes; lia).
  destruct (set_shard_shape m cm t (calculateShardIndex a) (insert (AddressHex a) {| address := a; conn := Some c |}) R) as (S1 & S2).
  split; [done|done| |].
  - intros t' a' c'. rewrite lookup_insert_Some. intros [[[= <- <-] _]|[_ E]]; [done|]. by eapply (repr_keys _ _ R).
  - intros t' i' k r Ht1 Hi1. rewrite (shard_at_set _ _ _ _ _ _ _ R Ht' Hi). pose proof (repr_content _ _ R t' i' k r Ht1 Hi1) as C.
    case_decide as D.
    + destruct D as [<- <-]. rewrite lookup_insert_Some. split.
      * intros [[<- <-]|[Nk E%C]].
        -- exists a, c. by rewrite lookup_insert_eq.
        -- destruct E as (a' & c' & Em & Ei & -> & ->). exists a', c'. rewrite lookup_insert_ne by congruence. done.
      * intros (a' & c' & Em & Ei & -> & ->). apply lookup_insert_Some in Em as [[[= <-] <-]|[Nt Em]]; [by left|].
        right. split; [|apply C; eauto 8]. intros Ek. destruct (repr_keys _ _ R _ _ _ Em) as [_ La'].
        apply AddressHex_inj in Ek; [|done..]. congruence.
    + rewrite C. split; intros (a' & c' & Em & Ei & -> & ->); exists a', c'.
      * rewrite lookup_insert_ne by naive_solver. done.
      * rewrite lookup_insert_ne in Em by naive_solver. done.
Qed.

Lemma repr_delete m cm t a : Repr m cm → t ≤ 11 → length a = 20 →
  Repr (delete (t, a) m) (set_shard t (calculateShardIndex a) (delete (AddressHex a)) cm).
Proof.
  intros R Ht La. pose proof (shard_index_lt a) as Hi. assert (t < MaxConnectionTypes) as Ht' by (unfold MaxConnectionTypes; lia).
  destruct (set_shard_shape m cm t (calculateShardIndex a) (delete (AddressHex a)) R) as (S1 & S2).
  split; [done|done| |].
  - intros t' a' c'. rewrite lookup_delete_Some. intros [_ E]. by eapply (repr_keys _ _ R).
  - intros t' i' k r Ht1 Hi1. rewrite (shard_at_set _ _ _ _ _ _ _ R Ht' Hi). pose proof (repr_content _ _ R t' i' k r Ht1 Hi1) as C.
    case_decide as D.
    + destruct D as [<- <-]. rewrite lookup_delete_Some, C. split.
      * intros (Nk & a' & c' & Em & Ei & -> & ->). exists a', c'. rewrite lookup_delete_ne by congruence. done.
      * intros (a' & c' & (Nt & Em)%lookup_delete_Some & Ei & -> & ->). split; [|eauto 8].
        intros Ek. destruct (repr_keys _ _ R _ _ _ Em) as [_ La']. apply AddressHex_inj in Ek; [|done..]. congruence.
    + rewrite C. split; intros (a' & c' & Em & Ei & -> & ->); exists a', c'.
      * rewrite lookup_delete_ne by naive_solver. done.
      * apply lookup_delete_Some in Em as [_ Em]. done.
Qed.

(** ** Queries *)

Lemma lookup_repr m cm t a : Repr m cm → t < MaxConnectionTypes → length a = 20 →
  ConnectionByTypeAndAddress (Z.of_nat t) a cm = m !! (t, a).
Proof.
  intros R Ht La. unfold ConnectionByTypeAndAddress. erewrite getShard_repr by done. simpl. unfold addressKey.
  erewrite repr_record by done. by destruct (m !! (t, a)).
Qed.

Definition records (row : list connectionShard) : list connectionRecord := concat ((λ s, (iter s).*2) <$> row).

Lemma records_spec m cm t row r : Repr m cm → t < MaxConnectionTypes → typeToShards cm !! t = Some row →
  r ∈ records row ↔ ∃ a c, m !! (t, a) = Some c ∧ r = {| address := a; conn := Some c |}.
Proof.
  intros R Ht Hrow. unfold records. rewrite elem_of_concat_fmap. split.
  - intros (s & Hs & Hr). apply list_elem_of_lookup in Hs as (i & Hi). apply list_elem_of_fmap in Hr as ([k r'] & -> & Hr).
    rewrite iter_perm in Hr. apply elem_of_map_to_list in Hr.
    assert (i < numConnectionShards) by (erewrite <- (repr_shards _ _ R) by done; by eapply lookup_lt_Some).
    assert (shard_at t i cm !! k = Some r') as E by (unfold shard_at; by rewrite Hrow; simpl; rewrite Hi).
    apply (repr_content _ _ R) in E as (a & c & Em & _ & _ & ->); [|done..]. eauto.
  - intros (a & c & Em & ->). pose proof (shard_index_lt a) as Hi.
    destruct (lookup_lt_is_Some_2 row (calculateShardIndex a)) as [s Hs]; [by erewrite (repr_shards _ _ R)|].
    exists s. split; [by eapply list_elem_of_lookup_2|]. apply list_elem_of_fmap. exists (AddressHex a, {| address := a; conn := Some c |}). split; [done|].
    rewrite iter_perm. apply elem_of_map_to_list.
    assert (shard_at t (calculateShardIndex a) cm = s) as <- by (unfold shard_at; by rewrite Hrow; simpl; rewrite Hs).
    apply (repr_content _ _ R); [done..|]. eauto 8.
Qed.

Lemma records_nodup m cm t row : Repr m cm → t < MaxConnectionTypes → typeToShards cm !! t = Some row →
  NoDup (address <$> records row).
Proof.
  intros R Ht Hrow. unfold records.
  rewrite fmap_concat_fmap. apply (NoDup_concat_tag _ calculateShardIndex _ 0). intros i s Hs.
  assert (i < numConnectionShards) as Hi by (erewrite <- (repr_shards _ _ R) by done; by eapply lookup_lt_Some).
  assert (shard_at t i cm = s) as Es by (unfold shard_at; by rewrite Hrow; simpl; rewrite Hs).
  assert (∀ kr, kr ∈ iter s → calculateShardIndex (address kr.2) = i ∧ kr.1 = AddressHex (address kr.2)) as K.
  { intros [k r] Hr. rewrite iter_perm in Hr. apply elem_of_map_to_list in Hr. rewrite <- Es in Hr.
    apply (repr_content _ _ R) in Hr as (a & c & _ & Ei & -> & ->); done. }
  split.
  - rewrite <- list_fmap_compose. apply (NoDup_fmap_1 AddressHex). rewrite <- list_fmap_compose.
    rewrite (list_fmap_ext _ fst); [rewrite iter_perm; apply NoDup_fst_map_to_list|].
    intros j kr Hkr. symmetry. apply K. by eapply list_elem_of_lookup_2.
  - intros a (r & -> & (kr & -> & Hkr)%list_elem_of_fmap)%list_elem_of_fmap. by apply K.
Qed.

Lemma add_records_lookup rs full a c : NoDup (address <$> rs) → (∀ r, r ∈ rs → full !! address r = None) →
  foldl add_record full rs !! a = Some c ↔ full !! a = Some c ∨ {| address := a; conn := Some c |} ∈ rs.
Proof.
  revert full. induction rs as [|r rs IH]; intros full Nd Hf; simpl.
  - split; [by left|]. intros [|E]; [done|]. by apply not_elem_of_nil in E.
  - apply NoDup_cons in Nd as [Nr Nd]. rewrite elem_of_cons. destruct r as [ar [cr|]]; unfold add_record at 2; simpl in *.
    + rewrite IH; [|done|].
      * rewrite lookup_insert_Some. specialize (Hf {| address := ar; conn := Some cr |} ltac:(left)). simpl in Hf. split.
        -- intros [[[-> ->]|[_ E]]|E]; auto.
        -- intros [E|[[= -> ->]|E]]; auto. left. right. split; [|done]. intros ->. congruence.
      * intros r Hr. rewrite lookup_insert_ne; [apply Hf; by right|]. intros E. apply Nr. rewrite E. by apply list_elem_of_fmap_2.
    + rewrite IH; [|done|intros; apply Hf; by right]. split; [tauto|]. intros [E|[E|E]]; [tauto|congruence|tauto].
Qed.

Lemma by_type_fold m cm t row : Repr m cm → t < MaxConnectionTypes → typeToShards cm !! t = Some row →
  ConnectionsByType iter (Z.of_nat t) cm = foldl add_record ∅ (records row).
Proof.
  intros R Ht Hrow. unfold ConnectionsByType. erewrite in_range_repr by done. rewrite Nat2Z.id, Hrow. apply fold_concat.
Qed.

Lemma by_type_repr m cm t a : Repr m cm → t < MaxConnectionTypes →
  ConnectionsByType iter (Z.of_nat t) cm !! a = m !! (t, a).
Proof.
  intros R Ht. destruct (repr_row _ _ t R Ht) as (row & Hrow & _). erewrite by_type_fold by done.
  apply option_eq. intros c. rewrite add_records_lookup; [|by eapply records_nodup|done]. rewrite lookup_empty.
  erewrite records_spec by done. naive_solver.
Qed.

Lemma add_records_size rs full : NoDup (address <$> rs) → (∀ r, r ∈ rs → full !! address r = None ∧ is_Some (conn r)) →
  size (foldl add_record full rs) = size full + length rs.
Proof.
  revert full. induction rs as [|r rs IH]; intros full Nd Hf; simpl; [lia|].
  apply NoDup_cons in Nd as [Nr Nd]. destruct (Hf r) as [F0 [c Hc]]; [by left|]. unfold add_record at 2. rewrite Hc.
  rewrite IH, map_size_insert_None by first [done|intros r' Hr'; split; [|by apply Hf; right];
    rewrite lookup_insert_ne; [by apply Hf; right|]; intros E; apply Nr; rewrite E; by apply list_elem_of_fmap_2]. lia.
Qed.

Lemma count_repr m cm t : Repr m cm → t < MaxConnectionTypes →
  countConnectionsByType iter (Z.of_nat t) cm = Z.of_nat (size (ConnectionsByType iter (Z.of_nat t) cm)).
Proof.
  intros R Ht. destruct (repr_row _ _ t R Ht) as (row & Hrow & _). erewrite by_type_fold by done.
  rewrite add_records_size; [|by eapply records_nodup|].
  - unfold countConnectionsByType. erewrite in_range_repr by done. rewrite Nat2Z.id, Hrow. simpl. rewrite map_size_empty. unfold records. clear.
    assert (∀ z, foldl (λ total shard, (total + Z.of_nat (length (iter shard)))%Z) z row
                 = (z + Z.of_nat (length (concat ((λ s, (iter s).*2) <$> row))))%Z) as G; [|by rewrite G].
    induction row as [|s row IH]; intros z; [simpl; lia|].
    rewrite fmap_cons. cbn [foldl concat]. rewrite IH, length_app, length_fmap. lia.
  - intros r. erewrite records_spec by done. intros (a & c & _ & ->). split; [apply lookup_empty|]. by eexists.
Qed.

(** ** Operations *)

Definition spec_add (env : conn_env) (c : cid) (a : bytes) (replace : bool) (cType : nat) (m : table) : table * list cid :=
  match m !! (cType, a) with
  | Some o => if replace then (<[(cType, a) := c]> m, if bool_decide (o ≠ c) && c_IsConnect (env o) then [o] else []) else (m, [])
  | None => (<[(cType, a) := c]> m, [])
  end.

Definition effective_type (env : conn_env) (c : cid) (cTypeOverride : string) : nat :=
  type_of (if decide (cTypeOverride = EmptyString) then c_Type (env c) else cTypeOverride).

Lemma add_repr env c a replace ovr m cm : Repr m cm → length a = 20 →
  let '(cm', out) := AddConnectionWithAddress env (Some c) a replace ovr cm in
  let '(m', out') := spec_add env c a replace (effective_type env c ovr) m in
  out = out' ∧ Repr m' cm' ∧ parentConnection cm' = parentConnection cm.
Proof.
  intros R La. unfold AddConnectionWithAddress, effective_type. set (s := if decide _ then _ else _).
  destruct (type_of_spec s) as [-> Ht]. set (t := type_of s) in *. assert (t < MaxConnectionTypes) by (unfold MaxConnectionTypes; lia).
  erewrite getShard_repr by done. unfold addressKey, spec_add. erewrite repr_record by done.
  destruct (m !! (t, a)) as [o|] eqn:E; simpl.
  - destruct replace; simpl; [|done]. split_and!; [|by apply repr_store|done].
    destruct (decide (o ≠ c)) as [N|N]; [rewrite bool_decide_eq_true_2 by done|rewrite bool_decide_eq_false_2 by done]; simpl; done.
  - split_and!; [done|by apply repr_store|done].
Qed.

Definition spec_remove (env : conn_env) (c : cid) (m : table) : table :=
  let k := (type_of (c_Type (env c)), c_Address (env c)) in if decide (m !! k = Some c) then delete k m else m.

Lemma matches_repr env c m cm : Repr m cm → length (c_Address (env c)) = 20 →
  load_matches env c cm = bool_decide (m !! (type_of (c_Type (env c)), c_Address (env c)) = Some c).
Proof.
  intros R La. unfold load_matches. destruct (type_of_spec (c_Type (env c))) as [-> Ht].
  erewrite getShard_repr by (done || (unfold MaxConnectionTypes; lia)). unfold addressKey.
  erewrite repr_record by (done || (unfold MaxConnectionTypes; lia)). by destruct (m !! _).
Qed.

Lemma delete_loaded_repr env c m cm : Repr m cm → length (c_Address (env c)) = 20 →
  Repr (delete (type_of (c_Type (env c)), c_Address (env c)) m) (delete_loaded env c cm) ∧
  parentConnection (delete_loaded env c cm) = parentConnection cm.
Proof.
  intros R La. unfold delete_loaded. destruct (type_of_spec (c_Type (env c))) as [-> Ht].
  erewrite getShard_repr by (done || (unfold MaxConnectionTypes; lia)). split; [by apply repr_delete|done].
Qed.

Definition spec_clear (c : cid) (p : option cid) : option cid := if decide (p = Some c) then None else p.

Lemma remove_repr env c m cm : Repr m cm → length (c_Address (env c)) = 20 →
  Repr (spec_remove env c m) (RemoveConnection env (Some c) cm) ∧
  parentConnection (RemoveConnection env (Some c) cm) = spec_clear c (parentConnection cm).
Proof.
  intros R La. unfold RemoveConnection, spec_remove. pose proof (matches_repr env c m cm R La) as ->.
  destruct (delete_loaded_repr env c m cm R La) as [Rd Pd].
  destruct (type_of_spec (c_Type (env c))) as [-> Ht]. erewrite getShard_repr by (done || (unfold MaxConnectionTypes; lia)).
  assert (∀ cm', parentConnection (clear_parent c cm') = spec_clear c (parentConnection cm')) as P.
  { intros cm'. unfold clear_parent, spec_clear. by case_decide. }
  assert (∀ m' cm', Repr m' cm' → Repr m' (clear_parent c cm')) as P'.
  { intros m' cm' R'. unfold clear_parent. case_decide; [by apply repr_parent|done]. }
  case_bool_decide as D; [rewrite decide_True by done|rewrite decide_False by done]; rewrite P, ?Pd; split; auto.
Qed.

Definition alive (env : conn_env) (c : cid) : Prop := c_IsConnect (env c) = true.
#[export] Instance alive_dec env c : Decision (alive env c).
Proof. unfold alive. apply _. Defined.

Definition dead_record (env : conn_env) (r : connectionRecord) : bool :=
  match conn r with Some c => negb (c_IsConnect (env c)) | None => false end.

Lemma check_fold env l : ∀ s n k, (∀ kr, kr ∈ l → is_Some (conn kr.2)) →
  ∃ s' n' k', foldl (check_record env) (Some (s, n, k)) l = Some (s', n', k') ∧
    ∀ key r, s' !! key = Some r ↔ s !! key = Some r ∧ ∀ r', (key, r') ∈ l → dead_record env r' = false.
Proof.
  induction l as [|[k0 r0] l IH]; intros s n k Hl; simpl.
  - eexists _, _, _. split; [done|]. intros key r. split; [|naive_solver]. intros E. split; [done|]. intros r' Hr. by apply not_elem_of_nil in Hr.
  - destruct (Hl (k0, r0)) as [c Hc]; [by left|]. simpl in Hc. rewrite Hc. simpl. setoid_rewrite elem_of_cons.
    destruct (c_IsConnect (env c)) eqn:Ec.
    + destruct (IH s (n + 1)%Z k) as (s' & n' & k' & -> & Hs'); [intros; apply Hl; by right|]. eexists _, _, _. split; [done|].
      intros key r. rewrite Hs'. split; [|naive_solver]. intros (E & A). split; [done|]. intros r' [[= -> ->]|Hr]; [|by apply A].
      unfold dead_record. by rewrite Hc, Ec.
    + destruct (IH (delete k0 s) (n + 1)%Z (k + 1)%Z) as (s' & n' & k' & -> & Hs'); [intros; apply Hl; by right|].
      eexists _, _, _. split; [done|]. intros key r. rewrite Hs', lookup_delete_Some. split.
      * intros ((Nk & E) & A). split; [done|]. intros r' [[= -> ->]|Hr]; [done|by apply A].
      * intros (E & A). split; [split; [|done]|naive_solver]. intros <-. specialize (A r0 ltac:(by left)).
        unfold dead_record in A. by rewrite Hc, Ec in A.
Qed.

Lemma check_shard_ok env s : (∀ k r, s !! k = Some r → is_Some (conn r)) →
  ∃ n k, check_shard iter env s = Some (filter (λ '(_, r), dead_record env r = false) s, n, k).
Proof.
  intros Hs. destruct (check_fold env (iter s) s 0%Z 0%Z) as (s' & n & k & E & L).
  { intros [key r]. rewrite iter_perm, elem_of_map_to_list. apply Hs. }
  exists n, k. unfold check_shard. rewrite E. do 3 f_equal. apply map_eq. intros key. apply option_eq. intros r.
  rewrite L, map_lookup_filter_Some. split; intros (Es & D); (split; [done|]).
  - apply D. by rewrite iter_perm, elem_of_map_to_list.
  - intros r'. rewrite iter_perm, elem_of_map_to_list. intros Er'. by simplify_eq.
Qed.

Lemma check_row_ok env row : (∀ s k r, s ∈ row → s !! k = Some r → is_Some (conn r)) →
  ∃ res, mapM (check_shard iter env) row = Some res ∧
    (λ r, r.1.1) <$> res = filter (λ '(_, r), dead_record env r = false) <$> row.
Proof.
  induction row as [|s row IH]; intros Hs; [by exists []|]. simpl.
  destruct (check_shard_ok env s) as (n & k & E); [intros ? ? ?; eapply Hs; [by left|done]|].
  destruct IH as (res & -> & R); [intros ? ? ? ??; eapply Hs; [by right|done]|].
  rewrite E. simpl. eexists. split; [done|]. simpl. by f_equal.
Qed.

Lemma check_rows_ok env rows : (∀ row s k r, row ∈ rows → s ∈ row → s !! k = Some r → is_Some (conn r)) →
  ∃ res, check_shards iter env rows = Some res ∧
    (λ row : list (connectionShard * Z * Z), (λ r, r.1.1) <$> row) <$> res =
    (λ row, filter (λ '(_, r), dead_record env r = false) <$> row) <$> rows.
Proof.
  unfold check_shards. induction rows as [|row rows IH]; intros Hs; [by exists []|]. simpl.
  destruct (check_row_ok env row) as (rr & Er & R1); [intros ? ? ? ??; eapply Hs; [by left|done..]|].
  destruct IH as (res & -> & R2); [intros ? ? ? ????; eapply Hs; [by right|done..]|].
  rewrite Er. simpl. eexists. split; [done|]. simpl. by f_equal.
Qed.

Lemma health_repr env m cm : Repr m cm →
  ∃ cm' n k, HealthCheck iter env cm = Some (cm', n, k) ∧ Repr (filter (λ '(_, c), alive env c) m) cm' ∧
    parentConnection cm' = parentConnection cm.
Proof.
  intros R. unfold HealthCheck.
  destruct (check_rows_ok env (typeToShards cm)) as (res & -> & E).
  { intros row s k r (t & Ht)%list_elem_of_lookup (i & Hi)%list_elem_of_lookup Hk.
    assert (t < MaxConnectionTypes) by (rewrite <- (repr_types _ _ R); by eapply lookup_lt_Some).
    assert (i < numConnectionShards) by (erewrite <- (repr_shards _ _ R) by done; by eapply lookup_lt_Some).
    assert (shard_at t i cm !! k = Some r) as C by (unfold shard_at; rewrite Ht; simpl; by rewrite Hi).
    apply (repr_content _ _ R) in C as (a & c & _ & _ & _ & ->); [by eexists|done..]. }
  eexists _, _, _. split; [done|]. split; [|done]. split; simpl; rewrite ?E.
  - rewrite length_fmap. apply (repr_types _ _ R).
  - intros t row Ht. rewrite list_lookup_fmap in Ht. destruct (typeToShards cm !! t) as [row'|] eqn:Er; simplify_eq/=.
    rewrite length_fmap. by eapply (repr_shards _ _ R).
  - intros t a c (Em & _)%map_lookup_filter_Some. by eapply (repr_keys _ _ R).
  - intros t i k r Ht Hi. unfold shard_at; simpl. rewrite list_lookup_fmap.
    destruct (repr_row _ _ t R Ht) as (row & Hrow & Lrow). rewrite Hrow. simpl. rewrite list_lookup_fmap.
    destruct (lookup_lt_is_Some_2 row i) as [s Hs]; [lia|]. rewrite Hs. simpl. rewrite map_lookup_filter_Some.
    pose proof (repr_content _ _ R t i k r Ht Hi) as C. unfold shard_at in C. rewrite Hrow in C. simpl in C. rewrite Hs in C. simpl in C.
    rewrite C. setoid_rewrite map_lookup_filter_Some. unfold alive. split.
    + intros ((a & c & Em & Ei & -> & ->) & D). exists a, c. unfold dead_record in D; simpl in D. destruct (c_IsConnect (env c)); done.
    + intros (a & c & (Em & D) & Ei & -> & ->). split; [eauto 8|]. unfold dead_record; simpl. by rewrite D.
Qed.

(** ** Runs *)

Inductive cm_op :=
  | OAdd (c : option cid) (a : bytes) (replace : bool) (cTypeOverride : string)
  | OAddSelf (c : option cid) (replace : bool) (cTypeOverride : string)
  | ORemove (c : option cid)
  | OParent (c : option cid)
  | OHealth.

Definition cm_step (env : conn_env) (o : cm_op) (cm : ConnectionsManager) : option (ConnectionsManager * list cid) :=
  match o with
  | OAdd c a replace ovr => Some (AddConnectionWithAddress env c a replace ovr cm)
  | OAddSelf c replace ovr => Some (AddConnection env c replace ovr cm)
  | ORemove c => Some (RemoveConnection env c cm, [])
  | OParent c => Some (AddParentConnection c cm, [])
  | OHealth => match HealthCheck iter env cm with Some (cm', _, _) => Some (cm', []) | None => None end
  end.

Fixpoint cm_run (ops : list (conn_env * cm_op)) (cm : ConnectionsManager) : option (ConnectionsManager * list cid) :=
  match ops with
  | [] => Some (cm, [])
  | (env, o) :: ops =>
      match cm_step env o cm with
      | Some (cm', out) => match cm_run ops cm' with Some (cm'', out') => Some (cm'', out ++ out') | None => None end
      | None => None
      end
  end.

(** The specification: a table, the parent and the connections to disconnect. *)
Definition spec_step (env : conn_env) (o : cm_op) (s : table * option cid) : (table * option cid) * list cid :=
  let '(m, p) := s in
  match o with
  | OAdd (Some c) a replace ovr => let '(m', out) := spec_add env c a replace (effective_type env c ovr) m in ((m', p), out)
  | OAddSelf (Some c) replace ovr =>
      let '(m', out) := spec_add env c (c_Address (env c)) replace (effective_type env c ovr) m in ((m', p), out)
  | ORemove (Some c) => ((spec_remove env c m, spec_clear c p), [])
  | OParent (Some c) => ((m, Some c), [])
  | OHealth => ((filter (λ '(_, c), alive env c) m, p), [])
  | _ => ((m, p), [])
  end.

Fixpoint spec_run (ops : list (conn_env * cm_op)) (s : table * option cid) : (table * option cid) * list cid :=
  match ops with
  | [] => (s, [])
  | (env, o) :: ops => let '(s', out) := spec_step env o s in let '(s'', out') := spec_run ops s' in (s'', out ++ out')
  end.

(** Go addresses have twenty bytes. *)
Definition op_addresses (eo : conn_env * cm_op) : Prop :=
  match eo.2 with
  | OAdd (Some _) a _ _ => length a = 20
  | OAddSelf (Some c) _ _ | ORemove (Some c) => length (c_Address (eo.1 c)) = 20
  | _ => True
  end.

Lemma step_refines env o m p cm : Repr m cm → parentConnection cm = p → op_addresses (env, o) →
  ∃ cm', cm_step env o cm = Some (cm', (spec_step env o (m, p)).2) ∧
    Repr (spec_step env o (m, p)).1.1 cm' ∧ parentConnection cm' = (spec_step env o (m, p)).1.2.
Proof.
  intros R Hp Ha. destruct o as [[c|] a re ovr|[c|] re ovr|[c|]|[c|]|]; unfold op_addresses in Ha; cbn -[AddConnectionWithAddress RemoveConnection spec_add] in *; try by exists cm.
  - pose proof (add_repr env c a re ovr m cm R Ha) as A. destruct (AddConnectionWithAddress _ _ _ _ _ _) as [cm' out].
    destruct (spec_add _ _ _ _ _ _) as [m' out']. destruct A as (-> & R' & P). exists cm'. by rewrite P, Hp.
  - pose proof (add_repr env c _ re ovr m cm R Ha) as A. destruct (AddConnectionWithAddress _ _ _ _ _ _) as [cm' out].
    destruct (spec_add _ _ _ _ _ _) as [m' out']. destruct A as (-> & R' & P). exists cm'. by rewrite P, Hp.
  - destruct (remove_repr env c m cm R Ha) as [R' P]. eexists. split_and!; [done|done|]. by rewrite P, Hp.
  - eexists. split_and!; [done|by apply repr_parent|done].
  - destruct (health_repr env m cm R) as (cm' & n & k & -> & R' & P). exists cm'. by rewrite P, Hp.
Qed.

Lemma run_refines ops : ∀ m p cm, Repr m cm → parentConnection cm = p → Forall op_addresses ops →
  ∃ cm', cm_run ops cm = Some (cm', (spec_run ops (m, p)).2) ∧
    Repr (spec_run ops (m, p)).1.1 cm' ∧ parentConnection cm' = (spec_run ops (m, p)).1.2.
Proof.
  induction ops as [|[env o] ops IH]; intros m p cm R Hp Ha; cbn [cm_run spec_run]; [by exists cm|].
  apply Forall_cons in Ha as [Ho Ha]. destruct (step_refines env o m p cm R Hp Ho) as (cm1 & -> & R1 & P1).
  destruct (spec_step env o (m, p)) as [[m1 p1] out1]; simpl in *.
  destruct (IH m1 p1 cm1 R1 P1 Ha) as (cm2 & -> & R2 & P2). destruct (spec_run ops (m1, p1)) as [[m2 p2] out2]; simpl in *.
  by exists cm2.
Qed.

(** C37: Any sequence of additions, removals, parent changes and health checks on a new manager ends
    without a panic and is observed as a table from types and addresses to connections: single and
    bulk lookups agree with the table the specification computes, the counts are the numbers of
    entries, and the connections disconnected in the background are the replaced live ones. *)
Theorem connections_are_a_table ops : Forall op_addresses ops →
  let '((m, p), out) := spec_run ops (∅, None) in
  ∃ cm, cm_run ops NewConnectionsManager = Some (cm, out) ∧ parentConnection cm = p ∧
    ∀ t, t < MaxConnectionTypes →
      (∀ a, length a = 20 → ConnectionByTypeAndAddress (Z.of_nat t) a cm = m !! (t, a)) ∧
      (∀ a, ConnectionsByType iter (Z.of_nat t) cm !! a = m !! (t, a)) ∧
      countConnectionsByType iter (Z.of_nat t) cm = Z.of_nat (size (ConnectionsByType iter (Z.of_nat t) cm)).
Proof.
  intros Ha. destruct (run_refines ops ∅ None NewConnectionsManager repr_new eq_refl Ha) as (cm & E & R & P).
  destruct (spec_run ops (∅, None)) as [[m p] out]; simpl in *. exists cm. split_and!; [done..|]. intros t Ht. split_and!.
  - intros a La. by apply lookup_repr.
  - intros a. by apply by_type_repr.
  - by eapply count_repr.
Qed.

(** ** Statistics *)

Lemma stats_lookup s t n name : stats_type s t n !! name =
  if bool_decide (0 < n ∧ MapIndexToConnectionType t = name)%Z then Some (i32 n) else s !! name.
Proof.
  unfold stats_type. destruct (0 <? n)%Z eqn:E; case_bool_decide as D; try (by rewrite lookup_insert_ne by (intros ?; apply D; split; [lia|done])).
  - destruct D as [_ <-]. by rewrite lookup_insert_eq.
  - destruct D as [? _]. lia.
  - done.
Qed.

Lemma stats_skip f l s name : (∀ t, t ∈ l → MapIndexToConnectionType (Z.of_nat t) = name → f t = 0%Z) →
  foldl (λ s t, stats_type s (Z.of_nat t) (f t)) s l !! name = s !! name.
Proof.
  revert s. induction l as [|t l IH]; intros s Hl; simpl; [done|]. rewrite IH by (intros; apply Hl; [by right|done]).
  rewrite stats_lookup, bool_decide_eq_false_2; [done|]. intros (Hn & E). rewrite (Hl t) in Hn by (done || left). lia.
Qed.

Lemma stats_one f l1 t l2 s name : MapIndexToConnectionType (Z.of_nat t) = name → (0 ≤ f t)%Z →
  (∀ t', t' ∈ l2 → MapIndexToConnectionType (Z.of_nat t') = name → f t' = 0%Z) →
  foldl (λ s t, stats_type s (Z.of_nat t) (f t)) s (l1 ++ t :: l2) !! name =
  if decide (f t = 0%Z) then foldl (λ s t, stats_type s (Z.of_nat t) (f t)) s l1 !! name else Some (i32 (f t)).
Proof.
  intros Hn Hp Hl. rewrite foldl_app. simpl. rewrite stats_skip by done. rewrite stats_lookup.
  case_bool_decide as D; case_decide; try done; [lia|]. exfalso. apply D. split; [lia|done].
Qed.

Lemma type_names t t' : 1 ≤ t ≤ 10 → t' < 20 → MapIndexToConnectionType (Z.of_nat t') = MapIndexToConnectionType (Z.of_nat t) → t' = t.
Proof.
  intros Ht Ht'.
  assert (Forall (λ t, Forall (λ t', MapIndexToConnectionType (Z.of_nat t') = MapIndexToConnectionType (Z.of_nat t) → t' = t) (seq 0 20))
    (seq 1 10)) as F by (apply (bool_decide_unpack _); by vm_compute).
  rewrite Forall_forall in F. specialize (F t). rewrite elem_of_seq, Forall_forall in F. specialize (F ltac:(lia) t').
  rewrite elem_of_seq in F. apply F. lia.
Qed.

(** The statistics report the number of connections of each named type under its name.  Index 11,
    read-only masters, has no name of its own and is reported as "none", where it hides the number
    of untyped connections. *)
Theorem connection_stats ops cm out : Forall op_addresses ops → cm_run ops NewConnectionsManager = Some (cm, out) →
  let n t := Z.of_nat (size (ConnectionsByType iter (Z.of_nat t) cm)) in
  (∀ t, 1 ≤ t ≤ 10 → Stats iter cm !! MapIndexToConnectionType (Z.of_nat t) = if decide (n t = 0%Z) then None else Some (i32 (n t))) ∧
  Stats iter cm !! NONE_TYPE =
    if decide (n 11 = 0%Z) then if decide (n 0 = 0%Z) then None else Some (i32 (n 0)) else Some (i32 (n 11)).
Proof.
  intros Ha E n. destruct (run_refines ops ∅ None NewConnectionsManager repr_new eq_refl Ha) as (cm' & E' & R & _).
  rewrite E in E'. simplify_eq. set (m := (spec_run ops (∅, None)).1.1) in *. clearbody m.
  assert (∀ t, t ∈ seq 0 20 → countConnectionsByType iter (Z.of_nat t) cm' = n t) as N.
  { intros t Ht%elem_of_seq. unfold n. eapply count_repr; [done|]. unfold MaxConnectionTypes. lia. }
  assert (Stats iter cm' = foldl (λ s t, stats_type s (Z.of_nat t) (n t)) ∅ (seq 0 20)) as ->.
  { unfold Stats. rewrite (repr_types _ _ R). unfold MaxConnectionTypes. revert N. generalize (seq 0 20). clear. intros l N. revert N.
    generalize (∅ : gmap string Z). induction l as [|t l IH]; intros s N; simpl; [done|]. rewrite N by left. apply IH. intros; apply N; by right. }
  assert (∀ t, 12 ≤ t < 20 → n t = 0%Z) as N12.
  { intros t Ht. unfold n. replace (ConnectionsByType iter (Z.of_nat t) cm') with (∅ : gmap bytes cid); [done|].
    apply map_eq. intros a. rewrite lookup_empty, (by_type_repr m) by (done || (unfold MaxConnectionTypes; lia)).
    destruct (m !! (t, a)) eqn:Em; [|done]. apply (repr_keys _ _ R) in Em. lia. }
  assert (∀ t, 0 ≤ n t)%Z as Np by (intros; unfold n; lia). clear N E. clearbody n. split.
  - intros t Ht. replace 20 with (t + S (19 - t)) by lia. rewrite seq_app, Nat.add_0_l. cbn [seq].
    rewrite stats_one; [|done..|]; [case_decide; [|done]; rewrite stats_skip; [apply lookup_empty|]|];
      intros t' Ht'%elem_of_seq E%type_names; lia.
  - change (seq 0 20) with (([] ++ 0 :: seq 1 10) ++ 11 :: seq 12 8). rewrite stats_one; [case_decide; [|done]|done..|].
    + rewrite stats_one; [by case_decide|done..|]. intros t Ht%elem_of_seq E. exfalso.
      assert (0 = t) as <-; [|lia]. apply type_names; [lia|lia|done].
    + intros t Ht%elem_of_seq _. apply N12. lia.
Qed.

(** ** Removal *)

Definition reachable (cm : ConnectionsManager) : Prop :=
  ∃ ops out, Forall op_addresses ops ∧ cm_run ops NewConnectionsManager = Some (cm, out).

Lemma reachable_repr cm : reachable cm → ∃ m, Repr m cm.
Proof.
  intros (ops & out & Ha & E). destruct (run_refines ops ∅ None NewConnectionsManager repr_new eq_refl Ha) as (cm' & E' & R & _).
  rewrite E in E'. simplify_eq. eauto.
Qed.

(** Adding with [replace] always leaves the new connection in the table. *)
Lemma add_replace env c a ovr m cm : Repr m cm → length a = 20 →
  Repr (<[(effective_type env c ovr, a) := c]> m) (AddConnectionWithAddress env (Some c) a true ovr cm).1.
Proof.
  intros R La. pose proof (add_repr env c a true ovr m cm R La) as A. destruct (AddConnectionWithAddress _ _ _ _ _ _) as [cm' out].
  unfold spec_add in A. destruct (m !! _); by destruct A as (_ & ? & _).
Qed.

(** A connection that was added under an override type other than its own survives its removal:
    [RemoveConnection] looks under the connection's own type only. *)
Theorem override_not_removed env c ovr cm : reachable cm → length (c_Address (env c)) = 20 → ovr ≠ EmptyString →
  MapConnectionTypeToIndex ovr ≠ MapConnectionTypeToIndex (c_Type (env c)) →
  ConnectionByTypeAndAddress (MapConnectionTypeToIndex ovr) (c_Address (env c))
    (RemoveConnection env (Some c) (AddConnection env (Some c) true ovr cm).1) = Some c.
Proof.
  intros (m & R)%reachable_repr La No Nt. pose proof (add_replace env c _ ovr m cm R La) as A.
  change (AddConnectionWithAddress env (Some c) (c_Address (env c)) true ovr cm) with (AddConnection env (Some c) true ovr cm) in A.
  unfold effective_type in A. rewrite decide_False in A by done. destruct (remove_repr env c _ _ A La) as [R' _].
  destruct (type_of_spec ovr) as [E1 L1]. destruct (type_of_spec (c_Type (env c))) as [E2 L2]. rewrite E1 in Nt |- *. rewrite E2 in Nt.
  erewrite lookup_repr by (done || (unfold MaxConnectionTypes; lia)). unfold spec_remove.
  case_decide; [rewrite lookup_delete_ne by congruence|]; by rewrite lookup_insert_eq.
Qed.

(** [RemoveConnection] compares and deletes in two steps.  When the same address reconnects in between,
    the deletion takes the new connection out of the table; either order without interleaving keeps it. *)
Theorem remove_race env c c2 cm : reachable cm → length (c_Address (env c)) = 20 →
  c2 ≠ c → c_Address (env c2) = c_Address (env c) → c_Type (env c2) = c_Type (env c) → load_matches env c cm = true →
  let look := ConnectionByTypeAndAddress (MapConnectionTypeToIndex (c_Type (env c))) (c_Address (env c)) in
  let add cm := (AddConnection env (Some c2) true "" cm).1 in
  look (clear_parent c (delete_loaded env c (add cm))) = None ∧
  look (add (RemoveConnection env (Some c) cm)) = Some c2 ∧ look (RemoveConnection env (Some c) (add cm)) = Some c2.
Proof.
  intros (m & R)%reachable_repr La Nc Ea Et _. set (t := type_of (c_Type (env c))). set (a := c_Address (env c)) in *.
  destruct (type_of_spec (c_Type (env c))) as [E1 L1]. fold t in E1, L1.
  assert (∀ m cm, Repr m cm → Repr (<[(t, a) := c2]> m) (AddConnection env (Some c2) true "" cm).1) as A.
  { intros m' cm' R'. pose proof (add_replace env c2 a "" m' cm' R' La) as A. unfold effective_type in A. rewrite decide_True in A by done.
    rewrite Et in A. unfold AddConnection. by rewrite Ea. }
  assert (∀ m cm, Repr m cm → ConnectionByTypeAndAddress (MapConnectionTypeToIndex (c_Type (env c))) a cm = m !! (t, a)) as Q.
  { intros m' cm' R'. rewrite E1. apply lookup_repr; [done| |done]. unfold MaxConnectionTypes. lia. }
  cbv zeta. split_and!.
  - destruct (delete_loaded_repr env c _ _ (A _ _ R) La) as [Rd _]. erewrite Q; [apply lookup_delete_eq|].
    unfold clear_parent. case_decide; [apply repr_parent|]; exact Rd.
  - destruct (remove_repr env c m cm R La) as [Rr _]. rewrite (Q _ _ (A _ _ Rr)). apply lookup_insert_eq.
  - destruct (remove_repr env c _ _ (A _ _ R) La) as [Rr _]. rewrite (Q _ _ Rr). unfold spec_remove. fold t a.
    rewrite lookup_insert_eq, decide_False by congruence. apply lookup_insert_eq.
Qed.

End Table.

(** ** Witnesses *)

Module ConnectionsExample.
Import ToyAddress.

Abbreviation range := (map_to_list (K:=string) (A:=connectionRecord) (M:=gmap string connectionRecord)).

Definition env1 (c : cid) : Conn := {| c_Address := zeros 19 ++ [x07]; c_Type := "client"; c_IsConnect := true |}.

Definition ops1 : list (conn_env * cm_op) :=
  [(env1, OAddSelf (Some 1%positive) false ""); (env1, OAddSelf (Some 2%positive) true "master_read_only"); (env1, OHealth)].

Lemma ops1_ok : Forall op_addresses ops1.
Proof. repeat constructor. Qed.

Lemma connections_are_a_table_witness :
  let '((m, p), out) := spec_run ops1 (∅, None) in
  ∃ cm, cm_run range ops1 NewConnectionsManager = Some (cm, out) ∧ parentConnection cm = p ∧
    ∀ t, t < MaxConnectionTypes →
      (∀ a, length a = 20 → ConnectionByTypeAndAddress (Z.of_nat t) a cm = m !! (t, a)) ∧
      (∀ a, ConnectionsByType range (Z.of_nat t) cm !! a = m !! (t, a)) ∧
      countConnectionsByType range (Z.of_nat t) cm = Z.of_nat (size (ConnectionsByType range (Z.of_nat t) cm)).
Proof. apply (connections_are_a_table range (λ s, Permutation_refl _) ops1 ops1_ok). Defined.

Definition cm1 : ConnectionsManager := (default (NewConnectionsManager, []) (cm_run range ops1 NewConnectionsManager)).1.

Lemma cm1_run : cm_run range ops1 NewConnectionsManager = Some (cm1, []).
Proof. by vm_compute. Qed.

Lemma connection_stats_witness :
  Stats range cm1 !! MapIndexToConnectionType (Z.of_nat 6) = Some 1%Z ∧ Stats range cm1 !! NONE_TYPE = Some 1%Z.
Proof.
  destruct (connection_stats range (λ s, Permutation_refl _) ops1 cm1 [] ops1_ok cm1_run) as [S1 S2].
  split; [rewrite (S1 6) by lia|rewrite S2]; by vm_compute.
Defined.

Lemma cm1_reachable : reachable range cm1.
Proof. exists ops1, []. split; [apply ops1_ok|apply cm1_run]. Qed.

Lemma override_not_removed_witness :
  ConnectionByTypeAndAddress 10 (c_Address (env1 3%positive))
    (RemoveConnection env1 (Some 3%positive) (AddConnection env1 (Some 3%positive) true "backup" cm1).1) = Some 3%positive.
Proof. apply (override_not_removed range (λ s, Permutation_refl _) env1 3%positive "backup" cm1 cm1_reachable); by vm_compute. Defined.

Lemma remove_race_witness :
  ConnectionByTypeAndAddress 6 (c_Address (env1 1%positive))
    (clear_parent 1%positive (delete_loaded env1 1%positive (AddConnection env1 (Some 4%positive) true "" cm1).1)) = None.
Proof. apply (remove_race range (λ s, Permutation_refl _) env1 1%positive 4%positive cm1 cm1_reachable); by vm_compute. Defined.

End ConnectionsExample.
