(* ===== verification/ChainPool.v ===== *)
(** * The pool of connections to the chain node ([pkg/connection_manager/chain_pool.go])

    A fixed number of slots, each holding a client, used in turn; a slot whose client is down is
    redialled when its turn comes.  Clients are objects with an identity; whether one is connected
    and whether a dial succeeds is decided by the world outside ([PoolWorld]). *)

From S2P Require Import Prelude GoLib.

Abbreviation client := positive.

Record ChainConnectionPool := {
  connections : list (option client);   (** the client of each slot *)
  size : Z;
  index : Z;                            (** the 64-bit round-robin counter *)
  connectionAddress : string;
  cancelled : bool;                     (** the context was cancelled *)
  fresh : client;                       (** the next client to be allocated *)
  disconnected : list client;           (** the clients [Disconnect] was called on *)
}.

Inductive pool_error := ErrEmptyAddress | ErrNoSlotConnected | ErrAllDown.

Definition PM : Type → Type := comp ChainConnectionPool pool_error.
#[export] Instance PM_ret : MRet PM := comp_ret.
#[export] Instance PM_bind : MBind PM := comp_bind.

Definition set_index (i : Z) (p : ChainConnectionPool) : ChainConnectionPool :=
  {| connections := connections p; size := size p; index := i; connectionAddress := connectionAddress p; cancelled := cancelled p;
     fresh := fresh p; disconnected := disconnected p |}.
Definition set_slot (i : nat) (c : client) (p : ChainConnectionPool) : ChainConnectionPool :=
  {| connections := <[i := Some c]> (connections p); size := size p; index := index p; connectionAddress := connectionAddress p; cancelled := cancelled p;
     fresh := fresh p; disconnected := disconnected p |}.
Definition set_fresh (c : client) (p : ChainConnectionPool) : ChainConnectionPool :=
  {| connections := connections p; size := size p; index := index p; connectionAddress := connectionAddress p; cancelled := cancelled p;
     fresh := c; disconnected := disconnected p |}.

(** The world during one call, by the number of the attempt: the status of a client when it is first
    read and when it is read again under the slot's lock, and the outcome of a dial. *)
Record PoolWorld := {
  connected : nat → client → bool;
  recheck : nat → client → bool;
  dial : nat → bool;
}.

(** [client != nil && client.IsConnected()] *)
Definition is_up (st : client → bool) (c : option client) : bool := match c with Some c => st c | None => false end.

(** [NewConnectionClient]: a new object. *)
Definition NewConnectionClient : PM client := λ p, (Ok (fresh p), set_fresh (Pos.succ (fresh p)) p).

(** The slot at an index; Go panics outside the slice. *)
Definition slot (idx : Z) : PM (nat * option client) := λ p,
  if (idx <? 0)%Z then (Panic, p) else
    match connections p !! Z.to_nat idx with Some c => (Ok (Z.to_nat idx, c), p) | None => (Panic, p) end.

Definition tryReconnect (w : PoolWorld) (attempt : nat) (i : nat) : PM bool :=
  p ← c_get;
  if is_up (recheck w attempt) (connections p !! i ≫= id) then mret true
  else
    c ← NewConnectionClient;
    _ ← c_modify (set_slot i c);
    mret (dial w attempt).

(** [atomic.AddUint64(&p.index, 1) - 1], as an [int]. *)
Definition next_index : PM Z := λ p, let i := u64 (index p + 1) in (Ok (i64 (u64 (i - 1))), set_index i p).

(** The attempts from number [attempt] on. *)
Fixpoint get_loop (w : PoolWorld) (n attempt : nat) : PM client :=
  match n with
  | 0 => c_fail ErrAllDown
  | S n =>
      i ← next_index;
      p ← c_get;
      '(i, c) ← slot (Z.rem i (size p));
      if is_up (connected w attempt) c then match c with Some c => mret c | None => c_panic end
      else
        reconnected ← tryReconnect w attempt i;
        if reconnected : bool then
          p ← c_get; match connections p !! i ≫= id with Some c => mret c | None => c_panic end
        else get_loop w n (S attempt)
  end.

Definition Get (w : PoolWorld) : PM client := p ← c_get; get_loop w (Z.to_nat (size p)) 0.

(** The clients of a new pool and which of them connected. *)
Definition new_clients (n : nat) : list client := (λ i, Pos.of_succ_nat i) <$> seq 0 n.

Definition NewChainConnectionPool (address : string) (poolSize : Z) (dialled : nat → bool) : pool_error + ChainConnectionPool :=
  let poolSize := if (poolSize <=? 0)%Z then 3%Z else poolSize in
  if decide (address = EmptyString) then inl ErrEmptyAddress
  else
    let n := Z.to_nat poolSize in
    let connectedCount := length (filter (λ i, dialled i = true) (seq 0 n)) in
    if decide (connectedCount = 0) then inl ErrNoSlotConnected
    else inr {| connections := Some <$> new_clients n; size := poolSize; index := 0; connectionAddress := address; cancelled := false;
                fresh := Pos.of_succ_nat n; disconnected := [] |}.

Definition GetAll (st : client → bool) (p : ChainConnectionPool) : list client :=
  foldl (λ result c, match c with Some c => if st c then result ++ [c] else result | None => result end) [] (connections p).

Definition ActiveCount (st : client → bool) (p : ChainConnectionPool) : Z :=
  foldl (λ count c, if is_up st c then (count + 1)%Z else count) 0%Z (connections p).

Definition Close (p : ChainConnectionPool) : ChainConnectionPool :=
  {| connections := connections p; size := size p; index := index p; connectionAddress := connectionAddress p; cancelled := true;
     fresh := fresh p; disconnected := disconnected p ++ omap id (connections p) |}.

(** ** What the pool promises *)

(** One slot per unit of size, every slot with a client that was allocated. *)
Record pool_ok (p : ChainConnectionPool) : Prop := {
  ok_size : (0 < size p)%Z;
  ok_length : length (connections p) = Z.to_nat (size p);
  ok_clients c : c ∈ connections p → ∃ k, c = Some k ∧ (k < fresh p)%positive;
}.

(** Whether the attempt on a slot yields a client, and the slot whose turn it is. *)
Definition served (w : PoolWorld) (attempt : nat) (c : client) : bool := connected w attempt c || recheck w attempt c || dial w attempt.
Definition turn (p : ChainConnectionPool) (k : nat) : nat := Z.to_nat ((index p + Z.of_nat k) mod size p).

Lemma turn_lt p k : pool_ok p → turn p k < length (connections p).
Proof. intros P. unfold turn. pose proof (ok_size _ P). rewrite (ok_length _ P). pose proof (Z.mod_pos_bound (index p + Z.of_nat k) (size p)). lia. Qed.

Lemma next_index_ok p : (0 ≤ index p < 2 ^ 63 - 1)%Z → next_index p = (Ok (index p), set_index (index p + 1) p).
Proof.
  intros Hi. unfold next_index. rewrite (u64_small (index p + 1)) by lia.
  replace (index p + 1 - 1)%Z with (index p) by lia. by rewrite u64_small, i64_small by lia.
Qed.

Lemma mod_shift_ne x k s : (0 < k < s)%Z → ((x + k) mod s ≠ x mod s)%Z.
Proof.
  intros Hk E. pose proof (Z.div_mod (x + k) s ltac:(lia)) as E1. pose proof (Z.div_mod x s ltac:(lia)) as E2.
  rewrite E in E1. set (d := ((x + k) / s - x / s)%Z). assert (k = s * d)%Z as Ek by (unfold d; lia).
  destruct (Z.le_gt_cases d 0); nia.
Qed.

Lemma turn_fresh p j : pool_ok p → S j < Z.to_nat (size p) → turn p (S j) ≠ turn p 0.
Proof.
  intros P Hj E. unfold turn in E. pose proof (ok_size _ P).
  pose proof (Z.mod_pos_bound (index p + Z.of_nat (S j)) (size p)). pose proof (Z.mod_pos_bound (index p + Z.of_nat 0) (size p)).
  apply (mod_shift_ne (index p) (Z.of_nat (S j)) (size p)); [lia|]. rewrite Z.add_0_r in *. lia.
Qed.

(** The pool after a failed attempt on a slot. *)
Definition redialled (i : nat) (p : ChainConnectionPool) : ChainConnectionPool := set_slot i (fresh p) (set_fresh (Pos.succ (fresh p)) p).

Lemma pool_ok_index i p : pool_ok p → pool_ok (set_index i p).
Proof. by intros [? ? ?]; split. Qed.

Lemma pool_ok_redialled i p : pool_ok p → pool_ok (redialled i p).
Proof.
  intros [P1 P2 P3]. split; simpl; [done|by rewrite length_insert|]. intros c Hc.
  apply list_elem_of_lookup in Hc as (j & Hj). apply list_lookup_insert_Some in Hj as [(<- & <- & _)|[_ Hj]].
  - exists (fresh p). split; [done|lia].
  - destruct (P3 c) as (k & -> & ?); [by eapply list_elem_of_lookup_2|]. exists k. split; [done|lia].
Qed.

Lemma turn_client p k : pool_ok p → ∃ c, connections p !! turn p k = Some (Some c) ∧ (c < fresh p)%positive.
Proof.
  intros P. destruct (lookup_lt_is_Some_2 _ _ (turn_lt p k P)) as [c Hc].
  destruct (ok_clients _ P c) as (x & -> & ?); [by eapply list_elem_of_lookup_2|]. eauto.
Qed.

Lemma tryReconnect_ok w a i c p : connections p !! i = Some (Some c) →
  tryReconnect w a i p = if recheck w a c then (Ok true, p) else (Ok (dial w a), redialled i p).
Proof. intros Hc. unfold tryReconnect, mbind, PM_bind, comp_bind, c_get. rewrite Hc. simpl. by destruct (recheck w a c). Qed.

(** What an attempt on the slot of client [c] returns and leaves. *)
Definition attempt_client (w : PoolWorld) (a : nat) (c : client) (p : ChainConnectionPool) : client :=
  if connected w a c || recheck w a c then c else fresh p.
Definition attempt_pool (w : PoolWorld) (a i : nat) (c : client) (p : ChainConnectionPool) : ChainConnectionPool :=
  if connected w a c || recheck w a c then p else redialled i p.

Lemma get_step w n a p c : pool_ok p → (0 ≤ index p < 2 ^ 63 - 1)%Z → connections p !! turn p 0 = Some (Some c) →
  let p1 := attempt_pool w a (turn p 0) c (set_index (index p + 1) p) in
  get_loop w (S n) a p = if served w a c then (Ok (attempt_client w a c p), p1) else get_loop w n (S a) p1.
Proof.
  intros P Hi Hc p1. pose proof (ok_size _ P). simpl. unfold mbind at 1, PM_bind, comp_bind. rewrite next_index_ok by done. simpl.
  unfold c_get, mbind at 1, PM_bind, comp_bind; simpl. rewrite Z.rem_mod_nonneg by lia.
  assert (Z.to_nat (index p mod size p) = turn p 0) as Et by (unfold turn; by rewrite Z.add_0_r).
  unfold mbind at 1, PM_bind, comp_bind, slot. simpl. pose proof (Z.mod_pos_bound (index p) (size p)).
  rewrite (proj2 (Z.ltb_ge _ 0)), Et, Hc by lia. unfold is_up at 1. unfold served, p1, attempt_client, attempt_pool.
  destruct (connected w a c) eqn:Ec; simpl; [done|]. unfold mbind at 1, PM_bind, comp_bind.
  erewrite tryReconnect_ok by done. destruct (recheck w a c) eqn:Er; simpl; [unfold mbind, PM_bind, comp_bind; simpl; by rewrite Hc|].
  destruct (dial w a); [|done]. unfold mbind, PM_bind, comp_bind; simpl. rewrite list_lookup_insert_eq; [done|]. by eapply lookup_lt_Some.
Qed.

(** The client of the slot whose turn is [k]. *)
Definition at_turn (p : ChainConnectionPool) (k : nat) : option client := connections p !! turn p k ≫= id.

(** Attempt [a + k] on the slot whose turn is [k] serves the request. *)
Definition serves (w : PoolWorld) (p : ChainConnectionPool) (a k : nat) : bool :=
  match at_turn p k with Some c => served w (a + k) c | None => false end.

Lemma attempt_pool_facts w a c p : pool_ok p →
  let p1 := attempt_pool w a (turn p 0) c (set_index (index p + 1) p) in
  pool_ok p1 ∧ index p1 = (index p + 1)%Z ∧ size p1 = size p ∧ (fresh p ≤ fresh p1)%positive ∧
  (∀ j, turn p1 j = turn p (S j)) ∧ (∀ i, i ≠ turn p 0 → connections p1 !! i = connections p !! i).
Proof.
  intros P p1.
  assert (index p1 = (index p + 1)%Z ∧ size p1 = size p) as [E1 E2] by (unfold p1, attempt_pool; by destruct (_ || _)).
  split_and!; [|done|done| | |].
  - unfold p1, attempt_pool. destruct (_ || _); [by apply pool_ok_index|]. apply pool_ok_redialled. by apply pool_ok_index.
  - unfold p1, attempt_pool. destruct (_ || _); simpl; lia.
  - intros j. unfold turn. rewrite E1, E2. f_equal. f_equal. lia.
  - intros i Hi. unfold p1, attempt_pool. destruct (_ || _); [done|]. simpl. by rewrite list_lookup_insert_ne.
Qed.

(** The specification of the loop: the first attempt that serves answers; every slot has one attempt. *)
Definition loop_result (w : PoolWorld) (n a : nat) (p : ChainConnectionPool) (r : outcome pool_error client * ChainConnectionPool) : Prop :=
  pool_ok r.2 ∧ size r.2 = size p ∧
  ((∃ k c c', k < n ∧ serves w p a k = true ∧ (∀ j, j < k → serves w p a j = false) ∧ at_turn p k = Some c ∧
      r.1 = Ok c' ∧ connections r.2 !! turn p k = Some (Some c') ∧ index r.2 = (index p + Z.of_nat k + 1)%Z ∧
      (if connected w (a + k) c || recheck w (a + k) c then c' = c else (fresh p ≤ c')%positive)) ∨
   ((∀ j, j < n → serves w p a j = false) ∧ r.1 = Fail ErrAllDown ∧ index r.2 = (index p + Z.of_nat n)%Z)).

Lemma serves_shift w a c p j : pool_ok p → S j < Z.to_nat (size p) →
  let p1 := attempt_pool w a (turn p 0) c (set_index (index p + 1) p) in
  at_turn p1 j = at_turn p (S j) ∧ serves w p1 (S a) j = serves w p a (S j).
Proof.
  intros P Hj p1. destruct (attempt_pool_facts w a c p P) as (_ & _ & _ & _ & T & C). fold p1 in T, C.
  assert (at_turn p1 j = at_turn p (S j)) as E by (unfold at_turn; rewrite T, C by (by apply turn_fresh); done).
  split; [done|]. unfold serves. rewrite E. by replace (S a + j) with (a + S j) by lia.
Qed.

Lemma get_loop_spec w n : ∀ a p, pool_ok p → (0 ≤ index p)%Z → (index p + Z.of_nat n < 2 ^ 63)%Z → n ≤ Z.to_nat (size p) →
  loop_result w n a p (get_loop w n a p).
Proof.
  induction n as [|n IH]; intros a p P Hi Hb Hn.
  - split_and!; [done|done|]. right. split_and!; [intros; lia|done|simpl; lia].
  - destruct (turn_client p 0 P) as (c & Hc & Hf). rewrite (get_step w n a p c) by (done || lia).
    destruct (attempt_pool_facts w a c p P) as (P1 & I1 & S1 & F1 & T1 & C1).
    assert (at_turn p 0 = Some c) as A0 by (unfold at_turn; by rewrite Hc).
    assert (serves w p a 0 = served w a c) as V0 by (unfold serves; rewrite A0; by rewrite Nat.add_0_r).
    destruct (served w a c) eqn:Es.
    + split_and!; [done|done|]. left. exists 0, c, (attempt_client w a c p). rewrite Nat.add_0_r.
      split_and!; [lia|done|intros; lia|done|done| |simpl; rewrite I1; lia|].
      * simpl. unfold attempt_client, attempt_pool. destruct (_ || _); [done|]. simpl. rewrite list_lookup_insert_eq; [done|]. by apply turn_lt.
      * unfold attempt_client. destruct (_ || _); lia || done.
    + destruct (IH (S a) _ P1) as (R1 & R2 & R3); [rewrite I1; lia|rewrite I1; lia|rewrite S1; lia|].
      split_and!; [done|by rewrite R2|]. destruct R3 as [(k & ck & c' & Hk & V & B & A & E & L & I & F)|(B & E & I)].
      * destruct (serves_shift w a c p k P) as [A' V']; [lia|]. left. exists (S k), ck, c'.
        rewrite V' in V. rewrite A' in A. rewrite T1 in L. replace (a + S k) with (S a + k) by lia.
        split_and!; [lia|done| |done|done|done|rewrite I, I1; lia|destruct (_ || _); [done|lia]].
        intros [|j] Hj; [done|]. destruct (serves_shift w a c p j P) as [_ <-]; [lia|]. apply B. lia.
      * right. split_and!; [|done|rewrite I, I1; lia]. intros [|j] Hj; [done|].
        destruct (serves_shift w a c p j P) as [_ <-]; [lia|]. apply B. lia.
Qed.

(** A request is served by the first slot, in turn, whose client is connected or can be redialled:
    each slot is tried at most once, a connected client is returned as it is and a broken one is
    replaced, the counter advances by the number of attempts, and the error is returned exactly when
    no slot can serve. *)
Theorem pool_get w p : pool_ok p → (0 ≤ index p)%Z → (index p + size p < 2 ^ 63)%Z →
  loop_result w (Z.to_nat (size p)) 0 p (Get w p).
Proof. intros P Hi Hb. pose proof (ok_size _ P). apply get_loop_spec; [done|done|lia|lia]. Qed.

(** With all clients connected the slots are used in strict rotation. *)
Theorem pool_rotation p n : pool_ok p → (0 ≤ index p)%Z → (index p + Z.of_nat n < 2 ^ 63)%Z →
  let w := {| connected := λ _ _, true; recheck := λ _ _, true; dial := λ _, false |} in
  ∀ k, k < n → ∃ c, Get w (set_index (index p + Z.of_nat k) p) = (Ok c, set_index (index p + Z.of_nat (S k)) p) ∧
    connections p !! Z.to_nat ((index p + Z.of_nat k) mod size p) = Some (Some c).
Proof.
  intros P Hi Hb w k Hk. set (q := set_index _ _). assert (pool_ok q) as Q by by apply pool_ok_index.
  destruct (turn_client q 0 Q) as (c & Hc & _). exists c. unfold Get, mbind, PM_bind, comp_bind, c_get.
  pose proof (ok_size _ P). replace (Z.to_nat (size q)) with (S (Z.to_nat (size q) - 1)) by (simpl; lia).
  rewrite (get_step w _ 0 q c Q) by (done || (unfold q; simpl; lia)). split.
  - unfold served, attempt_client, attempt_pool, q. simpl.
    by replace (index p + Z.of_nat k + 1)%Z with (index p + Z.of_nat (S k))%Z by lia.
  - unfold turn, q in Hc. simpl in Hc. by rewrite Z.add_0_r in Hc.
Qed.

(** Once the counter passes 2^63 the slot index becomes negative and the request panics. *)
Theorem pool_index_overflow w p : pool_ok p → size p = 3%Z → index p = (2 ^ 63)%Z → (Get w p).1 = Panic.
Proof.
  intros P Hs Hi. unfold Get, mbind, PM_bind, comp_bind, c_get. rewrite Hs. simpl.
  unfold mbind, PM_bind, comp_bind, next_index, c_get, slot. rewrite Hi. simpl. by rewrite Hs.
Qed.

Lemma new_clients_lookup n i c : new_clients n !! i = Some c → i < n ∧ c = Pos.of_succ_nat i.
Proof.
  unfold new_clients. rewrite list_lookup_fmap. intros (j & (-> & Hj)%lookup_seq & ->)%fmap_Some. done.
Qed.

Lemma active_all st l : ∀ r, foldl (λ count c, if is_up st c then (count + 1)%Z else count) (Z.of_nat (length r)) l =
  Z.of_nat (length (foldl (λ result c, match c with Some c => if st c then result ++ [c] else result | None => result end) r l)).
Proof.
  induction l as [|[c|] l IH]; intros r; simpl; [done| |apply IH]. destruct (st c); [|apply IH].
  rewrite <- IH, length_app. f_equal. simpl. lia.
Qed.

(** A new pool has the requested number of slots, three by default, and is refused when the address
    is empty or no slot connects; the pool invariant holds from then on, and closing disconnects the
    client of every slot. *)
Theorem pool_new address poolSize dialled :
  match NewChainConnectionPool address poolSize dialled with
  | inr p => pool_ok p ∧ size p = (if (poolSize <=? 0)%Z then 3 else poolSize)%Z ∧ index p = 0%Z ∧ address ≠ EmptyString ∧
      (∃ i, i < Z.to_nat (size p) ∧ dialled i = true) ∧
      cancelled (Close p) = true ∧ (∀ i c, connections p !! i = Some (Some c) → c ∈ disconnected (Close p)) ∧
      ∀ st, ActiveCount st p = Z.of_nat (length (GetAll st p))
  | inl ErrEmptyAddress => address = EmptyString
  | inl _ => ∀ i, i < Z.to_nat (if (poolSize <=? 0)%Z then 3 else poolSize)%Z → dialled i = false
  end.
Proof.
  unfold NewChainConnectionPool. set (s := if (poolSize <=? 0)%Z then 3%Z else poolSize). assert (0 < s)%Z as Hs by (unfold s; destruct (poolSize <=? 0)%Z eqn:?; lia).
  case_decide as Da; [done|]. case_decide as Dn.
  - intros i Hi. apply length_zero_iff_nil in Dn. destruct (dialled i) eqn:E; [|done]. exfalso.
    apply (not_elem_of_nil i). rewrite <- Dn. apply list_elem_of_filter. split; [done|]. apply elem_of_seq. lia.
  - split_and!; [|done|done|done| |done| |].
    + split; simpl; [done|by rewrite length_fmap; unfold new_clients; rewrite length_fmap, length_seq|].
      intros c (k & -> & Hk)%list_elem_of_fmap. exists k. split; [done|].
      apply list_elem_of_lookup in Hk as (i & [Hi ->]%new_clients_lookup). lia.
    + destruct (filter (λ i, dialled i = true) (seq 0 (Z.to_nat s))) as [|i l] eqn:E; [done|].
      assert (i ∈ filter (λ i, dialled i = true) (seq 0 (Z.to_nat s))) as [? ?%elem_of_seq]%list_elem_of_filter by (rewrite E; left).
      exists i. simpl. split; [lia|done].
    + intros i c Hc. simpl in Hc |- *. apply list_elem_of_omap. exists (Some c). split; [by eapply list_elem_of_lookup_2|done].
    + intros st. unfold ActiveCount, GetAll. apply (active_all st _ []).
Qed.

(** ** Witnesses *)

Definition pool3 : ChainConnectionPool :=
  {| connections := [Some 1%positive; Some 2%positive; Some 3%positive]; size := 3; index := 4; connectionAddress := "node:4200";
     cancelled := false; fresh := 4%positive; disconnected := [] |}.

Lemma pool3_ok i : pool_ok (set_index i pool3).
Proof. split; [done|done|]. intros c Hc. simpl in Hc. repeat (apply elem_of_cons in Hc as [->|Hc]; [eexists; split; [done|simpl; lia]|]). by apply not_elem_of_nil in Hc. Qed.

(** The second slot is down and cannot be redialled, the third one is redialled. *)
Definition world3 : PoolWorld := {| connected := λ _ c, bool_decide (c = 1%positive); recheck := λ _ _, false; dial := λ a, bool_decide (a = 1) |}.

Lemma pool_get_witness : (Get world3 pool3).1 = Ok 5%positive ∧ loop_result world3 3 0 pool3 (Get world3 pool3).
Proof. split; [by vm_compute|]. apply (pool_get world3 pool3); [apply (pool3_ok 4)|done|done]. Defined.

Lemma pool_rotation_witness : connections pool3 !! Z.to_nat ((4 + 2) mod 3) = Some (Some 1%positive).
Proof.
  destruct (pool_rotation pool3 3 (pool3_ok 4) ltac:(done) ltac:(done) 2 ltac:(lia)) as (c & _ & E). simpl in E |- *. by simplify_eq.
Defined.

Lemma pool_index_overflow_witness : (Get world3 (set_index (2 ^ 63) pool3)).1 = Panic.
Proof. by apply (pool_index_overflow world3 (set_index (2 ^ 63) pool3) (pool3_ok _)). Defined.
