(* ===== verification/Subscriptions.v ===== *)
(** * Event subscriptions ([cmd/rpc-client/internal/tcp_server/tcp_subscription.go])

    Two managers, one for TCP and one for WebSocket clients, keep their subscriptions by id and by
    connection and send events to the subscriptions that match.  Connections and writers are
    objects with an identity (the WebSocket manager is in [WsSubscriptions]); a method holds the manager's lock, so each is one step. *)

From S2P Require Import Prelude GoLib Interfaces.
From Stdlib Require Import Strings.Byte Strings.Ascii.

Abbreviation conn_id := positive.

(** What the two kinds of subscription have in common. *)
Class Subscription (S : Type) := {
  sub_ID : S → string;
  sub_conn : S → conn_id;
  sub_addresses : S → list string;
  sub_topics : S → list string;
}.

Record TcpSubscription := { t_ID : string; t_Conn : conn_id; t_ContractAddresses : list string; t_Topics : list string }.
Record ClientSubscription := {
  w_ID : string; w_ClientConn : conn_id; w_ClientWriter : positive; w_ContractAddresses : list string; w_Topics : list string }.

#[export] Instance tcp_subscription : Subscription TcpSubscription :=
  {| sub_ID := t_ID; sub_conn := t_Conn; sub_addresses := t_ContractAddresses; sub_topics := t_Topics |}.
#[export] Instance ws_subscription : Subscription ClientSubscription :=
  {| sub_ID := w_ID; sub_conn := w_ClientConn; sub_addresses := w_ContractAddresses; sub_topics := w_Topics |}.

(** [strings.EqualFold] on ASCII strings; addresses and topics are hexadecimal, and no other
    character folds to a hexadecimal digit or to the x of the prefix. *)
Definition fold_char (c : ascii) : ascii :=
  let n := nat_of_ascii c in if (65 <=? n) && (n <=? 90) then ascii_of_nat (n + 32) else c.
Fixpoint EqualFold (s t : string) : bool :=
  match s, t with
  | EmptyString, EmptyString => true
  | String c s, String d t => bool_decide (fold_char c = fold_char d) && EqualFold s t
  | _, _ => false
  end.

(** The two tables of a manager. *)
Record SubStore (S : Type) := { subscriptions : gmap string S; by_conn : gmap conn_id (list S) }.
Arguments subscriptions {S} _.
Arguments by_conn {S} _.

(** ["0x" + hex.EncodeToString(bytes)] for the sixteen random bytes [rnd]. *)
Definition generateSubID (rnd : bytes) : string := "0x" +:+ hex_EncodeToString rnd.

(** Event data: a JSON object. *)
Inductive jval := JString (s : string) | JBool (b : bool) | JStrings (l : list string) | JList (l : list jval) | JOther.
Definition getString (m : gmap string jval) (key : string) : string := match m !! key with Some (JString v) => v | _ => EmptyString end.
Definition getBool (m : gmap string jval) (key : string) : bool := match m !! key with Some (JBool v) => v | _ => false end.

Record RpcLogEntry := {
  le_Address : string; le_Topics : list string; le_Data : string; le_BlockNumber : string; le_TransactionHash : string;
  le_BlockHash : string; le_TransactionIndex : string; le_LogIndex : string; le_Removed : bool }.
Record RpcEvent := { ev_SubscriptionId : string; ev_Log : RpcLogEntry }.

Section Store.
Context {S : Type} `{Subscription S}.

Definition store_add (sub : S) (m : SubStore S) : SubStore S :=
  {| subscriptions := <[sub_ID sub := sub]> (subscriptions m);
     by_conn := <[sub_conn sub := default [] (by_conn m !! sub_conn sub) ++ [sub]]> (by_conn m) |}.

(** [RemoveByConnection] of both managers: the store and the number of subscriptions removed. *)
Definition store_remove_conn (conn : conn_id) (m : SubStore S) : SubStore S * Z :=
  match by_conn m !! conn with
  | None => (m, 0%Z)
  | Some subs =>
      ({| subscriptions := foldl (λ t sub, delete (sub_ID sub) t) (subscriptions m) subs; by_conn := delete conn (by_conn m) |},
       Z.of_nat (length subs))
  end.

Definition store_remove_id (subID : string) (m : SubStore S) : SubStore S * bool :=
  match subscriptions m !! subID with
  | None => (m, false)
  | Some sub =>
      let subscriptions' := delete subID (subscriptions m) in
      (match by_conn m !! sub_conn sub with
       | Some subs =>
           let filtered := filter (λ s, sub_ID s ≠ subID) subs in
           {| subscriptions := subscriptions';
              by_conn := match filtered with [] => delete (sub_conn sub) (by_conn m) | _ => <[sub_conn sub := filtered]> (by_conn m) end |}
       | None => {| subscriptions := subscriptions'; by_conn := by_conn m |}
       end, true)
  end.

(** The filter of the two broadcasts. *)
Definition address_match (contractAddr : string) (sub : S) : bool := existsb (λ addr, EqualFold addr contractAddr) (sub_addresses sub).
Definition topic_match (topics : list string) (sub : S) : bool :=
  match sub_topics sub, topics with
  | [], _ | _, [] => true
  | subTopics, _ => existsb (λ subTopic, existsb (λ eventTopic, EqualFold subTopic eventTopic) topics) subTopics
  end.
Definition sub_matches (contractAddr : string) (topics : list string) (sub : S) : bool :=
  address_match contractAddr sub && topic_match topics sub.

End Store.

(** ** The TCP manager *)

Module Tcp.
Abbreviation TcpSubscriptionManager := (SubStore TcpSubscription).
Definition NewTcpSubscriptionManager : TcpSubscriptionManager := {| subscriptions := ∅; by_conn := ∅ |}.

Definition CreateSubscription (conn : conn_id) (contractAddrs topics : list string) (rnd : bytes) (m : TcpSubscriptionManager) :
    TcpSubscriptionManager * string :=
  let subID := generateSubID rnd in
  (store_add {| t_ID := subID; t_Conn := conn; t_ContractAddresses := contractAddrs; t_Topics := topics |} m, subID).
Definition RemoveSubscription (subID : string) (m : TcpSubscriptionManager) : TcpSubscriptionManager * bool := store_remove_id subID m.
Definition RemoveByConnection (conn : conn_id) (m : TcpSubscriptionManager) : TcpSubscriptionManager * Z := store_remove_conn conn m.
Definition SubscriptionCount (m : TcpSubscriptionManager) : Z := Z.of_nat (base.size (subscriptions m)).

Definition log_topics (eventData : gmap string jval) : list string :=
  match eventData !! "topics" with
  | Some (JStrings l) => l
  | Some (JList l) => omap (λ v, match v with JString s => Some s | _ => None end) l
  | _ => []
  end.

Definition log_entry (eventData : gmap string jval) : RpcLogEntry :=
  {| le_Address := getString eventData "address"; le_Topics := log_topics eventData; le_Data := getString eventData "data";
     le_BlockNumber := getString eventData "blockNumber"; le_TransactionHash := getString eventData "transactionHash";
     le_BlockHash := getString eventData "blockHash"; le_TransactionIndex := getString eventData "transactionIndex";
     le_LogIndex := getString eventData "logIndex"; le_Removed := getBool eventData "removed" |}.

(** [BroadcastEvent]: the messages handed to the sender, in the order [iter] of the map; a message
    that cannot be serialised is skipped. *)
Definition BroadcastEvent (marshal : RpcEvent → option bytes) (iter : gmap string TcpSubscription → list (string * TcpSubscription))
    (contractAddr : string) (topics : list string) (eventData : gmap string jval) (m : TcpSubscriptionManager) : list (conn_id * bytes) :=
  omap (λ '(_, sub),
    if sub_matches contractAddr topics sub then
      match marshal {| ev_SubscriptionId := t_ID sub; ev_Log := log_entry eventData |} with
      | Some eventBytes => Some (t_Conn sub, eventBytes)
      | None => None
      end
    else None) (iter (subscriptions m)).
End Tcp.
