(* ===== verification/WsSubscriptions.v ===== *)
(** * Event subscriptions of WebSocket clients
    ([cmd/rpc-client/internal/ws_interceptor/ws_interceptor_manager.go])

    The same table as for TCP clients, with one writer per subscription, the forwarding of every event to
    the TCP manager, and the tests that decide which addresses are intercepted. *)

From S2P Require Import Prelude GoLib Interfaces Subscriptions.
From Stdlib Require Import Strings.Byte Strings.Ascii.

Module Ws.
Record SubscriptionInterceptor := { store : SubStore ClientSubscription; tcpBroadcaster : option Tcp.TcpSubscriptionManager; ContractsInterceptor : list string }.

Definition with_store (s : SubStore ClientSubscription) (sm : SubscriptionInterceptor) : SubscriptionInterceptor :=
  {| store := s; tcpBroadcaster := tcpBroadcaster sm; ContractsInterceptor := ContractsInterceptor sm |}.

Definition NewSubscriptionInterceptor (contracts : list string) : SubscriptionInterceptor :=
  {| store := {| subscriptions := ∅; by_conn := ∅ |}; tcpBroadcaster := None; ContractsInterceptor := contracts |}.
Definition SetTcpBroadcaster (tb : Tcp.TcpSubscriptionManager) (sm : SubscriptionInterceptor) : SubscriptionInterceptor :=
  {| store := store sm; tcpBroadcaster := Some tb; ContractsInterceptor := ContractsInterceptor sm |}.

Definition CreateSubscription (conn : conn_id) (writer : positive) (contractAddrs topics : list string) (rnd : bytes)
    (sm : SubscriptionInterceptor) : SubscriptionInterceptor * string :=
  let subID := generateSubID rnd in
  (with_store (store_add {| w_ID := subID; w_ClientConn := conn; w_ClientWriter := writer; w_ContractAddresses := contractAddrs;
     w_Topics := topics |} (store sm)) sm, subID).
Definition RemoveByConnection (conn : conn_id) (sm : SubscriptionInterceptor) : SubscriptionInterceptor :=
  with_store (store_remove_conn conn (store sm)).1 sm.

(** An eth_subscription message: the writer, the subscription and its data. *)
Definition ws_message : Type := positive * string * gmap string jval.

(** [SendEventToSubscription]: the message handed to the writer, or the error. *)
Definition SendEventToSubscription (subID : string) (eventData : gmap string jval) (sm : SubscriptionInterceptor) : option ws_message :=
  match subscriptions (store sm) !! subID with Some sub => Some (w_ClientWriter sub, subID, eventData) | None => None end.

Definition ws_broadcast (iter : gmap string ClientSubscription → list (string * ClientSubscription))
    (contractAddr : string) (topics : list string) (eventData : gmap string jval) (m : SubStore ClientSubscription) : list ws_message :=
  omap (λ '(_, sub), if sub_matches contractAddr topics sub then Some (w_ClientWriter sub, w_ID sub, eventData) else None)
    (iter (subscriptions m)).

(** [BroadcastEventToContract]: the messages of the two goroutines. *)
Definition BroadcastEventToContract marshal iter_ws iter_tcp (contractAddr : string) (topics : list string) (eventData : gmap string jval)
    (sm : SubscriptionInterceptor) : list ws_message * list (conn_id * bytes) :=
  (ws_broadcast iter_ws contractAddr topics eventData (store sm),
   match tcpBroadcaster sm with Some tb => Tcp.BroadcastEvent marshal iter_tcp contractAddr topics eventData tb | None => [] end).

Definition GetAllSubscriptions (iter : gmap string ClientSubscription → list (string * ClientSubscription)) (sm : SubscriptionInterceptor) : list string :=
  (iter (subscriptions (store sm))).*1.
Definition GetSubscriptionInfo (subID : string) (sm : SubscriptionInterceptor) : option ClientSubscription := subscriptions (store sm) !! subID.

(** [addressMatch]; slicing a string shorter than two bytes panics. *)
Definition slice2 (s : string) : option (string * string) :=
  match s with String a (String b r) => Some (String a (String b EmptyString), r) | _ => None end.
Definition addressMatch (addr1 addr2 : string) : option bool :=
  if decide (String.length addr1 = String.length addr2) then
    '(p1, r1) ← slice2 addr1;
    if decide (p1 = "0x"%string) then
      '(p2, r2) ← slice2 addr2;
      if decide (p2 = "0x"%string) then if decide (r1 = r2) then Some true else Some (bool_decide (addr1 = addr2))
      else Some (bool_decide (addr1 = addr2))
    else Some (bool_decide (addr1 = addr2))
  else Some (bool_decide (addr1 = addr2)).

Definition IsMonitoredContract (addr : string) (sm : SubscriptionInterceptor) : bool :=
  existsb (λ monitored, EqualFold addr monitored) (ContractsInterceptor sm).

Inductive validate_error := ErrNoAddresses | ErrMixed.

Definition ValidateSubscriptionAddresses (addresses : list string) (sm : SubscriptionInterceptor) : bool * option validate_error :=
  match addresses with
  | [] => (false, Some ErrNoAddresses)
  | _ =>
      let '(monitoredCount, notMonitoredCount) :=
        foldl (λ '(m, n) addr, if IsMonitoredContract addr sm then (S m, n) else (m, S n)) (0, 0) addresses in
      if decide (monitoredCount = length addresses) then (true, None)
      else if decide (notMonitoredCount = length addresses) then (false, None)
      else (false, Some ErrMixed)
  end.
End Ws.
