(* ===== verification/SubscriptionsTheorems.v ===== *)
(** * The subscription tables agree, and events reach exactly the matching subscriptions *)

From S2P Require Import Prelude GoLib Subscriptions WsSubscriptions.
From Stdlib Require Import Strings.Byte.

(** The two tables hold the same subscriptions, each under its own id and connection. *)
Record sub_ok {S} `{Subscription S} (m : SubStore S) : Prop := {
  ok_id i s : subscriptions m !! i = Some s → sub_ID s = i;
  ok_conn c s : (∃ l, by_conn m !! c = Some l ∧ s ∈ l) ↔ sub_conn s = c ∧ subscriptions m !! sub_ID s = Some s;
  ok_list c l : by_conn m !! c = Some l → l ≠ [] ∧ NoDup (sub_ID <$> l);
}.

Section StoreLemmas.
Context {S : Type} `{Subscription S}.
Implicit Types (m : SubStore S) (s sub : S).

Lemma empty_ok : sub_ok (S:=S) {| subscriptions := ∅; by_conn := ∅ |}.
Proof.
  split; simpl.
  - intros i s E. by rewrite lookup_empty in E.
  - intros c s. rewrite !lookup_empty. split; [intros (l & E & _)|intros [_ E]]; done.
  - intros c l E. by rewrite lookup_empty in E.
Qed.

(** A subscription of a connection, by its list. *)
Lemma in_list m c l s : sub_ok m → by_conn m !! c = Some l → s ∈ l ↔ sub_conn s = c ∧ subscriptions m !! sub_ID s = Some s.
Proof. intros Ok E. rewrite <- (ok_conn m Ok). split; [eauto|]. intros (l' & E' & Hs). by simplify_eq. Qed.

Lemma in_default m c s : sub_ok m → s ∈ default [] (by_conn m !! c) ↔ sub_conn s = c ∧ subscriptions m !! sub_ID s = Some s.
Proof.
  intros Ok. destruct (by_conn m !! c) as [l|] eqn:E; simpl; [by apply in_list|]. split; [intros Hs; by apply not_elem_of_nil in Hs|].
  intros Hs. apply (ok_conn m Ok) in Hs as (l & E' & _). congruence.
Qed.

Lemma add_ok sub m : sub_ok m → subscriptions m !! sub_ID sub = None → sub_ok (store_add sub m).
Proof.
  intros Ok Hf. split; simpl.
  - intros i s. rewrite lookup_insert_Some. intros [[<- <-]|[_ E]]; [done|]. by apply (ok_id m Ok).
  - intros c s. rewrite lookup_insert_Some. destruct (decide (sub_conn sub = c)) as [<-|Nc].
    + rewrite lookup_insert_eq. split.
      * intros (l & [= <-] & [Hs|Hs]%elem_of_app).
        -- apply in_default in Hs as [Ec E]; [|done]. split; [done|]. right. split; [congruence|done].
        -- apply list_elem_of_singleton in Hs as ->. auto.
      * intros [Ec [[Ei <-]|[_ E]]]; eexists; (split; [done|]); apply elem_of_app; [right; left|left]. by apply (in_default m (sub_conn sub)).
    + rewrite lookup_insert_ne by done. rewrite (ok_conn m Ok). split; [intros [? ?]; split; [done|]; right; split; [congruence|done]|].
      intros [Ec [[Ei <-]|[_ E]]]; [done|]. done.
  - intros c l. rewrite lookup_insert_Some. intros [[<- <-]|[_ E]]; [|by apply (ok_list m Ok c)]. split; [by destruct (default [] _)|].
    rewrite fmap_app. apply NoDup_app. split_and!; [|..|apply NoDup_singleton].
    + destruct (by_conn m !! sub_conn sub) as [l|] eqn:E; [|constructor]. by apply (ok_list m Ok _ _ E).
    + intros i (s & -> & Hd)%list_elem_of_fmap Hs. apply (in_default m (sub_conn sub)) in Hd as [_ Es]; [|done]. apply list_elem_of_singleton in Hs. congruence.
Qed.

Lemma remove_fold_lookup l (t : gmap string S) i : foldl (λ t s, delete (sub_ID s) t) t l !! i =
  if decide (i ∈ sub_ID <$> l) then None else t !! i.
Proof.
  revert t. induction l as [|s l IH]; intros t; [done|]. cbn [foldl]. rewrite IH, fmap_cons.
  destruct (decide (sub_ID s = i)) as [->|N].
  - rewrite lookup_delete_eq, (decide_True (P:=i ∈ i :: _)) by left. by case_decide.
  - rewrite lookup_delete_ne by done. apply decide_ext. rewrite elem_of_cons. naive_solver.
Qed.

(** Removal by connection takes out exactly the subscriptions of the connection. *)
Lemma remove_conn_subs c m i : sub_ok m → subscriptions (store_remove_conn c m).1 !! i =
  match subscriptions m !! i with Some s => if decide (sub_conn s = c) then None else Some s | None => None end.
Proof.
  intros Ok. unfold store_remove_conn. destruct (by_conn m !! c) as [l|] eqn:E; simpl.
  - rewrite remove_fold_lookup. case_decide as D.
    + apply list_elem_of_fmap in D as (s & -> & [Ec ->]%(in_list m c l)); [|done..]. by rewrite decide_True.
    + destruct (subscriptions m !! i) as [s|] eqn:Es; [|done]. rewrite decide_False; [done|]. intros Ec. apply D.
      pose proof (ok_id m Ok _ _ Es) as <-. apply list_elem_of_fmap_2. by apply (in_list m c l).
  - destruct (subscriptions m !! i) as [s|] eqn:Es; [|done]. rewrite decide_False; [done|]. intros Ec.
    pose proof (ok_id m Ok _ _ Es) as <-. assert (sub_conn s = c ∧ subscriptions m !! sub_ID s = Some s) as (l & E' & _)%(ok_conn m Ok) by done. congruence.
Qed.

Lemma remove_conn_ok c m : sub_ok m → sub_ok (store_remove_conn c m).1.
Proof.
  intros Ok.
  assert (∀ s, subscriptions (store_remove_conn c m).1 !! sub_ID s = Some s ↔ subscriptions m !! sub_ID s = Some s ∧ sub_conn s ≠ c) as Hs.
  { intros s. rewrite remove_conn_subs by done. destruct (subscriptions m !! sub_ID s); [case_decide|]; naive_solver. }
  assert (∀ c', by_conn (store_remove_conn c m).1 !! c' = if decide (c' = c) then None else by_conn m !! c') as Hc.
  { intros c'. unfold store_remove_conn. destruct (by_conn m !! c) as [l|] eqn:E; simpl; case_decide as D; subst; try done;
      [apply lookup_delete_eq|by apply lookup_delete_ne]. }
  split.
  - intros i s. rewrite remove_conn_subs by done. destruct (subscriptions m !! i) eqn:E; [case_decide|]; intros; simplify_eq. by apply (ok_id m Ok).
  - intros c' s. rewrite Hs, Hc. case_decide as D; subst; [naive_solver|]. rewrite (ok_conn m Ok). naive_solver.
  - intros c' l. rewrite Hc. case_decide; [done|]. apply (ok_list m Ok).
Qed.

Lemma remove_id_ok i m : sub_ok m → sub_ok (store_remove_id i m).1.
Proof.
  intros Ok. unfold store_remove_id. destruct (subscriptions m !! i) as [sub|] eqn:E; [|done]. simpl.
  pose proof (ok_id m Ok _ _ E) as Ei. destruct (proj2 (ok_conn m Ok (sub_conn sub) sub)) as (l & El & Hl); [split; [done|]; congruence|].
  rewrite El. set (f := filter _ l).
  assert (∀ c, match f with [] => delete (sub_conn sub) (by_conn m) | _ => <[sub_conn sub := f]> (by_conn m) end !! c =
    if decide (sub_conn sub = c) then match f with [] => None | _ => Some f end else by_conn m !! c) as Hc.
  { intros c. destruct f; case_decide; subst; by rewrite ?lookup_delete_eq, ?lookup_insert_eq, ?lookup_delete_ne, ?lookup_insert_ne by done. }
  assert (∀ s, s ∈ f ↔ s ∈ l ∧ sub_ID s ≠ i) as Hf by (intros s; unfold f; rewrite list_elem_of_filter; tauto).
  split; simpl.
  - intros j s. rewrite lookup_delete_Some. intros [_ Es]. by apply (ok_id m Ok).
  - intros c s. rewrite Hc, lookup_delete_Some. case_decide as D.
    + assert ((∃ l0, match f with [] => None | _ => Some f end = Some l0 ∧ s ∈ l0) ↔ s ∈ f) as ->
        by (destruct f; split; [intros (? & ? & ?); done|intros Hs; by apply not_elem_of_nil in Hs|intros (? & [= <-] & ?); done|eauto]).
      rewrite Hf, (in_list m (sub_conn sub) l) by done. naive_solver.
    + rewrite (ok_conn m Ok). split; [|naive_solver]. intros [<- Es]. split_and!; [done| |done]. congruence.
  - intros c l'. rewrite Hc. case_decide; [|apply (ok_list m Ok)]. destruct (ok_list m Ok _ _ El) as [_ Nd].
    intros E'. assert (l' = f ∧ f ≠ []) as [-> ?] by (destruct f; naive_solver). split; [done|].
    unfold f. clear -Nd. induction l as [|x l IH]; [constructor|]. apply NoDup_cons in Nd as [Nx Nd]. rewrite filter_cons. case_decide; [|auto].
    rewrite fmap_cons. apply NoDup_cons. split; [|auto]. intros (y & Ey & [_ Hy]%list_elem_of_filter)%list_elem_of_fmap. apply Nx. rewrite Ey. by apply list_elem_of_fmap_2.
Qed.

End StoreLemmas.

(** ** The TCP manager *)

(** The states the TCP manager can reach; a random id that is already in use has probability 2^-128
    per live subscription and is excluded. *)
Inductive tcp_reachable : Tcp.TcpSubscriptionManager → Prop :=
  | tcp_new : tcp_reachable Tcp.NewTcpSubscriptionManager
  | tcp_create conn addrs topics rnd m : tcp_reachable m → subscriptions m !! generateSubID rnd = None →
      tcp_reachable (Tcp.CreateSubscription conn addrs topics rnd m).1
  | tcp_remove subID m : tcp_reachable m → tcp_reachable (Tcp.RemoveSubscription subID m).1
  | tcp_disconnect conn m : tcp_reachable m → tcp_reachable (Tcp.RemoveByConnection conn m).1.

Lemma tcp_reachable_ok m : tcp_reachable m → sub_ok m.
Proof.
  induction 1; [apply empty_ok|by apply add_ok|by apply remove_id_ok|by apply remove_conn_ok].
Qed.

(** The number of subscriptions a disconnect reports. *)
Lemma conn_subs_count {S} `{Subscription S} (m : SubStore S) c : sub_ok m →
  (store_remove_conn c m).2 = Z.of_nat (base.size (filter (λ '(_, s), sub_conn s = c) (subscriptions m))).
Proof.
  intros Ok. unfold store_remove_conn. rewrite <- length_map_to_list.
  assert (length (default [] (by_conn m !! c)) = length (map_to_list (filter (λ '(_, s), sub_conn s = c) (subscriptions m)))) as <-.
  2: by destruct (by_conn m !! c).
  rewrite <- (length_fmap sub_ID), <- (length_fmap fst (map_to_list _)). apply Permutation_length, NoDup_Permutation.
  - destruct (by_conn m !! c) as [l|] eqn:E; [by apply (ok_list m Ok _ _ E)|constructor].
  - apply NoDup_fst_map_to_list.
  - intros i. rewrite !list_elem_of_fmap. split.
    + intros (s & -> & Hs). apply (in_default m c) in Hs as [Ec Es]; [|done]. exists (sub_ID s, s). split; [done|].
      apply elem_of_map_to_list, map_lookup_filter_Some. done.
    + intros ([j s] & -> & (Es & Ec)%elem_of_map_to_list%map_lookup_filter_Some). exists s. pose proof (ok_id m Ok _ _ Es) as <-.
      split; [done|]. by apply in_default.
Qed.

(** C38: In every reachable state the two tables of the TCP manager hold the same subscriptions.  A created
    subscription is found under its id; removing one by id removes it alone and reports whether it was
    there; a disconnect removes exactly the subscriptions of the connection and reports their number. *)
Theorem tcp_subscriptions m : tcp_reachable m →
  sub_ok m ∧
  (∀ conn addrs topics rnd, subscriptions m !! generateSubID rnd = None →
     let '(m', subID) := Tcp.CreateSubscription conn addrs topics rnd m in
     subscriptions m' = <[subID := {| t_ID := subID; t_Conn := conn; t_ContractAddresses := addrs; t_Topics := topics |}]> (subscriptions m) ∧
     Tcp.SubscriptionCount m' = (Tcp.SubscriptionCount m + 1)%Z) ∧
  (∀ subID, let '(m', found) := Tcp.RemoveSubscription subID m in
     found = bool_decide (is_Some (subscriptions m !! subID)) ∧ subscriptions m' = delete subID (subscriptions m)) ∧
  (∀ conn, let '(m', n) := Tcp.RemoveByConnection conn m in
     subscriptions m' = filter (λ '(_, s), t_Conn s ≠ conn) (subscriptions m) ∧
     n = Z.of_nat (base.size (filter (λ '(_, s), t_Conn s = conn) (subscriptions m)))).
Proof.
  intros Ok%tcp_reachable_ok. split_and!; [done|..].
  - intros conn addrs topics rnd Hf. simpl. split; [done|]. unfold Tcp.SubscriptionCount. simpl. rewrite map_size_insert_None by done. lia.
  - intros subID. unfold Tcp.RemoveSubscription. destruct (store_remove_id subID m) as [m' found] eqn:E. unfold store_remove_id in E.
    destruct (subscriptions m !! subID) as [sub|] eqn:Es; simplify_eq; simpl.
    + split; [done|]. by destruct (by_conn m !! t_Conn sub).
    + split; [done|]. by rewrite delete_id.
  - intros conn. unfold Tcp.RemoveByConnection. pose proof (remove_conn_subs conn m) as R. pose proof (conn_subs_count m conn Ok) as C.
    destruct (store_remove_conn conn m) as [m' n]. simpl in R, C. split; [|done]. apply map_eq. intros i. rewrite R by done.
    rewrite map_lookup_filter. destruct (subscriptions m !! i) as [s|]; simpl; [|done].
    destruct (decide (t_Conn s = conn)) as [E|N].
    + rewrite option_guard_False by tauto. done.
    + rewrite option_guard_True by done. done.
Qed.

Lemma EqualFold_spec s t : EqualFold s t = true ↔ fold_char <$> String.list_ascii_of_string s = fold_char <$> String.list_ascii_of_string t.
Proof.
  revert t. induction s as [|c s IH]; intros [|d t]; [done..|]. cbn [EqualFold String.list_ascii_of_string]. rewrite !fmap_cons, andb_true_iff, bool_decide_eq_true, IH. split; [by intros [-> ->]|]. by intros [= -> ->].
Qed.

(** When an event concerns a subscription. *)
Definition concerns {S} `{Subscription S} (contractAddr : string) (topics : list string) (s : S) : Prop :=
  (∃ a, a ∈ sub_addresses s ∧ EqualFold a contractAddr = true) ∧
  (sub_topics s = [] ∨ topics = [] ∨ ∃ t e, t ∈ sub_topics s ∧ e ∈ topics ∧ EqualFold t e = true).

Lemma existsb_elem {A} (f : A → bool) l : existsb f l = true ↔ ∃ x, x ∈ l ∧ f x = true.
Proof. rewrite existsb_exists. by setoid_rewrite list_elem_of_In. Qed.

Lemma sub_matches_spec {S} `{Subscription S} contractAddr topics (s : S) :
  sub_matches contractAddr topics s = true ↔ concerns contractAddr topics s.
Proof.
  unfold sub_matches, concerns, address_match, topic_match. rewrite andb_true_iff, existsb_elem. apply and_iff_compat_l.
  destruct (sub_topics s) as [|t0 ts]; [split; auto|]. destruct topics as [|e0 es]; [split; auto|].
  rewrite existsb_elem. setoid_rewrite existsb_elem. split.
  - intros (t & Ht & e & He & E). right. right. eauto 8.
  - intros [?|[?|(t & e & Ht & He & E)]]; [done..|]. eauto 8.
Qed.

(** C39: An event is sent to the TCP subscriptions it concerns and to no others, each with its own id, and
    once a connection is gone nothing more is sent to it. *)
Theorem broadcast_exact marshal iter m contractAddr topics eventData : tcp_reachable m → (∀ t, iter t ≡ₚ map_to_list t) →
  (∀ c b, (c, b) ∈ Tcp.BroadcastEvent marshal iter contractAddr topics eventData m ↔
     ∃ i s, subscriptions m !! i = Some s ∧ t_Conn s = c ∧ concerns contractAddr topics s ∧
       marshal {| ev_SubscriptionId := i; ev_Log := Tcp.log_entry eventData |} = Some b) ∧
  (∀ conn c b, (c, b) ∈ Tcp.BroadcastEvent marshal iter contractAddr topics eventData (Tcp.RemoveByConnection conn m).1 → c ≠ conn).
Proof.
  intros R It.
  assert (∀ m, tcp_reachable m → ∀ c b, (c, b) ∈ Tcp.BroadcastEvent marshal iter contractAddr topics eventData m ↔
     ∃ i s, subscriptions m !! i = Some s ∧ t_Conn s = c ∧ concerns contractAddr topics s ∧
       marshal {| ev_SubscriptionId := i; ev_Log := Tcp.log_entry eventData |} = Some b) as B.
  { clear m R. intros m Ok%tcp_reachable_ok c b. unfold Tcp.BroadcastEvent. rewrite list_elem_of_omap. split.
    - intros ([i s] & Hs & E). rewrite It in Hs. apply elem_of_map_to_list in Hs. pose proof (ok_id m Ok _ _ Hs) as Ei. simpl in Ei.
      destruct (sub_matches contractAddr topics s) eqn:M; [|done]. apply sub_matches_spec in M.
      destruct (marshal _) as [b'|] eqn:Em; simplify_eq. exists (t_ID s), s. done.
    - intros (i & s & Es & <- & M & Em). exists (i, s). rewrite It, elem_of_map_to_list. split; [done|].
      rewrite (proj2 (sub_matches_spec _ _ _) M). pose proof (ok_id m Ok _ _ Es) as Ei. simpl in Ei. rewrite Ei, Em. done. }
  split; [by apply B|]. intros conn c b. rewrite B by (by constructor). intros (i & s & Es & <- & _) Ec. subst conn.
  pose proof (remove_conn_subs (t_Conn s) m i (tcp_reachable_ok m R)) as Er. unfold Tcp.RemoveByConnection in Es. rewrite Es in Er.
  destruct (subscriptions m !! i) as [s'|]; [|done]. case_decide; [done|]. by simplify_eq.
Qed.

(** ** The WebSocket manager *)

Lemma count_monitored sm l a b :
  foldl (λ '(m, n) addr, if Ws.IsMonitoredContract addr sm then (S m, n) else (m, S n)) (a, b) l =
  (a + length (filter (λ x, Ws.IsMonitoredContract x sm = true) l), b + length (filter (λ x, Ws.IsMonitoredContract x sm = false) l)).
Proof.
  revert a b. induction l as [|x l IH]; intros a b; cbn [foldl]; [by rewrite !Nat.add_0_r|]. rewrite !filter_cons.
  destruct (Ws.IsMonitoredContract x sm); rewrite IH; simpl; f_equal; lia.
Qed.

Lemma filter_all {A} (P : A → Prop) `{∀ x, Decision (P x)} l : length (filter P l) = length l ↔ Forall P l.
Proof.
  induction l as [|x l IH]; [split; [constructor|done]|]. rewrite Forall_cons, filter_cons. case_decide; simpl.
  - split; [intros [= E]; split; [done|by apply IH]|]. intros [_ F]. f_equal. by apply IH.
  - split; [|tauto]. intros E. pose proof (length_filter P l). lia.
Qed.

(** A subscription is intercepted when all its addresses are monitored, passed on to the chain when
    none is, and refused when they are mixed or there is none. *)
Theorem validate_addresses addresses sm :
  Ws.ValidateSubscriptionAddresses addresses sm =
    match addresses with
    | [] => (false, Some Ws.ErrNoAddresses)
    | _ => if decide (Forall (λ a, Ws.IsMonitoredContract a sm = true) addresses) then (true, None)
           else if decide (Forall (λ a, Ws.IsMonitoredContract a sm = false) addresses) then (false, None)
           else (false, Some Ws.ErrMixed)
    end.
Proof.
  unfold Ws.ValidateSubscriptionAddresses. destruct addresses as [|a l]; [done|]. rewrite count_monitored, !Nat.add_0_l.
  generalize (a :: l). intros k. by repeat (case_decide; rewrite ?filter_all in * ).
Qed.

(** Despite its comment, [addressMatch] is plain equality of strings, and it panics on two strings of
    one and the same length below two. *)
Theorem address_match_case_sensitive a b : Ws.addressMatch a b =
  if decide (String.length a = String.length b ∧ String.length a < 2) then None else Some (bool_decide (a = b)).
Proof.
  unfold Ws.addressMatch. destruct (decide (String.length a = String.length b)) as [E|N].
  2: { rewrite decide_False by tauto. done. }
  destruct a as [|a0 [|a1 a]], b as [|b0 [|b1 b]]; simpl in E; try done. rewrite (decide_False (P:=_ ∧ _)) by (simpl; lia). simpl.
  destruct (decide (String a0 (String a1 EmptyString) = "0x"%string)) as [Ea|]; [|done].
  destruct (decide (String b0 (String b1 EmptyString) = "0x"%string)) as [Eb|]; [|done]. destruct (decide (a = b)) as [->|]; [|done].
  rewrite bool_decide_eq_true_2; [done|]. injection Ea as -> ->. by injection Eb as -> ->.
Qed.

(** The states the WebSocket manager can reach. *)
Inductive ws_reachable : Ws.SubscriptionInterceptor → Prop :=
  | ws_new contracts : ws_reachable (Ws.NewSubscriptionInterceptor contracts)
  | ws_attach tb sm : ws_reachable sm → ws_reachable (Ws.SetTcpBroadcaster tb sm)
  | ws_create conn w addrs topics rnd sm : ws_reachable sm → subscriptions (Ws.store sm) !! generateSubID rnd = None →
      ws_reachable (Ws.CreateSubscription conn w addrs topics rnd sm).1
  | ws_disconnect conn sm : ws_reachable sm → ws_reachable (Ws.RemoveByConnection conn sm).

Lemma ws_reachable_ok sm : ws_reachable sm → sub_ok (Ws.store sm).
Proof. induction 1; [apply empty_ok|done|by apply add_ok|by apply remove_conn_ok]. Qed.

(** An event is written exactly once to each WebSocket subscription it concerns and to no other, and
    is handed on to the TCP manager when one is attached. *)
Theorem ws_broadcast_exact marshal iter_ws iter_tcp sm contractAddr topics eventData : ws_reachable sm → (∀ t, iter_ws t ≡ₚ map_to_list t) →
  let '(ws, tcp) := Ws.BroadcastEventToContract marshal iter_ws iter_tcp contractAddr topics eventData sm in
  (∀ w i d, (w, i, d) ∈ ws ↔ d = eventData ∧ ∃ s, Ws.GetSubscriptionInfo i sm = Some s ∧ w_ClientWriter s = w ∧ concerns contractAddr topics s) ∧
  NoDup ws ∧
  tcp = match Ws.tcpBroadcaster sm with Some tb => Tcp.BroadcastEvent marshal iter_tcp contractAddr topics eventData tb | None => [] end.
Proof.
  intros Ok%ws_reachable_ok It. unfold Ws.BroadcastEventToContract, Ws.ws_broadcast, Ws.GetSubscriptionInfo. split_and!; [| |done].
  - intros w i d. rewrite list_elem_of_omap. split.
    + intros ([j s] & Hs & E). rewrite It in Hs. apply elem_of_map_to_list in Hs. pose proof (ok_id _ Ok _ _ Hs) as Ei. simpl in Ei.
      destruct (sub_matches contractAddr topics s) eqn:M; [|done]. apply sub_matches_spec in M. simplify_eq. eauto.
    + intros (-> & s & Es & <- & M). exists (i, s). rewrite It, elem_of_map_to_list. split; [done|].
      rewrite (proj2 (sub_matches_spec _ _ _) M). pose proof (ok_id _ Ok _ _ Es) as Ei. simpl in Ei. by rewrite Ei.
  - assert (∀ k s, (k, s) ∈ iter_ws (subscriptions (Ws.store sm)) → w_ID s = k) as K.
    { intros k s Hs. rewrite It in Hs. apply elem_of_map_to_list in Hs. by apply (ok_id _ Ok). }
    assert (NoDup (iter_ws (subscriptions (Ws.store sm))).*1) as Nd by (rewrite It; apply NoDup_fst_map_to_list).
    induction (iter_ws (subscriptions (Ws.store sm))) as [|[k s] l IH]; [constructor|]. rewrite fmap_cons, NoDup_cons in Nd.
    destruct Nd as [Nk Nd]. specialize (IH ltac:(intros; apply K; by right) Nd). simpl. destruct (sub_matches contractAddr topics s); [|done].
    apply NoDup_cons. split; [|done]. intros ([k' s'] & Hs & E)%list_elem_of_omap. destruct (sub_matches _ _ s'); [|done]. simplify_eq.
    apply Nk. apply list_elem_of_fmap. exists (k', s'). split; [|done]. simpl. rewrite <- (K k s) by left. rewrite <- (K k' s') by (by right). done.
Qed.

(** ** Witnesses *)

Module SubscriptionsExample.
Definition rnd1 : bytes := replicate 16 x01.
Definition rnd2 : bytes := replicate 16 x02.

Definition m1 : Tcp.TcpSubscriptionManager :=
  (Tcp.CreateSubscription 8 ["0xabC"%string] ["0xT"%string] rnd2
    (Tcp.CreateSubscription 7 ["0xAbc"%string] [] rnd1 Tcp.NewTcpSubscriptionManager).1).1.

Lemma m1_reachable : tcp_reachable m1.
Proof. apply tcp_create; [apply tcp_create; [apply tcp_new|]|]; by vm_compute. Qed.

Definition toy_marshal (e : RpcEvent) : option bytes := Some (str_bytes (ev_SubscriptionId e)).
Abbreviation order := (map_to_list (K:=string) (A:=TcpSubscription) (M:=gmap string TcpSubscription)).
Abbreviation order_ws := (map_to_list (K:=string) (A:=ClientSubscription) (M:=gmap string ClientSubscription)).

Lemma tcp_subscriptions_witness : subscriptions (Tcp.RemoveByConnection 7 m1).1 = filter (λ '(_, s), t_Conn s ≠ 7%positive) (subscriptions m1).
Proof.
  destruct (tcp_subscriptions m1 m1_reachable) as (_ & _ & _ & R). specialize (R 7%positive).
  destruct (Tcp.RemoveByConnection 7 m1) as [m' n]. by destruct R as [R _].
Defined.

Lemma broadcast_exact_witness :
  (7%positive, str_bytes (generateSubID rnd1)) ∈ Tcp.BroadcastEvent toy_marshal order "0xABC" ["0xt"%string] ∅ m1.
Proof.
  destruct (broadcast_exact toy_marshal order m1 "0xABC" ["0xt"%string] ∅ m1_reachable (λ t, Permutation_refl _)) as [B _]. apply B.
  exists (generateSubID rnd1), {| t_ID := generateSubID rnd1; t_Conn := 7; t_ContractAddresses := ["0xAbc"%string]; t_Topics := [] |}.
  split_and!; [by vm_compute|done| |done]. split; [|by left]. exists "0xAbc"%string. split; [left|by vm_compute].
Defined.

Definition sm1 : Ws.SubscriptionInterceptor :=
  Ws.SetTcpBroadcaster m1 (Ws.CreateSubscription 3 9 ["0xabc"%string] [] rnd1 (Ws.NewSubscriptionInterceptor ["0xabc"%string])).1.

Lemma sm1_reachable : ws_reachable sm1.
Proof. apply ws_attach, ws_create; [apply ws_new|by vm_compute]. Qed.

Lemma ws_broadcast_exact_witness :
  NoDup (Ws.BroadcastEventToContract toy_marshal order_ws order "0xABC" [] ∅ sm1).1 ∧
  length (Ws.BroadcastEventToContract toy_marshal order_ws order "0xABC" [] ∅ sm1).1 = 1.
Proof.
  split; [|by vm_compute].
  pose proof (ws_broadcast_exact toy_marshal order_ws order sm1 "0xABC" [] ∅ sm1_reachable (λ t, Permutation_refl _)) as B.
  destruct (Ws.BroadcastEventToContract _ _ _ _ _ _ _) as [ws tcp]. by destruct B as (_ & B & _).
Defined.
End SubscriptionsExample.
