(* ===== verification/FreeGas.v ===== *)
(** * Free-gas lists ([pkg/storage/contract_free_gas_storage.go])

    Four lists (contracts, authorized wallets, help-pay wallets, admins) kept in one
    LevelDB: entries under <data prefix><padded id>, a reverse index
    <index prefix><address> -> padded id, and a count.  Ids are 1..count without
    gaps; removal moves the last entry into the vacated slot. *)

From S2P Require Import Prelude Interfaces GoLib LevelDB.
From Stdlib Require Import Strings.Byte.

(** ** Data *)

Record ContractFreeGasData := { cfg_ContractAddress : bytes; cfg_AddedAt : Z; cfg_AddedBy : bytes }.
Record AuthorizedWalletData := { aw_WalletAddress : bytes; aw_AddedAt : Z; aw_AddedBy : bytes }.
Record AdminData := { ad_AdminAddress : bytes; ad_AddedAt : Z; ad_AddedBy : bytes }.

(** What the three messages have in common: their literals and address fields. *)
Class Entry (T : Type) := {
  mk_entry : bytes → Z → bytes → T;
  entry_address : T → bytes;
  entry_addedBy : T → bytes;
  entry_address_mk a n b : entry_address (mk_entry a n b) = a;
}.

#[export] Instance contract_entry : Entry ContractFreeGasData := {|
  mk_entry := Build_ContractFreeGasData; entry_address := cfg_ContractAddress;
  entry_addedBy := cfg_AddedBy; entry_address_mk _ _ _ := eq_refl |}.
#[export] Instance wallet_entry : Entry AuthorizedWalletData := {|
  mk_entry := Build_AuthorizedWalletData; entry_address := aw_WalletAddress;
  entry_addedBy := aw_AddedBy; entry_address_mk _ _ _ := eq_refl |}.
#[export] Instance admin_entry : Entry AdminData := {|
  mk_entry := Build_AdminData; entry_address := ad_AdminAddress;
  entry_addedBy := ad_AddedBy; entry_address_mk _ _ _ := eq_refl |}.

(** The key prefixes of one list. *)
Record Keys := { dataPrefix : string; indexPrefix : string; countKey : string }.

Definition contract_keys : Keys := {| dataPrefix := "cfgd:"; indexPrefix := "cfg:"; countKey := "cfgc:count" |}.
Definition wallet_keys : Keys := {| dataPrefix := "awd:"; indexPrefix := "aw:"; countKey := "awc:count" |}.
Definition help_pay_keys : Keys := {| dataPrefix := "hpwd:"; indexPrefix := "hpw:"; countKey := "hpwc:count" |}.
Definition admin_keys : Keys := {| dataPrefix := "admd:"; indexPrefix := "adm:"; countKey := "admc:count" |}.

Inductive fg_error :=
  | ErrRead          (** the store failed to read *)
  | ErrWrite         (** the store failed to write *)
  | ErrExists
  | ErrAbsent
  | ErrParse         (** the reverse index does not hold a number *)
  | ErrMissingEntry  (** the last entry is not in the store *)
  | ErrUnmarshal.

(** ** Helpers *)

Definition CONTRACT_ID_PADDING_LENGTH : nat := 10.

Definition padEntityID (id : Z) : string :=
  let s := FormatUint id in
  if (CONTRACT_ID_PADDING_LENGTH <=? String.length s)%nat then s
  else strings_Repeat "0" (CONTRACT_ID_PADDING_LENGTH - String.length s) +:+ s.

Definition unpadEntityID (s : string) : option Z := ParseUint s.

(** [paginateRange]: [int] products wrap at 64 bits and are converted to [uint64]. *)
Definition paginateRange (page pageSize count : Z) : option (Z * Z) :=
  let startID := u64 (i64 (page * pageSize) + 1) in
  let endID := u64 (i64 (page + 1) * pageSize) in
  if (count <? startID)%Z then None
  else Some (startID, if (count <? endID)%Z then count else endID).

Section FreeGas.
Context `{LevelDB St} `{EthAddress}.

Definition M : Type → Type := comp St fg_error.
#[export] Instance M_ret : MRet M := comp_ret.
#[export] Instance M_bind : MBind M := comp_bind.

(** [ldb.Get] with [ErrNotFound] told apart from the other errors. *)
Definition read (k : string) : M (option bytes) := λ s,
  match ldb_Get k s with
  | Found v => (Ok (Some v), s)
  | NotFound => (Ok None, s)
  | ReadError => (Fail ErrRead, s)
  end.

Definition write_batch (ops : list batch_op) : M unit := λ s,
  match ldb_Write ops s with Some s' => (Ok tt, s') | None => (Fail ErrWrite, s) end.

Definition genericGetCount (countKey : string) : M Z :=
  value ← read countKey;
  match value with
  | None => mret 0%Z
  | Some v => match Uint64 v with Some n => mret n | None => c_panic end
  end.

Definition putCount (countKey : string) (count : Z) : batch_op := BPut countKey (PutUint64 count).

Definition genericGetReverseIndex (indexPrefix : string) (addr : bytes) : M (option string) :=
  value ← read (indexPrefix +:+ AddressHex addr);
  mret (bytes_str <$> value).

Definition genericAdd (ks : Keys) (addrHex : string) (data : bytes) : M unit :=
  count ← genericGetCount (countKey ks);
  let newID := u64 (count + 1) in
  let paddedID := padEntityID newID in
  write_batch [BPut (dataPrefix ks +:+ paddedID) data;
               BPut (indexPrefix ks +:+ addrHex) (str_bytes paddedID);
               putCount (countKey ks) newID].

Definition genericRemove (ks : Keys) (addr : bytes) (getLastAddr : bytes → option bytes) : M unit :=
  idx ← genericGetReverseIndex (indexPrefix ks) addr;
  match idx with
  | None => c_fail ErrAbsent
  | Some paddedID =>
    match unpadEntityID paddedID with
    | None => c_fail ErrParse
    | Some foundID =>
      count ← genericGetCount (countKey ks);
      let drop_index := BDelete (indexPrefix ks +:+ AddressHex addr) in
      let dec_count := putCount (countKey ks) (u64 (count - 1)) in
      if (foundID =? count)%Z then
        write_batch [drop_index; BDelete (dataPrefix ks +:+ paddedID); dec_count]
      else
        let lastDataKey := dataPrefix ks +:+ padEntityID count in
        lastBytes ← read lastDataKey;
        match lastBytes with
        | None => c_fail ErrMissingEntry
        | Some lastBytes =>
          match getLastAddr lastBytes with
          | None => c_fail ErrUnmarshal
          | Some lastAddr =>
            write_batch [drop_index;
                         BPut (dataPrefix ks +:+ paddedID) lastBytes;
                         BPut (indexPrefix ks +:+ AddressHex lastAddr) (str_bytes paddedID);
                         BDelete lastDataKey; dec_count]
          end
        end
    end
  end.

(** The loop of [genericScan] over the ids [startID .. endID]. *)
Fixpoint scan_ids `{Proto T} (dataPrefix : string) (ids : list Z) : M (list T) :=
  match ids with
  | [] => mret []
  | id :: ids =>
    value ← read (dataPrefix +:+ padEntityID id);
    match value with
    | None => scan_ids dataPrefix ids
    | Some v =>
      match proto_Unmarshal v with
      | None => c_fail ErrUnmarshal
      | Some msg => rest ← scan_ids dataPrefix ids; mret (msg :: rest)
      end
    end
  end.

(** [make] panics on a negative capacity. *)
Definition genericScan `{Proto T} (dataPrefix : string) (count startID endID : Z) : M (list T) :=
  if (i64 (endID - startID + 1) <? 0)%Z then c_panic
  else scan_ids dataPrefix (seqZ startID (endID - startID + 1)).

(** The four [Add], [Remove], [Has] and page functions have one shape each. *)
Definition add_entry `{Entry T, Proto T} (ks : Keys) (now : Z) (addr addedBy : bytes) : M unit :=
  idx ← genericGetReverseIndex (indexPrefix ks) addr;
  match idx with
  | Some _ => c_fail ErrExists
  | None => genericAdd ks (AddressHex addr) (proto_Marshal (mk_entry (T := T) addr now addedBy))
  end.

Definition last_address `{Entry T, Proto T} (b : bytes) : option bytes :=
  BytesToAddress ∘ entry_address <$> (proto_Unmarshal b : option T).

Definition remove_entry `{Entry T, Proto T} (ks : Keys) (addr : bytes) : M unit :=
  genericRemove ks addr (last_address (T := T)).

Definition has_entry (ks : Keys) (addr : bytes) : M bool :=
  idx ← genericGetReverseIndex (indexPrefix ks) addr;
  mret (bool_decide (is_Some idx)).

Definition get_page `{Proto T} (ks : Keys) (page pageSize : Z) : M (list T * Z) :=
  count ← genericGetCount (countKey ks);
  let total := i64 count in
  match paginateRange page pageSize count with
  | None => mret ([], total)
  | Some (startID, endID) =>
    items ← genericScan (dataPrefix ks) count startID endID;
    mret (items, total)
  end.

Context `{Proto ContractFreeGasData} `{Proto AuthorizedWalletData} `{Proto AdminData}.

Definition AddContract := add_entry (T := ContractFreeGasData) contract_keys.
Definition RemoveContract := remove_entry (T := ContractFreeGasData) contract_keys.
Definition HasContract := has_entry contract_keys.
Definition GetContracts := get_page (T := ContractFreeGasData) contract_keys.
Definition GetTotalCount := genericGetCount (countKey contract_keys).
Definition AddWallet := add_entry (T := AuthorizedWalletData) wallet_keys.
Definition RemoveWallet := remove_entry (T := AuthorizedWalletData) wallet_keys.
Definition IsAuthorized := has_entry wallet_keys.
Definition GetWallets := get_page (T := AuthorizedWalletData) wallet_keys.
Definition AddHelpPayWallet := add_entry (T := AuthorizedWalletData) help_pay_keys.
Definition RemoveHelpPayWallet := remove_entry (T := AuthorizedWalletData) help_pay_keys.
Definition IsHelpPayWallet := has_entry help_pay_keys.
Definition GetHelpPayWallets := get_page (T := AuthorizedWalletData) help_pay_keys.
Definition AddAdmin := add_entry (T := AdminData) admin_keys.
Definition RemoveAdmin := remove_entry (T := AdminData) admin_keys.
Definition IsAdmin := has_entry admin_keys.
Definition GetAdmins := get_page (T := AdminData) admin_keys.

Definition GetContract (addr : bytes) : M ContractFreeGasData :=
  idx ← genericGetReverseIndex (indexPrefix contract_keys) addr;
  match idx with
  | None => c_fail ErrAbsent
  | Some paddedID =>
    value ← read (dataPrefix contract_keys +:+ paddedID);
    match value with
    | None => c_fail ErrMissingEntry
    | Some v => match proto_Unmarshal v with Some d => mret d | None => c_fail ErrUnmarshal end
    end
  end.

(** Configuration values; [GetAppConfig] passes every error on. *)
Definition PREFIX_APP_CONFIG : string := "app_cfg:".
Definition SaveAppConfig (key : string) (value : bytes) : M unit := write_batch [BPut (PREFIX_APP_CONFIG +:+ key) value].
Definition GetAppConfig (key : string) : M bytes :=
  value ← read (PREFIX_APP_CONFIG +:+ key);
  match value with Some v => mret v | None => c_fail ErrAbsent end.

(** [GetContractsByAdder]: a full scan, then a slice of the matches. *)
Definition GetContractsByAdder (adder : bytes) (page pageSize : Z) : M (list ContractFreeGasData * Z) :=
  count ← genericGetCount (countKey contract_keys);
  all ← scan_ids (dataPrefix contract_keys) (seqZ 1 count);
  let matched := filter (λ d : ContractFreeGasData, BytesToAddress (cfg_AddedBy d) = adder) all in
  let total := Z.of_nat (length matched) in
  let start := i64 (page * pageSize) in
  if (total <=? start)%Z then mret ([], total)
  else
    let end_ := i64 (start + pageSize) in
    let end_ := if (total <? end_)%Z then total else end_ in
    if (start <? 0)%Z || (end_ <? start)%Z then c_panic
    else mret (take (Z.to_nat (end_ - start)) (drop (Z.to_nat start) matched), total).

End FreeGas.
