(* ===== verification/FreeGasRefine.v ===== *)
(** * The free-gas lists as lists

    [Lists ks m l]: the store contents [m] hold exactly the list [l] under the keys
    [ks].  Every operation either does what its list counterpart does or fails
    without a change, and fails only when it must or when the store failed. *)

From S2P Require Import Prelude Interfaces GoLib LevelDB FreeGas.
From Stdlib Require Import Strings.Byte.

Lemma unpad_pad id : (0 ≤ id < 2 ^ 64)%Z → unpadEntityID (padEntityID id) = Some id.
Proof.
  intros Hid. unfold unpadEntityID, padEntityID. cbv zeta.
  destruct (_ <=? _)%nat; [|by apply ParseUint_padded]. by apply (ParseUint_padded 0).
Qed.

Lemma pad_inj a b : (0 ≤ a < 2 ^ 64)%Z → (0 ≤ b < 2 ^ 64)%Z → padEntityID a = padEntityID b → a = b.
Proof. intros Ha Hb E. pose proof (unpad_pad a Ha) as Ea. rewrite E, unpad_pad in Ea by done. congruence. Qed.

(** The key families of one list do not overlap. *)
Definition keys_ok (ks : Keys) : Prop :=
  diverge (dataPrefix ks) (indexPrefix ks) = true ∧ diverge (countKey ks) (dataPrefix ks) = true ∧
  diverge (countKey ks) (indexPrefix ks) = true.

(** [k] is a key of the list [ks]. *)
Definition owns (ks : Keys) (k : string) : Prop :=
  k = countKey ks ∨ (∃ a, k = dataPrefix ks +:+ a) ∨ (∃ a, k = indexPrefix ks +:+ a).

Definition keys_apart (ks ks' : Keys) : Prop := ∀ k, owns ks k → ¬ owns ks' k.

(** Removing position [i] by moving the last element into it. *)
Definition swap_remove {A} (i : nat) (l : list A) : list A :=
  match last l with
  | Some y => take (length l - 1) (<[i := y]> l)
  | None => l
  end.

Lemma swap_remove_length {A} i (l : list A) : i < length l → length (swap_remove i l) = length l - 1.
Proof.
  intros Hi. unfold swap_remove. destruct (last l) eqn:E; [|apply last_None in E; by subst].
  rewrite length_take, length_insert. lia.
Qed.

Lemma swap_remove_lookup {A} i (l : list A) y j : i < length l → last l = Some y → j < length l - 1 →
  swap_remove i l !! j = if decide (j = i) then Some y else l !! j.
Proof.
  intros Hi Hy Hj. unfold swap_remove. rewrite Hy, lookup_take_lt by done.
  destruct (decide (j = i)) as [->|]; [by rewrite list_lookup_insert_eq|by rewrite list_lookup_insert_ne].
Qed.

(** Everything but the element at [i] stays. *)
Lemma swap_remove_perm {A} i (l : list A) x : l !! i = Some x → x :: swap_remove i l ≡ₚ l.
Proof.
  intros Hi. pose proof (lookup_lt_Some _ _ _ Hi) as Hlt. unfold swap_remove.
  destruct l as [|z l _] using rev_ind; [done|].
  rewrite last_snoc, length_app, Nat.add_sub. rewrite length_app in Hlt. simpl in *.
  destruct (decide (i = length l)) as [->|].
  - rewrite list_lookup_middle in Hi by done. injection Hi as ->.
    rewrite insert_app_r_alt by lia. rewrite take_app_length. rewrite Permutation_app_comm. done.
  - rewrite lookup_app_l in Hi by lia. rewrite insert_app_l by lia.
    rewrite take_app_le by (rewrite length_insert; lia). rewrite take_ge by (rewrite length_insert; lia).
    rewrite <- (take_drop_middle l i x Hi) at 2. rewrite insert_take_drop by lia.
    rewrite <- !app_assoc. simpl. rewrite Permutation_cons_append.
    solve_Permutation.
Qed.

Section Lists.
Context `{LevelDBLaws St} `{EthAddressLaws} `{Entry T} `{ProtoLaws T}.

Definition addr (x : T) : bytes := BytesToAddress (entry_address x).

Definition data_key (ks : Keys) (i : nat) : string := dataPrefix ks +:+ padEntityID (Z.of_nat i + 1).
Definition index_key (ks : Keys) (a : bytes) : string := indexPrefix ks +:+ AddressHex a.
Definition index_value (i : nat) : bytes := str_bytes (padEntityID (Z.of_nat i + 1)).

Record Lists (ks : Keys) (m : gmap string bytes) (l : list T) : Prop := {
  lists_bound : (Z.of_nat (length l) < 2 ^ 63)%Z;
  lists_nodup : NoDup (addr <$> l);
  lists_count : m !! countKey ks = Some (PutUint64 (Z.of_nat (length l))) ∨
                (m !! countKey ks = None ∧ l = []);
  lists_data i x : l !! i = Some x → m !! data_key ks i = Some (proto_Marshal x);
  lists_no_data i : length l ≤ i → (Z.of_nat i < 2 ^ 63)%Z → m !! data_key ks i = None;
  lists_index i x : l !! i = Some x → m !! index_key ks (addr x) = Some (index_value i);
  lists_no_index a : length a = 20 → a ∉ addr <$> l → m !! index_key ks a = None;
}.

(** A store none of whose keys belong to the list holds the empty list. *)
Lemma lists_empty ks m : (∀ k, owns ks k → m !! k = None) → Lists ks m [].
Proof.
  intros Hm. unfold data_key, index_key. split; try done.
  - constructor.
  - right. split; [|done]. apply Hm. by left.
  - intros i _ _. apply Hm. right. left. eauto.
  - intros a _ _. apply Hm. right. right. eauto.
Qed.

(** Writes outside the list's keys leave it alone. *)
Lemma lists_frame ks m m' l : (∀ k, owns ks k → m' !! k = m !! k) → Lists ks m l → Lists ks m' l.
Proof.
  intros Hm [Hb Hnd Hc Hd Hnd' Hi Hni]. unfold data_key, index_key in *.
  assert (m' !! countKey ks = m !! countKey ks) as Ec by (apply Hm; by left).
  assert (∀ a, m' !! (dataPrefix ks +:+ a) = m !! (dataPrefix ks +:+ a)) as Ed
    by (intros a; apply Hm; right; left; eauto).
  assert (∀ a, m' !! (indexPrefix ks +:+ a) = m !! (indexPrefix ks +:+ a)) as Ei
    by (intros a; apply Hm; right; right; eauto).
  split; unfold data_key, index_key; try done; intros; rewrite ?Ec, ?Ed, ?Ei; eauto.
Qed.

(** Keys of one list. *)
Lemma data_index_ne ks a b : keys_ok ks → dataPrefix ks +:+ a ≠ indexPrefix ks +:+ b.
Proof. intros (Hd & _). by apply diverge_ne. Qed.
Lemma count_data_ne ks a : keys_ok ks → countKey ks ≠ dataPrefix ks +:+ a.
Proof. intros (_ & Hd & _). by apply diverge_ne_l. Qed.
Lemma count_index_ne ks a : keys_ok ks → countKey ks ≠ indexPrefix ks +:+ a.
Proof. intros (_ & _ & Hd). by apply diverge_ne_l. Qed.

Lemma data_key_ne ks i j : (Z.of_nat i < 2 ^ 63)%Z → (Z.of_nat j < 2 ^ 63)%Z → i ≠ j →
  data_key ks i ≠ data_key ks j.
Proof.
  intros Hi Hj Hne E. apply str_app_inj_l in E. apply pad_inj in E; lia.
Qed.

Lemma index_key_ne ks a b : length a = 20 → length b = 20 → a ≠ b → index_key ks a ≠ index_key ks b.
Proof. intros Ha Hb Hne E. apply Hne. apply str_app_inj_l in E. by apply AddressHex_inj. Qed.

Lemma addr_length x : length (addr x) = 20.
Proof. apply BytesToAddress_length. Qed.

(** ** Operations that may fail with the store *)

(** [c] returns [a] from [s] without a change, or the store failed to read. *)
Definition reads {A} (c : M (St := St) A) (s : St) (a : A) : Prop :=
  c s = (Ok a, s) ∨ (c s = (Fail ErrRead, s) ∧ ldb_fault s).

(** [c] succeeds from [s] and leaves contents that satisfy [P], or the store failed and
    nothing changed. *)
Definition updates (c : M (St := St) unit) (s : St) (P : gmap string bytes → Prop) : Prop :=
  (∃ s', c s = (Ok tt, s') ∧ P (contents s')) ∨
  ((c s = (Fail ErrRead, s) ∨ c s = (Fail ErrWrite, s)) ∧ ldb_fault s).

(** [c] fails with [e] from [s] without a change, or the store failed to read. *)
Definition rejects {A} (c : M (St := St) A) (s : St) (e : fg_error) : Prop :=
  c s = (Fail e, s) ∨ (c s = (Fail ErrRead, s) ∧ ldb_fault s).

Lemma read_reads k s : reads (read k) s (contents s !! k).
Proof.
  unfold reads, read. pose proof (ldb_get_content k s) as Hg.
  destruct (contents s !! k), Hg as [E|E]; rewrite E; [by left| |by left|];
    (right; split; [done|]; left; eauto).
Qed.

Lemma reads_bind {A B} (c : M A) (k : A → M B) s a b :
  reads c s a → reads (k a) s b → reads (c ≫= k) s b.
Proof.
  unfold reads, mbind, M_bind, comp_bind. intros [E|[E Hf]] Hk; rewrite E; [done|by right].
Qed.

Lemma reads_bind_updates {A} (c : M A) (k : A → M unit) s a P :
  reads c s a → updates (k a) s P → updates (c ≫= k) s P.
Proof.
  unfold reads, updates, mbind, M_bind, comp_bind. intros [E|[E Hf]] Hk; rewrite E; [done|right; auto].
Qed.

Lemma reads_bind_rejects {A B} (c : M A) (k : A → M B) s a e :
  reads c s a → rejects (k a) s e → rejects (c ≫= k) s e.
Proof.
  unfold reads, rejects, mbind, M_bind, comp_bind. intros [E|[E Hf]] Hk; rewrite E; [done|by right].
Qed.

Lemma reads_ret {A} (a : A) s : reads (mret a) s a.
Proof. by left. Qed.

Lemma rejects_fail {A} s e : rejects (A := A) (c_fail e) s e.
Proof. by left. Qed.

Lemma write_batch_updates ops s (P : gmap string bytes → Prop) :
  P (apply_batch ops (contents s)) → updates (write_batch ops) s P.
Proof.
  intros HP. unfold updates, write_batch. destruct (ldb_Write ops s) as [s'|] eqn:E.
  - left. exists s'. split; [done|]. by rewrite (ldb_written _ _ _ E).
  - right. split; [by right|]. right. eauto.
Qed.

(** ** The list operations *)

Context (ks : Keys) (Hks : keys_ok ks).

Lemma count_reads s l : Lists ks (contents s) l →
  reads (genericGetCount (countKey ks)) s (Z.of_nat (length l)).
Proof.
  intros HL. eapply reads_bind; [apply read_reads|]. pose proof (lists_bound _ _ _ HL).
  destruct (lists_count _ _ _ HL) as [->|[-> ->]]; [|by apply reads_ret].
  rewrite Uint64_PutUint64 by lia. apply reads_ret.
Qed.

Lemma index_reads s l a : Lists ks (contents s) l → length a = 20 →
  (∃ i x, l !! i = Some x ∧ addr x = a ∧
     reads (genericGetReverseIndex (indexPrefix ks) a) s (Some (padEntityID (Z.of_nat i + 1)))) ∨
  (a ∉ addr <$> l ∧ reads (genericGetReverseIndex (indexPrefix ks) a) s None).
Proof.
  intros HL Ha. destruct (decide (a ∈ addr <$> l)) as [Hin|Hnin].
  - left. apply list_elem_of_fmap in Hin as (x & -> & Hin). apply list_elem_of_lookup in Hin as [i Hi].
    exists i, x. split; [done|]. split; [done|]. eapply reads_bind; [apply read_reads|].
    pose proof (lists_index _ _ _ HL i x Hi) as E. unfold index_key in E. rewrite E. simpl.
    unfold index_value. rewrite str_bytes_inv. apply reads_ret.
  - right. split; [done|]. eapply reads_bind; [apply read_reads|].
    pose proof (lists_no_index _ _ _ HL a Ha Hnin) as E. unfold index_key in E. rewrite E. apply reads_ret.
Qed.

(** What an operation on this list does not touch. *)
Definition only_touches (m m' : gmap string bytes) : Prop := ∀ k, ¬ owns ks k → m' !! k = m !! k.

Lemma owns_count : owns ks (countKey ks).
Proof. by left. Qed.
Lemma owns_data a : owns ks (dataPrefix ks +:+ a).
Proof. right. left. eauto. Qed.
Lemma owns_index a : owns ks (indexPrefix ks +:+ a).
Proof. right. right. eauto. Qed.

Lemma lists_add m l x : Lists ks m l → addr x ∉ addr <$> l → (Z.of_nat (length l) + 1 < 2 ^ 63)%Z →
  let m' := apply_batch [BPut (data_key ks (length l)) (proto_Marshal x);
                         BPut (index_key ks (addr x)) (index_value (length l));
                         putCount (countKey ks) (Z.of_nat (length l) + 1)] m in
  Lists ks m' (l ++ [x]) ∧ only_touches m m'.
Proof.
  intros HL Hx Hb m'. pose proof (addr_length x) as Hax.
  assert (m' = <[countKey ks := PutUint64 (Z.of_nat (length l) + 1)]>
    (<[index_key ks (addr x) := index_value (length l)]>
    (<[data_key ks (length l) := proto_Marshal x]> m))) as Em by done.
  split.
  2: { intros k Hk. rewrite Em. rewrite !lookup_insert_ne; [done|..]; intros <-; apply Hk;
       [apply owns_data|apply owns_index|apply owns_count]. }
  assert (∀ i, data_key ks i ≠ countKey ks) as Ndc by (intros i E; by eapply count_data_ne).
  assert (∀ a, index_key ks a ≠ countKey ks) as Nic by (intros a E; by eapply count_index_ne).
  assert (∀ i a, data_key ks i ≠ index_key ks a) as Ndi by (intros i a; by apply data_index_ne).
  split.
  - rewrite length_app. simpl. lia.
  - rewrite fmap_app. apply NoDup_app. split; [apply HL|]. split; [|apply NoDup_singleton].
    intros a Ha Hs. apply list_elem_of_singleton in Hs as ->. done.
  - left. rewrite Em, lookup_insert_eq, length_app. do 2 f_equal. simpl. lia.
  - intros i y Hi. rewrite Em, !(lookup_insert_ne _ _ (data_key ks i)) by (by try apply not_eq_sym).
    destruct (decide (i = length l)) as [->|Hne].
    + rewrite lookup_insert_eq. rewrite list_lookup_middle in Hi by done. congruence.
    + pose proof (lookup_lt_Some _ _ _ Hi) as Hlt. rewrite length_app in Hlt. simpl in Hlt.
      rewrite lookup_insert_ne by (apply data_key_ne; lia). rewrite lookup_app_l in Hi by lia. by apply HL.
  - intros i Hi Hb'. rewrite length_app in Hi. simpl in Hi.
    rewrite Em, !(lookup_insert_ne _ _ (data_key ks i)); [apply HL; lia|..]; [apply data_key_ne; lia|by apply not_eq_sym..].
  - intros i y Hi. rewrite Em, lookup_insert_ne by (by apply not_eq_sym).
    destruct (decide (i = length l)) as [->|Hne].
    + rewrite list_lookup_middle in Hi by done. injection Hi as ->. by rewrite lookup_insert_eq.
    + pose proof (lookup_lt_Some _ _ _ Hi) as Hlt. rewrite length_app in Hlt. simpl in Hlt.
      rewrite lookup_app_l in Hi by lia. rewrite lookup_insert_ne.
      * rewrite lookup_insert_ne by done. by apply HL.
      * apply index_key_ne; [apply addr_length..|]. intros E. apply Hx. rewrite E.
        apply list_elem_of_fmap. exists y. split; [done|]. by eapply list_elem_of_lookup_2.
  - intros a Ha Hn. rewrite fmap_app, not_elem_of_app in Hn. destruct Hn as [Hn Hn'].
    rewrite Em, lookup_insert_ne by (by apply not_eq_sym). rewrite lookup_insert_ne.
    + rewrite lookup_insert_ne by done. by apply HL.
    + apply index_key_ne; [apply addr_length|done|]. intros E. apply Hn'. simpl. rewrite E. left.
Qed.

(** Pointwise effect of a removal on the store. *)
Lemma lists_removed m m' l i x y : Lists ks m l → l !! i = Some x → last l = Some y →
  m' !! countKey ks = Some (PutUint64 (Z.of_nat (length l - 1))) →
  (∀ j, j < length l - 1 → m' !! data_key ks j =
     if decide (j = i) then Some (proto_Marshal y) else m !! data_key ks j) →
  (∀ j, length l - 1 ≤ j → (Z.of_nat j < 2 ^ 63)%Z → m' !! data_key ks j = None) →
  (∀ b, length b = 20 → m' !! index_key ks b = if decide (b = addr x) then None
     else if decide (b = addr y) then Some (index_value i) else m !! index_key ks b) →
  Lists ks m' (swap_remove i l).
Proof.
  intros HL Hi Hy F1 F2 F3 F4. pose proof (lookup_lt_Some _ _ _ Hi) as Hlt.
  pose proof (lists_bound _ _ _ HL) as Hb. pose proof (lists_nodup _ _ _ HL) as Hnd.
  pose proof (swap_remove_length i l Hlt) as Hlen.
  pose proof (swap_remove_perm i l x Hi) as Hp.
  assert (NoDup (addr x :: (addr <$> swap_remove i l))) as Hnd'.
  { change (NoDup (addr <$> x :: swap_remove i l)). by rewrite Hp. }
  apply NoDup_cons in Hnd' as [Hx Hnd'].
  assert (∀ j z, l !! j = Some z → addr z = addr y → j = length l - 1) as Huniq.
  { intros j z Hj E. rewrite last_lookup in Hy. replace (pred (length l)) with (length l - 1) in Hy by lia.
    eapply (NoDup_lookup (addr <$> l)); [done|..]; rewrite list_lookup_fmap.
    - by rewrite Hj.
    - rewrite Hy. simpl. by rewrite E. }
  split.
  - rewrite Hlen. lia.
  - done.
  - left. by rewrite Hlen.
  - intros j z Hj. pose proof (lookup_lt_Some _ _ _ Hj) as Hjlt. rewrite Hlen in Hjlt.
    rewrite F2 by done. rewrite (swap_remove_lookup i l y j) in Hj by done.
    destruct (decide (j = i)); [congruence|by apply HL].
  - intros j Hj Hj'. rewrite Hlen in Hj. by apply F3.
  - intros j z Hj. pose proof (lookup_lt_Some _ _ _ Hj) as Hjlt. rewrite Hlen in Hjlt.
    rewrite F4 by apply addr_length. destruct (decide (addr z = addr x)) as [E|].
    { destruct Hx. rewrite <- E. apply list_elem_of_fmap. exists z. split; [done|]. by eapply list_elem_of_lookup_2. }
    rewrite (swap_remove_lookup i l y j) in Hj by done. destruct (decide (addr z = addr y)) as [E|Hne].
    + destruct (decide (j = i)) as [->|]; [done|]. apply (Huniq j z Hj) in E. lia.
    + destruct (decide (j = i)) as [->|]; [congruence|]. by apply HL.
  - intros a Ha Hn. rewrite F4 by done. destruct (decide (a = addr x)) as [->|Hax]; [done|].
    destruct (decide (a = addr y)) as [->|Hay].
    + destruct Hn. destruct (decide (i = length l - 1)) as [->|Hne].
      * rewrite last_lookup in Hy. replace (pred (length l)) with (length l - 1) in Hy by lia. congruence.
      * apply list_elem_of_fmap. exists y. split; [done|]. apply (list_elem_of_lookup_2 _ i).
        rewrite (swap_remove_lookup i l y) by (done || lia). by rewrite decide_True.
    + apply HL; [done|]. rewrite <- Hp. simpl. rewrite not_elem_of_cons. done.
Qed.

Lemma lists_remove_last m l i x : Lists ks m l → l !! i = Some x → i = length l - 1 →
  let m' := apply_batch [BDelete (index_key ks (addr x)); BDelete (data_key ks i);
                         putCount (countKey ks) (Z.of_nat (length l) - 1)] m in
  Lists ks m' (swap_remove i l) ∧ only_touches m m'.
Proof.
  intros HL Hi Hlast m'. pose proof (lookup_lt_Some _ _ _ Hi) as Hlt. pose proof (lists_bound _ _ _ HL) as Hb.
  assert (m' = <[countKey ks := PutUint64 (Z.of_nat (length l) - 1)]>
    (base.delete (data_key ks i) (base.delete (index_key ks (addr x)) m))) as Em by done.
  assert (∀ i, countKey ks ≠ data_key ks i) as Ndc by (intros j; by apply count_data_ne).
  assert (∀ a, countKey ks ≠ index_key ks a) as Nic by (intros a; by apply count_index_ne).
  assert (∀ i a, data_key ks i ≠ index_key ks a) as Ndi by (intros j a; by apply data_index_ne).
  split.
  2: { intros k Hk. rewrite Em. rewrite lookup_insert_ne, !lookup_delete_ne; [done|..]; intros <-; apply Hk;
       [apply owns_index|apply owns_data|apply owns_count]. }
  apply (lists_removed m m' l i x x HL Hi); rewrite ?Em.
  - rewrite last_lookup. by replace (pred (length l)) with i by lia.
  - rewrite lookup_insert_eq. do 2 f_equal. lia.
  - intros j Hj. rewrite decide_False by lia. rewrite lookup_insert_ne, !lookup_delete_ne; try done.
    apply data_key_ne; lia.
  - intros j Hj Hj'. rewrite lookup_insert_ne by done. destruct (decide (j = i)) as [->|].
    + by rewrite lookup_delete_eq.
    + rewrite !lookup_delete_ne; [apply HL; lia|by apply not_eq_sym|apply data_key_ne; lia].
  - intros b Hlb. rewrite lookup_insert_ne, lookup_delete_ne by done.
    destruct (decide (b = addr x)) as [->|Hne]; [by rewrite lookup_delete_eq|].
    rewrite lookup_delete_ne; [done|]. apply index_key_ne; [apply addr_length|done|congruence].
Qed.

Lemma lists_remove_swap m l i x y : Lists ks m l → l !! i = Some x → last l = Some y → i ≠ length l - 1 →
  let m' := apply_batch [BDelete (index_key ks (addr x)); BPut (data_key ks i) (proto_Marshal y);
                         BPut (index_key ks (addr y)) (index_value i);
                         BDelete (data_key ks (length l - 1));
                         putCount (countKey ks) (Z.of_nat (length l) - 1)] m in
  Lists ks m' (swap_remove i l) ∧ only_touches m m'.
Proof.
  intros HL Hi Hy Hlast m'. pose proof (lookup_lt_Some _ _ _ Hi) as Hlt. pose proof (lists_bound _ _ _ HL) as Hb.
  assert (m' = <[countKey ks := PutUint64 (Z.of_nat (length l) - 1)]>
    (base.delete (data_key ks (length l - 1)) (<[index_key ks (addr y) := index_value i]>
    (<[data_key ks i := proto_Marshal y]> (base.delete (index_key ks (addr x)) m))))) as Em by done.
  assert (∀ i, countKey ks ≠ data_key ks i) as Ndc by (intros j; by apply count_data_ne).
  assert (∀ a, countKey ks ≠ index_key ks a) as Nic by (intros a; by apply count_index_ne).
  assert (∀ i a, data_key ks i ≠ index_key ks a) as Ndi by (intros j a; by apply data_index_ne).
  assert (addr x ≠ addr y) as Hxy.
  { intros E. apply Hlast. eapply (NoDup_lookup (addr <$> l)); [apply HL|..]; rewrite list_lookup_fmap.
    - by rewrite Hi.
    - rewrite last_lookup in Hy. replace (pred (length l)) with (length l - 1) in Hy by lia.
      rewrite Hy. simpl. by rewrite E. }
  split.
  2: { intros k Hk. rewrite Em.
       rewrite lookup_insert_ne, lookup_delete_ne, !lookup_insert_ne, lookup_delete_ne; [done|..]; intros <-; apply Hk;
       first [apply owns_index|apply owns_data|apply owns_count]. }
  apply (lists_removed m m' l i x y HL Hi Hy); rewrite ?Em.
  - rewrite lookup_insert_eq. do 2 f_equal. lia.
  - intros j Hj. rewrite lookup_insert_ne, lookup_delete_ne, lookup_insert_ne; try done.
    + destruct (decide (j = i)) as [->|]; [by rewrite lookup_insert_eq|].
      rewrite lookup_insert_ne, lookup_delete_ne; try done. apply data_key_ne; lia.
    + apply data_key_ne; lia.
  - intros j Hj Hj'. rewrite lookup_insert_ne by done.
    destruct (decide (j = length l - 1)) as [->|]; [by rewrite lookup_delete_eq|].
    rewrite lookup_delete_ne by (apply data_key_ne; lia). rewrite lookup_insert_ne by (by apply not_eq_sym).
    rewrite lookup_insert_ne by (apply data_key_ne; lia). rewrite lookup_delete_ne by (by apply not_eq_sym).
    apply HL; lia.
  - intros b Hlb. rewrite lookup_insert_ne, lookup_delete_ne by done.
    destruct (decide (b = addr y)) as [->|Hne].
    + rewrite lookup_insert_eq. by rewrite decide_False.
    + rewrite !lookup_insert_ne; [|done|apply index_key_ne; [apply addr_length|done|congruence]].
      destruct (decide (b = addr x)) as [->|]; [by rewrite lookup_delete_eq|].
      rewrite lookup_delete_ne; [done|]. apply index_key_ne; [apply addr_length|done|congruence].
Qed.

Lemma add_entry_refines s l a by_ now : Lists ks (contents s) l → length a = 20 →
  (Z.of_nat (length l) + 1 < 2 ^ 63)%Z → a ∉ addr <$> l →
  updates (add_entry (T := T) ks now a by_) s (λ m',
    Lists ks m' (l ++ [mk_entry a now by_]) ∧ only_touches (contents s) m').
Proof.
  intros HL Ha Hb Hn. destruct (index_reads s l a HL Ha) as [(i & x & Hi & Hx & _)|[_ Hr]].
  { destruct Hn. rewrite <- Hx. apply list_elem_of_fmap. exists x. split; [done|]. by eapply list_elem_of_lookup_2. }
  eapply reads_bind_updates; [exact Hr|]. eapply reads_bind_updates; [by apply count_reads|].
  cbv zeta. rewrite u64_small by lia. apply write_batch_updates.
  assert (addr (mk_entry a now by_ : T) = a) as Ea.
  { unfold addr. rewrite entry_address_mk. by apply BytesToAddress_20. }
  pose proof (lists_add (contents s) l (mk_entry a now by_) HL) as Hadd. rewrite Ea in Hadd.
  by apply Hadd.
Qed.

Lemma add_entry_rejects s l a by_ now : Lists ks (contents s) l → length a = 20 → a ∈ addr <$> l →
  rejects (add_entry (T := T) ks now a by_) s ErrExists.
Proof.
  intros HL Ha Hin. destruct (index_reads s l a HL Ha) as [(i & x & Hi & Hx & Hr)|[Hn _]]; [|done].
  eapply reads_bind_rejects; [exact Hr|]. apply rejects_fail.
Qed.

Lemma remove_entry_rejects s l a : Lists ks (contents s) l → length a = 20 → a ∉ addr <$> l →
  rejects (remove_entry (T := T) ks a) s ErrAbsent.
Proof.
  intros HL Ha Hn. destruct (index_reads s l a HL Ha) as [(i & x & Hi & Hx & _)|[_ Hr]].
  { destruct Hn. rewrite <- Hx. apply list_elem_of_fmap. exists x. split; [done|]. by eapply list_elem_of_lookup_2. }
  eapply reads_bind_rejects; [exact Hr|]. apply rejects_fail.
Qed.

Lemma remove_entry_refines s l i x : Lists ks (contents s) l → l !! i = Some x →
  updates (remove_entry (T := T) ks (addr x)) s (λ m',
    Lists ks m' (swap_remove i l) ∧ only_touches (contents s) m').
Proof.
  intros HL Hi. pose proof (lookup_lt_Some _ _ _ Hi) as Hlt. pose proof (lists_bound _ _ _ HL) as Hb.
  destruct (index_reads s l (addr x) HL (addr_length x)) as [(j & x' & Hj & Hx' & Hr)|[Hn _]].
  2: { destruct Hn. apply list_elem_of_fmap. exists x. split; [done|]. by eapply list_elem_of_lookup_2. }
  assert (j = i) as ->.
  { eapply (NoDup_lookup (addr <$> l)); [apply HL|..]; rewrite list_lookup_fmap; [by rewrite Hj|].
    rewrite Hi. simpl. by rewrite Hx'. }
  clear x' Hj Hx'.
  eapply reads_bind_updates; [exact Hr|]. cbv beta match. rewrite unpad_pad by lia.
  eapply reads_bind_updates; [by apply count_reads|]. cbv zeta. rewrite u64_small by lia.
  destruct (Z.eqb_spec (Z.of_nat i + 1) (Z.of_nat (length l))) as [E|E].
  - apply write_batch_updates. apply (lists_remove_last (contents s) l i x HL Hi). lia.
  - destruct (last l) as [y|] eqn:Hy; [|apply last_None in Hy; by subst].
    assert (l !! (length l - 1) = Some y) as Hy'.
    { rewrite last_lookup in Hy. by replace (pred (length l)) with (length l - 1) in Hy by lia. }
    eapply reads_bind_updates; [apply read_reads|].
    pose proof (lists_data _ _ _ HL _ _ Hy') as Hd. unfold data_key in Hd.
    replace (Z.of_nat (length l - 1) + 1)%Z with (Z.of_nat (length l)) in Hd by lia. rewrite Hd.
    unfold last_address. rewrite proto_roundtrip. cbn [fmap option_fmap option_map compose].
    apply write_batch_updates.
    pose proof (lists_remove_swap (contents s) l i x y HL Hi Hy ltac:(lia)) as Hsw.
    unfold data_key, index_key, index_value in Hsw.
    replace (Z.of_nat (length l - 1) + 1)%Z with (Z.of_nat (length l)) in Hsw by lia. exact Hsw.
Qed.

Lemma has_entry_reads s l a : Lists ks (contents s) l → length a = 20 →
  reads (has_entry ks a) s (bool_decide (a ∈ addr <$> l)).
Proof.
  intros HL Ha. destruct (index_reads s l a HL Ha) as [(i & x & Hi & Hx & Hr)|[Hn Hr]];
    (eapply reads_bind; [exact Hr|]); cbv beta.
  - rewrite (bool_decide_true (is_Some (Some _))) by done. rewrite bool_decide_true; [apply reads_ret|].
    rewrite <- Hx. apply list_elem_of_fmap. exists x. split; [done|]. by eapply list_elem_of_lookup_2.
  - rewrite (bool_decide_false (is_Some None)) by (by intros [? ?]). rewrite bool_decide_false by done.
    apply reads_ret.
Qed.

(** Scanning a window of ids reads the window of the list. *)
Lemma scan_reads s l k n : Lists ks (contents s) l → k + n ≤ length l →
  reads (scan_ids (T := T) (dataPrefix ks) (seqZ (Z.of_nat k + 1) (Z.of_nat n))) s (take n (drop k l)).
Proof.
  intros HL. revert k. induction n as [|n IH]; intros k Hk; [apply reads_ret|].
  rewrite seqZ_cons by lia. cbn [scan_ids].
  destruct (lookup_lt_is_Some_2 l k) as [x Hx]; [lia|].
  eapply reads_bind; [apply read_reads|]. pose proof (lists_data _ _ _ HL k x Hx) as Hd.
  unfold data_key in Hd. rewrite Hd, proto_roundtrip.
  rewrite (drop_S l x k Hx). cbn [take].
  eapply reads_bind; [|apply reads_ret].
  replace (Z.succ (Z.of_nat k + 1)) with (Z.of_nat (S k) + 1)%Z by lia.
  replace (Z.pred (Z.of_nat (S n))) with (Z.of_nat n) by lia. apply IH. lia.
Qed.

(** A page of the store is the page of the list. *)
Lemma get_page_reads s l (page pageSize : nat) : Lists ks (contents s) l → 0 < pageSize →
  (Z.of_nat ((page + 1) * pageSize) < 2 ^ 63)%Z →
  reads (get_page (T := T) ks (Z.of_nat page) (Z.of_nat pageSize)) s
    (take pageSize (drop (page * pageSize) l), Z.of_nat (length l)).
Proof.
  intros HL Hps Hov. pose proof (lists_bound _ _ _ HL) as Hb.
  eapply reads_bind; [by apply count_reads|]. cbv beta zeta. rewrite (i64_small (Z.of_nat (length l))) by lia.
  unfold paginateRange. rewrite <- !Nat2Z.inj_mul. rewrite !i64_small by lia.
  replace (Z.of_nat page + 1)%Z with (Z.of_nat (page + 1)) by lia. rewrite <- !Nat2Z.inj_mul.
  assert (page * pageSize ≤ (page + 1) * pageSize) by nia.
  rewrite !u64_small by lia.
  destruct (Z.ltb_spec (Z.of_nat (length l)) (Z.of_nat (page * pageSize) + 1)).
  { rewrite drop_ge, take_nil by lia. apply reads_ret. }
  set (endID := if (_ <? _)%Z then _ else _).
  set (n := Nat.min pageSize (length l - page * pageSize)).
  assert (endID = Z.of_nat (page * pageSize + n)) as ->.
  { unfold endID, n. destruct (Z.ltb_spec (Z.of_nat (length l)) (Z.of_nat ((page + 1) * pageSize))); lia. }
  eapply reads_bind; [|apply reads_ret]. unfold genericScan.
  replace (Z.of_nat (page * pageSize + n) - (Z.of_nat (page * pageSize) + 1) + 1)%Z with (Z.of_nat n) by lia.
  rewrite i64_small by lia. destruct (Z.ltb_spec (Z.of_nat n) 0); [lia|].
  assert (take pageSize (drop (page * pageSize) l) = take n (drop (page * pageSize) l)) as ->.
  { unfold n. destruct (Nat.min_spec pageSize (length l - page * pageSize)) as [[_ ->]|[? ->]]; [done|].
    rewrite !take_ge; [done|rewrite length_drop; lia..]. }
  apply scan_reads; [done|]. lia.
Qed.

End Lists.
