(* ===== verification/FreeGasTheorems.v ===== *)
(** * The free-gas store's contract

    The four lists live in one store; each operation refines its list operation and
    leaves the three other lists alone. *)

From S2P Require Import Prelude Interfaces GoLib LevelDB FreeGas FreeGasRefine.
From Stdlib Require Import Strings.Byte.

Definition key_prefixes (ks : Keys) : list string := [countKey ks; dataPrefix ks; indexPrefix ks].

Definition apartb (ks ks' : Keys) : bool :=
  forallb (λ p, forallb (diverge p) (key_prefixes ks')) (key_prefixes ks).

Lemma owns_prefix ks k : owns ks k → ∃ p a, p ∈ key_prefixes ks ∧ k = p +:+ a.
Proof.
  unfold key_prefixes. intros [->|[[a ->]|[a ->]]].
  - exists (countKey ks), EmptyString. rewrite str_app_nil_r. split; [left|done].
  - exists (dataPrefix ks), a. split; [do 1 right; left|done].
  - exists (indexPrefix ks), a. split; [do 2 right; left|done].
Qed.

Lemma apartb_apart ks ks' : apartb ks ks' = true → keys_apart ks ks'.
Proof.
  intros Hb k (p & a & Hp & ->)%owns_prefix (q & b & Hq & E)%owns_prefix.
  unfold apartb in Hb. rewrite forallb_forall in Hb. specialize (Hb p (proj1 (list_elem_of_In _ _) Hp)).
  rewrite forallb_forall in Hb. specialize (Hb q (proj1 (list_elem_of_In _ _) Hq)).
  by apply (diverge_ne p q a b Hb).
Qed.

Lemma all_keys_ok : keys_ok contract_keys ∧ keys_ok wallet_keys ∧ keys_ok help_pay_keys ∧ keys_ok admin_keys.
Proof. by vm_compute. Qed.

Section Base.
Context `{LevelDBLaws St} `{EthAddressLaws}.
Context `{ProtoLaws ContractFreeGasData} `{ProtoLaws AuthorizedWalletData} `{ProtoLaws AdminData}.

(** The whole store: contracts, authorized wallets, help-pay wallets and admins. *)
Definition FreeGasState (m : gmap string bytes) (cs : list ContractFreeGasData)
    (ws hs : list AuthorizedWalletData) (ads : list AdminData) : Prop :=
  Lists contract_keys m cs ∧ Lists wallet_keys m ws ∧ Lists help_pay_keys m hs ∧ Lists admin_keys m ads.

Lemma updates_impl (c : M (St := St) unit) s (P Q : gmap string bytes → Prop) :
  (∀ m, P m → Q m) → updates c s P → updates c s Q.
Proof. intros HPQ [(s' & E & HP)|Hf]; [left; eauto|by right]. Qed.

Lemma untouched `{Entry T} `{Proto T} ks ks' m m' (l : list T) :
  apartb ks' ks = true → only_touches ks m m' → Lists ks' m l → Lists ks' m' l.
Proof.
  intros Ha Ht. apply lists_frame. intros k Hk. apply Ht. intros Hk'. by eapply (apartb_apart ks' ks).
Qed.

Lemma free_gas_empty : FreeGasState ∅ [] [] [] [].
Proof. split_and!; apply lists_empty; done. Qed.

End Base.

(** The list that was changed, and the lists that were not. *)
Ltac lists_tac HL Ht :=
  split_and!; first [exact HL|eapply untouched; [|exact Ht|eassumption]; vm_compute; reflexivity].

Section Store.
Context `{LevelDBLaws St} `{EthAddressLaws}.
Context `{ProtoLaws ContractFreeGasData} `{ProtoLaws AuthorizedWalletData} `{ProtoLaws AdminData}.

(** Adding a new address to one of the four lists appends its entry to that list, leaves the
    other three unchanged, and fails only if the store does, in which case nothing changes. *)
Theorem free_gas_add s cs ws hs ads now a by_ :
  FreeGasState (contents s) cs ws hs ads → length a = 20 →
  (Z.of_nat (Nat.max (Nat.max (length cs) (length ws)) (Nat.max (length hs) (length ads))) + 1 < 2 ^ 63)%Z →
  (a ∉ addr <$> cs → updates (AddContract now a by_) s
     (λ m, FreeGasState m (cs ++ [mk_entry a now by_]) ws hs ads)) ∧
  (a ∉ addr <$> ws → updates (AddWallet now a by_) s
     (λ m, FreeGasState m cs (ws ++ [mk_entry a now by_]) hs ads)) ∧
  (a ∉ addr <$> hs → updates (AddHelpPayWallet now a by_) s
     (λ m, FreeGasState m cs ws (hs ++ [mk_entry a now by_]) ads)) ∧
  (a ∉ addr <$> ads → updates (AddAdmin now a by_) s
     (λ m, FreeGasState m cs ws hs (ads ++ [mk_entry a now by_]))).
Proof.
  intros (Hc & Hw & Hh & Ha) Hlen Hb. destruct all_keys_ok as (Kc & Kw & Kh & Ka).
  split; [|split; [|split]]; intros Hn.
  - eapply updates_impl; [|apply (add_entry_refines contract_keys Kc s cs); done || lia].
    intros m [HL Ht]. lists_tac HL Ht.
  - eapply updates_impl; [|apply (add_entry_refines wallet_keys Kw s ws); done || lia].
    intros m [HL Ht]. lists_tac HL Ht.
  - eapply updates_impl; [|apply (add_entry_refines help_pay_keys Kh s hs); done || lia].
    intros m [HL Ht]. lists_tac HL Ht.
  - eapply updates_impl; [|apply (add_entry_refines admin_keys Ka s ads); done || lia].
    intros m [HL Ht]. lists_tac HL Ht.
Qed.

(** Adding an address that is already in the list is refused without a change, and membership
    queries answer exactly whether the address is in the list. *)
Theorem free_gas_membership s cs ws hs ads now a by_ :
  FreeGasState (contents s) cs ws hs ads → length a = 20 →
  (a ∈ addr <$> cs → rejects (AddContract now a by_) s ErrExists) ∧
  (a ∉ addr <$> cs → rejects (RemoveContract a) s ErrAbsent) ∧
  reads (HasContract a) s (bool_decide (a ∈ addr <$> cs)) ∧
  reads (IsAuthorized a) s (bool_decide (a ∈ addr <$> ws)) ∧
  reads (IsHelpPayWallet a) s (bool_decide (a ∈ addr <$> hs)) ∧
  reads (IsAdmin a) s (bool_decide (a ∈ addr <$> ads)).
Proof.
  intros (Hc & Hw & Hh & Ha) Hlen. destruct all_keys_ok as (Kc & Kw & Kh & Ka).
  split; [|split]; [by intros; eapply add_entry_rejects|by intros; eapply remove_entry_rejects|].
  split_and!; by apply has_entry_reads.
Qed.

(** C11: Removing an entry takes exactly that entry out of its list, moving the last entry into the
    gap so that ids stay 1..count; the other lists are unchanged and a failing store changes nothing. *)
Theorem free_gas_remove s cs ws hs ads i x :
  FreeGasState (contents s) cs ws hs ads → cs !! i = Some x →
  updates (RemoveContract (addr x)) s (λ m,
    FreeGasState m (swap_remove i cs) ws hs ads ∧ x :: swap_remove i cs ≡ₚ cs).
Proof.
  intros (Hc & Hw & Hh & Ha) Hi. destruct all_keys_ok as (Kc & Kw & Kh & Ka).
  eapply updates_impl; [|by apply (remove_entry_refines contract_keys Kc s cs i x)].
  intros m [HL Ht]. split; [|by apply swap_remove_perm].
  lists_tac HL Ht.
Qed.

(** [GetContracts] returns page [page] of the list: the entries at positions
    page*pageSize to (page+1)*pageSize - 1, clipped to the list, and the total count. *)
Theorem free_gas_page s cs ws hs ads (page pageSize : nat) :
  FreeGasState (contents s) cs ws hs ads → 0 < pageSize →
  (Z.of_nat ((page + 1) * pageSize) < 2 ^ 63)%Z →
  reads (GetContracts (Z.of_nat page) (Z.of_nat pageSize)) s
    (take pageSize (drop (page * pageSize) cs), Z.of_nat (length cs)).
Proof.
  intros (Hc & _) Hp Hov. destruct all_keys_ok as (Kc & _). by apply get_page_reads.
Qed.

(** [GetContract] finds exactly the stored entry of an address, and [GetContractsByAdder] returns
    the page of the entries added by that address, with their total. *)
Theorem free_gas_lookup s cs ws hs ads i x adder (page pageSize : nat) :
  FreeGasState (contents s) cs ws hs ads → cs !! i = Some x →
  (Z.of_nat (page * pageSize + pageSize) < 2 ^ 63)%Z →
  let matched := filter (λ d, BytesToAddress (cfg_AddedBy d) = adder) cs in
  reads (GetContract (addr x)) s x ∧
  reads (GetContractsByAdder adder (Z.of_nat page) (Z.of_nat pageSize)) s
    (take pageSize (drop (page * pageSize) matched), Z.of_nat (length matched)).
Proof.
  intros (Hc & _) Hi Hov matched. destruct all_keys_ok as (Kc & _). split.
  - destruct (index_reads contract_keys s cs (addr x) Hc (addr_length x)) as [(j & y & Hj & Hy & Hr)|[Hn _]].
    2: { destruct Hn. apply list_elem_of_fmap. exists x. split; [done|]. by eapply list_elem_of_lookup_2. }
    eapply reads_bind; [exact Hr|]. cbv beta match. eapply reads_bind; [apply read_reads|].
    pose proof (lists_data _ _ _ Hc j y Hj) as Hd. unfold data_key in Hd. rewrite Hd, proto_roundtrip.
    assert (y = x) as ->; [|apply reads_ret].
    assert (j = i) as ->; [|congruence].
    eapply (NoDup_lookup (addr <$> cs)); [apply Hc|..]; rewrite list_lookup_fmap; [by rewrite Hj|].
    rewrite Hi. simpl. by rewrite Hy.
  - unfold GetContractsByAdder. eapply reads_bind; [exact (count_reads contract_keys s cs Hc)|].
    pose proof (scan_reads contract_keys s cs 0 (length cs) Hc (le_n _)) as Hscan.
    eapply reads_bind; [exact Hscan|]. cbv beta. rewrite drop_0, take_ge by lia. fold matched. cbv zeta.
    rewrite <- Nat2Z.inj_mul, (i64_small (Z.of_nat (page * pageSize))) by lia.
    destruct (Z.leb_spec (Z.of_nat (length matched)) (Z.of_nat (page * pageSize))).
    { rewrite drop_ge, take_nil by lia. apply reads_ret. }
    rewrite <- Nat2Z.inj_add, i64_small by lia.
    set (end_ := if (_ <? _)%Z then _ else _).
    assert (end_ = Z.of_nat (Nat.min (page * pageSize + pageSize) (length matched))) as ->.
    { unfold end_. destruct (Z.ltb_spec (Z.of_nat (length matched)) (Z.of_nat (page * pageSize + pageSize))); lia. }
    destruct (Z.ltb_spec (Z.of_nat (page * pageSize)) 0); [lia|]. simpl.
    destruct (Z.ltb_spec (Z.of_nat (Nat.min (page * pageSize + pageSize) (length matched))) (Z.of_nat (page * pageSize))); [lia|].
    replace (Z.to_nat (Z.of_nat (page * pageSize))) with (page * pageSize) by lia.
    assert (take (Z.to_nat (Z.of_nat (Nat.min (page * pageSize + pageSize) (length matched)) - Z.of_nat (page * pageSize)))
      (drop (page * pageSize) matched) = take pageSize (drop (page * pageSize) matched)) as ->; [|apply reads_ret].
    destruct (decide (page * pageSize + pageSize ≤ length matched)); [f_equal; lia|].
    rewrite !take_ge; [done|rewrite length_drop; lia..].
Qed.

End Store.

(** ** The theorems at a concrete store *)

Module ToyFreeGas.
Export ToyAddress ToyProto.

#[export] Instance contract_eq_dec : EqDecision ContractFreeGasData.
Proof. solve_decision. Defined.
#[export] Instance wallet_eq_dec : EqDecision AuthorizedWalletData.
Proof. solve_decision. Defined.
#[export] Instance admin_eq_dec : EqDecision AdminData.
Proof. solve_decision. Defined.

#[export] Instance contract_ser : Ser ContractFreeGasData :=
  ser_iso (λ d, (cfg_ContractAddress d, cfg_AddedAt d, cfg_AddedBy d))
    (λ '(a, n, b), Build_ContractFreeGasData a n b) (λ d, match d with Build_ContractFreeGasData _ _ _ => eq_refl end).
#[export] Instance wallet_ser : Ser AuthorizedWalletData :=
  ser_iso (λ d, (aw_WalletAddress d, aw_AddedAt d, aw_AddedBy d))
    (λ '(a, n, b), Build_AuthorizedWalletData a n b) (λ d, match d with Build_AuthorizedWalletData _ _ _ => eq_refl end).
#[export] Instance admin_ser : Ser AdminData :=
  ser_iso (λ d, (ad_AdminAddress d, ad_AddedAt d, ad_AddedBy d))
    (λ '(a, n, b), Build_AdminData a n b) (λ d, match d with Build_AdminData _ _ _ => eq_refl end).

#[export] Instance contract_proto : Proto ContractFreeGasData := toy_proto (Build_ContractFreeGasData [] 0 []).
#[export] Instance wallet_proto : Proto AuthorizedWalletData := toy_proto (Build_AuthorizedWalletData [] 0 []).
#[export] Instance admin_proto : Proto AdminData := toy_proto (Build_AdminData [] 0 []).
#[export] Instance contract_proto_laws : ProtoLaws ContractFreeGasData.
Proof. apply toy_proto_laws. Qed.
#[export] Instance wallet_proto_laws : ProtoLaws AuthorizedWalletData.
Proof. apply toy_proto_laws. Qed.
#[export] Instance admin_proto_laws : ProtoLaws AdminData.
Proof. apply toy_proto_laws. Qed.

Definition address (n : Z) : bytes := replicate 19 x00 ++ [z2b n].

Definition add_contracts (n : nat) (s : gmap string bytes) : gmap string bytes :=
  foldl (λ s i, snd (AddContract 7 (address i) (address 200) s)) s (seqZ 1 (Z.of_nat n)).

End ToyFreeGas.

Import ToyFreeGas.

Definition three_contracts : list ContractFreeGasData :=
  (λ i, Build_ContractFreeGasData (address i) 7 (address 200)) <$> [1; 2; 3]%Z.

Lemma updates_reliable (c : M (St := gmap string bytes) unit) s P : updates c s P → P (snd (c s)).
Proof. intros [(s' & -> & HP)|[_ Hf]]; [done|by apply map_ldb_no_fault in Hf]. Qed.

Lemma add_contract_state (s : gmap string bytes) cs ws hs ads a : FreeGasState (contents s) cs ws hs ads → length a = 20 →
  (Z.of_nat (length cs) + 1 < 2 ^ 63)%Z → a ∉ addr <$> cs →
  FreeGasState (contents (snd (AddContract 7 a (address 200) s))) (cs ++ [Build_ContractFreeGasData a 7 (address 200)]) ws hs ads.
Proof.
  intros (Hc & Hw & Hh & Ha) Hlen Hb Hn. destruct all_keys_ok as (Kc & _).
  pose proof (add_entry_refines contract_keys Kc s cs a (address 200) 7 Hc Hlen Hb Hn) as Hu.
  apply updates_reliable in Hu as [HL Ht]. lists_tac HL Ht.
Qed.

Lemma three_contracts_state : FreeGasState (contents (add_contracts 3 ∅)) three_contracts [] [] [].
Proof.
  change (add_contracts 3 ∅) with
    (snd (AddContract 7 (address 3) (address 200) (snd (AddContract 7 (address 2) (address 200)
       (snd (AddContract 7 (address 1) (address 200) (∅ : gmap string bytes))))))).
  apply (add_contract_state _ [_; _]); [|done|simpl; lia|].
  2: { apply (bool_decide_unpack _). vm_compute. exact I. }
  apply (add_contract_state _ [_]); [|done|simpl; lia|].
  2: { apply (bool_decide_unpack _). vm_compute. exact I. }
  apply (add_contract_state _ []); [apply free_gas_empty|done|simpl; lia|].
  apply (bool_decide_unpack _). vm_compute. exact I.
Qed.

Lemma free_gas_add_witness : updates (AddContract 7 (address 9) (address 200)) (add_contracts 3 ∅)
  (λ m, FreeGasState m (three_contracts ++ [mk_entry (address 9) 7 (address 200)]) [] [] []).
Proof.
  apply (free_gas_add (add_contracts 3 ∅) three_contracts [] [] [] 7 (address 9) (address 200) three_contracts_state);
    [done|vm_compute; done|].
  apply (bool_decide_unpack _). vm_compute. exact I.
Defined.

Lemma free_gas_membership_witness : rejects (AddContract 7 (address 2) (address 1)) (add_contracts 3 ∅) ErrExists.
Proof.
  apply (free_gas_membership (add_contracts 3 ∅) three_contracts [] [] [] 7 (address 2) (address 1) three_contracts_state);
    [done|].
  apply (bool_decide_unpack _). vm_compute. exact I.
Defined.

Lemma free_gas_remove_witness : updates (RemoveContract (address 1)) (add_contracts 3 ∅) (λ m,
  FreeGasState m (swap_remove 0 three_contracts) [] [] [] ∧
  Build_ContractFreeGasData (address 1) 7 (address 200) :: swap_remove 0 three_contracts ≡ₚ three_contracts).
Proof.
  exact (free_gas_remove (add_contracts 3 ∅) three_contracts [] [] [] 0
    (Build_ContractFreeGasData (address 1) 7 (address 200)) three_contracts_state eq_refl).
Defined.

Lemma free_gas_page_witness :
  reads (GetContracts 1 2) (add_contracts 3 ∅) (drop 2 three_contracts, 3%Z).
Proof. apply (free_gas_page (add_contracts 3 ∅) three_contracts [] [] [] 1 2 three_contracts_state); simpl; lia. Defined.

Lemma free_gas_lookup_witness :
  reads (GetContract (address 2)) (add_contracts 3 ∅) (Build_ContractFreeGasData (address 2) 7 (address 200)).
Proof.
  apply (free_gas_lookup (add_contracts 3 ∅) three_contracts [] [] [] 1
    (Build_ContractFreeGasData (address 2) 7 (address 200)) (address 200) 0 10 three_contracts_state); [done|simpl; lia].
Defined.

(** Page arguments are not validated: with a negative page and page size the window's end lies
    before its start, and [GetContracts] panics on the negative slice capacity as soon as the list
    has eleven entries, while with ten entries it returns an empty page. *)
Theorem negative_page_panics :
  fst (GetContracts (-2) (-5) (add_contracts 11 ∅)) = Panic ∧
  fst (GetContracts (-2) (-5) (add_contracts 10 ∅)) = Ok ([], 10%Z).
Proof. by vm_compute. Qed.
