(* ===== verification/BlsAccounts.v ===== *)
(** * Accounts of a BLS public key ([pkg/storage/bls_account_storage.go])

    For every BLS public key two lists of accounts, unconfirmed and confirmed, in one
    LevelDB: entries under <prefix><key>:<padded id>, a count per list, and one reverse
    index per address and key, shared by the two lists, whose value carries a flag that
    tells which list the entry is in.  Unlike the free-gas lists this code takes every
    read error for an absent key. *)

From S2P Require Import Prelude Interfaces GoLib LevelDB.
From Stdlib Require Import Strings.Byte Strings.Ascii.

(** ** Data *)

Record BlsAccountData := {
  Address : bytes;
  BlsPublicKey : bytes;
  RegisteredAt : Z;
  RegisterTxHash : bytes;
  IsConfirmed : bool;
  ConfirmedAt : Z;
  ConfirmTxHash : bytes;
}.

Record PendingTransaction := {
  pt_Address : bytes;
  pt_BlsPublicKey : bytes;
  pt_RawTransactionHex : string;
  pt_CreatedAt : Z;
  pt_Nonce : Z;
  pt_OriginalGasPrice : Z;
}.

Inductive bls_error :=
  | ErrIndexFormat        (** "invalid reverse index format" *)
  | ErrAddressExists
  | ErrAccountNotFound
  | ErrAlreadyConfirmed
  | ErrStatusMismatch     (** "confirmation status mismatch" *)
  | ErrParseID
  | ErrNoAccounts
  | ErrGetEntry           (** an entry could not be read *)
  | ErrUnmarshalEntry
  | ErrBatchWrite.

Definition PREFIX_BLS_ACCOUNT_INDEX : string := "ba:".
Definition PREFIX_PENDING_TX : string := "pt:".
Definition PREFIX_BLS_CONFIRMED : string := "bc:".
Definition PREFIX_BLS_UNCONFIRMED : string := "bu:".
Definition ID_PADDING_LENGTH : nat := 10.

Definition list_prefix (isConfirmed : bool) : string :=
  if isConfirmed then PREFIX_BLS_CONFIRMED else PREFIX_BLS_UNCONFIRMED.
Definition confirmed_flag (isConfirmed : bool) : string := if isConfirmed then "1" else "0".

Definition Bytes2Hex : bytes → string := hex_EncodeToString.

(** [strings.Split(s, ":")] *)
Fixpoint split_colon (s : string) : list string :=
  match s with
  | EmptyString => [EmptyString]
  | String c s =>
    if decide (c = ":"%char) then EmptyString :: split_colon s
    else match split_colon s with
         | h :: t => String c h :: t
         | [] => [String c EmptyString]
         end
  end.

Definition padID (id : Z) : string :=
  let idStr := FormatUint id in
  if (ID_PADDING_LENGTH <=? String.length idStr)%nat then idStr
  else strings_Repeat "0" (ID_PADDING_LENGTH - String.length idStr) +:+ idStr.

Definition unpadID (paddedID : string) : option Z := ParseUint paddedID.

Section BlsAccounts.
Context `{LevelDB St} `{EthAddress} `{Proto BlsAccountData} `{Proto PendingTransaction}.

Definition BM : Type → Type := comp St bls_error.
#[export] Instance BM_ret : MRet BM := comp_ret.
#[export] Instance BM_bind : MBind BM := comp_bind.

(** [ldb.Get] where the caller treats every error alike. *)
Definition try_Get (k : string) : BM (option bytes) := λ s,
  match ldb_Get k s with Found v => (Ok (Some v), s) | NotFound | ReadError => (Ok None, s) end.

Definition WriteBatch (ops : list batch_op) : BM unit := λ s,
  match ldb_Write ops s with Some s' => (Ok tt, s') | None => (Fail ErrBatchWrite, s) end.

(** ** Reverse index *)

Definition getReverseIndexKey (address blsPublicKey : bytes) : string :=
  PREFIX_BLS_ACCOUNT_INDEX +:+ AddressHex address +:+ ":" +:+ Bytes2Hex blsPublicKey.

Definition saveReverseIndex (address blsPublicKey : bytes) (paddedID : string) (isConfirmed : bool) : BM unit :=
  WriteBatch [BPut (getReverseIndexKey address blsPublicKey)
                (str_bytes (confirmed_flag isConfirmed +:+ ":" +:+ paddedID))].

(** The padded id and the flag; [None]: not found. *)
Definition getReverseIndex (address blsPublicKey : bytes) : BM (option (string * bool)) :=
  value ← try_Get (getReverseIndexKey address blsPublicKey);
  match value with
  | None => mret None
  | Some v =>
    match split_colon (bytes_str v) with
    | [flag; paddedID] => mret (Some (paddedID, bool_decide (flag = "1")))
    | _ => c_fail ErrIndexFormat
    end
  end.

Definition deleteReverseIndex (address blsPublicKey : bytes) : BM unit :=
  WriteBatch [BDelete (getReverseIndexKey address blsPublicKey)].

(** ** Pending transactions *)

Definition pending_key (address : bytes) : string := PREFIX_PENDING_TX +:+ AddressHex address.

Definition SavePendingTransaction (tx : PendingTransaction) : BM unit :=
  WriteBatch [BPut (pending_key (BytesToAddress (pt_Address tx))) (proto_Marshal tx)].

Definition GetPendingTransaction (address : bytes) : BM PendingTransaction :=
  value ← try_Get (pending_key address);
  match value with
  | None => c_fail ErrGetEntry
  | Some v => match proto_Unmarshal v with Some tx => mret tx | None => c_fail ErrUnmarshalEntry end
  end.

Definition DeletePendingTransaction (address : bytes) : BM unit :=
  WriteBatch [BDelete (pending_key address)].

(** ** Counts *)

Definition count_key (blsPublicKey : bytes) (isConfirmed : bool) : string :=
  list_prefix isConfirmed +:+ Bytes2Hex blsPublicKey +:+ ":count".
Definition account_key (blsPublicKey : bytes) (isConfirmed : bool) (paddedID : string) : string :=
  list_prefix isConfirmed +:+ Bytes2Hex blsPublicKey +:+ ":" +:+ paddedID.

Definition getCount (blsPublicKey : bytes) (isConfirmed : bool) : BM Z :=
  value ← try_Get (count_key blsPublicKey isConfirmed);
  match value with
  | None => mret 0%Z
  | Some v => match Uint64 v with Some n => mret n | None => c_panic end
  end.

Definition setCount (blsPublicKey : bytes) (isConfirmed : bool) (count : Z) : BM unit :=
  WriteBatch [BPut (count_key blsPublicKey isConfirmed) (PutUint64 count)].

Definition GetTotalAccountsCount := getCount.

(** ** Adding *)

Definition addAccountToBlsPublicKeyNoLock (accountData : BlsAccountData) (isConfirmed : bool) : BM unit :=
  let address := BytesToAddress (Address accountData) in
  let blsPublicKey := BlsPublicKey accountData in
  count ← getCount blsPublicKey isConfirmed;
  let newID := u64 (count + 1) in
  let paddedID := padID newID in
  WriteBatch [BPut (account_key blsPublicKey isConfirmed paddedID) (proto_Marshal accountData);
              BPut (getReverseIndexKey address blsPublicKey)
                (str_bytes (confirmed_flag isConfirmed +:+ ":" +:+ paddedID));
              BPut (count_key blsPublicKey isConfirmed) (PutUint64 newID)].

(** The check that precedes the write. *)
Definition account_exists (accountData : BlsAccountData) : BM bool :=
  idx ← getReverseIndex (BytesToAddress (Address accountData)) (BlsPublicKey accountData);
  mret (bool_decide (is_Some idx)).

Definition AddAccountToBlsPublicKey (accountData : BlsAccountData) (isConfirmed : bool) : BM unit :=
  exists_ ← account_exists accountData;
  if exists_ : bool then c_fail ErrAddressExists
  else addAccountToBlsPublicKeyNoLock accountData isConfirmed.

(** ** Removing and confirming *)

Definition removeAccountFromListNoLock (blsPublicKey address : bytes) (isConfirmed : bool) : BM unit :=
  idx ← getReverseIndex address blsPublicKey;
  match idx with
  | None => c_fail ErrAccountNotFound
  | Some (paddedID, indexConfirmed) =>
    if negb (Bool.eqb indexConfirmed isConfirmed) then c_fail ErrStatusMismatch
    else
      match unpadID paddedID with
      | None => c_fail ErrParseID
      | Some foundID =>
        count ← getCount blsPublicKey isConfirmed;
        if (count =? 0)%Z then c_fail ErrNoAccounts
        else
          let drop_index := BDelete (getReverseIndexKey address blsPublicKey) in
          let dec_count := BPut (count_key blsPublicKey isConfirmed) (PutUint64 (u64 (count - 1))) in
          let foundKey := account_key blsPublicKey isConfirmed paddedID in
          if (foundID =? count)%Z then WriteBatch [drop_index; BDelete foundKey; dec_count]
          else
            let lastKey := account_key blsPublicKey isConfirmed (padID count) in
            lastValue ← try_Get lastKey;
            match lastValue with
            | None => c_fail ErrGetEntry
            | Some lastValue =>
              match proto_Unmarshal lastValue with
              | None => c_fail ErrUnmarshalEntry
              | Some lastAccountData =>
                WriteBatch [drop_index; BPut foundKey lastValue;
                  BPut (getReverseIndexKey (BytesToAddress (Address lastAccountData)) blsPublicKey)
                    (str_bytes (confirmed_flag isConfirmed +:+ ":" +:+ paddedID));
                  BDelete lastKey; dec_count]
              end
            end
      end
  end.

Definition removeAccountFromList := removeAccountFromListNoLock.

(** The fields [MarkAccountConfirmed] sets. *)
Definition confirm (now : Z) (txHash : bytes) (d : BlsAccountData) : BlsAccountData :=
  {| Address := Address d; BlsPublicKey := BlsPublicKey d; RegisteredAt := RegisteredAt d;
     RegisterTxHash := RegisterTxHash d; IsConfirmed := true; ConfirmedAt := now; ConfirmTxHash := txHash |}.

Definition MarkAccountConfirmed (now : Z) (address confirmTxHash blsPublicKey : bytes) : BM unit :=
  idx ← getReverseIndex address blsPublicKey;
  match idx with
  | None => c_fail ErrAccountNotFound
  | Some (paddedID, isConfirmed) =>
    if isConfirmed : bool then c_fail ErrAlreadyConfirmed
    else
      value ← try_Get (account_key blsPublicKey false paddedID);
      match value with
      | None => c_fail ErrGetEntry
      | Some v =>
        match proto_Unmarshal v with
        | None => c_fail ErrUnmarshalEntry
        | Some accountData =>
          _ ← removeAccountFromListNoLock blsPublicKey address false;
          addAccountToBlsPublicKeyNoLock (confirm now confirmTxHash accountData) true
        end
      end
  end.

(** ** Queries *)

(** The read loop of the page queries: unreadable and undecodable entries are skipped. *)
Fixpoint read_accounts (blsPublicKey : bytes) (isConfirmed : bool) (ids : list Z) : BM (list BlsAccountData) :=
  match ids with
  | [] => mret []
  | id :: ids =>
    value ← try_Get (account_key blsPublicKey isConfirmed (padID id));
    rest ← read_accounts blsPublicKey isConfirmed ids;
    mret (match value ≫= proto_Unmarshal with Some d => d :: rest | None => rest end)
  end.

Definition scan_accounts (blsPublicKey : bytes) (isConfirmed : bool) (startID endID : Z) : BM (list BlsAccountData) :=
  if (i64 (endID - startID + 1) <? 0)%Z then c_panic
  else read_accounts blsPublicKey isConfirmed (seqZ startID (endID - startID + 1)).

Definition GetAccountsByBlsPublicKey (blsPublicKey : bytes) (page pageSize : Z) (isConfirmed : bool) :
    BM (list BlsAccountData * Z) :=
  count ← getCount blsPublicKey isConfirmed;
  let total := i64 count in
  let startID := u64 (i64 (page * pageSize) + 1) in
  let endID := u64 (i64 (page + 1) * pageSize) in
  if (count <? startID)%Z then mret ([], total)
  else
    let endID := if (count <? endID)%Z then count else endID in
    accounts ← scan_accounts blsPublicKey isConfirmed startID endID;
    mret (accounts, total).

Definition get_account (key : string) : BM BlsAccountData :=
  value ← try_Get key;
  match value with
  | None => c_fail ErrGetEntry
  | Some v => match proto_Unmarshal v with Some d => mret d | None => c_fail ErrUnmarshalEntry end
  end.

Definition GetAccountAddressByIndex (blsPublicKey : bytes) (index : Z) (isConfirmed : bool) : BM BlsAccountData :=
  get_account (account_key blsPublicKey isConfirmed (padID index)).

Definition BatchGetAccountAddresses (blsPublicKey : bytes) (startID endID : Z) (isConfirmed : bool) :
    BM (list BlsAccountData) :=
  count ← getCount blsPublicKey isConfirmed;
  let endID := if (count <? endID)%Z then count else endID in
  if (endID <? startID)%Z || (startID =? 0)%Z then mret []
  else scan_accounts blsPublicKey isConfirmed startID endID.

Definition GetAccountByAddress (address blsPublicKey : bytes) : BM BlsAccountData :=
  idx ← getReverseIndex address blsPublicKey;
  match idx with
  | None => c_fail ErrAccountNotFound
  | Some (paddedID, isConfirmed) => get_account (account_key blsPublicKey isConfirmed paddedID)
  end.

End BlsAccounts.
