(* ===== verification/BlsAccountsRefine.v ===== *)
(** * The BLS account store as pairs of lists

    Keys of the store are rendered from a small inductive type, injectively, so that what a
    batch does to the store is computed on that type.  [Bls m A P]: the contents [m] hold,
    for every public key [pk] and flag [f], exactly the list [A pk f], and the pending
    transactions [P]. *)

From S2P Require Import Prelude Interfaces GoLib LevelDB FreeGas FreeGasRefine BlsAccounts.
From Stdlib Require Import Strings.Byte Strings.Ascii.

(** ** Strings *)

Lemma hex_no_colon x : hex_digit (b2z x / 16) ≠ ":"%char ∧ hex_digit (b2z x mod 16) ≠ ":"%char.
Proof. by destruct x; vm_compute. Qed.

Lemma hex_colon_inj a b r r' : hex_EncodeToString a +:+ ":" +:+ r = hex_EncodeToString b +:+ ":" +:+ r' → a = b ∧ r = r'.
Proof.
  revert b. induction a as [|x a IH]; intros [|y b] E; simpl in E.
  - by injection E.
  - injection E as E _. by destruct (hex_no_colon y) as [[]].
  - injection E as E _. by destruct (hex_no_colon x) as [[]].
  - injection E as E1 E2 E. destruct (IH b E) as [-> ->]. split; [|done]. f_equal.
    apply hex_pair_inj. unfold hex_pair. by rewrite E1, E2.
Qed.

Fixpoint no_colon (s : string) : Prop :=
  match s with EmptyString => True | String c s => c ≠ ":"%char ∧ no_colon s end.

Lemma split_no_colon s : no_colon s → split_colon s = [s].
Proof. induction s as [|c s IH]; simpl; [done|]. intros [Hc Hs]. by rewrite decide_False, IH. Qed.

Lemma split_flag f s : no_colon s → split_colon (confirmed_flag f +:+ ":" +:+ s) = [confirmed_flag f; s].
Proof. intros Hs. destruct f; simpl; by rewrite split_no_colon. Qed.

Lemma digits_no_colon ds : Forall (λ d, (0 ≤ d < 10)%Z) ds → no_colon (digits_str ds).
Proof.
  induction 1 as [|d ds Hd Hds IH]; [done|]. cbn. split; [|done]. clear -Hd. intros E.
  assert (d = 0 ∨ d = 1 ∨ d = 2 ∨ d = 3 ∨ d = 4 ∨ d = 5 ∨ d = 6 ∨ d = 7 ∨ d = 8 ∨ d = 9)%Z as Hc by lia.
  destruct_or! Hc; subst d; vm_compute in E; done.
Qed.

Lemma padID_eq id : padID id = padEntityID id.
Proof. done. Qed.

Lemma padID_digits id : (0 ≤ id)%Z → ∃ k, padID id = digits_str (replicate k 0%Z ++ digits 20 id).
Proof.
  intros Hid. unfold padID. cbv zeta. destruct (_ <=? _)%nat; [by exists 0|].
  eexists. by rewrite <- digits_str_zeros.
Qed.

Lemma padID_no_colon id : (0 ≤ id)%Z → no_colon (padID id).
Proof.
  intros Hid. destruct (padID_digits id Hid) as [k ->]. apply digits_no_colon, Forall_app.
  split; [apply Forall_replicate; lia|by apply digits_bounds].
Qed.

Lemma padID_not_count id : (0 ≤ id)%Z → padID id ≠ "count".
Proof.
  intros Hid E. destruct (padID_digits id Hid) as [k Ek]. rewrite E in Ek.
  assert (Forall (λ d, (0 ≤ d < 10)%Z) (replicate k 0%Z ++ digits 20 id)) as Hds.
  { apply Forall_app. split; [apply Forall_replicate; lia|by apply digits_bounds]. }
  destruct (replicate k 0%Z ++ digits 20 id) as [|d ds]; [done|].
  apply Forall_inv in Hds. injection Ek as E1 _.
  assert (d = 0 ∨ d = 1 ∨ d = 2 ∨ d = 3 ∨ d = 4 ∨ d = 5 ∨ d = 6 ∨ d = 7 ∨ d = 8 ∨ d = 9)%Z as Hc by lia.
  destruct_or! Hc; subst d; vm_compute in E1; done.
Qed.

(** ** Keys *)

Inductive bkey :=
  | KCount (pk : bytes) (f : bool)
  | KData (pk : bytes) (f : bool) (i : nat)
  | KIndex (pk a : bytes)
  | KPending (a : bytes).

#[export] Instance bkey_eq_dec : EqDecision bkey.
Proof. solve_decision. Defined.

(** Positions and addresses that occur in a store. *)
Definition kvalid (k : bkey) : Prop :=
  match k with
  | KCount _ _ => True
  | KData _ _ i => (Z.of_nat i < 2 ^ 63)%Z
  | KIndex _ a | KPending a => length a = 20
  end.

Section Keys.
Context `{EthAddressLaws}.

Definition render (k : bkey) : string :=
  match k with
  | KCount pk f => count_key pk f
  | KData pk f i => account_key pk f (padID (Z.of_nat i + 1))
  | KIndex pk a => getReverseIndexKey a pk
  | KPending a => pending_key a
  end.

Lemma list_prefix_inj f g r r' : list_prefix f +:+ r = list_prefix g +:+ r' → f = g ∧ r = r'.
Proof. destruct f, g; simpl; by intros [=]. Qed.

Lemma render_inj k k' : kvalid k → kvalid k' → render k = render k' → k = k'.
Proof.
  destruct k as [pk f|pk f i|pk a|a], k' as [pk' g|pk' g j|pk' b|b]; simpl; intros V V' E;
    unfold count_key, account_key, getReverseIndexKey, pending_key in E;
    try (destruct f; discriminate); try (destruct g; discriminate); try discriminate.
  - apply list_prefix_inj in E as [-> E]. apply (hex_colon_inj _ _ "count" "count") in E as [-> _]. done.
  - apply list_prefix_inj in E as [-> E]. apply (hex_colon_inj _ _ "count") in E as [_ E].
    by destruct (padID_not_count (Z.of_nat j + 1)); [lia|].
  - apply list_prefix_inj in E as [-> E]. apply (hex_colon_inj _ _ _ "count") in E as [_ E].
    by destruct (padID_not_count (Z.of_nat i + 1)); [lia|].
  - apply list_prefix_inj in E as [-> E]. apply hex_colon_inj in E as [-> E].
    rewrite !padID_eq in E. apply pad_inj in E; [|lia..]. f_equal. lia.
  - apply str_app_inj_l in E. apply str_app_inj_len in E as [E1 E2]; [|by rewrite !AddressHex_length].
    apply AddressHex_inj in E1; [|done..]. injection E2 as E2. apply hex_EncodeToString_inj in E2. by subst.
  - apply str_app_inj_l in E. apply AddressHex_inj in E; [by subst|done..].
Qed.

Lemma lookup_put (m : gmap string bytes) k k' v : kvalid k → kvalid k' →
  <[render k := v]> m !! render k' = if decide (k = k') then Some v else m !! render k'.
Proof.
  intros V V'. destruct (decide (k = k')) as [->|Hne]; [by rewrite lookup_insert_eq|].
  rewrite lookup_insert_ne; [done|]. intros E. by apply Hne, render_inj.
Qed.

Lemma lookup_del (m : gmap string bytes) k k' : kvalid k → kvalid k' →
  base.delete (render k) m !! render k' = if decide (k = k') then None else m !! render k'.
Proof.
  intros V V'. destruct (decide (k = k')) as [->|Hne]; [by rewrite lookup_delete_eq|].
  rewrite lookup_delete_ne; [done|]. intros E. by apply Hne, render_inj.
Qed.

End Keys.

(** ** The store invariant *)

Section Inv.
Context `{LevelDBLaws St} `{EthAddressLaws} `{ProtoLaws BlsAccountData} `{ProtoLaws PendingTransaction}.

Definition acct_addr (x : BlsAccountData) : bytes := BytesToAddress (Address x).

Definition Accounts : Type := bytes → bool → list BlsAccountData.

Definition addrs (A : Accounts) (pk : bytes) (f : bool) : list bytes := acct_addr <$> A pk f.

Definition idx_value (f : bool) (i : nat) : bytes :=
  str_bytes (confirmed_flag f +:+ ":" +:+ padID (Z.of_nat i + 1)).

Record Bls (m : gmap string bytes) (A : Accounts) (P : gmap bytes PendingTransaction) : Prop := {
  bls_bound pk f : (Z.of_nat (length (A pk f)) < 2 ^ 63)%Z;
  bls_pk pk f x : x ∈ A pk f → BlsPublicKey x = pk;
  bls_nodup pk f : NoDup (addrs A pk f);
  bls_one_list pk a : a ∈ addrs A pk false → a ∉ addrs A pk true;
  bls_count pk f : m !! render (KCount pk f) = Some (PutUint64 (Z.of_nat (length (A pk f)))) ∨
    (m !! render (KCount pk f) = None ∧ A pk f = []);
  bls_data pk f i : (Z.of_nat i < 2 ^ 63)%Z → m !! render (KData pk f i) = proto_Marshal <$> (A pk f !! i);
  bls_index pk f i x : A pk f !! i = Some x → m !! render (KIndex pk (acct_addr x)) = Some (idx_value f i);
  bls_absent pk a : length a = 20 → (∀ f, a ∉ addrs A pk f) → m !! render (KIndex pk a) = None;
  bls_pending a : length a = 20 → m !! render (KPending a) = proto_Marshal <$> (P !! a);
}.

(** One list replaced. *)
Definition upd (pk : bytes) (f : bool) (l : list BlsAccountData) (A : Accounts) : Accounts :=
  λ pk' f', if decide (pk' = pk ∧ f' = f) then l else A pk' f'.

Lemma upd_eq pk f l A : upd pk f l A pk f = l.
Proof. unfold upd. by rewrite decide_True. Qed.

Lemma upd_ne pk f l A pk' f' : ¬ (pk' = pk ∧ f' = f) → upd pk f l A pk' f' = A pk' f'.
Proof. intros Hn. unfold upd. by rewrite decide_False. Qed.

Lemma acct_addr_length x : length (acct_addr x) = 20.
Proof. apply BytesToAddress_length. Qed.

Lemma bls_empty : Bls ∅ (λ _ _, []) ∅.
Proof.
  split.
  - done.
  - intros pk f x Hx. by apply not_elem_of_nil in Hx.
  - intros pk f. constructor.
  - intros pk a _. apply not_elem_of_nil.
  - by right.
  - done.
  - done.
  - done.
  - done.
Qed.

Lemma addrs_lookup A pk f i x : A pk f !! i = Some x → acct_addr x ∈ addrs A pk f.
Proof. intros Hi. apply list_elem_of_fmap. exists x. split; [done|]. by eapply list_elem_of_lookup_2. Qed.

(** An address has one position in one list. *)
Lemma bls_unique m A P pk f g i j x y : Bls m A P → A pk f !! i = Some x → A pk g !! j = Some y →
  acct_addr x = acct_addr y → f = g ∧ i = j.
Proof.
  intros HB Hi Hj E. pose proof (addrs_lookup _ _ _ _ _ Hi) as Ai. pose proof (addrs_lookup _ _ _ _ _ Hj) as Aj.
  rewrite <- E in Aj.
  assert (f = g) as ->.
  { destruct f, g; try done; exfalso; by eapply (bls_one_list _ _ _ HB pk (acct_addr x)). }
  split; [done|]. eapply (NoDup_lookup (addrs A pk g)); [apply HB|..]; unfold addrs; rewrite list_lookup_fmap.
  - by rewrite Hi.
  - rewrite Hj. simpl. by rewrite E.
Qed.

(** *** Appending an entry *)

Lemma upd_snoc_lookup A pk f x pk' f' i z : upd pk f (A pk f ++ [x]) A pk' f' !! i = Some z →
  A pk' f' !! i = Some z ∨ (pk' = pk ∧ f' = f ∧ i = length (A pk f) ∧ z = x).
Proof.
  unfold upd. destruct (decide (pk' = pk ∧ f' = f)) as [[-> ->]|]; [|by left].
  rewrite lookup_app_Some. intros [?|[Hge Hz]]; [by left|]. right. apply list_lookup_singleton_Some in Hz as [? ->].
  repeat split; try done. lia.
Qed.

Lemma bls_add m A P pk f x : Bls m A P → BlsPublicKey x = pk → (∀ g, acct_addr x ∉ addrs A pk g) →
  (Z.of_nat (length (A pk f)) + 1 < 2 ^ 63)%Z →
  Bls (apply_batch [BPut (render (KData pk f (length (A pk f)))) (proto_Marshal x);
                    BPut (render (KIndex pk (acct_addr x))) (idx_value f (length (A pk f)));
                    BPut (render (KCount pk f)) (PutUint64 (Z.of_nat (length (A pk f)) + 1))] m)
      (upd pk f (A pk f ++ [x]) A) P.
Proof.
  intros HB Hpk Hnew Hb. set (n := length (A pk f)) in *. set (m' := apply_batch _ m).
  pose proof (acct_addr_length x) as Hax.
  assert (∀ k, kvalid k → m' !! render k =
    if decide (KCount pk f = k) then Some (PutUint64 (Z.of_nat n + 1))
    else if decide (KIndex pk (acct_addr x) = k) then Some (idx_value f n)
    else if decide (KData pk f n = k) then Some (proto_Marshal x) else m !! render k) as Hl.
  { intros k Hk. unfold m'. cbn [apply_batch foldl apply_op]. by rewrite !lookup_put by (simpl; done || lia). }
  pose proof (upd_snoc_lookup A pk f x) as Hlk. fold n in Hlk.
  split.
  - intros pk' f'. unfold upd. destruct (decide _); [|apply HB]. rewrite length_app. simpl. fold n. lia.
  - intros pk' f' z [i Hz]%list_elem_of_lookup. apply Hlk in Hz as [Hz|(-> & -> & _ & ->)]; [|done].
    eapply (bls_pk _ _ _ HB). by eapply list_elem_of_lookup_2.
  - intros pk' f'. unfold addrs, upd. destruct (decide _) as [[-> ->]|]; [|apply HB].
    rewrite fmap_app. apply NoDup_app. split; [apply HB|]. split; [|apply NoDup_singleton].
    intros a Ha Hs. apply list_elem_of_singleton in Hs as ->. by apply (Hnew f).
  - intros pk' a Ha Ha'. apply list_elem_of_fmap in Ha as (z & Ez & [i Hz]%list_elem_of_lookup).
    apply list_elem_of_fmap in Ha' as (z' & Ez' & [i' Hz']%list_elem_of_lookup).
    apply Hlk in Hz as [Hz|(-> & <- & -> & ->)]; apply Hlk in Hz' as [Hz'|(Hpk' & Hf & -> & ->)].
    + eapply (bls_one_list _ _ _ HB pk' a); rewrite ?Ez; [by eapply addrs_lookup|]. rewrite <- Ez, Ez'. by eapply addrs_lookup.
    + subst pk'. apply (Hnew false). rewrite <- Ez', Ez. by eapply addrs_lookup.
    + apply (Hnew true). rewrite <- Ez, Ez'. by eapply addrs_lookup.
    + done.
  - intros pk' f'. rewrite Hl by done. unfold upd. destruct (decide (KCount pk f = KCount pk' f')) as [E|Hne].
    + injection E as -> ->. rewrite decide_True by done. left. rewrite length_app. simpl. do 2 f_equal. fold n. lia.
    + rewrite !decide_False by (done || naive_solver). apply HB.
  - intros pk' f' i Hi. rewrite Hl by done.
    rewrite !decide_False by done. unfold upd. destruct (decide (KData pk f n = KData pk' f' i)) as [E|Hne].
    + injection E as -> -> <-. rewrite decide_True by done. by rewrite list_lookup_middle.
    + destruct (decide (pk' = pk ∧ f' = f)) as [[-> ->]|]; [|by apply HB].
      rewrite (bls_data _ _ _ HB) by done. f_equal. destruct (decide (i < n)); [by rewrite lookup_app_l|].
      rewrite !lookup_ge_None_2; [done|rewrite length_app; simpl; fold n|fold n; lia].
      assert (i ≠ n) by (intros ->; done). lia.
  - intros pk' f' i z Hz. rewrite Hl by apply acct_addr_length. rewrite decide_False by done.
    apply Hlk in Hz as [Hz|(-> & -> & -> & ->)]; [|by rewrite decide_True].
    rewrite decide_False; [by rewrite decide_False by done; eapply (bls_index _ _ _ HB)|].
    intros [= -> E]. apply (Hnew f'). rewrite E. by eapply addrs_lookup.
  - intros pk' a Ha Hno. rewrite Hl by done. rewrite decide_False by done. rewrite decide_False.
    + rewrite decide_False by done. apply (bls_absent _ _ _ HB); [done|]. intros f' Hin. apply (Hno f').
      apply list_elem_of_fmap in Hin as (z & -> & [i Hz]%list_elem_of_lookup).
      apply list_elem_of_fmap. exists z. split; [done|]. apply list_elem_of_lookup. exists i.
      unfold upd. destruct (decide (pk' = pk ∧ f' = f)) as [[-> ->]|]; [|done].
      rewrite lookup_app_l; [done|]. by eapply lookup_lt_Some.
    + intros [= -> <-]. apply (Hno f). unfold addrs. rewrite upd_eq, fmap_app. apply elem_of_app. right. left.
  - intros a Ha. rewrite Hl by done. rewrite !decide_False by done. by apply HB.
Qed.

(** *** Removing an entry *)

Lemma upd_swap_lookup A pk f i y pk' f' j z : i < length (A pk f) → last (A pk f) = Some y →
  upd pk f (swap_remove i (A pk f)) A pk' f' !! j = Some z →
  (pk' = pk ∧ f' = f ∧ j = i ∧ z = y ∧ i < length (A pk f) - 1) ∨
  (A pk' f' !! j = Some z ∧ (pk' = pk → f' = f → j ≠ i ∧ j < length (A pk f) - 1)).
Proof.
  intros Hi Hy. unfold upd. destruct (decide (pk' = pk ∧ f' = f)) as [[-> ->]|Hne]; [|naive_solver].
  intros Hz. pose proof (lookup_lt_Some _ _ _ Hz) as Hlt. rewrite swap_remove_length in Hlt by done.
  rewrite (swap_remove_lookup i _ y j) in Hz by done. destruct (decide (j = i)) as [->|]; naive_solver.
Qed.

(** The store after a removal, key by key. *)
Definition removed_from (m m' : gmap string bytes) (pk : bytes) (f : bool) (n i : nat) (x y : BlsAccountData) : Prop :=
  ∀ k, kvalid k → m' !! render k =
    if decide (k = KCount pk f) then Some (PutUint64 (Z.of_nat n - 1))
    else if decide (k = KIndex pk (acct_addr x)) then None
    else if decide (k = KIndex pk (acct_addr y)) then Some (idx_value f i)
    else if decide (k = KData pk f (n - 1)) then None
    else if decide (k = KData pk f i) then Some (proto_Marshal y)
    else m !! render k.

Lemma last_position m A P pk f i x y : Bls m A P → A pk f !! i = Some x → last (A pk f) = Some y →
  acct_addr x = acct_addr y → i = length (A pk f) - 1 ∧ x = y.
Proof.
  intros HB Hi Hy E. rewrite last_lookup in Hy. replace (pred (length (A pk f))) with (length (A pk f) - 1) in Hy by lia.
  destruct (bls_unique _ _ _ _ _ _ _ _ _ _ HB Hi Hy E) as [_ ->]. split; [done|]. congruence.
Qed.

Section Removed.
Context (m m' : gmap string bytes) (A : Accounts) (P : gmap bytes PendingTransaction) (pk : bytes) (f : bool)
  (i : nat) (x y : BlsAccountData).
Context (HB : Bls m A P) (Hi : A pk f !! i = Some x) (Hy : last (A pk f) = Some y).
Context (Hl : removed_from m m' pk f (length (A pk f)) i x y).

Local Abbreviation n := (length (A pk f)).
Local Abbreviation A' := (upd pk f (swap_remove i (A pk f)) A).

Lemma removed_lt : i < n.
Proof. by eapply lookup_lt_Some. Qed.

Lemma removed_last : A pk f !! (n - 1) = Some y.
Proof. rewrite last_lookup in Hy. by replace (pred n) with (n - 1) in Hy by lia. Qed.

Lemma removed_sub pk' f' j z : A' pk' f' !! j = Some z → ∃ j', A pk' f' !! j' = Some z.
Proof.
  intros Hz. pose proof removed_last. apply (upd_swap_lookup A pk f i y) in Hz as [(-> & -> & -> & -> & _)|[Hz _]]; eauto using removed_lt.
Qed.

Lemma removed_data pk' f' j : (Z.of_nat j < 2 ^ 63)%Z → m' !! render (KData pk' f' j) = proto_Marshal <$> (A' pk' f' !! j).
Proof.
  intros Hj. pose proof removed_lt as Hlt. pose proof (swap_remove_length i (A pk f) Hlt) as Hlen.
  rewrite Hl by done. rewrite !(decide_False (P := KData _ _ _ = KCount _ _)) by done.
  rewrite !(decide_False (P := KData _ _ _ = KIndex _ _)) by done. unfold upd.
  destruct (decide (pk' = pk ∧ f' = f)) as [[-> ->]|Hne]; [|rewrite !decide_False by naive_solver; by apply HB].
  destruct (decide (j < n - 1)) as [Hlt'|Hge].
  - rewrite (swap_remove_lookup i _ y j) by done. rewrite decide_False by (intros [= E]; lia).
    destruct (decide (j = i)) as [->|]; [by rewrite decide_True|]. rewrite decide_False by naive_solver. by apply HB.
  - rewrite (lookup_ge_None_2 (swap_remove i (A pk f))) by lia.
    destruct (decide (KData pk f j = KData pk f (n - 1))) as [E|Hne]; [done|].
    assert (j ≠ n - 1) by (intros ->; done). rewrite decide_False by (intros [= E]; lia).
    rewrite (bls_data _ _ _ HB) by done. rewrite lookup_ge_None_2; [done|]. lia.
Qed.

Lemma removed_index pk' f' j z : A' pk' f' !! j = Some z →
  m' !! render (KIndex pk' (acct_addr z)) = Some (idx_value f' j).
Proof.
  intros Hz. pose proof removed_lt as Hlt. rewrite Hl by apply acct_addr_length. rewrite decide_False by done.
  apply (upd_swap_lookup A pk f i y) in Hz as [(-> & -> & -> & -> & Hin)|[Hz Hj]]; [| |done..].
  - rewrite decide_False; [by rewrite decide_True|]. intros [= E].
    destruct (last_position _ _ _ _ _ _ _ _ HB Hi Hy (eq_sym E)) as [? _]. lia.
  - rewrite decide_False, decide_False.
    + rewrite !decide_False by done. by eapply (bls_index _ _ _ HB).
    + intros [= -> E]. destruct (bls_unique _ _ _ _ _ _ _ _ _ _ HB Hz removed_last E) as [-> ->].
      destruct (Hj eq_refl eq_refl) as [_ Hj']. lia.
    + intros [= -> E]. destruct (bls_unique _ _ _ _ _ _ _ _ _ _ HB Hz Hi E) as [-> ->].
      by destruct (Hj eq_refl eq_refl).
Qed.

Lemma removed_absent pk' a : length a = 20 → (∀ f', a ∉ addrs A' pk' f') → m' !! render (KIndex pk' a) = None.
Proof.
  intros Ha Hno. pose proof removed_lt as Hlt. rewrite Hl by done. rewrite decide_False by done.
  destruct (decide (KIndex pk' a = KIndex pk (acct_addr x))) as [|Hax]; [done|].
  destruct (decide (KIndex pk' a = KIndex pk (acct_addr y))) as [E|Hay].
  - injection E as -> ->. exfalso. apply (Hno f). unfold addrs. rewrite upd_eq.
    pose proof removed_last as Hy'. assert (i ≠ n - 1) as Hin by (intros E; rewrite <- E in Hy'; congruence).
    apply list_elem_of_fmap. exists y. split; [done|]. apply (list_elem_of_lookup_2 _ i).
    rewrite (swap_remove_lookup i _ y) by (done || lia). by rewrite decide_True.
  - rewrite !decide_False by done. apply (bls_absent _ _ _ HB); [done|]. intros f' Hin. apply (Hno f').
    unfold addrs, upd. destruct (decide (pk' = pk ∧ f' = f)) as [[-> ->]|]; [|done].
    unfold addrs in Hin. rewrite <- (swap_remove_perm i (A pk f) x Hi) in Hin.
    apply elem_of_cons in Hin as [->|?]; [done|done].
Qed.

Lemma bls_removed : Bls m' A' P.
Proof.
  pose proof removed_lt as Hlt. pose proof (bls_bound _ _ _ HB pk f) as Hb.
  pose proof (swap_remove_length i (A pk f) Hlt) as Hlen.
  split; [..|exact removed_data|exact removed_index|exact removed_absent|].
  - intros pk' f'. unfold upd. destruct (decide _); [|apply HB]. lia.
  - intros pk' f' z [j Hz]%list_elem_of_lookup. apply removed_sub in Hz as [j' Hz].
    eapply (bls_pk _ _ _ HB). by eapply list_elem_of_lookup_2.
  - intros pk' f'. unfold addrs, upd. destruct (decide _) as [[-> ->]|]; [|apply HB].
    pose proof (bls_nodup _ _ _ HB pk f) as Hnd. unfold addrs in Hnd.
    rewrite <- (swap_remove_perm i (A pk f) x Hi) in Hnd. by apply NoDup_cons in Hnd as [_ Hnd].
  - intros pk' a Ha Ha'. apply list_elem_of_fmap in Ha as (z & Ez & [j [j1 Hz]%removed_sub]%list_elem_of_lookup).
    apply list_elem_of_fmap in Ha' as (z' & Ez' & [j' [j1' Hz']%removed_sub]%list_elem_of_lookup).
    rewrite Ez in Ez'. by destruct (bls_unique _ _ _ _ _ _ _ _ _ _ HB Hz Hz' Ez').
  - intros pk' f'. rewrite Hl by done. unfold upd. destruct (decide (KCount pk' f' = KCount pk f)) as [E|Hne].
    + injection E as -> ->. rewrite decide_True by done. left. do 2 f_equal. lia.
    + rewrite !decide_False by (done || naive_solver). apply HB.
  - intros a Ha. rewrite Hl by done. rewrite !decide_False by done. by apply HB.
Qed.

End Removed.

End Inv.
