(* ===== verification/BlsAccountsTheorems.v ===== *)
(** * The BLS account store's contract

    On a store that does not fail every operation refines its list operation and leaves
    the lists of every other public key alone; what a failing store or two concurrent
    additions can do to the lists is shown as well. *)

From S2P Require Import Prelude Interfaces GoLib LevelDB FreeGas FreeGasRefine BlsAccounts BlsAccountsRefine.
From Stdlib Require Import Strings.Byte.

Section Ops.
Context `{LevelDBLaws St} `{EthAddressLaws} `{ProtoLaws BlsAccountData} `{ProtoLaws PendingTransaction}.

Implicit Types (s : St) (A : Accounts) (P : gmap bytes PendingTransaction) (x y : BlsAccountData).

Lemma try_Get_ok k s : ¬ ldb_fault s → try_Get k s = (Ok (contents s !! k), s).
Proof. intros Hok. unfold try_Get. rewrite ldb_Get_ok by done. by destruct (contents s !! k). Qed.

(** One batch was written. *)
Definition written s s' : Prop := ∃ ops, ldb_Write ops s = Some s'.

Lemma WriteBatch_ok ops s (Q : gmap string bytes → Prop) : ¬ ldb_fault s → Q (apply_batch ops (contents s)) →
  ∃ s', WriteBatch ops s = (Ok tt, s') ∧ Q (contents s') ∧ written s s'.
Proof.
  intros Hok HQ. unfold WriteBatch. destruct (ldb_Write_ok ops s Hok) as (s' & E & Hc). rewrite E. exists s'. rewrite Hc. by split_and!; [..|exists ops].
Qed.

Lemma getCount_ok s A P pk f : ¬ ldb_fault s → Bls (contents s) A P → getCount pk f s = (Ok (Z.of_nat (length (A pk f))), s).
Proof.
  intros Hok HB. unfold getCount. rewrite (comp_bind_ok _ _ _ _ _ (try_Get_ok _ _ Hok)).
  pose proof (bls_bound _ _ _ HB pk f). pose proof (bls_count _ _ _ HB pk f) as Hc. cbn [render] in Hc.
  destruct Hc as [->|[-> ->]]; [|done]. by rewrite Uint64_PutUint64 by lia.
Qed.

(** Even when the count cannot be read. *)
Lemma getCount_total s A P pk f : Bls (contents s) A P → ∃ n, getCount pk f s = (Ok n, s).
Proof.
  intros HB. unfold getCount, try_Get, mbind, BM_bind, comp_bind.
  pose proof (ldb_get_content (count_key pk f) s) as Hg. pose proof (bls_bound _ _ _ HB pk f).
  pose proof (bls_count _ _ _ HB pk f) as Hc. cbn [render] in Hc.
  destruct Hc as [E|[E _]]; rewrite E in Hg; destruct Hg as [->| ->]; by eexists.
Qed.

Lemma getReverseIndex_in s A P pk f i x : ¬ ldb_fault s → Bls (contents s) A P → A pk f !! i = Some x →
  getReverseIndex (acct_addr x) pk s = (Ok (Some (padID (Z.of_nat i + 1), f)), s).
Proof.
  intros Hok HB Hi. unfold getReverseIndex. rewrite (comp_bind_ok _ _ _ _ _ (try_Get_ok _ _ Hok)).
  pose proof (bls_index _ _ _ HB pk f i x Hi) as E. cbn [render] in E. rewrite E.
  unfold idx_value. rewrite str_bytes_inv, split_flag by (apply padID_no_colon; lia).
  by destruct f.
Qed.

Lemma getReverseIndex_out s A P pk a : ¬ ldb_fault s → Bls (contents s) A P → length a = 20 → (∀ f, a ∉ addrs A pk f) →
  getReverseIndex a pk s = (Ok None, s).
Proof.
  intros Hok HB Ha Hn. unfold getReverseIndex. rewrite (comp_bind_ok _ _ _ _ _ (try_Get_ok _ _ Hok)).
  pose proof (bls_absent _ _ _ HB pk a Ha Hn) as E. cbn [render] in E. by rewrite E.
Qed.

Lemma get_entry_ok s A P pk f i x : ¬ ldb_fault s → Bls (contents s) A P → A pk f !! i = Some x →
  try_Get (account_key pk f (padID (Z.of_nat i + 1))) s = (Ok (Some (proto_Marshal x)), s).
Proof.
  intros Hok HB Hi. rewrite try_Get_ok by done. pose proof (lookup_lt_Some _ _ _ Hi). pose proof (bls_bound _ _ _ HB pk f).
  pose proof (bls_data _ _ _ HB pk f i ltac:(lia)) as E. cbn [render] in E. by rewrite E, Hi.
Qed.

Lemma addNoLock_writes s A P x f : ¬ ldb_fault s → Bls (contents s) A P →
  (Z.of_nat (length (A (BlsPublicKey x) f)) + 1 < 2 ^ 63)%Z →
  let n := length (A (BlsPublicKey x) f) in
  ∃ s', addAccountToBlsPublicKeyNoLock x f s = (Ok tt, s') ∧
    contents s' = apply_batch [BPut (render (KData (BlsPublicKey x) f n)) (proto_Marshal x);
                    BPut (render (KIndex (BlsPublicKey x) (acct_addr x))) (idx_value f n);
                    BPut (render (KCount (BlsPublicKey x) f)) (PutUint64 (Z.of_nat n + 1))] (contents s) ∧ written s s'.
Proof.
  intros Hok HB Hb. unfold addAccountToBlsPublicKeyNoLock. cbv zeta.
  rewrite (comp_bind_ok _ _ _ _ _ (getCount_ok s A P _ f Hok HB)). rewrite u64_small by lia.
  by apply (WriteBatch_ok _ s (λ m, m = _) Hok).
Qed.

Lemma addNoLock_ok s A P x f : ¬ ldb_fault s → Bls (contents s) A P → (∀ g, acct_addr x ∉ addrs A (BlsPublicKey x) g) →
  (Z.of_nat (length (A (BlsPublicKey x) f)) + 1 < 2 ^ 63)%Z →
  ∃ s', addAccountToBlsPublicKeyNoLock x f s = (Ok tt, s') ∧
    Bls (contents s') (upd (BlsPublicKey x) f (A (BlsPublicKey x) f ++ [x]) A) P ∧ written s s'.
Proof.
  intros Hok HB Hn Hb. destruct (addNoLock_writes s A P x f Hok HB Hb) as (s' & E & Hc & Hw).
  exists s'. split; [done|]. split; [|done]. rewrite Hc. by apply bls_add.
Qed.

Lemma account_exists_in s A P f i x y : ¬ ldb_fault s → Bls (contents s) A P → A (BlsPublicKey x) f !! i = Some y →
  acct_addr y = acct_addr x → account_exists x s = (Ok true, s).
Proof.
  intros Hok HB Hi E. unfold account_exists. change (BytesToAddress (Address x)) with (acct_addr x). rewrite <- E.
  by rewrite (comp_bind_ok _ _ _ _ _ (getReverseIndex_in s A P _ f i y Hok HB Hi)).
Qed.

Lemma account_exists_out s A P x : ¬ ldb_fault s → Bls (contents s) A P → (∀ f, acct_addr x ∉ addrs A (BlsPublicKey x) f) →
  account_exists x s = (Ok false, s).
Proof.
  intros Hok HB Hn. unfold account_exists.
  by rewrite (comp_bind_ok _ _ _ _ _ (getReverseIndex_out s A P _ (acct_addr x) Hok HB (acct_addr_length x) Hn)).
Qed.

Lemma removeNoLock_ok s A P pk f i x : ¬ ldb_fault s → Bls (contents s) A P → A pk f !! i = Some x →
  ∃ s', removeAccountFromListNoLock pk (acct_addr x) f s = (Ok tt, s') ∧
    Bls (contents s') (upd pk f (swap_remove i (A pk f)) A) P ∧ written s s'.
Proof.
  intros Hok HB Hi. pose proof (lookup_lt_Some _ _ _ Hi) as Hlt. pose proof (bls_bound _ _ _ HB pk f) as Hb.
  unfold removeAccountFromListNoLock. rewrite (comp_bind_ok _ _ _ _ _ (getReverseIndex_in s A P pk f i x Hok HB Hi)).
  cbv beta match. rewrite Bool.eqb_reflx. cbn [negb]. unfold unpadID. rewrite padID_eq.
  change (ParseUint (padEntityID (Z.of_nat i + 1))) with (unpadEntityID (padEntityID (Z.of_nat i + 1))).
  rewrite unpad_pad by lia. rewrite (comp_bind_ok _ _ _ _ _ (getCount_ok s A P pk f Hok HB)).
  destruct (Z.eqb_spec (Z.of_nat (length (A pk f))) 0); [lia|]. cbv zeta. rewrite u64_small by lia.
  destruct (last (A pk f)) as [y|] eqn:Hy; [|apply last_None in Hy; by rewrite Hy in Hlt; simpl in Hlt; lia].
  pose proof (removed_last A pk f y Hy) as Hy'.
  destruct (Z.eqb_spec (Z.of_nat i + 1) (Z.of_nat (length (A pk f)))) as [E|Hne].
  - assert (i = length (A pk f) - 1) as Ei by lia. assert (y = x) as -> by (rewrite <- Ei in Hy'; congruence).
    apply (WriteBatch_ok _ s (λ m, Bls m _ P) Hok).
    apply (bls_removed (contents s) _ A P pk f i x x HB Hi Hy). intros k Hk.
    cbn [apply_batch foldl apply_op]. rewrite <- Ei.
    change (getReverseIndexKey (acct_addr x) pk) with (render (KIndex pk (acct_addr x))).
    change (count_key pk f) with (render (KCount pk f)).
    change (account_key pk f (padEntityID (Z.of_nat i + 1))) with (render (KData pk f i)).
    rewrite lookup_put, !lookup_del by (done || apply acct_addr_length || (simpl; lia)).
    repeat case_decide; naive_solver.
  - pose proof (get_entry_ok s A P pk f (length (A pk f) - 1) y Hok HB Hy') as Eg.
    replace (Z.of_nat (length (A pk f) - 1) + 1)%Z with (Z.of_nat (length (A pk f))) in Eg by lia.
    rewrite (comp_bind_ok _ _ _ _ _ Eg). cbv beta match. rewrite proto_roundtrip.
    apply (WriteBatch_ok _ s (λ m, Bls m _ P) Hok).
    apply (bls_removed (contents s) _ A P pk f i x y HB Hi Hy). intros k Hk.
    cbn [apply_batch foldl apply_op].
    assert (acct_addr x ≠ acct_addr y) as Hxy.
    { intros Exy. destruct (last_position _ _ _ _ _ _ _ _ HB Hi Hy Exy). lia. }
    change (getReverseIndexKey (acct_addr x) pk) with (render (KIndex pk (acct_addr x))).
    change (getReverseIndexKey (BytesToAddress (Address y)) pk) with (render (KIndex pk (acct_addr y))).
    change (count_key pk f) with (render (KCount pk f)).
    change (account_key pk f (padEntityID (Z.of_nat i + 1))) with (render (KData pk f i)).
    assert (account_key pk f (padID (Z.of_nat (length (A pk f)))) = render (KData pk f (length (A pk f) - 1))) as ->.
    { cbn [render]. do 2 f_equal. lia. }
    rewrite lookup_put, lookup_del, !lookup_put, lookup_del by (done || apply acct_addr_length || (simpl; lia)).
    repeat case_decide; naive_solver.
Qed.

Lemma add_refines s A P x f : ¬ ldb_fault s → Bls (contents s) A P →
  (Z.of_nat (length (A (BlsPublicKey x) f)) + 1 < 2 ^ 63)%Z → (∀ g, acct_addr x ∉ addrs A (BlsPublicKey x) g) →
  ∃ s', AddAccountToBlsPublicKey x f s = (Ok tt, s') ∧
    Bls (contents s') (upd (BlsPublicKey x) f (A (BlsPublicKey x) f ++ [x]) A) P.
Proof.
  intros Hok HB Hb Hn. unfold AddAccountToBlsPublicKey.
  rewrite (comp_bind_ok _ _ _ _ _ (account_exists_out s A P x Hok HB Hn)).
  destruct (addNoLock_ok s A P x f Hok HB Hn Hb) as (s' & E & HB' & _). eauto.
Qed.

Lemma add_rejects s A P x f g : ¬ ldb_fault s → Bls (contents s) A P → acct_addr x ∈ addrs A (BlsPublicKey x) g →
  AddAccountToBlsPublicKey x f s = (Fail ErrAddressExists, s).
Proof.
  intros Hok HB (y & E & [i Hi]%list_elem_of_lookup)%list_elem_of_fmap. unfold AddAccountToBlsPublicKey.
  by rewrite (comp_bind_ok _ _ _ _ _ (account_exists_in s A P g i x y Hok HB Hi (eq_sym E))).
Qed.

(** C8: A new account is appended to its list, leaving every other list and the pending transactions
    alone; an address that is in either list of the key is refused without a change. *)
Theorem bls_account_added s A P x f : ¬ ldb_fault s → Bls (contents s) A P →
  (Z.of_nat (length (A (BlsPublicKey x) f)) + 1 < 2 ^ 63)%Z →
  ((∀ g, acct_addr x ∉ addrs A (BlsPublicKey x) g) → ∃ s', AddAccountToBlsPublicKey x f s = (Ok tt, s') ∧
     Bls (contents s') (upd (BlsPublicKey x) f (A (BlsPublicKey x) f ++ [x]) A) P) ∧
  (∀ g, acct_addr x ∈ addrs A (BlsPublicKey x) g → AddAccountToBlsPublicKey x f s = (Fail ErrAddressExists, s)).
Proof. intros Hok HB Hb. split; [by apply add_refines|by eauto using add_rejects]. Qed.

(** C9: Removing an account takes exactly that account out of its list; the wrong list or an unknown
    address is refused without a change. *)
Theorem bls_account_removed s A P pk f i x a : ¬ ldb_fault s → Bls (contents s) A P → A pk f !! i = Some x →
  length a = 20 → (∀ g, a ∉ addrs A pk g) →
  (∃ s', removeAccountFromList pk (acct_addr x) f s = (Ok tt, s') ∧
     Bls (contents s') (upd pk f (swap_remove i (A pk f)) A) P ∧ x :: swap_remove i (A pk f) ≡ₚ A pk f) ∧
  removeAccountFromList pk (acct_addr x) (negb f) s = (Fail ErrStatusMismatch, s) ∧
  removeAccountFromList pk a f s = (Fail ErrAccountNotFound, s).
Proof.
  intros Hok HB Hi Ha Hn. split_and!.
  - destruct (removeNoLock_ok s A P pk f i x Hok HB Hi) as (s' & E & HB' & _). eauto using swap_remove_perm.
  - unfold removeAccountFromList, removeAccountFromListNoLock.
    rewrite (comp_bind_ok _ _ _ _ _ (getReverseIndex_in s A P pk f i x Hok HB Hi)). by destruct f.
  - unfold removeAccountFromList, removeAccountFromListNoLock.
    by rewrite (comp_bind_ok _ _ _ _ _ (getReverseIndex_out s A P pk a Hok HB Ha Hn)).
Qed.

Lemma get_account_ok s A P pk f i x : ¬ ldb_fault s → Bls (contents s) A P → A pk f !! i = Some x →
  get_account (account_key pk f (padID (Z.of_nat i + 1))) s = (Ok x, s).
Proof.
  intros Hok HB Hi. unfold get_account. rewrite (comp_bind_ok _ _ _ _ _ (get_entry_ok s A P pk f i x Hok HB Hi)).
  by rewrite proto_roundtrip.
Qed.

Lemma by_address_ok s A P pk f i x : ¬ ldb_fault s → Bls (contents s) A P → A pk f !! i = Some x →
  GetAccountByAddress (acct_addr x) pk s = (Ok x, s).
Proof.
  intros Hok HB Hi. unfold GetAccountByAddress.
  rewrite (comp_bind_ok _ _ _ _ _ (getReverseIndex_in s A P pk f i x Hok HB Hi)). by eapply get_account_ok.
Qed.

(** The address of a removed entry is in neither list. *)
Lemma removed_absent_addr m A P pk f i x g : Bls m A P → A pk f !! i = Some x →
  acct_addr x ∉ addrs (upd pk f (swap_remove i (A pk f)) A) pk g.
Proof.
  intros HB Hi Hin. destruct (decide (g = f)) as [->|Hne].
  - unfold addrs in Hin. rewrite upd_eq in Hin. pose proof (bls_nodup _ _ _ HB pk f) as Hnd. unfold addrs in Hnd.
    rewrite <- (swap_remove_perm i (A pk f) x Hi) in Hnd. by apply NoDup_cons in Hnd as [? _].
  - unfold addrs in Hin. rewrite upd_ne in Hin by naive_solver.
    apply list_elem_of_fmap in Hin as (y & E & [j Hj]%list_elem_of_lookup).
    by destruct (bls_unique _ _ _ _ _ _ _ _ _ _ HB Hi Hj E).
Qed.

(** What [MarkAccountConfirmed] does up to the point where the account is out of the unconfirmed list. *)
Lemma mark_removes s A P pk i x now tx : ¬ ldb_fault s → Bls (contents s) A P → A pk false !! i = Some x →
  ∃ s1, Bls (contents s1) (upd pk false (swap_remove i (A pk false)) A) P ∧ written s s1 ∧
    MarkAccountConfirmed now (acct_addr x) tx pk s = addAccountToBlsPublicKeyNoLock (confirm now tx x) true s1.
Proof.
  intros Hok HB Hi. destruct (removeNoLock_ok s A P pk false i x Hok HB Hi) as (s1 & E1 & HB1 & Hw).
  exists s1. split; [done|]. split; [done|].
  unfold MarkAccountConfirmed. rewrite (comp_bind_ok _ _ _ _ _ (getReverseIndex_in s A P pk false i x Hok HB Hi)).
  cbv beta match. rewrite (comp_bind_ok _ _ _ _ _ (get_entry_ok s A P pk false i x Hok HB Hi)).
  cbv beta match. rewrite proto_roundtrip. by rewrite (comp_bind_ok _ _ _ _ _ E1).
Qed.

Lemma mark_refines `{!LevelDBReliable St} s A P pk i x now tx : Bls (contents s) A P →
  A pk false !! i = Some x → (Z.of_nat (length (A pk true)) + 1 < 2 ^ 63)%Z →
  ∃ s', MarkAccountConfirmed now (acct_addr x) tx pk s = (Ok tt, s') ∧
    Bls (contents s') (upd pk true (A pk true ++ [confirm now tx x]) (upd pk false (swap_remove i (A pk false)) A)) P.
Proof.
  intros HB Hi Hb. destruct (mark_removes s A P pk i x now tx (ldb_reliable s) HB Hi) as (s1 & HB1 & _ & E).
  assert (BlsPublicKey (confirm now tx x) = pk) as Epk.
  { change (BlsPublicKey x = pk). apply (bls_pk _ _ _ HB pk false). by eapply list_elem_of_lookup_2. }
  destruct (addNoLock_ok s1 _ P (confirm now tx x) true (ldb_reliable s1) HB1) as (s2 & E2 & HB2 & _); rewrite Epk in *.
  - intros g. exact (removed_absent_addr _ A P pk false i x g HB Hi).
  - by rewrite upd_ne by (by intros []).
  - rewrite upd_ne in HB2 by (by intros []). exists s2. split; [by rewrite E|done].
Qed.

Lemma mark_unknown s A P pk now tx a : ¬ ldb_fault s → Bls (contents s) A P → length a = 20 → (∀ f, a ∉ addrs A pk f) →
  MarkAccountConfirmed now a tx pk s = (Fail ErrAccountNotFound, s).
Proof.
  intros Hok HB Ha Hn. unfold MarkAccountConfirmed.
  by rewrite (comp_bind_ok _ _ _ _ _ (getReverseIndex_out s A P pk a Hok HB Ha Hn)).
Qed.

(** C7: Confirming moves an account from the unconfirmed to the end of the confirmed list, with the
    confirmation fields set, so that it is found there; an account that is already confirmed and an
    unknown one are refused without a change. *)
Theorem bls_account_confirmed `{!LevelDBReliable St} s A P pk i x now tx a : Bls (contents s) A P →
  A pk false !! i = Some x → (Z.of_nat (length (A pk true)) + 1 < 2 ^ 63)%Z → length a = 20 →
  (∃ s', MarkAccountConfirmed now (acct_addr x) tx pk s = (Ok tt, s') ∧
     Bls (contents s') (upd pk true (A pk true ++ [confirm now tx x]) (upd pk false (swap_remove i (A pk false)) A)) P ∧
     GetAccountByAddress (acct_addr x) pk s' = (Ok (confirm now tx x), s')) ∧
  (a ∈ addrs A pk true → MarkAccountConfirmed now a tx pk s = (Fail ErrAlreadyConfirmed, s)) ∧
  ((∀ f, a ∉ addrs A pk f) → MarkAccountConfirmed now a tx pk s = (Fail ErrAccountNotFound, s)).
Proof.
  intros HB Hi Hb Ha. split_and!.
  - destruct (mark_refines s A P pk i x now tx HB Hi Hb) as (s2 & E & HB2). exists s2. split; [done|]. split; [done|].
    change (acct_addr x) with (acct_addr (confirm now tx x)).
    apply (by_address_ok s2 _ P pk true (length (A pk true)) _ (ldb_reliable s2) HB2).
    by rewrite upd_eq, list_lookup_middle.
  - intros (y & -> & [j Hj]%list_elem_of_lookup)%list_elem_of_fmap. unfold MarkAccountConfirmed.
    by rewrite (comp_bind_ok _ _ _ _ _ (getReverseIndex_in s A P pk true j y (ldb_reliable s) HB Hj)).
  - intros Hn. apply (mark_unknown s A P); [apply ldb_reliable|done..].
Qed.

(** Confirmation takes two batches.  If the store fails between them the account is gone: it has
    left the unconfirmed list and is in no list any more. *)
Theorem bls_confirm_not_atomic s A P pk i x now tx : ¬ ldb_fault s → Bls (contents s) A P →
  A pk false !! i = Some x → (∀ s1 ops, written s s1 → ldb_Write ops s1 = None) →
  ∃ s1, MarkAccountConfirmed now (acct_addr x) tx pk s = (Fail ErrBatchWrite, s1) ∧
    Bls (contents s1) (upd pk false (swap_remove i (A pk false)) A) P ∧
    ∀ g, acct_addr x ∉ addrs (upd pk false (swap_remove i (A pk false)) A) pk g.
Proof.
  intros Hok HB Hi Hfail. destruct (mark_removes s A P pk i x now tx Hok HB Hi) as (s1 & HB1 & Hw & E).
  exists s1. split; [|split; [done|intros g; by eapply removed_absent_addr]]. rewrite E.
  destruct (getCount_total s1 _ P (BlsPublicKey (confirm now tx x)) true HB1) as (n & Ec).
  unfold addAccountToBlsPublicKeyNoLock. cbv zeta. rewrite (comp_bind_ok _ _ _ _ _ Ec).
  unfold WriteBatch. by rewrite Hfail.
Qed.


(** ** Queries *)

Lemma read_accounts_ok s A P pk f n : ∀ k, ¬ ldb_fault s → Bls (contents s) A P → k + n ≤ length (A pk f) →
  read_accounts pk f (seqZ (Z.of_nat k + 1) (Z.of_nat n)) s = (Ok (take n (drop k (A pk f))), s).
Proof.
  induction n as [|n IH]; intros k Hok HB Hk; [done|]. rewrite seqZ_cons by lia. cbn [read_accounts].
  destruct (lookup_lt_is_Some_2 (A pk f) k) as [x Hx]; [lia|].
  rewrite (comp_bind_ok _ _ _ _ _ (get_entry_ok s A P pk f k x Hok HB Hx)).
  replace (Z.succ (Z.of_nat k + 1)) with (Z.of_nat (S k) + 1)%Z by lia.
  replace (Z.pred (Z.of_nat (S n))) with (Z.of_nat n) by lia.
  rewrite (comp_bind_ok _ _ _ _ _ (IH (S k) Hok HB ltac:(lia))).
  rewrite (drop_S _ x k Hx). cbn [take mbind option_bind]. by rewrite proto_roundtrip.
Qed.

Lemma scan_accounts_ok s A P pk f (k e : nat) : ¬ ldb_fault s → Bls (contents s) A P → k ≤ e ≤ length (A pk f) →
  scan_accounts pk f (Z.of_nat k + 1) (Z.of_nat e) s = (Ok (take (e - k) (drop k (A pk f))), s).
Proof.
  intros Hok HB He. pose proof (bls_bound _ _ _ HB pk f). unfold scan_accounts.
  replace (Z.of_nat e - (Z.of_nat k + 1) + 1)%Z with (Z.of_nat (e - k)) by lia. rewrite i64_small by lia.
  destruct (Z.ltb_spec (Z.of_nat (e - k)) 0); [lia|]. apply (read_accounts_ok s A P); [done..|lia].
Qed.

Lemma take_min {B} (l : list B) k n : take (Nat.min (k + n) (length l) - k) (drop k l) = take n (drop k l).
Proof.
  destruct (decide (k + n ≤ length l)); [f_equal; lia|]. rewrite !take_ge; [done|rewrite length_drop; lia..].
Qed.

(** The queries answer from the lists: a page is the window of the list clipped to it, with the
    total; lookups by address and by one-based index find the entry; a range returns its entries. *)
Theorem bls_queries s A P pk f (page pageSize from to : nat) : ¬ ldb_fault s → Bls (contents s) A P →
  0 < pageSize → (Z.of_nat ((page + 1) * pageSize) < 2 ^ 63)%Z → 0 < from →
  GetAccountsByBlsPublicKey pk (Z.of_nat page) (Z.of_nat pageSize) f s =
    (Ok (take pageSize (drop (page * pageSize) (A pk f)), Z.of_nat (length (A pk f))), s) ∧
  GetTotalAccountsCount pk f s = (Ok (Z.of_nat (length (A pk f))), s) ∧
  (∀ i x, A pk f !! i = Some x → GetAccountByAddress (acct_addr x) pk s = (Ok x, s) ∧
     GetAccountAddressByIndex pk (Z.of_nat i + 1) f s = (Ok x, s)) ∧
  BatchGetAccountAddresses pk (Z.of_nat from) (Z.of_nat to) f s =
    (Ok (take (S to - from) (drop (from - 1) (A pk f))), s).
Proof.
  intros Hok HB Hps Hov Hfrom. pose proof (bls_bound _ _ _ HB pk f) as Hb. split_and!.
  - unfold GetAccountsByBlsPublicKey. rewrite (comp_bind_ok _ _ _ _ _ (getCount_ok s A P pk f Hok HB)). cbv zeta.
    rewrite (i64_small (Z.of_nat (length _))) by lia. rewrite <- !Nat2Z.inj_mul.
    assert (page * pageSize ≤ (page + 1) * pageSize) by nia. rewrite !i64_small by lia.
    replace (Z.of_nat page + 1)%Z with (Z.of_nat (page + 1)) by lia. rewrite <- !Nat2Z.inj_mul. rewrite !u64_small by lia.
    destruct (Z.ltb_spec (Z.of_nat (length (A pk f))) (Z.of_nat (page * pageSize) + 1)).
    { by rewrite drop_ge, take_nil by lia. }
    set (endID := if (_ <? _)%Z then _ else _).
    assert (endID = Z.of_nat (Nat.min (page * pageSize + pageSize) (length (A pk f)))) as ->.
    { unfold endID. destruct (Z.ltb_spec (Z.of_nat (length (A pk f))) (Z.of_nat ((page + 1) * pageSize))); lia. }
    rewrite (comp_bind_ok _ _ _ _ _ (scan_accounts_ok s A P pk f (page * pageSize)
      (Nat.min (page * pageSize + pageSize) (length (A pk f))) Hok HB ltac:(lia))). by rewrite take_min.
  - by apply getCount_ok with P.
  - intros i x Hi. split; [by eapply by_address_ok|by eapply get_account_ok].
  - unfold BatchGetAccountAddresses. rewrite (comp_bind_ok _ _ _ _ _ (getCount_ok s A P pk f Hok HB)). cbv zeta.
    set (endID := if (_ <? _)%Z then _ else _).
    assert (endID = Z.of_nat (Nat.min to (length (A pk f)))) as ->.
    { unfold endID. destruct (Z.ltb_spec (Z.of_nat (length (A pk f))) (Z.of_nat to)); lia. }
    destruct (Z.eqb_spec (Z.of_nat from) 0); [lia|]. rewrite orb_false_r.
    destruct (Z.ltb_spec (Z.of_nat (Nat.min to (length (A pk f)))) (Z.of_nat from)).
    { destruct (decide (to < from)); [by replace (S to - from) with 0 by lia|]. by rewrite drop_ge, take_nil by lia. }
    replace (Z.of_nat from) with (Z.of_nat (from - 1) + 1)%Z by lia.
    rewrite (scan_accounts_ok s A P pk f _ _ Hok HB) by lia.
    rewrite <- (take_min _ (from - 1) (S to - from)).
    by replace (from - 1 + (S to - from)) with to by lia.
Qed.

(** Pending transactions form a map by address, separate from the account lists. *)
Theorem bls_pending_map s A P tx a : ¬ ldb_fault s → Bls (contents s) A P → length a = 20 →
  (∃ s', SavePendingTransaction tx s = (Ok tt, s') ∧
     Bls (contents s') A (<[BytesToAddress (pt_Address tx) := tx]> P)) ∧
  (∃ s', DeletePendingTransaction a s = (Ok tt, s') ∧ Bls (contents s') A (base.delete a P)) ∧
  GetPendingTransaction a s = (match P !! a with Some tx => Ok tx | None => Fail ErrGetEntry end, s).
Proof.
  intros Hok HB Ha. split_and!.
  - destruct (WriteBatch_ok [BPut (render (KPending (BytesToAddress (pt_Address tx)))) (proto_Marshal tx)] s
      (λ m, m = _) Hok eq_refl) as (s' & E & Hc & _). exists s'. split; [done|]. rewrite Hc.
    pose proof (BytesToAddress_length (pt_Address tx)) as Hlen. cbn [apply_batch foldl apply_op].
    destruct HB. split; try done; intros; rewrite lookup_put by (done || apply acct_addr_length); rewrite ?decide_False by done; eauto.
    destruct (decide (BytesToAddress (pt_Address tx) = a0)) as [->|Hne]; [by rewrite decide_True, lookup_insert_eq|].
    rewrite decide_False by naive_solver. rewrite lookup_insert_ne by done. eauto.
  - destruct (WriteBatch_ok [BDelete (render (KPending a))] s (λ m, m = _) Hok eq_refl) as (s' & E & Hc & _).
    exists s'. split; [done|]. rewrite Hc. cbn [apply_batch foldl apply_op].
    destruct HB. split; try done; intros; rewrite lookup_del by (done || apply acct_addr_length); rewrite ?decide_False by done; eauto.
    destruct (decide (a = a0)) as [->|Hne]; [by rewrite decide_True, lookup_delete_eq|].
    rewrite decide_False by naive_solver. rewrite lookup_delete_ne by done. eauto.
  - unfold GetPendingTransaction. rewrite (comp_bind_ok _ _ _ _ _ (try_Get_ok _ _ Hok)).
    pose proof (bls_pending _ _ _ HB a Ha) as E. cbn [render] in E. rewrite E.
    destruct (P !! a) as [tx'|]; [|done]. simpl. by rewrite proto_roundtrip.
Qed.

(** ** Failures *)

(** A read error counts as an absent key.  When the count cannot be read while an account is added,
    the new account overwrites the first entry of the list, the count drops to one, and the index of
    the old first account now leads to the new account's data. *)
Theorem bls_read_fault_overwrites s A P x y f : Bls (contents s) A P →
  A (BlsPublicKey x) f !! 0 = Some y → (∀ g, acct_addr x ∉ addrs A (BlsPublicKey x) g) →
  ldb_Get (count_key (BlsPublicKey x) f) s = ReadError → (∀ ops, ldb_Write ops s ≠ None) →
  ∃ s', AddAccountToBlsPublicKey x f s = (Ok tt, s') ∧
    contents s' !! account_key (BlsPublicKey x) f (padID 1) = Some (proto_Marshal x) ∧
    contents s' !! count_key (BlsPublicKey x) f = Some (PutUint64 1) ∧
    contents s' !! getReverseIndexKey (acct_addr y) (BlsPublicKey x) =
      Some (str_bytes (confirmed_flag f +:+ ":" +:+ padID 1)).
Proof.
  intros HB Hy Hn Hcount Hw. set (pk := BlsPublicKey x) in *.
  assert (account_exists x s = (Ok false, s)) as Ee.
  { unfold account_exists, getReverseIndex, try_Get, mbind, BM_bind, comp_bind. fold pk.
    pose proof (ldb_get_content (getReverseIndexKey (acct_addr x) pk) s) as Hg.
    pose proof (bls_absent _ _ _ HB pk (acct_addr x) (acct_addr_length x) Hn) as E. cbn [render] in E.
    rewrite E in Hg. unfold acct_addr in Hg. destruct Hg as [->| ->]; done. }
  assert (getCount pk f s = (Ok 0%Z, s)) as Ec.
  { unfold getCount, try_Get, mbind, BM_bind, comp_bind. by rewrite Hcount. }
  unfold AddAccountToBlsPublicKey. rewrite (comp_bind_ok _ _ _ _ _ Ee). cbv match.
  unfold addAccountToBlsPublicKeyNoLock. cbv zeta. fold pk. rewrite (comp_bind_ok _ _ _ _ _ Ec).
  unfold WriteBatch. destruct (ldb_Write _ s) as [s'|] eqn:E; [|by destruct (Hw _ E)].
  exists s'. split; [done|]. rewrite (ldb_written _ _ _ E). cbn [apply_batch foldl apply_op].
  change (u64 (0 + 1)) with 1%Z. change (BytesToAddress (Address x)) with (acct_addr x).
  change (account_key pk f (padID 1)) with (render (KData pk f 0)).
  change (getReverseIndexKey (acct_addr x) pk) with (render (KIndex pk (acct_addr x))).
  change (getReverseIndexKey (acct_addr y) pk) with (render (KIndex pk (acct_addr y))).
  change (count_key pk f) with (render (KCount pk f)).
  rewrite !lookup_put by (done || apply acct_addr_length). split_and!; [|by rewrite decide_True|].
  { rewrite !decide_False by done. by rewrite decide_True. }
  rewrite decide_False, decide_False, decide_False; [|done| |done].
  - by rewrite (bls_index _ _ _ HB pk f 0 y Hy).
  - intros [= E']. apply (Hn f). rewrite E'. by eapply addrs_lookup.
Qed.

(** Additions to the two lists hold different locks.  When the checks of two additions of the same
    address both precede the writes, the address ends up in both lists under one index entry: it
    can then neither be confirmed nor removed from the unconfirmed list. *)
Theorem bls_add_race `{!LevelDBReliable St} s A P x x' now tx : Bls (contents s) A P →
  (∀ g, acct_addr x ∉ addrs A (BlsPublicKey x) g) → acct_addr x' = acct_addr x → BlsPublicKey x' = BlsPublicKey x →
  (∀ f, (Z.of_nat (length (A (BlsPublicKey x) f)) + 1 < 2 ^ 63)%Z) →
  ∃ s1 s2, account_exists x s = (Ok false, s) ∧ account_exists x' s = (Ok false, s) ∧
    addAccountToBlsPublicKeyNoLock x false s = (Ok tt, s1) ∧
    addAccountToBlsPublicKeyNoLock x' true s1 = (Ok tt, s2) ∧
    (∃ id id', contents s2 !! account_key (BlsPublicKey x) false id = Some (proto_Marshal x) ∧
               contents s2 !! account_key (BlsPublicKey x) true id' = Some (proto_Marshal x')) ∧
    MarkAccountConfirmed now (acct_addr x) tx (BlsPublicKey x) s2 = (Fail ErrAlreadyConfirmed, s2) ∧
    removeAccountFromList (BlsPublicKey x) (acct_addr x) false s2 = (Fail ErrStatusMismatch, s2).
Proof.
  intros HB Hn Ea Epk Hb. set (pk := BlsPublicKey x) in *.
  destruct (addNoLock_ok s A P x false (ldb_reliable s) HB Hn (Hb false)) as (s1 & E1 & HB1 & _). fold pk in HB1.
  assert (upd pk false (A pk false ++ [x]) A pk true = A pk true) as Eu by (by apply upd_ne; intros []).
  destruct (addNoLock_writes s1 _ P x' true (ldb_reliable s1) HB1) as (s2 & E2 & Hc & _).
  { rewrite Epk. fold pk. rewrite Eu. apply Hb. }
  rewrite Epk, Ea in Hc. fold pk in Hc. rewrite Eu in Hc. set (n := length (A pk true)) in *.
  assert (getReverseIndex (acct_addr x) pk s2 = (Ok (Some (padID (Z.of_nat n + 1), true)), s2)) as Eidx.
  { unfold getReverseIndex. rewrite (comp_bind_ok _ _ _ _ _ (try_Get_ok _ _ (ldb_reliable s2))).
    change (getReverseIndexKey (acct_addr x) pk) with (render (KIndex pk (acct_addr x))).
    rewrite Hc. cbn [apply_batch foldl apply_op]. rewrite lookup_put by (done || apply acct_addr_length).
    rewrite decide_False by done. rewrite lookup_insert_eq. unfold idx_value.
    by rewrite str_bytes_inv, split_flag by (apply padID_no_colon; lia). }
  exists s1, s2. split_and!; [by apply (account_exists_out s A P)|..].
  - apply (account_exists_out s A P); [apply ldb_reliable|done|]. rewrite Epk, Ea. done.
  - done.
  - done.
  - exists (padID (Z.of_nat (length (A pk false)) + 1)), (padID (Z.of_nat n + 1)).
    specialize (Hb true) as Hbt. specialize (Hb false) as Hbf.
    change (account_key pk false (padID (Z.of_nat (length (A pk false)) + 1))) with (render (KData pk false (length (A pk false)))).
    change (account_key pk true (padID (Z.of_nat n + 1))) with (render (KData pk true n)).
    rewrite Hc. cbn [apply_batch foldl apply_op]. rewrite !lookup_put by (apply acct_addr_length || (simpl; unfold n; done || lia)).
    rewrite !decide_False by done. rewrite decide_True by done. split; [|done].
    rewrite (bls_data _ _ _ HB1) by lia. by rewrite upd_eq, list_lookup_middle.
  - unfold MarkAccountConfirmed. by rewrite (comp_bind_ok _ _ _ _ _ Eidx).
  - unfold removeAccountFromList, removeAccountFromListNoLock. by rewrite (comp_bind_ok _ _ _ _ _ Eidx).
Qed.

End Ops.

(** ** The theorems at a concrete store *)

Module ToyBls.
Export ToyAddress ToyProto.

#[export] Instance bls_eq_dec : EqDecision BlsAccountData.
Proof. solve_decision. Defined.
#[export] Instance pending_eq_dec : EqDecision PendingTransaction.
Proof. solve_decision. Defined.

#[export] Instance ser_bool : Ser bool :=
  ser_iso (λ b : bool, if b then 1%Z else 0%Z) (λ z, (z =? 1)%Z) ltac:(by intros []).
#[export] Instance ser_str : Ser string := ser_iso str_bytes bytes_str str_bytes_inv.
#[export] Instance bls_ser : Ser BlsAccountData :=
  ser_iso (λ d, (Address d, BlsPublicKey d, RegisteredAt d, RegisterTxHash d, IsConfirmed d, ConfirmedAt d, ConfirmTxHash d))
    (λ '(a, b, c, d, e, f, g), Build_BlsAccountData a b c d e f g) ltac:(by intros []).
#[export] Instance pending_ser : Ser PendingTransaction :=
  ser_iso (λ d, (pt_Address d, pt_BlsPublicKey d, pt_RawTransactionHex d, pt_CreatedAt d, pt_Nonce d, pt_OriginalGasPrice d))
    (λ '(a, b, c, d, e, f), Build_PendingTransaction a b c d e f) ltac:(by intros []).
#[export] Instance bls_proto : Proto BlsAccountData := toy_proto (Build_BlsAccountData [] [] 0 [] false 0 []).
#[export] Instance bls_proto_laws : ProtoLaws BlsAccountData.
Proof. apply toy_proto_laws. Qed.
#[export] Instance pending_proto : Proto PendingTransaction := toy_proto (Build_PendingTransaction [] [] "" 0 0 0).
#[export] Instance pending_proto_laws : ProtoLaws PendingTransaction.
Proof. apply toy_proto_laws. Qed.

Definition bls_address (n : Z) : bytes := replicate 19 x00 ++ [z2b n].
Definition pubkey : bytes := [x0a; x0b].
Definition account (n : Z) : BlsAccountData := Build_BlsAccountData (bls_address n) pubkey n [x01] false 0 [].

Definition one_map : gmap string bytes := snd (addAccountToBlsPublicKeyNoLock (account 1) false ∅).
Definition two_map : gmap string bytes := snd (addAccountToBlsPublicKeyNoLock (account 2) false one_map).
Definition one_list : Accounts := upd pubkey false [account 1] (λ _ _, []).
Definition two_lists : Accounts := upd pubkey false [account 1; account 2] one_list.

Lemma one_map_bls : Bls one_map one_list ∅.
Proof.
  destruct (addNoLock_ok (∅ : gmap string bytes) (λ _ _, []) ∅ (account 1) false (map_ldb_no_fault ∅) bls_empty)
    as (s' & E & HB & _); [intros g; apply not_elem_of_nil|simpl; lia|].
  unfold one_map. rewrite E. exact HB.
Qed.

Lemma two_map_bls : Bls two_map two_lists ∅.
Proof.
  destruct (addNoLock_ok one_map one_list ∅ (account 2) false (map_ldb_no_fault one_map) one_map_bls) as (s' & E & HB & _).
  - intros g. apply (bool_decide_unpack _). destruct g; vm_compute; exact I.
  - by vm_compute.
  - unfold two_map. rewrite E. exact HB.
Qed.

Lemma not_listed g : acct_addr (account 3) ∉ addrs two_lists pubkey g.
Proof. apply (bool_decide_unpack _). destruct g; vm_compute; exact I. Qed.

Definition flaky_two : FlakyStore := {| fl_map := two_map; fl_bad := {[count_key pubkey false]} |}.
Definition failing_two : FailingStore := {| fs_map := two_map; fs_left := 1 |}.

Lemma failing_two_ok : ¬ ldb_fault failing_two.
Proof. intros [[k E]|[ops E]]; simpl in E; [by destruct (two_map !! k)|done]. Qed.

End ToyBls.

Import ToyBls.

Lemma bls_account_added_witness : ∃ s', AddAccountToBlsPublicKey (account 3) true two_map = (Ok tt, s') ∧
  Bls (contents s') (upd pubkey true ([] ++ [account 3]) two_lists) ∅.
Proof.
  apply (bls_account_added two_map two_lists ∅ (account 3) true (map_ldb_no_fault two_map) two_map_bls);
    [vm_compute; done|exact not_listed].
Defined.

Lemma bls_account_removed_witness :
  removeAccountFromList pubkey (bls_address 1) true two_map = (Fail ErrStatusMismatch, two_map).
Proof.
  apply (bls_account_removed two_map two_lists ∅ pubkey false 0 (account 1) (bls_address 3)
    (map_ldb_no_fault two_map) two_map_bls); [done..|exact not_listed].
Defined.

Lemma bls_account_confirmed_witness : ∃ s', MarkAccountConfirmed 9 (bls_address 1) [x07] pubkey two_map = (Ok tt, s') ∧
  Bls (contents s') (upd pubkey true ([] ++ [confirm 9 [x07] (account 1)])
    (upd pubkey false (swap_remove 0 (two_lists pubkey false)) two_lists)) ∅ ∧
  GetAccountByAddress (bls_address 1) pubkey s' = (Ok (confirm 9 [x07] (account 1)), s').
Proof.
  refine (proj1 (bls_account_confirmed two_map two_lists ∅ pubkey 0 (account 1) 9 [x07] (bls_address 3) two_map_bls
    eq_refl _ eq_refl)). by vm_compute.
Defined.

Lemma bls_confirm_not_atomic_witness : ∃ s1,
  MarkAccountConfirmed 9 (bls_address 1) [x07] pubkey failing_two = (Fail ErrBatchWrite, s1) ∧
  Bls (contents s1) (upd pubkey false (swap_remove 0 (two_lists pubkey false)) two_lists) ∅ ∧
  ∀ g, acct_addr (account 1) ∉ addrs (upd pubkey false (swap_remove 0 (two_lists pubkey false)) two_lists) pubkey g.
Proof.
  apply (bls_confirm_not_atomic failing_two two_lists ∅ pubkey 0 (account 1) 9 [x07] failing_two_ok two_map_bls eq_refl).
  intros s1 ops [ops' E]. simpl in E. by injection E as <-.
Defined.

Lemma bls_queries_witness :
  GetAccountsByBlsPublicKey pubkey 0 1 false two_map = (Ok ([account 1], 2%Z), two_map).
Proof.
  apply (bls_queries two_map two_lists ∅ pubkey false 0 1 1 1 (map_ldb_no_fault two_map) two_map_bls); simpl; lia.
Defined.

Lemma bls_pending_map_witness : GetPendingTransaction (bls_address 1) two_map = (Fail ErrGetEntry, two_map).
Proof.
  apply (bls_pending_map two_map two_lists ∅ (Build_PendingTransaction [] [] "" 0 0 0) (bls_address 1)
    (map_ldb_no_fault two_map) two_map_bls eq_refl).
Defined.

Lemma bls_read_fault_overwrites_witness : ∃ s', AddAccountToBlsPublicKey (account 3) false flaky_two = (Ok tt, s') ∧
  contents s' !! account_key pubkey false (padID 1) = Some (proto_Marshal (account 3)) ∧
  contents s' !! count_key pubkey false = Some (PutUint64 1) ∧
  contents s' !! getReverseIndexKey (acct_addr (account 1)) pubkey = Some (str_bytes (confirmed_flag false +:+ ":" +:+ padID 1)).
Proof.
  refine (bls_read_fault_overwrites flaky_two two_lists ∅ (account 3) (account 1) false two_map_bls eq_refl not_listed _ _);
    [by vm_compute|done].
Defined.

Lemma bls_add_race_witness : ∃ s1 s2, account_exists (account 3) two_map = (Ok false, two_map) ∧
  account_exists (account 3) two_map = (Ok false, two_map) ∧
  addAccountToBlsPublicKeyNoLock (account 3) false two_map = (Ok tt, s1) ∧
  addAccountToBlsPublicKeyNoLock (account 3) true s1 = (Ok tt, s2) ∧
  (∃ id id', contents s2 !! account_key pubkey false id = Some (proto_Marshal (account 3)) ∧
             contents s2 !! account_key pubkey true id' = Some (proto_Marshal (account 3))) ∧
  MarkAccountConfirmed 9 (acct_addr (account 3)) [x07] pubkey s2 = (Fail ErrAlreadyConfirmed, s2) ∧
  removeAccountFromList pubkey (acct_addr (account 3)) false s2 = (Fail ErrStatusMismatch, s2).
Proof.
  refine (bls_add_race two_map two_lists ∅ (account 3) (account 3) 9 [x07] two_map_bls not_listed eq_refl eq_refl _).
  intros []; vm_compute; done.
Defined.
