(* ===== verification/Notifications.v ===== *)
(** * Notifications of an account ([pkg/storage/bls_account_noti.go])

    Per address a counter and one record per notification under notif:<address>:<reversed id>,
    where the reversed id is 9999999999 minus the id in twenty digits, so that iterating upwards
    from the newest record lists them newest first. *)

From S2P Require Import Prelude Interfaces GoLib LevelDB LdbIter.
From Stdlib Require Import Strings.Byte Strings.Ascii.
From Stdlib Require Import Strings.Byte Strings.Ascii.

Record Notification := {
  n_Id : string;
  n_AccountAddress : bytes;
  n_Message : string;
  n_CreatedAt : Z;
}.

Definition set_Id (id : string) (n : Notification) : Notification :=
  {| n_Id := id; n_AccountAddress := n_AccountAddress n; n_Message := n_Message n; n_CreatedAt := n_CreatedAt n |}.

Inductive noti_error :=
  | ErrCounterRead
  | ErrCounterWrite
  | ErrNotiWrite
  | ErrNotiRead      (** the total count could not be read *)
  | ErrNotiUnmarshal
  | ErrIterator.

Definition NOTI_COUNTER_PREFIX : string := "notif_counter".
Definition NOTI_DATA_PREFIX : string := "notif".

(** [hasPrefix] *)
Fixpoint hasPrefix (key prefix : bytes) {struct prefix} : bool :=
  match prefix, key with
  | [], _ => true
  | p :: prefix, k :: key => if decide (k = p) then hasPrefix key prefix else false
  | _ :: _, [] => false
  end.

Section Notifications.
Context `{LevelDBIter St} `{EthAddress} `{Proto Notification}.

Definition NM : Type → Type := comp St noti_error.
#[export] Instance NM_ret : MRet NM := comp_ret.
#[export] Instance NM_bind : MBind NM := comp_bind.

Definition getCounterKey (address : bytes) : string := NOTI_COUNTER_PREFIX +:+ ":" +:+ AddressHex address.

Definition noti_prefix (address : bytes) : string := NOTI_DATA_PREFIX +:+ ":" +:+ AddressHex address +:+ ":".

Definition getNotificationKey (address : bytes) (reversedID : Z) : string :=
  noti_prefix address +:+ pad_width 20 reversedID.

Definition db_Put (e : noti_error) (k : string) (v : bytes) : NM unit := λ s,
  match ldb_Write [BPut k v] s with Some s' => (Ok tt, s') | None => (Fail e, s) end.

(** A counter that is not eight bytes long counts as absent. *)
Definition counter_value (v : option bytes) : Z :=
  match v with
  | Some data => if (length data =? 8)%nat then default 0%Z (Uint64 data) else 0%Z
  | None => 0%Z
  end.

Definition read_counter (e : noti_error) (address : bytes) : NM Z := λ s,
  match ldb_Get (getCounterKey address) s with
  | Found data => (Ok (counter_value (Some data)), s)
  | NotFound => (Ok (counter_value None), s)
  | ReadError => (Fail e, s)
  end.

Definition getNextID (address : bytes) : NM Z :=
  currentID ← read_counter ErrCounterRead address;
  let nextID := u64 (currentID + 1) in
  _ ← db_Put ErrCounterWrite (getCounterKey address) (PutUint64 nextID);
  mret nextID.

(** The record is written under the id that [getNextID] has reserved. *)
Definition put_notification (notif : Notification) (nextID : Z) : NM unit :=
  let notif := set_Id (FormatUint nextID) notif in
  let reversedID := u64 (9999999999 - nextID) in
  db_Put ErrNotiWrite (getNotificationKey (BytesToAddress (n_AccountAddress notif)) reversedID) (proto_Marshal notif).

Definition SaveNotification (notif : Notification) : NM unit :=
  nextID ← getNextID (BytesToAddress (n_AccountAddress notif));
  put_notification notif nextID.

(** [SaveNotification] takes no lock; the atomic steps of one call are the database accesses. *)
Inductive save_thread :=
  | SaveStart (n : Notification)
  | SaveRead (n : Notification) (currentID : Z)
  | SaveReserved (n : Notification) (nextID : Z)
  | SaveDone (r : outcome noti_error unit).

Definition save_next {A} (r : outcome noti_error A * St) (k : A → save_thread) : save_thread * St :=
  match r with
  | (Ok a, s) => (k a, s)
  | (Fail e, s) => (SaveDone (Fail e), s)
  | (Panic, s) => (SaveDone Panic, s)
  | (OutOfFuel, s) => (SaveDone OutOfFuel, s)
  end.

Definition save_step (t : save_thread) (s : St) : save_thread * St :=
  match t with
  | SaveStart n => save_next (read_counter ErrCounterRead (BytesToAddress (n_AccountAddress n)) s) (SaveRead n)
  | SaveRead n currentID =>
    let nextID := u64 (currentID + 1) in
    save_next (db_Put ErrCounterWrite (getCounterKey (BytesToAddress (n_AccountAddress n))) (PutUint64 nextID) s)
      (λ _, SaveReserved n nextID)
  | SaveReserved n nextID => save_next (put_notification n nextID s) (λ u, SaveDone (Ok u))
  | SaveDone r => (SaveDone r, s)
  end.

Definition GetTotalCount (address : bytes) : NM Z := read_counter ErrNotiRead address.

(** The loop of [GetNotifications]: [Next] is called before the count is compared, so a failing
    iterator is noticed even when the page is full. *)
Fixpoint collect (prefix : bytes) (l : list (string * bytes)) (failed : bool) (room : nat) :
    noti_error + list Notification :=
  match l with
  | [] => if failed then inl ErrIterator else inr []
  | (k, v) :: l =>
    match room with
    | O => inr []
    | S room =>
      if hasPrefix (str_bytes k) prefix then
        match proto_Unmarshal v with
        | None => inl ErrNotiUnmarshal
        | Some n => match collect prefix l failed room with inl e => inl e | inr ns => inr (n :: ns) end
        end
      else inr []
    end
  end.

Definition GetNotifications (address : bytes) (page pageSize : Z) : NM (list Notification * Z) :=
  let page := if (page <? 0)%Z then 0%Z else page in
  let pageSize := if (pageSize <=? 0)%Z || (100 <? pageSize)%Z then 20%Z else pageSize in
  totalCount ← GetTotalCount address;
  let total := i64 totalCount in
  if (total =? 0)%Z then mret ([], 0%Z)
  else
    let startItemIndex := i64 (page * pageSize) in
    if (total <=? startItemIndex)%Z then mret ([], total)
    else
      let startReversedID := u64 (u64 (9999999999 - totalCount) + u64 startItemIndex) in
      λ s,
        let '(l, failed) := ldb_Iter (getNotificationKey address startReversedID) s in
        match collect (str_bytes (noti_prefix address)) l failed (Z.to_nat pageSize) with
        | inl e => (Fail e, s)
        | inr ns => (Ok (ns, total), s)
        end.

End Notifications.

(** * The notification store's contract

    The store holds, for every address, a list of notifications; saving appends to it and a page is
    a window of the reversed list. *)

From stdpp Require Import sorting.

Lemma hasPrefix_app p y : hasPrefix (str_bytes (p +:+ y)) (str_bytes p) = true.
Proof. induction p as [|c p IH]; [done|]. simpl. by rewrite decide_True. Qed.

Lemma hasPrefix_inv k p : hasPrefix (str_bytes k) (str_bytes p) = true → ∃ y, k = p +:+ y.
Proof.
  revert k. induction p as [|c p IH]; intros k; [by exists k|]. destruct k as [|d k]; simpl; [done|].
  case_decide as E; [|done]. intros [y ->]%IH. exists y.
  apply (f_equal ascii_of_byte) in E. by rewrite !ascii_of_byte_of_ascii in E; subst.
Qed.

Section Spec.
Context `{LevelDBLaws St} `{!LevelDBIter St} `{!LevelDBIterLaws St} `{EthAddressLaws} `{ProtoLaws Notification}.

Implicit Types (a : bytes) (N : bytes → list Notification).

(** The reversed id of the notification at position [i], oldest first. *)
Definition rev_id (i : nat) : Z := (9999999998 - Z.of_nat i)%Z.

Record Notifs (m : gmap string bytes) N : Prop := {
  noti_bound a : (Z.of_nat (length (N a)) ≤ 9999999999)%Z;
  noti_counter a : length a = 20 → m !! getCounterKey a = Some (PutUint64 (Z.of_nat (length (N a)))) ∨
    (m !! getCounterKey a = None ∧ N a = []);
  noti_data a i x : length a = 20 → N a !! i = Some x →
    m !! getNotificationKey a (rev_id i) = Some (proto_Marshal x);
  noti_only a y v : length a = 20 → m !! (noti_prefix a +:+ y) = Some v →
    ∃ i, i < length (N a) ∧ y = pad_width 20 (rev_id i);
}.

Definition push (a : bytes) (x : Notification) N : bytes → list Notification :=
  λ b, if decide (b = a) then N a ++ [x] else N b.

Lemma notifs_empty : Notifs ∅ (λ _, []).
Proof. split; try done. by right. Qed.

Lemma counter_noti_ne a b y : getCounterKey a ≠ noti_prefix b +:+ y.
Proof.
  unfold getCounterKey, noti_prefix. rewrite !str_app_assoc. by apply (diverge_ne "notif_" "notif:").
Qed.

Lemma counter_key_inj a b : length a = 20 → length b = 20 → getCounterKey a = getCounterKey b → a = b.
Proof. intros Ha Hb E. apply AddressHex_inj; [done..|]. by apply (str_app_inj_l "notif_counter:"). Qed.

Lemma noti_prefix_inj a b x y : length a = 20 → length b = 20 → noti_prefix a +:+ x = noti_prefix b +:+ y → a = b ∧ x = y.
Proof.
  intros Ha Hb E. unfold noti_prefix in E. rewrite !str_app_assoc in E.
  apply (str_app_inj_l "notif:") in E.
  apply str_app_inj_len in E as [E Er]; [|by rewrite !AddressHex_length].
  split; [by apply AddressHex_inj|]. by apply (str_app_inj_l ":") in Er.
Qed.

Lemma rev_id_compare i j : (Z.of_nat i < 9999999999)%Z → (Z.of_nat j < 9999999999)%Z →
  String.compare (pad_width 20 (rev_id i)) (pad_width 20 (rev_id j)) = (rev_id i ?= rev_id j)%Z.
Proof. intros Hi Hj. unfold rev_id. apply pad_width_compare; lia. Qed.

Lemma noti_key_le a i j : (Z.of_nat i < 9999999999)%Z → (Z.of_nat j < 9999999999)%Z →
  str_le (getNotificationKey a (rev_id i)) (getNotificationKey a (rev_id j)) ↔ j ≤ i.
Proof.
  intros Hi Hj. rewrite str_le_compare. unfold getNotificationKey. rewrite str_compare_app_l, rev_id_compare by done.
  unfold rev_id. destruct (Z.compare_spec (9999999998 - Z.of_nat i) (9999999998 - Z.of_nat j)); naive_solver lia.
Qed.

Lemma noti_key_inj a i j : (Z.of_nat i < 9999999999)%Z → (Z.of_nat j < 9999999999)%Z →
  getNotificationKey a (rev_id i) = getNotificationKey a (rev_id j) → i = j.
Proof.
  intros Hi Hj E. pose proof (proj1 (noti_key_le a i j Hi Hj)) as Hle. pose proof (proj1 (noti_key_le a j i Hj Hi)) as Hge.
  rewrite E in Hle, Hge. specialize (Hle ltac:(reflexivity)). specialize (Hge ltac:(reflexivity)). lia.
Qed.

(** ** Saving *)

Lemma read_counter_ok e a s N : Notifs (contents s) N → length a = 20 →
  read_counter e a s = (Ok (Z.of_nat (length (N a))), s) ∨ (read_counter e a s = (Fail e, s) ∧ ldb_fault s).
Proof.
  intros HN Ha. unfold read_counter. pose proof (ldb_get_content (getCounterKey a) s) as Hg.
  pose proof (noti_bound _ _ HN a).
  destruct (noti_counter _ _ HN a Ha) as [E|[E En]]; rewrite E in Hg; destruct Hg as [E'| E']; rewrite E';
    try (right; split; [done|]; left; by eexists).
  - left. unfold counter_value, PutUint64. rewrite be_bytes_length. change (be_bytes 8) with PutUint64.
    by rewrite Uint64_PutUint64 by lia.
  - left. by rewrite En.
Qed.

(** Writing the counter and the record of a new notification. *)
Lemma notifs_push m N a x : Notifs m N → length a = 20 → (Z.of_nat (length (N a)) < 9999999999)%Z →
  Notifs (<[getNotificationKey a (rev_id (length (N a))) := proto_Marshal x]>
          (<[getCounterKey a := PutUint64 (Z.of_nat (length (N a)) + 1)]> m)) (push a x N).
Proof.
  intros HN Ha Hb. split; unfold push.
  - intros b. pose proof (noti_bound _ _ HN b). case_decide; [|done]. rewrite length_app. simpl. lia.
  - intros b Hb'. rewrite lookup_insert_ne by (apply not_eq_sym, counter_noti_ne).
    case_decide as E; [subst b|].
    + left. rewrite lookup_insert_eq, length_app. simpl. do 2 f_equal. lia.
    + rewrite lookup_insert_ne by (intros E'; apply E; symmetry; by apply counter_key_inj). by apply HN.
  - intros b i y Hb' Hi. case_decide as E; [subst b|].
    + apply lookup_app_Some in Hi as [Hi|[Hl Hi]].
      * pose proof (lookup_lt_Some _ _ _ Hi). rewrite !lookup_insert_ne; [by apply HN|apply counter_noti_ne|].
        intros E%noti_key_inj; lia.
      * apply list_lookup_singleton_Some in Hi as [Hi <-]. replace i with (length (N a)) by lia. apply lookup_insert_eq.
    + rewrite !lookup_insert_ne; [by apply HN|apply counter_noti_ne|]. intros [? _]%noti_prefix_inj; done.
  - intros b y v Hb'. destruct (decide (getNotificationKey a (rev_id (length (N a))) = noti_prefix b +:+ y)) as [E|Hne].
    + apply noti_prefix_inj in E as [<- <-]; [|done..]. intros _. exists (length (N a)).
      rewrite decide_True, length_app by done. simpl. split; [lia|done].
    + rewrite !lookup_insert_ne by (done || apply counter_noti_ne). intros Hv.
      destruct (noti_only _ _ HN b y v Hb' Hv) as (i & Hi & ->). exists i. split; [|done].
      case_decide; [subst; rewrite length_app; simpl; lia|done].
Qed.

Lemma save_cases s N n : Notifs (contents s) N →
  let a := BytesToAddress (n_AccountAddress n) in
  let id := (Z.of_nat (length (N a)) + 1)%Z in
  (id ≤ 9999999999)%Z →
  (∃ s', SaveNotification n s = (Ok tt, s') ∧ Notifs (contents s') (push a (set_Id (FormatUint id) n) N)) ∨
  (∃ e, SaveNotification n s = (Fail e, s) ∧ ldb_fault s) ∨
  (∃ s1, SaveNotification n s = (Fail ErrNotiWrite, s1) ∧ ldb_fault s1 ∧
     contents s1 = <[getCounterKey a := PutUint64 id]> (contents s)).
Proof.
  intros HN a id Hid. assert (length a = 20) as Ha by apply BytesToAddress_length.
  unfold SaveNotification, getNextID, mbind, NM_bind, comp_bind. fold a.
  destruct (read_counter_ok ErrCounterRead a s N HN Ha) as [E|[E Hf]]; rewrite E; [|right; left; eauto].
  fold id. rewrite (u64_small id) by lia. unfold db_Put.
  destruct (ldb_Write _ s) as [s1|] eqn:Ew; [|right; left; eexists; split; [done|]; right; eauto].
  pose proof (ldb_written _ _ _ Ew) as Hc. cbn in Hc. unfold mret, NM_ret, comp_ret, put_notification, db_Put.
  cbn [n_AccountAddress set_Id]. fold a.
  assert (u64 (9999999999 - id) = rev_id (length (N a))) as -> by (unfold rev_id; rewrite u64_small; lia).
  destruct (ldb_Write _ s1) as [s2|] eqn:Ew2.
  - left. exists s2. split; [done|]. rewrite (ldb_written _ _ _ Ew2). cbn. rewrite Hc. apply notifs_push; [done..|lia].
  - right. right. exists s1. split_and!; [done| |done]. right. eauto.
Qed.

Lemma save_refines `{!LevelDBReliable St} s N n : Notifs (contents s) N →
  let a := BytesToAddress (n_AccountAddress n) in
  let id := (Z.of_nat (length (N a)) + 1)%Z in
  (id ≤ 9999999999)%Z →
  ∃ s', SaveNotification n s = (Ok tt, s') ∧ Notifs (contents s') (push a (set_Id (FormatUint id) n) N).
Proof.
  intros HN a id Hid. destruct (save_cases s N n HN Hid) as [R|[(e & _ & Hf)|(s1 & _ & Hf & _)]]; [done|..]; by apply ldb_reliable in Hf.
Qed.

(** Saving appends the notification, under the next id, to the list of its address; a failing
    store leaves everything as it was, or, if it fails between the two writes, only the counter
    one ahead of the records. *)
Theorem notification_saved s N n : Notifs (contents s) N →
  let a := BytesToAddress (n_AccountAddress n) in
  let id := (Z.of_nat (length (N a)) + 1)%Z in
  (id ≤ 9999999999)%Z →
  (∃ s', SaveNotification n s = (Ok tt, s') ∧ Notifs (contents s') (push a (set_Id (FormatUint id) n) N)) ∨
  (∃ e, SaveNotification n s = (Fail e, s) ∧ ldb_fault s) ∨
  (∃ s1, SaveNotification n s = (Fail ErrNotiWrite, s1) ∧ ldb_fault s1 ∧
     contents s1 = <[getCounterKey a := PutUint64 id]> (contents s)).
Proof. apply save_cases. Qed.

(** ** Reading *)

(** Behind the record of position [j] the walk goes on with that of position [j - 1]. *)
Lemma entries_next m N a j l v : Notifs m N → length a = 20 → S j < length (N a) →
  entries_from (getNotificationKey a (rev_id (S j))) m ((getNotificationKey a (rev_id (S j)), v) :: l) →
  entries_from (getNotificationKey a (rev_id j)) m l.
Proof.
  intros HN Ha Hj (HS & Hnd & Hin). pose proof (noti_bound _ _ HN a). cbn in HS, Hnd.
  apply StronglySorted_inv in HS as [HS HF]. apply NoDup_cons in Hnd as [Hk Hnd]. split_and!; [done..|].
  intros k w. split.
  - intros Hkw. destruct (proj1 (Hin k w)) as [Hm Hle]; [by right|]. split; [done|].
    destruct (String.le_total (getNotificationKey a (rev_id j)) k) as [|Hlt]; [done|].
    destruct (str_le_prefix_convex _ _ _ _ Hle Hlt) as [y ->].
    destruct (noti_only _ _ HN a y w Ha Hm) as (i & Hi & ->).
    apply noti_key_le in Hle; [|lia..]. apply noti_key_le in Hlt; [|lia..].
    destruct (decide (i = j)) as [->|]; [reflexivity|]. replace i with (S j) in Hkw by lia.
    destruct Hk. by apply (list_elem_of_fmap_2 fst) in Hkw.
  - intros [Hm Hle]. assert (str_le (getNotificationKey a (rev_id (S j))) k) as Hle'.
    { etrans; [|exact Hle]. apply noti_key_le; lia. }
    pose proof (proj2 (Hin k w) (conj Hm Hle')) as Hkw. apply elem_of_cons in Hkw as [E|]; [|done].
    injection E as -> _. apply noti_key_le in Hle; lia.
Qed.

(** The record of position [j] is the first one from its own key on. *)
Lemma entries_head m N a j l x : Notifs m N → length a = 20 → N a !! j = Some x →
  entries_from (getNotificationKey a (rev_id j)) m l → ∃ l', l = (getNotificationKey a (rev_id j), proto_Marshal x) :: l'.
Proof.
  intros HN Ha Hj (HS & Hnd & Hin). set (k := getNotificationKey a (rev_id j)) in *.
  assert ((k, proto_Marshal x) ∈ l) as Hx by (apply Hin; split; [by apply (noti_data _ _ HN)|reflexivity]).
  destruct l as [|[k' v'] l]; [by apply not_elem_of_nil in Hx|]. exists l. f_equal.
  destruct (proj1 (Hin k' v')) as [Hm Hle]; [by left|].
  apply elem_of_cons in Hx as [E|Hx]; [done|]. cbn in HS. apply StronglySorted_inv in HS as [_ HF].
  rewrite Forall_forall in HF. assert (str_le k' k) as Hge by (apply HF; by apply (list_elem_of_fmap_2 fst) in Hx).
  assert (k' = k) as -> by (by apply (anti_symm str_le)). cbn in Hnd. apply NoDup_cons in Hnd as [Hk _].
  destruct Hk. by apply (list_elem_of_fmap_2 fst) in Hx.
Qed.

(** After the oldest record no key carries the prefix. *)
Lemma entries_last m N a l v : Notifs m N → length a = 20 →
  entries_from (getNotificationKey a (rev_id 0)) m ((getNotificationKey a (rev_id 0), v) :: l) →
  Forall (λ e, hasPrefix (str_bytes e.1) (str_bytes (noti_prefix a)) = false) l.
Proof.
  intros HN Ha (HS & Hnd & Hin). apply Forall_forall. intros [k w] Hkw. cbn.
  apply not_true_is_false. intros [y ->]%hasPrefix_inv.
  destruct (proj1 (Hin (noti_prefix a +:+ y) w)) as [Hm Hle]; [by right|].
  destruct (noti_only _ _ HN a y w Ha Hm) as (i & Hi & ->). pose proof (noti_bound _ _ HN a).
  apply noti_key_le in Hle; [|lia..]. replace i with 0 in Hkw by lia.
  cbn in Hnd. apply NoDup_cons in Hnd as [Hk _]. destruct Hk. by apply (list_elem_of_fmap_2 fst) in Hkw.
Qed.

Lemma collect_from m N a room : Notifs m N → length a = 20 → ∀ j l, j < length (N a) →
  entries_from (getNotificationKey a (rev_id j)) m l →
  collect (str_bytes (noti_prefix a)) l false room = inr (take room (reverse (take (S j) (N a)))).
Proof.
  intros HN Ha j. revert room. induction j as [|j IH]; intros room l Hj Hl.
  all: destruct (lookup_lt_is_Some_2 _ _ Hj) as [x Hx];
    destruct (entries_head _ _ _ _ _ _ HN Ha Hx Hl) as [l' ->]; rewrite (take_S_r _ _ _ Hx), reverse_snoc;
    destruct room as [|room]; [done|]; cbn [collect take]; unfold getNotificationKey;
    rewrite hasPrefix_app, proto_roundtrip.
  - pose proof (entries_last _ _ _ _ _ HN Ha Hl) as HF. rewrite take_0. cbn [reverse rev_append take].
    destruct HF as [|[k v] l' Hk _]; [by rewrite take_nil|]. cbn [collect]. cbn [fst] in Hk. rewrite Hk, take_nil.
    by destruct room.
  - rewrite (IH room l'); [done|lia|]. by eapply entries_next.
Qed.

(** A walk that breaks off either delivers the page or reports the error. *)
Lemma collect_prefix p l l' room ns : l' `prefix_of` l → collect p l false room = inr ns →
  collect p l' true room = inr ns ∨ collect p l' true room = inl ErrIterator.
Proof.
  intros [r ->]. revert room ns. induction l' as [|[k v] l' IH]; intros room ns; [by right|].
  destruct room as [|room]; cbn [collect app]; [by left|].
  destruct (hasPrefix _ _); [|by left]. destruct (proto_Unmarshal v) as [n|]; [|done].
  destruct (collect p (l' ++ r) false room) as [|ns'] eqn:E; [done|]. intros [= <-].
  destruct (IH room ns' E) as [->| ->]; [by left|by right].
Qed.

(** A page is a window of the notifications of the address, newest first, with their total;
    negative pages read as the first and page sizes outside 1..100 as 20.  The query changes
    nothing and fails only if the store does. *)
Theorem notification_page s N a page pageSize : Notifs (contents s) N → length a = 20 →
  let p := Z.to_nat page in
  let ps := if decide (1 ≤ pageSize ≤ 100)%Z then Z.to_nat pageSize else 20 in
  (page * 100 < 2 ^ 63)%Z →
  GetNotifications a page pageSize s =
    (Ok (take ps (drop (p * ps) (reverse (N a))), Z.of_nat (length (N a))), s) ∨
  (GetNotifications a page pageSize s = (Fail ErrNotiRead, s) ∧ ldb_fault s) ∨
  (GetNotifications a page pageSize s = (Fail ErrIterator, s) ∧ ∃ k, (ldb_Iter k s).2 = true).
Proof.
  intros HN Ha p ps Hov. pose proof (noti_bound _ _ HN a) as Hb. unfold GetNotifications. cbv zeta.
  set (page' := if (page <? 0)%Z then 0%Z else page).
  assert (page' = Z.of_nat p) as -> by (unfold page'; destruct (Z.ltb_spec page 0); lia).
  set (size' := if _ || _ then 20%Z else pageSize).
  assert (size' = Z.of_nat ps) as ->.
  { unfold size', ps. destruct (Z.leb_spec pageSize 0), (Z.ltb_spec 100 pageSize); case_decide; simpl; lia. }
  assert (ps ≤ 100) by (unfold ps; case_decide; lia).
  assert (Z.of_nat p * Z.of_nat ps < 2 ^ 63)%Z by nia.
  unfold mbind, NM_bind, comp_bind, GetTotalCount.
  destruct (read_counter_ok ErrNotiRead a s N HN Ha) as [E|[E Hf]]; rewrite E; [|right; left; eauto].
  rewrite (i64_small (Z.of_nat (length (N a)))) by lia.
  destruct (Z.eqb_spec (Z.of_nat (length (N a))) 0).
  { left. destruct (N a); [|done]. by rewrite reverse_nil, drop_nil, take_nil. }
  rewrite (i64_small (Z.of_nat p * Z.of_nat ps)) by nia.
  destruct (Z.leb_spec (Z.of_nat (length (N a))) (Z.of_nat p * Z.of_nat ps)).
  { left. rewrite drop_ge, take_nil; [done|]. rewrite length_reverse. lia. }
  set (j := length (N a) - 1 - p * ps).
  assert (u64 (u64 (9999999999 - Z.of_nat (length (N a))) + u64 (Z.of_nat p * Z.of_nat ps)) = rev_id j) as ->.
  { unfold rev_id, j. rewrite !(u64_small (_ * _)), (u64_small (9999999999 - _)) by nia. rewrite u64_small; nia. }
  rewrite Nat2Z.id. destruct (ldb_iter_spec (getNotificationKey a (rev_id j)) s) as (l & Hl & Hi).
  assert (collect (str_bytes (noti_prefix a)) l false ps = inr (take ps (drop (p * ps) (reverse (N a))))) as Hc.
  { rewrite (collect_from _ _ _ _ HN Ha j l) by (done || lia). do 2 f_equal.
    rewrite <- (take_drop (S j) (N a)) at 2. rewrite reverse_app, drop_app_ge by (rewrite length_reverse, length_drop; lia).
    rewrite length_reverse, length_drop. replace (p * ps - (length (N a) - S j)) with 0 by lia. by rewrite drop_0. }
  destruct Hi as [Ei|(l' & Hp & Ei)]; rewrite Ei; [left; by rewrite Hc|].
  destruct (collect_prefix _ _ _ _ _ Hp Hc) as [->| ->]; [by left|]. right. right. split; [done|].
  exists (getNotificationKey a (rev_id j)). by rewrite Ei.
Qed.

(** ** Concurrent saves *)

(** Two calls run in the order the schedule gives: [true] steps the first. *)
Fixpoint run2 (sched : list bool) (t u : save_thread) (s : St) : save_thread * save_thread * St :=
  match sched with
  | [] => (t, u, s)
  | true :: sched => let '(t', s') := save_step t s in run2 sched t' u s'
  | false :: sched => let '(u', s') := save_step u s in run2 sched t u' s'
  end.

(** Three steps of one call are [SaveNotification]. *)
Lemma save_steps_alone n u s : run2 [true; true; true] (SaveStart n) u s =
  let '(r, s') := SaveNotification n s in (SaveDone r, u, s').
Proof.
  unfold run2, SaveNotification, getNextID, mbind, NM_bind, comp_bind. cbn [save_step].
  destruct (read_counter _ _ s) as [[id|e| |] s1]; cbn [save_next save_step]; try done.
  destruct (db_Put _ _ _ s1) as [[[]|e| |] s2]; cbn [save_next save_step mret NM_ret]; try done.
  unfold mret, NM_ret, comp_ret. destruct (put_notification n _ s2) as [[[]|e| |] s3]; done.
Qed.

End Spec.

(** ** Concrete stores *)

Module ToyNotifications.
Export ToyAddress ToyProto.

#[export] Instance noti_eq_dec : EqDecision Notification.
Proof. solve_decision. Defined.

#[export] Instance noti_ser : Ser Notification.
Proof.
  refine (ser_iso (λ n, (str_bytes (n_Id n), n_AccountAddress n, str_bytes (n_Message n), n_CreatedAt n))
    (λ '(i, a, m, c), Build_Notification (bytes_str i) a (bytes_str m) c) _).
  intros [i a m c]. cbn [n_Id n_AccountAddress n_Message n_CreatedAt]. by rewrite !str_bytes_inv.
Defined.

#[export] Instance noti_proto : Proto Notification := toy_proto (Build_Notification "" [] "" 0).
#[export] Instance noti_proto_laws : ProtoLaws Notification.
Proof. apply toy_proto_laws. Qed.

Definition who (n : Z) : bytes := replicate 19 x00 ++ [z2b n].
Definition note (m : string) : Notification := Build_Notification "" (who 7) m 5.
Definition note_id (i : string) (m : string) : Notification := Build_Notification i (who 7) m 5.

Definition save_all `{LevelDBIter St} (ms : list string) (s : St) : St :=
  foldl (λ s m, snd (SaveNotification (note m) s)) s ms.

End ToyNotifications.

Import ToyNotifications.

Definition three_notes : list Notification := [note_id "1" "a"; note_id "2" "b"; note_id "3" "c"].

Lemma saved_state (s : gmap string bytes) N n : Notifs (contents s) N →
  (Z.of_nat (length (N (BytesToAddress (n_AccountAddress n)))) + 1 ≤ 9999999999)%Z →
  Notifs (contents (snd (SaveNotification n s))) (push (BytesToAddress (n_AccountAddress n))
    (set_Id (FormatUint (Z.of_nat (length (N (BytesToAddress (n_AccountAddress n)))) + 1)) n) N).
Proof.
  intros HN Hb. destruct (notification_saved s N n HN Hb) as [(s' & -> & HN')|[(e & _ & Hf)|(s1 & _ & Hf & _)]];
    [done|by apply map_ldb_no_fault in Hf..].
Qed.

Lemma three_notes_state : ∃ N, Notifs (contents (save_all ["a"; "b"; "c"] (∅ : gmap string bytes))) N ∧ N (who 7) = three_notes.
Proof.
  eexists. split.
  - unfold save_all. cbn [foldl]. apply saved_state; [apply saved_state; [apply saved_state; [apply notifs_empty|]|]|];
      apply Z.leb_le; by vm_compute.
  - by vm_compute.
Qed.

Lemma notification_saved_witness : ∃ N,
  ∃ s', SaveNotification (note "d") (save_all ["a"; "b"; "c"] (∅ : gmap string bytes)) = (Ok tt, s') ∧
    Notifs (contents s') N ∧ N (who 7) = three_notes ++ [note_id "4" "d"].
Proof.
  destruct three_notes_state as (N & HN & E).
  assert (BytesToAddress (n_AccountAddress (note "d")) = who 7) as Ew by done.
  destruct (notification_saved _ N (note "d") HN) as [(s' & Es & HN')|[(e & _ & Hf)|(s1 & _ & Hf & _)]];
    [rewrite Ew, E; simpl; lia| |by apply map_ldb_no_fault in Hf..].
  exists (push (who 7) (set_Id (FormatUint (Z.of_nat (length (N (who 7))) + 1)) (note "d")) N), s'.
  split; [exact Es|]. split; [exact HN'|]. unfold push. rewrite decide_True, E by done. by vm_compute.
Defined.

Lemma notification_page_witness :
  GetNotifications (who 7) 0 2 (save_all ["a"; "b"; "c"] (∅ : gmap string bytes)) =
    (Ok ([note_id "3" "c"; note_id "2" "b"], 3%Z), save_all ["a"; "b"; "c"] ∅).
Proof.
  destruct three_notes_state as (N & HN & E).
  destruct (notification_page _ N (who 7) 0 2 HN eq_refl ltac:(done)) as [R|[[_ Hf]|[_ [k Hf]]]];
    [|by apply map_ldb_no_fault in Hf|done].
  rewrite E in R. exact R.
Defined.

(** A save that fails between its two writes leaves the counter ahead of the records: from then on
    consecutive pages overlap, here in the notification with id 2. *)
Theorem notification_gap :
  let bad := {[ getNotificationKey (who 7) 9999999995 ]} : gset string in
  let s := save_all ["a"; "b"; "c"] {| st_map := ∅; st_bad := bad |} in
  let s1 := snd (SaveNotification (note "d") s) in
  fst (SaveNotification (note "d") s) = Fail ErrNotiWrite ∧
  fst (GetNotifications (who 7) 0 2 s1) = Ok ([note_id "3" "c"; note_id "2" "b"], 4%Z) ∧
  fst (GetNotifications (who 7) 1 2 s1) = Ok ([note_id "2" "b"; note_id "1" "a"], 4%Z).
Proof. by vm_compute. Qed.

(** [SaveNotification] takes no lock: when two calls for one address read the counter before either
    has written it, both report success but only one of the two notifications is in the store. *)
Theorem notification_race :
  let '(t, u, s) := run2 [true; false; true; true; false; false] (SaveStart (note "x")) (SaveStart (note "y"))
                      (save_all ["a"] (∅ : gmap string bytes)) in
  t = SaveDone (Ok tt) ∧ u = SaveDone (Ok tt) ∧
  fst (GetNotifications (who 7) 0 10 s) = Ok ([note_id "2" "y"; note_id "1" "a"], 2%Z).
Proof. by vm_compute. Qed.
