(* ===== verification/PrivateKeys.v ===== *)
(** * The encrypted private-key store ([cmd/rpc-client/store/privatekey_store.go])

    Private keys in a LevelDB under the raw address bytes, sealed with AES-GCM under a key derived
    from the master password, a pepper and a salt that is kept in the same database. *)

From S2P Require Import Prelude GoLib LevelDB LdbIter HexCodec.
From Stdlib Require Import Strings.Byte.

(** Key derivation (golang.org/x/crypto/scrypt) and authenticated encryption (AES-GCM). *)
Class KeyCipher := {
  scrypt_Key : bytes → bytes → option bytes;        (** password, salt *)
  gcm_Seal : bytes → bytes → bytes → bytes;          (** key, nonce, plaintext *)
  gcm_Open : bytes → bytes → bytes → option bytes;   (** key, nonce, ciphertext *)
}.

Class KeyCipherLaws `{KeyCipher} : Prop := {
  scrypt_length p s k : scrypt_Key p s = Some k → length k = 32;
  scrypt_total p s : ∃ k, scrypt_Key p s = Some k;
  gcm_open_seal k n p : gcm_Open k n (gcm_Seal k n p) = Some p;
}.

Inductive pks_error :=
  | ErrPksConfig | ErrEmptyPassword | ErrEmptySalt | ErrEmptyPepper | ErrScrypt
  | ErrCipher | ErrRandom | ErrTooShort | ErrDecrypt
  | ErrEmptyKey | ErrKeyNotFound | ErrPksRead | ErrPksWrite
  | ErrSaltRead | ErrSaltWrite | ErrSaltDecode.

Record PrivateKeyStore := { kdfSalt : bytes; masterPassword : string; appPepper : string }.

Definition kdfSaltKey : string := "_kdf_salt_".
Definition nonceSize : nat := 12.

Section PrivateKeys.
Context `{LevelDBIter St} `{EthAddress} `{KeyCipher}.

Definition deriveKeyInternal (password : string) (salt : bytes) (pepper : string) : pks_error + bytes :=
  if decide (password = EmptyString) then inl ErrEmptyPassword
  else if decide (salt = []) then inl ErrEmptySalt
  else if decide (pepper = EmptyString) then inl ErrEmptyPepper
  else match scrypt_Key (str_bytes (password +:+ pepper)) salt with
       | Some dk => inr dk
       | None => inl ErrScrypt
       end.

(** [aes.NewCipher] accepts keys of 16, 24 and 32 bytes. *)
Definition aes_NewCipher (key : bytes) : bool :=
  (length key =? 16)%nat || (length key =? 24)%nat || (length key =? 32)%nat.

(** [rnd] is what the random source delivers. *)
Definition encryptInternal (rnd : option bytes) (plaintext key : bytes) : pks_error + bytes :=
  if aes_NewCipher key then
    match rnd with
    | None => inl ErrRandom
    | Some nonce => inr (nonce ++ gcm_Seal key nonce plaintext)
    end
  else inl ErrCipher.

Definition decryptInternal (encryptedData key : bytes) : pks_error + bytes :=
  if aes_NewCipher key then
    if (length encryptedData <? nonceSize)%nat then inl ErrTooShort
    else match gcm_Open key (take nonceSize encryptedData) (drop nonceSize encryptedData) with
         | Some plaintext => inr plaintext
         | None => inl ErrDecrypt
         end
  else inl ErrCipher.

Definition KM : Type → Type := comp St pks_error.
#[export] Instance KM_ret : MRet KM := comp_ret.
#[export] Instance KM_bind : MBind KM := comp_bind.

Definition lift_sum {A} (r : pks_error + A) : KM A := λ s, match r with inr a => (Ok a, s) | inl e => (Fail e, s) end.

Definition pks_put (e : pks_error) (op : batch_op) : KM unit := λ s,
  match ldb_Write [op] s with Some s' => (Ok tt, s') | None => (Fail e, s) end.

Definition NewPrivateKeyStore (rnd : option bytes) (masterPassword appPepper : string) : KM PrivateKeyStore :=
  if decide (masterPassword = EmptyString ∨ appPepper = EmptyString) then c_fail ErrPksConfig
  else
    let mk salt := {| kdfSalt := salt; masterPassword := masterPassword; appPepper := appPepper |} in
    s ← c_get;
    match ldb_Get kdfSaltKey s with
    | ReadError => c_fail ErrSaltRead
    | NotFound =>
      match rnd with
      | None => c_fail ErrRandom
      | Some salt =>
        _ ← pks_put ErrSaltWrite (BPut kdfSaltKey (str_bytes (hex_EncodeToString salt)));
        mret (mk salt)
      end
    | Found kdfSaltHex =>
      match hex_DecodeString (bytes_str kdfSaltHex) with
      | Some salt => mret (mk salt)
      | None => c_fail ErrSaltDecode
      end
    end.

Definition derive (pks : PrivateKeyStore) : KM bytes :=
  lift_sum (deriveKeyInternal (masterPassword pks) (kdfSalt pks) (appPepper pks)).

Definition SetPrivateKey (pks : PrivateKeyStore) (rnd : option bytes) (address : bytes) (privateKey : string) : KM unit :=
  if decide (privateKey = EmptyString) then c_fail ErrEmptyKey
  else
    encryptionKey ← derive pks;
    encryptedPrivateKey ← lift_sum (encryptInternal rnd (str_bytes privateKey) encryptionKey);
    pks_put ErrPksWrite (BPut (bytes_str address) encryptedPrivateKey).

Definition GetPrivateKey (pks : PrivateKeyStore) (address : bytes) : KM string :=
  s ← c_get;
  match ldb_Get (bytes_str address) s with
  | NotFound => c_fail ErrKeyNotFound
  | ReadError => c_fail ErrPksRead
  | Found encryptedPrivateKey =>
    encryptionKey ← derive pks;
    plaintext ← lift_sum (decryptInternal encryptedPrivateKey encryptionKey);
    mret (bytes_str plaintext)
  end.

Definition DeletePrivateKey (address : bytes) : KM unit := pks_put ErrPksWrite (BDelete (bytes_str address)).

Definition HasPrivateKey (address : bytes) : KM bool :=
  s ← c_get;
  match ldb_Get (bytes_str address) s with
  | Found _ => mret true
  | NotFound => mret false
  | ReadError => c_fail ErrPksRead
  end.

(** The body of the listing loop. *)
Definition list_entry (encryptionKey : bytes) (results : gmap string string) (e : string * bytes) : gmap string string :=
  if decide (e.1 = kdfSaltKey) then results
  else
    let addr := BytesToAddress (str_bytes e.1) in
    <[AddressHex addr := match decryptInternal e.2 encryptionKey with
                         | inr plaintext => bytes_str plaintext
                         | inl _ => "[LỖI GIẢI MÃ]"
                         end]> results.

Definition ListAddressPrivateKeyPairs (pks : PrivateKeyStore) : KM (gmap string string) :=
  encryptionKey ← derive pks;
  s ← c_get;
  let '(l, failed) := ldb_Iter EmptyString s in
  if failed : bool then c_fail ErrPksRead
  else mret (foldl (list_entry encryptionKey) ∅ l).

End PrivateKeys.

(** ** The store is a map from addresses to keys *)

Lemma bytes_str_inv b : str_bytes (bytes_str b) = b.
Proof. apply String.list_byte_of_string_of_list_byte. Qed.

#[export] Instance bytes_str_inj : Inj (=) (=) bytes_str.
Proof. intros a b E. rewrite <- (bytes_str_inv a), <- (bytes_str_inv b). by rewrite E. Qed.

Section Spec.
Context `{LevelDBLaws St} `{!LevelDBIter St} `{!LevelDBIterLaws St} `{EthAddressLaws} `{KeyCipherLaws}.

Implicit Types (K : gmap bytes string) (a : bytes) (s : St).

(** [v] is [k], sealed under the key of [pks]. *)
Definition seals (pks : PrivateKeyStore) (k : string) (v : bytes) : Prop :=
  ∃ dk nonce, deriveKeyInternal (masterPassword pks) (kdfSalt pks) (appPepper pks) = inr dk ∧
    length nonce = nonceSize ∧ v = nonce ++ gcm_Seal dk nonce (str_bytes k).

Record Keyring (pks : PrivateKeyStore) (m : gmap string bytes) K : Prop := {
  kr_config : masterPassword pks ≠ EmptyString ∧ appPepper pks ≠ EmptyString ∧ kdfSalt pks ≠ [];
  kr_salt : m !! kdfSaltKey = Some (str_bytes (hex_EncodeToString (kdfSalt pks)));
  kr_key a : length a = 20 → match K !! a with
    | Some k => ∃ v, m !! bytes_str a = Some v ∧ seals pks k v
    | None => m !! bytes_str a = None
    end;
  kr_only k : is_Some (m !! k) → k = kdfSaltKey ∨ length (str_bytes k) = 20;
}.

Lemma salt_key_ne a : length a = 20 → bytes_str a ≠ kdfSaltKey.
Proof. intros Ha E. apply (f_equal str_bytes) in E. rewrite bytes_str_inv in E. by subst. Qed.

Lemma derive_ok pks : masterPassword pks ≠ EmptyString ∧ appPepper pks ≠ EmptyString ∧ kdfSalt pks ≠ [] →
  ∃ dk, deriveKeyInternal (masterPassword pks) (kdfSalt pks) (appPepper pks) = inr dk ∧ length dk = 32.
Proof.
  intros (Hp & Hq & Hs). unfold deriveKeyInternal. rewrite !decide_False by done.
  destruct (scrypt_total (str_bytes (masterPassword pks +:+ appPepper pks)) (kdfSalt pks)) as [dk E]. rewrite E.
  exists dk. split; [done|]. by eapply scrypt_length.
Qed.

Lemma decrypt_seals pks k v dk : deriveKeyInternal (masterPassword pks) (kdfSalt pks) (appPepper pks) = inr dk →
  length dk = 32 → seals pks k v → decryptInternal v dk = inr (str_bytes k).
Proof.
  intros E Hl (dk' & nonce & E' & Hn & ->). assert (dk' = dk) as -> by congruence.
  unfold decryptInternal, aes_NewCipher. rewrite Hl. cbn [Nat.eqb orb]. rewrite length_app, Hn.
  destruct (Nat.ltb_spec (nonceSize + length (gcm_Seal dk nonce (str_bytes k))) nonceSize); [lia|].
  rewrite take_app_length', drop_app_length' by done. by rewrite gcm_open_seal.
Qed.

Lemma keyring_set pks m K a k v : Keyring pks m K → length a = 20 → seals pks k v →
  Keyring pks (<[bytes_str a := v]> m) (<[a := k]> K).
Proof.
  intros HK Ha Hv. pose proof (salt_key_ne a Ha). split; [apply HK|..].
  - rewrite lookup_insert_ne by done. apply HK.
  - intros b Hb. destruct (decide (b = a)) as [->|]; [rewrite !lookup_insert_eq; eauto|].
    rewrite !lookup_insert_ne by (done || by intros ?%(inj bytes_str)). by apply HK.
  - intros k'. destruct (decide (k' = bytes_str a)) as [->|]; [intros _; right; by rewrite bytes_str_inv|].
    rewrite lookup_insert_ne by done. apply HK.
Qed.

Lemma keyring_delete pks m K a : Keyring pks m K → length a = 20 →
  Keyring pks (base.delete (bytes_str a) m) (base.delete a K).
Proof.
  intros HK Ha. pose proof (salt_key_ne a Ha). split; [apply HK|..].
  - rewrite lookup_delete_ne by done. apply HK.
  - intros b Hb. destruct (decide (b = a)) as [->|]; [by rewrite !lookup_delete_eq|].
    rewrite !lookup_delete_ne by (done || by intros ?%(inj bytes_str)). by apply HK.
  - intros k'. destruct (decide (k' = bytes_str a)) as [->|]; [rewrite lookup_delete_eq; by intros []|].
    rewrite lookup_delete_ne by done. apply HK.
Qed.

Lemma set_key_ok pks K s a k nonce : ¬ ldb_fault s → Keyring pks (contents s) K → length a = 20 → k ≠ EmptyString →
  length nonce = nonceSize → ∃ s', SetPrivateKey pks (Some nonce) a k s = (Ok tt, s') ∧ Keyring pks (contents s') (<[a := k]> K).
Proof.
  intros Hok HK Ha Hk Hn. destruct (derive_ok pks (kr_config _ _ _ HK)) as (dk & Ed & Hl).
  assert (derive pks s = (Ok dk, s)) as Eds by (unfold derive; by rewrite Ed).
  unfold SetPrivateKey. rewrite decide_False by done. rewrite (comp_bind_ok _ _ _ _ _ Eds).
  unfold encryptInternal, aes_NewCipher. rewrite Hl. cbn [Nat.eqb orb lift_sum].
  unfold mbind, KM_bind, comp_bind, pks_put, lift_sum. cbn beta iota.
  destruct (ldb_Write_ok [BPut (bytes_str a) (nonce ++ gcm_Seal dk nonce (str_bytes k))] s Hok) as (s' & -> & Hc).
  exists s'. split; [done|]. rewrite Hc. apply keyring_set; [done..|]. by exists dk, nonce.
Qed.

Lemma delete_key_ok pks K s a : ¬ ldb_fault s → Keyring pks (contents s) K → length a = 20 →
  ∃ s', DeletePrivateKey a s = (Ok tt, s') ∧ Keyring pks (contents s') (base.delete a K).
Proof.
  intros Hok HK Ha. unfold DeletePrivateKey, pks_put.
  destruct (ldb_Write_ok [BDelete (bytes_str a)] s Hok) as (s' & -> & Hc). exists s'. split; [done|].
  rewrite Hc. by apply keyring_delete.
Qed.

Lemma has_key_ok pks K s a : ¬ ldb_fault s → Keyring pks (contents s) K → length a = 20 →
  HasPrivateKey a s = (Ok (bool_decide (is_Some (K !! a))), s).
Proof.
  intros Hok HK Ha. pose proof (kr_key _ _ _ HK a Ha) as Hka. unfold HasPrivateKey.
  rewrite (comp_bind_ok (E := pks_error) _ c_get s s s eq_refl), ldb_Get_ok by done.
  destruct (K !! a) as [k'|]; [by destruct Hka as (v & -> & _)|by rewrite Hka].
Qed.

Lemma set_empty_key pks s rnd a : SetPrivateKey pks rnd a EmptyString s = (Fail ErrEmptyKey, s).
Proof. unfold SetPrivateKey. by rewrite decide_True. Qed.

(** On a store that does not fail: a key that is set is read back, by this store and by one reopened
    with the same password and pepper; deleting and querying act on that key only; an empty key is
    refused. *)
Theorem private_keys_map pks K s a k nonce rnd : ¬ ldb_fault s → Keyring pks (contents s) K →
  length a = 20 → k ≠ EmptyString → length nonce = nonceSize →
  (∃ s', SetPrivateKey pks (Some nonce) a k s = (Ok tt, s') ∧ Keyring pks (contents s') (<[a := k]> K)) ∧
  (∃ s', DeletePrivateKey a s = (Ok tt, s') ∧ Keyring pks (contents s') (base.delete a K)) ∧
  GetPrivateKey pks a s = (match K !! a with Some k => Ok k | None => Fail ErrKeyNotFound end, s) ∧
  HasPrivateKey a s = (Ok (bool_decide (is_Some (K !! a))), s) ∧
  NewPrivateKeyStore rnd (masterPassword pks) (appPepper pks) s = (Ok pks, s) ∧
  SetPrivateKey pks (Some nonce) a EmptyString s = (Fail ErrEmptyKey, s).
Proof.
  intros Hok HK Ha Hk Hn. split_and!; [by apply set_key_ok|by apply delete_key_ok| |by apply (has_key_ok pks)| |apply set_empty_key].
  - destruct (derive_ok pks (kr_config _ _ _ HK)) as (dk & Ed & Hl).
    assert (derive pks s = (Ok dk, s)) as Eds by (unfold derive; by rewrite Ed).
    pose proof (kr_key _ _ _ HK a Ha) as Hka.
    unfold GetPrivateKey. rewrite (comp_bind_ok (E := pks_error) _ c_get s s s eq_refl), ldb_Get_ok by done.
    destruct (K !! a) as [k'|]; [|by rewrite Hka]. destruct Hka as (v & -> & Hs).
    rewrite (comp_bind_ok _ _ _ _ _ Eds). rewrite (decrypt_seals pks k' v dk) by done.
    unfold mbind, KM_bind, comp_bind, mret, KM_ret, comp_ret, lift_sum. cbn beta iota. by rewrite str_bytes_inv.
  - destruct (kr_config _ _ _ HK) as (Hp & Hq & Hs). unfold NewPrivateKeyStore. rewrite decide_False by naive_solver.
    rewrite (comp_bind_ok (E := pks_error) _ c_get s s s eq_refl), ldb_Get_ok, (kr_salt _ _ _ HK) by done.
    rewrite str_bytes_inv, hex_decode_encode. by destruct pks.
Qed.

(** A fresh database becomes an empty key ring. *)
Lemma keyring_new s salt p q : ¬ ldb_fault s → contents s = ∅ → p ≠ EmptyString → q ≠ EmptyString → salt ≠ [] →
  ∃ s', NewPrivateKeyStore (Some salt) p q s = (Ok {| kdfSalt := salt; masterPassword := p; appPepper := q |}, s') ∧
    Keyring {| kdfSalt := salt; masterPassword := p; appPepper := q |} (contents s') ∅.
Proof.
  intros Hok He Hp Hq Hs. unfold NewPrivateKeyStore. rewrite decide_False by naive_solver.
  rewrite (comp_bind_ok (E := pks_error) _ c_get s s s eq_refl), ldb_Get_ok, He, lookup_empty by done.
  destruct (ldb_Write_ok [BPut kdfSaltKey (str_bytes (hex_EncodeToString salt))] s Hok) as (s' & E & Hc).
  unfold pks_put, mbind, KM_bind, comp_bind. rewrite E. exists s'. split; [done|]. rewrite Hc, He. cbn.
  split; cbn.
  - done.
  - apply lookup_insert_eq.
  - intros a Ha. rewrite lookup_empty, lookup_insert_ne; [done|]. apply not_eq_sym. by apply salt_key_ne.
  - intros k. destruct (decide (k = kdfSaltKey)); [by left|]. rewrite lookup_insert_ne by done.
    rewrite lookup_empty. by intros [].
Qed.

(** The listing loop, entry by entry. *)
Lemma list_entries_lookup pks m K dk l acc a : Keyring pks m K → length a = 20 → length dk = 32 →
  deriveKeyInternal (masterPassword pks) (kdfSalt pks) (appPepper pks) = inr dk →
  (∀ k v, (k, v) ∈ l → m !! k = Some v) →
  foldl (list_entry dk) acc l !! AddressHex a =
    if decide (bytes_str a ∈ l.*1) then K !! a else acc !! AddressHex a.
Proof.
  intros HK Ha Hl Ed. revert acc. induction l as [|[k v] l IH]; intros acc Hm; [done|]. cbn [foldl fmap list_fmap fst].
  rewrite IH by (intros; apply Hm; by right). pose proof (Hm k v ltac:(left)) as Hkv.
  destruct (decide (bytes_str a ∈ l.*1)); [by rewrite decide_True by (by right)|].
  unfold list_entry. cbn [fst snd]. destruct (kr_only _ _ _ HK k ltac:(by eexists)) as [->|Hk].
  { rewrite decide_True by done. rewrite decide_False; [done|]. rewrite elem_of_cons. intros [E|]; [|done].
    by apply salt_key_ne in E. }
  rewrite decide_False by (intros ->; done). rewrite BytesToAddress_20 by done.
  destruct (decide (k = bytes_str a)) as [->|Hne].
  - rewrite bytes_str_inv, lookup_insert_eq, decide_True by (by left).
    pose proof (kr_key _ _ _ HK a Ha) as Hka. destruct (K !! a) as [k'|]; [|congruence].
    destruct Hka as (v' & Hv' & Hs). assert (v' = v) as -> by congruence.
    rewrite (decrypt_seals pks k' v dk) by done. by rewrite str_bytes_inv.
  - rewrite lookup_insert_ne, decide_False; [done|rewrite elem_of_cons; naive_solver|].
    intros E%AddressHex_inj; [|done..]. subst a. by rewrite str_bytes_inv in Hne.
Qed.

(** The listing shows exactly the keys of the ring, decrypted. *)
Lemma private_keys_listed pks K s : Keyring pks (contents s) K → (ldb_Iter EmptyString s).2 = false →
  ∃ R, ListAddressPrivateKeyPairs pks s = (Ok R, s) ∧ ∀ a, length a = 20 → R !! AddressHex a = K !! a.
Proof.
  intros HK Hi. destruct (derive_ok pks (kr_config _ _ _ HK)) as (dk & Ed & Hl).
  assert (derive pks s = (Ok dk, s)) as Eds by (unfold derive; by rewrite Ed).
  destruct (ldb_iter_spec EmptyString s) as (l & (_ & _ & Hin) & [El|(l' & _ & El)]); [|by rewrite El in Hi].
  eexists. split.
  - unfold ListAddressPrivateKeyPairs. rewrite (comp_bind_ok _ _ _ _ _ Eds).
    rewrite (comp_bind_ok (E := pks_error) _ c_get s s s eq_refl), El. done.
  - intros a Ha. rewrite (list_entries_lookup pks (contents s) K) by (done || (intros; by apply Hin)).
    pose proof (kr_key _ _ _ HK a Ha) as Hka. case_decide as Hd; [done|]. rewrite lookup_empty.
    destruct (K !! a) as [k|]; [|done]. destruct Hka as (v & Hv & _). destruct Hd.
    apply (list_elem_of_fmap_2 fst l (bytes_str a, v)), Hin. split; [done|]. by destruct (bytes_str a).
Qed.

End Spec.

(** ** A concrete cipher *)

Module ToyCipher.

#[export] Instance toy_cipher : KeyCipher := {|
  scrypt_Key p s := Some (take 32 (p ++ s ++ zeros 32));
  gcm_Seal k n p := x07 :: p;
  gcm_Open k n c := match c with x :: p => if decide (x = x07) then Some p else None | [] => None end;
|}.

#[export] Instance toy_cipher_laws : KeyCipherLaws.
Proof.
  split; cbn -[zeros take].
  - intros p s k [= <-]. unfold zeros. rewrite length_take, !length_app, length_replicate. lia.
  - intros p s. by eexists.
  - intros k n p. by rewrite decide_True.
Qed.

End ToyCipher.

Import ToyAddress ToyCipher.

Lemma private_keys_map_witness :
  let pks := {| kdfSalt := [x01]; masterPassword := "pw"; appPepper := "pp" |} in
  let s := snd (NewPrivateKeyStore (Some [x01]) "pw" "pp" (∅ : gmap string bytes)) in
  ∃ s', SetPrivateKey pks (Some (zeros 12)) (zeros 20) "ab" s = (Ok tt, s') ∧
    GetPrivateKey pks (zeros 20) s' = (Ok "ab", s').
Proof.
  cbv zeta. destruct (keyring_new (∅ : gmap string bytes) [x01] "pw" "pp") as (s & E & HK);
    [apply map_ldb_no_fault|done..|]. rewrite E. cbn [snd].
  destruct (private_keys_map _ ∅ s (zeros 20) "ab" (zeros 12) None (map_ldb_no_fault s) HK) as ((s' & Es & HK') & _);
    [done..|]. exists s'. split; [exact Es|].
  pose proof (private_keys_map _ _ s' (zeros 20) "ab" (zeros 12) None (map_ldb_no_fault s') HK') as R.
  destruct R as (_ & _ & R & _); [done..|]. rewrite lookup_insert_eq in R. exact R.
Defined.
