(* ===== verification/AccountAbi.v ===== *)
(** * The account contract's ABI ([pkg/account_handler/abi_account/accountAbi.go])

    The methods and events the account handler dispatches on, with their parameter types, and what
    the handler uses of go-ethereum's accounts/abi: selectors, [Unpack] and [Pack]. *)

From S2P Require Import Prelude Interfaces GoLib LevelDB.
From Stdlib Require Import Strings.Byte.

Inductive abi_type := TAddress | TUint256 | TUint8 | TBytes | TString | TBool | TBytes32 | TBytes32Array.

#[export] Instance abi_type_eq_dec : EqDecision abi_type.
Proof. solve_decision. Defined.

(** The Go values [Unpack] returns; a [*big.Int] is never nil. *)
Inductive abi_val :=
  | VAddress (a : bytes)
  | VBig (z : Z)
  | VUint8 (z : Z)
  | VBytes (b : bytes)
  | VString (s : string)
  | VBool (b : bool)
  | VBytes32 (b : bytes)
  | VBytes32Array (l : list bytes).

Definition has_type (t : abi_type) (v : abi_val) : Prop :=
  match t, v with
  | TAddress, VAddress a => length a = 20
  | TUint256, VBig z => (0 ≤ z < 2 ^ 256)%Z
  | TUint8, VUint8 z => (0 ≤ z < 256)%Z
  | TBytes, VBytes _ | TString, VString _ | TBool, VBool _ => True
  | TBytes32, VBytes32 b => length b = 32
  | TBytes32Array, VBytes32Array l => Forall (λ b, length b = 32) l
  | _, _ => False
  end.

Record Method := { m_Name : string; m_Inputs : list abi_type; m_Outputs : list abi_type }.

Definition mk_method (name : string) (inputs : list abi_type) : Method :=
  {| m_Name := name; m_Inputs := inputs; m_Outputs := [] |}.

(** The functions of the ABI, in its order. *)
Definition AccountABI : list Method :=
  [mk_method "addAuthorizedWallet" [TAddress];
   mk_method "removeAuthorizedWallet" [TAddress];
   mk_method "addAdmin" [TAddress];
   mk_method "removeAdmin" [TAddress];
   mk_method "getAllAdmins" [TUint256; TUint256];
   mk_method "getAllAuthorizedWallets" [TUint256; TUint256];
   mk_method "addHelpPayWallet" [TString];
   mk_method "removeHelpPayWallet" [TAddress];
   mk_method "getAllHelpPayWallets" [TUint256; TUint256];
   mk_method "getMyContracts" [TAddress; TUint256; TUint256];
   mk_method "addContractFreeGas" [TAddress];
   mk_method "confirmAccount" [TAddress; TUint256; TBytes];
   mk_method "confirmAccountWithoutSign" [TAddress];
   mk_method "getAllAccount" [TBytes; TBytes; TUint256; TUint256; TUint256; TBool];
   mk_method "getAllContractFreeGas" [TUint256; TUint256; TUint256; TBytes];
   mk_method "getNotifications" [TAddress; TUint256; TUint256];
   mk_method "getPublickeyBls" [];
   mk_method "removeContractFreeGas" [TAddress];
   mk_method "setAccountType" [TUint8];
   mk_method "setBlsPublicKey" [TBytes];
   mk_method "setBlsPublicKeyAutoConfirm" [TBytes];
   mk_method "transferFrom" [TAddress; TUint256; TUint256; TBytes];
   mk_method "setExtraAccount" [TUint256];
   mk_method "setFreeGasMinBalance" [TUint256];
   mk_method "setRewardAmount" [TUint256];
   {| m_Name := "extraAccount"; m_Inputs := []; m_Outputs := [TUint256] |};
   {| m_Name := "freeGasMinBalance"; m_Inputs := []; m_Outputs := [TUint256] |};
   {| m_Name := "rewardAmount"; m_Inputs := []; m_Outputs := [TUint256] |};
   {| m_Name := "getConfig"; m_Inputs := []; m_Outputs := [TUint256; TUint256; TUint256; TBool] |};
   mk_method "setDisableFreeGas" [TBool];
   {| m_Name := "disableFreeGas"; m_Inputs := []; m_Outputs := [TBool] |}].

(** An event parameter: its type and whether it is indexed. *)
Definition account_events : list (string * list (abi_type * bool)) :=
  [("AccountConfirmed", [(TAddress, false); (TUint256, false); (TString, false)]);
   ("RegisterBls", [(TAddress, false); (TUint256, false); (TBytes, false); (TString, false)]);
   ("TransferFrom", [(TAddress, false); (TAddress, false); (TUint256, false); (TUint256, false); (TString, false)])].

(** go-ethereum's accounts/abi. *)
Class AbiCodec := {
  selector : string → list abi_type → bytes;              (** the first four bytes of the signature's hash *)
  abi_Unpack : list abi_type → bytes → option (list abi_val);
  abi_Pack : list abi_type → list abi_val → option bytes;
  event_ID : string → list abi_type → bytes;               (** the hash of the event's signature *)
}.

Class AbiCodecLaws `{AbiCodec} : Prop := {
  abi_unpack_typed ts b vs : abi_Unpack ts b = Some vs → Forall2 has_type ts vs;
  abi_pack_unpack ts vs b : abi_Pack ts vs = Some b → abi_Unpack ts b = Some vs;
  abi_pack_typed ts vs : Forall2 has_type ts vs → is_Some (abi_Pack ts vs);
  selector_length n ts : length (selector n ts) = 4;
  selector_inj m m' : m ∈ AccountABI → m' ∈ AccountABI →
    selector (m_Name m) (m_Inputs m) = selector (m_Name m') (m_Inputs m') → m = m';
}.

Section Abi.
Context `{AbiCodec} `{EthCommon}.

(** [MethodById] *)
Definition MethodById (sigdata : bytes) : option Method :=
  snd <$> list_find (λ m, selector (m_Name m) (m_Inputs m) = sigdata) AccountABI.

Definition find_event (eventName : string) : option (list (abi_type * bool)) :=
  snd ∘ snd <$> list_find (λ e : string * list (abi_type * bool), e.1 = eventName) account_events.

(** [hash.Hex()] *)
Definition HashHex (h : bytes) : string := "0x" +:+ hex_EncodeToString h.

(** [pkg/utils/abi_helper.go]; [common.BigToHash] keeps the low 32 bytes of the absolute value. *)
Definition EncodeIndexedTopic (arg : abi_val) (argType : abi_type) : option string :=
  match argType, arg with
  | TAddress, VAddress a => Some (HashHex (BytesToHash a))
  | (TUint256 | TUint8), VBig z => Some (HashHex (BytesToHash (big_Bytes z)))
  | (TBytes | TString), VBytes b => Some (HashHex (Keccak256 b))
  | (TBytes | TString), VString s => Some (HashHex (Keccak256 (str_bytes s)))
  | _, _ => None
  end.

(** The topic loop of [broadcastEvent]: [None] is the error return. *)
Fixpoint event_topics (inputs : list (abi_type * bool)) (args : list abi_val) : option (list string) :=
  match inputs, args with
  | (ty, indexed) :: inputs, a :: args =>
    if indexed : bool then
      t ← EncodeIndexedTopic a ty; ts ← event_topics inputs args; Some (t :: ts)
    else event_topics inputs args
  | _, _ => Some []
  end.

Definition non_indexed (inputs : list (abi_type * bool)) : list abi_type :=
  (filter (λ i : abi_type * bool, i.2 = false) inputs).*1.

Lemma MethodById_sound sig m : MethodById sig = Some m → m ∈ AccountABI ∧ selector (m_Name m) (m_Inputs m) = sig.
Proof.
  unfold MethodById. destruct (list_find _ _) as [[i m']|] eqn:E; [|done]. intros [= <-].
  apply list_find_Some in E as (Hi & Hs & _). split; [by eapply list_elem_of_lookup_2|done].
Qed.

Lemma MethodById_selector `{!AbiCodecLaws} m : m ∈ AccountABI → MethodById (selector (m_Name m) (m_Inputs m)) = Some m.
Proof.
  intros Hm. unfold MethodById. destruct (list_find _ _) as [[i m']|] eqn:E.
  - apply list_find_Some in E as (Hi & Hs & _). simpl. f_equal. apply selector_inj; [|done..].
    by eapply list_elem_of_lookup_2.
  - apply list_find_None in E. rewrite Forall_forall in E. by destruct (E m Hm).
Qed.

(** The method names are distinct, so a name determines the parameter types. *)
Lemma account_abi_names m m' : m ∈ AccountABI → m' ∈ AccountABI → m_Name m = m_Name m' → m = m'.
Proof.
  intros [i Hi]%list_elem_of_lookup [j Hj]%list_elem_of_lookup E.
  assert (NoDup (m_Name <$> AccountABI)) as Hnd by (apply (bool_decide_unpack _); by vm_compute).
  assert (i = j) as ->; [|congruence].
  eapply (NoDup_lookup _ _ _ (m_Name m) Hnd); rewrite list_lookup_fmap; [by rewrite Hi|by rewrite Hj; simpl; f_equal].
Qed.

End Abi.
