(* ===== verification/AccountHandler.v ===== *)
(** * The account handler ([pkg/account_handler/account_handler.go], [account_tcp.go])

    The RPC front end's handler for the account contract: BLS registration and confirmation,
    transfers, the authorized, help-pay and admin lists, the configuration and the queries.  It
    works on four LevelDBs (accounts, free-gas lists, notifications, private keys), the
    configuration in memory, the set of help-pay workers and the chain. *)

From S2P Require Import Prelude Interfaces GoLib LevelDB LdbIter HexCodec FreeGas BlsAccounts Notifications PrivateKeys AccountAbi.
From Stdlib Require Import Strings.Byte.

(** ** Collaborators outside the repository and the node *)

(** go-ethereum's common, crypto and core/types, as far as the handler calls them. *)
Class EthTools (Tx Key : Type) := {
  HexToAddress : string → bytes;
  HexToECDSA : string → option Key;
  KeyAddress : Key → bytes;                      (** [PubkeyToAddress(key.PublicKey)] *)
  SigToAddress : bytes → bytes → option bytes;    (** [SigToPub] and [PubkeyToAddress]: hash, signature *)
  tx_UnmarshalBinary : bytes → option Tx;
  tx_MarshalBinary : Tx → option bytes;
  tx_Sender : Z → Tx → option bytes;              (** [types.Sender] under the latest signer of the chain *)
  tx_Hash : Tx → bytes;
  tx_To : Tx → option bytes;
  SignTransfer : Z → Key → Z → bytes → Z → Z → Z → option Tx;
    (** [SignTx(NewTransaction(nonce, to, amount, gasLimit, gasPrice, nil))] *)
}.

(** The node behind the RPC client and the connection pool; [W] is its state.  A failing call is
    [None] or [false].  [pick_worker] is the scheduler's choice among the waiting workers. *)
Class Chain (W : Type) := {
  pool_Get : W → bool * W;
  GetAccountStateTCP : bytes → W → option (Z * Z) * W;      (** balance and nonce *)
  SendRawTransaction : bytes → W → bool * W;
  WaitForReceiptTCP : string → W → bool * W;
  SendRawEthTransaction : string → W → option string * W;   (** the result string, or an error *)
  pick_worker : gset bytes → W → option bytes * W;
}.

(** A request is given to a worker whenever there is one. *)
Class ChainLaws (W : Type) `{Chain W} : Prop := {
  pick_worker_in ws w a w' : pick_worker ws w = (Some a, w') → a ∈ ws;
  pick_worker_some ws w : ws ≠ ∅ → is_Some (fst (pick_worker ws w));
}.

(** ** State *)

(** The fields of [config.Config] the handler reads and writes; [None] is a nil [*big.Int]. *)
Record Config := {
  OwnerRpcAddress : string;
  PkOwnerRpc : string;
  ContractsInterceptor : list string;
  ChainId : Z;                          (** also [ClientRpc.ChainId], copied from it *)
  RewardAmount : option Z;
  ExtraAmount : option Z;
  FreeGasMinBalance : option Z;
  DisableFreeGas : bool;
}.

Definition set_reward (v : Z) (c : Config) : Config :=
  {| OwnerRpcAddress := OwnerRpcAddress c; PkOwnerRpc := PkOwnerRpc c; ContractsInterceptor := ContractsInterceptor c;
     ChainId := ChainId c; RewardAmount := Some v; ExtraAmount := ExtraAmount c;
     FreeGasMinBalance := FreeGasMinBalance c; DisableFreeGas := DisableFreeGas c |}.
Definition set_extra (v : Z) (c : Config) : Config :=
  {| OwnerRpcAddress := OwnerRpcAddress c; PkOwnerRpc := PkOwnerRpc c; ContractsInterceptor := ContractsInterceptor c;
     ChainId := ChainId c; RewardAmount := RewardAmount c; ExtraAmount := Some v;
     FreeGasMinBalance := FreeGasMinBalance c; DisableFreeGas := DisableFreeGas c |}.
Definition set_min_balance (v : Z) (c : Config) : Config :=
  {| OwnerRpcAddress := OwnerRpcAddress c; PkOwnerRpc := PkOwnerRpc c; ContractsInterceptor := ContractsInterceptor c;
     ChainId := ChainId c; RewardAmount := RewardAmount c; ExtraAmount := ExtraAmount c;
     FreeGasMinBalance := Some v; DisableFreeGas := DisableFreeGas c |}.
Definition set_disable (v : bool) (c : Config) : Config :=
  {| OwnerRpcAddress := OwnerRpcAddress c; PkOwnerRpc := PkOwnerRpc c; ContractsInterceptor := ContractsInterceptor c;
     ChainId := ChainId c; RewardAmount := RewardAmount c; ExtraAmount := ExtraAmount c;
     FreeGasMinBalance := FreeGasMinBalance c; DisableFreeGas := v |}.

(** An event handed to the subscribers of the account contract. *)
Record Event := { ev_contract : bytes; ev_topics : list string; ev_data : string }.

Record Handler (St W : Type) := {
  h_bls : St;
  h_fg : St;
  h_noti : St;
  h_keys : St;
  h_pks : option PrivateKeyStore;       (** [appCtx.PKS]; [None] is nil *)
  h_pool : bool;                        (** whether [appCtx.ChainPool] is non-nil *)
  h_cfg : Config;
  h_workers : gset bytes;               (** the keys of [helpPayWorkers] *)
  h_queues : gset bytes;                (** the keys of [userTxQueues] *)
  h_world : W;
  h_events : list Event;
}.
Arguments h_bls {_ _} _.
Arguments h_fg {_ _} _.
Arguments h_noti {_ _} _.
Arguments h_keys {_ _} _.
Arguments h_pks {_ _} _.
Arguments h_pool {_ _} _.
Arguments h_cfg {_ _} _.
Arguments h_workers {_ _} _.
Arguments h_queues {_ _} _.
Arguments h_world {_ _} _.
Arguments h_events {_ _} _.

(** What a handler sees of a transaction ([types.Transaction]'s accessors). *)
Record IncomingTx := { in_Input : bytes; in_From : bytes; in_Hash : bytes; in_Nonce : Z }.

Inductive transfer_error :=
  | TxPool | TxPrivateKey | TxAccountState | TxBalance | TxSign | TxMarshal | TxSend | TxReceipt.

Record TransferTxResult := { r_From : bytes; r_TxHash : string; r_Err : option transfer_error }.

Inductive handler_error :=
  | ErrShortInput | ErrUnknownMethod | ErrUnpack | ErrArgType
  | ErrUnauthorized
  | ErrSaveAccount (e : bls_error) | ErrSavePending (e : bls_error) | ErrSaveNotification (e : noti_error)
  | ErrPending (e : bls_error) | ErrRawHex | ErrRawTx | ErrSender | ErrSenderMismatch | ErrSendTx
  | ErrTimestamp | ErrSignatureLength | ErrRecover | ErrSigner
  | ErrAmount | ErrTransfer (e : transfer_error)
  | ErrFreeGas (e : fg_error) | ErrAccounts (e : bls_error) | ErrNotifications (e : noti_error)
  | ErrPage | ErrPageSize | ErrPrivateKey | ErrPKS (e : pks_error) | ErrPackOutputs | ErrConfigMethod.

(** A handler returns an error or, waiting for a worker that does not exist, never returns. *)
Inductive stop := Returned (e : handler_error) | Blocked.

(** One account of the [getAllAccount] response. *)
Record AccountJSON := {
  j_address : string; j_blsPublicKey : string; j_registeredAt : Z; j_registerTxHash : string;
  j_isConfirmed : bool; j_confirmedAt : Z; j_confirmTxHash : string }.

(** The responses of the queries. *)
Inductive response :=
  | RNone
  | RString (s : string)
  | RConfigValue (z : Z)
  | RConfigFlag (b : bool)
  | RAccounts (l : list AccountJSON) (total page pageSize totalPage : Z) (confirmed : bool)
  | RNotifications (l : list (string * string * Z)) (total page pageSize totalPages : Z)
  | RContracts (adder : string) (l : list (string * Z * string)) (total page pageSize totalPages : Z)
  | RWallets (l : list (string * Z * string)) (total page pageSize totalPages : Z)
  | RWalletList (l : list AuthorizedWalletData) (total page pageSize totalPages : Z).

Definition i32 (z : Z) : Z := ((z + 2 ^ 31) mod 2 ^ 32 - 2 ^ 31)%Z.

(** [utils.Abs] on int64 *)
Definition Abs (x : Z) : Z := if (x <? 0)%Z then i64 (- x) else x.

Definition zeroAddress : bytes := zeros 20.

Section Handlers.
Context `{LevelDBIter St} `{EthCommon} `{EthAddress} `{KeyCipher} `{AbiCodec} `{EthTools Tx Key} `{Chain W}.
Context `{Proto ContractFreeGasData} `{Proto AuthorizedWalletData} `{Proto AdminData}.
Context `{Proto BlsAccountData} `{Proto PendingTransaction} `{Proto Notification}.

Definition HM : Type → Type := comp (Handler St W) stop.
#[export] Instance HM_ret : MRet HM := comp_ret.
#[export] Instance HM_bind : MBind HM := comp_bind.

Definition err {A} (e : handler_error) : HM A := c_fail (Returned e).

Definition put_bls (s : St) (h : Handler St W) : Handler St W :=
  {| h_bls := s; h_fg := h_fg h; h_noti := h_noti h; h_keys := h_keys h; h_pks := h_pks h; h_pool := h_pool h; h_cfg := h_cfg h;
     h_workers := h_workers h; h_queues := h_queues h; h_world := h_world h; h_events := h_events h |}.
Definition put_fg (s : St) (h : Handler St W) : Handler St W :=
  {| h_bls := h_bls h; h_fg := s; h_noti := h_noti h; h_keys := h_keys h; h_pks := h_pks h; h_pool := h_pool h; h_cfg := h_cfg h;
     h_workers := h_workers h; h_queues := h_queues h; h_world := h_world h; h_events := h_events h |}.
Definition put_noti (s : St) (h : Handler St W) : Handler St W :=
  {| h_bls := h_bls h; h_fg := h_fg h; h_noti := s; h_keys := h_keys h; h_pks := h_pks h; h_pool := h_pool h; h_cfg := h_cfg h;
     h_workers := h_workers h; h_queues := h_queues h; h_world := h_world h; h_events := h_events h |}.
Definition put_keys (s : St) (h : Handler St W) : Handler St W :=
  {| h_bls := h_bls h; h_fg := h_fg h; h_noti := h_noti h; h_keys := s; h_pks := h_pks h; h_pool := h_pool h; h_cfg := h_cfg h;
     h_workers := h_workers h; h_queues := h_queues h; h_world := h_world h; h_events := h_events h |}.
Definition put_cfg (c : Config) (h : Handler St W) : Handler St W :=
  {| h_bls := h_bls h; h_fg := h_fg h; h_noti := h_noti h; h_keys := h_keys h; h_pks := h_pks h; h_pool := h_pool h; h_cfg := c;
     h_workers := h_workers h; h_queues := h_queues h; h_world := h_world h; h_events := h_events h |}.
Definition put_workers (ws : gset bytes) (h : Handler St W) : Handler St W :=
  {| h_bls := h_bls h; h_fg := h_fg h; h_noti := h_noti h; h_keys := h_keys h; h_pks := h_pks h; h_pool := h_pool h; h_cfg := h_cfg h;
     h_workers := ws; h_queues := h_queues h; h_world := h_world h; h_events := h_events h |}.
Definition put_queues (qs : gset bytes) (h : Handler St W) : Handler St W :=
  {| h_bls := h_bls h; h_fg := h_fg h; h_noti := h_noti h; h_keys := h_keys h; h_pks := h_pks h; h_pool := h_pool h; h_cfg := h_cfg h;
     h_workers := h_workers h; h_queues := qs; h_world := h_world h; h_events := h_events h |}.
Definition put_world (w : W) (h : Handler St W) : Handler St W :=
  {| h_bls := h_bls h; h_fg := h_fg h; h_noti := h_noti h; h_keys := h_keys h; h_pks := h_pks h; h_pool := h_pool h; h_cfg := h_cfg h;
     h_workers := h_workers h; h_queues := h_queues h; h_world := w; h_events := h_events h |}.
Definition put_events (es : list Event) (h : Handler St W) : Handler St W :=
  {| h_bls := h_bls h; h_fg := h_fg h; h_noti := h_noti h; h_keys := h_keys h; h_pks := h_pks h; h_pool := h_pool h; h_cfg := h_cfg h;
     h_workers := h_workers h; h_queues := h_queues h; h_world := h_world h; h_events := es |}.

(** A call into one of the stores: its error is a value, its panic is a panic. *)
Definition on {S E A} (get : Handler St W → S) (put : S → Handler St W → Handler St W) (c : comp S E A) : HM (E + A) := λ h,
  match c (get h) with
  | (Ok a, s) => (Ok (inr a), put s h)
  | (Fail e, s) => (Ok (inl e), put s h)
  | (Panic, s) => (Panic, put s h)
  | (OutOfFuel, s) => (OutOfFuel, put s h)
  end.

Definition on_bls {A} : comp St bls_error A → HM (bls_error + A) := on h_bls put_bls.
Definition on_fg {A} : comp St fg_error A → HM (fg_error + A) := on h_fg put_fg.
Definition on_noti {A} : comp St noti_error A → HM (noti_error + A) := on h_noti put_noti.
Definition on_keys {A} : comp St pks_error A → HM (pks_error + A) := on h_keys put_keys.
Definition on_chain {A} (c : W → A * W) : HM A := λ h, let '(a, w) := c (h_world h) in (Ok a, put_world w h).

(** [if err != nil { return wrap(err) }] *)
Definition or_err {E A} (wrap : E → handler_error) (m : HM (E + A)) : HM A :=
  r ← m; match r with inr a => mret a | inl e => err (wrap e) end.

(** [b, _ := f()]: a failing lookup counts as false *)
Definition yes {E} (r : E + bool) : bool := match r with inr b => b | inl _ => false end.

Definition cfg : HM Config := h ← c_get; mret (h_cfg h).

(** ** Unpacked arguments: an index out of range panics, a failed assertion gives the zero value *)

Definition arg (args : list abi_val) (i : nat) : HM abi_val :=
  match args !! i with Some v => mret v | None => c_panic end.
Definition arg_address (args : list abi_val) (i : nat) : HM bytes :=
  v ← arg args i; mret (match v with VAddress a => a | _ => zeroAddress end).
Definition arg_bytes (args : list abi_val) (i : nat) : HM bytes :=
  v ← arg args i; mret (match v with VBytes b => b | _ => [] end).
Definition arg_bool (args : list abi_val) (i : nat) : HM bool :=
  v ← arg args i; mret (match v with VBool b => b | _ => false end).
(** A nil [*big.Int] panics where it is used. *)
Definition arg_big (args : list abi_val) (i : nat) : HM (option Z) :=
  v ← arg args i; mret (match v with VBig z => Some z | _ => None end).
Definition deref (z : option Z) : HM Z := match z with Some z => mret z | None => c_panic end.

Definition Unpack (m : Method) (inputData : bytes) : HM (list abi_val) :=
  match abi_Unpack (m_Inputs m) inputData with Some vs => mret vs | None => err ErrUnpack end.

(** ** Signatures *)

(** [now] is the clock at the call. *)
Definition verifyTimestamp (now timestamp : Z) : bool := negb (300 <? Abs (i64 (now - i64 timestamp)))%Z.

(** [FillBytes] into 32 bytes: the absolute value, or a panic when it does not fit *)
Definition FillBytes32 (z : Z) : HM bytes :=
  if (Z.abs z <? 2 ^ 256)%Z then mret (be_bytes 32 (Z.abs z)) else c_panic.

Definition buildMessageWithTimestamp (data : bytes) (timestamp : Z) : HM bytes :=
  timestampBytes ← FillBytes32 timestamp; mret (data ++ timestampBytes).

Definition signed_message (message : bytes) : bytes :=
  x19 :: str_bytes "Ethereum Signed Message:" ++ [x0a] ++ str_bytes (FormatUint (Z.of_nat (length message))) ++ message.

(** The recovery id in the last byte is 27 or 28 in Ethereum's form. *)
Definition adjust_v (signature : bytes) : bytes :=
  match signature !! 64 with
  | Some v => if (27 <=? b2z v)%Z then <[64 := z2b (b2z v - 27)]> signature else signature
  | None => signature
  end.

Definition recoverSignerAddress (message signatureBytes : bytes) : handler_error + bytes :=
  if (length signatureBytes <? 65)%nat then inl ErrSignatureLength
  else match SigToAddress (Keccak256 (signed_message message)) (adjust_v (take 65 signatureBytes)) with
       | Some a => inr a
       | None => inl ErrRecover
       end.

Definition verifyOwnerSignature (message signatureBytes : bytes) : HM unit :=
  match recoverSignerAddress message signatureBytes with
  | inl e => err e
  | inr signerAddress =>
    c ← cfg;
    if decide (signerAddress = HexToAddress (OwnerRpcAddress c)) then mret tt else err ErrSigner
  end.

Definition verifySignature (now : Z) (signBytes blsPublicKeyBytes : bytes) (timestamp : Z) : HM unit :=
  if verifyTimestamp now timestamp then
    message ← buildMessageWithTimestamp blsPublicKeyBytes timestamp;
    verifyOwnerSignature message signBytes
  else err ErrTimestamp.

(** ** Events *)

(** Errors of [broadcastEvent] are ignored by its callers; it panics without an interceptor. *)
Definition broadcastEvent (eventName : string) (eventArgs : list abi_val) : HM unit :=
  c ← cfg;
  match ContractsInterceptor c with
  | [] => c_panic
  | contract :: _ =>
    match find_event eventName with
    | None => mret tt
    | Some inputs =>
      match event_topics inputs eventArgs with
      | None => mret tt
      | Some _ =>
        match abi_Pack (non_indexed inputs) eventArgs with
        | None => mret tt
        | Some eventData =>
          c_modify (λ h, put_events (h_events h ++
            [{| ev_contract := HexToAddress contract;
                ev_topics := [HashHex (event_ID eventName (inputs.*1))];
                ev_data := "0x" +:+ hex_EncodeToString eventData |}]) h)
        end
      end
    end
  end.

Definition SaveNoti (address : bytes) (message : string) (createdAt : Z) : HM (noti_error + unit) :=
  on_noti (SaveNotification {| n_Id := EmptyString; n_AccountAddress := address; n_Message := message; n_CreatedAt := createdAt |}).

(** ** Registration *)

(** [t 0], [t 1] and [t 2] are the three readings of the clock. *)
Definition handleSetBlsPublicKey (t : nat → Z) (tx : IncomingTx) (m : Method) (inputData : bytes) (rawTransactionHex : string) : HM unit :=
  args ← Unpack m inputData;
  a0 ← arg args 0;
  match a0 with
  | VBytes blsPublicKeyBytes =>
    let fromAddress := in_From tx in
    let currentTime := t 0 in
    c ← cfg;
    let adminAddress := HexToAddress (OwnerRpcAddress c) in
    _ ← or_err ErrSaveAccount (on_bls (AddAccountToBlsPublicKey
          {| Address := fromAddress; BlsPublicKey := blsPublicKeyBytes; RegisteredAt := t 1; RegisterTxHash := in_Hash tx;
             IsConfirmed := false; ConfirmedAt := 0; ConfirmTxHash := [] |} false));
    _ ← or_err ErrSavePending (on_bls (SavePendingTransaction
          {| pt_Address := fromAddress; pt_BlsPublicKey := blsPublicKeyBytes; pt_RawTransactionHex := rawTransactionHex;
             pt_CreatedAt := t 2; pt_Nonce := in_Nonce tx; pt_OriginalGasPrice := 0 |}));
    let msgNoti := "BLS registered for account " +:+ AddressHex fromAddress in
    _ ← or_err ErrSaveNotification (SaveNoti adminAddress msgNoti currentTime);
    broadcastEvent "RegisterBls" [VAddress adminAddress; VBig currentTime; VBytes blsPublicKeyBytes; VString msgNoti]
  | _ => err ErrArgType
  end.

(** ** Configuration *)

(** The result of [SaveAppConfig] is dropped. *)
Definition save_config (key value : string) : HM unit :=
  _ ← on_fg (SaveAppConfig key (str_bytes value)); mret tt.

Definition handleUpdateConfig (tx : IncomingTx) (m : Method) (inputData : bytes) : HM response :=
  c ← cfg;
  if decide (in_From tx = HexToAddress (OwnerRpcAddress c)) then
    args ← Unpack m inputData;
    let big set key :=
      v ← arg args 0;
      match v with
      | VBig val => _ ← c_modify (λ h, put_cfg (set val (h_cfg h)) h); _ ← save_config key (big_String val); mret (RConfigValue val)
      | _ => err ErrArgType
      end in
    if decide (m_Name m = "setExtraAccount") then big set_extra "extra_account"
    else if decide (m_Name m = "setFreeGasMinBalance") then big set_min_balance "free_gas_min_balance"
    else if decide (m_Name m = "setRewardAmount") then big set_reward "reward_amount"
    else if decide (m_Name m = "setDisableFreeGas") then
      v ← arg args 0;
      match v with
      | VBool val =>
        _ ← c_modify (λ h, put_cfg (set_disable val (h_cfg h)) h);
        _ ← save_config "disable_free_gas" (if val then "true" else "false");
        mret (RConfigFlag val)
      | _ => err ErrArgType
      end
    else err ErrConfigMethod
  else err ErrUnauthorized.

(** [app.New]: the stored values replace those of the configuration file. *)
Definition load_big (key : string) (set : Z → Config → Config) : HM unit :=
  r ← on_fg (GetAppConfig key);
  match r with
  | inr v => match big_SetString (bytes_str v) with
             | Some z => c_modify (λ h, put_cfg (set z (h_cfg h)) h)
             | None => mret tt
             end
  | inl _ => mret tt
  end.

Definition load_config : HM unit :=
  _ ← load_big "extra_account" set_extra;
  _ ← load_big "free_gas_min_balance" set_min_balance;
  _ ← load_big "reward_amount" set_reward;
  r ← on_fg (GetAppConfig "disable_free_gas");
  match r with
  | inr v => c_modify (λ h, put_cfg (set_disable (bool_decide (bytes_str v = "true")) (h_cfg h)) h)
  | inl _ => mret tt
  end.

Definition GetFreeGasMinBalance (c : Config) : Z :=
  match FreeGasMinBalance c with
  | Some v => if (0 <? v)%Z then v else 10000000000000000
  | None => 10000000000000000
  end.

Definition handleGetConfig (m : Method) : HM response :=
  c ← cfg;
  match abi_Pack (m_Outputs m) [VBig (default 0%Z (ExtraAmount c)); VBig (default 0%Z (FreeGasMinBalance c));
                                VBig (default 0%Z (RewardAmount c)); VBool (DisableFreeGas c)] with
  | Some b => mret (RString ("0x" +:+ hex_EncodeToString b))
  | None => err ErrPackOutputs
  end.

(** ** Transfers ([account_tcp.go]) *)

(** The key that signs for [from]; [None]: none, or not a key. *)
Definition transfer_key (from : bytes) : HM (option Key) :=
  c ← cfg;
  let ownerAddr := HexToAddress (OwnerRpcAddress c) in
  let owner_key := HexToECDSA (TrimPrefix (PkOwnerRpc c) "0x") in
  if decide ((from = ownerAddr ∨ from = zeroAddress) ∧ PkOwnerRpc c ≠ EmptyString) then mret owner_key
  else
    h ← c_get;
    match h_pks h with
    | None => c_panic
    | Some pks =>
      exists_ ← on_keys (HasPrivateKey from);
      if yes exists_ then
        pkHex ← on_keys (GetPrivateKey pks from);
        mret (HexToECDSA (TrimPrefix (match pkHex with inr k => k | inl _ => EmptyString end) "0x"))
      else if decide (PkOwnerRpc c ≠ EmptyString ∧ from = zeroAddress) then mret owner_key
      else mret None
    end.

Definition transfer_failed (from : bytes) (e : transfer_error) : HM TransferTxResult :=
  mret {| r_From := from; r_TxHash := EmptyString; r_Err := Some e |}.

Definition executeTransfer (from to : bytes) (amount : Z) : HM TransferTxResult :=
  h ← c_get;
  if h_pool h then
    conn ← on_chain pool_Get;
    if conn : bool then
      privKey ← transfer_key from;
      match privKey with
      | None => transfer_failed from TxPrivateKey
      | Some privKey =>
        let from := KeyAddress privKey in
        as_ ← on_chain (GetAccountStateTCP from);
        match as_ with
        | None => transfer_failed from TxAccountState
        | Some (balance, nonce) =>
          if (balance <? amount)%Z then transfer_failed from TxBalance
          else
            c ← cfg;
            match SignTransfer (ChainId c) privKey nonce to amount 21000 100000 with
            | None => transfer_failed from TxSign
            | Some signedTx =>
              match tx_MarshalBinary signedTx with
              | None => transfer_failed from TxMarshal
              | Some rawTx =>
                sent ← on_chain (SendRawTransaction rawTx);
                if sent : bool then
                  let txHash := HashHex (tx_Hash signedTx) in
                  mined ← on_chain (WaitForReceiptTCP txHash);
                  mret {| r_From := from; r_TxHash := txHash; r_Err := if mined : bool then None else Some TxReceipt |}
                else transfer_failed from TxSend
              end
            end
        end
      end
    else transfer_failed from TxPool
  else c_panic.

(** The wallet's queue is created once; its worker runs the requests one at a time. *)
Definition SendTransfer (fromAddress toAddress : bytes) (amount : Z) : HM TransferTxResult :=
  _ ← c_modify (λ h, put_queues ({[fromAddress]} ∪ h_queues h) h);
  executeTransfer fromAddress toAddress amount.

(** Some help-pay worker takes the request from the shared queue ([helpPayWorkerLoop]). *)
Definition SendHelpPayTransfer (toAddress : bytes) (amount : Z) : HM TransferTxResult :=
  h ← c_get;
  wallet ← on_chain (pick_worker (h_workers h));
  match wallet with
  | None => c_fail Blocked
  | Some wallet => SendTransfer wallet toAddress amount
  end.

(** ** Confirmation *)

(** [ethCommon.Address(b)]: the first 20 bytes of a slice that has them *)
Definition Address_of_slice (b : bytes) : HM bytes :=
  if (20 <=? length b)%nat then mret (take 20 b) else c_panic.

Definition is_interceptor_tx (ethTx : Tx) : HM bool :=
  match tx_To ethTx with
  | None => mret true
  | Some to =>
    c ← cfg;
    match ContractsInterceptor c with
    | [] => c_panic
    | contract :: _ => mret (bool_decide (to = HexToAddress contract))
    end
  end.

(** The registration transaction goes to the chain unless it is for the interceptor. *)
Definition forward_registration (ethTx : Tx) (rawTransactionHex : string) : HM string :=
  let newTxHash := HashHex (tx_Hash ethTx) in
  isInterceptorTx ← is_interceptor_tx ethTx;
  if isInterceptorTx : bool then mret newTxHash
  else
    resp ← on_chain (SendRawEthTransaction rawTransactionHex);
    match resp with
    | None => err ErrSendTx
    | Some txHashStr => mret (if decide (txHashStr = EmptyString) then newTxHash else txHashStr)
    end.

(** A failed reward is only logged. *)
Definition pay_reward (pendingTx : PendingTransaction) (newTxHash : string) : HM string :=
  c ← cfg;
  match RewardAmount c with
  | Some reward =>
    if (0 <? reward)%Z then
      to ← Address_of_slice (pt_Address pendingTx);
      rewardResult ← SendHelpPayTransfer to reward;
      match r_Err rewardResult with
      | Some _ => mret newTxHash
      | None => mret (if decide (r_TxHash rewardResult = EmptyString) then newTxHash else r_TxHash rewardResult)
      end
    else mret newTxHash
  | None => mret newTxHash
  end.

(** What both confirmations do once they are admitted; errors of the two account-store updates are
    only logged. *)
Definition confirm_pending (t : nat → Z) (accountAddress : bytes) : HM string :=
  let currentTime := t 0 in
  pendingTx ← or_err ErrPending (on_bls (GetPendingTransaction accountAddress));
  match DecodeHexPooled (pt_RawTransactionHex pendingTx) with
  | None => err ErrRawHex
  | Some decodedTxBytes =>
    match tx_UnmarshalBinary decodedTxBytes with
    | None => err ErrRawTx
    | Some ethTx =>
      c ← cfg;
      match tx_Sender (ChainId c) ethTx with
      | None => err ErrSender
      | Some fromAddress =>
        if decide (fromAddress = accountAddress) then
          newTxHash ← forward_registration ethTx (pt_RawTransactionHex pendingTx);
          newTxHash ← pay_reward pendingTx newTxHash;
          _ ← on_bls (MarkAccountConfirmed (t 1) accountAddress (tx_Hash ethTx) (pt_BlsPublicKey pendingTx));
          _ ← on_bls (DeletePendingTransaction accountAddress);
          let msgNoti := "Your account " +:+ AddressHex accountAddress +:+ " has been successfully confirmed!" in
          _ ← or_err ErrSaveNotification (SaveNoti accountAddress msgNoti currentTime);
          _ ← broadcastEvent "AccountConfirmed" [VAddress accountAddress; VBig currentTime; VString msgNoti];
          mret newTxHash
        else err ErrSenderMismatch
      end
    end
  end.

Definition handleConfirmAccountWithoutSign (t : nat → Z) (m : Method) (inputData : bytes) : HM string :=
  args ← Unpack m inputData;
  accountAddress ← arg_address args 0;
  confirm_pending t accountAddress.

(** [now] is read by [verifyTimestamp], [t] afterwards. *)
Definition handleConfirmAccount (now : Z) (t : nat → Z) (m : Method) (inputData : bytes) : HM string :=
  args ← Unpack m inputData;
  accountAddress ← arg_address args 0;
  timestamp ← arg_big args 1;
  signatureBytes ← arg_bytes args 2;
  timestamp ← deref timestamp;
  if verifyTimestamp now timestamp then
    message ← buildMessageWithTimestamp accountAddress timestamp;
    _ ← verifyOwnerSignature message signatureBytes;
    confirm_pending t accountAddress
  else err ErrTimestamp.

Definition handleTransferFrom (t : nat → Z) (tx : IncomingTx) (m : Method) (inputData : bytes) : HM string :=
  args ← Unpack m inputData;
  toAddress ← arg_address args 0;
  transferAmount ← arg_big args 1;
  timestamp ← arg_big args 2;
  signatureBytes ← arg_bytes args 3;
  let fromAddress := in_From tx in
  let currentTime := t 0 in
  timestamp ← deref timestamp;
  if verifyTimestamp (t 1) timestamp then
    transferAmount ← deref transferAmount;
    if (transferAmount <=? 0)%Z then err ErrAmount
    else
      amountBytes ← FillBytes32 transferAmount;
      timestampBytes ← FillBytes32 timestamp;
      match recoverSignerAddress (toAddress ++ amountBytes ++ timestampBytes) signatureBytes with
      | inl e => err e
      | inr signerAddress =>
        if decide (signerAddress = fromAddress) then
          result ← SendTransfer fromAddress toAddress transferAmount;
          let amount := big_String transferAmount in
          _ ← SaveNoti fromAddress ("You transferred " +:+ amount +:+ " to " +:+ AddressHex toAddress) currentTime;
          _ ← SaveNoti toAddress ("You received " +:+ amount +:+ " from " +:+ AddressHex fromAddress) currentTime;
          _ ← broadcastEvent "TransferFrom"
                [VAddress fromAddress; VAddress toAddress; VBig transferAmount; VBig currentTime;
                 VString ("Transfer " +:+ amount +:+ " from " +:+ AddressHex fromAddress +:+ " to " +:+ AddressHex toAddress)];
          match r_Err result with Some e => err (ErrTransfer e) | None => mret (r_TxHash result) end
        else err ErrSigner
      end
  else err ErrTimestamp.

(** ** Authorized wallets and administrators *)

Definition owner : HM bytes := c ← cfg; mret (HexToAddress (OwnerRpcAddress c)).

(** Owner or administrator; a failing lookup counts as "no". *)
Definition owner_or_admin (fromAddress : bytes) : HM bool :=
  ownerAddress ← owner;
  if decide (fromAddress = ownerAddress) then mret true
  else isAdmin ← on_fg (IsAdmin fromAddress); mret (yes isAdmin).

Definition handleAddAuthorizedWallet (now : Z) (tx : IncomingTx) (m : Method) (inputData : bytes) : HM string :=
  args ← Unpack m inputData;
  walletAddress ← arg_address args 0;
  allowed ← owner_or_admin (in_From tx);
  if allowed : bool then
    _ ← or_err ErrFreeGas (on_fg (AddWallet now walletAddress (in_From tx)));
    mret (HashHex (in_Hash tx))
  else err ErrUnauthorized.

Definition handleRemoveAuthorizedWallet (tx : IncomingTx) (m : Method) (inputData : bytes) : HM string :=
  args ← Unpack m inputData;
  walletAddress ← arg_address args 0;
  allowed ← owner_or_admin (in_From tx);
  if allowed : bool then
    _ ← or_err ErrFreeGas (on_fg (RemoveWallet walletAddress));
    mret (HashHex (in_Hash tx))
  else err ErrUnauthorized.

Definition handleAddAdmin (now : Z) (tx : IncomingTx) (m : Method) (inputData : bytes) : HM string :=
  args ← Unpack m inputData;
  adminAddress ← arg_address args 0;
  ownerAddress ← owner;
  if decide (in_From tx = ownerAddress) then
    _ ← or_err ErrFreeGas (on_fg (AddAdmin now adminAddress (in_From tx)));
    mret (HashHex (in_Hash tx))
  else err ErrUnauthorized.

Definition handleRemoveAdmin (tx : IncomingTx) (m : Method) (inputData : bytes) : HM string :=
  args ← Unpack m inputData;
  adminAddress ← arg_address args 0;
  ownerAddress ← owner;
  if decide (in_From tx = ownerAddress) then
    _ ← or_err ErrFreeGas (on_fg (RemoveAdmin adminAddress));
    mret (HashHex (in_Hash tx))
  else err ErrUnauthorized.

(** ** Help-pay wallets *)

(** Whether a listed wallet has a key of its own. *)
Definition wallet_has_key (addr : bytes) : HM bool :=
  h ← c_get;
  exists_ ← match h_pks h with
            | Some _ => r ← on_keys (HasPrivateKey addr); mret (yes r)
            | None => mret false
            end;
  ownerAddr ← owner;
  mret (exists_ || bool_decide (addr = ownerAddr ∧ PkOwnerRpc (h_cfg h) ≠ EmptyString)).

(** The loop over the listed wallets: those with a key, and whether the owner is one of the list. *)
Fixpoint valid_wallets (wallets : list AuthorizedWalletData) : HM (gset bytes * bool) :=
  match wallets with
  | [] => mret (∅, false)
  | w :: wallets =>
    let addr := BytesToAddress (aw_WalletAddress w) in
    hasKey ← wallet_has_key addr;
    ownerAddr ← owner;
    '(valid, foundOwner) ← valid_wallets wallets;
    mret (if hasKey : bool then {[addr]} ∪ valid else valid, bool_decide (addr = ownerAddr) || foundOwner)
  end.

(** The owner's wallet joins the list the first time; both writes may fail unnoticed. *)
Definition auto_add_owner (now : Z) (rnd : option bytes) : HM unit :=
  c ← cfg;
  let ownerAddr := HexToAddress (OwnerRpcAddress c) in
  _ ← on_fg (AddHelpPayWallet now ownerAddr ownerAddr);
  h ← c_get;
  match h_pks h with
  | Some pks => _ ← on_keys (SetPrivateKey pks rnd ownerAddr (TrimPrefix (PkOwnerRpc c) "0x")); mret tt
  | None => mret tt
  end.

(** The workers become exactly the valid wallets. *)
Definition syncHelpPayWorkers (now : Z) (rnd : option bytes) : HM unit :=
  r ← on_fg (GetHelpPayWallets 0 1000);
  match r with
  | inl _ => mret tt
  | inr (wallets, _) =>
    '(valid, foundOwner) ← valid_wallets wallets;
    c ← cfg;
    let ownerAddr := HexToAddress (OwnerRpcAddress c) in
    valid ← if decide (foundOwner = false ∧ PkOwnerRpc c ≠ EmptyString ∧ ownerAddr ≠ zeroAddress)
            then _ ← auto_add_owner now rnd; mret ({[ownerAddr]} ∪ valid)
            else mret valid;
    c_modify (λ h, put_workers (filter (.∈ valid) (h_workers h) ∪ valid) h)
  end.

(** [strings.TrimSpace] and both prefixes *)
Definition clean_key (v : string) : string := TrimPrefix (TrimPrefix (TrimSpace v) "0x") "0X".

(** The wallet an argument names, and the key it carries. *)
Definition wallet_argument (v : abi_val) : handler_error + bytes * string :=
  match v with
  | VString s =>
    match HexToECDSA (clean_key s) with
    | Some privKey => inr (KeyAddress privKey, clean_key s)
    | None => inl ErrPrivateKey
    end
  | VAddress a => inr (a, EmptyString)
  | _ => inl ErrArgType
  end.

(** [IsAdmin] is asked first and its error is passed on, also to the owner. *)
Definition admin_or_owner (fromAddress : bytes) : HM bool :=
  isAdmin ← or_err ErrFreeGas (on_fg (IsAdmin fromAddress));
  ownerAddr ← owner;
  mret (isAdmin || bool_decide (fromAddress = ownerAddr)).

Definition store_key (rnd : option bytes) (walletAddress : bytes) (cleanKey : string) : HM unit :=
  h ← c_get;
  match h_pks h with
  | Some pks =>
    if decide (cleanKey = EmptyString) then mret tt
    else or_err ErrPKS (on_keys (SetPrivateKey pks rnd walletAddress cleanKey))
  | None => mret tt
  end.

Definition handleAddHelpPayWallet (t : nat → Z) (rnd : nat → option bytes) (tx : IncomingTx) (m : Method) (inputData : bytes) : HM string :=
  args ← Unpack m inputData;
  match args with
  | [] => err ErrArgType
  | v :: _ =>
    match wallet_argument v with
    | inl e => err e
    | inr (walletAddress, cleanKey) =>
      allowed ← admin_or_owner (in_From tx);
      if allowed : bool then
        _ ← store_key (rnd 0) walletAddress cleanKey;
        _ ← or_err ErrFreeGas (on_fg (AddHelpPayWallet (t 0) walletAddress (in_From tx)));
        _ ← syncHelpPayWorkers (t 1) (rnd 1);
        mret (AddressHex walletAddress)
      else err ErrUnauthorized
    end
  end.

Definition handleRemoveHelpPayWallet (now : Z) (rnd : option bytes) (tx : IncomingTx) (m : Method) (inputData : bytes) : HM string :=
  args ← Unpack m inputData;
  match args with
  | VAddress walletAddress :: _ =>
    allowed ← admin_or_owner (in_From tx);
    if allowed : bool then
      _ ← or_err ErrFreeGas (on_fg (RemoveHelpPayWallet walletAddress));
      h ← c_get;
      _ ← match h_pks h with Some _ => _ ← on_keys (DeletePrivateKey walletAddress); mret tt | None => mret tt end;
      _ ← syncHelpPayWorkers now rnd;
      mret EmptyString
    else err ErrUnauthorized
  | _ => err ErrArgType
  end.

(** ** Queries *)

(** Integer division of [int]s *)
Definition int_div (a b : Z) : HM Z := if (b =? 0)%Z then c_panic else mret (i64 (Z.quot a b)).

(** [(total + pageSize - 1) / pageSize] *)
Definition page_count (total pageSize : Z) : HM Z := int_div (i64 (total + pageSize - 1)) pageSize.

(** [int(z.Int64())] *)
Definition big_Int64 (z : option Z) : HM Z := z ← deref z; mret (i64 z).

Definition account_json (acc : BlsAccountData) : AccountJSON :=
  {| j_address := AddressHex (BytesToAddress (Address acc));
     j_blsPublicKey := "0x" +:+ Bytes2Hex (BlsPublicKey acc);
     j_registeredAt := RegisteredAt acc;
     j_registerTxHash := "0x" +:+ Bytes2Hex (RegisterTxHash acc);
     j_isConfirmed := IsConfirmed acc;
     j_confirmedAt := ConfirmedAt acc;
     j_confirmTxHash := "0x" +:+ Bytes2Hex (ConfirmTxHash acc) |}.

Definition handleGetAllAccount (now : Z) (m : Method) (inputData : bytes) : HM response :=
  args ← Unpack m inputData;
  signBytes ← arg_bytes args 0;
  blsPublicKeyBytes ← arg_bytes args 1;
  timestamp ← arg_big args 2;
  page ← arg_big args 3;
  pageSize ← arg_big args 4;
  isConfirmed ← arg_bool args 5;
  timestamp ← deref timestamp;
  _ ← verifySignature now signBytes blsPublicKeyBytes timestamp;
  pageNum ← big_Int64 page;
  pageSizeNum ← big_Int64 pageSize;
  let pageNum := if (pageNum <? 0)%Z then 0%Z else pageNum in
  let pageSizeNum := if (pageSizeNum <=? 0)%Z || (100 <? pageSizeNum)%Z then 20%Z else pageSizeNum in
  '(accounts, total) ← or_err ErrAccounts (on_bls (GetAccountsByBlsPublicKey blsPublicKeyBytes pageNum pageSizeNum isConfirmed));
  totalPage ← page_count total pageSizeNum;
  mret (RAccounts (account_json <$> accounts) total pageNum pageSizeNum totalPage isConfirmed).

Definition handleGetNotifications (m : Method) (inputData : bytes) : HM response :=
  args ← Unpack m inputData;
  a0 ← arg args 0;
  accountAddress ← match a0 with VAddress a => mret a | _ => c_panic end;
  p ← arg_big args 1; page ← big_Int64 p;
  p ← arg_big args 2; pageSize ← big_Int64 p;
  '(notifications, total) ← or_err ErrNotifications (on_noti (GetNotifications accountAddress page pageSize));
  totalPage ← page_count total pageSize;
  mret (RNotifications ((λ n, (n_Id n, n_Message n, n_CreatedAt n)) <$> notifications) total page pageSize
          (if (totalPage =? 0)%Z then 1%Z else totalPage)).

(** The bounds three of the list queries check. *)
Definition check_page (page pageSize : option Z) : HM (Z * Z) :=
  pageInt ← big_Int64 page;
  pageSizeInt ← big_Int64 pageSize;
  if (pageInt <? 0)%Z then err ErrPage
  else if (pageSizeInt <=? 0)%Z || (100 <? pageSizeInt)%Z then err ErrPageSize
  else mret (pageInt, pageSizeInt).

Definition entry_json {T} `{Entry T} (added_at : T → Z) (e : T) : string * Z * string :=
  (AddressHex (BytesToAddress (entry_address e)), added_at e, AddressHex (BytesToAddress (entry_addedBy e))).

Definition handleGetMyContracts (m : Method) (inputData : bytes) (fromAddress : bytes) : HM response :=
  args ← Unpack m inputData;
  adder ← arg_address args 0;
  page ← arg_big args 1;
  pageSize ← arg_big args 2;
  targetAdder ←
    (if decide (adder = zeroAddress) then mret fromAddress
     else
       allowed ← owner_or_admin fromAddress;
       if allowed : bool then mret adder else err ErrUnauthorized);
  '(pageInt, pageSizeInt) ← check_page page pageSize;
  '(contracts, total) ← or_err ErrFreeGas (on_fg (GetContractsByAdder targetAdder pageInt pageSizeInt));
  totalPages ← page_count total pageSizeInt;
  mret (RContracts (AddressHex targetAdder) (entry_json cfg_AddedAt <$> contracts) total pageInt pageSizeInt totalPages).

(** The owner's page of one of the lists *)
Definition owner_page {T} `{Entry T} (added_at : T → Z) (get : Z → Z → comp St fg_error (list T * Z))
    (m : Method) (inputData : bytes) (fromAddress : bytes) : HM response :=
  args ← Unpack m inputData;
  page ← arg_big args 0;
  pageSize ← arg_big args 1;
  ownerAddress ← owner;
  if decide (fromAddress = ownerAddress) then
    '(pageInt, pageSizeInt) ← check_page page pageSize;
    '(wallets, total) ← or_err ErrFreeGas (on_fg (get pageInt pageSizeInt));
    totalPages ← page_count total pageSizeInt;
    mret (RWallets (entry_json added_at <$> wallets) total pageInt pageSizeInt totalPages)
  else err ErrUnauthorized.

Definition handleGetAllAuthorizedWallets := owner_page aw_AddedAt GetWallets.
Definition handleGetAllAdmins := owner_page ad_AddedAt GetAdmins.

(** Neither the caller nor the page is checked. *)
Definition handleGetAllHelpPayWallets (m : Method) (inputData : bytes) : HM response :=
  args ← Unpack m inputData;
  p ← arg_big args 0; page ← big_Int64 p;
  p ← arg_big args 1; pageSize ← big_Int64 p;
  '(wallets, total) ← or_err ErrFreeGas (on_fg (GetHelpPayWallets page pageSize));
  totalPages ← page_count total pageSize;
  mret (RWalletList wallets (i32 total) (i32 page) (i32 pageSize) (i32 totalPages)).

(** [publicKey] is what the client's key pair prints. *)
Definition handleGetPublickeyBls (publicKey : string) : HM response :=
  mret (RString (if HasPrefix publicKey "0x" then publicKey else "0x" +:+ publicKey)).

(** ** Dispatch *)

(** The readings of the clock and of the random source during one call. *)
Record Env := { e_clock : nat → Z; e_random : nat → option bytes; e_publicKey : string }.

Definition later (t : nat → Z) (n : nat) : Z := t (S n).

(** [handled] and the result; [None] is a nil result. *)
Definition HandleAccountTransaction (e : Env) (tx : IncomingTx) (rawTransactionHex : string) : HM (bool * option response) :=
  let inputData := in_Input tx in
  let t := e_clock e in
  let string_result (c : HM string) : HM (bool * option response) := s ← c; mret (true, Some (RString s)) in
  if (length inputData <? 4)%nat then err ErrShortInput
  else match MethodById (take 4 inputData) with
  | None => err ErrUnknownMethod
  | Some m =>
    let input := drop 4 inputData in
    let named (name : string) : bool := bool_decide (m_Name m = name) in
    if named "setBlsPublicKey" then _ ← handleSetBlsPublicKey t tx m input rawTransactionHex; mret (true, None)
    else if named "confirmAccountWithoutSign" then string_result (handleConfirmAccountWithoutSign t m input)
    else if named "confirmAccount" then string_result (handleConfirmAccount (t 0) (later t) m input)
    else if named "transferFrom" then string_result (handleTransferFrom t tx m input)
    else if named "addAuthorizedWallet" then string_result (handleAddAuthorizedWallet (t 0) tx m input)
    else if named "removeAuthorizedWallet" then string_result (handleRemoveAuthorizedWallet tx m input)
    else if named "addHelpPayWallet" then string_result (handleAddHelpPayWallet t (e_random e) tx m input)
    else if named "removeHelpPayWallet" then string_result (handleRemoveHelpPayWallet (t 0) (e_random e 0) tx m input)
    else if named "addAdmin" then string_result (handleAddAdmin (t 0) tx m input)
    else if named "removeAdmin" then string_result (handleRemoveAdmin tx m input)
    else if named "setAccountType" then mret (false, None)
    else if named "setExtraAccount" || named "setFreeGasMinBalance" || named "setRewardAmount" || named "setDisableFreeGas"
    then r ← handleUpdateConfig tx m input; mret (true, Some r)
    else mret (false, None)
  end.

Definition HandleEthCall (e : Env) (data : bytes) (fromAddress : bytes) : HM (option response) :=
  let answer (c : HM response) : HM (option response) := r ← c; mret (Some r) in
  if (length data <? 4)%nat then err ErrShortInput
  else match MethodById (take 4 data) with
  | None => err ErrUnknownMethod
  | Some m =>
    let input := drop 4 data in
    let named (name : string) : bool := bool_decide (m_Name m = name) in
    if named "getAllAccount" then answer (handleGetAllAccount (e_clock e 0) m input)
    else if named "getNotifications" then answer (handleGetNotifications m input)
    else if named "getConfig" then answer (handleGetConfig m)
    else if named "getMyContracts" then answer (handleGetMyContracts m input fromAddress)
    else if named "getAllAuthorizedWallets" then answer (handleGetAllAuthorizedWallets m input fromAddress)
    else if named "getAllHelpPayWallets" then answer (handleGetAllHelpPayWallets m input)
    else if named "getAllAdmins" then answer (handleGetAllAdmins m input fromAddress)
    else if named "getPublickeyBls" then answer (handleGetPublickeyBls (e_publicKey e))
    else mret None
  end.

End Handlers.
