(* ===== verification/AccountHandlerFrame.v ===== *)
(** * What a transaction to the account handler may change

    A small frame logic for stateful computations and the access-control theorems of the
    dispatcher: what a sender that is neither the owner nor an administrator cannot change, and
    what a confirmation demands. *)

From S2P Require Import Prelude Interfaces GoLib LevelDB LdbIter HexCodec FreeGas BlsAccounts Notifications PrivateKeys AccountAbi AccountHandler.
From Stdlib Require Import Strings.Byte.

(** ** Frames *)

Section Frame.
Context {St E : Type}.

(** [m] leaves what [f] shows of the state alone, whatever it returns. *)
Definition keeps {A B} (f : St → B) (m : comp St E A) : Prop := ∀ s, f (m s).2 = f s.

Context {B : Type} (f : St → B).

Lemma keeps_ret {A} (a : A) : keeps f (mret a).
Proof. done. Qed.
Lemma keeps_fail {A} e : keeps f (c_fail (A := A) e).
Proof. done. Qed.
Lemma keeps_panic {A} : keeps f (c_panic (A := A)).
Proof. done. Qed.
Lemma keeps_get : keeps f c_get.
Proof. done. Qed.
Lemma keeps_modify g : (∀ s, f (g s) = f s) → keeps f (c_modify g).
Proof. intros Hg s. apply Hg. Qed.

Lemma keeps_bind {A C} (m : comp St E A) (k : A → comp St E C) : keeps f m → (∀ a, keeps f (k a)) → keeps f (m ≫= k).
Proof.
  intros Hm Hk s. unfold mbind, comp_bind. specialize (Hm s).
  destruct (m s) as [[a|e| |] s']; simpl in *; [by rewrite Hk|done..].
Qed.

(** Behind a step that changes nothing, the rest may use what it returned. *)
Lemma keeps_after {A C} (m : comp St E A) (k : A → comp St E C) s : keeps id m →
  (∀ a, (m s).1 = Ok a → f (k a s).2 = f s) → f ((m ≫= k) s).2 = f s.
Proof.
  intros Hm Hk. specialize (Hm s). unfold mbind, comp_bind.
  destruct (m s) as [[a|e| |] s']; simpl in *; unfold id in Hm; subst; auto.
Qed.

Lemma keeps_still {A} (m : comp St E A) : keeps id m → keeps f m.
Proof. intros Hm s. specialize (Hm s). unfold id in Hm. by rewrite Hm. Qed.

End Frame.

Abbreviation still m := (keeps id m).

Create HintDb frame.
#[export] Hint Resolve keeps_ret keeps_fail keeps_panic keeps_get : frame.

(** Walks through a computation: binds, branches, then the hint database. *)
Ltac frame :=
  repeat first
    [ progress intros
    | solve [eauto with frame nocore]
    | refine (keeps_bind _ _ _ _ _)
    | apply keeps_modify; intros; reflexivity
    | match goal with
      | |- keeps _ (match ?x with _ => _ end) => destruct x
      | |- keeps _ (let _ := _ in _) => cbv zeta
      end ].

(** ** Store operations that only read *)

Section Readers.
Context `{LevelDBIter St} `{EthAddress} `{KeyCipher}.
Context `{Proto BlsAccountData} `{Proto PendingTransaction} `{Proto Notification}.

Lemma read_still k : still (read (St := St) k).
Proof. intros s. unfold read. by destruct (ldb_Get k s). Qed.
Lemma try_Get_still k : still (try_Get (St := St) k).
Proof. intros s. unfold try_Get. by destruct (ldb_Get k s). Qed.
Local Hint Resolve read_still try_Get_still : frame.

Lemma has_entry_still ks a : still (has_entry (St := St) ks a).
Proof. unfold has_entry, genericGetReverseIndex. frame. Qed.

Lemma count_still k : still (genericGetCount (St := St) k).
Proof. unfold genericGetCount. frame. Qed.
Local Hint Resolve count_still : frame.

Lemma scan_still `{Proto T} p ids : still (scan_ids (St := St) (T := T) p ids).
Proof. induction ids as [|i ids IH]; cbn [scan_ids]; frame. Qed.
Local Hint Resolve scan_still : frame.

Lemma get_page_still `{Proto T} ks page size : still (get_page (St := St) (T := T) ks page size).
Proof. unfold get_page, genericScan. frame. Qed.

Lemma GetPending_still a : still (GetPendingTransaction (St := St) a).
Proof. unfold GetPendingTransaction. frame. Qed.

Lemma HasPrivateKey_still a : still (HasPrivateKey (St := St) a).
Proof. unfold HasPrivateKey. frame. Qed.

Lemma lift_sum_still {A} (r : pks_error + A) : still (lift_sum (St := St) r).
Proof. by destruct r. Qed.
Local Hint Resolve lift_sum_still : frame.

Lemma GetPrivateKey_still pks a : still (GetPrivateKey (St := St) pks a).
Proof. unfold GetPrivateKey, derive. frame. Qed.

End Readers.

#[export] Hint Resolve has_entry_still get_page_still GetPending_still HasPrivateKey_still GetPrivateKey_still : frame.

(** ** Handlers *)

Section Access.
Context `{LevelDBIter St} `{EthCommon} `{EthAddress} `{KeyCipher} `{AbiCodec} `{EthTools Tx Key} `{Chain W}.
Context `{Proto ContractFreeGasData} `{Proto AuthorizedWalletData} `{Proto AdminData}.
Context `{Proto BlsAccountData} `{Proto PendingTransaction} `{Proto Notification}.

Abbreviation HM := (HM (St := St) (W := W)).
Implicit Types (h : Handler St W).

Lemma on_still {S E A} get put (c : comp S E A) : (∀ h, put (get h) h = h) → still c → still (on get put c : HM _).
Proof.
  intros Hp Hc h. unfold on. specialize (Hc (get h)). unfold id in *.
  destruct (c (get h)) as [[] s]; simpl in *; by rewrite Hc.
Qed.

Lemma on_keeps {S E A B} (f : Handler St W → B) get put (c : comp S E A) : (∀ s h, f (put s h) = f h) →
  keeps f (on get put c : HM _).
Proof. intros Hp h. unfold on. by destruct (c (get h)) as [[] s]; simpl. Qed.

Lemma chain_keeps {A B} (f : Handler St W → B) (c : W → A * W) : (∀ w h, f (put_world w h) = f h) → keeps f (on_chain c : HM A).
Proof. intros Hp h. unfold on_chain. destruct (c (h_world h)) as [a w]. apply Hp. Qed.

Lemma or_err_keeps {E A B} (f : Handler St W → B) wrap (m : HM (E + A)) : keeps f m → keeps f (or_err wrap m).
Proof. intros Hm. unfold or_err, err. frame. Qed.

End Access.

#[export] Hint Resolve or_err_keeps : frame.
#[export] Hint Extern 2 (keeps _ (on_fg _)) => (apply on_keeps; intros; reflexivity) : frame.
#[export] Hint Extern 2 (keeps _ (on_bls _)) => (apply on_keeps; intros; reflexivity) : frame.
#[export] Hint Extern 2 (keeps _ (on_noti _)) => (apply on_keeps; intros; reflexivity) : frame.
#[export] Hint Extern 2 (keeps _ (on_keys _)) => (apply on_keeps; intros; reflexivity) : frame.
#[export] Hint Extern 2 (keeps _ (on_chain _)) => (apply chain_keeps; intros; reflexivity) : frame.
#[export] Hint Extern 3 (keeps _ (on_fg _)) => (apply keeps_still, on_still; [by intros []|]) : frame.
#[export] Hint Extern 3 (keeps _ (on_bls _)) => (apply keeps_still, on_still; [by intros []|]) : frame.
#[export] Hint Extern 3 (keeps _ (on_keys _)) => (apply keeps_still, on_still; [by intros []|]) : frame.

#[export] Hint Extern 9 (keeps ?f _) => (lazymatch f with id => fail | _ => apply keeps_still end) : frame.

Section Unauthorized.
Context `{LevelDBIter St} `{EthCommon} `{EthAddress} `{KeyCipher} `{AbiCodec} `{EthTools Tx Key} `{Chain W}.
Context `{Proto ContractFreeGasData} `{Proto AuthorizedWalletData} `{Proto AdminData}.
Context `{Proto BlsAccountData} `{Proto PendingTransaction} `{Proto Notification}.

Abbreviation HM := (HM (St := St) (W := W)).
Implicit Types (h : Handler St W).

(** What only the owner and the administrators may change: the free-gas lists and stored
    configuration, the key store, the configuration in force and the help-pay workers. *)
Definition controls h := (h_fg h, h_keys h, h_cfg h, h_workers h, h_pks h).

Lemma Unpack_still m b : still (Unpack m b : HM _).
Proof. unfold Unpack, err. frame. Qed.
Lemma arg_still args i : still (arg args i : HM _).
Proof. unfold arg. frame. Qed.
Local Hint Resolve Unpack_still arg_still : frame.
Lemma arg_address_still args i : still (arg_address args i : HM _).
Proof. unfold arg_address. frame. Qed.
Lemma cfg_still : still (cfg : HM _).
Proof. unfold cfg. frame. Qed.
Local Hint Resolve arg_address_still cfg_still : frame.
Lemma owner_still : still (owner : HM _).
Proof. unfold owner. frame. Qed.
Local Hint Resolve owner_still : frame.
Lemma owner_or_admin_still a : still (owner_or_admin a : HM _).
Proof. unfold owner_or_admin, IsAdmin. frame. Qed.
Lemma admin_or_owner_still a : still (admin_or_owner a : HM _).
Proof. unfold admin_or_owner, IsAdmin. frame. Qed.
Local Hint Resolve owner_or_admin_still admin_or_owner_still : frame.

(** The operations that are open to every sender keep the controls. *)

Lemma SaveNoti_keeps a msg now : keeps controls (SaveNoti a msg now : HM _).
Proof. unfold SaveNoti. frame. Qed.
Lemma broadcastEvent_keeps name args : keeps controls (broadcastEvent name args : HM _).
Proof. unfold broadcastEvent. frame. Qed.
Lemma transfer_key_still a : still (transfer_key a : HM _).
Proof. unfold transfer_key. frame. Qed.
Local Hint Resolve SaveNoti_keeps broadcastEvent_keeps transfer_key_still : frame.
Lemma SendTransfer_keeps a b z : keeps controls (SendTransfer a b z : HM _).
Proof. unfold SendTransfer, executeTransfer, transfer_failed. frame. Qed.
Local Hint Resolve SendTransfer_keeps : frame.
Lemma confirm_pending_keeps t a : keeps controls (confirm_pending t a : HM _).
Proof. unfold confirm_pending, forward_registration, is_interceptor_tx, pay_reward, SendHelpPayTransfer, Address_of_slice, err. frame. Qed.
Local Hint Resolve confirm_pending_keeps : frame.

Lemma setBls_keeps t tx m b raw : keeps controls (handleSetBlsPublicKey t tx m b raw : HM _).
Proof. unfold handleSetBlsPublicKey, err. frame. Qed.
Lemma confirm_keeps t m b : keeps controls (handleConfirmAccountWithoutSign t m b : HM _).
Proof. unfold handleConfirmAccountWithoutSign. frame. Qed.
Lemma confirm_signed_keeps now t m b : keeps controls (handleConfirmAccount now t m b : HM _).
Proof.
  unfold handleConfirmAccount, arg_big, arg_bytes, deref, buildMessageWithTimestamp, FillBytes32, verifyOwnerSignature, err. frame.
Qed.
Lemma transferFrom_keeps t tx m b : keeps controls (handleTransferFrom t tx m b : HM _).
Proof. unfold handleTransferFrom, arg_big, arg_bytes, deref, FillBytes32, err. frame. Qed.

(** ** Guards *)

Definition not_owner h (a : bytes) : Prop := a ≠ HexToAddress (OwnerRpcAddress (h_cfg h)).
Definition not_admin h (a : bytes) : Prop := (IsAdmin a (h_fg h)).1 ≠ Ok true.

(** The call does not return a result and changes nothing. *)
Definition refuses {A} h (m : HM A) : Prop := (m h).2 = h ∧ ∀ a, (m h).1 ≠ Ok a.

Lemma refuses_after {A C} (m : HM A) (k : A → HM C) h : still m → (∀ a, (m h).1 = Ok a → refuses h (k a)) → refuses h (m ≫= k).
Proof.
  intros Hm Hk. specialize (Hm h). unfold refuses, mbind, HM_bind, comp_bind in *. unfold id in Hm.
  destruct (m h) as [[a|e| |] h']; simpl in *; subst; auto.
Qed.

Lemma refuses_err {A} h e : refuses h (err e : HM A).
Proof. by split. Qed.

Lemma refuses_bind {A C} (m : HM A) (k : A → HM C) h : refuses h m → refuses h (m ≫= k).
Proof.
  intros [Hs Ho]. unfold refuses, mbind, HM_bind, comp_bind in *. destruct (m h) as [[a|e| |] h']; simpl in *; subst; try done.
  by destruct (Ho a).
Qed.

Lemma hm_bind_ok {A C} (m : HM A) (k : A → HM C) h a h' : m h = (Ok a, h') → (m ≫= k) h = k a h'.
Proof. apply comp_bind_ok. Qed.

Lemma owner_ok h b : ((owner : HM _) h).1 = Ok b → b = HexToAddress (OwnerRpcAddress (h_cfg h)).
Proof. by intros [= <-]. Qed.

Lemma on_fg_value {A} (c : comp St fg_error A) h r : ((on_fg c : HM _) h).1 = Ok (inr r) → (c (h_fg h)).1 = Ok r.
Proof. unfold on_fg, on. destruct (c (h_fg h)) as [[] s]; simpl; congruence. Qed.

Lemma owner_or_admin_no h a b : not_owner h a → not_admin h a → ((owner_or_admin a : HM _) h).1 = Ok b → b = false.
Proof.
  intros Ho Ha. unfold owner_or_admin. rewrite (hm_bind_ok _ _ h (HexToAddress (OwnerRpcAddress (h_cfg h))) h) by done.
  rewrite decide_False by done. pose proof (on_fg_value (IsAdmin a) h) as Hv.
  unfold mbind, HM_bind, comp_bind. destruct ((on_fg (IsAdmin a) : HM _) h) as [[[e|r]| | |] h']; simpl in *; intros [= <-]; [done|].
  specialize (Hv r eq_refl). destruct r; [by destruct Ha|done].
Qed.

Lemma admin_or_owner_no h a b : not_owner h a → not_admin h a → ((admin_or_owner a : HM _) h).1 = Ok b → b = false.
Proof.
  intros Ho Ha. unfold admin_or_owner, or_err. pose proof (on_fg_value (IsAdmin a) h) as Hv.
  assert (still (on_fg (IsAdmin a) : HM _)) as Hs by (unfold IsAdmin; frame). specialize (Hs h). unfold id in Hs.
  unfold mbind, HM_bind, comp_bind. destruct ((on_fg (IsAdmin a) : HM _) h) as [[[e|r]| | |] h']; simpl in *; subst; try done.
  specialize (Hv r eq_refl). destruct r; [by destruct Ha|]. intros [= <-]. by apply bool_decide_eq_false.
Qed.

(** Passes the reading steps up to the check, and settles the check. *)
Ltac passes := repeat (apply refuses_after; [by eauto with frame nocore|intros ? ?]).
Ltac denied := match goal with
  | E : (owner _).1 = Ok ?b |- _ => apply owner_ok in E as ->; rewrite decide_False by done; apply refuses_err
  | E : (owner_or_admin _ _).1 = Ok ?b |- _ => apply owner_or_admin_no in E as ->; [apply refuses_err|done..]
  | E : (admin_or_owner _ _).1 = Ok ?b |- _ => apply admin_or_owner_no in E as ->; [apply refuses_err|done..]
  end.

Definition owner_methods : list string :=
  ["addAdmin"; "removeAdmin"; "setExtraAccount"; "setFreeGasMinBalance"; "setRewardAmount"; "setDisableFreeGas"].
Definition admin_methods : list string :=
  ["addAuthorizedWallet"; "removeAuthorizedWallet"; "addHelpPayWallet"; "removeHelpPayWallet"].

Section Refused.
Context (h : Handler St W) (tx : IncomingTx) (Ho : not_owner h (in_From tx)).

Lemma addAdmin_refuses now m b : refuses h (handleAddAdmin now tx m b : HM _).
Proof using Ho. unfold handleAddAdmin. passes. denied. Qed.
Lemma removeAdmin_refuses m b : refuses h (handleRemoveAdmin tx m b : HM _).
Proof using Ho. unfold handleRemoveAdmin. passes. denied. Qed.
Lemma updateConfig_refuses m b : refuses h (handleUpdateConfig tx m b : HM _).
Proof using Ho.
  unfold handleUpdateConfig. apply refuses_after; [by eauto with frame nocore|]. intros c [= <-].
  rewrite decide_False by done. apply refuses_err.
Qed.

Context (Ha : not_admin h (in_From tx)).

Lemma addWallet_refuses now m b : refuses h (handleAddAuthorizedWallet now tx m b : HM _).
Proof using Ho Ha. unfold handleAddAuthorizedWallet. passes. denied. Qed.
Lemma removeWallet_refuses m b : refuses h (handleRemoveAuthorizedWallet tx m b : HM _).
Proof using Ho Ha. unfold handleRemoveAuthorizedWallet. passes. denied. Qed.
Lemma addHelpPay_refuses t rnd m b : refuses h (handleAddHelpPayWallet t rnd tx m b : HM _).
Proof using Ho Ha.
  unfold handleAddHelpPayWallet. passes. destruct a as [|v args]; [apply refuses_err|].
  destruct (wallet_argument v) as [|[]]; [apply refuses_err|]. passes. denied.
Qed.
Lemma removeHelpPay_refuses now rnd m b : refuses h (handleRemoveHelpPayWallet now rnd tx m b : HM _).
Proof using Ho Ha.
  unfold handleRemoveHelpPayWallet. passes. destruct a as [|[] args]; try apply refuses_err. passes. denied.
Qed.

End Refused.

Lemma refuses_keeps {A B} (f : Handler St W → B) h (m : HM A) : refuses h m → f (m h).2 = f h.
Proof. by intros [-> _]. Qed.

Lemma keeps_at_bind {A C B} (f : Handler St W → B) (m : HM A) (k : A → HM C) h :
  keeps f m → (∀ a, keeps f (k a)) → f ((m ≫= k) h).2 = f h.
Proof. intros Hm Hk. by apply (keeps_bind f). Qed.

(** Picks the method's branch of the dispatcher. *)
Ltac dispatch E := unfold HandleAccountTransaction; rewrite E; destruct (_ <? 4)%nat; [apply refuses_err|];
  rewrite ?bool_decide_eq_true_2, ?bool_decide_eq_false_2 by done; cbv beta iota zeta delta [orb]; apply refuses_bind.

Lemma owner_methods_refused h e tx raw m : not_owner h (in_From tx) → MethodById (take 4 (in_Input tx)) = Some m →
  m_Name m ∈ owner_methods → refuses h (HandleAccountTransaction e tx raw : HM _).
Proof.
  intros Ho Em Hm. destruct m as [name ins outs]. cbn [m_Name] in Hm. unfold owner_methods in Hm.
  repeat (apply elem_of_cons in Hm as [->|Hm]); [..|by apply not_elem_of_nil in Hm];
    dispatch Em; auto using addAdmin_refuses, removeAdmin_refuses, updateConfig_refuses.
Qed.

Lemma admin_methods_refused h e tx raw m : not_owner h (in_From tx) → not_admin h (in_From tx) →
  MethodById (take 4 (in_Input tx)) = Some m → m_Name m ∈ admin_methods → refuses h (HandleAccountTransaction e tx raw : HM _).
Proof.
  intros Ho Ha Em Hm. destruct m as [name ins outs]. cbn [m_Name] in Hm. unfold admin_methods in Hm.
  repeat (apply elem_of_cons in Hm as [->|Hm]); [..|by apply not_elem_of_nil in Hm];
    dispatch Em; auto using addWallet_refuses, removeWallet_refuses, addHelpPay_refuses, removeHelpPay_refuses.
Qed.

Lemma open_methods_keep h e tx raw m : MethodById (take 4 (in_Input tx)) = Some m →
  m_Name m ∉ owner_methods → m_Name m ∉ admin_methods → controls ((HandleAccountTransaction e tx raw : HM _) h).2 = controls h.
Proof.
  intros Em Hno Hna. unfold HandleAccountTransaction. rewrite Em. destruct (_ <? 4)%nat; [done|]. cbv zeta.
  assert (∀ name, name ∈ owner_methods ++ admin_methods → bool_decide (m_Name m = name) = false) as Hx.
  { intros name Hn. apply bool_decide_eq_false_2. intros <-. apply elem_of_app in Hn as []; done. }
  destruct (bool_decide (m_Name m = "setBlsPublicKey")); [apply keeps_at_bind; [apply setBls_keeps|done]|].
  destruct (bool_decide (m_Name m = "confirmAccountWithoutSign")); [apply keeps_at_bind; [apply confirm_keeps|done]|].
  destruct (bool_decide (m_Name m = "confirmAccount")); [apply keeps_at_bind; [apply confirm_signed_keeps|done]|].
  destruct (bool_decide (m_Name m = "transferFrom")); [apply keeps_at_bind; [apply transferFrom_keeps|done]|].
  assert (Hi : ∀ name, bool_decide (name ∈ owner_methods ++ admin_methods) = true → bool_decide (m_Name m = name) = false)
    by (intros name E; by apply Hx, (bool_decide_eq_true_1 _)).
  rewrite !(Hi "addAuthorizedWallet"), !(Hi "removeAuthorizedWallet"), !(Hi "addHelpPayWallet"), !(Hi "removeHelpPayWallet"),
    !(Hi "addAdmin"), !(Hi "removeAdmin"), !(Hi "setExtraAccount"), !(Hi "setFreeGasMinBalance"), !(Hi "setRewardAmount"),
    !(Hi "setDisableFreeGas") by (vm_compute; reflexivity). by case_match.
Qed.


(** A confirmation that gets as far as returning a hash carried the owner's signature over the
    account and a timestamp of the last five minutes; without one nothing is changed.  The other
    confirmation method asks nothing of the sender: for every sender it does the same. *)
Theorem confirmation_admission h now t m inputData a ts sig :
  abi_Unpack (m_Inputs m) inputData = Some [VAddress a; VBig ts; VBytes sig] → (0 ≤ ts < 2 ^ 256)%Z →
  (handleConfirmAccount now t m inputData : HM _) h =
    (if verifyTimestamp now ts then
       match recoverSignerAddress (a ++ be_bytes 32 ts) sig with
       | inl e => (Fail (Returned e), h)
       | inr signer =>
         if decide (signer = HexToAddress (OwnerRpcAddress (h_cfg h))) then (confirm_pending t a : HM _) h
         else (Fail (Returned ErrSigner), h)
       end
     else (Fail (Returned ErrTimestamp), h)).
Proof.
  intros Eu Hts. unfold handleConfirmAccount, Unpack. rewrite Eu.
  do 5 (rewrite (hm_bind_ok _ _ h _ h) by reflexivity). destruct (verifyTimestamp now ts); [|done].
  unfold buildMessageWithTimestamp, FillBytes32. destruct (Z.ltb_spec (Z.abs ts) (2 ^ 256)); [|lia].
  rewrite (hm_bind_ok _ _ h (a ++ be_bytes 32 (Z.abs ts)) h) by reflexivity. rewrite Z.abs_eq by lia.
  unfold verifyOwnerSignature. destruct (recoverSignerAddress _ _) as [e|signer]; [done|].
  unfold mbind, HM_bind, comp_bind. change (cfg h) with (Ok (E := stop) (h_cfg h), h). cbv beta iota. by case_decide.
Qed.

Theorem confirm_without_sign_any_sender h e tx tx' raw m :
  MethodById (take 4 (in_Input tx)) = Some m → m_Name m = "confirmAccountWithoutSign" → in_Input tx' = in_Input tx →
  (HandleAccountTransaction e tx raw : HM _) h = (HandleAccountTransaction e tx' raw : HM _) h.
Proof.
  intros Em En Ei. unfold HandleAccountTransaction. rewrite Ei, Em, En. destruct (_ <? 4)%nat; [done|].
  by rewrite !bool_decide_eq_false_2, !bool_decide_eq_true_2 by done.
Qed.

(** The timestamp check: five minutes either way.  The difference wraps at 64 bits and [Abs] of the
    least integer is itself, so one more value passes, the one 2^63 seconds away. *)
Theorem timestamp_window now ts : (0 ≤ now < 2 ^ 62)%Z →
  verifyTimestamp now ts = true ↔ (Z.abs (now - i64 ts) ≤ 300 ∨ i64 ts = now - 2 ^ 63)%Z.
Proof.
  intros Hn. unfold verifyTimestamp, Abs. rewrite negb_true_iff, Z.ltb_ge.
  assert (-2 ^ 63 ≤ i64 ts < 2 ^ 63)%Z as Ht by (unfold i64; pose proof (Z.mod_pos_bound (ts + 2 ^ 63) (2 ^ 64)); lia).
  generalize dependent (i64 ts). intros y Hy. unfold i64.
  assert (((now - y + 2 ^ 63) mod 2 ^ 64 - 2 ^ 63) = if (now - y <? 2 ^ 63) then now - y else now - y - 2 ^ 64)%Z as ->.
  { destruct (Z.ltb_spec (now - y) (2 ^ 63)).
    - rewrite Z.mod_small; lia.
    - rewrite <- (Z.mod_unique (now - y + 2 ^ 63) (2 ^ 64) 1 (now - y - 2 ^ 63)); lia. }
  destruct (Z.ltb_spec (now - y) (2 ^ 63)).
  - destruct (Z.ltb_spec (now - y) 0); [|lia]. rewrite Z.mod_small; lia.
  - destruct (Z.ltb_spec (now - y - 2 ^ 64) 0); [|lia]. 
    destruct (decide (now - y = 2 ^ 63)%Z) as [E|]; [|rewrite Z.mod_small; lia].
    replace (- (now - y - 2 ^ 64) + 2 ^ 63)%Z with (2 ^ 64)%Z by lia. rewrite Z.mod_same; lia.
Qed.

End Unauthorized.

#[export] Hint Resolve Unpack_still arg_still arg_address_still cfg_still owner_still transfer_key_still : frame.
