(* ===== verification/AccountToy.v ===== *)
(** * A concrete account handler

    Instances of the interfaces the handler uses, small enough to evaluate: they show that the laws
    can hold together and carry the concrete runs of the theorems. *)

From S2P Require Import Prelude Interfaces GoLib LevelDB LdbIter HexCodec FreeGas FreeGasTheorems BlsAccounts BlsAccountsTheorems Notifications PrivateKeys AccountAbi AccountHandler.
From Stdlib Require Import Strings.Byte.
Export ToyCrypto ToyProto ToyAddress ToyFreeGas ToyBls ToyNotifications ToyCipher.

(** ** ABI: values in sequence, each with its constructor's number *)

#[export] Instance abi_val_eq_dec : EqDecision abi_val.
Proof. solve_decision. Defined.

Definition val_code (v : abi_val) : Z * Z * list bytes :=
  match v with
  | VAddress a => (0, 0, [a])
  | VBig z => (1, z, [])
  | VUint8 z => (2, z, [])
  | VBytes b => (3, 0, [b])
  | VString s => (4, 0, [str_bytes s])
  | VBool b => (5, if b then 1 else 0, [])
  | VBytes32 b => (6, 0, [b])
  | VBytes32Array l => (7, 0, l)
  end%Z.

Definition code_val (c : Z * Z * list bytes) : abi_val :=
  match c with
  | (0, _, l) => VAddress (default [] (head l))
  | (1, z, _) => VBig z
  | (2, z, _) => VUint8 z
  | (3, _, l) => VBytes (default [] (head l))
  | (4, _, l) => VString (bytes_str (default [] (head l)))
  | (5, z, _) => VBool (z =? 1)
  | (6, _, l) => VBytes32 (default [] (head l))
  | (_, _, l) => VBytes32Array l
  end%Z.

#[export] Instance val_ser : Ser abi_val.
Proof.
  refine (ser_iso val_code code_val _). intros [a|z|z|b|s|[]|b|l]; try done. exact (f_equal VString (str_bytes_inv s)).
Defined.

#[export] Instance has_type_dec t v : Decision (has_type t v).
Proof. destruct t, v; cbn [has_type]; apply _. Defined.

Definition method_number (name : string) : Z :=
  match list_find (λ m, m_Name m = name) AccountABI with Some (i, _) => Z.of_nat i + 1 | None => 0 end.

#[export] Instance toy_abi : AbiCodec := {|
  selector n _ := [x00; x00; x00; z2b (method_number n)];
  abi_Unpack ts b :=
    match deser b with
    | Some (vs, []) => if decide (Forall2 has_type ts vs) then Some vs else None
    | _ => None
    end;
  abi_Pack ts vs := if decide (Forall2 has_type ts vs) then Some (ser vs) else None;
  event_ID n _ := digest (str_bytes n);
|}.

#[export] Instance toy_abi_laws : AbiCodecLaws.
Proof.
  split.
  - intros ts b vs. cbn [abi_Unpack toy_abi]. destruct (deser b) as [[vs' [|]]|]; [|done..].
    case_decide; [by intros [= <-]|done].
  - intros ts vs b. cbn [abi_Pack abi_Unpack toy_abi]. case_decide as Hd; [intros [= <-]|done].
    pose proof (deser_ser vs []) as E. rewrite app_nil_r in E. change (ser vs) with (enc_list vs) in E. rewrite E. by rewrite decide_True.
  - intros ts vs Hv. cbn [abi_Pack toy_abi]. rewrite decide_True by done. by eexists.
  - done.
  - intros m m' Hm Hm' E. cbn [selector toy_abi] in E. simplify_eq.
    assert (Forall (λ m, Forall (λ m', z2b (method_number (m_Name m)) = z2b (method_number (m_Name m')) → m_Name m = m_Name m') AccountABI)
      AccountABI) as Hall by (apply (bool_decide_unpack _); vm_compute; exact I).
    rewrite Forall_forall in Hall. specialize (Hall m Hm). rewrite Forall_forall in Hall.
    by apply account_abi_names, Hall.
Qed.

(** ** Keys, signatures and transactions: a key is its address, a signature names its signer *)

Record ToyTransfer := { tt_from : bytes; tt_to : bytes }.

#[export] Instance toy_tools : EthTools ToyTransfer bytes := {|
  HexToAddress s := BytesToAddress (default [] (DecodeHexString s));
  HexToECDSA s := k ← hex_DecodeString s; if decide (length k = 20) then Some k else None;
  KeyAddress k := k;
  SigToAddress _ sig := Some (take 20 sig);
  tx_UnmarshalBinary b := if decide (length b = 40) then Some {| tt_from := take 20 b; tt_to := drop 20 b |} else None;
  tx_MarshalBinary t := Some (tt_from t ++ tt_to t);
  tx_Sender _ t := Some (tt_from t);
  tx_Hash t := digest (tt_from t ++ tt_to t);
  tx_To t := Some (tt_to t);
  SignTransfer _ k _ to _ _ _ := Some {| tt_from := k; tt_to := to |};
|}.

(** ** The chain: balances, and the raw transactions it was sent *)

Record ToyChain := { tc_balance : bytes → Z; tc_sent : list bytes }.

#[export] Instance toy_chain : Chain ToyChain := {|
  pool_Get w := (true, w);
  GetAccountStateTCP a w := (Some (tc_balance w a, 0%Z), w);
  SendRawTransaction b w := (true, {| tc_balance := tc_balance w; tc_sent := tc_sent w ++ [b] |});
  WaitForReceiptTCP _ w := (true, w);
  SendRawEthTransaction s w := (Some "0xabc", {| tc_balance := tc_balance w; tc_sent := tc_sent w ++ [str_bytes s] |});
  pick_worker ws w := (head (elements ws), w);
|}.

#[export] Instance toy_chain_laws : ChainLaws ToyChain.
Proof.
  split.
  - intros ws w a w' [= E ->]. apply elem_of_elements. destruct (elements ws); [done|]. injection E as ->. by left.
  - intros ws w Hws. cbn. destruct (elements ws) eqn:E; [|by eexists]. by apply elements_empty_inv, leibniz_equiv in E.
Qed.

(** ** A handler *)

Definition owner_addr : bytes := who 1.
Definition user_addr : bytes := who 2.
Definition gate_addr : bytes := who 9.

Definition toy_config : Config :=
  {| OwnerRpcAddress := "0x" +:+ hex_EncodeToString owner_addr;
     PkOwnerRpc := hex_EncodeToString owner_addr;
     ContractsInterceptor := ["0x" +:+ hex_EncodeToString gate_addr];
     ChainId := 991;
     RewardAmount := Some 5%Z; ExtraAmount := None; FreeGasMinBalance := None; DisableFreeGas := false |}.

Definition toy_pks : PrivateKeyStore := {| kdfSalt := [x01]; masterPassword := "pw"; appPepper := "pp" |}.

Definition toy_handler : Handler (gmap string bytes) ToyChain :=
  {| h_bls := ∅; h_fg := ∅; h_noti := ∅;
     h_keys := snd (NewPrivateKeyStore (Some [x01]) "pw" "pp" ∅);
     h_pks := Some toy_pks; h_pool := true; h_cfg := toy_config;
     h_workers := ∅; h_queues := ∅;
     h_world := {| tc_balance := λ _, 100%Z; tc_sent := [] |}; h_events := [] |}.

(** The call data of a method. *)
Definition call_data (name : string) (vs : list abi_val) : bytes := selector name [] ++ ser vs.

Definition toy_tx (from : bytes) (name : string) (vs : list abi_val) : IncomingTx :=
  {| in_Input := call_data name vs; in_From := from; in_Hash := zeros 32; in_Nonce := 0 |}.

Definition toy_env : Env := {| e_clock := λ n, (1000 + Z.of_nat n)%Z; e_random := λ _, Some (zeros 12); e_publicKey := "ab" |}.
