(* ===== verification/AccountFlow.v ===== *)
(** * Registration, confirmation and payment

    The account handler over its stores: what a registration and a confirmation leave in the
    account lists, the pending transactions and the notifications, and when a payment is served. *)

From S2P Require Import Prelude Interfaces GoLib LevelDB LdbIter HexCodec FreeGas FreeGasRefine BlsAccounts BlsAccountsRefine BlsAccountsTheorems Notifications PrivateKeys AccountAbi AccountHandler AccountHandlerFrame.
From Stdlib Require Import Strings.Byte.

Section Flow.
Context `{LevelDBLaws St} `{!LevelDBIter St} `{!LevelDBIterLaws St} `{!LevelDBReliable St}.
Context `{EthCommon} `{EthAddressLaws} `{KeyCipher} `{AbiCodec} `{EthTools Tx Key} `{ChainLaws W}.
Context `{Proto ContractFreeGasData} `{Proto AuthorizedWalletData} `{Proto AdminData}.
Context `{ProtoLaws BlsAccountData} `{ProtoLaws PendingTransaction} `{ProtoLaws Notification}.

Abbreviation HM := (HM (St := St) (W := W)).
Implicit Types (h : Handler St W) (A : Accounts) (P : gmap bytes PendingTransaction) (N : bytes → list Notification).

(** The handler's account store and notifications hold these lists. *)
Record Represents h A P N : Prop := {
  rep_bls : Bls (contents (h_bls h)) A P;
  rep_noti : Notifs (contents (h_noti h)) N;
}.

Lemma on_ok {S E B} get put (c : comp S E B) h b s' : c (get h) = (Ok b, s') → (on get put c : HM _) h = (Ok (inr b), put s' h).
Proof. intros E1. unfold on. by rewrite E1. Qed.

Lemma on_failed {S E B} get put (c : comp S E B) h e s' : c (get h) = (Fail e, s') → (on get put c : HM _) h = (Ok (inl e), put s' h).
Proof. intros E1. unfold on. by rewrite E1. Qed.

Lemma or_err_ok {E B} wrap (m : HM (E + B)) h b h' : m h = (Ok (inr b), h') → or_err wrap m h = (Ok b, h').
Proof. intros E1. unfold or_err. by rewrite (hm_bind_ok _ _ _ _ _ E1). Qed.

Lemma or_err_failed {E B C} wrap (m : HM (E + B)) (k : B → HM C) h e h' :
  m h = (Ok (inl e), h') → (or_err wrap m ≫= k) h = (Fail (Returned (wrap e)), h').
Proof. intros E1. unfold or_err, mbind, HM_bind, comp_bind. by rewrite E1. Qed.

(** A broadcast only appends to the events. *)
Lemma broadcast_ok name args h : ContractsInterceptor (h_cfg h) ≠ [] →
  ∃ es, (broadcastEvent name args : HM _) h = (Ok tt, put_events es h).
Proof.
  intros Hc. unfold broadcastEvent. rewrite (hm_bind_ok _ _ h (h_cfg h) h) by done.
  destruct (ContractsInterceptor (h_cfg h)) as [|contract cs]; [done|].
  assert (∃ es, (Ok tt, h) = (Ok (E := stop) tt, put_events es h)) by (exists (h_events h); by destruct h).
  destruct (find_event name) as [inputs|]; [|done]. destruct (event_topics inputs args); [|done].
  destruct (abi_Pack _ args) as [d|]; [|done]. by eexists.
Qed.

Lemma save_noti_ok a msg now h N : Notifs (contents (h_noti h)) N → length a = 20 →
  (Z.of_nat (length (N a)) + 1 ≤ 9999999999)%Z →
  ∃ s', (SaveNoti a msg now : HM _) h = (Ok (inr tt), put_noti s' h) ∧
    Notifs (contents s') (push a {| n_Id := FormatUint (Z.of_nat (length (N a)) + 1); n_AccountAddress := a; n_Message := msg; n_CreatedAt := now |} N).
Proof.
  intros HN Ha Hb. destruct (save_refines (h_noti h) N (Build_Notification EmptyString a msg now) HN) as (s' & E & HN');
    cbn [n_AccountAddress set_Id] in *; rewrite BytesToAddress_20 in * by done; [done|].
  exists s'. split; [|done]. unfold SaveNoti, on_noti. by apply on_ok.
Qed.

(** ** Registration *)

(** The account a registration creates, its pending transaction and the owner's notification. *)
Definition registered (t : nat → Z) (tx : IncomingTx) (pk : bytes) : BlsAccountData :=
  {| Address := in_From tx; BlsPublicKey := pk; RegisteredAt := t 1; RegisterTxHash := in_Hash tx;
     IsConfirmed := false; ConfirmedAt := 0; ConfirmTxHash := [] |}.
Definition pending_of (t : nat → Z) (tx : IncomingTx) (pk : bytes) (raw : string) : PendingTransaction :=
  {| pt_Address := in_From tx; pt_BlsPublicKey := pk; pt_RawTransactionHex := raw; pt_CreatedAt := t 2;
     pt_Nonce := in_Nonce tx; pt_OriginalGasPrice := 0 |}.
Definition notice (N : bytes → list Notification) (a : bytes) (msg : string) (now : Z) : Notification :=
  {| n_Id := FormatUint (Z.of_nat (length (N a)) + 1); n_AccountAddress := a; n_Message := msg; n_CreatedAt := now |}.

(** C14: A registration appends the account to the unconfirmed list of its key, records the raw
    transaction as pending and notifies the owner, changing nothing else of the stores; a second one
    for the same account and key is refused and changes nothing. *)
Theorem registration_recorded h t tx m inputData raw pk A P N :
  abi_Unpack (m_Inputs m) inputData = Some [VBytes pk] → length (in_From tx) = 20 →
  Represents h A P N → ContractsInterceptor (h_cfg h) ≠ [] →
  let own := HexToAddress (OwnerRpcAddress (h_cfg h)) in
  length own = 20 → (Z.of_nat (length (A pk false)) + 1 < 2 ^ 63)%Z → (Z.of_nat (length (N own)) + 1 ≤ 9999999999)%Z →
  ((∀ g, in_From tx ∉ addrs A pk g) → ∃ h', (handleSetBlsPublicKey t tx m inputData raw : HM _) h = (Ok tt, h') ∧
     Represents h' (upd pk false (A pk false ++ [registered t tx pk]) A) (<[in_From tx := pending_of t tx pk raw]> P)
       (push own (notice N own ("BLS registered for account " +:+ AddressHex (in_From tx)) (t 0)) N) ∧
     controls h' = controls h ∧ h_world h' = h_world h) ∧
  (∀ g, in_From tx ∈ addrs A pk g →
     (handleSetBlsPublicKey t tx m inputData raw : HM _) h = (Fail (Returned (ErrSaveAccount ErrAddressExists)), h)).
Proof.
  intros Eu Ha [HB HN] Hc own Ho Hb Hid. unfold handleSetBlsPublicKey, Unpack. rewrite Eu.
  do 3 (rewrite (hm_bind_ok _ _ h _ h) by reflexivity; cbv beta iota zeta). fold own.
  assert (Hx : acct_addr (registered t tx pk) = in_From tx) by (by apply BytesToAddress_20).
  split.
  - intros Hn. destruct (add_refines (h_bls h) A P (registered t tx pk) false (ldb_reliable _) HB) as (s1 & E1 & HB1); [done|by rewrite Hx|].
    rewrite (hm_bind_ok _ _ h tt (put_bls s1 h)) by (by eapply or_err_ok, on_ok).
    destruct (bls_pending_map s1 _ P (pending_of t tx pk raw) (zeros 20) (ldb_reliable _) HB1 eq_refl) as ((s2 & E2 & HB2) & _).
    cbn [pt_Address pending_of] in HB2. rewrite BytesToAddress_20 in HB2 by done.
    rewrite (hm_bind_ok _ _ (put_bls s1 h) tt (put_bls s2 (put_bls s1 h))) by (by eapply or_err_ok, on_ok).
    set (msg := "BLS registered for account " +:+ _).
    destruct (save_noti_ok own msg (t 0) (put_bls s2 (put_bls s1 h)) N HN Ho Hid) as (s3 & E3 & HN3).
    rewrite (hm_bind_ok _ _ _ tt _ (or_err_ok _ _ _ _ _ E3)).
    destruct (broadcast_ok "RegisterBls" [VAddress own; VBig (t 0); VBytes pk; VString msg]
      (put_noti s3 (put_bls s2 (put_bls s1 h))) Hc) as (es & ->). eexists. split; [done|]. split; [by split|done].
  - intros g Hg. rewrite <- Hx in Hg.
    etrans; [eapply or_err_failed, on_failed, (add_rejects (h_bls h) A P (registered t tx pk) false g (ldb_reliable _) HB Hg)|].
    by destruct h.
Qed.

(** ** Payments *)

(** The node's connection pool and the key store are there. *)
Definition ready h : Prop := h_pool h = true ∧ is_Some (h_pks h).

Definition returns {B} h (m : HM B) : Prop := ∃ b h', m h = (Ok b, h').

Lemma returns_bind {B C} (m : HM B) (k : B → HM C) h : (∃ b h', m h = (Ok b, h') ∧ returns h' (k b)) → returns h (m ≫= k).
Proof. intros (b & h' & E & c & h2 & E2). exists c, h2. by rewrite (hm_bind_ok _ _ _ _ _ E). Qed.

Lemma returns_chain {B C} (c : W → B * W) (k : B → HM C) h : (∀ b w, c (h_world h) = (b, w) → returns (put_world w h) (k b)) →
  returns h (on_chain c ≫= k).
Proof.
  intros Hk. apply returns_bind. destruct (c (h_world h)) as [b w] eqn:E. exists b, (put_world w h).
  split; [unfold on_chain; by rewrite E|by apply Hk].
Qed.

Lemma has_key_returns a h : ∃ r, (on_keys (HasPrivateKey a) : HM _) h = (Ok r, h).
Proof.
  unfold on_keys, on, HasPrivateKey, mbind, KM_bind, comp_bind. cbn [c_get].
  unfold c_get. destruct (ldb_Get _ _); eexists; destruct h; done.
Qed.

Lemma get_key_returns pks a h : ∃ r, (on_keys (GetPrivateKey pks a) : HM _) h = (Ok r, h).
Proof.
  unfold on_keys, on, GetPrivateKey, derive, lift_sum, mbind, KM_bind, comp_bind, c_get.
  destruct (ldb_Get _ _) as [v| |]; [|eexists; destruct h; done..].
  destruct (deriveKeyInternal _ _ _); [eexists; destruct h; done|].
  destruct (decryptInternal _ _); eexists; destruct h; done.
Qed.

Lemma transfer_key_returns a h : is_Some (h_pks h) → ∃ k, (transfer_key a : HM _) h = (Ok k, h).
Proof.
  intros [pks Hp]. unfold transfer_key. rewrite (hm_bind_ok _ _ h (h_cfg h) h) by done. cbv zeta.
  case_decide; [by eexists|]. rewrite (hm_bind_ok _ _ h h h) by done. rewrite Hp.
  destruct (has_key_returns a h) as (r & E). rewrite (hm_bind_ok _ _ _ _ _ E).
  destruct (yes r); [|case_decide; by eexists].
  destruct (get_key_returns pks a h) as (r' & E'). rewrite (hm_bind_ok _ _ _ _ _ E'). by eexists.
Qed.

Lemma executeTransfer_returns from to amount h : ready h → returns h (executeTransfer from to amount).
Proof.
  intros [Hpool Hpks]. unfold executeTransfer, transfer_failed. apply returns_bind. exists h, h. split; [done|]. rewrite Hpool.
  apply returns_chain. intros [] w _; [|by repeat eexists]. apply returns_bind.
  destruct (transfer_key_returns from (put_world w h) Hpks) as (k & E). exists k, (put_world w h). split; [done|].
  destruct k as [k|]; [|by repeat eexists]. apply returns_chain. intros [[bal nonce]|] w' _; [|by repeat eexists].
  destruct (bal <? amount)%Z; [by repeat eexists|]. apply returns_bind. do 2 eexists. split; [reflexivity|].
  destruct (SignTransfer _ _ _ _ _ _ _) as [stx|]; [|by repeat eexists]. destruct (tx_MarshalBinary stx); [|by repeat eexists].
  apply returns_chain. intros [] w2 _; [|by repeat eexists]. apply returns_chain. intros b w3 _. by repeat eexists.
Qed.

(** The key depends on the configuration and the key store only. *)
Lemma transfer_key_world a h w : ((transfer_key a : HM _) (put_world w h)).1 = ((transfer_key a : HM _) h).1.
Proof.
  unfold transfer_key. rewrite !(hm_bind_ok _ _ _ (h_cfg h) _) by done. cbv zeta. case_decide; [done|].
  rewrite (hm_bind_ok _ _ h h h), (hm_bind_ok _ _ (put_world w h) (put_world w h) (put_world w h)) by done.
  change (h_pks (put_world w h)) with (h_pks h). destruct (h_pks h) as [pks|]; [|done].
  unfold mbind, HM_bind, comp_bind, on_keys, on. change (h_keys (put_world w h)) with (h_keys h).
  destruct (HasPrivateKey a (h_keys h)) as [[b|e| |] s]; try done; [|by case_decide].
  cbn [yes]. destruct b; [|by case_decide]. cbn [h_keys put_keys]. by destruct (GetPrivateKey pks a s) as [[] ?].
Qed.

Lemma bind_Ok {B C} (m : HM B) (k : B → HM C) h c h' : (m ≫= k) h = (Ok c, h') →
  ∃ b h1, m h = (Ok b, h1) ∧ k b h1 = (Ok c, h').
Proof. unfold mbind, HM_bind, comp_bind. destruct (m h) as [[b|e| |] h1]; intros E; try done. eauto. Qed.

Lemma chain_Ok {B} (c : W → B * W) h b h' : (on_chain c : HM _) h = (Ok b, h') → ∃ w, c (h_world h) = (b, w) ∧ h' = put_world w h.
Proof. unfold on_chain. destruct (c (h_world h)) as [b' w]. intros [= <- <-]. eauto. Qed.

(** C13: A transfer that reports no error was signed with the key on file for its wallet, in the name of
    that key's own address, at the nonce and against a sufficient balance the node reported for it;
    with the pool and the key store in place every transfer comes back with a result. *)
Theorem transfer_sound from to amount h : ready h → ∃ r h', (executeTransfer from to amount : HM _) h = (Ok r, h') ∧
  (r_Err r = None → ∃ k w balance nonce tx,
     ((transfer_key from : HM _) h).1 = Ok (Some k) ∧ r_From r = KeyAddress k ∧
     fst (GetAccountStateTCP (KeyAddress k) w) = Some (balance, nonce) ∧ (amount ≤ balance)%Z ∧
     SignTransfer (ChainId (h_cfg h)) k nonce to amount 21000 100000 = Some tx ∧ r_TxHash r = HashHex (tx_Hash tx)).
Proof.
  intros Hr. destruct (executeTransfer_returns from to amount h Hr) as (r & h' & E). exists r, h'. split; [done|]. intros He.
  destruct Hr as [Hpool _]. unfold executeTransfer, transfer_failed in E.
  apply bind_Ok in E as (? & ? & [= <- <-] & E). rewrite Hpool in E.
  apply bind_Ok in E as ([] & ? & (w0 & _ & ->)%chain_Ok & E); [|by injection E as <-].
  apply bind_Ok in E as (k & h2 & Ek & E). pose proof (transfer_key_world from h w0) as Hk. rewrite Ek in Hk.
  assert (h2 = put_world w0 h) as -> by (pose proof (transfer_key_still from (put_world w0 h)) as Hs; unfold id in Hs; by rewrite Ek in Hs).
  destruct k as [k|]; [|by injection E as <-].
  apply bind_Ok in E as (st & ? & (w1 & Es & ->)%chain_Ok & E). destruct st as [[bal nonce]|]; [|by injection E as <-].
  destruct (Z.ltb_spec bal amount); [by injection E as <-|].
  apply bind_Ok in E as (c & ? & [= <- <-] & E). cbn [h_cfg put_world] in E.
  destruct (SignTransfer _ _ _ _ _ _ _) as [stx|] eqn:Esig; [|by injection E as <-].
  destruct (tx_MarshalBinary stx); [|by injection E as <-].
  apply bind_Ok in E as ([] & ? & (w2 & _ & ->)%chain_Ok & E); [|by injection E as <-].
  apply bind_Ok in E as (mined & ? & (w3 & _ & ->)%chain_Ok & E). injection E as <- _.
  exists k, (h_world (put_world w0 h)), bal, nonce, stx. by rewrite Es.
Qed.

Lemma help_pay_returns to amount h : ready h → h_workers h ≠ ∅ → returns h (SendHelpPayTransfer to amount).
Proof.
  intros Hr Hne. unfold SendHelpPayTransfer. apply returns_bind. exists h, h. split; [done|].
  apply returns_chain. intros [a|] w Ew.
  - apply returns_bind. do 2 eexists. split; [done|]. by apply executeTransfer_returns.
  - pose proof (pick_worker_some (h_workers h) (h_world h) Hne) as [b Hb]. by rewrite Ew in Hb.
Qed.


(** ** Confirmation *)

(** What the payment and the forwarding leave alone. *)
Definition records h := (h_bls h, h_noti h, h_cfg h).

Lemma SendTransfer_records a b z : keeps records (SendTransfer a b z : HM _).
Proof. unfold SendTransfer, executeTransfer, transfer_failed. frame. Qed.
Local Hint Resolve SendTransfer_records : frame.

Lemma pay_reward_records pt hash : keeps records (pay_reward pt hash : HM _).
Proof. unfold pay_reward, SendHelpPayTransfer, Address_of_slice, cfg. frame. Qed.

Lemma forward_records tx raw : keeps records (forward_registration tx raw : HM _).
Proof. unfold forward_registration, is_interceptor_tx, cfg, err. frame. Qed.

(** A positive reward needs somebody to pay it. *)
Definition payable h : Prop := ready h ∧ (∀ r, RewardAmount (h_cfg h) = Some r → (0 < r)%Z → h_workers h ≠ ∅).

Lemma pay_reward_returns pt hash h : payable h → 20 ≤ length (pt_Address pt) → returns h (pay_reward pt hash).
Proof.
  intros [Hr Hw] Hl. unfold pay_reward. apply returns_bind. exists (h_cfg h), h. split; [done|].
  destruct (RewardAmount (h_cfg h)) as [r|] eqn:E; [|by repeat eexists].
  destruct (Z.ltb_spec 0 r); [|by repeat eexists]. apply returns_bind. unfold Address_of_slice.
  destruct (Nat.leb_spec 20 (length (pt_Address pt))); [|lia]. do 2 eexists. split; [done|]. apply returns_bind.
  destruct (help_pay_returns (take 20 (pt_Address pt)) r h Hr (Hw r eq_refl ltac:(done))) as (res & h' & Es).
  exists res, h'. split; [done|]. destruct (r_Err res); by repeat eexists.
Qed.

(** The registration transaction is forwarded, or the chain refuses it. *)
Lemma forward_cases tx raw h : ContractsInterceptor (h_cfg h) ≠ [] →
  (∃ hash w, (forward_registration tx raw : HM _) h = (Ok hash, put_world w h)) ∨
  (∃ w, (forward_registration tx raw : HM _) h = (Fail (Returned ErrSendTx), put_world w h)).
Proof.
  intros Hc. assert (h = put_world (h_world h) h) as Eh by (by destruct h).
  unfold forward_registration, is_interceptor_tx. cbv zeta. destruct (tx_To tx) as [to|].
  - destruct (ContractsInterceptor (h_cfg h)) as [|c cs] eqn:E; [done|].
    rewrite (hm_bind_ok _ _ h (bool_decide (to = HexToAddress c)) h)
      by (rewrite (hm_bind_ok _ _ h (h_cfg h) h) by done; by rewrite E).
    destruct (bool_decide _); [left; do 2 eexists; by rewrite <- Eh|].
    unfold mbind, HM_bind, comp_bind, on_chain. destruct (SendRawEthTransaction raw (h_world h)) as [[r|] w]; eauto.
  - left. do 2 eexists. by rewrite <- Eh.
Qed.

Definition confirmed_message (a : bytes) : string :=
  "Your account " +:+ AddressHex a +:+ " has been successfully confirmed!".

(** The end of a confirmation, once the account store has answered. *)
Lemma confirm_end h t a hash A P N (mark : comp St bls_error unit) r s1 : mark (h_bls h) = (r, s1) → r ≠ Panic → r ≠ OutOfFuel →
  Bls (contents s1) A P → Notifs (contents (h_noti h)) N → ContractsInterceptor (h_cfg h) ≠ [] → length a = 20 →
  (Z.of_nat (length (N a)) + 1 ≤ 9999999999)%Z →
  ∃ h', (_ ← on_bls mark; _ ← on_bls (DeletePendingTransaction a);
         _ ← or_err ErrSaveNotification (SaveNoti a (confirmed_message a) (t 0));
         _ ← broadcastEvent "AccountConfirmed" [VAddress a; VBig (t 0); VString (confirmed_message a)];
         mret hash : HM string) h = (Ok hash, h') ∧
    Represents h' A (base.delete a P) (push a (notice N a (confirmed_message a) (t 0)) N).
Proof.
  intros Em Hp Hf HB HN Hc Ha Hid.
  assert (∃ v, (on_bls mark : HM _) h = (Ok v, put_bls s1 h)) as (v & Ev)
    by (unfold on_bls, on; rewrite Em; destruct r; (done || by eexists)).
  rewrite (hm_bind_ok _ _ _ _ _ Ev).
  destruct (bls_pending_map s1 A P (pending_of t (Build_IncomingTx [] [] [] 0) [] EmptyString) a (ldb_reliable _) HB Ha) as (_ & (s2 & E2 & HB2) & _).
  rewrite (hm_bind_ok _ _ (put_bls s1 h) (inr tt) (put_bls s2 (put_bls s1 h))) by (by apply on_ok).
  destruct (save_noti_ok a (confirmed_message a) (t 0) (put_bls s2 (put_bls s1 h)) N HN Ha Hid) as (s3 & E3 & HN3).
  rewrite (hm_bind_ok _ _ _ tt _ (or_err_ok _ _ _ _ _ E3)).
  destruct (broadcast_ok "AccountConfirmed" [VAddress a; VBig (t 0); VString (confirmed_message a)]
    (put_noti s3 (put_bls s2 (put_bls s1 h))) Hc) as (es & Eb).
  rewrite (hm_bind_ok _ _ _ _ _ Eb). eexists. split; [done|]. by split.
Qed.

Section Confirm.
Context (h : Handler St W) (t : nat → Z) (a : bytes) (A : Accounts) (P : gmap bytes PendingTransaction)
  (N : bytes → list Notification) (pt : PendingTransaction) (b : bytes) (ethTx : Tx).
Context (HR : Represents h A P N) (Ha : length a = 20) (Hpt : P !! a = Some pt) (Hl : 20 ≤ length (pt_Address pt))
  (Hraw : DecodeHexPooled (pt_RawTransactionHex pt) = Some b) (Htx : tx_UnmarshalBinary b = Some ethTx)
  (Hsender : tx_Sender (ChainId (h_cfg h)) ethTx = Some a) (Hpay : payable h) (Hc : ContractsInterceptor (h_cfg h) ≠ [])
  (Hid : (Z.of_nat (length (N a)) + 1 ≤ 9999999999)%Z).

(** Everything before the account store is asked to mark the account. *)
Lemma confirm_start :
  (∃ h' hash, records h' = records h ∧ (confirm_pending t a : HM _) h =
    (_ ← on_bls (MarkAccountConfirmed (t 1) a (tx_Hash ethTx) (pt_BlsPublicKey pt)); _ ← on_bls (DeletePendingTransaction a);
     _ ← or_err ErrSaveNotification (SaveNoti a (confirmed_message a) (t 0));
     _ ← broadcastEvent "AccountConfirmed" [VAddress a; VBig (t 0); VString (confirmed_message a)];
     mret hash : HM string) h') ∨
  (∃ h', records h' = records h ∧ (confirm_pending t a : HM _) h = (Fail (Returned ErrSendTx), h')).
Proof using All.
  unfold confirm_pending. destruct (bls_pending_map (h_bls h) A P pt a (ldb_reliable _) (rep_bls _ _ _ _ HR) Ha) as (_ & _ & Ep).
  rewrite Hpt in Ep. rewrite (hm_bind_ok _ _ h pt h) by (eapply or_err_ok; etrans; [by apply on_ok|by destruct h]).
  rewrite Hraw, Htx. rewrite (hm_bind_ok _ _ h (h_cfg h) h) by done. rewrite Hsender, decide_True by done.
  destruct (forward_cases ethTx (pt_RawTransactionHex pt) h Hc) as [(hash & w & Ef)|(w & Ef)].
  - left. rewrite (hm_bind_ok _ _ _ _ _ Ef).
    destruct (pay_reward_returns pt hash (put_world w h) Hpay Hl) as (hash' & h' & Er).
    exists h', hash'. split; [|by rewrite (hm_bind_ok _ _ _ _ _ Er)].
    pose proof (pay_reward_records pt hash (put_world w h)) as Hk. by rewrite Er in Hk.
  - right. exists (put_world w h). split; [done|]. unfold mbind, HM_bind, comp_bind. by rewrite Ef.
Qed.

(** An admitted confirmation of a registered account moves it to the confirmed list of its key,
    drops the pending transaction and notifies the account; if the chain refuses the registration
    transaction the stores are as before. *)
Theorem confirmation_recorded i x : A (pt_BlsPublicKey pt) false !! i = Some x → acct_addr x = a →
  (Z.of_nat (length (A (pt_BlsPublicKey pt) true)) + 1 < 2 ^ 63)%Z →
  let pk := pt_BlsPublicKey pt in
  (∃ hash h', (confirm_pending t a : HM _) h = (Ok hash, h') ∧
     Represents h' (upd pk true (A pk true ++ [confirm (t 1) (tx_Hash ethTx) x]) (upd pk false (swap_remove i (A pk false)) A))
       (base.delete a P) (push a (notice N a (confirmed_message a) (t 0)) N)) ∨
  (∃ h', (confirm_pending t a : HM _) h = (Fail (Returned ErrSendTx), h') ∧ Represents h' A P N).
Proof using All.
  intros Hi Hx Hb pk. destruct confirm_start as [(h1 & hash & Hrec & ->)|(h1 & Hrec & E)]; injection Hrec as E1 E2 E3.
  - left. exists hash. destruct (mark_refines (h_bls h1) A P pk i x (t 1) (tx_Hash ethTx)) as (s1 & Em & HB1); [|done..|].
    { rewrite E1. apply HR. }
    rewrite Hx in Em. eapply confirm_end; [exact Em|done..| | | |]; rewrite ?E2, ?E3; try done. apply HR.
  - right. exists h1. split; [done|]. split; rewrite ?E1, ?E2; apply HR.
Qed.

(** A pending transaction whose account is in no list (the store lost it between the two batches of
    an earlier confirmation) is "confirmed" all the same: the error is dropped, the account gets its
    message, and no list has it. *)
Theorem confirmation_of_nothing : (∀ f, a ∉ addrs A (pt_BlsPublicKey pt) f) →
  (∃ hash h', (confirm_pending t a : HM _) h = (Ok hash, h') ∧
     Represents h' A (base.delete a P) (push a (notice N a (confirmed_message a) (t 0)) N)) ∨
  (∃ h', (confirm_pending t a : HM _) h = (Fail (Returned ErrSendTx), h') ∧ Represents h' A P N).
Proof using All.
  intros Hn. destruct confirm_start as [(h1 & hash & Hrec & ->)|(h1 & Hrec & E)]; injection Hrec as E1 E2 E3.
  - left. exists hash. assert (Bls (contents (h_bls h1)) A P) as HB by (rewrite E1; apply HR).
    eapply confirm_end; [by eapply mark_unknown|done..| | | |]; rewrite ?E2, ?E3; try done. apply HR.
  - right. exists h1. split; [done|]. split; rewrite ?E1, ?E2; apply HR.
Qed.

End Confirm.

End Flow.
