(* ===== verification/AccountControl.v ===== *)
(** * Configuration and help-pay wallets under the account handler

    The configuration in force is the one a restart would load, and after every synchronisation
    the help-pay workers are exactly the listed wallets that have a key. *)

From S2P Require Import Prelude Interfaces GoLib LevelDB LdbIter HexCodec FreeGas FreeGasRefine FreeGasTheorems BlsAccounts Notifications PrivateKeys AccountAbi AccountHandler AccountHandlerFrame.
From Stdlib Require Import Strings.Byte.

Section Control.
Context `{LevelDBLaws St} `{!LevelDBIter St} `{!LevelDBIterLaws St} `{!LevelDBReliable St}.
Context `{EthCommon} `{EthAddressLaws} `{KeyCipherLaws} `{AbiCodec} `{EthTools Tx Key} `{Chain W}.
Context `{ProtoLaws ContractFreeGasData} `{ProtoLaws AuthorizedWalletData} `{ProtoLaws AdminData}.
Context `{Proto BlsAccountData} `{Proto PendingTransaction} `{Proto Notification}.

Abbreviation HM := (HM (St := St) (W := W)).
Implicit Types (h : Handler St W) (c : Config).

(** ** Configuration *)

Definition stored_big (m : gmap string bytes) (key : string) (set : Z → Config → Config) c : Config :=
  match m !! (PREFIX_APP_CONFIG +:+ key) with
  | Some v => match big_SetString (bytes_str v) with Some z => set z c | None => c end
  | None => c
  end.

(** The configuration file [c] with the stored values on top. *)
Definition with_stored (m : gmap string bytes) c : Config :=
  let c := stored_big m "extra_account" set_extra c in
  let c := stored_big m "free_gas_min_balance" set_min_balance c in
  let c := stored_big m "reward_amount" set_reward c in
  match m !! (PREFIX_APP_CONFIG +:+ "disable_free_gas") with
  | Some v => set_disable (bool_decide (bytes_str v = "true")) c
  | None => c
  end.

Lemma get_config_ok key s : GetAppConfig key s =
  (match contents s !! (PREFIX_APP_CONFIG +:+ key) with Some v => Ok v | None => Fail ErrAbsent end, s).
Proof.
  unfold GetAppConfig. destruct (read_reads (PREFIX_APP_CONFIG +:+ key) s) as [E|[_ Hf]]; [|by apply ldb_reliable in Hf].
  rewrite (comp_bind_ok _ _ _ _ _ E). by destruct (contents s !! _).
Qed.

Lemma put_cfg_same h : put_cfg (h_cfg h) h = h.
Proof. by destruct h. Qed.

Lemma load_big_ok key set h : (load_big key set : HM _) h = (Ok tt, put_cfg (stored_big (contents (h_fg h)) key set (h_cfg h)) h).
Proof.
  unfold load_big, stored_big, mbind, HM_bind, comp_bind, on_fg, on. rewrite get_config_ok.
  destruct (contents (h_fg h) !! _) as [v|]; [|by destruct h].
  destruct (big_SetString (bytes_str v)); by destruct h.
Qed.

Lemma load_config_ok h : (load_config : HM _) h = (Ok tt, put_cfg (with_stored (contents (h_fg h)) (h_cfg h)) h).
Proof.
  unfold load_config, with_stored. do 3 (rewrite (hm_bind_ok _ _ _ _ _ (load_big_ok _ _ _)); cbn [h_fg h_cfg put_cfg]).
  unfold mbind, HM_bind, comp_bind, on_fg, on. cbn [h_fg put_cfg]. rewrite get_config_ok.
  destruct (contents (h_fg h) !! _) as [v|]; by destruct h.
Qed.

(** What is in force is what a restart from the file [c0] would load. *)
Definition Persistent c0 h : Prop := (load_config : HM _) (put_cfg c0 h) = (Ok tt, h).

Lemma persistent_iff c0 h : Persistent c0 h ↔ h_cfg h = with_stored (contents (h_fg h)) c0.
Proof.
  unfold Persistent. rewrite load_config_ok. cbn [h_fg h_cfg put_cfg]. split.
  - intros [= E]. by rewrite <- E at 1.
  - intros E. rewrite <- E. by destruct h.
Qed.

Lemma save_config_ok key v h : ∃ s', (save_config key v : HM _) h = (Ok tt, put_fg s' h) ∧
  contents s' = <[PREFIX_APP_CONFIG +:+ key := str_bytes v]> (contents (h_fg h)).
Proof.
  unfold save_config, SaveAppConfig, write_batch, mbind, HM_bind, comp_bind, on_fg, on.
  destruct (ldb_Write_ok [BPut (PREFIX_APP_CONFIG +:+ key) (str_bytes v)] (h_fg h) (ldb_reliable _)) as (s' & -> & E).
  exists s'. by rewrite E.
Qed.

(** Storing one value replaces that value in what a restart loads. *)
Lemma with_stored_extra m c z :
  with_stored (<[PREFIX_APP_CONFIG +:+ "extra_account" := str_bytes (big_String z)]> m) c = set_extra z (with_stored m c).
Proof.
  unfold with_stored, stored_big. rewrite lookup_insert_eq, !lookup_insert_ne by done. rewrite str_bytes_inv, big_SetString_String.
  by repeat case_match.
Qed.
Lemma with_stored_min m c z :
  with_stored (<[PREFIX_APP_CONFIG +:+ "free_gas_min_balance" := str_bytes (big_String z)]> m) c = set_min_balance z (with_stored m c).
Proof.
  unfold with_stored, stored_big. rewrite lookup_insert_eq, !lookup_insert_ne by done. rewrite str_bytes_inv, big_SetString_String.
  by repeat case_match.
Qed.
Lemma with_stored_reward m c z :
  with_stored (<[PREFIX_APP_CONFIG +:+ "reward_amount" := str_bytes (big_String z)]> m) c = set_reward z (with_stored m c).
Proof.
  unfold with_stored, stored_big. rewrite lookup_insert_eq, !lookup_insert_ne by done. rewrite str_bytes_inv, big_SetString_String.
  by repeat case_match.
Qed.
Lemma with_stored_disable m c (b : bool) :
  with_stored (<[PREFIX_APP_CONFIG +:+ "disable_free_gas" := str_bytes (if b then "true" else "false")]> m) c = set_disable b (with_stored m c).
Proof.
  unfold with_stored, stored_big. rewrite lookup_insert_eq, !lookup_insert_ne by done. rewrite str_bytes_inv.
  destruct b; cbn; by repeat case_match.
Qed.

(** The four setters: what each does to the configuration in force, and the value it stores. *)
Definition config_update (name : string) (v : abi_val) : option ((Config → Config) * string * string * response) :=
  match v with
  | VBig z =>
    if decide (name = "setExtraAccount") then Some (set_extra z, "extra_account", big_String z, RConfigValue z)
    else if decide (name = "setFreeGasMinBalance") then Some (set_min_balance z, "free_gas_min_balance", big_String z, RConfigValue z)
    else if decide (name = "setRewardAmount") then Some (set_reward z, "reward_amount", big_String z, RConfigValue z)
    else None
  | VBool b =>
    if decide (name = "setDisableFreeGas") then
      Some (set_disable b, "disable_free_gas", if b then "true" else "false", RConfigFlag b)
    else None
  | _ => None
  end.

Lemma config_update_stored name v set key val r m c : config_update name v = Some (set, key, val, r) →
  with_stored (<[PREFIX_APP_CONFIG +:+ key := str_bytes val]> m) c = set (with_stored m c).
Proof.
  unfold config_update. destruct v; try done; repeat case_decide; intros E; try done; injection E as <- <- <- <-;
    [apply with_stored_extra|apply with_stored_min|apply with_stored_reward|apply with_stored_disable].
Qed.

(** The handler as a table: the owner's update is applied and stored, everything else changes nothing. *)
Lemma update_config_cases tx m b h :
  (∃ v vs set key val r s', abi_Unpack (m_Inputs m) b = Some (v :: vs) ∧ config_update (m_Name m) v = Some (set, key, val, r) ∧
     in_From tx = HexToAddress (OwnerRpcAddress (h_cfg h)) ∧
     (handleUpdateConfig tx m b : HM _) h = (Ok r, put_fg s' (put_cfg (set (h_cfg h)) h)) ∧
     contents s' = <[PREFIX_APP_CONFIG +:+ key := str_bytes val]> (contents (h_fg h))) ∨
  (((handleUpdateConfig tx m b : HM _) h).2 = h ∧
   (in_From tx = HexToAddress (OwnerRpcAddress (h_cfg h)) →
    ∀ v vs, abi_Unpack (m_Inputs m) b = Some (v :: vs) → config_update (m_Name m) v = None)).
Proof.
  unfold handleUpdateConfig. rewrite (hm_bind_ok _ _ h (h_cfg h) h) by done. cbv zeta.
  case_decide as Ho; [|by right]. unfold Unpack.
  destruct (abi_Unpack (m_Inputs m) b) as [vs|]; [|by right]. rewrite (hm_bind_ok _ _ h vs h) by done.
  destruct vs as [|v vs].
  { right. split; [|done]. by repeat case_decide. }
  assert (∀ key val set (r : response), ∃ s', (_ ← c_modify (λ h, put_cfg (set (h_cfg h)) h); _ ← save_config key val; mret r : HM _) h =
    (Ok r, put_fg s' (put_cfg (set (h_cfg h)) h)) ∧ contents s' = <[PREFIX_APP_CONFIG +:+ key := str_bytes val]> (contents (h_fg h))) as Hset.
  { intros key val set r. destruct (save_config_ok key val (put_cfg (set (h_cfg h)) h)) as (s' & E & Hc). exists s'. split; [|done].
    rewrite (hm_bind_ok _ _ h tt (put_cfg (set (h_cfg h)) h)) by done. by rewrite (hm_bind_ok _ _ _ _ _ E). }
  assert (∀ (k : abi_val → HM response), (x ← arg (v :: vs) 0; k x) h = k v h) as Harg by done.
  repeat case_decide; rewrite ?Harg; destruct v; try (right; split; [done|]; intros _ ? ? [= <- <-]; unfold config_update; by rewrite ?decide_False by congruence);
    left.
  all: match goal with |- context[c_modify (λ h, put_cfg (?set ?z (h_cfg h)) h)] =>
         match goal with |- context[save_config ?k ?w] =>
           match goal with |- context[@mret _ _ response ?r] => destruct (Hset k w (set z) r) as (s' & E & Hc) end end end.
  all: do 7 eexists; split_and!; [done| |done|exact E|exact Hc]; unfold config_update; by rewrite ?decide_False, decide_True by congruence.
Qed.

(** The configuration in force is always the one a restart would load: so it is after a start, so it
    stays under every configuration transaction, and the owner's well-formed update is in force, and
    stored, when the call returns. *)
Theorem config_persistent c0 h tx m b :
  Persistent c0 ((load_config : HM _) (put_cfg c0 h)).2 ∧
  (Persistent c0 h → Persistent c0 ((handleUpdateConfig tx m b : HM _) h).2) ∧
  (∀ v vs set key val r, abi_Unpack (m_Inputs m) b = Some (v :: vs) → config_update (m_Name m) v = Some (set, key, val, r) →
   in_From tx = HexToAddress (OwnerRpcAddress (h_cfg h)) →
   ∃ h', (handleUpdateConfig tx m b : HM _) h = (Ok r, h') ∧ h_cfg h' = set (h_cfg h)).
Proof.
  split_and!.
  - rewrite load_config_ok. by apply persistent_iff.
  - intros Hp%persistent_iff. apply persistent_iff.
    destruct (update_config_cases tx m b h) as [(v & vs & set & key & val & r & s' & _ & Eu & _ & -> & Hc)|[-> _]]; [|done].
    cbn [snd h_cfg h_fg put_fg put_cfg]. rewrite Hc. erewrite config_update_stored by exact Eu. by rewrite Hp.
  - intros v vs set key val r Eu Ec Ho.
    destruct (update_config_cases tx m b h) as [(v' & vs' & set' & key' & val' & r' & s' & Eu' & Ec' & _ & -> & Hc)|[_ Hn]].
    + rewrite Eu in Eu'. injection Eu' as <- <-. rewrite Ec in Ec'. injection Ec' as <- <- <- <-. by eexists.
    + by rewrite (Hn Ho v vs Eu) in Ec.
Qed.

(** ** Help-pay workers *)

Section Workers.
Context (pks : PrivateKeyStore).

(** The four lists and the key ring behind the handler. *)
Record Roster h (hs : list AuthorizedWalletData) (ads : list AdminData) (K : gmap bytes string) : Prop := {
  ros_pks : h_pks h = Some pks;
  ros_lists : Lists help_pay_keys (contents (h_fg h)) hs ∧ Lists admin_keys (contents (h_fg h)) ads;
  ros_keys : Keyring pks (contents (h_keys h)) K;
}.

(** A wallet can pay: its key is in the ring, or it is the owner's and the configuration has the key. *)
Definition can_pay c (K : gmap bytes string) (a : bytes) : Prop :=
  is_Some (K !! a) ∨ (a = HexToAddress (OwnerRpcAddress c) ∧ PkOwnerRpc c ≠ EmptyString).
#[export] Instance can_pay_dec c K a : Decision (can_pay c K a).
Proof. unfold can_pay. apply _. Defined.

Lemma wallet_has_key_ok h hs ads K a : Roster h hs ads K → length a = 20 →
  (wallet_has_key a : HM _) h = (Ok (bool_decide (can_pay (h_cfg h) K a)), h).
Proof.
  intros HR Ha. unfold wallet_has_key. rewrite (hm_bind_ok _ _ h h h) by done. rewrite (ros_pks _ _ _ _ HR).
  pose proof (has_key_ok pks K (h_keys h) a (ldb_reliable _) (ros_keys _ _ _ _ HR) Ha) as Ek.
  rewrite (hm_bind_ok _ _ h (bool_decide (is_Some (K !! a))) h)
    by (unfold mbind, HM_bind, comp_bind, on_keys, on; rewrite Ek; by destruct h).
  rewrite (hm_bind_ok _ _ h (HexToAddress (OwnerRpcAddress (h_cfg h))) h) by done.
  unfold mret, HM_ret, comp_ret. by rewrite <- bool_decide_or.
Qed.

Lemma valid_wallets_ok h hs ads K l : Roster h hs ads K →
  ∃ V, (valid_wallets l : HM _) h = (Ok (V, bool_decide (HexToAddress (OwnerRpcAddress (h_cfg h)) ∈ addr <$> l)), h) ∧
    ∀ a, a ∈ V ↔ a ∈ addr <$> l ∧ can_pay (h_cfg h) K a.
Proof.
  intros HR. induction l as [|w l IH]; cbn [valid_wallets fmap list_fmap].
  { exists ∅. split; [done|]. set_solver. }
  destruct IH as (V & EV & HV). cbv zeta. change (BytesToAddress (aw_WalletAddress w)) with (addr w).
  rewrite (hm_bind_ok _ _ _ _ _ (wallet_has_key_ok h hs ads K (addr w) HR (addr_length w))).
  rewrite (hm_bind_ok _ _ h (HexToAddress (OwnerRpcAddress (h_cfg h))) h) by done.
  rewrite (hm_bind_ok _ _ _ _ _ EV). unfold mret, HM_ret, comp_ret. eexists. split.
  - rewrite <- bool_decide_or. do 3 f_equal. apply bool_decide_ext. rewrite elem_of_cons. naive_solver.
  - intros a. rewrite elem_of_cons. destruct (bool_decide_reflect (can_pay (h_cfg h) K (addr w)));
      [rewrite elem_of_union, elem_of_singleton|]; rewrite HV; naive_solver.
Qed.

(** One list of the store is replaced; the others stay. *)
Lemma reliable_update (c : comp St fg_error unit) s Q : updates c s Q → ∃ s', c s = (Ok tt, s') ∧ Q (contents s').
Proof. intros [?|[_ Hf]]; [done|by apply ldb_reliable in Hf]. Qed.

Lemma add_help_pay_ok h hs ads K now a by_ : Roster h hs ads K → length a = 20 → a ∉ addr <$> hs →
  (Z.of_nat (length hs) + 1 < 2 ^ 63)%Z → ∃ s', AddHelpPayWallet now a by_ (h_fg h) = (Ok tt, s') ∧
    Roster (put_fg s' h) (hs ++ [mk_entry a now by_]) ads K.
Proof.
  intros [Hp [Hh Ha] Hk] Hl Hn Hb. destruct all_keys_ok as (_ & _ & Kh & _).
  destruct (reliable_update _ _ _ (add_entry_refines help_pay_keys Kh (h_fg h) hs a by_ now Hh Hl Hb Hn)) as (s' & E & HL & Ht).
  exists s'. split; [done|]. split; [done| |done]. split; [done|].
  eapply untouched; [|exact Ht|exact Ha]. by vm_compute.
Qed.

Lemma remove_help_pay_ok h hs ads K i x : Roster h hs ads K → hs !! i = Some x →
  ∃ s', RemoveHelpPayWallet (addr x) (h_fg h) = (Ok tt, s') ∧ Roster (put_fg s' h) (swap_remove i hs) ads K.
Proof.
  intros [Hp [Hh Ha] Hk] Hi. destruct all_keys_ok as (_ & _ & Kh & _).
  destruct (reliable_update _ _ _ (remove_entry_refines help_pay_keys Kh (h_fg h) hs i x Hh Hi)) as (s' & E & HL & Ht).
  exists s'. split; [done|]. split; [done| |done]. split; [done|].
  eapply untouched; [|exact Ht|exact Ha]. by vm_compute.
Qed.

Lemma set_key_roster h hs ads K a k nonce : Roster h hs ads K → length a = 20 → length nonce = nonceSize →
  ∃ v s', (on_keys (SetPrivateKey pks (Some nonce) a k) : HM _) h = (Ok v, put_keys s' h) ∧
    Roster (put_keys s' h) hs ads (if decide (k = EmptyString) then K else <[a := k]> K) ∧
    (k ≠ EmptyString → v = inr tt).
Proof.
  intros [Hp Hl Hk] Ha Hn. unfold on_keys, on. case_decide as Hd.
  - subst k. rewrite set_empty_key. do 2 eexists. split; [done|]. split; [by split|done].
  - destruct (set_key_ok pks K (h_keys h) a k nonce (ldb_reliable _) Hk Ha Hd Hn) as (s' & -> & Hk'). do 2 eexists.
    split; [done|]. split; [by split|done].
Qed.

(** The help-pay list a synchronisation ends with: the owner joins it when its key is configured. *)
Definition synced_list c (hs : list AuthorizedWalletData) (now : Z) : list AuthorizedWalletData :=
  let own := HexToAddress (OwnerRpcAddress c) in
  if decide ((own ∉ addr <$> hs) ∧ PkOwnerRpc c ≠ EmptyString ∧ own ≠ zeroAddress) then hs ++ [mk_entry own now own] else hs.

Lemma sync_ok h hs ads K now nonce : Roster h hs ads K → length hs ≤ 1000 → length nonce = nonceSize →
  length (HexToAddress (OwnerRpcAddress (h_cfg h))) = 20 →
  ∃ h' K', (syncHelpPayWorkers now (Some nonce) : HM _) h = (Ok tt, h') ∧ h_cfg h' = h_cfg h ∧
    Roster h' (synced_list (h_cfg h) hs now) ads K' ∧
    (∀ a, K' !! a ≠ K !! a → a = HexToAddress (OwnerRpcAddress (h_cfg h))) ∧
    (∀ a, a ∈ h_workers h' ↔ a ∈ (addr <$> synced_list (h_cfg h) hs now) ∧ can_pay (h_cfg h) K a).
Proof.
  intros HR Hlen Hn Hown. unfold syncHelpPayWorkers.
  set (own := HexToAddress (OwnerRpcAddress (h_cfg h))) in *.
  assert (GetHelpPayWallets 0 1000 (h_fg h) = (Ok (hs, Z.of_nat (length hs)), h_fg h)) as Eg.
  { destruct all_keys_ok as (_ & _ & Kh & _).
    destruct (get_page_reads help_pay_keys (h_fg h) hs 0 1000 (proj1 (ros_lists _ _ _ _ HR))) as [E|[_ Hf]]; [lia..| |by apply ldb_reliable in Hf].
    change (0 * 1000) with 0 in E. rewrite drop_0, take_ge in E by done. exact E. }
  rewrite (hm_bind_ok _ _ h (inr (hs, Z.of_nat (length hs))) h) by (unfold on_fg, on; rewrite Eg; by destruct h).
  destruct (valid_wallets_ok h hs ads K hs HR) as (V & EV & HV). rewrite (hm_bind_ok _ _ _ _ _ EV). cbv beta iota.
  rewrite (hm_bind_ok _ _ h (h_cfg h) h) by done. fold own. cbv zeta. unfold synced_list. fold own.
  destruct (decide ((own ∉ addr <$> hs) ∧ PkOwnerRpc (h_cfg h) ≠ EmptyString ∧ own ≠ zeroAddress)) as [Hadd|Hadd];
    [rewrite decide_True by (by rewrite bool_decide_eq_false)|rewrite decide_False by (by rewrite bool_decide_eq_false)].
  - destruct Hadd as (Hni & Hpk & Hnz).
    destruct (add_help_pay_ok h hs ads K now own own HR Hown Hni ltac:(lia)) as (s1 & E1 & HR1).
    destruct (set_key_roster (put_fg s1 h) _ ads K own (TrimPrefix (PkOwnerRpc (h_cfg h)) "0x") nonce HR1 Hown Hn) as (v & s2 & E2 & HR2 & _).
    rewrite (hm_bind_ok _ _ h ({[own]} ∪ V) (put_keys s2 (put_fg s1 h))).
    2: { assert ((auto_add_owner now (Some nonce) : HM _) h = (Ok tt, put_keys s2 (put_fg s1 h))) as Ea; [|by rewrite (hm_bind_ok _ _ _ _ _ Ea)].
         unfold auto_add_owner. rewrite (hm_bind_ok _ _ h (h_cfg h) h) by done. cbv zeta. fold own.
         rewrite (hm_bind_ok _ _ h (inr tt) (put_fg s1 h)) by (unfold on_fg, on; by rewrite E1).
         rewrite (hm_bind_ok _ _ (put_fg s1 h) (put_fg s1 h) (put_fg s1 h)) by done.
         rewrite (ros_pks _ _ _ _ HR1). by rewrite (hm_bind_ok _ _ _ _ _ E2). }
    do 2 eexists. split; [done|]. split; [done|]. split; [by destruct HR2; split|]. split.
    + intros a. case_decide; [done|]. destruct (decide (a = own)); [done|]. by rewrite lookup_insert_ne.
    + intros a. cbn [h_workers put_workers put_keys put_fg]. rewrite fmap_app, elem_of_app. cbn [fmap list_fmap]. rewrite list_elem_of_singleton.
      assert (addr (mk_entry own now own : AuthorizedWalletData) = own) as -> by (by apply BytesToAddress_20).
      assert (can_pay (h_cfg h) K own) by (by right).
      rewrite elem_of_union, elem_of_filter, !elem_of_union, elem_of_singleton, HV. naive_solver.
  - rewrite (hm_bind_ok _ _ h V h) by done. do 2 eexists. split; [done|]. split; [done|]. split; [by destruct HR; split|].
    split; [done|]. intros a. cbn [h_workers put_workers]. rewrite elem_of_union, elem_of_filter, HV. naive_solver.
Qed.

Lemma admin_or_owner_ok h hs ads K a : Roster h hs ads K → length a = 20 →
  (admin_or_owner a : HM _) h = (Ok (bool_decide (a ∈ addr <$> ads) || bool_decide (a = HexToAddress (OwnerRpcAddress (h_cfg h)))), h).
Proof.
  intros [_ [_ Ha] _] Hl. unfold admin_or_owner. destruct all_keys_ok as (_ & _ & _ & Ka).
  destruct (has_entry_reads admin_keys (h_fg h) ads a Ha Hl) as [E|[_ Hf]]; [|by apply ldb_reliable in Hf].
  rewrite (hm_bind_ok _ _ h (bool_decide (a ∈ addr <$> ads)) h); [done|].
  unfold or_err, mbind, HM_bind, comp_bind, on_fg, on, IsAdmin. rewrite E. by destruct h.
Qed.

Lemma swap_remove_not_in (hs : list AuthorizedWalletData) i x : NoDup (addr <$> hs) → hs !! i = Some x → addr x ∉ addr <$> swap_remove i hs.
Proof.
  intros Hnd Hi Hin. pose proof (swap_remove_perm i hs x Hi) as Hp. apply (fmap_Permutation addr) in Hp. cbn [fmap list_fmap] in Hp.
  rewrite <- Hp in Hnd. by apply NoDup_cons in Hnd as [? _].
Qed.

Section Allowed.
Context h (hs : list AuthorizedWalletData) (ads : list AdminData) (K : gmap bytes string).
Context (tx : IncomingTx) (m : Method) (b : bytes) (t : nat → Z) (rnd : nat → option bytes) (n0 n1 : bytes).
Let from := in_From tx.
Let own := HexToAddress (OwnerRpcAddress (h_cfg h)).
Context (HR : Roster h hs ads K) (Hlen : length hs < 1000) (Hf : length from = 20) (Hown : length own = 20)
  (Hallow : (from ∈ addr <$> ads) ∨ from = own)
  (R0 : rnd 0 = Some n0) (R1 : rnd 1 = Some n1) (Hn0 : length n0 = nonceSize) (Hn1 : length n1 = nonceSize).

Lemma sender_allowed : (admin_or_owner from : HM _) h = (Ok true, h).
Proof using All.
  rewrite (admin_or_owner_ok h hs ads K from HR Hf). destruct Hallow; [by rewrite bool_decide_true|].
  fold own. by rewrite (bool_decide_true (from = own)), orb_true_r.
Qed.

Lemma help_pay_added : ∀ key k, abi_Unpack (m_Inputs m) b = Some [VString key] → HexToECDSA (clean_key key) = Some k → clean_key key ≠ EmptyString →
  length (KeyAddress k) = 20 → (KeyAddress k ∉ addr <$> hs) →
  ∃ h' K', (handleAddHelpPayWallet t rnd tx m b : HM _) h = (Ok (AddressHex (KeyAddress k)), h') ∧
    Roster h' (synced_list (h_cfg h) (hs ++ [mk_entry (KeyAddress k) (t 0) from]) (t 1)) ads K' ∧ KeyAddress k ∈ h_workers h'.
Proof using All.
  pose proof sender_allowed as Eallow.
  intros key k Eu Ek Hne Hk Hni. unfold handleAddHelpPayWallet, Unpack. rewrite Eu, (hm_bind_ok _ _ h [VString key] h) by done.
  unfold wallet_argument. rewrite Ek, (hm_bind_ok _ _ _ _ _ Eallow), R0, R1. unfold store_key.
  destruct (set_key_roster h hs ads K (KeyAddress k) (clean_key key) n0 HR Hk Hn0) as (v & s1 & E1 & HR1 & Hv).
  rewrite decide_False in HR1 by done. specialize (Hv Hne) as ->.
  rewrite (hm_bind_ok _ _ h tt (put_keys s1 h)).
  2: { rewrite (hm_bind_ok _ _ h h h), (ros_pks _ _ _ _ HR), decide_False by done.
       unfold or_err. by rewrite (hm_bind_ok _ _ _ _ _ E1). }
  destruct (add_help_pay_ok (put_keys s1 h) hs ads _ (t 0) (KeyAddress k) from HR1 Hk Hni ltac:(lia)) as (s2 & E2 & HR2).
  rewrite (hm_bind_ok _ _ (put_keys s1 h) tt (put_fg s2 (put_keys s1 h)))
    by (unfold or_err, mbind, HM_bind, comp_bind, on_fg, on; fold from; by rewrite E2).
  destruct (sync_ok (put_fg s2 (put_keys s1 h)) _ ads _ (t 1) n1 HR2) as (h' & K' & E3 & Ec & HR3 & _ & Hw);
    [rewrite length_app; simpl; lia|done..|].
  rewrite (hm_bind_ok _ _ _ _ _ E3). exists h', K'. split; [done|]. split; [done|]. apply Hw. split.
  + unfold synced_list. case_decide; rewrite !fmap_app, !elem_of_app; cbn [fmap list_fmap]; rewrite !list_elem_of_singleton;
      (left + idtac); right; symmetry; by apply BytesToAddress_20.
  + left. rewrite lookup_insert_eq. by eexists.
Qed.

Lemma help_pay_removed : ∀ i x, abi_Unpack (m_Inputs m) b = Some [VAddress (addr x)] → hs !! i = Some x →
  ∃ h' K', (handleRemoveHelpPayWallet (t 0) (rnd 0) tx m b : HM _) h = (Ok EmptyString, h') ∧
    Roster h' (synced_list (h_cfg h) (swap_remove i hs) (t 0)) ads K' ∧
    (addr x ∈ h_workers h' ↔ addr x = own ∧ PkOwnerRpc (h_cfg h) ≠ EmptyString ∧ own ≠ zeroAddress).
Proof using All.
  pose proof sender_allowed as Eallow.
  intros i x Eu Hi. unfold handleRemoveHelpPayWallet, Unpack. rewrite Eu, (hm_bind_ok _ _ h [VAddress (addr x)] h) by done.
  rewrite (hm_bind_ok _ _ _ _ _ Eallow), R0.
  destruct (remove_help_pay_ok h hs ads K i x HR Hi) as (s1 & E1 & HR1).
  rewrite (hm_bind_ok _ _ h tt (put_fg s1 h)) by (unfold or_err, mbind, HM_bind, comp_bind, on_fg, on; by rewrite E1).
  rewrite (hm_bind_ok _ _ (put_fg s1 h) (put_fg s1 h) (put_fg s1 h)), (ros_pks _ _ _ _ HR1) by done.
  destruct (delete_key_ok pks K (h_keys h) (addr x) (ldb_reliable _) (ros_keys _ _ _ _ HR) (addr_length x)) as (s2 & E2 & HK2).
  rewrite (hm_bind_ok _ _ (put_fg s1 h) tt (put_keys s2 (put_fg s1 h)))
    by (unfold mbind, HM_bind, comp_bind, on_keys, on; cbn [h_keys put_fg]; by rewrite E2).
  assert (Roster (put_keys s2 (put_fg s1 h)) (swap_remove i hs) ads (base.delete (addr x) K)) as HR2 by (destruct HR1; by split).
  pose proof (lookup_lt_Some _ _ _ Hi) as Hlt.
  destruct (sync_ok _ _ _ _ (t 0) n0 HR2) as (h' & K' & E3 & Ec & HR3 & _ & Hw);
    [rewrite swap_remove_length by done; lia|done..|].
  rewrite (hm_bind_ok _ _ _ _ _ E3). exists h', K'. split; [done|]. split; [done|]. rewrite Hw.
  pose proof (swap_remove_not_in hs i x (lists_nodup _ _ _ (proj1 (ros_lists _ _ _ _ HR))) Hi) as Hnot.
  unfold can_pay, synced_list. cbn [h_cfg put_keys put_fg]. fold own. rewrite lookup_delete_eq. case_decide as Hd.
  + rewrite fmap_app, elem_of_app. cbn [fmap list_fmap]. rewrite list_elem_of_singleton.
    assert (addr (mk_entry own (t 0) own : AuthorizedWalletData) = own) as -> by (by apply BytesToAddress_20).
    split; [|naive_solver]. intros [[?| ->] _]; [done|naive_solver].
  + split; [by intros [? _]|]. intros (Ex & Hp & Hz). destruct Hd. split_and!; [by rewrite <- Ex|done..].
Qed.

(** An owner or administrator who adds a help-pay wallet by its private key ends with the wallet in
    the list and a worker running for it, and one who removes a wallet ends without its worker,
    unless it is the owner's own wallet with its key in the configuration: that one is put back at
    once. *)
Theorem help_pay_wallets :
  (∀ key k, abi_Unpack (m_Inputs m) b = Some [VString key] → HexToECDSA (clean_key key) = Some k → clean_key key ≠ EmptyString →
     length (KeyAddress k) = 20 → (KeyAddress k ∉ addr <$> hs) →
     ∃ h' K', (handleAddHelpPayWallet t rnd tx m b : HM _) h = (Ok (AddressHex (KeyAddress k)), h') ∧
       Roster h' (synced_list (h_cfg h) (hs ++ [mk_entry (KeyAddress k) (t 0) from]) (t 1)) ads K' ∧ KeyAddress k ∈ h_workers h') ∧
  (∀ i x, abi_Unpack (m_Inputs m) b = Some [VAddress (addr x)] → hs !! i = Some x →
     ∃ h' K', (handleRemoveHelpPayWallet (t 0) (rnd 0) tx m b : HM _) h = (Ok EmptyString, h') ∧
       Roster h' (synced_list (h_cfg h) (swap_remove i hs) (t 0)) ads K' ∧
       (addr x ∈ h_workers h' ↔ addr x = own ∧ PkOwnerRpc (h_cfg h) ≠ EmptyString ∧ own ≠ zeroAddress)).
Proof using All. split; [exact help_pay_added|exact help_pay_removed]. Qed.

End Allowed.

End Workers.

(** ** Queries *)

(** Anybody can make the node panic: a help-pay query with page size 0 divides by it. *)
Theorem zero_page_size_panics h hs m b page size : Lists help_pay_keys (contents (h_fg h)) hs →
  abi_Unpack (m_Inputs m) b = Some [VBig page; VBig size] → i64 size = 0%Z →
  (handleGetAllHelpPayWallets m b : HM _) h = (Panic, h).
Proof.
  intros HL Eu Hz. unfold handleGetAllHelpPayWallets, Unpack. rewrite Eu.
  do 3 (rewrite (hm_bind_ok _ _ h _ h) by reflexivity). rewrite (hm_bind_ok _ _ h (Some size) h) by reflexivity.
  rewrite (hm_bind_ok _ _ h (i64 size) h), Hz by reflexivity.
  assert (∃ l, GetHelpPayWallets (i64 page) 0 (h_fg h) = (Ok (l, Z.of_nat (length hs)), h_fg h)) as (l & El).
  { unfold GetHelpPayWallets, get_page. destruct (count_reads help_pay_keys (h_fg h) hs HL) as [E|[_ Hf]]; [|by apply ldb_reliable in Hf].
    rewrite (comp_bind_ok _ _ _ _ _ E). pose proof (lists_bound _ _ _ HL). cbv zeta. rewrite (i64_small (Z.of_nat (length hs))) by lia.
    unfold paginateRange. rewrite !Z.mul_0_r. change (u64 (i64 0 + 1)) with 1%Z. change (u64 0) with 0%Z.
    destruct (_ <? 1)%Z; [by eexists|]. destruct (Z.ltb_spec (Z.of_nat (length hs)) 0); [lia|]. by eexists. }
  unfold or_err, mbind, HM_bind, comp_bind, on_fg, on. rewrite El. by destruct h.
Qed.

End Control.
