(* ===== verification/AccountRuns.v ===== *)
(** * The account handler's theorems at a concrete handler

    Runs of the handler of AccountToy: a registration, its confirmation, a payment, a refused call
    and the help-pay wallets of an owner. *)

From S2P Require Import Prelude Interfaces GoLib LevelDB LdbIter HexCodec FreeGas FreeGasRefine FreeGasTheorems BlsAccounts BlsAccountsRefine BlsAccountsTheorems Notifications PrivateKeys AccountAbi AccountHandler AccountHandlerFrame AccountToy AccountFlow AccountControl.
From Stdlib Require Import Strings.Byte.

Abbreviation TS := (gmap string bytes).
Abbreviation run e tx raw := (HandleAccountTransaction (St := TS) (W := ToyChain) (Tx := ToyTransfer) (Key := bytes) e tx raw).


(** A signature by the owner, and one by the user. *)
Definition signature (a : bytes) : bytes := a ++ zeros 45.

Definition confirm_method : Method := mk_method "confirmAccount" [TAddress; TUint256; TBytes].
Definition confirm_input (by_ : bytes) : bytes := ser [VAddress user_addr; VBig 900; VBytes (signature by_)].

Lemma confirmation_admission_witness :
  (handleConfirmAccount (Tx := ToyTransfer) (Key := bytes) 1000 (λ _, 1001%Z) confirm_method (confirm_input user_addr) : HM (St := TS) _)
    toy_handler = (Fail (Returned ErrSigner), toy_handler).
Proof.
  rewrite (confirmation_admission toy_handler 1000 (λ _, 1001%Z) confirm_method (confirm_input user_addr) user_addr 900 (signature user_addr));
    [|by vm_compute|done]. by vm_compute.
Defined.

Lemma confirm_without_sign_any_sender_witness :
  run toy_env (toy_tx user_addr "confirmAccountWithoutSign" [VAddress user_addr]) "" toy_handler =
  run toy_env (toy_tx owner_addr "confirmAccountWithoutSign" [VAddress user_addr]) "" toy_handler.
Proof.
  apply (confirm_without_sign_any_sender toy_handler toy_env _ _ "" (mk_method "confirmAccountWithoutSign" [TAddress])); by vm_compute.
Defined.

Lemma timestamp_window_witness : verifyTimestamp 1000 700 = true ∧ verifyTimestamp 1000 699 = false.
Proof.
  split.
  - apply (timestamp_window 1000 700); [lia|]. left. by vm_compute.
  - destruct (verifyTimestamp 1000 699) eqn:E; [|done]. apply (timestamp_window 1000 699) in E; [|lia].
    exfalso. revert E. change (i64 699) with 699%Z. lia.
Defined.

(** ** Registration and confirmation *)

Definition returned {A} (o : outcome stop A) : bool := match o with Ok _ => true | _ => false end.

Definition register_method : Method := mk_method "setBlsPublicKey" [TBytes].
Definition register_tx : IncomingTx := toy_tx user_addr "setBlsPublicKey" [VBytes pubkey].

Lemma registration_recorded_witness : ∃ h',
  (handleSetBlsPublicKey (Tx := ToyTransfer) (Key := bytes) (e_clock toy_env) register_tx register_method (ser [VBytes pubkey]) "ab" : HM _)
    toy_handler = (Ok tt, h') ∧
  Represents h' (upd pubkey false [registered (e_clock toy_env) register_tx pubkey] (λ _ _, []))
    {[user_addr := pending_of (e_clock toy_env) register_tx pubkey "ab"]}
    (push owner_addr (notice (λ _, []) owner_addr ("BLS registered for account " +:+ AddressHex user_addr) 1000) (λ _, [])).
Proof.
  destruct (registration_recorded (Tx := ToyTransfer) (Key := bytes) toy_handler (e_clock toy_env) register_tx register_method
    (ser [VBytes pubkey]) "ab" pubkey (λ _ _, []) ∅ (λ _, [])) as [R _]; [by vm_compute|done|split; [apply bls_empty|apply notifs_empty]|done..|].
  destruct R as (h' & E & HR & _); [intros g; apply not_elem_of_nil|]. exists h'. split; [exact E|]. exact HR.
Defined.

(** An account of the unconfirmed list with its pending transaction; the owner's wallet is at work. *)
Definition pending_tx (n : Z) : PendingTransaction :=
  {| pt_Address := bls_address n; pt_BlsPublicKey := pubkey; pt_RawTransactionHex := hex_EncodeToString (bls_address n ++ gate_addr);
     pt_CreatedAt := 7; pt_Nonce := 0; pt_OriginalGasPrice := 0 |}.
Definition pending_handler (n : Z) : Handler TS ToyChain :=
  put_workers {[owner_addr]} (put_bls (snd (SavePendingTransaction (pending_tx n) one_map)) toy_handler).

Lemma pending_represents n : length (bls_address n) = 20 →
  Represents (pending_handler n) one_list {[bls_address n := pending_tx n]} (λ _, []).
Proof.
  intros Hn. split; [|apply notifs_empty]. unfold pending_handler. cbn [h_bls put_workers put_bls].
  destruct (bls_pending_map one_map one_list ∅ (pending_tx n) (zeros 20) (map_ldb_no_fault _) one_map_bls eq_refl) as ((s' & E & HB) & _).
  rewrite E. exact HB.
Qed.

Lemma toy_payable n : payable (pending_handler n).
Proof. split; [split; [done|by eexists]|]. intros r _ _. cbn. set_solver. Qed.

Definition pending_eth_tx (n : Z) : ToyTransfer := {| tt_from := bls_address n; tt_to := gate_addr |}.

Lemma confirmation_recorded_witness : ∃ hash h',
  (confirm_pending (Tx := ToyTransfer) (Key := bytes) (e_clock toy_env) (bls_address 1) : HM _) (pending_handler 1) = (Ok hash, h') ∧
  Represents h' (upd pubkey true [confirm 1001 (tx_Hash (pending_eth_tx 1)) (account 1)] (upd pubkey false [] one_list)) ∅
    (push (bls_address 1) (notice (λ _, []) (bls_address 1) (confirmed_message (bls_address 1)) 1000) (λ _, [])).
Proof.
  destruct (confirmation_recorded (Key := bytes) (pending_handler 1) (e_clock toy_env) (bls_address 1) one_list _ (λ _, []) (pending_tx 1)
    (bls_address 1 ++ gate_addr) (pending_eth_tx 1) (pending_represents 1 eq_refl) eq_refl (lookup_singleton_eq _ _)
    ltac:(cbn; lia) ltac:(by vm_compute) ltac:(by vm_compute) ltac:(by vm_compute) (toy_payable 1) ltac:(done) ltac:(done)
    0 (account 1) eq_refl eq_refl ltac:(done)) as [(hash & h' & E & HR)|(h' & E & _)].
  - exists hash, h'. split; [exact E|]. rewrite delete_singleton_eq in HR. exact HR.
  - apply (f_equal (returned ∘ fst)) in E. exfalso. by vm_compute in E.
Defined.

Lemma confirmation_of_nothing_witness : ∃ hash h',
  (confirm_pending (Tx := ToyTransfer) (Key := bytes) (e_clock toy_env) (bls_address 2) : HM _) (pending_handler 2) = (Ok hash, h') ∧
  Represents h' one_list ∅ (push (bls_address 2) (notice (λ _, []) (bls_address 2) (confirmed_message (bls_address 2)) 1000) (λ _, [])).
Proof.
  destruct (confirmation_of_nothing (Key := bytes) (pending_handler 2) (e_clock toy_env) (bls_address 2) one_list _ (λ _, []) (pending_tx 2)
    (bls_address 2 ++ gate_addr) (pending_eth_tx 2) (pending_represents 2 eq_refl) eq_refl (lookup_singleton_eq _ _)
    ltac:(cbn; lia) ltac:(by vm_compute) ltac:(by vm_compute) ltac:(by vm_compute) (toy_payable 2) ltac:(done) ltac:(done))
    as [(hash & h' & E & HR)|(h' & E & _)].
  - intros []; apply (bool_decide_unpack _); by vm_compute.
  - exists hash, h'. split; [exact E|]. rewrite delete_singleton_eq in HR. exact HR.
  - apply (f_equal (returned ∘ fst)) in E. exfalso. by vm_compute in E.
Defined.

(** ** Payments *)

Lemma transfer_sound_witness : ∃ r h', (executeTransfer (Tx := ToyTransfer) (Key := bytes) owner_addr user_addr 5 : HM _) (pending_handler 1) = (Ok r, h') ∧
  r_Err r = None ∧ r_From r = owner_addr.
Proof.
  destruct (transfer_sound (Tx := ToyTransfer) (Key := bytes) owner_addr user_addr 5 (pending_handler 1) (proj1 (toy_payable 1)))
    as (r & h' & E & _). exists r, h'. split; [exact E|].
  apply (f_equal (λ x, match x.1 with Ok r => (r_Err r, r_From r) | _ => (Some TxSend, []) end)) in E.
  split; [apply (f_equal fst) in E|apply (f_equal snd) in E]; by vm_compute in E.
Defined.


(** ** Help-pay wallets *)

Lemma toy_roster : Roster toy_pks toy_handler [] [] ∅.
Proof.
  split; [done|split; by apply lists_empty|]. unfold toy_handler. cbn [h_keys].
  destruct (keyring_new (∅ : TS) [x01] "pw" "pp" (map_ldb_no_fault _)) as (s' & E & HK); [done..|]. rewrite E. exact HK.
Qed.

Definition add_wallet_method : Method := mk_method "addHelpPayWallet" [TString].
Definition wallet_key : string := "0x" +:+ hex_EncodeToString (who 5).
Definition add_wallet_tx : IncomingTx := toy_tx owner_addr "addHelpPayWallet" [VString wallet_key].

Lemma help_pay_wallets_witness : ∃ h' K',
  (handleAddHelpPayWallet (Tx := ToyTransfer) (Key := bytes) (e_clock toy_env) (e_random toy_env) add_wallet_tx add_wallet_method
     (ser [VString wallet_key]) : HM _) toy_handler = (Ok (AddressHex (who 5)), h') ∧
  Roster toy_pks h' [mk_entry (who 5) 1000 owner_addr; mk_entry owner_addr 1001 owner_addr] [] K' ∧ who 5 ∈ h_workers h'.
Proof.
  destruct (help_pay_wallets (Tx := ToyTransfer) (Key := bytes) toy_pks toy_handler [] [] ∅ add_wallet_tx add_wallet_method
    (ser [VString wallet_key]) (e_clock toy_env) (e_random toy_env) (zeros 12) (zeros 12) toy_roster) as [R _];
    [cbn; lia|done|by vm_compute|right; by vm_compute|done..|].
  destruct (R wallet_key (who 5)) as (h' & K' & E & HR & Hw); [by vm_compute..|apply not_elem_of_nil|].
  exists h', K'. split; [exact E|]. split; [|exact Hw].
  assert (synced_list (h_cfg toy_handler) ([] ++ [mk_entry (KeyAddress (who 5)) (e_clock toy_env 0) (in_From add_wallet_tx)]) (e_clock toy_env 1) =
    [mk_entry (who 5) 1000 owner_addr; mk_entry owner_addr 1001 owner_addr]) as Es by (by vm_compute).
  rewrite Es in HR. exact HR.
Defined.

Lemma zero_page_size_panics_witness :
  (handleGetAllHelpPayWallets (W := ToyChain) (mk_method "getAllHelpPayWallets" [TUint256; TUint256]) (ser [VBig 3; VBig 0]) : HM _) toy_handler = (Panic, toy_handler).
Proof. apply (zero_page_size_panics toy_handler [] _ _ 3 0); [by apply lists_empty|by vm_compute|done]. Defined.
