(* ===== verification/CircuitBreaker.v ===== *)
(** * The circuit breaker ([pkg/network/circuit_breaker.go])

    A mutex-protected state machine: each method is one atomic step.  Times are
    integers (nanoseconds); [now] is the clock read by the step.  The metrics are
    unbounded integers here; in the program they are 64-bit counters that no run
    can exhaust. *)

From S2P Require Import Prelude.

Inductive CircuitBreakerState := StateClosed | StateOpen | StateHalfOpen.

#[export] Instance CircuitBreakerState_eq_dec : EqDecision CircuitBreakerState.
Proof. solve_decision. Defined.

Definition State_String (s : CircuitBreakerState) : string :=
  match s with StateClosed => "CLOSED" | StateOpen => "OPEN" | StateHalfOpen => "HALF_OPEN" end.

Record CircuitBreakerConfig := { MaxFailures : Z; MaxRequests : Z; Interval : Z; Timeout_ : Z }.

Record CircuitBreaker := {
  maxFailures : Z;
  maxRequests : Z;
  interval : Z;
  timeout : Z;
  state : CircuitBreakerState;
  failures : Z;
  requests : Z;
  lastFailureTime : Z;
  lastSuccessTime : Z;
  totalRequests : Z;
  totalFailures : Z;
  totalSuccesses : Z;
  totalRejected : Z;
}.

Definition second : Z := 1000000000.

Definition DefaultCircuitBreakerConfig : CircuitBreakerConfig :=
  {| MaxFailures := 10; MaxRequests := 5; Interval := 10 * second; Timeout_ := 60 * second |}.

(** [NewCircuitBreaker]; a nil configuration is the default one, the zero time is 0. *)
Definition NewCircuitBreaker (config : option CircuitBreakerConfig) : CircuitBreaker :=
  let c := default DefaultCircuitBreakerConfig config in
  {| maxFailures := MaxFailures c; maxRequests := MaxRequests c; interval := Interval c;
     timeout := Timeout_ c; state := StateClosed; failures := 0; requests := 0;
     lastFailureTime := 0; lastSuccessTime := 0;
     totalRequests := 0; totalFailures := 0; totalSuccesses := 0; totalRejected := 0 |}.

(** Field updates. *)
Definition with_state (s : CircuitBreakerState) (f r : Z) (cb : CircuitBreaker) : CircuitBreaker :=
  {| maxFailures := maxFailures cb; maxRequests := maxRequests cb; interval := interval cb;
     timeout := timeout cb; state := s; failures := f; requests := r;
     lastFailureTime := lastFailureTime cb; lastSuccessTime := lastSuccessTime cb;
     totalRequests := totalRequests cb; totalFailures := totalFailures cb;
     totalSuccesses := totalSuccesses cb; totalRejected := totalRejected cb |}.

Definition count_request (cb : CircuitBreaker) : CircuitBreaker :=
  {| maxFailures := maxFailures cb; maxRequests := maxRequests cb; interval := interval cb;
     timeout := timeout cb; state := state cb; failures := failures cb; requests := requests cb;
     lastFailureTime := lastFailureTime cb; lastSuccessTime := lastSuccessTime cb;
     totalRequests := totalRequests cb + 1; totalFailures := totalFailures cb;
     totalSuccesses := totalSuccesses cb; totalRejected := totalRejected cb |}.

Definition count_rejected (cb : CircuitBreaker) : CircuitBreaker :=
  {| maxFailures := maxFailures cb; maxRequests := maxRequests cb; interval := interval cb;
     timeout := timeout cb; state := state cb; failures := failures cb; requests := requests cb;
     lastFailureTime := lastFailureTime cb; lastSuccessTime := lastSuccessTime cb;
     totalRequests := totalRequests cb; totalFailures := totalFailures cb;
     totalSuccesses := totalSuccesses cb; totalRejected := totalRejected cb + 1 |}.

Definition note_success (now : Z) (cb : CircuitBreaker) : CircuitBreaker :=
  {| maxFailures := maxFailures cb; maxRequests := maxRequests cb; interval := interval cb;
     timeout := timeout cb; state := state cb; failures := failures cb; requests := requests cb;
     lastFailureTime := lastFailureTime cb; lastSuccessTime := now;
     totalRequests := totalRequests cb; totalFailures := totalFailures cb;
     totalSuccesses := totalSuccesses cb + 1; totalRejected := totalRejected cb |}.

Definition note_failure (now : Z) (cb : CircuitBreaker) : CircuitBreaker :=
  {| maxFailures := maxFailures cb; maxRequests := maxRequests cb; interval := interval cb;
     timeout := timeout cb; state := state cb; failures := failures cb + 1; requests := requests cb;
     lastFailureTime := now; lastSuccessTime := lastSuccessTime cb;
     totalRequests := totalRequests cb; totalFailures := totalFailures cb + 1;
     totalSuccesses := totalSuccesses cb; totalRejected := totalRejected cb |}.

(** ** Methods *)

Definition CanExecute (now : Z) (cb : CircuitBreaker) : bool * CircuitBreaker :=
  let cb := count_request cb in
  match state cb with
  | StateClosed => (true, cb)
  | StateOpen =>
    if (timeout cb <? now - lastFailureTime cb)%Z
    then (true, with_state StateHalfOpen (failures cb) 0 cb)
    else (false, count_rejected cb)
  | StateHalfOpen =>
    if (maxRequests cb <=? requests cb)%Z then (false, count_rejected cb)
    else (true, with_state StateHalfOpen (failures cb) (requests cb + 1) cb)
  end.

Definition RecordSuccess (now : Z) (cb : CircuitBreaker) : CircuitBreaker :=
  let cb := note_success now cb in
  match state cb with
  | StateHalfOpen =>
    if (maxRequests cb <=? requests cb)%Z then with_state StateClosed 0 0 cb else cb
  | StateClosed => with_state StateClosed 0 (requests cb) cb
  | StateOpen => cb
  end.

Definition RecordFailure (now : Z) (cb : CircuitBreaker) : CircuitBreaker :=
  let cb := note_failure now cb in
  match state cb with
  | StateClosed =>
    if (maxFailures cb <=? failures cb)%Z then with_state StateOpen (failures cb) (requests cb) cb else cb
  | StateHalfOpen => with_state StateOpen (failures cb) 0 cb
  | StateOpen => cb
  end.

Definition GetState (cb : CircuitBreaker) : CircuitBreakerState := state cb.

Inductive stat := SStr (s : string) | SNum (n : Z).

Definition GetStats (cb : CircuitBreaker) : list (string * stat) :=
  [("state", SStr (State_String (state cb))); ("failures", SNum (failures cb));
   ("requests", SNum (requests cb)); ("total_requests", SNum (totalRequests cb));
   ("total_failures", SNum (totalFailures cb)); ("total_successes", SNum (totalSuccesses cb));
   ("total_rejected", SNum (totalRejected cb)); ("last_failure", SNum (lastFailureTime cb));
   ("last_success", SNum (lastSuccessTime cb))].

Definition Reset (cb : CircuitBreaker) : CircuitBreaker := with_state StateClosed 0 0 cb.

(** ** Runs *)

Inductive event :=
  | ECan (now : Z)
  | ESuccess (now : Z)
  | EFailure (now : Z)
  | EReset.

Definition apply_event (e : event) (cb : CircuitBreaker) : CircuitBreaker :=
  match e with
  | ECan now => snd (CanExecute now cb)
  | ESuccess now => RecordSuccess now cb
  | EFailure now => RecordFailure now cb
  | EReset => Reset cb
  end.

(** One atomic method call. *)
Inductive step : CircuitBreaker → event → CircuitBreaker → Prop :=
  | step_event cb e : step cb e (apply_event e cb).

Inductive reachable (config : option CircuitBreakerConfig) : CircuitBreaker → Prop :=
  | reach_new : reachable config (NewCircuitBreaker config)
  | reach_step cb e cb' : reachable config cb → step cb e cb' → reachable config cb'.

(** The requests admitted and the final state of a run. *)
Fixpoint run (es : list event) (cb : CircuitBreaker) : Z * CircuitBreaker :=
  match es with
  | [] => (0%Z, cb)
  | ECan now :: es =>
    let '(ok, cb) := CanExecute now cb in
    let '(n, cb) := run es cb in ((if ok : bool then n + 1 else n)%Z, cb)
  | e :: es => run es (apply_event e cb)
  end.

(** ** Invariant *)

Record cb_ok (cb : CircuitBreaker) : Prop := {
  ok_requests_idle : state cb ≠ StateHalfOpen → requests cb = 0%Z;
  ok_requests_half : state cb = StateHalfOpen → (0 ≤ requests cb ≤ maxRequests cb)%Z;
  ok_failures_closed : state cb = StateClosed → (0 ≤ failures cb < maxFailures cb)%Z;
  ok_failures_tripped : state cb ≠ StateClosed → (maxFailures cb ≤ failures cb)%Z;
  ok_rejected : (0 ≤ totalRejected cb ≤ totalRequests cb)%Z;
  ok_config : (1 ≤ maxFailures cb)%Z ∧ (0 ≤ maxRequests cb)%Z;
}.

(** Case analysis on every branch of a method. *)
Ltac cb_cases :=
  repeat match goal with
  | |- context [(?a <? ?b)%Z] => destruct (Z.ltb_spec a b)
  | |- context [(?a <=? ?b)%Z] => destruct (Z.leb_spec a b)
  end; simpl in *.

Lemma apply_event_ok e cb : cb_ok cb → cb_ok (apply_event e cb).
Proof.
  intros [I1 I2 I3 I4 I5 I6].
  destruct e; simpl; unfold CanExecute, RecordSuccess, RecordFailure, Reset; simpl;
    destruct (state cb) eqn:Es; simpl; cb_cases; split; simpl; rewrite ?Es; intros; try done;
    try (specialize (I1 ltac:(done))); try (specialize (I2 ltac:(done)));
    try (specialize (I3 ltac:(done))); try (specialize (I4 ltac:(done))); lia.
Qed.

Lemma reachable_ok config cb : reachable config cb →
  (1 ≤ MaxFailures (default DefaultCircuitBreakerConfig config))%Z →
  (0 ≤ MaxRequests (default DefaultCircuitBreakerConfig config))%Z → cb_ok cb.
Proof.
  intros Hr Hf Hq. induction Hr as [|cb e cb' _ IH Hs].
  - split; simpl; try done; lia.
  - inversion Hs; subst. by apply apply_event_ok.
Qed.

(** ** Properties *)

Definition is_can (e : event) : bool := match e with ECan _ => true | _ => false end.

Lemma run_accounts es : ∀ cb, let '(n, cb') := run es cb in
  totalRequests cb' = (totalRequests cb + Z.of_nat (length (List.filter is_can es)))%Z ∧
  (n + totalRejected cb')%Z = (totalRejected cb + Z.of_nat (length (List.filter is_can es)))%Z.
Proof.
  induction es as [|e es IH]; intros cb; [simpl; lia|]. destruct e as [now|now|now|]; cbn [run].
  - destruct (CanExecute now cb) as [ok cb1] eqn:E. specialize (IH cb1). destruct (run es cb1) as [n cb2].
    simpl length.
    assert (totalRequests cb1 = totalRequests cb + 1 ∧
      totalRejected cb1 = totalRejected cb + (if ok then 0 else 1))%Z as [E1 E2].
    { unfold CanExecute in E. simpl in E. destruct (state cb); [injection E as <- <-; simpl; lia|..];
        [destruct (_ <? _)%Z|destruct (_ <=? _)%Z]; injection E as <- <-; simpl; lia. }
    destruct ok; lia.
  - specialize (IH (RecordSuccess now cb)). cbn [apply_event]. destruct (run es _) as [n cb2].
    simpl length.
    assert (totalRequests (RecordSuccess now cb) = totalRequests cb ∧
      totalRejected (RecordSuccess now cb) = totalRejected cb) as [E1 E2].
    { unfold RecordSuccess. simpl. destruct (state cb); try done. by destruct (_ <=? _)%Z. }
    lia.
  - specialize (IH (RecordFailure now cb)). cbn [apply_event]. destruct (run es _) as [n cb2].
    simpl length.
    assert (totalRequests (RecordFailure now cb) = totalRequests cb ∧
      totalRejected (RecordFailure now cb) = totalRejected cb) as [E1 E2].
    { unfold RecordFailure. simpl. destruct (state cb); try done. by destruct (_ <=? _)%Z. }
    lia.
  - specialize (IH (Reset cb)). cbn [apply_event]. destruct (run es _) as [n cb2].
    simpl in *. lia.
Qed.

(** Half open, only admission requests: the budget is spent, then everything is rejected. *)
Lemma run_half_open nows : ∀ cb, state cb = StateHalfOpen → (0 ≤ requests cb ≤ maxRequests cb)%Z →
  ∃ n cb', run (map ECan nows) cb = (n, cb') ∧
  n = Z.min (Z.of_nat (length nows)) (maxRequests cb - requests cb) ∧ state cb' = StateHalfOpen ∧
  requests cb' = (requests cb + n)%Z ∧ maxRequests cb' = maxRequests cb.
Proof.
  induction nows as [|now nows IH]; intros cb Hs Hr.
  { exists 0%Z, cb. split_and!; try done; simpl; lia. }
  cbn [map run]. unfold CanExecute. simpl. rewrite Hs.
  destruct (Z.leb_spec (maxRequests cb) (requests cb)).
  - destruct (IH (count_rejected (count_request cb)) Hs Hr) as (n & cb' & E & IHn & ?). rewrite E.
    exists n, cb'. simpl in *. split_and!; try tauto; lia.
  - destruct (IH (with_state StateHalfOpen (failures cb) (requests cb + 1) (count_request cb)) eq_refl)
      as (n & cb' & E & IHn & IHs & IHr & IHm); [simpl; lia|]. rewrite E.
    exists (n + 1)%Z, cb'. simpl in *. split_and!; try done; lia.
Qed.

(** In every reachable state of a breaker with at least one allowed failure: closed means fewer
    than [maxFailures] consecutive failures, open or half-open means at least that many; the probe
    counter is between 0 and [maxRequests] when half-open and 0 otherwise; and no more requests were
    rejected than made. *)
Theorem breaker_invariant config cb : reachable config cb →
  (1 ≤ MaxFailures (default DefaultCircuitBreakerConfig config))%Z →
  (0 ≤ MaxRequests (default DefaultCircuitBreakerConfig config))%Z →
  (state cb = StateClosed → (0 ≤ failures cb < maxFailures cb)%Z) ∧
  (state cb ≠ StateClosed → (maxFailures cb ≤ failures cb)%Z) ∧
  (state cb = StateHalfOpen → (0 ≤ requests cb ≤ maxRequests cb)%Z) ∧
  (state cb ≠ StateHalfOpen → requests cb = 0%Z) ∧
  (0 ≤ totalRejected cb ≤ totalRequests cb)%Z.
Proof. intros Hr Hf Hq. destruct (reachable_ok config cb Hr Hf Hq) as [? ? ? ? [? ?] ?]. split_and!; done. Qed.

Lemma failures_run nows : ∀ cb, state cb = StateClosed →
  (failures cb + Z.of_nat (length nows) < maxFailures cb)%Z →
  ∃ cb', run (map EFailure nows) cb = (0%Z, cb') ∧ state cb' = StateClosed ∧
    failures cb' = (failures cb + Z.of_nat (length nows))%Z ∧ maxFailures cb' = maxFailures cb ∧
    timeout cb' = timeout cb.
Proof.
  induction nows as [|now nows IH]; intros cb Hs Hlt.
  { exists cb. split_and!; try done. simpl. lia. }
  simpl length in Hlt. cbn [map run apply_event].
  assert (RecordFailure now cb = note_failure now cb) as ->.
  { unfold RecordFailure. simpl. rewrite Hs. destruct (Z.leb_spec (maxFailures cb) (failures cb + 1)); [lia|done]. }
  destruct (IH (note_failure now cb) Hs) as (cb' & E & ? & Ef & ? & ?); [simpl; lia|].
  exists cb'. simpl in *. split_and!; try done. lia.
Qed.

(** A closed breaker trips exactly at [maxFailures] consecutive failures: after one fewer it is
    still closed, the next failure opens it, and from then on it rejects every request made within
    [timeout] of that failure and admits the first one after it as a half-open probe. *)
Theorem breaker_trips cb nows now later : state cb = StateClosed → failures cb = 0%Z →
  Z.of_nat (length nows) = (maxFailures cb - 1)%Z → (1 ≤ maxFailures cb)%Z →
  ∃ cb1, run (map EFailure nows) cb = (0%Z, cb1) ∧ state cb1 = StateClosed ∧
    let cb2 := RecordFailure now cb1 in
    state cb2 = StateOpen ∧
    (if decide (later - now ≤ timeout cb)%Z
     then fst (CanExecute later cb2) = false ∧ state (snd (CanExecute later cb2)) = StateOpen
     else fst (CanExecute later cb2) = true ∧ state (snd (CanExecute later cb2)) = StateHalfOpen).
Proof.
  intros Hs Hf Hn Hm. destruct (failures_run nows cb Hs ltac:(lia)) as (cb1 & E & Hs1 & Hf1 & Hm1 & Ht1).
  exists cb1. split; [done|]. split; [done|].
  unfold RecordFailure. simpl. rewrite Hs1. destruct (Z.leb_spec (maxFailures cb1) (failures cb1 + 1)); [|lia].
  split; [done|]. unfold CanExecute. simpl. rewrite Ht1.
  destruct (decide _), (Z.ltb_spec (timeout cb) (later - now)); try lia; done.
Qed.

(** Between the probe that ends the open phase and the next recorded outcome the breaker admits
    [maxRequests] + 1 requests, one more than the configured half-open limit: the probe itself is
    not counted. *)
Theorem half_open_admits_one_too_many cb now nows : state cb = StateOpen →
  (timeout cb < now - lastFailureTime cb)%Z → (0 ≤ maxRequests cb)%Z →
  (maxRequests cb ≤ Z.of_nat (length nows))%Z →
  fst (run (map ECan (now :: nows)) cb) = (maxRequests cb + 1)%Z.
Proof.
  intros Hs Ht Hm Hn. cbn [map run]. unfold CanExecute. simpl. rewrite Hs.
  destruct (Z.ltb_spec (timeout cb) (now - lastFailureTime cb)); [|lia].
  destruct (run_half_open nows (with_state StateHalfOpen (failures cb) 0 (count_request cb)) eq_refl)
    as (n & cb' & E & En & _); [simpl; lia|]. rewrite E. simpl in *. lia.
Qed.

(** A half-open breaker whose probes never report back stays half-open and rejects every request
    at any later time: only a recorded outcome or a reset leaves this state. *)
Theorem half_open_stuck cb nows : state cb = StateHalfOpen → requests cb = maxRequests cb →
  (0 ≤ maxRequests cb)%Z →
  fst (run (map ECan nows) cb) = 0%Z ∧ state (snd (run (map ECan nows) cb)) = StateHalfOpen.
Proof.
  intros Hs Hr Hm. destruct (run_half_open nows cb Hs ltac:(lia)) as (n & cb' & E & En & Hs' & _).
  rewrite E. simpl. split; [lia|done].
Qed.

(** Half-open decides by the next outcomes: a failure reopens the breaker, a success after the
    probe budget is used closes it with a clean failure count, an earlier success changes nothing. *)
Theorem half_open_outcomes cb now : state cb = StateHalfOpen →
  state (RecordFailure now cb) = StateOpen ∧ requests (RecordFailure now cb) = 0%Z ∧
  lastFailureTime (RecordFailure now cb) = now ∧
  (if decide (maxRequests cb ≤ requests cb)%Z
   then state (RecordSuccess now cb) = StateClosed ∧ failures (RecordSuccess now cb) = 0%Z
   else state (RecordSuccess now cb) = StateHalfOpen ∧ requests (RecordSuccess now cb) = requests cb).
Proof.
  intros Hs. unfold RecordFailure, RecordSuccess. simpl. rewrite Hs. split_and!; try done.
  destruct (decide _), (Z.leb_spec (maxRequests cb) (requests cb)); try lia; done.
Qed.

(** Over any sequence of calls every request is either admitted or counted as rejected, and the
    request metric counts exactly the admission checks. *)
Theorem breaker_metrics_account es cb :
  totalRequests (snd (run es cb)) = (totalRequests cb + Z.of_nat (length (List.filter is_can es)))%Z ∧
  (fst (run es cb) + totalRejected (snd (run es cb)))%Z =
    (totalRejected cb + Z.of_nat (length (List.filter is_can es)))%Z.
Proof. pose proof (run_accounts es cb). by destruct (run es cb). Qed.

(** ** At concrete breakers *)

Definition small : CircuitBreaker :=
  NewCircuitBreaker (Some {| MaxFailures := 2; MaxRequests := 1; Interval := 0; Timeout_ := 10 |}).
Definition tripped : CircuitBreaker := RecordFailure 2 (RecordFailure 1 small).
Definition probing : CircuitBreaker := snd (CanExecute 21 (snd (CanExecute 20 tripped))).

Lemma breaker_invariant_witness : (maxFailures tripped ≤ failures tripped)%Z.
Proof.
  apply (breaker_invariant (Some {| MaxFailures := 2; MaxRequests := 1; Interval := 0; Timeout_ := 10 |}) tripped);
    [|done..].
  apply (reach_step _ (RecordFailure 1 small) (EFailure 2)); [|exact (step_event _ (EFailure 2))].
  apply (reach_step _ small (EFailure 1)); [apply reach_new|exact (step_event _ (EFailure 1))].
Defined.

Lemma breaker_trips_witness : ∃ cb1, run [EFailure 1] small = (0%Z, cb1) ∧ state cb1 = StateClosed ∧
  let cb2 := RecordFailure 2 cb1 in state cb2 = StateOpen ∧
  (if decide (5 - 2 ≤ timeout small)%Z
   then fst (CanExecute 5 cb2) = false ∧ state (snd (CanExecute 5 cb2)) = StateOpen
   else fst (CanExecute 5 cb2) = true ∧ state (snd (CanExecute 5 cb2)) = StateHalfOpen).
Proof. apply (breaker_trips small [1%Z] 2 5); done. Defined.

Lemma half_open_admits_one_too_many_witness : fst (run (map ECan [20; 21; 22; 23]%Z) tripped) = 2%Z.
Proof. apply (half_open_admits_one_too_many tripped 20 [21; 22; 23]%Z); done. Defined.

Lemma half_open_stuck_witness : fst (run (map ECan [1000; 2000]%Z) probing) = 0%Z ∧
  state (snd (run (map ECan [1000; 2000]%Z) probing)) = StateHalfOpen.
Proof. apply (half_open_stuck probing [1000; 2000]%Z); done. Defined.

Lemma half_open_outcomes_witness : state (RecordFailure 30 probing) = StateOpen.
Proof. apply (half_open_outcomes probing 30). done. Defined.
