(* ===== verification/AccountState.v ===== *)
(** * Account and contract state ([pkg/state/account_state.go], [smart_contract_state.go])

    The balance book-keeping, the protobuf and JSON conversions and the copies of
    account state.  Arrays ([Address], [Hash], [PublicKey]) are byte lists whose
    lengths are part of [account_ok]; [*big.Int] is [Z]; a nil pointer is [None]. *)

From S2P Require Import Prelude Interfaces GoLib LevelDB.
From Stdlib Require Import Strings.Byte.

(** ** Messages ([pkg/proto/state.proto]) *)

Record pb_SmartContractState := {
  pb_CreatorPublicKey : bytes;
  pb_CodeHash : bytes;
  pb_StorageRoot : bytes;
  pb_StorageAddress : bytes;
  pb_LogsHash : bytes;
  pb_TrieDatabaseMap : gmap string bytes;
  pb_MapFullDbHash : bytes;
  pb_SimpleDbHash : bytes;
}.

Record pb_AccountState := {
  pb_Address : bytes;
  pb_LastHash : bytes;
  pb_Balance : bytes;
  pb_PendingBalance : bytes;
  pb_SmartContractState_ : option pb_SmartContractState;
  pb_DeviceKey : bytes;
  pb_Nonce : bytes;
  pb_PublicKeyBls : bytes;
  pb_AccountType : Z;
}.

Definition ACCOUNT_TYPE_REGULAR_ACCOUNT : Z := 0.
Definition ACCOUNT_TYPE_READ_WRITE_STRICT : Z := 1.

(** ** State *)

Record SmartContractState := {
  createPublicKey : bytes;
  storageAddress : bytes;
  codeHash : bytes;
  storageRoot : bytes;
  mapFullDbHash : bytes;
  simpleDbHash : bytes;
  logsHash : bytes;
  trieDatabaseMap : gmap string bytes;
}.

Record AccountState := {
  address : bytes;
  lastHash : bytes;
  balance : Z;
  pendingBalance : Z;
  deviceKey : bytes;
  smartContractState : option SmartContractState;
  nonce : Z;
  publicKeyBls : bytes;
  accountType : Z;
}.

Inductive state_error :=
  | ErrorInvalidSubPendingAmount
  | ErrorInvalidSubBalanceAmount
  | ErrInvalidKeyLength
  | ErrKeyAlreadySet
  | ErrInvalidAccountType
  | ErrUnmarshalState.

(** [common.Address{}] and [common.Hash{}] in a fresh struct. *)
Definition empty_account : AccountState :=
  {| address := zeros 20; lastHash := zeros 32; balance := 0; pendingBalance := 0;
     deviceKey := zeros 32; smartContractState := None; nonce := 0; publicKeyBls := [];
     accountType := 0 |}.

Definition NewAccountState (addr : bytes) : AccountState :=
  {| address := addr; lastHash := zeros 32; balance := 0; pendingBalance := 0;
     deviceKey := zeros 32; smartContractState := None; nonce := 0; publicKeyBls := [];
     accountType := 0 |}.

Definition NewEmptySmartContractState : SmartContractState :=
  {| createPublicKey := zeros 48; storageAddress := zeros 20; codeHash := zeros 32;
     storageRoot := zeros 32; mapFullDbHash := zeros 32; simpleDbHash := zeros 32;
     logsHash := zeros 32; trieDatabaseMap := ∅ |}.

Definition NewSmartContractState (pk addr code root logs : bytes) : SmartContractState :=
  {| createPublicKey := pk; storageAddress := addr; codeHash := code; storageRoot := root;
     mapFullDbHash := zeros 32; simpleDbHash := zeros 32; logsHash := logs; trieDatabaseMap := ∅ |}.

(** [PubkeyFromBytes]: [copy] into a 48-byte array. *)
Definition PubkeyFromBytes (b : bytes) : bytes := take 48 b ++ replicate (48 - length b) x00.

(** ** Setters *)

Definition set_balance (b : Z) (as_ : AccountState) : AccountState :=
  {| address := address as_; lastHash := lastHash as_; balance := b;
     pendingBalance := pendingBalance as_; deviceKey := deviceKey as_;
     smartContractState := smartContractState as_; nonce := nonce as_;
     publicKeyBls := publicKeyBls as_; accountType := accountType as_ |}.

Definition set_pending (b : Z) (as_ : AccountState) : AccountState :=
  {| address := address as_; lastHash := lastHash as_; balance := balance as_;
     pendingBalance := b; deviceKey := deviceKey as_;
     smartContractState := smartContractState as_; nonce := nonce as_;
     publicKeyBls := publicKeyBls as_; accountType := accountType as_ |}.

Definition SetSmartContractState (sc : option SmartContractState) (as_ : AccountState) : AccountState :=
  {| address := address as_; lastHash := lastHash as_; balance := balance as_;
     pendingBalance := pendingBalance as_; deviceKey := deviceKey as_;
     smartContractState := sc; nonce := nonce as_;
     publicKeyBls := publicKeyBls as_; accountType := accountType as_ |}.

Definition SetNonce (n : Z) (as_ : AccountState) : AccountState :=
  {| address := address as_; lastHash := lastHash as_; balance := balance as_;
     pendingBalance := pendingBalance as_; deviceKey := deviceKey as_;
     smartContractState := smartContractState as_; nonce := n;
     publicKeyBls := publicKeyBls as_; accountType := accountType as_ |}.

Definition SetNewDeviceKey (k : bytes) (as_ : AccountState) : AccountState :=
  {| address := address as_; lastHash := lastHash as_; balance := balance as_;
     pendingBalance := pendingBalance as_; deviceKey := k;
     smartContractState := smartContractState as_; nonce := nonce as_;
     publicKeyBls := publicKeyBls as_; accountType := accountType as_ |}.

Definition SetLastHash (h : bytes) (as_ : AccountState) : AccountState :=
  {| address := address as_; lastHash := h; balance := balance as_;
     pendingBalance := pendingBalance as_; deviceKey := deviceKey as_;
     smartContractState := smartContractState as_; nonce := nonce as_;
     publicKeyBls := publicKeyBls as_; accountType := accountType as_ |}.

Definition set_key (k : bytes) (as_ : AccountState) : AccountState :=
  {| address := address as_; lastHash := lastHash as_; balance := balance as_;
     pendingBalance := pendingBalance as_; deviceKey := deviceKey as_;
     smartContractState := smartContractState as_; nonce := nonce as_;
     publicKeyBls := k; accountType := accountType as_ |}.

Definition set_type (ty : Z) (as_ : AccountState) : AccountState :=
  {| address := address as_; lastHash := lastHash as_; balance := balance as_;
     pendingBalance := pendingBalance as_; deviceKey := deviceKey as_;
     smartContractState := smartContractState as_; nonce := nonce as_;
     publicKeyBls := publicKeyBls as_; accountType := ty |}.

(** ** Balances *)

Definition AS : Type → Type := comp AccountState state_error.

Definition TotalBalance (as_ : AccountState) : Z := (balance as_ + pendingBalance as_)%Z.
Definition AddBalance (amount : Z) (as_ : AccountState) : AccountState := set_balance (balance as_ + amount) as_.
Definition AddPendingBalance (amount : Z) (as_ : AccountState) : AccountState :=
  set_pending (pendingBalance as_ + amount) as_.

Definition SubPendingBalance (amount : Z) : AS unit := λ as_,
  if (pendingBalance as_ <? amount)%Z then (Fail ErrorInvalidSubPendingAmount, as_)
  else (Ok tt, set_pending (pendingBalance as_ - amount) as_).

Definition SubBalance (amount : Z) : AS unit := λ as_,
  if (balance as_ <? amount)%Z then (Fail ErrorInvalidSubBalanceAmount, as_)
  else (Ok tt, set_balance (balance as_ - amount) as_).

Definition SubTotalBalance (amount : Z) : AS unit := λ as_,
  let totalBalance := (pendingBalance as_ + balance as_)%Z in
  if (totalBalance <? amount)%Z then (Fail ErrorInvalidSubBalanceAmount, as_)
  else (Ok tt, set_balance (totalBalance - amount) (set_pending 0 as_)).

(** [PlusOneNonce]: a uint64 increment. *)
Definition PlusOneNonce (as_ : AccountState) : AccountState := SetNonce (u64 (nonce as_ + 1)) as_.

Definition SetPublicKeyBls (k : bytes) : AS unit := λ as_,
  if negb (length k =? 48)%nat then (Fail ErrInvalidKeyLength, as_)
  else if (length (publicKeyBls as_) =? 0)%nat then (Ok tt, set_key k as_)
  else (Fail ErrKeyAlreadySet, as_).

Definition SetAccountType (ty : Z) : AS unit := λ as_,
  if existsb (Z.eqb ty) [ACCOUNT_TYPE_READ_WRITE_STRICT; ACCOUNT_TYPE_REGULAR_ACCOUNT]
  then (Ok tt, set_type ty as_) else (Fail ErrInvalidAccountType, as_).

(** ** Contract state *)

Definition sc_codeHash (h : bytes) (ss : SmartContractState) : SmartContractState :=
  {| createPublicKey := createPublicKey ss; storageAddress := storageAddress ss; codeHash := h;
     storageRoot := storageRoot ss; mapFullDbHash := mapFullDbHash ss; simpleDbHash := simpleDbHash ss;
     logsHash := logsHash ss; trieDatabaseMap := trieDatabaseMap ss |}.
Definition sc_storageRoot (h : bytes) (ss : SmartContractState) : SmartContractState :=
  {| createPublicKey := createPublicKey ss; storageAddress := storageAddress ss; codeHash := codeHash ss;
     storageRoot := h; mapFullDbHash := mapFullDbHash ss; simpleDbHash := simpleDbHash ss;
     logsHash := logsHash ss; trieDatabaseMap := trieDatabaseMap ss |}.
Definition sc_storageAddress (a : bytes) (ss : SmartContractState) : SmartContractState :=
  {| createPublicKey := createPublicKey ss; storageAddress := a; codeHash := codeHash ss;
     storageRoot := storageRoot ss; mapFullDbHash := mapFullDbHash ss; simpleDbHash := simpleDbHash ss;
     logsHash := logsHash ss; trieDatabaseMap := trieDatabaseMap ss |}.
Definition sc_creator (pk : bytes) (ss : SmartContractState) : SmartContractState :=
  {| createPublicKey := pk; storageAddress := storageAddress ss; codeHash := codeHash ss;
     storageRoot := storageRoot ss; mapFullDbHash := mapFullDbHash ss; simpleDbHash := simpleDbHash ss;
     logsHash := logsHash ss; trieDatabaseMap := trieDatabaseMap ss |}.
Definition sc_logsHash (h : bytes) (ss : SmartContractState) : SmartContractState :=
  {| createPublicKey := createPublicKey ss; storageAddress := storageAddress ss; codeHash := codeHash ss;
     storageRoot := storageRoot ss; mapFullDbHash := mapFullDbHash ss; simpleDbHash := simpleDbHash ss;
     logsHash := h; trieDatabaseMap := trieDatabaseMap ss |}.
Definition sc_mapFullDbHash (h : bytes) (ss : SmartContractState) : SmartContractState :=
  {| createPublicKey := createPublicKey ss; storageAddress := storageAddress ss; codeHash := codeHash ss;
     storageRoot := storageRoot ss; mapFullDbHash := h; simpleDbHash := simpleDbHash ss;
     logsHash := logsHash ss; trieDatabaseMap := trieDatabaseMap ss |}.
Definition sc_simpleDbHash (h : bytes) (ss : SmartContractState) : SmartContractState :=
  {| createPublicKey := createPublicKey ss; storageAddress := storageAddress ss; codeHash := codeHash ss;
     storageRoot := storageRoot ss; mapFullDbHash := mapFullDbHash ss; simpleDbHash := h;
     logsHash := logsHash ss; trieDatabaseMap := trieDatabaseMap ss |}.
Definition sc_trieDatabaseMap (m : gmap string bytes) (ss : SmartContractState) : SmartContractState :=
  {| createPublicKey := createPublicKey ss; storageAddress := storageAddress ss; codeHash := codeHash ss;
     storageRoot := storageRoot ss; mapFullDbHash := mapFullDbHash ss; simpleDbHash := simpleDbHash ss;
     logsHash := logsHash ss; trieDatabaseMap := m |}.

Definition GetTrieDatabaseMapValue (k : string) (ss : SmartContractState) : option bytes := trieDatabaseMap ss !! k.
Definition SetTrieDatabaseMapValue (k : string) (v : bytes) (ss : SmartContractState) : SmartContractState :=
  sc_trieDatabaseMap (<[k := v]> (trieDatabaseMap ss)) ss.
Definition DeleteTrieDatabaseMapValue (k : string) (ss : SmartContractState) : SmartContractState :=
  sc_trieDatabaseMap (base.delete k (trieDatabaseMap ss)) ss.

Definition GetOrCreateSmartContractState (as_ : AccountState) : SmartContractState :=
  default NewEmptySmartContractState (smartContractState as_).

(** The account-level setters create the contract state when it is nil and write through it. *)
Definition on_contract (f : SmartContractState → SmartContractState) (as_ : AccountState) : AccountState :=
  SetSmartContractState (Some (f (GetOrCreateSmartContractState as_))) as_.

Definition SetCodeHash (h : bytes) := on_contract (sc_codeHash h).
Definition SetStorageAddress (a : bytes) := on_contract (sc_storageAddress a).
Definition SetStorageRoot (h : bytes) := on_contract (sc_storageRoot h).
Definition SetCreatorPublicKey (pk : bytes) := on_contract (sc_creator pk).

Definition SmartContractState_Copy (ss : SmartContractState) : SmartContractState :=
  {| createPublicKey := createPublicKey ss; storageAddress := storageAddress ss; codeHash := codeHash ss;
     storageRoot := storageRoot ss; mapFullDbHash := mapFullDbHash ss; simpleDbHash := simpleDbHash ss;
     logsHash := logsHash ss;
     trieDatabaseMap := map_fold (λ k v m, <[k := v]> m) ∅ (trieDatabaseMap ss) |}.

(** [Copy]; the destination key is nil. *)
Definition AccountState_Copy (as_ : AccountState) : AccountState :=
  let c := empty_account in
  {| address := go_copy (address c) (address as_);
     lastHash := go_copy (lastHash c) (lastHash as_);
     balance := balance as_;
     pendingBalance := pendingBalance as_;
     deviceKey := go_copy (deviceKey c) (deviceKey as_);
     smartContractState := SmartContractState_Copy <$> smartContractState as_;
     nonce := nonce as_;
     publicKeyBls := go_copy (publicKeyBls c) (publicKeyBls as_);
     accountType := accountType as_ |}.

Section Conversions.
Context `{EthCommon} `{EthAddress}.

Definition AddLogHash (h : bytes) (as_ : AccountState) : AccountState :=
  on_contract (λ ss, sc_logsHash (Keccak256 (logsHash ss ++ h)) ss) as_.

(** ** Protobuf *)

Definition SmartContractState_Proto (ss : SmartContractState) : pb_SmartContractState :=
  {| pb_CreatorPublicKey := createPublicKey ss; pb_CodeHash := codeHash ss; pb_StorageRoot := storageRoot ss;
     pb_StorageAddress := storageAddress ss; pb_LogsHash := logsHash ss;
     pb_TrieDatabaseMap := trieDatabaseMap ss; pb_MapFullDbHash := mapFullDbHash ss;
     pb_SimpleDbHash := simpleDbHash ss |}.

Definition SmartContractState_FromProto (pb : pb_SmartContractState) : SmartContractState :=
  {| createPublicKey := PubkeyFromBytes (pb_CreatorPublicKey pb);
     storageAddress := BytesToAddress (pb_StorageAddress pb);
     codeHash := BytesToHash (pb_CodeHash pb);
     storageRoot := BytesToHash (pb_StorageRoot pb);
     mapFullDbHash := BytesToHash (pb_MapFullDbHash pb);
     simpleDbHash := BytesToHash (pb_SimpleDbHash pb);
     logsHash := BytesToHash (pb_LogsHash pb);
     trieDatabaseMap := pb_TrieDatabaseMap pb |}.

Definition AccountState_Proto (as_ : AccountState) : pb_AccountState :=
  {| pb_Address := address as_; pb_LastHash := lastHash as_; pb_Balance := big_Bytes (balance as_);
     pb_PendingBalance := big_Bytes (pendingBalance as_);
     pb_SmartContractState_ := SmartContractState_Proto <$> smartContractState as_;
     pb_DeviceKey := deviceKey as_; pb_Nonce := PutUint64 (nonce as_);
     pb_PublicKeyBls := publicKeyBls as_; pb_AccountType := accountType as_ |}.

(** [FromProto] overwrites every field but a contract state the message does not have. *)
Definition AccountState_FromProto (pb : pb_AccountState) (as_ : AccountState) : AccountState :=
  {| address := BytesToAddress (pb_Address pb);
     lastHash := BytesToHash (pb_LastHash pb);
     balance := big_SetBytes (pb_Balance pb);
     pendingBalance := big_SetBytes (pb_PendingBalance pb);
     deviceKey := BytesToHash (pb_DeviceKey pb);
     smartContractState := match pb_SmartContractState_ pb with
       | Some sc => Some (SmartContractState_FromProto sc)
       | None => smartContractState as_
       end;
     nonce := if (length (pb_Nonce pb) =? 8)%nat then default 0%Z (Uint64 (pb_Nonce pb)) else 0%Z;
     publicKeyBls := pb_PublicKeyBls pb;
     accountType := pb_AccountType pb |}.

Context `{Proto pb_AccountState}.

Definition AccountState_Marshal (as_ : AccountState) : bytes := proto_Marshal (AccountState_Proto as_).

Definition AccountState_Unmarshal (b : bytes) : AS unit := λ as_,
  match proto_Unmarshal b with
  | None => (Fail ErrUnmarshalState, as_)
  | Some pb => (Ok tt, AccountState_FromProto pb as_)
  end.

End Conversions.

(** ** JSON *)

(** Hexadecimal forms of go-ethereum's types. *)
Class EthHex := {
  HashHex : bytes → string;
  HexToHash : string → bytes;
  HexToAddress : string → bytes;
  FromHex : string → bytes;
}.

Class EthHexLaws `{EthHex} `{EthAddress} : Prop := {
  HexToHash_Hex h : length h = 32 → HexToHash (HashHex h) = h;
  HexToAddress_Hex a : length a = 20 → HexToAddress (AddressHex a) = a;
  FromHex_hex b : FromHex (hex_EncodeToString b) = b;
}.

Record JsonSmartContractState := {
  j_CreatorPublicKey : string;
  j_StorageAddress : string;
  j_CodeHash : string;
  j_StorageRoot : string;
  j_LogsHash : string;
  j_MapFullDbHash : string;
  j_TrieDatabaseMap : gmap string bytes;
}.

Record JsonAccountState := {
  j_Address : string;
  j_Balance : string;
  j_PendingBalance : string;
  j_LastHash : string;
  j_DeviceKey : string;
  j_SmartContractState : option JsonSmartContractState;
  j_Nonce : Z;
  j_PublicKeyBls : string;
  j_AccountType : Z;
}.

Section Json.
Context `{EthAddress} `{EthHex}.

Definition FromSmartContractState (ss : SmartContractState) : JsonSmartContractState :=
  {| j_CreatorPublicKey := hex_EncodeToString (createPublicKey ss);
     j_StorageAddress := AddressHex (storageAddress ss);
     j_CodeHash := HashHex (codeHash ss);
     j_StorageRoot := HashHex (storageRoot ss);
     j_LogsHash := HashHex (logsHash ss);
     j_MapFullDbHash := HashHex (mapFullDbHash ss);
     j_TrieDatabaseMap := trieDatabaseMap ss |}.

Definition ToSmartContractState (j : JsonSmartContractState) : SmartContractState :=
  sc_mapFullDbHash (HexToHash (j_MapFullDbHash j))
    (sc_trieDatabaseMap (j_TrieDatabaseMap j)
      (NewSmartContractState (PubkeyFromBytes (FromHex (j_CreatorPublicKey j)))
        (HexToAddress (j_StorageAddress j)) (HexToHash (j_CodeHash j))
        (HexToHash (j_StorageRoot j)) (HexToHash (j_LogsHash j)))).

Definition FromAccountState (as_ : AccountState) : JsonAccountState :=
  {| j_Address := AddressHex (address as_); j_Balance := big_String (balance as_);
     j_PendingBalance := big_String (pendingBalance as_); j_LastHash := HashHex (lastHash as_);
     j_DeviceKey := HashHex (deviceKey as_);
     j_SmartContractState := FromSmartContractState <$> smartContractState as_;
     j_Nonce := nonce as_; j_PublicKeyBls := hex_EncodeToString (publicKeyBls as_);
     j_AccountType := accountType as_ |}.

(** [ToAccountState]; a number [SetString] rejects leaves zero. *)
Definition ToAccountState (j : JsonAccountState) : AccountState :=
  {| address := HexToAddress (j_Address j); lastHash := HexToHash (j_LastHash j);
     balance := default 0%Z (big_SetString (j_Balance j));
     pendingBalance := default 0%Z (big_SetString (j_PendingBalance j));
     deviceKey := HexToHash (j_DeviceKey j);
     smartContractState := ToSmartContractState <$> j_SmartContractState j;
     nonce := j_Nonce j; publicKeyBls := FromHex (j_PublicKeyBls j);
     accountType := j_AccountType j |}.

End Json.

(** ** Well-formedness *)

Record contract_ok (ss : SmartContractState) : Prop := {
  ok_createPublicKey : length (createPublicKey ss) = 48;
  ok_storageAddress : length (storageAddress ss) = 20;
  ok_codeHash : length (codeHash ss) = 32;
  ok_storageRoot : length (storageRoot ss) = 32;
  ok_mapFullDbHash : length (mapFullDbHash ss) = 32;
  ok_simpleDbHash : length (simpleDbHash ss) = 32;
  ok_logsHash : length (logsHash ss) = 32;
}.

Record account_ok (as_ : AccountState) : Prop := {
  ok_address : length (address as_) = 20;
  ok_lastHash : length (lastHash as_) = 32;
  ok_deviceKey : length (deviceKey as_) = 32;
  ok_nonce : (0 ≤ nonce as_ < 2 ^ 64)%Z;
  ok_balance : (0 ≤ balance as_)%Z;
  ok_pending : (0 ≤ pendingBalance as_)%Z;
  ok_contract ss : smartContractState as_ = Some ss → contract_ok ss;
}.

Lemma PubkeyFromBytes_48 b : length b = 48 → PubkeyFromBytes b = b.
Proof. intros Hb. unfold PubkeyFromBytes. rewrite Hb, take_ge by lia. apply app_nil_r. Qed.

Lemma NewAccountState_ok a : length a = 20 → account_ok (NewAccountState a).
Proof. intros Ha. split; simpl; try done. Qed.

Lemma SmartContractState_Copy_id ss : SmartContractState_Copy ss = ss.
Proof.
  destruct ss as [? ? ? ? ? ? ? m]. unfold SmartContractState_Copy. simpl. f_equal.
  induction m as [|k v m Hk Hf IH] using map_first_key_ind; [by rewrite map_fold_empty|].
  rewrite map_fold_insert_first_key by done. by rewrite IH.
Qed.

Section Facts.
Context `{EthCommonLaws} `{EthAddressLaws}.

Lemma contract_proto_roundtrip ss : contract_ok ss →
  SmartContractState_FromProto (SmartContractState_Proto ss) = ss.
Proof.
  intros [Hpk Ha H1' H2' H3' H4' H5']. destruct ss; unfold SmartContractState_FromProto; simpl in *.
  by rewrite PubkeyFromBytes_48, BytesToAddress_20, !BytesToHash_32.
Qed.

Lemma nonce_roundtrip n : (0 ≤ n < 2 ^ 64)%Z →
  (if (length (PutUint64 n) =? 8)%nat then default 0%Z (Uint64 (PutUint64 n)) else 0%Z) = n.
Proof.
  intros Hn. rewrite Uint64_PutUint64 by done.
  rewrite (be_bytes_length 8 n : length (PutUint64 n) = 8). done.
Qed.

Lemma account_proto_roundtrip as_ as0 : account_ok as_ → smartContractState as0 = None →
  AccountState_FromProto (AccountState_Proto as_) as0 = as_.
Proof.
  intros [Ha Hl Hd Hn Hb Hp Hc] H0'. destruct as_ as [a lh b pb dk sc n pk ty].
  cbn [address lastHash deviceKey nonce balance pendingBalance smartContractState] in *.
  unfold AccountState_FromProto, AccountState_Proto.
  cbn [address lastHash deviceKey nonce balance pendingBalance smartContractState publicKeyBls accountType
       pb_Address pb_LastHash pb_Balance pb_PendingBalance pb_DeviceKey pb_Nonce pb_PublicKeyBls pb_AccountType
       pb_SmartContractState_].
  rewrite nonce_roundtrip, BytesToAddress_20, !BytesToHash_32, !big_SetBytes_Bytes, !Z.abs_eq by done. f_equal.
  destruct sc as [ss|]; cbn [fmap option_fmap option_map]; [|done].
  f_equal. apply contract_proto_roundtrip. by apply Hc.
Qed.

Context `{ProtoLaws pb_AccountState}.

(** Storing and loading an account returns every field unchanged: [Unmarshal] into a fresh
    account inverts [Marshal] for accounts with non-negative balances. *)
Theorem account_marshal_roundtrip as_ : account_ok as_ →
  AccountState_Unmarshal (AccountState_Marshal as_) empty_account = (Ok tt, as_).
Proof.
  intros Hok. unfold AccountState_Unmarshal, AccountState_Marshal. rewrite proto_roundtrip.
  by rewrite account_proto_roundtrip.
Qed.

(** [Unmarshal] into an account that already has a contract state keeps that contract state
    when the stored account has none. *)
Theorem account_unmarshal_stale_contract as_ old sc : account_ok as_ → smartContractState as_ = None →
  smartContractState old = Some sc →
  ∃ r, AccountState_Unmarshal (AccountState_Marshal as_) old = (Ok tt, r) ∧
    smartContractState r = Some sc ∧ balance r = balance as_ ∧ nonce r = nonce as_.
Proof.
  intros Hok Hn Ho. unfold AccountState_Unmarshal, AccountState_Marshal. rewrite proto_roundtrip.
  eexists. split; [done|]. simpl. rewrite Hn. simpl. split; [done|].
  pose proof (account_proto_roundtrip as_ empty_account Hok eq_refl) as E.
  split; [exact (f_equal balance E)|exact (f_equal nonce E)].
Qed.

End Facts.

Section JsonFacts.
Context `{EthAddressLaws} `{!EthHex} `{!EthHexLaws}.

(** The JSON form keeps everything of an account except the [simpleDbHash] of its contract state,
    which comes back as zero. *)
Theorem account_json_roundtrip as_ : account_ok as_ →
  ToAccountState (FromAccountState as_) =
  SetSmartContractState ((λ ss, {| createPublicKey := createPublicKey ss; storageAddress := storageAddress ss;
    codeHash := codeHash ss; storageRoot := storageRoot ss; mapFullDbHash := mapFullDbHash ss;
    simpleDbHash := zeros 32; logsHash := logsHash ss; trieDatabaseMap := trieDatabaseMap ss |})
    <$> smartContractState as_) as_.
Proof.
  intros [Ha Hl Hd Hn Hb Hp Hc]. destruct as_ as [a lh b pb dk sc n pk ty].
  unfold ToAccountState, FromAccountState, SetSmartContractState. simpl in *.
  rewrite HexToAddress_Hex, !HexToHash_Hex, !big_SetString_String, FromHex_hex by done. simpl. f_equal.
  destruct sc as [ss|]; [|done]. simpl. f_equal. destruct (Hc ss eq_refl) as [Kpk Ka K1 K2 K3 K4 K5].
  unfold ToSmartContractState, FromSmartContractState, sc_mapFullDbHash, sc_trieDatabaseMap, NewSmartContractState.
  simpl. by rewrite FromHex_hex, PubkeyFromBytes_48, HexToAddress_Hex, !HexToHash_Hex.
Qed.

End JsonFacts.

(** ** Balances *)

(** The balance operations keep both balances non-negative for non-negative amounts: subtraction
    succeeds exactly when the funds suffice, removes exactly the amount, and otherwise reports an
    error and changes nothing. *)
Theorem balances_stay_nonnegative as_ amount : account_ok as_ → (0 ≤ amount)%Z →
  account_ok (AddBalance amount as_) ∧ account_ok (AddPendingBalance amount as_) ∧
  (if decide (amount ≤ balance as_)%Z
   then ∃ r, SubBalance amount as_ = (Ok tt, r) ∧ account_ok r ∧ TotalBalance r = (TotalBalance as_ - amount)%Z
   else SubBalance amount as_ = (Fail ErrorInvalidSubBalanceAmount, as_)) ∧
  (if decide (amount ≤ pendingBalance as_)%Z
   then ∃ r, SubPendingBalance amount as_ = (Ok tt, r) ∧ account_ok r ∧ TotalBalance r = (TotalBalance as_ - amount)%Z
   else SubPendingBalance amount as_ = (Fail ErrorInvalidSubPendingAmount, as_)) ∧
  (if decide (amount ≤ TotalBalance as_)%Z
   then ∃ r, SubTotalBalance amount as_ = (Ok tt, r) ∧ account_ok r ∧ pendingBalance r = 0%Z ∧
          TotalBalance r = (TotalBalance as_ - amount)%Z
   else SubTotalBalance amount as_ = (Fail ErrorInvalidSubBalanceAmount, as_)).
Proof.
  intros [Ha Hl Hd Hn Hb Hp Hc] Hamt. unfold TotalBalance.
  split; [by split; simpl; try lia|]. split; [by split; simpl; try lia|].
  unfold SubBalance, SubPendingBalance, SubTotalBalance. split_and!.
  - destruct (decide _), (Z.ltb_spec (balance as_) amount); try lia; [|done].
    eexists. split; [done|]. split; [by split; simpl; try lia|]. simpl. lia.
  - destruct (decide _), (Z.ltb_spec (pendingBalance as_) amount); try lia; [|done].
    eexists. split; [done|]. split; [by split; simpl; try lia|]. simpl. lia.
  - destruct (decide _), (Z.ltb_spec (pendingBalance as_ + balance as_) amount); try lia; [|done].
    eexists. split; [done|]. split; [by split; simpl; try lia|]. simpl. split; [done|lia].
Qed.

(** A BLS key is accepted once, and only with 48 bytes; after that it never changes; account types
    other than the two declared ones are refused. *)
Theorem bls_key_set_once as_ k ty :
  (length k ≠ 48 → SetPublicKeyBls k as_ = (Fail ErrInvalidKeyLength, as_)) ∧
  (length k = 48 → publicKeyBls as_ = [] →
     ∃ r, SetPublicKeyBls k as_ = (Ok tt, r) ∧ publicKeyBls r = k ∧
       ∀ k', ∃ e, SetPublicKeyBls k' r = (Fail e, r)) ∧
  (∃ r, SetAccountType ty as_ = r ∧ match r with
     | (Ok _, s) => (ty = 0 ∨ ty = 1)%Z ∧ accountType s = ty
     | (Fail e, s) => e = ErrInvalidAccountType ∧ s = as_ ∧ (ty ≠ 0 ∧ ty ≠ 1)%Z
     | _ => False end).
Proof.
  split; [|split].
  - intros Hk. unfold SetPublicKeyBls. by destruct (Nat.eqb_spec (length k) 48).
  - intros Hk He. unfold SetPublicKeyBls. rewrite Hk, He. eexists. split; [done|]. split; [done|].
    intros k'. simpl. rewrite Hk. destruct (length k' =? 48)%nat; eauto.
  - eexists. split; [done|]. unfold SetAccountType. simpl.
    destruct (Z.eqb_spec ty ACCOUNT_TYPE_READ_WRITE_STRICT) as [->|]; [by split; [right|]|].
    destruct (Z.eqb_spec ty ACCOUNT_TYPE_REGULAR_ACCOUNT) as [->|]; [by split; [left|]|]. done.
Qed.

(** [Copy] preserves every field except the BLS public key: the key is copied into a nil slice, so
    the copy has none. *)
Theorem copy_drops_bls_key as_ : account_ok as_ →
  AccountState_Copy as_ = set_key [] as_.
Proof.
  intros [Ha Hl Hd _ _ _ _]. destruct as_ as [a lh b pb dk sc n pk ty].
  unfold AccountState_Copy, set_key. simpl in *. rewrite !go_copy_full by done. f_equal.
  destruct sc as [ss|]; simpl; [|done]. by rewrite SmartContractState_Copy_id.
Qed.

(** ** At concrete accounts *)

Module ToyState.
Export ToyCrypto ToyAddress ToyProto.

Fixpoint hex_decode (s : string) : bytes :=
  match s with
  | String.String a (String.String b s) =>
    match hex_unpair (a, b) with Some x => x :: hex_decode s | None => [] end
  | _ => []
  end.

Lemma toy_hex_decode_encode b : hex_decode (hex_EncodeToString b) = b.
Proof.
  induction b as [|x b IH]; [done|]. cbn [hex_EncodeToString hex_decode].
  rewrite (hex_unpair_pair x : hex_unpair (hex_digit (b2z x / 16), hex_digit (b2z x mod 16)) = Some x).
  by rewrite IH.
Qed.

#[export] Instance toy_hex : EthHex := {|
  HashHex := hex_EncodeToString;
  HexToHash := hex_decode;
  HexToAddress s := match s with String.String _ (String.String _ s) => hex_decode s | _ => [] end;
  FromHex := hex_decode;
|}.

#[export] Instance toy_hex_laws : EthHexLaws.
Proof. split; intros; apply toy_hex_decode_encode. Qed.

#[export] Instance ser_string : Ser string := ser_iso str_bytes bytes_str str_bytes_inv.
#[export] Instance ser_option `{Ser A} : Ser (option A) :=
  ser_iso (λ o : option A, match o with Some a => [a] | None => [] end) head
    (λ o, match o with Some _ => eq_refl | None => eq_refl end).
#[export] Instance ser_gmap : Ser (gmap string bytes) :=
  ser_iso map_to_list (list_to_map (M := gmap string bytes)) list_to_map_to_list.

#[export] Instance pb_contract_eq_dec : EqDecision pb_SmartContractState.
Proof. solve_decision. Defined.
#[export] Instance pb_account_eq_dec : EqDecision pb_AccountState.
Proof. solve_decision. Defined.

#[export] Instance pb_contract_ser : Ser pb_SmartContractState :=
  ser_iso (λ p, (pb_CreatorPublicKey p, pb_CodeHash p, pb_StorageRoot p, pb_StorageAddress p, pb_LogsHash p,
                 pb_TrieDatabaseMap p, pb_MapFullDbHash p, pb_SimpleDbHash p))
    (λ '(a, b, c, d, e, f, g, h), Build_pb_SmartContractState a b c d e f g h)
    (λ p, match p with Build_pb_SmartContractState _ _ _ _ _ _ _ _ => eq_refl end).
#[export] Instance pb_account_ser : Ser pb_AccountState :=
  ser_iso (λ p, (pb_Address p, pb_LastHash p, pb_Balance p, pb_PendingBalance p, pb_SmartContractState_ p,
                 pb_DeviceKey p, pb_Nonce p, pb_PublicKeyBls p, pb_AccountType p))
    (λ '(a, b, c, d, e, f, g, h, i), Build_pb_AccountState a b c d e f g h i)
    (λ p, match p with Build_pb_AccountState _ _ _ _ _ _ _ _ _ => eq_refl end).

#[export] Instance pb_account_proto : Proto pb_AccountState := toy_proto (Build_pb_AccountState [] [] [] [] None [] [] [] 0).
#[export] Instance pb_account_proto_laws : ProtoLaws pb_AccountState.
Proof. apply toy_proto_laws. Qed.

(** A funded account with a contract and a BLS key. *)
Definition funded : AccountState :=
  set_key (replicate 48 x2a) (AddPendingBalance 50 (AddBalance 1000 (PlusOneNonce (NewAccountState (zeros 20))))).
Definition contract_account : AccountState := SetCodeHash (replicate 32 x0c) funded.

Lemma funded_ok : account_ok funded.
Proof. split; simpl; try done. Qed.

Lemma contract_account_ok : account_ok contract_account.
Proof. split; simpl; try done. intros ss [= <-]. by split. Qed.

End ToyState.

Import ToyState.

Lemma account_marshal_roundtrip_witness :
  AccountState_Unmarshal (AccountState_Marshal contract_account) empty_account = (Ok tt, contract_account).
Proof. exact (account_marshal_roundtrip contract_account contract_account_ok). Defined.

Lemma account_unmarshal_stale_contract_witness : ∃ r,
  AccountState_Unmarshal (AccountState_Marshal funded) contract_account = (Ok tt, r) ∧
  smartContractState r = smartContractState contract_account ∧ balance r = balance funded ∧ nonce r = nonce funded.
Proof. exact (account_unmarshal_stale_contract funded contract_account _ funded_ok eq_refl eq_refl). Defined.

Lemma account_json_roundtrip_witness : ToAccountState (FromAccountState funded) = funded.
Proof. exact (account_json_roundtrip funded funded_ok). Defined.

Lemma balances_stay_nonnegative_witness : account_ok (AddBalance 5 funded).
Proof. apply (balances_stay_nonnegative funded 5 funded_ok). lia. Defined.

Lemma bls_key_set_once_witness : SetPublicKeyBls [x01] funded = (Fail ErrInvalidKeyLength, funded).
Proof. apply (bls_key_set_once funded [x01] 0). done. Defined.

Lemma copy_drops_bls_key_witness : AccountState_Copy funded = set_key [] funded.
Proof. exact (copy_drops_bls_key funded funded_ok). Defined.
