(* ===== verification/Wire.v ===== *)
(** * Messages on the wire ([pkg/network/message.go], the read and write loops of
    [pkg/network/connection.go])

    A message is a protobuf with its length in front as eight little-endian bytes.  The write loop
    turns a sequence of messages into a byte stream, the read loop turns the stream back into
    requests. *)

From S2P Require Import Prelude GoLib Interfaces LevelDB AccountState.
From Stdlib Require Import Strings.Byte.

Record pb_Header := {
  h_Command : string; h_Pubkey : bytes; h_ToAddress : bytes; h_Sign : bytes; h_Version : string; h_ID : string }.
Record pb_Message := { m_Header : option pb_Header; m_Body : bytes }.

Definition empty_Header : pb_Header :=
  {| h_Command := ""; h_Pubkey := []; h_ToAddress := []; h_Sign := []; h_Version := ""; h_ID := "" |}.

(** [NewMessage]: a message always has a header. *)
Definition NewMessage (m : option pb_Message) : pb_Message :=
  match m with
  | None => {| m_Header := Some empty_Header; m_Body := [] |}
  | Some m => match m_Header m with Some _ => m | None => {| m_Header := Some empty_Header; m_Body := m_Body m |} end
  end.

Definition header_of {A} (dflt : A) (f : pb_Header → A) (m : pb_Message) : A := match m_Header m with Some h => f h | None => dflt end.
Definition Command (m : pb_Message) : string := header_of EmptyString h_Command m.
Definition Version (m : pb_Message) : string := header_of EmptyString h_Version m.
Definition ID (m : pb_Message) : string := header_of EmptyString h_ID m.
Definition Body (m : pb_Message) : bytes := m_Body m.

(** [SignFromBytes]: 96 bytes, cut or padded with zeros. *)
Definition SignFromBytes (b : bytes) : bytes := go_copy (zeros 96) b.
Definition Pubkey (m : pb_Message) : bytes := header_of (zeros 48) (λ h, PubkeyFromBytes (h_Pubkey h)) m.
Definition Sign (m : pb_Message) : bytes := header_of (zeros 96) (λ h, SignFromBytes (h_Sign h)) m.
Definition ToAddress `{EthAddress} (m : pb_Message) : bytes :=
  header_of (zeros 20) (λ h, match h_ToAddress h with [] => zeros 20 | b => BytesToAddress b end) m.

Section Wire.
Context `{Proto pb_Message}.

(** [writeLoop]: the bytes that reach the peer.  [None] is a message that cannot be marshalled and is
    skipped; [fails i] is the number of bytes of the [i]-th message that get out before a write
    error, which ends the loop. *)
Fixpoint writeLoop (fails : nat → option nat) (i : nat) (ms : list (option pb_Message)) : bytes :=
  match ms with
  | [] => []
  | None :: ms => writeLoop fails (S i) ms
  | Some m :: ms =>
      let b := frame (proto_Marshal m) in
      match fails i with None => b ++ writeLoop fails (S i) ms | Some n => take n b end
  end.

(** What happens to a request that was read: it enters the channel, the connection is being closed,
    or the channel stays full until the timeout and the request is dropped. *)
Inductive delivery := Delivered | Quit | TimedOut.
Inductive read_end := EndEOF | EndUnexpectedEOF | EndExceed | EndUnmarshal | EndQuit.

(** [readLoop] on the bytes [b] of a stream that then ends: the requests delivered and the reason it
    stopped.  [fuel] bounds the number of records; every round takes at least eight bytes. *)
Fixpoint readLoop (max : Z) (dl : nat → delivery) (fuel i : nat) (b : bytes) : list pb_Message * read_end :=
  match fuel with
  | 0 => ([], EndUnexpectedEOF)
  | S fuel =>
      match b with
      | [] => ([], EndEOF)
      | _ =>
          if length b <? 8 then ([], EndUnexpectedEOF)
          else
            let messageLength := le_value (take 8 b) in
            let rest := drop 8 b in
            if (messageLength =? 0)%Z then readLoop max dl fuel i rest
            else if (max <? messageLength)%Z then ([], EndExceed)
            else
              (** [io.CopyN] copies nothing when the length is negative as an [int64] *)
              let n := Z.to_nat (i64 messageLength) in
              if length rest <? n then ([], EndEOF)
              else match proto_Unmarshal (take n rest) with
                   | None => ([], EndUnmarshal)
                   | Some m =>
                       match dl i with
                       | Delivered => let '(l, e) := readLoop max dl fuel (S i) (drop n rest) in (NewMessage (Some m) :: l, e)
                       | Quit => ([], EndQuit)
                       | TimedOut => readLoop max dl fuel (S i) (drop n rest)
                       end
                   end
      end
  end.
End Wire.

(** ** Reading what was written *)

Section WireProofs.
Context `{ProtoLaws pb_Message}.

Definition no_fail (i : nat) : option nat := None.

(** A message the reader accepts. *)
Definition sendable (max : Z) (m : pb_Message) : Prop :=
  m_Header m ≠ None ∧ m ≠ proto_default ∧ (Z.of_nat (length (proto_Marshal m)) ≤ max)%Z.

Lemma read_frame max dl fuel i m rest : sendable max m → (max < 2 ^ 63)%Z →
  readLoop max dl (S fuel) i (frame (proto_Marshal m) ++ rest) =
  match dl i with
  | Delivered => let '(l, e) := readLoop max dl fuel (S i) rest in (m :: l, e)
  | Quit => ([], EndQuit)
  | TimedOut => readLoop max dl fuel (S i) rest
  end.
Proof.
  intros (Hh & Nd & Hb) Hm. pose proof (proto_Marshal_nonempty m Nd) as Nb. set (b := proto_Marshal m) in *. cbn [readLoop].
  assert (0 < length b) by (destruct b; [done|simpl; lia]). pose proof (frame_length b) as L.
  destruct (frame b ++ rest) as [|x r] eqn:E; [apply app_nil in E as [E _]; rewrite E in L; simpl in L; lia|]. rewrite <- E.
  rewrite (proj2 (Nat.ltb_ge _ _)) by (rewrite length_app; lia). rewrite frame_header, frame_value by lia.
  rewrite (proj2 (Z.eqb_neq _ _)), (proj2 (Z.ltb_ge _ _)) by lia. rewrite i64_small, Nat2Z.id, frame_body by lia.
  rewrite (proj2 (Nat.ltb_ge _ _)) by (rewrite length_app; lia). rewrite take_app_length, drop_app_length. unfold b at 1. rewrite proto_roundtrip.
  unfold NewMessage. destruct (m_Header m) eqn:Em; [done|done].
Qed.

Lemma write_cons m ms i : writeLoop no_fail i (Some m :: ms) = frame (proto_Marshal m) ++ writeLoop no_fail (S i) ms.
Proof. done. Qed.

Lemma write_index ms : ∀ i j, writeLoop no_fail i ms = writeLoop no_fail j ms.
Proof. induction ms as [|[m|] ms IH]; intros i j; [done| |apply IH]. rewrite !write_cons. f_equal. apply IH. Qed.

Lemma write_length ms i : 8 * length ms ≤ length (writeLoop no_fail i (Some <$> ms)).
Proof.
  revert i. induction ms as [|m ms IH]; intros i; [simpl; lia|]. rewrite fmap_cons, write_cons, length_app, frame_length. specialize (IH (S i)).
  cbn [length]. lia.
Qed.

(** Reading is a pass over the messages whatever follows them. *)
Lemma read_written max dl ms : (max < 2 ^ 63)%Z → (∀ i, dl i = Delivered) → Forall (sendable max) ms → ∀ fuel i j rest, length ms ≤ fuel →
  readLoop max dl fuel i (writeLoop no_fail j (Some <$> ms) ++ rest) =
  let '(l, e) := readLoop max dl (fuel - length ms) (i + length ms) rest in (ms ++ l, e).
Proof.
  intros Hm Hd. induction ms as [|m ms IH]; intros Fm fuel i j rest Hf.
  - simpl. rewrite Nat.sub_0_r, Nat.add_0_r. by destruct (readLoop max dl fuel i rest).
  - apply Forall_cons in Fm as [F0 Fm]. destruct fuel as [|fuel]; [simpl in Hf; lia|]. rewrite fmap_cons, write_cons, <- app_assoc.
    rewrite read_frame, Hd by done. cbn [length] in Hf |- *. rewrite IH by (done || lia). replace (i + S (length ms)) with (S i + length ms) by lia. replace (S fuel - S (length ms)) with (fuel - length ms) by lia.
    by destruct (readLoop max dl (fuel - length ms) (S i + length ms) rest).
Qed.

Lemma wire_read_back max dl ms : (max < 2 ^ 63)%Z → (∀ i, dl i = Delivered) → Forall (sendable max) ms →
  readLoop max dl (S (length (writeLoop no_fail 0 (Some <$> ms)))) 0 (writeLoop no_fail 0 (Some <$> ms)) = (ms, EndEOF).
Proof.
  intros Hm Hd Fm. pose proof (write_length ms 0). rewrite <- (app_nil_r (writeLoop no_fail 0 (Some <$> ms))) at 2.
  rewrite read_written by (done || lia). destruct (S _ - length ms) eqn:E; [lia|]. simpl. by rewrite app_nil_r.
Qed.

(** Every message that is written is read back unchanged and in order, until the stream ends. *)
Theorem wire_roundtrip max dl ms : (max < 2 ^ 63)%Z → (∀ i, dl i = Delivered) → Forall (sendable max) ms →
  readLoop max dl (S (length (writeLoop no_fail 0 (Some <$> ms)))) 0 (writeLoop no_fail 0 (Some <$> ms)) = (ms, EndEOF).
Proof. apply wire_read_back. Qed.

(** A torn frame delivers nothing. *)
Lemma read_torn max dl fuel i m n : sendable max m → (max < 2 ^ 63)%Z → n < length (frame (proto_Marshal m)) →
  (readLoop max dl fuel i (take n (frame (proto_Marshal m)))).1 = [].
Proof.
  intros (_ & Nd & Hb) Hm Hn. pose proof (proto_Marshal_nonempty m Nd) as Nb. set (b := proto_Marshal m) in *. destruct fuel as [|fuel]; [done|].
  cbn [readLoop]. pose proof (frame_length b) as L. assert (length (take n (frame b)) = n) as Ln by (rewrite length_take; lia).
  destruct (take n (frame b)) as [|x r] eqn:E; [done|]. rewrite <- E in *. rewrite Ln. destruct (n <? 8) eqn:E8; [done|]. apply Nat.ltb_ge in E8.
  rewrite take_take, Nat.min_l by lia. pose proof (frame_header b []) as Hh. rewrite app_nil_r in Hh. rewrite Hh, frame_value by lia.
  assert (0 < length b) by (destruct b; [done|simpl; lia]). rewrite (proj2 (Z.eqb_neq _ _)), (proj2 (Z.ltb_ge _ _)) by lia.
  rewrite i64_small, Nat2Z.id, length_drop, Ln by lia. rewrite (proj2 (Nat.ltb_lt _ _)) by lia. done.
Qed.

Lemma read_cut max ms : (max < 2 ^ 63)%Z → Forall (sendable max) ms → ∀ dl fuel i j n,
  let got := (readLoop max dl fuel i (take n (writeLoop no_fail j (Some <$> ms)))).1 in
  sublist got ms ∧ ((∀ i, dl i ≠ TimedOut) → got `prefix_of` ms).
Proof.
  intros Hm. induction ms as [|m ms IH]; intros Fm dl fuel i j n got.
  - unfold got. simpl. rewrite take_nil. destruct fuel; simpl; (split; [constructor|intros; done]).
  - apply Forall_cons in Fm as [F0 Fm]. unfold got. rewrite fmap_cons, write_cons.
    destruct (decide (n < length (frame (proto_Marshal m)))) as [Hn|Hn].
    { rewrite take_app_le by lia. rewrite read_torn by done. split; [apply sublist_nil_l|intros; apply prefix_nil]. }
    rewrite take_app_ge by lia. destruct fuel as [|fuel]; [split; [apply sublist_nil_l|intros; apply prefix_nil]|].
    rewrite read_frame by done. specialize (IH Fm dl fuel (S i) (S j) (n - length (frame (proto_Marshal m)))). cbv zeta in IH.
    destruct (dl i) eqn:Ed.
    + destruct (readLoop max dl fuel (S i) _) as [l e]. simpl in *. destruct IH as [S P]. split; [by apply sublist_skip|]. intros Ht. by apply prefix_cons, P.
    + split; [apply sublist_nil_l|intros; apply prefix_nil].
    + destruct IH as [S P]. split; [by apply sublist_cons|]. intros Ht. by destruct (Ht i).
Qed.

Lemma write_is_cut fails ms : ∀ i, ∃ n, writeLoop fails i (Some <$> ms) = take n (writeLoop no_fail i (Some <$> ms)).
Proof.
  induction ms as [|m ms IH]; intros i; [by exists 0|]. rewrite fmap_cons, write_cons. cbn [writeLoop]. destruct (fails i) as [n|].
  - exists (n `min` length (frame (proto_Marshal m))). rewrite take_app_le by lia. by rewrite <- firstn_all2 with (n := length (frame (proto_Marshal m))) (l := frame (proto_Marshal m)) at 1 by lia; rewrite take_take.
  - destruct (IH (S i)) as [n ->]. exists (length (frame (proto_Marshal m)) + n). rewrite take_app_add. done.
Qed.

(** C33: Whatever writes fail, wherever the stream is cut and however many requests are dropped, the reader
    delivers messages that were sent, unchanged and in the order sent; without drops it delivers a
    prefix of them. *)
Theorem wire_prefix max fails dl ms cut : (max < 2 ^ 63)%Z → Forall (sendable max) ms →
  let b := take cut (writeLoop fails 0 (Some <$> ms)) in
  let got := (readLoop max dl (S (length b)) 0 b).1 in
  sublist got ms ∧ ((∀ i, dl i ≠ TimedOut) → got `prefix_of` ms).
Proof.
  intros Hm Fm b got. unfold got, b. destruct (write_is_cut fails ms 0) as [n ->]. rewrite take_take. by apply read_cut.
Qed.
End WireProofs.

(** ** The read loop ends *)

Section ReadTerminates.
Context `{Proto pb_Message}.

Lemma read_fuel max dl : ∀ n m i b, length b < n → length b < m → readLoop max dl n i b = readLoop max dl m i b.
Proof.
  induction n as [|n IH]; intros [|m] i b Hn Hm; [lia..|]. cbn [readLoop]. destruct b as [|x r] eqn:Eb; [done|]. rewrite <- Eb in *.
  assert (length b ≠ 0) by (rewrite Eb; done). destruct (Nat.ltb_spec (length b) 8) as [|H8]; [done|].
  assert (∀ k, length (drop k (drop 8 b)) < length b) as Hd by (intros k; rewrite !length_drop; lia).
  assert (length (drop 8 b) < length b) by (rewrite length_drop; lia).
  destruct (le_value (take 8 b) =? 0)%Z; [apply IH; lia|]. destruct (max <? le_value (take 8 b))%Z; [done|].
  destruct (length (drop 8 b) <? Z.to_nat (i64 (le_value (take 8 b)))); [done|]. set (k := Z.to_nat (i64 (le_value (take 8 b)))). specialize (Hd k).
  destruct (proto_Unmarshal (take k (drop 8 b))); [|done]. destruct (dl i); [|done|]; by rewrite (IH m) by lia.
Qed.

End ReadTerminates.

(** ** A concrete codec *)

Module WireExample.
Import ToyProto.

#[export] Instance header_eq : EqDecision pb_Header.
Proof. solve_decision. Defined.
#[export] Instance message_eq : EqDecision pb_Message.
Proof. solve_decision. Defined.

#[export] Instance ser_string : Ser string := ser_iso String.list_byte_of_string String.string_of_list_byte String.string_of_list_byte_of_string.

Definition message_tuple (m : pb_Message) : list (bytes * bytes * bytes * (string * string * string)) * bytes :=
  (match m_Header m with None => [] | Some h => [(h_Pubkey h, h_ToAddress h, h_Sign h, (h_Command h, h_Version h, h_ID h))] end, m_Body m).
Definition tuple_message (t : list (bytes * bytes * bytes * (string * string * string)) * bytes) : pb_Message :=
  {| m_Header := match t.1 with
                 | [] => None
                 | (p, a, s, (c, v, i)) :: _ => Some {| h_Command := c; h_Pubkey := p; h_ToAddress := a; h_Sign := s; h_Version := v; h_ID := i |}
                 end;
     m_Body := t.2 |}.
Lemma tuple_message_tuple m : tuple_message (message_tuple m) = m.
Proof. by destruct m as [[[]|] ?]. Qed.

#[export] Instance ser_message : Ser pb_Message := ser_iso message_tuple tuple_message tuple_message_tuple.
#[export] Instance toy_message : Proto pb_Message := toy_proto {| m_Header := None; m_Body := [] |}.
#[export] Instance toy_message_laws : ProtoLaws pb_Message := toy_proto_laws _.

Definition hello : pb_Message :=
  NewMessage (Some {| m_Header := None; m_Body := [x01; x02] |}).
Definition bye : pb_Message :=
  {| m_Header := Some {| h_Command := "Bye"; h_Pubkey := []; h_ToAddress := [x09]; h_Sign := []; h_Version := "1"; h_ID := "b" |}; m_Body := [] |}.

Lemma sendable_examples : Forall (sendable 1000) [hello; bye].
Proof. repeat constructor; try done; vm_compute; discriminate. Qed.

Lemma wire_roundtrip_witness : readLoop 1000 (λ _, Delivered) (S (length (writeLoop no_fail 0 (Some <$> [hello; bye])))) 0 (writeLoop no_fail 0 (Some <$> [hello; bye])) = ([hello; bye], EndEOF).
Proof. apply (wire_roundtrip 1000 (λ _, Delivered) [hello; bye]); [done|done|exact sendable_examples]. Defined.

(** The second message fails after three bytes; the first is delivered. *)
Lemma wire_prefix_witness :
  let b := take 100 (writeLoop (λ i, if decide (i = 1) then Some 3 else None) 0 (Some <$> [hello; bye])) in
  (readLoop 1000 (λ _, Delivered) (S (length b)) 0 b).1 = [hello] ∧ [hello] `prefix_of` [hello; bye].
Proof.
  destruct (wire_prefix 1000 (λ i, if decide (i = 1) then Some 3 else None) (λ _, Delivered) [hello; bye] 100) as [_ P]; [done|exact sendable_examples|].
  assert ((readLoop 1000 (λ _, Delivered) (S (length (take 100 (writeLoop (λ i, if decide (i = 1) then Some 3 else None) 0 (Some <$> [hello; bye]))))) 0
            (take 100 (writeLoop (λ i, if decide (i = 1) then Some 3 else None) 0 (Some <$> [hello; bye])))).1 = [hello]) as E by (vm_compute; done).
  split; [exact E|]. rewrite <- E. apply P. done.
Defined.
End WireExample.
