(* ===== verification/Connection.v ===== *)
(** * The connection object ([pkg/network/connection.go], [pkg/network/message_sender.go])

    All state of a connection belongs to one goroutine, [run], which serves commands from a channel;
    callers also read a cache and send messages directly into the exposed send channel.  The request,
    error, send and quit channels of one (re)connect are one generation, identified by a number.
    [handle] is one round of the goroutine's loop, the callers are separate steps, and an
    interleaving is a list of steps. *)

From S2P Require Import Prelude GoLib LevelDB Wire.

(** A [net.Conn], by its two addresses. *)
Record net_conn := { LocalAddr : string; RemoteAddr : string }.

Inductive conn_error := ErrDisconnected | ErrDial | ErrSendTimeout | ErrNilConnection | ErrNoAddress | ErrCmdChanFull | ErrNoAnswer.

(** The commands of [cmdChan].  [cmdConnect] carries the outcome its dial will have, [cmdSendMessage]
    the message. *)
Inductive cmd :=
  | cmdInit (a : bytes) (t : string)
  | cmdSetAddr (s : string)
  | cmdAccept (tcp : net_conn)
  | cmdConnect (addr : string) (dial : option net_conn)
  | cmdSendMessage (m : pb_Message)
  | cmdDisconnect
  | cmdClone
  | getIsConnect | getAddress | getChannels | getType | getRemoteAddr
  | getTCPAddr (isLocal : bool).

(** The variables of [run]. *)
Record Run := {
  address : bytes; cType : string; tcpConn : option net_conn; connect : bool; realConnAddr : string;
  chans : option nat;            (** the generation of the current channels *)
  shutdownTimer : bool;          (** the post-disconnect timer is running *)
  running : bool;                (** [run] has not returned *)
  closed : gset nat;             (** the generations whose channels are closed *)
  fresh : nat;                   (** the next generation *)
}.

Record Cache := {
  cachedAddr : bytes; cachedType : string; cachedAddrStr : string; cachedConnected : bool; cachedTcp : option net_conn }.

Record Connection := {
  run : Run;
  cache : Cache;
  cmdChan : list cmd;            (** the buffer, then the senders blocked on it *)
  sendChan : option nat;         (** the exposed generation *)
  sendQueue : list pb_Message;   (** waiting in the send channel of generation [chans] *)
}.

(** Field updates. *)
Definition with_run (r : Run) (c : Connection) : Connection :=
  {| run := r; cache := cache c; cmdChan := cmdChan c; sendChan := sendChan c; sendQueue := sendQueue c |}.
Definition with_cache (k : Cache) (c : Connection) : Connection :=
  {| run := run c; cache := k; cmdChan := cmdChan c; sendChan := sendChan c; sendQueue := sendQueue c |}.
Definition with_cmds (l : list cmd) (c : Connection) : Connection :=
  {| run := run c; cache := cache c; cmdChan := l; sendChan := sendChan c; sendQueue := sendQueue c |}.
Definition with_queue (q : list pb_Message) (c : Connection) : Connection :=
  {| run := run c; cache := cache c; cmdChan := cmdChan c; sendChan := sendChan c; sendQueue := q |}.
Definition with_connected (b : bool) (k : Cache) : Cache :=
  {| cachedAddr := cachedAddr k; cachedType := cachedType k; cachedAddrStr := cachedAddrStr k; cachedConnected := b; cachedTcp := cachedTcp k |}.
Definition with_meta (a : bytes) (t : string) (k : Cache) : Cache :=
  {| cachedAddr := a; cachedType := t; cachedAddrStr := cachedAddrStr k; cachedConnected := cachedConnected k; cachedTcp := cachedTcp k |}.
Definition with_addr_str (s : string) (k : Cache) : Cache :=
  {| cachedAddr := cachedAddr k; cachedType := cachedType k; cachedAddrStr := s; cachedConnected := cachedConnected k; cachedTcp := cachedTcp k |}.
Definition with_timer (b : bool) (r : Run) : Run :=
  {| address := address r; cType := cType r; tcpConn := tcpConn r; connect := connect r; realConnAddr := realConnAddr r; chans := chans r;
     shutdownTimer := b; running := running r; closed := closed r; fresh := fresh r |}.

Definition newConnectionBase : Connection :=
  {| run := {| address := zeros 20; cType := EmptyString; tcpConn := None; connect := false; realConnAddr := EmptyString; chans := None;
               shutdownTimer := false; running := true; closed := ∅; fresh := 0 |};
     cache := {| cachedAddr := zeros 20; cachedType := EmptyString; cachedAddrStr := EmptyString; cachedConnected := false; cachedTcp := None |};
     cmdChan := []; sendChan := None; sendQueue := [] |}.

(** ** Callers of the command channel *)

Definition cmdChanSize : nat := 1000.
(** A send with a [default] case: [true] when the command was queued. *)
Definition post (v : cmd) (c : Connection) : Connection * bool :=
  if decide (length (cmdChan c) < cmdChanSize) then (with_cmds (cmdChan c ++ [v]) c, true) else (c, false).
(** A plain send, which waits its turn behind the buffer. *)
Definition send_cmd (v : cmd) (c : Connection) : Connection := with_cmds (cmdChan c ++ [v]) c.

Definition Init (a : bytes) (t : string) (c : Connection) : Connection :=
  (post (cmdInit a t) (with_cache (with_meta a t (cache c)) c)).1.
Definition SetRealConnAddr (s : string) (c : Connection) : Connection :=
  (post (cmdSetAddr s) (with_cache (with_addr_str s (cache c)) c)).1.
Definition NewConnection (a : bytes) (t : string) : Connection := Init a t newConnectionBase.
Definition ConnectionFromTcpConnection (tcp : option net_conn) : option Connection :=
  tcp ← tcp; Some (send_cmd (cmdAccept tcp) newConnectionBase).
(** [Disconnect] always reports success. *)
Definition Disconnect (c : Connection) : Connection * option conn_error := ((post cmdDisconnect c).1, None).

(** ** The goroutine *)

(** The variables and the cache are set, then [startIO] makes new channels and exposes the send
    channel.  A dialled connection is known by the dialled address, an accepted one by its peer's. *)
Definition startIO (addr : string) (tcp : net_conn) (c : Connection) : Connection :=
  let r := run c in let k := cache c in
  {| run := {| address := address r; cType := cType r; tcpConn := Some tcp; connect := true; realConnAddr := addr; chans := Some (fresh r);
               shutdownTimer := shutdownTimer r; running := running r; closed := closed r; fresh := S (fresh r) |};
     cache := {| cachedAddr := cachedAddr k; cachedType := cachedType k; cachedAddrStr := addr; cachedConnected := true; cachedTcp := Some tcp |};
     cmdChan := cmdChan c; sendChan := Some (fresh r); sendQueue := [] |}.

(** [cleanup]: nothing unless connected.  Closing closed channels panics ([None]).  What still waits in
    the send channel is lost, the TCP connection being closed first. *)
Definition cleanup (c : Connection) : option Connection :=
  let r := run c in
  if connect r then
    match chans r with
    | Some g =>
        if decide (g ∈ closed r) then None
        else Some (with_queue [] (with_run
               {| address := address r; cType := cType r; tcpConn := tcpConn r; connect := false; realConnAddr := realConnAddr r; chans := chans r;
                  shutdownTimer := shutdownTimer r; running := running r; closed := {[g]} ∪ closed r; fresh := fresh r |} c))
    | None => Some (with_run
               {| address := address r; cType := cType r; tcpConn := tcpConn r; connect := false; realConnAddr := realConnAddr r; chans := chans r;
                  shutdownTimer := shutdownTimer r; running := running r; closed := closed r; fresh := fresh r |} c)
    end
  else Some c.

(** The first half of [cmdDisconnect]: the cache and the exposed channel are cleared before [cleanup]. *)
Definition hide (c : Connection) : Connection :=
  {| run := run c; cache := with_connected false (cache c); cmdChan := cmdChan c; sendChan := None; sendQueue := sendQueue c |}.

Inductive reply :=
  | RNone | RErr (e : option conn_error) | RBool (b : bool) | RAddr (a : bytes) | RChans (g : option nat) | RStr (s : string)
  | RTcp (a : option string) | RClone (c : Connection).

Definition set_meta (a : bytes) (t : string) (c : Connection) : Connection :=
  let r := run c in
  with_cache (with_meta a t (cache c)) (with_run
    {| address := a; cType := t; tcpConn := tcpConn r; connect := connect r; realConnAddr := realConnAddr r; chans := chans r;
       shutdownTimer := shutdownTimer r; running := running r; closed := closed r; fresh := fresh r |} c).
Definition set_addr (s : string) (c : Connection) : Connection :=
  let r := run c in
  with_cache (with_addr_str s (cache c)) (with_run
    {| address := address r; cType := cType r; tcpConn := tcpConn r; connect := connect r; realConnAddr := s; chans := chans r;
       shutdownTimer := shutdownTimer r; running := running r; closed := closed r; fresh := fresh r |} c).

Section Handle.
Variable SendChanSize : nat.

(** A command other than a disconnect, after the shutdown timer was stopped. *)
Definition handle_other (v : cmd) (c : Connection) : Connection * reply :=
  let r := run c in
  match v with
  | cmdInit a t => (set_meta a t c, RNone)
  | cmdSetAddr s => (set_addr s c, RNone)
  | cmdAccept tcp => (if connect r then c else startIO (RemoteAddr tcp) tcp c, RNone)
  | cmdConnect addr dial =>
      if connect r then (c, RErr None)
      else match dial with None => (c, RErr (Some ErrDial)) | Some tcp => (startIO addr tcp c, RErr None) end
  | cmdSendMessage m =>
      if negb (connect r) then (c, RErr (Some ErrDisconnected))
      else if decide (length (sendQueue c) < SendChanSize) then (with_queue (sendQueue c ++ [m]) c, RErr None)
      else (send_cmd cmdDisconnect c, RErr (Some ErrSendTimeout))
  | cmdClone => (c, RClone (SetRealConnAddr (realConnAddr r) (NewConnection (address r) (cType r))))
  | getIsConnect => (c, RBool (connect r))
  | getAddress => (c, RAddr (address r))
  | getChannels => (c, RChans (chans r))
  | getType => (c, RStr (cType r))
  | getRemoteAddr => (c, RStr (realConnAddr r))
  | getTCPAddr isLocal => (c, RTcp ((if isLocal then LocalAddr else RemoteAddr) <$> tcpConn r))
  | cmdDisconnect => (c, RNone)
  end.

(** One command, as [run] serves it.  [None] is a panic. *)
Definition handle (v : cmd) (c : Connection) : option (Connection * reply) :=
  match v with
  | cmdDisconnect => match cleanup (hide c) with Some c' => Some (with_run (with_timer true (run c')) c', RNone) | None => None end
  | _ => Some (handle_other v (with_run (with_timer false (run c)) c))
  end.

(** The goroutine takes the next command. *)
Inductive served := Idle | Panicked | Served (c : Connection) (r : reply).
Definition serve (c : Connection) : served :=
  if running (run c) then
    match cmdChan c with
    | [] => Idle
    | v :: l => match handle v (with_cmds l c) with Some (c', r) => Served c' r | None => Panicked end
    end
  else Idle.

(** [n] rounds; the last reply. *)
Fixpoint serve_n (n : nat) (c : Connection) : served :=
  match n with
  | 0 => Idle
  | 1 => serve c
  | S n => match serve c with Served c' _ => serve_n n c' | s => s end
  end.

(** The timer fires: [run] returns and serves no more commands. *)
Definition timer_fires (c : Connection) : Connection :=
  let r := run c in
  if shutdownTimer r && running r then
    with_run {| address := address r; cType := cType r; tcpConn := tcpConn r; connect := connect r; realConnAddr := realConnAddr r; chans := chans r;
                shutdownTimer := false; running := false; closed := closed r; fresh := fresh r |} c
  else c.

(** ** Calls that wait for an answer *)

(** [answered] says whether the answer comes before the caller's timeout; a command that was not
    answered in time stays queued. *)
Inductive answer := Full | NoReply | Crashed | Answer (r : reply).
Definition call (v : cmd) (answered : bool) (c : Connection) : Connection * answer :=
  let '(c1, queued) := post v c in
  if negb queued then (c1, Full)
  else if negb answered then (c1, NoReply)
  else match serve_n (length (cmdChan c1)) c1 with
       | Served c2 r => (c2, Answer r)
       | Panicked => (c1, Crashed)
       | Idle => (c1, NoReply)
       end.
(** Without a timeout the caller waits for ever when nothing serves the channel. *)
Definition blocking_call (v : cmd) (c : Connection) : Connection * answer :=
  let c1 := send_cmd v c in
  match serve_n (length (cmdChan c1)) c1 with
  | Served c2 r => (c2, Answer r)
  | Panicked => (c1, Crashed)
  | Idle => (c1, NoReply)
  end.

Definition RemoteAddrSafe (answered : bool) (c : Connection) : Connection * string :=
  if decide (cachedAddrStr (cache c) = EmptyString) then
    match call getRemoteAddr answered c with
    | (c', Answer (RStr s)) => (with_cache (with_addr_str s (cache c')) c', s)
    | (c', _) => (c', EmptyString)
    end
  else (c, cachedAddrStr (cache c)).

Definition ConnectionAddress (answered : bool) (c : Connection) : Connection * (string + conn_error) :=
  let '(c, s) := RemoteAddrSafe answered c in
  if decide (s = EmptyString) then (c, inr ErrNoAddress) else (c, inl s).

Definition GetType (answered : bool) (c : Connection) : Connection * string :=
  if decide (cachedType (cache c) = EmptyString) then
    match call getType answered c with
    | (c', Answer (RStr s)) => (with_cache (with_meta (cachedAddr (cache c')) s (cache c')) c', s)
    | (c', _) => (c', EmptyString)
    end
  else (c, cachedType (cache c)).

(** [stale] before the call: the cache is at least 100ms old; [still]: it is when the answer comes. *)
Definition Address (stale still answered : bool) (c : Connection) : Connection * bytes :=
  let addr := cachedAddr (cache c) in
  if negb stale then (c, addr)
  else match call getAddress answered c with
       | (c', Answer (RAddr a)) => (if still then with_cache (with_meta a (cachedType (cache c')) (cache c')) c' else c', a)
       | (c', _) => (c', addr)
       end.

Definition Connect (dial : option net_conn) (answered1 answered2 : bool) (c : Connection) : Connection * option conn_error :=
  let '(c, addr) := RemoteAddrSafe answered1 c in
  if decide (addr = EmptyString) then (c, Some ErrNoAddress)
  else match call (cmdConnect addr dial) answered2 c with
       | (c', Answer (RErr e)) => (c', e)
       | (c', Full) => (c', Some ErrCmdChanFull)
       | (c', _) => (c', Some ErrNoAnswer)
       end.

Definition RequestChan (c : Connection) : Connection * answer := blocking_call getChannels c.
Definition Clone (c : Connection) : Connection * answer := blocking_call cmdClone c.

(** [IsConnect] answers from the cache; a goroutine may refresh it later.  [stale]: the cache was not
    updated during the last half second. *)
Definition IsConnect (c : Connection) : bool := cachedConnected (cache c).
Definition refresh_connected (observed stale : bool) (c : Connection) : Connection :=
  if stale then with_cache (with_connected observed (cache c)) c else c.

(** ** Sending *)

(** [SendMessage] as a thread: the check, then up to three rounds of loading the exposed channel and
    sending into it.  A send into a closed channel panics; into a full one it times out, and after the
    third time a disconnect is queued. *)
Inductive send_thread := SCheck | SLoad (i : nat) | SSend (i g : nat) | SDone (e : option conn_error) | SPanic.

Definition send_step (m : pb_Message) (t : send_thread) (c : Connection) : send_thread * Connection :=
  let lost := with_cache (with_connected false (cache c)) c in
  match t with
  | SCheck => if IsConnect c then (SLoad 0, c) else (SDone (Some ErrDisconnected), c)
  | SLoad i =>
      match sendChan c with
      | None => if decide (i < 2) then (SLoad (S i), c) else (SDone (Some ErrDisconnected), lost)
      | Some g => (SSend i g, c)
      end
  | SSend i g =>
      if decide (g ∈ closed (run c)) then (SPanic, c)
      else if decide (chans (run c) = Some g ∧ length (sendQueue c) < SendChanSize) then (SDone None, with_queue (sendQueue c ++ [m]) c)
      else if decide (i < 2) then (SLoad (S i), c) else (SDone (Some ErrSendTimeout), send_cmd cmdDisconnect lost)
  | SDone e => (SDone e, c)
  | SPanic => (SPanic, c)
  end.

(** The thread run to its end without interference: at most the check and three rounds of two steps. *)
Definition SendMessage (m : pb_Message) (c : Connection) : send_thread * Connection :=
  Nat.iter 7 (λ '(t, c), send_step m t c) (SCheck, c).

(** ** Message sender *)

Definition getHeaderForCommand (uuid command : string) (toAddress : bytes) (version : string) : pb_Header :=
  {| h_Command := command; h_Pubkey := []; h_ToAddress := toAddress; h_Sign := []; h_Version := version; h_ID := uuid |}.
Definition generateMessage (uuid : string) (toAddress : bytes) (command : string) (body : bytes) (version : string) : pb_Message :=
  NewMessage (Some {| m_Header := Some (getHeaderForCommand uuid command toAddress version); m_Body := body |}).

(** [SendBytes] to a connection that may be nil; the address is the cached one. *)
Definition SendBytes (uuid version command : string) (b : bytes) (c : option Connection) : send_thread * option Connection :=
  match c with
  | None => (SDone (Some ErrNilConnection), None)
  | Some c => let '(t, c') := SendMessage (generateMessage uuid (Address false false false c).2 command b version) c in (t, Some c')
  end.

(** [BroadcastMessage]: every connection that is not nil, in some order; errors are only logged. *)
Fixpoint BroadcastMessage (uuid : nat → string) (version command : string) (b : bytes) (l : list (option Connection)) : list (option Connection) :=
  match l with
  | [] => []
  | c :: l => (SendBytes (uuid (length l)) version command b c).2 :: BroadcastMessage uuid version command b l
  end.
End Handle.
