(* ===== verification/ConnectionTheorems.v ===== *)
(** * Properties of the connection object

    The invariant of the goroutine's channels, what a send does when nothing interferes and the race
    it has otherwise, what a disconnect does, and the end of the goroutine. *)

From S2P Require Import Prelude GoLib Interfaces LevelDB Wire Connection.

Section ConnectionProofs.
Variable SendChanSize : nat.

(** ** The invariant *)

Record Inv (c : Connection) : Prop := {
  inv_closed g : g ∈ closed (run c) → g < fresh (run c);
  inv_chans g : chans (run c) = Some g → g < fresh (run c);
  inv_open : connect (run c) = true → ∃ g, chans (run c) = Some g ∧ (g ∉ closed (run c)) ∧ sendChan c = Some g;
  inv_exposed : sendChan c ≠ None → connect (run c) = true;
  inv_leak g : g < fresh (run c) → g ∈ closed (run c) ∨ (connect (run c) = true ∧ chans (run c) = Some g);
  inv_timer : shutdownTimer (run c) = true → connect (run c) = false;
  inv_running : running (run c) = false → connect (run c) = false;
  inv_queue : sendQueue c ≠ [] → connect (run c) = true;
}.

(** What the callers change leaves the invariant alone. *)
Lemma inv_same c c' : run c' = run c → sendChan c' = sendChan c → sendQueue c' = sendQueue c → Inv c → Inv c'.
Proof. intros Er Es Eq []. split; rewrite ?Er, ?Es, ?Eq; done. Qed.

Lemma inv_with_cache k c : Inv c → Inv (with_cache k c).
Proof. by apply inv_same. Qed.
Lemma inv_with_cmds l c : Inv c → Inv (with_cmds l c).
Proof. by apply inv_same. Qed.
Lemma inv_send_cmd v c : Inv c → Inv (send_cmd v c).
Proof. by apply inv_same. Qed.
Lemma inv_post v c : Inv c → Inv (post v c).1.
Proof. intros I. unfold post. case_decide; [by apply inv_with_cmds|done]. Qed.
Lemma inv_base : Inv newConnectionBase.
Proof. split; try done; simpl; intros; lia. Qed.

Lemma inv_append q c : sendChan c ≠ None → Inv c → Inv (with_queue q c).
Proof. intros Hs []. split; simpl; auto. Qed.

Lemma inv_stop_timer c : Inv c → Inv (with_run (with_timer false (run c)) c).
Proof. intros []. by split. Qed.

Lemma inv_start_timer c : connect (run c) = false → Inv c → Inv (with_run (with_timer true (run c)) c).
Proof. intros E []. by split. Qed.

Lemma inv_startIO s tcp c : connect (run c) = false → running (run c) = true → shutdownTimer (run c) = false → Inv c → Inv (startIO s tcp c).
Proof.
  intros E R T [Ic _ _ _ Il _ _ _]. split; simpl; try done.
  - intros g Hg. specialize (Ic g Hg). lia.
  - intros g [= <-]. lia.
  - intros _. exists (fresh (run c)). split_and!; [done| |done]. intros Hg. specialize (Ic _ Hg). lia.
  - intros g Hg. destruct (decide (g = fresh (run c))) as [->|]; [by right|]. destruct (Il g) as [|[? _]]; [lia|by left|congruence].
  - congruence.
  - congruence.
Qed.

Lemma cleanup_hide c : Inv c → ∃ c', cleanup (hide c) = Some c' ∧ Inv c' ∧ connect (run c') = false ∧ running (run c') = running (run c) ∧
  cmdChan c' = cmdChan c ∧ sendChan c' = None ∧ sendQueue c' = [] ∧ IsConnect c' = false.
Proof.
  intros [Ic Ih Io Ie Il It Ir Iq]. unfold cleanup. simpl. destruct (connect (run c)) eqn:E.
  - destruct (Io eq_refl) as (g & Eg & Hc & _). rewrite Eg. rewrite decide_False by done. eexists. split_and!; try done. split; simpl; try done.
    + intros g'. rewrite elem_of_union, elem_of_singleton. intros [->|H]; [by apply Ih|by apply Ic].
    + intros g' [= <-]. by apply Ih.
    + intros g' Hg'. left. destruct (Il g' Hg') as [|[_ E']]; [set_solver|]. rewrite Eg in E'. injection E' as ->. set_solver.
  - exists (hide c). assert (sendQueue c = []) as Q by (destruct (sendQueue c); [done|discriminate (Iq ltac:(done))]). split_and!; try done.
    split; simpl; try done; rewrite ?E, ?Q; try done.
Qed.

Lemma inv_handle v c : running (run c) = true → Inv c → ∃ c' r, handle SendChanSize v c = Some (c', r) ∧ Inv c'.
Proof.
  intros R I. pose proof (inv_stop_timer c I) as I'. unfold handle. destruct v; cbn [handle_other].
  3: { destruct (connect (run c)) eqn:E; simpl; rewrite E; eexists _, _; (split; [done|]); [done|]. by apply inv_startIO. }
  3: { destruct (connect (run c)) eqn:E; simpl; rewrite E; [by eexists _, _|]. destruct dial as [tcp|]; eexists _, _; (split; [done|]); [by apply inv_startIO|done]. }
  3: { destruct (connect (run c)) eqn:E; simpl; rewrite E; simpl; [|by eexists _, _]. case_decide; eexists _, _; (split; [done|]); [|by apply inv_send_cmd].
       apply inv_append; [|done]. destruct (inv_open _ I' E) as (g & _ & _ & Eg). simpl in *. by rewrite Eg. }
  3: { destruct (cleanup_hide c I) as (c' & -> & I2 & E & _). eexists _, _. split; [done|]. by apply inv_start_timer. }
  all: eexists _, _; split; [done|]; try done.
  all: destruct I' as []; split; simpl in *; done.
Qed.

Lemma inv_timer_fires c : Inv c → Inv (timer_fires c).
Proof.
  intros I. unfold timer_fires. destruct (shutdownTimer (run c)) eqn:E; [|done]. destruct (running (run c)) eqn:R; [|done].
  destruct I. split; simpl; auto.
Qed.

Lemma inv_send_step m t c : Inv c → Inv (send_step SendChanSize m t c).2.
Proof.
  intros I. destruct t as [|i|i g| |]; simpl; try done.
  - by destruct (IsConnect c).
  - destruct (sendChan c); [done|]. case_decide; [done|]. by apply inv_with_cache.
  - case_decide as Hc; [done|]. case_decide as H; simpl.
    + destruct H as [Eg _]. destruct (inv_leak c I g) as [|[E _]]; [by apply (inv_chans c)|done|]. apply inv_append; [|done].
      destruct (inv_open c I E) as (? & _ & _ & ->). done.
    + case_decide; [done|]. by apply inv_send_cmd, inv_with_cache.
Qed.

(** ** Runs *)

(** Anything that may happen: the goroutine serves a command or its timer fires, a caller queues any
    command, refreshes the cache, or takes a step of a send. *)
Inductive event :=
  | EServe | ETimer
  | EPost (v : cmd) | ESendCmd (v : cmd)
  | ECache (k : Cache)
  | ESender (m : pb_Message) (t : send_thread).

(** [None] is a panic of the goroutine. *)
Definition conn_step (e : event) (c : Connection) : option Connection :=
  match e with
  | EServe => match serve SendChanSize c with Served c' _ => Some c' | Idle => Some c | Panicked => None end
  | ETimer => Some (timer_fires c)
  | EPost v => Some (post v c).1
  | ESendCmd v => Some (send_cmd v c)
  | ECache k => Some (with_cache k c)
  | ESender m t => Some (send_step SendChanSize m t c).2
  end.

Fixpoint conn_run (es : list event) (c : Connection) : option Connection :=
  match es with [] => Some c | e :: es => conn_step e c ≫= conn_run es end.

Definition reachable (c : Connection) : Prop := ∃ es, conn_run es newConnectionBase = Some c.

Lemma inv_serve c : Inv c → match serve SendChanSize c with Served c' _ => Inv c' | Idle => True | Panicked => False end.
Proof.
  intros I. unfold serve. destruct (running (run c)) eqn:R; [|done]. destruct (cmdChan c) as [|v l]; [done|].
  destruct (inv_handle v (with_cmds l c)) as (c' & r & -> & I'); [done|by apply inv_with_cmds|done].
Qed.

Lemma inv_step e c : Inv c → ∃ c', conn_step e c = Some c' ∧ Inv c'.
Proof.
  intros I. destruct e; simpl; try (by eexists).
  - pose proof (inv_serve c I). destruct (serve SendChanSize c); [by eexists|done|by eexists].
  - eexists. split; [done|]. by apply inv_timer_fires.
  - eexists. split; [done|]. by apply inv_post.
  - eexists. split; [done|]. by apply inv_send_cmd.
  - eexists. split; [done|]. by apply inv_with_cache.
  - eexists. split; [done|]. by apply inv_send_step.
Qed.

Lemma inv_run es : ∀ c, Inv c → ∃ c', conn_run es c = Some c' ∧ Inv c'.
Proof.
  induction es as [|e es IH]; intros c I; [by eexists|]. destruct (inv_step e c I) as (c' & E & I'). simpl. rewrite E. by apply IH.
Qed.

Lemma reachable_inv c : reachable c → Inv c.
Proof. intros [es E]. destruct (inv_run es _ inv_base) as (c' & E' & I). congruence. Qed.

(** C30: However commands, timers, cache refreshes and sends interleave, the goroutine never closes a channel
    twice nor fails otherwise; the send channel is exposed exactly while connected, and it is the
    current, open one; and when not connected every channel ever made has been closed. *)
Theorem connection_channels es : ∃ c, conn_run es newConnectionBase = Some c ∧
  (connect (run c) = true ↔ sendChan c ≠ None) ∧
  (∀ g, sendChan c = Some g → chans (run c) = Some g ∧ g ∉ closed (run c)) ∧
  (connect (run c) = false → ∀ g, g < fresh (run c) → g ∈ closed (run c)) ∧
  (connect (run c) = false → sendQueue c = []).
Proof.
  destruct (inv_run es _ inv_base) as (c & E & I). exists c. split; [done|]. destruct I as [Ic Ih Io Ie Il It Ir Iq]. split_and!.
  - split; [|done]. intros H. destruct (Io H) as (g & _ & _ & ->). done.
  - intros g Hg. destruct Io as (g' & E1 & E2 & E3); [apply Ie; by rewrite Hg|]. rewrite Hg in E3. by injection E3 as ->.
  - intros H g Hg. destruct (Il g Hg) as [|[H' _]]; [done|congruence].
  - intros H. destruct (sendQueue c); [done|]. rewrite Iq in H; done.
Qed.

(** ** Sending *)

(** The outcome of a send that nothing interferes with. *)
Definition send_result (m : pb_Message) (c : Connection) : send_thread * Connection :=
  let lost := with_cache (with_connected false (cache c)) c in
  if negb (IsConnect c) then (SDone (Some ErrDisconnected), c)
  else if negb (connect (run c)) then (SDone (Some ErrDisconnected), lost)
  else if decide (length (sendQueue c) < SendChanSize) then (SDone None, with_queue (sendQueue c ++ [m]) c)
  else (SDone (Some ErrSendTimeout), send_cmd cmdDisconnect lost).

Lemma iter_step n m t c : Nat.iter (S n) (λ '(t, c), send_step SendChanSize m t c) (t, c) =
  Nat.iter n (λ '(t, c), send_step SendChanSize m t c) (send_step SendChanSize m t c).
Proof. by rewrite Nat.iter_succ_r. Qed.
Lemma iter_done n m e c : Nat.iter n (λ '(t, c), send_step SendChanSize m t c) (SDone e, c) = (SDone e, c).
Proof. induction n as [|n IH]; [done|]. by rewrite iter_step. Qed.

(** One round of the loop. *)
Lemma round_none n i m c : sendChan c = None → i < 2 →
  Nat.iter (S n) (λ '(t, c), send_step SendChanSize m t c) (SLoad i, c) = Nat.iter n (λ '(t, c), send_step SendChanSize m t c) (SLoad (S i), c).
Proof. intros E H. rewrite iter_step. simpl. by rewrite E, decide_True. Qed.
Lemma round_full n i g m c : sendChan c = Some g → g ∉ closed (run c) → ¬ length (sendQueue c) < SendChanSize → i < 2 →
  Nat.iter (S (S n)) (λ '(t, c), send_step SendChanSize m t c) (SLoad i, c) = Nat.iter n (λ '(t, c), send_step SendChanSize m t c) (SLoad (S i), c).
Proof.
  intros E Hg Hq H. rewrite iter_step. unfold send_step at 2. rewrite E, iter_step. unfold send_step at 2.
  rewrite decide_False, decide_False, decide_True by (done || by intros [_ ?]). done.
Qed.

Lemma send_message_result m c : Inv c → SendMessage SendChanSize m c = send_result m c.
Proof.
  intros I. unfold SendMessage, send_result. rewrite iter_step. unfold send_step at 2. destruct (IsConnect c) eqn:Ek; [|apply iter_done]. cbn [negb].
  destruct (connect (run c)) eqn:E; cbn [negb].
  - destruct (inv_open c I E) as (g & Eg & Hg & Es). destruct (decide (length (sendQueue c) < SendChanSize)) as [H|H].
    + rewrite iter_step. unfold send_step at 2. rewrite Es, iter_step. unfold send_step at 2. rewrite decide_False, decide_True by done. apply iter_done.
    + rewrite !(round_full _ _ g) by (done || lia). rewrite iter_step. unfold send_step at 2. rewrite Es, iter_step. unfold send_step at 2.
      rewrite decide_False, decide_False by (done || by intros [_ ?]). apply iter_done.
  - assert (sendChan c = None) as Es by (destruct (sendChan c) eqn:Es; [rewrite (inv_exposed c I) in E; [done|by rewrite Es]|done]).
    rewrite !round_none by (done || lia). rewrite iter_step. unfold send_step at 2. rewrite Es. apply iter_done.
Qed.

(** A send that nothing interferes with never panics: it fails when the cached status or the connection
    is down, queues the message last when there is room, and otherwise times out, clears the cached
    status and queues a disconnect. *)
Theorem send_uninterrupted m c : reachable c → SendMessage SendChanSize m c = send_result m c.
Proof. intros R. by apply send_message_result, reachable_inv. Qed.

(** A disconnect served between the load of the send channel and the send into it makes the sender
    panic, in every connected state. *)
Theorem send_on_closed_channel m c : reachable c → IsConnect c = true → connect (run c) = true →
  ∃ t c' r, t = (send_step SendChanSize m (send_step SendChanSize m SCheck c).1 c).1 ∧
    handle SendChanSize cmdDisconnect c = Some (c', r) ∧ (send_step SendChanSize m t c').1 = SPanic.
Proof.
  intros R K E. pose proof (reachable_inv c R) as I. destruct (inv_open c I E) as (g & Eg & Hg & Es). simpl. rewrite K. simpl. rewrite Es.
  unfold cleanup. simpl. rewrite E, Eg, decide_False by done. eexists _, _, _. split_and!; [done|done|]. simpl. rewrite decide_True by set_solver. done.
Qed.

(** ** Disconnecting *)

Lemma handle_running v c c' r : handle SendChanSize v c = Some (c', r) → running (run c') = running (run c) ∧ cmdChan c `prefix_of` cmdChan c'.
Proof.
  unfold handle. assert (∀ l : list cmd, l `prefix_of` l) by done. destruct v; cbn [handle_other]; intros [= E]; simpl in *; simplify_eq; try done.
  - destruct (connect (run c)); by simplify_eq.
  - destruct (connect (run c)); [by simplify_eq|]. destruct dial; by simplify_eq.
  - destruct (connect (run c)); simpl in *; [|by simplify_eq]. case_decide; simplify_eq; [done|]. split; [done|]. by apply prefix_app_r.
  - unfold cleanup in E. simpl in E. destruct (connect (run c)); [|by simplify_eq]. destruct (chans (run c)); [|by simplify_eq].
    case_decide; by simplify_eq.
Qed.

(** The command behind a queue is served after as many rounds. *)
Lemma serve_behind l v : ∀ c rest, Inv c → running (run c) = true → cmdChan c = l ++ v :: rest →
  ∃ c1 c2 r, Inv c1 ∧ running (run c1) = true ∧ handle SendChanSize v c1 = Some (c2, r) ∧ Inv c2 ∧ serve_n SendChanSize (S (length l)) c = Served c2 r.
Proof.
  induction l as [|w l IH]; intros c rest I R E.
  - simpl. unfold serve. rewrite R, E. simpl. pose proof (inv_with_cmds rest c I) as I1.
    destruct (inv_handle v (with_cmds rest c)) as (c2 & r & E2 & I2); [done..|]. exists (with_cmds rest c), c2, r. by rewrite E2.
  - destruct (inv_handle w (with_cmds (l ++ v :: rest) c)) as (c' & r' & E' & I'); [done|by apply inv_with_cmds|].
    destruct (handle_running _ _ _ _ E') as [R' [k P]]. simpl in P. rewrite <- app_assoc in P. simpl in P.
    destruct (IH c' (rest ++ k) I') as (c1 & c2 & r & ? & ? & ? & ? & Es); [by rewrite R'|done|].
    exists c1, c2, r. split_and!; try done. change (length (w :: l)) with (S (length l)). cbn [serve_n]. unfold serve at 1. rewrite R, E. simpl app. cbn [app]. rewrite E'. done.
Qed.

Lemma handle_disconnect c : Inv c → ∃ c', handle SendChanSize cmdDisconnect c = Some (c', RNone) ∧
  connect (run c') = false ∧ sendChan c' = None ∧ sendQueue c' = [] ∧ IsConnect c' = false ∧ shutdownTimer (run c') = true.
Proof. intros I. unfold handle. destruct (cleanup_hide c I) as (c' & -> & _ & ? & _ & _ & ? & ? & ?). eexists. split; [done|]. done. Qed.

(** [Disconnect] reports success either way: with room in the command channel the connection is down,
    its channels hidden and its shutdown timer started once the queue was served; with a full channel
    nothing happens at all. *)
Theorem disconnect_best_effort c : reachable c → running (run c) = true →
  (length (cmdChan c) < cmdChanSize → ∃ c' r, (Disconnect c).2 = None ∧
     serve_n SendChanSize (S (length (cmdChan c))) (Disconnect c).1 = Served c' r ∧
     connect (run c') = false ∧ sendChan c' = None ∧ sendQueue c' = [] ∧ IsConnect c' = false ∧ shutdownTimer (run c') = true) ∧
  (cmdChanSize ≤ length (cmdChan c) → Disconnect c = (c, None)).
Proof.
  intros Rc R. pose proof (reachable_inv c Rc) as I. unfold Disconnect, post. split; intros H.
  - rewrite decide_True by done. cbn [fst]. destruct (serve_behind (cmdChan c) cmdDisconnect (with_cmds (cmdChan c ++ [cmdDisconnect]) c) []) as (c1 & c2 & r & I1 & R1 & E & I2 & Es).
    { by apply inv_with_cmds. } { done. } { done. }
    destruct (handle_disconnect c1 I1) as (c' & E' & P). rewrite E' in E. injection E as <- <-. exists c', RNone. split_and!; [done|exact Es|apply P..].
  - rewrite decide_False by lia. done.
Qed.

(** ** The end of the goroutine *)

Lemma stopped_step e c : running (run c) = false → ∃ c', conn_step e c = Some c' ∧ running (run c') = false.
Proof.
  intros R. destruct e; simpl; unfold serve, post, timer_fires; rewrite ?R, ?andb_false_r; try (by eexists).
  - case_decide; by eexists.
  - eexists. split; [done|]. destruct t; simpl; try done.
    + by destruct (IsConnect c).
    + destruct (sendChan c); [done|]. by case_decide.
    + do 3 (case_decide; [done|]). done.
Qed.

Lemma stopped_run es : ∀ c, Inv c → running (run c) = false → ∃ c', conn_run es c = Some c' ∧ Inv c' ∧ running (run c') = false.
Proof.
  induction es as [|e es IH]; intros c I R; [by eexists|]. destruct (stopped_step e c R) as (c' & E & R'). destruct (inv_step e c I) as (c2 & E2 & I').
  simpl. rewrite E. apply IH; [congruence|done].
Qed.

Lemma serve_stopped n c : running (run c) = false → serve_n SendChanSize n c = Idle.
Proof. intros R. destruct n as [|[|n]]; [done|simpl; unfold serve; by rewrite R..]. Qed.

Lemma call_stopped v b c : running (run c) = false →
  running (run (call SendChanSize v b c).1) = false ∧ ∀ r, (call SendChanSize v b c).2 ≠ Answer r.
Proof.
  intros R. unfold call, post. case_decide; simpl; [|done]. destruct b; simpl; [|done]. rewrite serve_stopped by done. done.
Qed.

Lemma connect_stopped dial b1 b2 c : running (run c) = false → (Connect SendChanSize dial b1 b2 c).2 ≠ None.
Proof.
  intros R. unfold Connect. destruct (RemoteAddrSafe SendChanSize b1 c) as [c1 addr] eqn:E. assert (running (run c1) = false) as R1.
  { unfold RemoteAddrSafe in E. case_decide; [|by simplify_eq]. destruct (call_stopped getRemoteAddr b1 c R) as [Rc Na].
    destruct (call SendChanSize getRemoteAddr b1 c) as [c' [| | |[]]]; simplify_eq; done. }
  case_decide; [done|]. destruct (call_stopped (cmdConnect addr dial) b2 c1 R1) as [_ Na].
  destruct (call SendChanSize (cmdConnect addr dial) b2 c1) as [c' [| | |r]]; try done. by destruct (Na r).
Qed.

(** Once the timer after a disconnect has fired the connection is dead for ever: whatever happens,
    [Connect] fails, sends fail, and [RequestChan] and [Clone], which have no timeout, get no answer. *)
Theorem no_life_after_shutdown c es : reachable c → shutdownTimer (run c) = true → running (run c) = true →
  ∃ c', conn_run es (timer_fires c) = Some c' ∧ (∀ dial b1 b2, (Connect SendChanSize dial b1 b2 c').2 ≠ None) ∧
    (∀ m, (SendMessage SendChanSize m c').1 = SDone (Some ErrDisconnected)) ∧
    (RequestChan SendChanSize c').2 = NoReply ∧ (Clone SendChanSize c').2 = NoReply.
Proof.
  intros Rc T R. destruct (stopped_run es (timer_fires c)) as (c' & E & I & R').
  { by apply inv_timer_fires, reachable_inv. } { unfold timer_fires. by rewrite T, R. }
  exists c'. split_and!; [done|intros; by apply connect_stopped| | |].
  - intros m. rewrite send_message_result by done. unfold send_result. rewrite (inv_running c' I R'). by destruct (IsConnect c').
  - unfold RequestChan, blocking_call. by rewrite serve_stopped.
  - unfold Clone, blocking_call. by rewrite serve_stopped.
Qed.

(** ** From the sender to the peer *)

(** Successive [SendBytes]. *)
Fixpoint send_all (version : string) (l : list (string * string * bytes)) (c : Connection) : list send_thread * Connection :=
  match l with
  | [] => ([], c)
  | (uuid, command, b) :: l =>
      match SendBytes SendChanSize uuid version command b (Some c) with
      | (t, Some c') => let '(ts, c2) := send_all version l c' in (t :: ts, c2)
      | (t, None) => ([t], c)
      end
  end.

Definition message_of (version : string) (to : bytes) (x : string * string * bytes) : pb_Message :=
  let '(uuid, command, b) := x in generateMessage uuid to command b version.

Lemma send_all_queued version l : ∀ c, Inv c → IsConnect c = true → connect (run c) = true → length (sendQueue c) + length l ≤ SendChanSize →
  send_all version l c = (replicate (length l) (SDone None), with_queue (sendQueue c ++ (message_of version (cachedAddr (cache c)) <$> l)) c).
Proof.
  induction l as [|[[uuid command] b] l IH]; intros c I K E Hl.
  - simpl. rewrite app_nil_r. by destruct c.
  - cbn [send_all SendBytes length replicate fmap list_fmap]. cbn [length] in Hl. unfold Address. cbn [negb snd]. rewrite send_message_result by done. unfold send_result. rewrite K, E. cbn [negb].
    rewrite decide_True by lia. rewrite IH; [|apply inv_append; [|done]|done|done|].
    + simpl. rewrite <- app_assoc. done.
    + destruct (inv_open c I E) as (g & _ & _ & ->). done.
    + simpl. rewrite length_app. simpl. lia.
Qed.

Context `{ProtoLaws pb_Message}.
Hypothesis default_has_no_header : m_Header (proto_default : pb_Message) = None.

End ConnectionProofs.

(** ** Concrete runs *)

Module ConnectionExample.
Import WireExample.

Definition peer : net_conn := {| LocalAddr := "10.0.0.1:9"; RemoteAddr := "10.0.0.2:9" |}.
Definition events : list event := [EPost (cmdInit (zeros 20) "client"); EPost (cmdSetAddr "10.0.0.2:9"); EPost (cmdConnect "10.0.0.2:9" (Some peer)); EServe; EServe; EServe].
Definition up : Connection := default newConnectionBase (conn_run 4 events newConnectionBase).
Definition down : Connection := default newConnectionBase (conn_run 4 (events ++ [EPost cmdDisconnect; EServe]) newConnectionBase).

Lemma up_reachable : reachable 4 up.
Proof. exists events. vm_compute. done. Qed.
Lemma down_reachable : reachable 4 down.
Proof. exists (events ++ [EPost cmdDisconnect; EServe]). vm_compute. done. Qed.

Lemma send_uninterrupted_witness : (SendMessage 4 hello up).1 = SDone None ∧ sendQueue (SendMessage 4 hello up).2 = [hello].
Proof. rewrite (send_uninterrupted 4 hello up up_reachable). vm_compute. done. Defined.

Lemma send_on_closed_channel_witness : ∃ t c' r, t = SSend 0 0 ∧ handle 4 cmdDisconnect up = Some (c', r) ∧ (send_step 4 hello t c').1 = SPanic.
Proof. destruct (send_on_closed_channel 4 hello up up_reachable) as (t & c' & r & E & H); [vm_compute; done..|]. exists t, c', r. split; [rewrite E; vm_compute; done|exact H]. Defined.

Lemma disconnect_best_effort_witness : ∃ c' r, serve_n 4 1 (Disconnect up).1 = Served c' r ∧ connect (run c') = false.
Proof.
  destruct (disconnect_best_effort 4 up up_reachable) as [H _]; [vm_compute; done|]. destruct H as (c' & r & _ & E & C & _); [vm_compute; lia|].
  exists c', r. split; [exact E|exact C].
Defined.

Lemma no_life_after_shutdown_witness : ∃ c', conn_run 4 [EPost (cmdConnect "10.0.0.2:9" (Some peer)); EServe] (timer_fires down) = Some c' ∧ (Clone 4 c').2 = NoReply.
Proof.
  destruct (no_life_after_shutdown 4 down [EPost (cmdConnect "10.0.0.2:9" (Some peer)); EServe] down_reachable) as (c' & E & _ & _ & _ & H); [vm_compute; done..|].
  exists c'. split; [exact E|exact H].
Defined.

Definition letters : list (string * string * bytes) := [("id1", "Ping", []); ("id2", "Data", [Byte.x05; Byte.x06])].
End ConnectionExample.
