(* ===== verification/SocketServer.v ===== *)
(** * The socket server and its request handler ([pkg/network/server.go], [pkg/network/handler.go])

    A handler dispatches a message to the route of its command and counts the requests.  The server
    funnels the requests of every connection into one bounded channel that a pool of workers empties.
    Go's [select] takes any of the cases that are ready: the choice is an argument of the step
    functions, so that a statement for all choices covers every schedule. *)

From S2P Require Import Prelude GoLib LevelDB Wire Connection ConnectionTheorems.

Definition ServerBusy : string := "ServerBusy".
Definition InitConnection : string := "InitConnection".

(** ** Handler *)

Inductive handle_error {E : Type} := ErrInvalidRequest | ErrNoCommand (cmd : string) | ErrRoute (e : E).
Arguments handle_error : clear implicits.

Section Handler.
Context {St E : Type}.
Definition route := pb_Message → St → option E * St.

Record Handler := { routes : gmap string route; counts : gmap string Z }.

Definition handleServerBusy : route := λ _ s, (None, s).

(** [NewHandler]: a nil map of routes becomes an empty one; [ServerBusy] gets a default route. *)
Definition NewHandler (rs : option (gmap string route)) : Handler :=
  let rs := default ∅ rs in
  {| routes := match rs !! ServerBusy with Some _ => rs | None => <[ServerBusy := handleServerBusy]> rs end; counts := ∅ |}.

(** [HandleRequest]: the request or its message may be nil; the counter is an [int64]. *)
Definition HandleRequest (r : option pb_Message) (h : Handler) (s : St) : option (handle_error E) * Handler * St :=
  match r with
  | None => (Some ErrInvalidRequest, h, s)
  | Some m =>
      let cmd := Command m in
      let h := {| routes := routes h; counts := <[cmd := i64 (default 0 (counts h !! cmd) + 1)%Z]> (counts h) |} in
      match routes h !! cmd with
      | None => (Some (ErrNoCommand cmd), h, s)
      | Some f => let '(e, s) := f m s in (ErrRoute <$> e, h, s)
      end
  end.

(** One tick of [logTPS]; [enough]: at least 50ms have passed since the last report. *)
Definition logTPS (enough : bool) (h : Handler) : Handler :=
  if enough then {| routes := routes h; counts := ∅ |} else h.

(** The requests a worker takes one after the other; errors are only logged. *)
Fixpoint work (l : list pb_Message) (h : Handler) (s : St) : Handler * St :=
  match l with
  | [] => (h, s)
  | m :: l => let '(_, h, s) := HandleRequest (Some m) h s in work l h s
  end.
End Handler.
Arguments Handler : clear implicits.
Arguments route : clear implicits.

(** ** The connection loop *)

(** [ctxDone] and [stopped] (the central channel was closed) belong to the server; the rest to the
    connection: its request and error channels with what waits in them, and the connection itself, to
    which [ServerBusy] replies and the final disconnect go. *)
Record loop_state := {
  ctxDone : bool; stopped : bool; queue : list pb_Message;
  reqs : list (option pb_Message); reqsClosed : bool;
  errs : list read_end; errsClosed : bool;
  busy : nat;   (** the number of requests refused with [ServerBusy] *)
  conn : Connection;
}.

Inductive choice := CDone | CRequest | CError.
Inductive loop_exit := ExitContext | ExitRequestsClosed | ExitErrorsClosed | ExitError (e : read_end) | ExitPanic.

#[export] Instance read_end_eq : EqDecision read_end.
Proof. solve_decision. Defined.
#[export] Instance loop_exit_eq : EqDecision loop_exit.
Proof. solve_decision. Defined.

Definition with_reqs (r : list (option pb_Message)) (q : list pb_Message) (b : nat) (s : loop_state) : loop_state :=
  {| ctxDone := ctxDone s; stopped := stopped s; queue := q; reqs := r; reqsClosed := reqsClosed s; errs := errs s; errsClosed := errsClosed s; busy := b; conn := conn s |}.
Definition with_conn (c : Connection) (s : loop_state) : loop_state :=
  {| ctxDone := ctxDone s; stopped := stopped s; queue := queue s; reqs := reqs s; reqsClosed := reqsClosed s; errs := errs s; errsClosed := errsClosed s; busy := busy s; conn := c |}.

Section Loop.
(** The send channel's and the central channel's capacity, the protocol version and the identifiers of
    the replies. *)
Context (SendChanSize cap : nat) (version : string) (uuid : nat → string).

(** The reply to a request that finds the central channel full; its error is ignored. *)
Definition send_busy (s : loop_state) : loop_state :=
  with_conn (SendMessage SendChanSize (generateMessage (uuid (busy s)) (Address SendChanSize false false false (conn s)).2 ServerBusy [] version) (conn s)).2 s.

(** One round of [HandleConnection].  [None]: the chosen case is not ready.  Sending into the closed
    central channel panics, [default] case or not. *)
Definition loop_step (k : choice) (s : loop_state) : option (loop_state * option loop_exit) :=
  match k with
  | CDone => if ctxDone s then Some (s, Some ExitContext) else None
  | CRequest =>
      match reqs s with
      | [] => if reqsClosed s then Some (s, Some ExitRequestsClosed) else None
      | None :: r => Some (with_reqs r (queue s) (busy s) s, None)
      | Some m :: r =>
          if stopped s then Some (with_reqs r (queue s) (busy s) s, Some ExitPanic)
          else if decide (length (queue s) < cap) then Some (with_reqs r (queue s ++ [m]) (busy s) s, None)
          else Some (send_busy (with_reqs r (queue s) (S (busy s)) s), None)
      end
  | CError =>
      match errs s with
      | [] => if errsClosed s then Some (s, Some ExitErrorsClosed) else None
      | e :: _ => Some (s, Some (ExitError e))
      end
  end.

(** [HandleConnection] under a schedule; choices that are not ready are skipped.  It ends with the exit
    reason, having disconnected the connection, or with [None] when the schedule ends first. *)
Fixpoint HandleConnection (ks : list choice) (s : loop_state) : loop_state * option loop_exit :=
  match ks with
  | [] => (s, None)
  | k :: ks =>
      match loop_step k s with
      | None => HandleConnection ks s
      | Some (s', Some x) => (with_conn (Disconnect (conn s')).1 s', Some x)
      | Some (s', None) => HandleConnection ks s'
      end
  end.
End Loop.

(** [Stop]: the context is cancelled and the central channel closed. *)
Definition Stop (s : loop_state) : loop_state :=
  {| ctxDone := true; stopped := true; queue := queue s; reqs := reqs s; reqsClosed := reqsClosed s; errs := errs s; errsClosed := errsClosed s; busy := busy s; conn := conn s |}.

(** A worker of the pool: [true] takes the request case, [false] the context case. *)
Fixpoint worker {St E} (ks : list bool) (s : loop_state) (h : Handler St E) (st : St) : loop_state * Handler St E * St * bool :=
  match ks with
  | [] => (s, h, st, false)
  | false :: ks => if ctxDone s then (s, h, st, true) else worker ks s h st
  | true :: ks =>
      match queue s with
      | [] => if stopped s then (s, h, st, true) else worker ks s h st
      | m :: q => let '(_, h, st) := HandleRequest (Some m) h st in worker ks (with_reqs (reqs s) q (busy s) s) h st
      end
  end.

(** ** Connecting *)

(** The body of the [InitConnection] message is the address of the parent, or else of the key pair. *)
Definition init_address (parent : option bytes) (keyPair : bytes) : bytes := default keyPair parent.

(** [OnConnect], its first message; [marshal] is the protobuf of (address, node type, replace). *)
Definition OnConnect (SendChanSize : nat) (marshal : bytes → string → bool → bytes) (uuid version nodeType : string)
    (parent : option bytes) (keyPair : bytes) (c : Connection) : send_thread * Connection :=
  match SendBytes SendChanSize uuid version InitConnection (marshal (init_address parent keyPair) nodeType true) (Some c) with
  | (t, Some c') => (t, c')
  | (t, None) => (t, c)
  end.

(** [RetryConnectToParent] after the clone: one attempt per element, with the state of the context before
    it, the outcome of its dial, whether it was answered in time, and the context while waiting.  It
    returns the connection and whether it is up; the connection that is up then becomes the parent, sends
    its first message ([OnConnect]) and is handled ([HandleConnection]). *)
Fixpoint retry_loop (SendChanSize : nat) (l : list (bool * option net_conn * bool * bool)) (c : Connection) : Connection * bool :=
  match l with
  | [] => (c, false)
  | (done1, dial, answered, done2) :: l =>
      if (done1 : bool) then (c, false)
      else match Connect SendChanSize dial answered answered c with
           | (c', None) => (c', true)
           | (c', Some _) => if (done2 : bool) then (c', false) else retry_loop SendChanSize l c'
           end
  end.

(** The clone is asked of the disconnected connection; [None] when it never comes. *)
Definition RetryConnectToParent (SendChanSize : nat) (l : list (bool * option net_conn * bool * bool)) (parent : Connection) : option (Connection * bool) :=
  match Clone SendChanSize parent with
  | (_, Answer (RClone c)) => Some (retry_loop SendChanSize l c)
  | _ => None
  end.

(** * Properties of the socket server and its handler

    Dispatch and counting, what the connection loop does with every request under every schedule, what
    is lost when a peer closes or the server stops, and the reconnection to the parent. *)

(** ** Dispatch *)

Section HandlerProofs.
Context {St E : Type}.
Implicit Types (h : Handler St E) (s : St) (rs : gmap string (route St E)).

(** A new handler always has a route for [ServerBusy] and keeps the routes it was given; a request runs
    the route of its command and returns its error, a command without a route is an error and changes
    nothing but its counter, a nil request is an error and changes nothing. *)
Theorem handler_dispatch rs s : let h := NewHandler (Some rs) in
  is_Some (routes h !! ServerBusy) ∧ (∀ c f, rs !! c = Some f → routes h !! c = Some f) ∧
  HandleRequest None h s = (Some ErrInvalidRequest, h, s) ∧
  ∀ h' m, routes h' = routes h →
    (HandleRequest (Some m) h' s).1.1 =
      match routes h !! Command m with None => Some (ErrNoCommand (Command m)) | Some f => ErrRoute <$> (f m s).1 end ∧
    (HandleRequest (Some m) h' s).2 = match routes h !! Command m with None => s | Some f => (f m s).2 end ∧
    routes (HandleRequest (Some m) h' s).1.2 = routes h.
Proof.
  cbv zeta. split_and!.
  - unfold NewHandler. simpl. destruct (rs !! ServerBusy) eqn:E0; [by eexists|]. rewrite lookup_insert_eq. by eexists.
  - intros c f Hc. unfold NewHandler. simpl. destruct (rs !! ServerBusy) eqn:E0; [done|]. rewrite lookup_insert_ne by congruence. done.
  - done.
  - intros h' m Hr. unfold HandleRequest. cbn [routes]. rewrite Hr. destruct (routes (NewHandler (Some rs)) !! Command m) as [f|] eqn:Ef; [|done].
    by destruct (f m s).
Qed.

Definition occurrences (c : string) (l : list pb_Message) : nat := length (filter (λ m, Command m = c) l).

Lemma handle_counts m h s c : counts (HandleRequest (Some m) h s).1.2 !! c =
  if decide (Command m = c) then Some (i64 (default 0 (counts h !! c) + 1)%Z) else counts h !! c.
Proof.
  assert (counts (HandleRequest (Some m) h s).1.2 = <[Command m := i64 (default 0 (counts h !! Command m) + 1)%Z]> (counts h)) as ->.
  { unfold HandleRequest. cbn [routes]. destruct (routes h !! Command m) as [f|]; [|done]. by destruct (f m s). }
  case_decide as D; [subst; by rewrite lookup_insert_eq|by rewrite lookup_insert_ne].
Qed.

(** Between two reports the counter of a command is the number of its requests, whatever their routes
    returned. *)
Theorem work_counts l : ∀ h s c, (0 ≤ default 0 (counts h !! c))%Z → (default 0 (counts h !! c) + Z.of_nat (length l) < 2 ^ 63)%Z →
  default 0%Z (counts (work l h s).1 !! c) = (default 0 (counts h !! c) + Z.of_nat (occurrences c l))%Z ∧
  counts (logTPS true (work l h s).1) = ∅.
Proof.
  induction l as [|m l IH]; intros h s c H0 Hb; [split; [simpl; unfold occurrences; simpl; lia|done]|]. cbn [work].
  destruct (HandleRequest (Some m) h s) as [[e h'] s'] eqn:Eh. pose proof (handle_counts m h s c) as Hc. rewrite Eh in Hc. simpl in Hc. split; [|done].
  cbn [length] in Hb. unfold occurrences in *. rewrite filter_cons. case_decide as D; cbn [length].
  - rewrite i64_small in Hc by lia. destruct (IH h' s' c) as [-> _]; rewrite ?Hc; simpl; lia.
  - destruct (IH h' s' c) as [-> _]; rewrite ?Hc; lia.
Qed.
End HandlerProofs.

(** ** The connection loop *)

Section LoopProofs.
Context (size cap : nat) (version : string) (uuid : nat → string).
Abbreviation loop_step := (loop_step size cap version uuid).
Abbreviation HandleConnection := (HandleConnection size cap version uuid).

(** What the loop did between two states: the requests taken, the ones forwarded, the exit. *)
Definition funnelled (s s' : loop_state) (x : option loop_exit) (taken : list (option pb_Message)) (fwd : list pb_Message) : Prop :=
  reqs s = taken ++ reqs s' ∧ queue s' = queue s ++ fwd ∧ fwd `sublist_of` omap id taken ∧
  length fwd + (busy s' - busy s) + (if decide (x = Some ExitPanic) then 1 else 0) = length (omap id taken) ∧ busy s ≤ busy s' ∧
  length (queue s') ≤ cap `max` length (queue s) ∧ (x = Some ExitPanic → stopped s = true).

Lemma loop_step_effect k s s' x : loop_step k s = Some (s', x) →
  stopped s' = stopped s ∧ ∃ taken fwd, funnelled s s' x taken fwd.
Proof.
  assert (x ≠ Some ExitPanic → s = s' → stopped s' = stopped s ∧ ∃ taken fwd, funnelled s s' x taken fwd) as Same.
  { intros Hy <-. split; [done|]. exists [], []. unfold funnelled. rewrite decide_False, app_nil_r by done. simpl. split_and!; try done; lia. }
  unfold loop_step. destruct k.
  - destruct (ctxDone s); [|done]. intros [= <- <-]. by apply Same.
  - destruct (reqs s) as [|[m|] r] eqn:Er.
    + destruct (reqsClosed s); [|done]. intros [= <- <-]. by apply Same.
    + destruct (stopped s) eqn:Es.
      { intros [= <- <-]. split; [done|]. exists [Some m], []. unfold funnelled. rewrite Er. simpl. rewrite app_nil_r. split_and!; try done; [apply sublist_nil_l|lia..]. }
      case_decide; intros [= <- <-].
      * split; [done|]. exists [Some m], [m]. unfold funnelled. rewrite Er. simpl. rewrite length_app. simpl. split_and!; try done; lia.
      * split; [done|]. exists [Some m], []. unfold funnelled. rewrite Er. simpl. rewrite app_nil_r. split_and!; try done; [apply sublist_nil_l|lia..].
    + intros [= <- <-]. split; [done|]. exists [None], []. unfold funnelled. rewrite Er. simpl. rewrite app_nil_r. split_and!; try done; lia.
  - destruct (errs s) as [|e l].
    + destruct (errsClosed s); [|done]. intros [= <- <-]. by apply Same.
    + intros [= <- <-]. by apply Same.
Qed.

Lemma omap_id_app (l k : list (option pb_Message)) : omap id (l ++ k) = omap id l ++ omap id k.
Proof. apply omap_app. Qed.


Lemma funnel_all l : ∀ s, stopped s = false → reqs s = Some <$> l → length (queue s) + length l ≤ cap →
  HandleConnection (replicate (length l) CRequest ++ [CError]) s =
  HandleConnection [CError] (with_reqs [] (queue s ++ l) (busy s) s).
Proof.
  induction l as [|m l IH]; intros s Hs Hr Hc.
  - simpl. rewrite app_nil_r. assert (with_reqs [] (queue s) (busy s) s = s) as -> by (rewrite fmap_nil in Hr; destruct s; simpl in *; by subst). done.
  - cbn [length replicate app HandleConnection]. cbn [length] in Hc. unfold loop_step at 1. rewrite Hr. cbn [fmap list_fmap]. rewrite Hs.
    rewrite decide_True by lia. rewrite IH; [|done|done|simpl; rewrite length_app; simpl; lia]. simpl. by rewrite <- app_assoc.
Qed.

(** A peer that sends requests and closes leaves both channels ready: the schedule that forwards every
    request first and the one that leaves at once, dropping all of them, are both possible. *)
Theorem closing_peer_loses_requests s l e rest : stopped s = false → reqs s = Some <$> l → errs s = e :: rest →
  length (queue s) + length l ≤ cap →
  (let '(s', x) := HandleConnection (replicate (length l) CRequest ++ [CError]) s in queue s' = queue s ++ l ∧ x = Some (ExitError e)) ∧
  (let '(s', x) := HandleConnection [CError] s in queue s' = queue s ∧ x = Some (ExitError e)).
Proof.
  intros Hs Hr He Hc. split.
  - rewrite funnel_all by done. simpl. rewrite He. done.
  - simpl. rewrite He. done.
Qed.

(** After [Stop] a connection whose next request is taken before it notices the cancelled context
    panics, and a worker may leave without the requests still queued. *)
Theorem stop_hazards {St E} s m r (h : Handler St E) (st : St) : reqs s = Some m :: r →
  (HandleConnection [CRequest] (Stop s)).2 = Some ExitPanic ∧ (HandleConnection [CDone] (Stop s)).2 = Some ExitContext ∧
  worker [false] (Stop s) h st = (Stop s, h, st, true).
Proof. intros Hr. unfold HandleConnection. simpl. rewrite Hr. done. Qed.

End LoopProofs.

(** A worker that keeps choosing requests processes exactly the queue, in order. *)
Theorem worker_drains {St E} (q : list pb_Message) : ∀ s (h : Handler St E) (st : St), queue s = q →
  let '(s', h', st', exited) := worker (replicate (length q) true) s h st in
  queue s' = [] ∧ exited = false ∧ (h', st') = work q h st.
Proof.
  induction q as [|m q IH]; intros s h st Hq; [done|]. cbn [length replicate worker work]. rewrite Hq.
  destruct (HandleRequest (Some m) h st) as [[e h1] st1]. apply (IH (with_reqs (reqs s) q (busy s) s)). done.
Qed.

(** ** Connecting *)

(** The first message of an accepted connection is refused until the connection's goroutine has served
    the accept, and queued afterwards: a race between the two goroutines decides. *)
Theorem init_message_race n marshal uuid version nodeType parent keyPair tcp : 0 < n →
  ∃ c, ConnectionFromTcpConnection (Some tcp) = Some c ∧
    (OnConnect n marshal uuid version nodeType parent keyPair c).1 = SDone (Some ErrDisconnected) ∧
    ∃ c' r, serve n c = Served c' r ∧ (OnConnect n marshal uuid version nodeType parent keyPair c').1 = SDone None ∧
      (Body <$> sendQueue (OnConnect n marshal uuid version nodeType parent keyPair c').2) = [marshal (init_address parent keyPair) nodeType true].
Proof.
  intros Hn. eexists. split; [done|]. split; [done|]. eexists _, _. split; [done|]. unfold OnConnect, SendBytes.
  rewrite send_message_result by (apply (reachable_inv n); by exists [ESendCmd (cmdAccept tcp); EServe]).
  unfold send_result. simpl. rewrite decide_True by done. done.
Qed.

Definition failed_attempt : bool * option net_conn * bool * bool := (false, None, true, false).

(** A connection that is down with nothing queued. *)
Definition idle (a : bytes) (t s : string) (c : Connection) : Prop :=
  running (run c) = true ∧ connect (run c) = false ∧ cmdChan c = [] ∧ cachedAddrStr (cache c) = s ∧ address (run c) = a ∧ cType (run c) = t.

Lemma connect_idle n a t s dial c : s ≠ EmptyString → idle a t s c →
  ∃ c', match dial with
        | None => Connect n dial true true c = (c', Some ErrDial) ∧ idle a t s c'
        | Some tcp => Connect n dial true true c = (c', None) ∧ connect (run c') = true ∧ IsConnect c' = true ∧ realConnAddr (run c') = s ∧
            address (run c') = a ∧ cType (run c') = t
        end.
Proof.
  intros Hs (R & E & Q & A & Ha & Ht). unfold Connect, RemoteAddrSafe. rewrite A, decide_False, decide_False by done.
  unfold call, post. rewrite Q, decide_True by (simpl; unfold cmdChanSize; lia). simpl. unfold serve. simpl. rewrite R. simpl. rewrite E.
  destruct dial as [tcp|]; eexists; by split_and!.
Qed.

Lemma connect_clone n a t s dial : s ≠ EmptyString →
  ∃ c', match dial with
        | None => Connect n dial true true (SetRealConnAddr s (NewConnection a t)) = (c', Some ErrDial) ∧ idle a t s c'
        | Some tcp => Connect n dial true true (SetRealConnAddr s (NewConnection a t)) = (c', None) ∧ connect (run c') = true ∧ IsConnect c' = true ∧
            realConnAddr (run c') = s ∧ address (run c') = a ∧ cType (run c') = t
        end.
Proof.
  intros Hs. unfold Connect, RemoteAddrSafe. cbn. rewrite decide_False, decide_False by done.
  destruct dial as [tcp|]; eexists; by split_and!.
Qed.

Lemma retry_idle n a t s k tcp b rest : s ≠ EmptyString → ∀ c, idle a t s c →
  ∃ c', retry_loop n (replicate k failed_attempt ++ (false, Some tcp, true, b) :: rest) c = (c', true) ∧
    connect (run c') = true ∧ IsConnect c' = true ∧ realConnAddr (run c') = s ∧ address (run c') = a ∧ cType (run c') = t.
Proof.
  intros Hs. induction k as [|k IH]; intros c I; cbn [replicate app retry_loop].
  - destruct (connect_idle n a t s (Some tcp) c Hs I) as (c' & -> & P). by exists c'.
  - unfold failed_attempt at 1. destruct (connect_idle n a t s None c Hs I) as (c' & -> & I'). by apply IH.
Qed.

(** Reconnection to the parent, asked while the goroutine of the disconnected connection is still
    running: as soon as one dial succeeds the new connection is up, with the address, type and remote
    address of the old one, however many attempts failed before.  Asked later, nothing ever happens. *)
Theorem retry_parent n p k tcp b rest : cmdChan p = [] → realConnAddr (run p) ≠ EmptyString →
  (running (run p) = true → ∃ c, RetryConnectToParent n (replicate k failed_attempt ++ (false, Some tcp, true, b) :: rest) p = Some (c, true) ∧
     connect (run c) = true ∧ IsConnect c = true ∧ realConnAddr (run c) = realConnAddr (run p) ∧
     address (run c) = address (run p) ∧ cType (run c) = cType (run p)) ∧
  (running (run p) = false → ∀ l, RetryConnectToParent n l p = None).
Proof.
  intros Q Hs. unfold RetryConnectToParent, Clone, blocking_call, send_cmd. rewrite Q. simpl. unfold serve. simpl. split; intros R; rewrite R; [|done].
  set (s := realConnAddr (run p)) in *. simpl. fold s. destruct k as [|k]; cbn [replicate app retry_loop].
  - destruct (connect_clone n (address (run p)) (cType (run p)) s (Some tcp) Hs) as (c' & -> & P). by exists c'.
  - unfold failed_attempt at 1. destruct (connect_clone n (address (run p)) (cType (run p)) s None Hs) as (c' & -> & I').
    destruct (retry_idle n _ _ s k tcp b rest Hs c' I') as (c2 & E & P). exists c2. by rewrite E.
Qed.

(** ** Concrete runs *)

Module ServerExample.
Import WireExample ConnectionExample.

Definition echo : Handler (list pb_Message) string :=
  NewHandler (Some {[ "Bye" := λ m s, (None, s ++ [m]) ]}).
Definition pending : loop_state :=
  {| ctxDone := false; stopped := false; queue := [hello]; reqs := [Some bye; Some bye]; reqsClosed := false; errs := [EndEOF]; errsClosed := false; busy := 0; conn := up |}.
Definition loop : list choice → loop_state → loop_state * option loop_exit := HandleConnection 4 10 "1" (λ _, "id").

Lemma work_counts_witness : default 0%Z (counts (work [bye; hello; bye] echo []).1 !! "Bye") = 2%Z.
Proof. destruct (work_counts [bye; hello; bye] echo [] "Bye") as [-> _]; [vm_compute; done..|]. vm_compute. done. Defined.

Lemma closing_peer_loses_requests_witness :
  queue (loop [CRequest; CRequest; CError] pending).1 = [hello; bye; bye] ∧ queue (loop [CError] pending).1 = [hello].
Proof.
  destruct (closing_peer_loses_requests 4 10 "1" (λ _, "id") pending [bye; bye] EndEOF []) as [H1 H2]; [done..|simpl; lia|]. simpl in H1, H2.
  split; [exact (proj1 H1)|exact (proj1 H2)].
Defined.

Lemma stop_hazards_witness : (loop [CRequest] (Stop pending)).2 = Some ExitPanic ∧ queue (worker [false] (Stop pending) echo []).1.1.1 = [hello].
Proof. destruct (stop_hazards 4 10 "1" (λ _, "id") pending bye [Some bye] echo []) as (H & _ & ->); [done|]. split; [exact H|done]. Defined.

Lemma worker_drains_witness : let '(s', h', st', exited) := worker [true] pending echo [] in queue s' = [] ∧ exited = false ∧ (h', st') = work [hello] echo [].
Proof. apply (worker_drains [hello] pending echo []). reflexivity. Defined.

Lemma init_message_race_witness : ∃ c, ConnectionFromTcpConnection (Some peer) = Some c ∧
  (OnConnect 4 (λ a _ _, a) "id" "1" "client" None [Byte.x07] c).1 = SDone (Some ErrDisconnected).
Proof. destruct (init_message_race 4 (λ a _ _, a) "id" "1" "client" None [Byte.x07] peer) as (c & E & H & _); [lia|]. exists c. split; [exact E|exact H]. Defined.

Lemma retry_parent_witness : ∃ c, RetryConnectToParent 4 [failed_attempt; failed_attempt; (false, Some peer, true, false)] down = Some (c, true) ∧
  connect (run c) = true ∧ realConnAddr (run c) = "10.0.0.2:9".
Proof.
  destruct (retry_parent 4 down 2 peer false []) as [H _]; [vm_compute; done|vm_compute; done|].
  destruct H as (c & E & C & _ & A & _); [vm_compute; done|]. exists c. split; [exact E|]. split; [exact C|]. rewrite A. vm_compute. done.
Defined.
End ServerExample.
