(* ===== verification/ChainClient.v ===== *)
(** * The client of a chain node ([pkg/connection_manager/connection_client])

    A client sends requests over one connection and hands each answer to the caller that waits for
    it.  A caller stores a channel under a fresh identifier, sends, and waits in a [select] for an
    answer, a connection error, its timeout or the end of the context; the read loop and eight workers
    put the answers into the channels.  A channel is identified by a number, so that a caller keeps its
    channel when the table forgets it.  Everything that may happen while a caller waits is an [event];
    which ready case a [select] takes is part of the event. *)

From S2P Require Import Prelude GoLib Interfaces LevelDB Wire Connection.

(** What the workers hand to the callers.  An error of the chain is kept as the bytes it is printed from. *)
Inductive response :=
  | RUint64 (n : Z) | RBytes (b : bytes) | RTransactionError (b : bytes) | RTransactionSuccess (b : bytes)
  | RRegisterAck (b : bytes) | RRegistrationResult (b : bytes).

Record chan := { c_cap : nat; c_buf : list response }.

Record ConnectionClient := {
  key : string; connectionAddress : string;
  connection : option Connection;
  dispatchCh : list pb_Message;           (** the channel holds 200 *)
  pendingRequests : gmap string nat;      (** request identifier to channel *)
  channels : gmap nat chan;
  next_chan : nat;
  connected : bool;
  ctxDone : bool;                         (** the client's context was cancelled *)
  errorNotifyChan : list string;          (** the channel holds 1 *)
}.

Inductive client_error :=
  | ErrNotConnected | ErrConnect (e : conn_error) | ErrSend (e : option conn_error) | ErrInvalidResponse | ErrConnectionLost (e : string)
  | ErrTimeout | ErrContext | ErrChain (b : bytes) | ErrRegistration (status : string) (b : bytes).

(** Field updates. *)
Definition with_pending (p : gmap string nat) (c : ConnectionClient) : ConnectionClient :=
  {| key := key c; connectionAddress := connectionAddress c; connection := connection c; dispatchCh := dispatchCh c; pendingRequests := p;
     channels := channels c; next_chan := next_chan c; connected := connected c; ctxDone := ctxDone c; errorNotifyChan := errorNotifyChan c |}.
Definition with_channels (l : gmap nat chan) (c : ConnectionClient) : ConnectionClient :=
  {| key := key c; connectionAddress := connectionAddress c; connection := connection c; dispatchCh := dispatchCh c; pendingRequests := pendingRequests c;
     channels := l; next_chan := next_chan c; connected := connected c; ctxDone := ctxDone c; errorNotifyChan := errorNotifyChan c |}.
Definition with_dispatch (q : list pb_Message) (c : ConnectionClient) : ConnectionClient :=
  {| key := key c; connectionAddress := connectionAddress c; connection := connection c; dispatchCh := q; pendingRequests := pendingRequests c;
     channels := channels c; next_chan := next_chan c; connected := connected c; ctxDone := ctxDone c; errorNotifyChan := errorNotifyChan c |}.
Definition with_errors (l : list string) (c : ConnectionClient) : ConnectionClient :=
  {| key := key c; connectionAddress := connectionAddress c; connection := connection c; dispatchCh := dispatchCh c; pendingRequests := pendingRequests c;
     channels := channels c; next_chan := next_chan c; connected := connected c; ctxDone := ctxDone c; errorNotifyChan := l |}.
Definition with_connection (k : option Connection) (c : ConnectionClient) : ConnectionClient :=
  {| key := key c; connectionAddress := connectionAddress c; connection := k; dispatchCh := dispatchCh c; pendingRequests := pendingRequests c;
     channels := channels c; next_chan := next_chan c; connected := connected c; ctxDone := ctxDone c; errorNotifyChan := errorNotifyChan c |}.

Definition NewConnectionClient (k address : string) (parentDone : bool) : ConnectionClient :=
  {| key := k; connectionAddress := address; connection := None; dispatchCh := []; pendingRequests := ∅; channels := ∅; next_chan := 0;
     connected := false; ctxDone := parentDone; errorNotifyChan := [] |}.

(** ** Commands *)

Definition cmdReadTransaction : string := "ReadTransaction".
Definition cmdSendTransactionWithDeviceKey : string := "SendTransactionWithDeviceKey".
Definition cmdSendTransaction : string := "SendTransaction".
Definition cmdReceipt : string := "Receipt".
Definition cmdTransactionError : string := "TransactionError".
Definition cmdTransactionSuccess : string := "TransactionSuccess".
Definition cmdTransactionReceipt : string := "TransactionReceipt".
Definition cmdBlockNumber : string := "BlockNumber".
Definition cmdGetBlockNumber : string := "GetBlockNumber".
Definition cmdGetTransactionReceipt : string := "GetTransactionReceipt".
Definition cmdGetAccountState : string := "GetAccountState".
Definition cmdAccountState : string := "AccountState".
Definition cmdGetDeviceKey : string := "GetDeviceKey".
Definition cmdDeviceKey : string := "DeviceKey".
Definition cmdGetNonce : string := "GetNonce".
Definition cmdNonce : string := "Nonce".
Definition cmdSendRawTransaction : string := "SendRawTransaction".
Definition cmdGetRegistrationMessage : string := "GetRegistrationMessage".
Definition cmdRegistrationMessage : string := "RegistrationMessage".
Definition cmdGetRegistrationStatus : string := "GetRegistrationStatus".
Definition cmdRegistrationStatus : string := "RegistrationStatus".
Definition cmdRegisterAccount : string := "RegisterAccount".
Definition cmdRegisterAccountAck : string := "RegisterAccountAck".
Definition cmdRegistrationResult : string := "RegistrationResult".

(** ** Receiving *)

(** The commands whose body is handed over as it is. *)
Definition plain_commands : list string :=
  [cmdReceipt; cmdAccountState; cmdDeviceKey; cmdTransactionReceipt; cmdRegistrationMessage; cmdRegistrationStatus].

(** The answer a message carries; [None]: the message is ignored. *)
Definition response_of (m : pb_Message) : option response :=
  let cmd := Command m in
  if decide (cmd = cmdBlockNumber ∨ cmd = cmdNonce) then RUint64 <$> Uint64 (Body m)
  else if decide (cmd ∈ plain_commands) then Some (RBytes (Body m))
  else if decide (cmd = cmdTransactionError) then Some (RTransactionError (Body m))
  else if decide (cmd = cmdTransactionSuccess) then Some (RTransactionSuccess (Body m))
  else if decide (cmd = cmdRegisterAccountAck) then Some (RRegisterAck (Body m))
  else if decide (cmd = cmdRegistrationResult) then Some (RRegistrationResult (Body m))
  else None.

(** A send with a [default] case into a caller's channel. *)
Definition offer (r : response) (ch : nat) (l : gmap nat chan) : gmap nat chan :=
  match l !! ch with
  | Some k => if decide (length (c_buf k) < c_cap k) then <[ch := {| c_cap := c_cap k; c_buf := c_buf k ++ [r] |}]> l else l
  | None => l
  end.

Definition dispatchMessage (m : pb_Message) (c : ConnectionClient) : ConnectionClient :=
  match response_of m with
  | None => c
  | Some r =>
      if decide (ID m = EmptyString) then c
      else match pendingRequests c !! ID m with Some ch => with_channels (offer r ch (channels c)) c | None => c end
  end.

(** The read loop's part: a full dispatch channel drops the message. *)
Definition receive (m : pb_Message) (c : ConnectionClient) : ConnectionClient :=
  if decide (length (dispatchCh c) < 200) then with_dispatch (dispatchCh c ++ [m]) c else c.

(** One of the workers dispatches the [i]-th of the messages taken or waiting: with eight workers the
    order of dispatch is not that of arrival. *)
Definition dispatch_nth (i : nat) (c : ConnectionClient) : ConnectionClient :=
  match dispatchCh c !! i with
  | Some m => dispatchMessage m (with_dispatch (delete i (dispatchCh c)) c)
  | None => c
  end.

(** ** Connecting *)

Section Client.
Variable SendChanSize : nat.
Context `{EthCommon} `{EthAddress}.

(** [Disconnect]: nothing when not connected; otherwise the context is cancelled and the table emptied. *)
Definition Disconnect (c : ConnectionClient) : ConnectionClient :=
  if connected c then
    {| key := key c; connectionAddress := connectionAddress c;
       connection := (λ k, (Connection.Disconnect k).1) <$> connection c; dispatchCh := dispatchCh c; pendingRequests := ∅;
       channels := channels c; next_chan := next_chan c; connected := false; ctxDone := true; errorNotifyChan := errorNotifyChan c |}
  else c.

Definition handleConnectionError (e : string) (c : ConnectionClient) : ConnectionClient :=
  Disconnect (match errorNotifyChan c with [] => with_errors [e] c | _ => c end).

Definition IsConnected (c : ConnectionClient) : bool := connected c.

(** [Connect]: a new connection under an address derived from the key; the result of the first message is
    only logged; the dispatch channel is made anew.  [marshal] is the protobuf of (address, type,
    replace), [dial] and [answered] the outcome of the connection attempt. *)
Definition Connect (marshal : bytes → string → bool → bytes) (uuid version : string) (dial : option net_conn) (answered : bool)
    (c : ConnectionClient) : ConnectionClient * option client_error :=
  if connected c then (c, None)
  else
    let clientAddr := Keccak256 (str_bytes (key c)) in
    let conn := SetRealConnAddr (connectionAddress c) (NewConnection (BytesToAddress clientAddr) "m_client") in
    match Connection.Connect SendChanSize dial answered answered conn with
    | (_, Some e) => (c, Some (ErrConnect e))
    | (conn, None) =>
        let conn := (SendBytes SendChanSize uuid version "InitConnection" (marshal (take 20 clientAddr) "m_client" true) (Some conn)).2 in
        ({| key := key c; connectionAddress := connectionAddress c; connection := conn; dispatchCh := []; pendingRequests := pendingRequests c;
            channels := channels c; next_chan := next_chan c; connected := true; ctxDone := ctxDone c; errorNotifyChan := errorNotifyChan c |}, None)
    end.

(** One tick of [startKeepAlive]. *)
Definition keep_alive (uuid version : string) (c : ConnectionClient) : ConnectionClient :=
  if negb (ctxDone c) && connected c then
    match connection c with Some k => with_connection (SendBytes SendChanSize uuid version "Ping" [] (Some k)).2 c | None => c end
  else c.

(** ** Requests *)

Definition request_message (cmd id : string) (body : bytes) : pb_Message :=
  NewMessage (Some {| m_Header := Some {| h_Command := cmd; h_Pubkey := []; h_ToAddress := []; h_Sign := []; h_Version := EmptyString; h_ID := id |};
                      m_Body := body |}).

(** The first half of a request: the check, the channel of [cap] places stored under [id], the send. *)
Definition begin (cmd id : string) (body : bytes) (cap : nat) (c : ConnectionClient) : (client_error + nat) * ConnectionClient :=
  match connected c, connection c with
  | true, Some k =>
      let ch := next_chan c in
      let '(t, k') := SendMessage SendChanSize (request_message cmd id body) k in
      let c' := {| key := key c; connectionAddress := connectionAddress c; connection := Some k'; dispatchCh := dispatchCh c;
                   pendingRequests := <[id := ch]> (pendingRequests c); channels := <[ch := {| c_cap := cap; c_buf := [] |}]> (channels c);
                   next_chan := S ch; connected := connected c; ctxDone := ctxDone c; errorNotifyChan := errorNotifyChan c |} in
      match t with
      | SDone None => (inr ch, c')
      | SDone e => (inl (ErrSend e), with_pending (delete id (pendingRequests c')) c')
      | _ => (inl (ErrSend None), with_pending (delete id (pendingRequests c')) c')
      end
  | _, _ => (inl ErrNotConnected, c)
  end.

(** The deferred removal from the table. *)
Definition finish (id : string) (c : ConnectionClient) : ConnectionClient := with_pending (delete id (pendingRequests c)) c.

(** What a caller does with an answer: return, wait on, or wait a last time for an answer that only
    improves the result it already has. *)
Inductive next {A : Type} := Return (r : client_error + A) | Continue | Linger (f : response → option A) (a : A).
Arguments next : clear implicits.

Inductive select_case := WResponse | WError | WTimeout | WContext.

(** What may happen while a caller waits: a message arrives, a worker dispatches one, the connection
    fails, another caller begins, receives or ends, the caller's own [select] takes a case. *)
Inductive event :=
  | EvReceive (m : pb_Message)
  | EvDispatch (i : nat)
  | EvFail (e : string)
  | EvBegin (cmd id : string) (body : bytes) (cap : nat)
  | EvTake (ch : nat)
  | EvFinish (id : string)
  | EvSelect (w : select_case).

(** A caller takes the first answer out of a channel. *)
Definition take_response (ch : nat) (c : ConnectionClient) : option (response * ConnectionClient) :=
  match channels c !! ch with
  | Some k => match c_buf k with
              | r :: l => Some (r, with_channels (<[ch := {| c_cap := c_cap k; c_buf := l |}]> (channels c)) c)
              | [] => None
              end
  | None => None
  end.

Definition client_step (e : event) (c : ConnectionClient) : ConnectionClient :=
  match e with
  | EvReceive m => receive m c
  | EvDispatch i => dispatch_nth i c
  | EvFail e => handleConnectionError e c
  | EvBegin cmd id body cap => (begin cmd id body cap c).2
  | EvTake ch => match take_response ch c with Some (_, c') => c' | None => c end
  | EvFinish id => finish id c
  | EvSelect _ => c
  end.

(** The caller of channel [ch] while [events] happen; [linger] is set in the last wait.  [acks] collects
    the bodies passed to [onAck].  The result is [None] while it still waits. *)
Section Await.
Context {A : Type} (on_response : response → next A) (on_ack : response → option bytes) (ch : nat).

Fixpoint await (linger : option ((response → option A) * A)) (acks : list bytes) (events : list event) (c : ConnectionClient) :
    option (client_error + A) * list bytes * ConnectionClient :=
  match events with
  | [] => (None, acks, c)
  | EvSelect w :: es =>
      match linger, w with
      | Some (f, a), WResponse =>
          match take_response ch c with Some (r, c') => (Some (inr (default a (f r))), acks, c') | None => await linger acks es c end
      | Some (f, a), WTimeout => (Some (inr a), acks, c)
      | Some (f, a), _ => await linger acks es c
      | None, WResponse =>
          match take_response ch c with
          | Some (r, c') =>
              let acks := acks ++ match on_ack r with Some b => [b] | None => [] end in
              match on_response r with
              | Return x => (Some x, acks, c')
              | Continue => await None acks es c'
              | Linger f a => await (Some (f, a)) acks es c'
              end
          | None => await linger acks es c
          end
      | None, WError =>
          match errorNotifyChan c with e :: l => (Some (inl (ErrConnectionLost e)), acks, with_errors l c) | [] => await linger acks es c end
      | None, WTimeout => (Some (inl ErrTimeout), acks, c)
      | None, WContext => if ctxDone c then (Some (inl ErrContext), acks, c) else await linger acks es c
      end
  | e :: es => await linger acks es (client_step e c)
  end.
End Await.

(** A whole request. *)
Definition request {A} (cmd : string) (cap : nat) (on_response : response → next A) (on_ack : response → option bytes)
    (id : string) (body : bytes) (events : list event) (c : ConnectionClient) : option (client_error + A) * list bytes * ConnectionClient :=
  match begin cmd id body cap c with
  | (inl e, c) => (Some (inl e), [], c)
  | (inr ch, c) =>
      match await on_response on_ack ch None [] events c with
      | (Some r, acks, c) => (Some r, acks, finish id c)
      | (None, acks, c) => (None, acks, c)
      end
  end.

Definition no_ack (r : response) : option bytes := None.
Definition bytes_only (r : response) : next bytes := match r with RBytes b => Return (inr b) | _ => Return (inl ErrInvalidResponse) end.
Definition uint64_only (r : response) : next Z := match r with RUint64 n => Return (inr n) | _ => Return (inl ErrInvalidResponse) end.
(** The hash the chain confirms, or a receipt that came first. *)
Definition success_or_receipt (r : response) : next bytes :=
  match r with
  | RTransactionSuccess b => Return (inr b)
  | RTransactionError b => Return (inl (ErrChain b))
  | RBytes b => Return (inr b)
  | _ => Return (inl ErrInvalidResponse)
  end.
(** The receipt; the confirmation is skipped. *)
Definition receipt_only (r : response) : next bytes :=
  match r with
  | RBytes b => Return (inr b)
  | RTransactionError b => Return (inl (ErrChain b))
  | RTransactionSuccess b => Continue
  | _ => Return (inl ErrInvalidResponse)
  end.

Definition GetBlockNumber (id : string) := request cmdGetBlockNumber 1 uint64_only no_ack id [].
Definition ReadTransaction := request cmdReadTransaction 1 bytes_only no_ack.
Definition SendTransactionWithDeviceKey := request cmdSendTransactionWithDeviceKey 2 success_or_receipt no_ack.
Definition SendTransactionWithDeviceKeyAndWaitReceipt := request cmdSendTransactionWithDeviceKey 2 receipt_only no_ack.
Definition SendRawTransactionAndWaitReceipt := request cmdSendRawTransaction 2 receipt_only no_ack.
Definition GetAccountState := request cmdGetAccountState 1 bytes_only no_ack.
Definition GetDeviceKey := request cmdGetDeviceKey 1 bytes_only no_ack.
Definition GetTransactionReceipt := request cmdGetTransactionReceipt 1 bytes_only no_ack.
Definition GetNonce := request cmdGetNonce 1 uint64_only no_ack.
Definition GetRegistrationMessage := request cmdGetRegistrationMessage 1 bytes_only no_ack.
Definition GetRegistrationStatus := request cmdGetRegistrationStatus 1 bytes_only no_ack.

(** Fire and forget. *)
Definition send_only (cmd uuid version : string) (body : bytes) (c : ConnectionClient) : option client_error * ConnectionClient :=
  match connected c, connection c with
  | true, Some k =>
      let '(t, k') := SendBytes SendChanSize uuid version cmd body (Some k) in
      (match t with SDone None => None | SDone e => Some (ErrSend e) | _ => Some (ErrSend None) end, with_connection k' c)
  | _, _ => (Some ErrNotConnected, c)
  end.
Definition SendTransaction := send_only cmdSendTransaction.
Definition SendRawTransaction := send_only cmdSendRawTransaction.

(** [RegisterAccount]: an acknowledgement may already refuse or confirm; a confirmed one waits half a
    second for the final result.  [status] reads the status out of an acknowledgement, [None] when it
    cannot be unmarshalled.  The flag says whether the result was pushed. *)
Section Register.
Variable status : bytes → option string.

Definition on_registration (r : response) : next (bytes * bool) :=
  match r with
  | RRegisterAck b =>
      match status b with
      | Some s =>
          if decide (s = "FAILED" ∨ s = "REJECTED") then Return (inl (ErrRegistration s b))
          else if decide (s = "CONFIRMED") then Linger (λ r, match r with RRegistrationResult b' => Some (b', true) | _ => None end) (b, false)
          else Continue
      | None => Continue
      end
  | RRegistrationResult b => Return (inr (b, true))
  | RTransactionError b => Return (inl (ErrChain b))
  | _ => Return (inl ErrInvalidResponse)
  end.
Definition on_ack (r : response) : option bytes := match r with RRegisterAck b => Some b | _ => None end.
Definition RegisterAccount := request cmdRegisterAccount 4 on_registration on_ack.
End Register.
End Client.
Arguments next : clear implicits.
