(* ===== verification/ChainClientTheorems.v ===== *)
(** * Properties of the chain client

    An answer reaches the caller that asked for it and nobody else, whatever arrives, in whatever order
    the workers dispatch and whatever other callers do; a lost connection releases every caller; the
    protocols with more than one answer. *)

From S2P Require Import Prelude GoLib Interfaces LevelDB Wire Connection ConnectionTheorems ChainClient.

Section ClientProofs.
Variable SendChanSize : nat.

(** ** Correlation *)

(** The messages seen so far: those waiting at first and those received. *)
Definition received (es : list event) : list pb_Message := omap (λ e, match e with EvReceive m => Some m | _ => None end) es.

(** The channel [ch] belongs to the request [id]: no other identifier leads to it, and what it holds are
    answers to [id] among the messages [seen]. *)
Record Owns (id : string) (ch : nat) (seen : list pb_Message) (c : ConnectionClient) : Prop := {
  own_chan : ch < next_chan c;
  own_table id' ch' : pendingRequests c !! id' = Some ch' → ch' < next_chan c ∧ (ch' = ch → id' = id);
  own_queue m : m ∈ dispatchCh c → m ∈ seen;
  own_buffer k r : channels c !! ch = Some k → r ∈ c_buf k → ∃ m, m ∈ seen ∧ ID m = id ∧ response_of m = Some r;
}.

Lemma owns_seen id ch seen seen' c : seen ⊆ seen' → Owns id ch seen c → Owns id ch seen' c.
Proof. intros S []. split; try done; [set_solver|]. intros k r Hk Hr. destruct (own_buffer0 k r Hk Hr) as (m & ? & ? & ?). exists m. set_solver. Qed.

Lemma owns_receive id ch seen m c : m ∈ seen → Owns id ch seen c → Owns id ch seen (receive m c).
Proof.
  intros Hm []. unfold receive. case_decide; [|done]. split; try done. simpl. intros m'. rewrite elem_of_app, list_elem_of_singleton. intros [?| ->]; [by apply own_queue0|done].
Qed.

Lemma owns_offer id ch seen m r ch' c : Owns id ch seen c → m ∈ seen → response_of m = Some r → pendingRequests c !! ID m = Some ch' →
  Owns id ch seen (with_channels (offer r ch' (channels c)) c).
Proof.
  intros [Oc Ot Oq Ob] Hm Er Hp. split; try done. simpl. intros k x Hk Hx. unfold offer in Hk. destruct (channels c !! ch') as [k'|] eqn:E'; [|by eapply Ob].
  case_decide; [|by eapply Ob]. destruct (decide (ch = ch')) as [->|Hne]; [|rewrite lookup_insert_ne in Hk by done; by eapply Ob].
  rewrite lookup_insert_eq in Hk. injection Hk as <-. simpl in Hx. apply elem_of_app in Hx as [Hx| ->%list_elem_of_singleton]; [by eapply Ob|].
  exists m. split_and!; [done| |done]. by apply (Ot _ _ Hp).
Qed.

Lemma owns_dispatch id ch seen i c : Owns id ch seen c → Owns id ch seen (dispatch_nth i c).
Proof.
  intros O. unfold dispatch_nth. destruct (dispatchCh c !! i) as [m|] eqn:Ei; [|done].
  assert (m ∈ seen) as Hm by (apply (own_queue _ _ _ _ O), list_elem_of_lookup; by exists i).
  assert (Owns id ch seen (with_dispatch (delete i (dispatchCh c)) c)) as O'.
  { destruct O. split; try done. simpl. intros m' Hm'. apply own_queue0. by eapply list_elem_of_delete_inv. }
  unfold dispatchMessage. destruct (response_of m) as [r|] eqn:Er; [|done]. case_decide; [done|].
  destruct (pendingRequests _ !! ID m) as [ch'|] eqn:Ep; [|done]. by apply (owns_offer _ _ _ m).
Qed.

Lemma owns_disconnect id ch seen c : Owns id ch seen c → Owns id ch seen (Disconnect c).
Proof. intros O. unfold Disconnect. destruct (connected c); [|done]. destruct O. split; try done. Qed.

Lemma owns_begin id ch seen cmd id' body cap c : id' ≠ id → Owns id ch seen c → Owns id ch seen (begin SendChanSize cmd id' body cap c).2.
Proof.
  intros Hne O. unfold begin. destruct (connected c); [|done]. destruct (connection c) as [k|]; [|done].
  destruct (SendMessage SendChanSize (request_message cmd id' body) k) as [t k']. set (c' := {| key := key c |}).
  assert (Owns id ch seen c') as O'.
  { destruct O as [Oc Ot Oq Ob]. split; simpl; try done; [lia| |].
    - intros id2 ch2. rewrite lookup_insert_Some. intros [[<- <-]|[_ Hp]]; [lia|]. destruct (Ot _ _ Hp). split; [lia|done].
    - intros k0 r. rewrite lookup_insert_ne by lia. by apply Ob. }
  assert (Owns id ch seen (with_pending (delete id' (pendingRequests c')) c')) as O2.
  { destruct O' as [Oc Ot Oq Ob]. split; try done. intros id2 ch2. simpl. rewrite lookup_delete_Some. intros [_ Hp]. by apply Ot. }
  destruct t as [| | |[e|]|]; done.
Qed.

Lemma owns_finish id ch seen id' c : Owns id ch seen c → Owns id ch seen (finish id' c).
Proof. intros [Oc Ot Oq Ob]. split; try done. intros id2 ch2. simpl. rewrite lookup_delete_Some. intros [_ Hp]. by apply Ot. Qed.

Lemma owns_take id ch seen ch' r c c' : take_response ch' c = Some (r, c') → Owns id ch seen c → Owns id ch seen c'.
Proof.
  unfold take_response. intros E [Oc Ot Oq Ob]. destruct (channels c !! ch') as [k|] eqn:Ek; [|done]. destruct (c_buf k) as [|r0 l] eqn:Eb; [done|].
  injection E as <- <-. split; try done. simpl. intros k0 x. destruct (decide (ch = ch')) as [->|Hne]; [|rewrite lookup_insert_ne by done; by apply Ob].
  rewrite lookup_insert_eq. intros [= <-] Hx. simpl in Hx. eapply Ob; [exact Ek|]. rewrite Eb. by apply elem_of_cons; right.
Qed.

Lemma take_answers id ch seen r c c' : take_response ch c = Some (r, c') → Owns id ch seen c → ∃ m, m ∈ seen ∧ ID m = id ∧ response_of m = Some r.
Proof.
  unfold take_response. intros E O. destruct (channels c !! ch) as [k|] eqn:Ek; [|done]. destruct (c_buf k) as [|r0 l] eqn:Eb; [done|].
  injection E as <- <-. eapply (own_buffer _ _ _ _ O); [exact Ek|]. rewrite Eb. by apply elem_of_cons; left.
Qed.

(** Other callers have other identifiers. *)
Definition others (id : string) (e : event) : Prop := match e with EvBegin _ id' _ _ => id' ≠ id | _ => True end.

Lemma owns_step id ch seen e c : others id e → (∀ m, e = EvReceive m → m ∈ seen) → Owns id ch seen c → Owns id ch seen (client_step SendChanSize e c).
Proof.
  intros Ho Hs O. destruct e; simpl; try done.
  - by apply owns_receive; [apply Hs|].
  - by apply owns_dispatch.
  - unfold handleConnectionError. apply owns_disconnect. destruct (errorNotifyChan c); [|done]. destruct O. by split.
  - by apply owns_begin.
  - destruct (take_response ch0 c) as [[r c']|] eqn:E; [|done]. by eapply owns_take.
  - by apply owns_finish.
Qed.

Section Await.
Context {A : Type} (on_response : response → next A) (on_ack : response → option bytes).

(** A result that rests on answers to [id]. *)
Definition answered (id : string) (seen : list pb_Message) (a : A) : Prop :=
  ∃ m r, m ∈ seen ∧ ID m = id ∧ response_of m = Some r ∧
    (on_response r = Return (inr a) ∨
     ∃ f a0, on_response r = Linger f a0 ∧ (a = a0 ∨ ∃ m' r', m' ∈ seen ∧ ID m' = id ∧ response_of m' = Some r' ∧ f r' = Some a)).

(** A caller in its last wait. *)
Definition lingering (id : string) (seen : list pb_Message) (l : option ((response → option A) * A)) : Prop :=
  match l with None => True | Some (f, a0) => ∃ m r, m ∈ seen ∧ ID m = id ∧ response_of m = Some r ∧ on_response r = Linger f a0 end.

Lemma await_answered id ch seen es : ∀ l acks c a acks' c', Forall (others id) es → received es ⊆ seen → Owns id ch seen c → lingering id seen l →
  await SendChanSize on_response on_ack ch l acks es c = (Some (inr a), acks', c') → answered id seen a.
Proof.
  induction es as [|e es IH]; intros l acks c a acks' c' Fo Hs O Hl E; [done|]. apply Forall_cons in Fo as [Fe Fo].
  assert (received es ⊆ seen) as Hs' by (intros m Hm; apply Hs; destruct e; simpl; set_solver).
  assert (∀ w, e ≠ EvSelect w → await SendChanSize on_response on_ack ch l acks es (client_step SendChanSize e c) = (Some (inr a), acks', c') → answered id seen a) as Step.
  { intros w _ E'. eapply (IH l acks); [done..| |done|exact E']. apply owns_step; [done| |done]. intros m ->. apply Hs. simpl. apply elem_of_cons. by left. }
  destruct e; try (by apply (Step WError)). clear Step. cbn [await] in E. destruct l as [[f a0]|].
  - destruct w; try (by eapply IH).
    + destruct (take_response ch c) as [[r c1]|] eqn:Et; [|by eapply IH]. injection E as <- _ _. destruct Hl as (m & r0 & Hm & Hid & Hr & Ho).
      exists m, r0. split_and!; try done. right. exists f, a0. split; [done|]. destruct (f r) as [a1|] eqn:Ef; [right|by left]. simpl.
      destruct (take_answers _ _ _ _ _ _ Et O) as (m' & ? & ? & ?). by exists m', r.
    + injection E as <- _ _. destruct Hl as (m & r0 & Hm & Hid & Hr & Ho). exists m, r0. split_and!; try done. right. exists f, a0. split; [done|by left].
  - destruct w.
    + destruct (take_response ch c) as [[r c1]|] eqn:Et; [|by eapply IH]. destruct (take_answers _ _ _ _ _ _ Et O) as (m & Hm & Hid & Hr).
      pose proof (owns_take _ _ _ _ _ _ _ Et O) as O1. destruct (on_response r) as [x| |f a0] eqn:Er.
      * injection E as -> _ _. exists m, r. split_and!; try done. by left.
      * by eapply IH.
      * eapply (IH (Some (f, a0))); [done..| |exact E]. by exists m, r.
    + destruct (errorNotifyChan c); [by eapply IH|done].
    + done.
    + destruct (ctxDone c); [done|by eapply IH].
Qed.
End Await.

(** A client with a history: any events since its table was empty. *)
Definition history (es : list event) (c : ConnectionClient) : ConnectionClient := foldl (λ c e, client_step SendChanSize e c) c es.

Definition table_ok (c : ConnectionClient) : Prop := ∀ id ch, pendingRequests c !! id = Some ch → ch < next_chan c.

Lemma table_step e c : table_ok c → table_ok (client_step SendChanSize e c).
Proof.
  intros T. destruct e; simpl; try done.
  - unfold receive. by case_decide.
  - unfold dispatch_nth. destruct (dispatchCh c !! i); [|done]. unfold dispatchMessage. destruct (response_of p); [|done]. case_decide; [done|].
    by destruct (pendingRequests _ !! ID p).
  - unfold handleConnectionError, Disconnect. destruct (errorNotifyChan c); destruct (connected _); done.
  - unfold begin. destruct (connected c); [|done]. destruct (connection c); [|done]. destruct (SendMessage _ _ _) as [t k'].
    set (c' := {| key := key c |}). assert (table_ok c') as T1.
    { intros id1 ch1. simpl. rewrite lookup_insert_Some. intros [[_ <-]|[_ Hp]]; [lia|]. specialize (T _ _ Hp). lia. }
    assert (table_ok (with_pending (delete id (pendingRequests c')) c')) as T2 by (intros id1 ch1; simpl; rewrite lookup_delete_Some; intros [_ Hp]; by apply T1 in Hp).
    by destruct t as [| | |[|]|].
  - unfold take_response. destruct (channels c !! ch) as [k|]; [|done]. by destruct (c_buf k).
  - intros id1 ch1. simpl. rewrite lookup_delete_Some. intros [_ Hp]. by apply T in Hp.
Qed.

Lemma table_history es : ∀ c, table_ok c → table_ok (history es c).
Proof. induction es as [|e es IH]; intros c T; [done|]. by apply IH, table_step. Qed.

Lemma begin_owns cmd id body cap c ch c1 : table_ok c → begin SendChanSize cmd id body cap c = (inr ch, c1) → Owns id ch (dispatchCh c) c1.
Proof.
  intros T. unfold begin. destruct (connected c); [|done]. destruct (connection c) as [k|]; [|done].
  destruct (SendMessage SendChanSize (request_message cmd id body) k) as [t k']. destruct t as [| | |[e|]|]; intros [= <- <-]. split; simpl.
  - lia.
  - intros id' ch'. rewrite lookup_insert_Some. intros [[<- <-]|[_ Hp]]; [split; [lia|done]|]. specialize (T _ _ Hp). split; lia.
  - done.
  - intros k0 r. rewrite lookup_insert_eq. intros [= <-] Hr. by apply not_elem_of_nil in Hr.
Qed.

(** C10: A request that succeeds returns the contents of messages with its own identifier, received while it
    waited or queued before it began, and of the kinds it accepts: no interleaving of arrivals,
    dispatches, failures and other requests makes it return another's answer. *)
Theorem reply_correlated {A} cmd cap (on_response : response → next A) on_ack id body es0 es c0 a acks c' :
  pendingRequests c0 = ∅ → Forall (others id) es →
  request SendChanSize cmd cap on_response on_ack id body es (history es0 c0) = (Some (inr a), acks, c') →
  answered on_response id (dispatchCh (history es0 c0) ++ received es) a.
Proof.
  intros Hp Fo. assert (table_ok (history es0 c0)) as T by (apply table_history; intros id1 ch1; by rewrite Hp). revert T. generalize (history es0 c0). intros c T.
  unfold request. destruct (begin SendChanSize cmd id body cap c) as [[e|ch] c1] eqn:Eb; [done|]. pose proof (begin_owns _ _ _ _ _ _ _ T Eb) as O.
  destruct (await SendChanSize on_response on_ack ch None [] es c1) as [[[r|] acks1] c2] eqn:Ea; [|done]. intros [= -> _ _].
  eapply (await_answered on_response on_ack id ch _ es None [] c1); [done| | |done|exact Ea]; [set_solver|]. eapply owns_seen; [|exact O]. set_solver.
Qed.

(** ** Answers in order *)

(** What a caller makes of the answers it gets. *)
Fixpoint outcome {A} (on_response : response → next A) (rs : list response) : option (client_error + A) :=
  match rs with
  | [] => None
  | r :: rs =>
      match on_response r with
      | Return x => Some x
      | Continue => outcome on_response rs
      | Linger f a => match rs with [] => None | r' :: _ => Some (inr (default a (f r'))) end
      end
  end.

(** The messages arrive and are dispatched one by one. *)
Definition deliver (ms : list pb_Message) : list event := concat ((λ m, [EvReceive m; EvDispatch 0]) <$> ms).

Section Answers.
Context {A : Type} (on_response : response → next A) (on_ack : response → option bytes).

Lemma await_skip ch acks es1 es2 c : Forall (λ e, ∀ w, e ≠ EvSelect w) es1 → ∀ l,
  await SendChanSize on_response on_ack ch l acks (es1 ++ es2) c = await SendChanSize on_response on_ack ch l acks es2 (history es1 c).
Proof. revert c. induction es1 as [|e es IH]; intros c F l; [done|]. apply Forall_cons in F as [Fe F]. destruct e; try (by apply IH). by destruct (Fe w). Qed.

Lemma deliver_no_select ms : Forall (λ e, ∀ w, e ≠ EvSelect w) (deliver ms).
Proof. induction ms as [|m ms IH]; [constructor|]. by repeat constructor. Qed.

Lemma deliver_buffer id ch ms rs : id ≠ EmptyString → Forall2 (λ m r, ID m = id ∧ response_of m = Some r) ms rs → ∀ c k,
  dispatchCh c = [] → pendingRequests c !! id = Some ch → channels c !! ch = Some k → length (c_buf k) + length ms ≤ c_cap k →
  ∃ c', history (deliver ms) c = c' ∧ dispatchCh c' = [] ∧ pendingRequests c' = pendingRequests c ∧
    channels c' !! ch = Some {| c_cap := c_cap k; c_buf := c_buf k ++ rs |}.
Proof.
  intros Hid F. induction F as [|m r ms rs [Em Er] F IH]; intros c k Eq Ep Ek Hl.
  - exists c. rewrite app_nil_r. split_and!; try done. by destruct k.
  - cbn [length] in Hl. change (history (deliver (m :: ms)) c) with (history (deliver ms) (dispatch_nth 0 (receive m c))).
    assert (dispatch_nth 0 (receive m c) = with_channels (<[ch := {| c_cap := c_cap k; c_buf := c_buf k ++ [r] |}]> (channels c)) (with_dispatch [] c)) as ->.
    { unfold receive. rewrite Eq. cbn [length]. rewrite decide_True by lia. unfold dispatch_nth. simpl. unfold dispatchMessage. rewrite Er, Em. rewrite decide_False by done.
      simpl. rewrite Ep. unfold offer. rewrite Ek, decide_True by lia. done. }
    edestruct IH as (c' & <- & E1 & E2 & E3); [| | | |eexists; split_and!; [done|exact E1|rewrite E2; done|]].
    + done.
    + done.
    + simpl. by rewrite lookup_insert_eq.
    + simpl. rewrite length_app. simpl. lia.
    + rewrite E3. simpl. by rewrite <- app_assoc.
Qed.

Lemma await_buffer ch n : ∀ rs acks c k, channels c !! ch = Some k → c_buf k = rs → length rs = n →
  (await SendChanSize on_response on_ack ch None acks (replicate n (EvSelect WResponse)) c).1.1 = outcome on_response rs.
Proof.
  induction n as [|n IH]; intros rs acks c k Ek Eb El; [by destruct rs|]. destruct rs as [|r rs]; [done|]. injection El as El. cbn [replicate await outcome].
  unfold take_response. rewrite Ek, Eb. destruct (on_response r) as [x| |f a]; [done| |].
  - eapply IH; [simpl; by rewrite lookup_insert_eq|done|done].
  - destruct rs as [|r' rs]; [by subst n|]. subst n. cbn [length replicate await]. unfold take_response. simpl. rewrite lookup_insert_eq. done.
Qed.

(** Answers that fit into the caller's channel are processed in the order of their dispatch. *)
Lemma replies_processed cmd cap id body c ch c1 ms rs : begin SendChanSize cmd id body cap c = (inr ch, c1) → dispatchCh c = [] → id ≠ EmptyString →
  Forall2 (λ m r, ID m = id ∧ response_of m = Some r) ms rs → length ms ≤ cap →
  (request SendChanSize cmd cap on_response on_ack id body (deliver ms ++ replicate (length ms) (EvSelect WResponse)) c).1.1 = outcome on_response rs.
Proof.
  intros Eb Eq Hid F Hl. unfold request. rewrite Eb. rewrite await_skip by apply deliver_no_select.
  assert (dispatchCh c1 = [] ∧ pendingRequests c1 !! id = Some ch ∧ channels c1 !! ch = Some {| c_cap := cap; c_buf := [] |}) as (E1 & E2 & E3).
  { revert Eb. unfold begin. destruct (connected c); [|done]. destruct (connection c); [|done]. destruct (SendMessage _ _ _) as [[| | |[|]|] k']; intros [= <- <-].
    simpl. rewrite !lookup_insert_eq. done. }
  edestruct (deliver_buffer id ch ms rs Hid F c1) as (c2 & -> & _ & _ & E4); [done|done|exact E3|simpl; lia|].
  pose proof (Forall2_length _ _ _ F) as Lf.
  pose proof (await_buffer ch (length ms) rs [] c2 _ E4 eq_refl (eq_sym Lf)) as E.
  destruct (await SendChanSize on_response on_ack ch None [] (replicate (length ms) (EvSelect WResponse)) c2) as [[[x|] acks] c3]; exact E.
Qed.
End Answers.

(** A raw transaction whose confirmation and receipt both arrive returns the receipt, in whichever order
    the workers dispatched the two. *)
Theorem receipt_either_order id body c ch c1 s r : begin SendChanSize cmdSendRawTransaction id body 2 c = (inr ch, c1) → dispatchCh c = [] → id ≠ EmptyString →
  ID s = id → Command s = cmdTransactionSuccess → ID r = id → Command r = cmdReceipt →
  ∀ ms, ms = [s; r] ∨ ms = [r; s] →
  (SendRawTransactionAndWaitReceipt SendChanSize id body (deliver ms ++ [EvSelect WResponse; EvSelect WResponse]) c).1.1 = Some (inr (Body r)).
Proof.
  intros Eb Eq Hid Es Cs Er Cr. assert (response_of s = Some (RTransactionSuccess (Body s))) as Rs by (unfold response_of; rewrite Cs; done).
  assert (response_of r = Some (RBytes (Body r))) as Rr by (unfold response_of; rewrite Cr; done).
  intros ms [->| ->].
  - unfold SendRawTransactionAndWaitReceipt. by rewrite (replies_processed _ _ _ _ _ _ _ _ _ [s; r] [RTransactionSuccess (Body s); RBytes (Body r)] Eb); [| |done|repeat constructor|simpl; lia].
  - unfold SendRawTransactionAndWaitReceipt. by rewrite (replies_processed _ _ _ _ _ _ _ _ _ [r; s] [RBytes (Body r); RTransactionSuccess (Body s)] Eb); [| |done|repeat constructor|simpl; lia].
Qed.

(** A registration whose acknowledgement refuses ends with that error; whose acknowledgement confirms
    returns the pushed result if one follows; and otherwise returns the result pushed after any
    acknowledgement of another status. *)
Theorem registration_protocol status id body c ch c1 a p : begin SendChanSize cmdRegisterAccount id body 4 c = (inr ch, c1) → dispatchCh c = [] → id ≠ EmptyString →
  ID a = id → Command a = cmdRegisterAccountAck → ID p = id → Command p = cmdRegistrationResult →
  (RegisterAccount SendChanSize status id body (deliver [a; p] ++ [EvSelect WResponse; EvSelect WResponse]) c).1.1 =
    match status (Body a) with
    | Some s => if decide (s = "FAILED" ∨ s = "REJECTED") then Some (inl (ErrRegistration s (Body a))) else Some (inr (Body p, true))
    | None => Some (inr (Body p, true))
    end.
Proof.
  intros Eb Eq Hid Ea Ca Ep Cp. assert (response_of a = Some (RRegisterAck (Body a))) as Ra by (unfold response_of; rewrite Ca; done).
  assert (response_of p = Some (RRegistrationResult (Body p))) as Rp by (unfold response_of; rewrite Cp; done).
  unfold RegisterAccount. rewrite (replies_processed _ _ _ _ _ _ _ _ _ [a; p] [RRegisterAck (Body a); RRegistrationResult (Body p)] Eb);
    [|done|done|repeat constructor; done|simpl; lia].
  simpl. destruct (status (Body a)) as [s|]; [|done]. case_decide; [done|]. by case_decide.
Qed.

(** ** Failures *)

Definition released (c : ConnectionClient) : Prop := connected c = false ∧ ctxDone c = true.

Lemma released_step e c : released c → released (client_step SendChanSize e c).
Proof.
  intros [R1 R2]. destruct e; simpl; try done.
  - unfold receive. by case_decide.
  - unfold dispatch_nth. destruct (dispatchCh c !! i); [|done]. unfold dispatchMessage. destruct (response_of p); [|done]. case_decide; [done|].
    by destruct (pendingRequests _ !! ID p).
  - unfold handleConnectionError, Disconnect. destruct (errorNotifyChan c); simpl; rewrite R1; done.
  - unfold begin. by rewrite R1.
  - unfold take_response. destruct (channels c !! ch) as [k|]; [|done]. by destruct (c_buf k).
Qed.

Lemma released_history es : ∀ c, released c → released (history es c).
Proof. induction es as [|e es IH]; intros c R; [done|]. by apply IH, released_step. Qed.

(** After a connection error the table is empty, and whatever happens later every waiting caller can
    leave its [select] through the cancelled context and every new request is refused: nobody waits
    for an answer that cannot come. *)
Theorem failure_releases_callers {A} e es c (on_response : response → next A) on_ack ch acks rest cmd id body cap : connected c = true →
  pendingRequests (handleConnectionError e c) = ∅ ∧
  let c' := history es (handleConnectionError e c) in
  await SendChanSize on_response on_ack ch None acks (EvSelect WContext :: rest) c' = (Some (inl ErrContext), acks, c') ∧
  begin SendChanSize cmd id body cap c' = (inl ErrNotConnected, c').
Proof.
  intros C. assert (connected (match errorNotifyChan c with [] => with_errors [e] c | _ => c end) = true) as C' by (by destruct (errorNotifyChan c)).
  assert (released (handleConnectionError e c)) as R by (unfold handleConnectionError, Disconnect; by rewrite C').
  split; [unfold handleConnectionError, Disconnect; by rewrite C'|]. destruct (released_history es _ R) as [R1 R2]. cbv zeta. generalize dependent (history es (handleConnectionError e c)).
  intros c' R1 R2. cbn [await]. rewrite R2. split; [done|]. unfold begin. by rewrite R1.
Qed.

Context `{EthCommon} `{EthAddress}.

(** A client that was disconnected once and connects again reports that it is connected, but its context
    stays cancelled: every request may fail at once. *)
Theorem reconnected_client_is_dead {A} marshal uuid version dial answered c c' (on_response : response → next A) on_ack ch acks rest : connected c = true →
  Connect SendChanSize marshal uuid version dial answered (Disconnect c) = (c', None) →
  IsConnected c' = true ∧
  await SendChanSize on_response on_ack ch None acks (EvSelect WContext :: rest) c' = (Some (inl ErrContext), acks, c').
Proof.
  intros C. unfold Connect, Disconnect. rewrite C. cbn [connected connectionAddress key].
  destruct (Connection.Connect _ _ _ _ _) as [conn [e|]]; [done|]. intros [= <-]. done.
Qed.
End ClientProofs.

(** ** Concrete runs *)

Module ClientExample.
Import WireExample ConnectionExample.

Definition client : ConnectionClient :=
  {| key := "k"; connectionAddress := "10.0.0.2:9"; connection := Some up; dispatchCh := []; pendingRequests := ∅; channels := ∅; next_chan := 0;
     connected := true; ctxDone := false; errorNotifyChan := [] |}.
Definition message (cmd id : string) (body : bytes) : pb_Message := request_message cmd id body.

(** Two callers at once: the answer to the other one comes first. *)
Definition busy_events : list event :=
  [EvBegin cmdGetNonce "other" [] 1; EvReceive (message cmdAccountState "other" [Byte.x01]); EvReceive (message cmdAccountState "mine" [Byte.x02]);
   EvDispatch 1; EvDispatch 0; EvSelect WResponse].

Lemma reply_correlated_witness :
  (GetAccountState 4 "mine" [] busy_events (history 4 [] client)).1.1 = Some (inr [Byte.x02]) ∧
  answered bytes_only "mine" (dispatchCh (history 4 [] client) ++ received busy_events) [Byte.x02].
Proof.
  destruct (GetAccountState 4 "mine" [] busy_events (history 4 [] client)) as [[o acks] c'] eqn:E. assert (o = Some (inr [Byte.x02])) as -> by (vm_compute in E; by injection E as <- _ _).
  split; [done|]. apply (reply_correlated 4 cmdGetAccountState 1 bytes_only no_ack "mine" [] [] busy_events client [Byte.x02] acks c'); [done| |exact E].
  repeat constructor. done.
Defined.

Lemma receipt_either_order_witness : (SendRawTransactionAndWaitReceipt 4 "id" [] (deliver [message cmdReceipt "id" [Byte.x07]; message cmdTransactionSuccess "id" []] ++ [EvSelect WResponse; EvSelect WResponse]) client).1.1 = Some (inr [Byte.x07]).
Proof.
  destruct (begin 4 cmdSendRawTransaction "id" [] 2 client) as [[e|ch] c1] eqn:E; [vm_compute in E; done|].
  apply (receipt_either_order 4 "id" [] client ch c1 (message cmdTransactionSuccess "id" []) (message cmdReceipt "id" [Byte.x07]) E); [done..|by right].
Defined.

Lemma registration_protocol_witness : (RegisterAccount 4 (λ b, match b with [] => Some "PENDING" | _ => Some "FAILED" end) "id" []
    (deliver [message cmdRegisterAccountAck "id" []; message cmdRegistrationResult "id" [Byte.x01]] ++ [EvSelect WResponse; EvSelect WResponse]) client).1.1 = Some (inr ([Byte.x01], true)).
Proof.
  destruct (begin 4 cmdRegisterAccount "id" [] 4 client) as [[e|ch] c1] eqn:E; [vm_compute in E; done|].
  rewrite (registration_protocol 4 (λ b, match b with [] => Some "PENDING" | _ => Some "FAILED" end) "id" [] client ch c1 (message cmdRegisterAccountAck "id" []) (message cmdRegistrationResult "id" [Byte.x01]) E); done.
Defined.

Lemma failure_releases_callers_witness : begin 4 cmdGetNonce "id" [] 1 (history 4 [EvFinish "x"] (handleConnectionError "eof" client)) =
  (inl ErrNotConnected, history 4 [EvFinish "x"] (handleConnectionError "eof" client)).
Proof. destruct (failure_releases_callers 4 "eof" [EvFinish "x"] client bytes_only no_ack 0 [] [] cmdGetNonce "id" [] 1) as (_ & _ & H); [done|]. exact H. Defined.

Import ToyCrypto.
#[local] Instance toy_address : EthAddress := {| BytesToAddress b := take 20 b; AddressHex b := EmptyString |}.
Lemma reconnected_client_is_dead_witness : ∃ c', Connect 4 (λ a _ _, a) "id" "1" (Some peer) true (Disconnect client) = (c', None) ∧ IsConnected c' = true.
Proof.
  destruct (Connect 4 (λ a _ _, a) "id" "1" (Some peer) true (Disconnect client)) as [c' o] eqn:E. assert (o = None) as -> by (vm_compute in E; by injection E as _ <-).
  exists c'. split; [done|]. apply (reconnected_client_is_dead 4 (λ a _ _, a) "id" "1" (Some peer) true client c' bytes_only no_ack 0 [] [] eq_refl E).
Defined.
End ClientExample.
