(* ===== verification/RpcServer.v ===== *)
(** * The TCP RPC server ([cmd/rpc-client/internal/tcp_server])

    The server answers requests of TCP clients: it keeps their subscriptions, starts and stops the
    relay of chain events, remembers which connection belongs to which wallet, and forwards the other
    requests to the chain.  A request is a connection, a message and the [World] during it: what the
    chain client, the intercepting handlers and the account state return.  The messages it sends are
    collected in order. *)

From S2P Require Import Prelude GoLib Interfaces LevelDB Wire ChainClient Subscriptions WsSubscriptions.

(** ** Messages *)

(** Protobuf requests, [None] when a body does not unmarshal. *)
Class TcpCodec := {
  parse_subscribe : bytes → option (list bytes * list bytes);   (** addresses, topics *)
  parse_unsubscribe : bytes → option string;
  parse_send_tx : bytes → option bytes;
  parse_eth_call : bytes → option (bytes * bytes);              (** to, data *)
  parse_hash : bytes → option bytes;
  parse_init : bytes → option bytes;                            (** address *)
  parse_receipt : bytes → option (bytes * bytes * bool * bytes); (** amount, to, returned, return data *)
  parse_receipt_response : bytes → option (string * option bytes); (** error, marshalled receipt *)
  marshal_receipt_request : bytes → bytes;
  marshal_hash : bytes → bytes;
  marshal_failed : client_error → bytes;
  parse_params : bytes → list bytes;                            (** a JSON array, empty when malformed *)
  HashHex : bytes → string;                                     (** [common.Hash.Hex] *)
  HexToAddress : string → bytes;
  HexToHash : string → bytes;
}.

(** What the server sends. *)
Inductive out :=
  | OutResponse (conn : conn_id) (id : string) (result : bytes) (error : option Z)
  | OutMessage (conn : conn_id) (cmd version id : string) (body : bytes)
  | OutReceipt (conn : conn_id) (receipt : bytes).

(** ** State *)

Record RpcTcpServer := {
  TcpSubManager : Tcp.TcpSubscriptionManager;
  wsRelayRunning : bool;
  wsRelayCancelled : bool;   (** the context of the relay was cancelled *)
  relays : nat;              (** relay goroutines started and not ended *)
  clientConnections : gmap bytes conn_id;
}.

Definition NewServer : RpcTcpServer :=
  {| TcpSubManager := Tcp.NewTcpSubscriptionManager; wsRelayRunning := false; wsRelayCancelled := false; relays := 0; clientConnections := ∅ |}.

Definition with_subs (m : Tcp.TcpSubscriptionManager) (s : RpcTcpServer) : RpcTcpServer :=
  {| TcpSubManager := m; wsRelayRunning := wsRelayRunning s; wsRelayCancelled := wsRelayCancelled s; relays := relays s; clientConnections := clientConnections s |}.
Definition with_clients (l : gmap bytes conn_id) (s : RpcTcpServer) : RpcTcpServer :=
  {| TcpSubManager := TcpSubManager s; wsRelayRunning := wsRelayRunning s; wsRelayCancelled := wsRelayCancelled s; relays := relays s; clientConnections := l |}.

(** The world during a request. *)
Record World := {
  w_Pool : option bool;                                 (** [ChainPool]: nil, or whether [Get] succeeds *)
  w_Chain : string → bytes → client_error + bytes;      (** the chain client, by its request command *)
  w_Nonce : bytes → client_error + Z;
  w_Register : bytes → list bytes * (client_error + bytes * bool);
  w_IsConnect : conn_id → bool;
  w_Rnd : bytes;                                        (** random bytes of a new subscription *)
  w_AccountCall : bytes → bytes → option (option bytes); (** [HandleEthCall]: error, or the result if any *)
  w_RobotCall : bytes → option (option bytes);
  w_Marshal : bytes → bytes → bytes → Z → option bytes;  (** the signed read transaction *)
  w_DecodeError : bytes → Z → Z;                        (** the error decoder's code for a contract *)
  w_HttpSend : bytes → bytes + Z;                       (** results of the HTTP handlers *)
  w_RegisterBls : bytes → bytes + Z;
  w_Decode : bytes → bool;                              (** [UnmarshalBinary] of a raw transaction *)
  w_Sender : bytes → option bytes;
  w_Balance : bytes → option Z;
  w_TopUp : bytes → bool;
  w_Build : bytes → option (option (bytes * bytes));    (** [NewTransactionFromEth]: its target and hash *)
  w_Robot : bytes → bool * option (option string) * bool;  (** handled, result, error *)
}.

Section Server.
Context `{TcpCodec} `{EthCommon} `{EthAddress}.
Context (interceptor : Ws.SubscriptionInterceptor) (ChainId : Z) (DisableFreeGas : bool) (FreeGasMinBalance : Z).
Abbreviation contracts := (Ws.ContractsInterceptor interceptor).

(** ** Subscriptions and the relay *)

Definition ensureWsRelay (s : RpcTcpServer) : RpcTcpServer :=
  if wsRelayRunning s then s
  else {| TcpSubManager := TcpSubManager s; wsRelayRunning := true; wsRelayCancelled := false; relays := S (relays s); clientConnections := clientConnections s |}.

Definition stopWsRelayIfEmpty (s : RpcTcpServer) : RpcTcpServer :=
  if (0 <? Tcp.SubscriptionCount (TcpSubManager s))%Z then s
  else if wsRelayRunning s then
    {| TcpSubManager := TcpSubManager s; wsRelayRunning := true; wsRelayCancelled := true; relays := relays s; clientConnections := clientConnections s |}
  else s.

(** The relay goroutine notices its cancelled context and ends. *)
Definition relay_ends (s : RpcTcpServer) : RpcTcpServer :=
  if decide (0 < relays s) then
    if wsRelayCancelled s then
      {| TcpSubManager := TcpSubManager s; wsRelayRunning := false; wsRelayCancelled := wsRelayCancelled s; relays := pred (relays s); clientConnections := clientConnections s |}
    else s
  else s.

(** [relayWsEvents], one message from the chain: an event with an address is broadcast. *)
Definition relay_event (marshal : RpcEvent → option bytes) (iter : gmap string TcpSubscription → list (string * TcpSubscription))
    (isEvent : bool) (result : gmap string jval) (s : RpcTcpServer) : list (conn_id * bytes) :=
  let contractAddr := getString result "address" in
  if isEvent && negb (bool_decide (contractAddr = EmptyString)) then
    Tcp.BroadcastEvent marshal iter contractAddr
      match result !! "topics" with Some (JList l) => omap (λ v, match v with JString s => Some s | _ => None end) l | _ => [] end
      result (TcpSubManager s)
  else [].

(** [isIntercepted]: some addresses, all of them intercepted. *)
Definition is_intercepted (addrs : list string) : bool :=
  match addrs with [] => false | _ => forallb (λ a, Ws.IsMonitoredContract a interceptor) addrs end.

Definition handleEthSubscribe (w : World) (conn : conn_id) (m : pb_Message) (s : RpcTcpServer) : RpcTcpServer * list out :=
  match parse_subscribe (Body m) with
  | None => (s, [OutResponse conn (ID m) [] (Some (-32602)%Z)])
  | Some (addresses, topics) =>
      let contractAddrs := (λ b, AddressHex (BytesToAddress b)) <$> addresses in
      let topics := (λ b, HashHex (BytesToHash b)) <$> topics in
      let '(subs, subID) := Tcp.CreateSubscription conn contractAddrs topics (w_Rnd w) (TcpSubManager s) in
      let s := with_subs subs s in
      let s := if is_intercepted contractAddrs then s else ensureWsRelay s in
      (s, [OutResponse conn (ID m) (str_bytes subID) None])
  end.

Definition handleEthUnsubscribe (conn : conn_id) (m : pb_Message) (s : RpcTcpServer) : RpcTcpServer * list out :=
  match parse_unsubscribe (Body m) with
  | None | Some EmptyString => (s, [OutResponse conn (ID m) [z2b 0] None])
  | Some subID =>
      let '(subs, removed) := Tcp.RemoveSubscription subID (TcpSubManager s) in
      (stopWsRelayIfEmpty (with_subs subs s), [OutResponse conn (ID m) [z2b (if removed then 1 else 0)] None])
  end.

(** ** Clients *)

Definition handleInitConnection (conn : conn_id) (m : pb_Message) (s : RpcTcpServer) : RpcTcpServer :=
  match parse_init (Body m) with
  | None => s
  | Some address => with_clients (<[BytesToAddress address := conn]> (clientConnections s)) s
  end.

Definition GetClientConnection (w : World) (addr : bytes) (s : RpcTcpServer) : option conn_id * RpcTcpServer :=
  match clientConnections s !! addr with
  | Some conn => if w_IsConnect w conn then (Some conn, s) else (None, with_clients (delete addr (clientConnections s)) s)
  | None => (None, s)
  end.

Definition OnConnectionClosed (conn : conn_id) (s : RpcTcpServer) : RpcTcpServer :=
  let '(subs, removed) := Tcp.RemoveByConnection conn (TcpSubManager s) in
  let s := with_subs subs s in
  let s := if (0 <? removed)%Z then stopWsRelayIfEmpty s else s in
  with_clients (filter (λ '(_, c), c ≠ conn) (clientConnections s)) s.

(** The receipt of a transfer goes to its recipient, if connected.  A goroutine does it; here it comes
    after the response. *)
Definition forwardReceiptToRecipient (w : World) (receiptBytes : bytes) (s : RpcTcpServer) : RpcTcpServer * list out :=
  match parse_receipt receiptBytes with
  | None => (s, [])
  | Some (amount, to, _, _) =>
      if forallb (λ b, bool_decide (b = z2b 0)) amount then (s, [])
      else
        let toAddr := BytesToAddress to in
        if decide (toAddr = zeros 20) then (s, [])
        else match GetClientConnection w toAddr s with
             | (Some recipient, s) => (s, [OutReceipt recipient receiptBytes])
             | (None, s) => (s, [])
             end
  end.

(** ** Requests to the chain *)

Definition fail (conn : conn_id) (m : pb_Message) (code : Z) : list out := [OutResponse conn (ID m) [] (Some code)].
Definition answer (conn : conn_id) (m : pb_Message) (cmd : string) (body : bytes) : out := OutMessage conn cmd (Version m) (ID m) body.

(** The handlers that check the pool for nil. *)
Definition with_pool (w : World) (conn : conn_id) (m : pb_Message) (k : list out) : list out :=
  match w_Pool w with Some true => k | _ => fail conn m (-32603) end.
(** The handlers that do not: [None] is a nil dereference. *)
Definition pool_or_panic {A} (w : World) (refused k : A) : option A :=
  match w_Pool w with None => None | Some true => Some k | Some false => Some refused end.

Definition handleGetRegistrationMessage (w : World) (conn : conn_id) (m : pb_Message) : list out :=
  if length (Body m) <? 20 then fail conn m (-32602)
  else with_pool w conn m
    match w_Chain w cmdGetRegistrationMessage (BytesToAddress (take 20 (Body m))) with
    | inl _ => fail conn m (-32603)
    | inr b => [answer conn m cmdRegistrationMessage b]
    end.

Definition handleGetRegistrationStatus (w : World) (conn : conn_id) (m : pb_Message) : list out :=
  if length (Body m) <? 20 then fail conn m (-32602)
  else with_pool w conn m
    match w_Chain w cmdGetRegistrationStatus (BytesToAddress (take 20 (Body m))) with
    | inl _ => fail conn m (-32603)
    | inr b => [answer conn m cmdRegistrationStatus b]
    end.

(** Acknowledgements are forwarded as they come; an error becomes a failed acknowledgement. *)
Definition handleRegisterAccount (w : World) (conn : conn_id) (m : pb_Message) : list out :=
  with_pool w conn m
    (let '(acks, r) := w_Register w (Body m) in
     (answer conn m cmdRegisterAccountAck <$> acks) ++
     match r with
     | inl e => [answer conn m cmdRegisterAccountAck (marshal_failed e)]
     | inr (b, true) => match b with [] => [] | _ => [answer conn m cmdRegistrationResult b] end
     | inr (_, false) => []
     end).

Definition handleGetAccountState (w : World) (conn : conn_id) (m : pb_Message) : list out :=
  if negb (length (Body m) =? 20) then fail conn m (-32602)
  else with_pool w conn m
    match w_Chain w cmdGetAccountState (Body m) with
    | inl _ => fail conn m (-32603)
    | inr b => [answer conn m cmdAccountState b]
    end.

Definition handleChainIdDirect (conn : conn_id) (m : pb_Message) : list out := [answer conn m "ChainId" (PutUint64 (u64 ChainId))].

(** Errors of the pool and the chain are returned to the worker, which logs them: the client gets no answer. *)
Definition handleGetNonce (w : World) (conn : conn_id) (m : pb_Message) : option (list out) :=
  if negb (length (Body m) =? 20) then Some (fail conn m (-32602))
  else pool_or_panic w []
    match w_Nonce w (Body m) with inl _ => [] | inr n => [answer conn m cmdNonce (PutUint64 n)] end.

Definition handleGetTransactionReceipt (w : World) (conn : conn_id) (m : pb_Message) : option (list out) :=
  match parse_hash (Body m) with
  | None | Some [] => Some (fail conn m (-32602))
  | Some h =>
      pool_or_panic w (fail conn m (-32603))
        match w_Chain w cmdGetTransactionReceipt (marshal_receipt_request (BytesToHash h)) with
        | inl _ => fail conn m (-32603)
        | inr b =>
            match parse_receipt_response b with
            | None => fail conn m (-32603)
            | Some (e, r) =>
                if decide (e = EmptyString) then [OutResponse conn (ID m) (default [] r) None] else fail conn m (-32603)
            end
        end
  end.

(** The [i]-th intercepted contract; the index panics when there are fewer. *)
Definition intercepted (i : nat) : option bytes := HexToAddress <$> contracts !! i.

Definition applyErrorDecoder (w : World) (code : Z) (contractAddr : bytes) : Z :=
  if decide (contractAddr = zeros 20) then code else w_DecodeError w contractAddr code.

(** [handleEthCallTCP] after the interceptors: a read transaction at the sender's nonce. *)
Definition read_call (w : World) (conn : conn_id) (m : pb_Message) (from toAddr data : bytes) : list out :=
  let nonce := match w_Nonce w from with inr n => n | inl _ => 0%Z end in
  match w_Marshal w from toAddr data nonce with
  | None => fail conn m (-32603)
  | Some tx =>
      match w_Chain w cmdReadTransaction tx with
      | inl _ => fail conn m (-32603)
      | inr b =>
          match parse_receipt b with
          | None => fail conn m (-32603)
          | Some (_, _, returned, ret) =>
              if (returned : bool) then [OutResponse conn (ID m) ret None] else fail conn m (applyErrorDecoder w 3 toAddr)
          end
      end
  end.

(** An intercepting handler's part: its answer or error, or [None] to go on. *)
Definition intercept (conn : conn_id) (m : pb_Message) (r : option (option bytes)) : option (list out) :=
  match r with
  | None => Some (fail conn m (-32603))
  | Some (Some r) => Some [OutResponse conn (ID m) r None]
  | Some None => None
  end.

Definition handleEthCallTCP (w : World) (conn : conn_id) (m : pb_Message) (from to data : bytes) : option (list out) :=
  let toAddr := BytesToAddress to in
  a0 ← intercepted 0;
  match (if decide (toAddr = a0) then intercept conn m (w_AccountCall w data from) else None) with
  | Some o => Some o
  | None =>
      a1 ← intercepted 1;
      match (if decide (toAddr = a1) then intercept conn m (w_RobotCall w data) else None) with
      | Some o => Some o
      | None => Some (read_call w conn m from toAddr data)
      end
  end.

Definition handleEthCall (w : World) (conn : conn_id) (m : pb_Message) : option (list out) :=
  match parse_eth_call (Body m) with
  | None | Some ([], _) => Some (fail conn m (-32602))
  | Some (to, data) =>
      let from := ToAddress m in
      if decide (from = zeros 20) then Some (fail conn m (-32602))
      else
        match w_Pool w with
        | None => None
        | Some false => Some (fail conn m (-32603))
        | Some true => handleEthCallTCP w conn m from to data
        end
  end.

Definition sendNormalTCPTransaction (w : World) (conn : conn_id) (m : pb_Message) (raw : bytes) (s : RpcTcpServer) : RpcTcpServer * list out :=
  match w_Chain w cmdSendRawTransaction raw with
  | inl _ => (s, fail conn m (-32603))
  | inr receipt =>
      let '(s, o) := forwardReceiptToRecipient w receipt s in
      (s, OutResponse conn (ID m) receipt None :: o)
  end.

(** The robot's part: handled, refused, or passed on. *)
Definition robot_transaction (w : World) (conn : conn_id) (m : pb_Message) (raw txHash : bytes) (s : RpcTcpServer) : RpcTcpServer * list out :=
  match w_Robot w raw with
  | (true, _, true) => (s, fail conn m (-32603))
  | (true, Some (Some h), false) => (s, [OutResponse conn (ID m) (marshal_hash (if decide (h = EmptyString) then zeros 32 else HexToHash h)) None])
  | (true, Some None, false) => (s, [OutResponse conn (ID m) (marshal_hash (zeros 32)) None])
  | (true, None, false) => (s, [OutResponse conn (ID m) (marshal_hash txHash) None])
  | (false, _, false) => sendNormalTCPTransaction w conn m raw s
  | (false, _, true) => (s, fail conn m (-32603))
  end.

Definition handleSendRawTransactionTCP (w : World) (conn : conn_id) (m : pb_Message) (raw : bytes) (s : RpcTcpServer) : RpcTcpServer * list out :=
  match w_Sender w raw with
  | None => (s, fail conn m (-32603))
  | Some from =>
      match w_Balance w from with
      | None => (s, fail conn m (-32603))
      | Some balance =>
          if negb DisableFreeGas && (balance <? FreeGasMinBalance)%Z && negb (w_TopUp w from) then (s, fail conn m (-32603))
          else match w_Build w raw with
               | None | Some None => (s, fail conn m (-32603))
               | Some (Some (to, txHash)) =>
                   match contracts with
                   | _ :: c1 :: _ => if decide (to = HexToAddress c1) then robot_transaction w conn m raw txHash s else sendNormalTCPTransaction w conn m raw s
                   | _ => sendNormalTCPTransaction w conn m raw s
                   end
               end
      end
  end.

Definition handleSendRawTransaction (w : World) (conn : conn_id) (m : pb_Message) (s : RpcTcpServer) : option (RpcTcpServer * list out) :=
  match parse_send_tx (Body m) with
  | None | Some [] => Some (s, fail conn m (-32602))
  | Some raw =>
      if negb (w_Decode w raw) then Some (s, fail conn m (-32603))
      else pool_or_panic w (s, fail conn m (-32603)) (handleSendRawTransactionTCP w conn m raw s)
  end.

(** The results of the HTTP handlers as responses. *)
Definition http_response (conn : conn_id) (m : pb_Message) (r : bytes + Z) : list out :=
  match r with inl b => [OutResponse conn (ID m) b None] | inr code => fail conn m code end.

Definition handleHttpSendRawTransaction (w : World) (conn : conn_id) (m : pb_Message) : list out :=
  match parse_params (Body m) with
  | [] | [] :: _ => fail conn m (-32602)
  | rawTxHex :: _ => http_response conn m (w_HttpSend w rawTxHex)
  end.

Definition handleRegisterBlsKey (w : World) (conn : conn_id) (m : pb_Message) : list out :=
  match parse_params (Body m) with
  | [] => fail conn m (-32602)
  | p :: _ => http_response conn m (w_RegisterBls w p)
  end.

(** ** Dispatch *)

(** [HandleRequest]; [None] is a panic, which no worker recovers. *)
Definition HandleRequest (w : World) (conn : conn_id) (r : option pb_Message) (s : RpcTcpServer) : option (RpcTcpServer * list out) :=
  match r with
  | None => Some (s, [])
  | Some m =>
      let cmd := Command m in
      if decide (cmd = "InitConnection") then Some (handleInitConnection conn m s, [])
      else if decide (cmd = "Ping") then Some (s, [])
      else if decide (cmd = "eth_sendRawTransaction") then handleSendRawTransaction w conn m s
      else if decide (cmd = "http_sendRawTransaction") then Some (s, handleHttpSendRawTransaction w conn m)
      else if decide (cmd = "eth_call") then o ← handleEthCall w conn m; Some (s, o)
      else if decide (cmd = "rpc_registerBlsKeyWithSignature") then Some (s, handleRegisterBlsKey w conn m)
      else if decide (cmd = "eth_subscribe") then Some (handleEthSubscribe w conn m s)
      else if decide (cmd = "eth_unsubscribe") then Some (handleEthUnsubscribe conn m s)
      else if decide (cmd = "eth_getTransactionReceipt") then o ← handleGetTransactionReceipt w conn m; Some (s, o)
      else if decide (cmd = "GetNonce") then o ← handleGetNonce w conn m; Some (s, o)
      else if decide (cmd = "GetChainId") then Some (s, handleChainIdDirect conn m)
      else if decide (cmd = "GetAccountState") then Some (s, handleGetAccountState w conn m)
      else if decide (cmd = "GetRegistrationMessage") then Some (s, handleGetRegistrationMessage w conn m)
      else if decide (cmd = "GetRegistrationStatus") then Some (s, handleGetRegistrationStatus w conn m)
      else if decide (cmd = "RegisterAccount") then Some (s, handleRegisterAccount w conn m)
      else Some (s, fail conn m (-32601))
  end.
End Server.
