(* ===== verification/RpcServerTheorems.v ===== *)
(** * Properties of the TCP RPC server

    Who gets an answer, the life of the event relay, the table of clients, and the requests that bring
    the server down or stay unanswered. *)

From S2P Require Import Prelude GoLib Interfaces LevelDB Wire ChainClient Subscriptions WsSubscriptions SubscriptionsTheorems RpcServer.

Section RpcProofs.
Context `{TcpCodec} `{EthCommon} `{EthAddress}.
Context (interceptor : Ws.SubscriptionInterceptor) (ChainId : Z) (DisableFreeGas : bool) (FreeGasMinBalance : Z).
Abbreviation HandleRequest := (HandleRequest interceptor ChainId DisableFreeGas FreeGasMinBalance).

(** ** Answers *)

(** An answer to the request, or the receipt of a transfer for the client registered as its recipient. *)
Definition addressed (conn : conn_id) (m : pb_Message) (s : RpcTcpServer) (o : out) : Prop :=
  match o with
  | OutResponse c id _ _ => c = conn ∧ id = ID m
  | OutMessage c _ version id _ => c = conn ∧ id = ID m ∧ version = Version m
  | OutReceipt c r => ∃ amount to returned ret, parse_receipt r = Some (amount, to, returned, ret) ∧ clientConnections s !! BytesToAddress to = Some c
  end.
Definition is_receipt (o : out) : bool := match o with OutReceipt _ _ => true | _ => false end.
Definition answers (l : list out) : list out := filter (λ o, is_receipt o = false) l.

Lemma addressed_fail conn m s code : Forall (addressed conn m s) (fail conn m code).
Proof. by repeat constructor. Qed.

Lemma forward_addressed w r s conn m : Forall (addressed conn m s) (forwardReceiptToRecipient w r s).2 ∧ answers (forwardReceiptToRecipient w r s).2 = [].
Proof.
  unfold forwardReceiptToRecipient. destruct (parse_receipt r) as [[[[amount to] returned] ret]|] eqn:E; [|by split]. destruct (forallb _ amount); [by split|].
  case_decide; [by split|]. unfold GetClientConnection. destruct (clientConnections s !! BytesToAddress to) as [c|] eqn:Ec; [|by split].
  destruct (w_IsConnect w c); [|by split]. split; [|done]. repeat constructor. by exists amount, to, returned, ret.
Qed.

Lemma send_addressed w conn m raw s : let '(s', o) := sendNormalTCPTransaction w conn m raw s in Forall (addressed conn m s) o ∧ length (answers o) = 1.
Proof.
  unfold sendNormalTCPTransaction. destruct (w_Chain w cmdSendRawTransaction raw) as [e|r]; [split; [apply addressed_fail|done]|].
  pose proof (forward_addressed w r s conn m) as [F A]. destruct (forwardReceiptToRecipient w r s) as [s' o]. split; [by constructor|]. simpl in A. unfold answers in *. rewrite filter_cons_True by done. by rewrite A.
Qed.

Ltac answer_tac := repeat (case_match || case_decide); simplify_eq; split; first [apply addressed_fail | by repeat constructor | done].

(** The commands with exactly one answer. *)
Definition answered_once : list string :=
  ["eth_sendRawTransaction"; "http_sendRawTransaction"; "eth_call"; "rpc_registerBlsKeyWithSignature"; "eth_subscribe"; "eth_unsubscribe";
   "eth_getTransactionReceipt"; "GetChainId"; "GetAccountState"; "GetRegistrationMessage"; "GetRegistrationStatus"].

Lemma raw_addressed w conn m s s' o : handleSendRawTransaction interceptor DisableFreeGas FreeGasMinBalance w conn m s = Some (s', o) →
  Forall (addressed conn m s) o ∧ length (answers o) = 1.
Proof.
  assert (∀ s1 code, (s, fail conn m code) = (s1, o) → Forall (addressed conn m s) o ∧ length (answers o) = 1) as Hf by (intros s1 code [= <- <-]; split; [apply addressed_fail|done]).
  assert (∀ raw s1, sendNormalTCPTransaction w conn m raw s = (s1, o) → Forall (addressed conn m s) o ∧ length (answers o) = 1) as Hs
    by (intros raw s1 E; pose proof (send_addressed w conn m raw s) as P; by rewrite E in P).
  assert (∀ r s1, (s, [OutResponse conn (ID m) r None]) = (s1, o) → Forall (addressed conn m s) o ∧ length (answers o) = 1) as Hr by (intros r s1 [= <- <-]; split; [by repeat constructor|done]).
  unfold handleSendRawTransaction. destruct (parse_send_tx (Body m)) as [[|b raw]|]; [intros [= <- <-]; exact (Hf _ _ eq_refl)| |intros [= <- <-]; exact (Hf _ _ eq_refl)].
  destruct (negb _); [intros [= <- <-]; exact (Hf _ _ eq_refl)|]. unfold pool_or_panic. destruct (w_Pool w) as [[]|]; [|intros [= <- <-]; exact (Hf _ _ eq_refl)|done]. intros E. injection E as E. revert E.
  unfold handleSendRawTransactionTCP. destruct (w_Sender w _); [|by apply Hf]. destruct (w_Balance w _); [|by apply Hf]. destruct (_ && _); [by apply Hf|].
  destruct (w_Build w _) as [[[to h]|]|]; [|by apply Hf..]. destruct (Ws.ContractsInterceptor interceptor) as [|? [|? ?]]; [by apply Hs..|].
  case_decide; [|by apply Hs]. unfold robot_transaction. destruct (w_Robot w _) as [[[] [[h1|]|]] []]; first [by apply Hf | by apply Hs | by apply Hr].
Qed.

Lemma call_addressed w conn m s o : handleEthCall interceptor w conn m = Some o → Forall (addressed conn m s) o ∧ length (answers o) = 1.
Proof.
  unfold handleEthCall. destruct (parse_eth_call (Body m)) as [[[|b to] data]|]; [intros [= <-]; answer_tac| |intros [= <-]; answer_tac].
  case_decide; [intros [= <-]; answer_tac|]. destruct (w_Pool w) as [[]|]; [|intros [= <-]; answer_tac|done].
  unfold handleEthCallTCP. destruct (intercepted interceptor 0) as [a0|]; [|done]. simpl. unfold read_call, intercept.
  destruct (intercepted interceptor 1) as [a1|]; simpl; intros E; repeat (case_match || case_decide); simplify_eq; (split; [first [apply addressed_fail | by repeat constructor]|done]).
Qed.

Lemma register_addressed w conn m s : Forall (addressed conn m s) (handleRegisterAccount w conn m).
Proof.
  unfold handleRegisterAccount, with_pool. destruct (w_Pool w) as [[]|]; [|apply addressed_fail..]. destruct (w_Register w (Body m)) as [acks r].
  apply Forall_app. split; [apply Forall_fmap, Forall_true; done|]. repeat case_match; by repeat constructor.
Qed.

Ltac other_command := let D := fresh in intros D; rewrite <- (bool_decide_spec (_ ∈ answered_once)) in D; vm_compute in D; done.

(** C15: Every message the server sends for a request goes to the connection that asked and carries the
    request's identifier, except the receipt of a transfer, which goes to the connection registered for
    its recipient; the requests of [answered_once] get exactly one answer. *)
Theorem answers_addressed w conn m s s' o : HandleRequest w conn (Some m) s = Some (s', o) →
  Forall (addressed conn m s) o ∧ (Command m ∈ answered_once → length (answers o) = 1).
Proof.
  unfold HandleRequest, RpcServer.HandleRequest. intros E.
  assert (Forall (addressed conn m s) o ∧ length (answers o) = 1 → Forall (addressed conn m s) o ∧ (Command m ∈ answered_once → length (answers o) = 1)) as Once by tauto.
  assert (Command m ∉ answered_once → Forall (addressed conn m s) o → Forall (addressed conn m s) o ∧ (Command m ∈ answered_once → length (answers o) = 1)) as Other by tauto.
  case_decide as C; [simplify_eq; apply Other; [rewrite C; other_command|constructor]|clear C].
  case_decide as C; [simplify_eq; apply Other; [rewrite C; other_command|constructor]|clear C].
  case_decide as C; [by eapply Once, raw_addressed|clear C].
  case_decide as C; [simplify_eq; apply Once; unfold handleHttpSendRawTransaction, http_response; answer_tac|clear C].
  case_decide as C; [apply bind_Some in E as (o' & Eo & [= <- <-]); by eapply Once, call_addressed|clear C].
  case_decide as C; [simplify_eq; apply Once; unfold handleRegisterBlsKey, http_response; answer_tac|clear C].
  case_decide as C; [apply Once; unfold handleEthSubscribe in E; destruct (parse_subscribe (Body m)) as [[? ?]|]; simplify_eq; answer_tac|clear C].
  case_decide as C; [apply Once; unfold handleEthUnsubscribe in E; destruct (parse_unsubscribe (Body m)) as [[|? ?]|]; [|destruct (Tcp.RemoveSubscription _ _)|]; simplify_eq; answer_tac|clear C].
  case_decide as C; [apply bind_Some in E as (o' & Eo & [= <- <-]); apply Once; unfold handleGetTransactionReceipt, pool_or_panic in Eo; repeat (case_match || case_decide); simplify_eq; answer_tac|clear C].
  case_decide as C; [apply bind_Some in E as (o' & Eo & [= <- <-]); apply Other; [rewrite C; other_command|]; unfold handleGetNonce, pool_or_panic in Eo;
    repeat (case_match || case_decide); simplify_eq; by repeat constructor|clear C].
  case_decide as C; [simplify_eq; apply Once; answer_tac|clear C].
  case_decide as C; [simplify_eq; apply Once; unfold handleGetAccountState, with_pool; answer_tac|clear C].
  case_decide as C; [simplify_eq; apply Once; unfold handleGetRegistrationMessage, with_pool; answer_tac|clear C].
  case_decide as C; [simplify_eq; apply Once; unfold handleGetRegistrationStatus, with_pool; answer_tac|clear C].
  case_decide as C; [simplify_eq; apply Other; [rewrite C; other_command|by apply register_addressed]|clear C].
  simplify_eq. apply Once. split; [apply addressed_fail|done].
Qed.

(** ** The relay *)

(** What happens to a server: requests, connections that close, and the relay noticing its end. *)
Inductive server_op := ORequest (w : World) (conn : conn_id) (m : option pb_Message) | OClosed (conn : conn_id) | ORelayEnds.
Definition server_step (s : RpcTcpServer) (op : server_op) : option RpcTcpServer :=
  match op with
  | ORequest w conn m => fst <$> HandleRequest w conn m s
  | OClosed conn => Some (OnConnectionClosed conn s)
  | ORelayEnds => Some (relay_ends s)
  end.
Fixpoint server_run (ops : list server_op) (s : RpcTcpServer) : option RpcTcpServer :=
  match ops with [] => Some s | op :: ops => server_step s op ≫= server_run ops end.

Definition relay_ok (s : RpcTcpServer) : Prop := relays s = if wsRelayRunning s then 1 else 0.

Lemma relay_same s s' : wsRelayRunning s' = wsRelayRunning s → relays s' = relays s → relay_ok s → relay_ok s'.
Proof. unfold relay_ok. by intros -> ->. Qed.
Lemma relay_ensure s : relay_ok s → relay_ok (ensureWsRelay s).
Proof. unfold relay_ok, ensureWsRelay. destruct (wsRelayRunning s) eqn:E; [by rewrite E|]. by intros ->. Qed.
Lemma relay_stop s : relay_ok s → relay_ok (stopWsRelayIfEmpty s).
Proof. unfold relay_ok, stopWsRelayIfEmpty. destruct (_ <? _)%Z; [done|]. destruct (wsRelayRunning s) eqn:E; [done|by rewrite E]. Qed.
Lemma relay_end s : relay_ok s → relay_ok (relay_ends s).
Proof. unfold relay_ok, relay_ends. intros R. case_decide; [|done]. destruct (wsRelayCancelled s); [|done]. simpl. destruct (wsRelayRunning s); rewrite R; done. Qed.

Lemma forward_relay w r s : relay_ok s → relay_ok (forwardReceiptToRecipient w r s).1.
Proof.
  intros R. unfold forwardReceiptToRecipient. destruct (parse_receipt r) as [[[[? ?] ?] ?]|]; [|done]. destruct (forallb _ _); [done|]. case_decide; [done|].
  unfold GetClientConnection. destruct (clientConnections s !! _); [|done]. by destruct (w_IsConnect w _).
Qed.
Lemma send_relay w conn m raw s : relay_ok s → relay_ok (sendNormalTCPTransaction w conn m raw s).1.
Proof.
  intros R. unfold sendNormalTCPTransaction. destruct (w_Chain w cmdSendRawTransaction raw) as [|r]; [done|]. pose proof (forward_relay w r s R). by destruct (forwardReceiptToRecipient w r s).
Qed.
Lemma raw_relay w conn m s s' o : relay_ok s → handleSendRawTransaction interceptor DisableFreeGas FreeGasMinBalance w conn m s = Some (s', o) → relay_ok s'.
Proof.
  intros R. assert (∀ raw, sendNormalTCPTransaction w conn m raw s = (s', o) → relay_ok s') as Hs by (intros raw E; pose proof (send_relay w conn m raw s R) as P; by rewrite E in P).
  assert (∀ l, (s, l) = (s', o) → relay_ok s') as Hd by (by intros l [= <- _]).
  unfold handleSendRawTransaction, pool_or_panic. destruct (parse_send_tx (Body m)) as [[|b raw]|]; [by intros [= <- _]| |by intros [= <- _]].
  destruct (negb _); [by intros [= <- _]|]. destruct (w_Pool w) as [[]|]; [|by intros [= <- _]|done]. intros E. injection E as E. revert E.
  unfold handleSendRawTransactionTCP. destruct (w_Sender w _); [|by apply Hd]. destruct (w_Balance w _); [|by apply Hd]. destruct (_ && _); [by apply Hd|].
  destruct (w_Build w _) as [[[to h]|]|]; [|by apply Hd..]. destruct (Ws.ContractsInterceptor interceptor) as [|? [|? ?]]; [by apply Hs..|].
  case_decide; [|by apply Hs]. unfold robot_transaction. destruct (w_Robot w _) as [[[] [[h1|]|]] []]; first [by apply Hd | by apply Hs].
Qed.

Lemma relay_request w conn m s s' o : relay_ok s → HandleRequest w conn m s = Some (s', o) → relay_ok s'.
Proof.
  intros R. unfold HandleRequest, RpcServer.HandleRequest. destruct m as [m|]; [|by intros [= <- _]].
  case_decide; [intros [= <- _]; unfold handleInitConnection; by destruct (parse_init _)|]. case_decide; [by intros [= <- _]|].
  case_decide; [by apply raw_relay|]. case_decide; [by intros [= <- _]|]. case_decide; [intros (? & _ & [= <- _])%bind_Some; done|]. case_decide; [by intros [= <- _]|].
  case_decide.
  { unfold handleEthSubscribe. destruct (parse_subscribe _) as [[a t]|]; [|by intros [= <- _]]. destruct (Tcp.CreateSubscription _ _ _ _ _) as [subs subID].
    intros [= <- _]. destruct (is_intercepted _ _); [done|by apply relay_ensure]. }
  case_decide.
  { unfold handleEthUnsubscribe. destruct (parse_unsubscribe _) as [[|x l]|]; [by intros [= <- _]| |by intros [= <- _]]. destruct (Tcp.RemoveSubscription _ _) as [subs removed].
    intros [= <- _]. by apply relay_stop. }
  case_decide; [intros (? & _ & [= <- _])%bind_Some; done|]. case_decide; [intros (? & _ & [= <- _])%bind_Some; done|].
  repeat (case_decide; [by intros [= <- _]|]). by intros [= <- _].
Qed.

Lemma relay_closed conn s : relay_ok s → relay_ok (OnConnectionClosed conn s).
Proof.
  intros R. unfold OnConnectionClosed. destruct (Tcp.RemoveByConnection conn (TcpSubManager s)) as [subs n]. destruct (0 <? n)%Z; [|done].
  apply (relay_same (stopWsRelayIfEmpty (with_subs subs s))); [done..|]. by apply relay_stop.
Qed.

(** In every reachable state at most one relay is running, and the flag says whether one is. *)
Theorem relay_single ops : ∀ s, server_run ops NewServer = Some s → relays s = if wsRelayRunning s then 1 else 0.
Proof.
  assert (relay_ok NewServer) as R by done. revert R. generalize NewServer. induction ops as [|op ops IH]; intros s0 R s E; [by injection E as <-|].
  simpl in E. destruct (server_step s0 op) as [s1|] eqn:Es; [|done]. apply (IH s1); [|exact E]. destruct op; simpl in Es.
  - apply fmap_Some in Es as ([s2 o] & Eh & ->). by eapply relay_request.
  - injection Es as <-. by apply relay_closed.
  - injection Es as <-. by apply relay_end.
Qed.

(** A subscription that arrives between the cancellation of the relay and its end is not relayed: it is
    in the table, and no relay is running. *)
Theorem relay_lost_wakeup w conn m s addresses topics : parse_subscribe (Body m) = Some (addresses, topics) →
  is_intercepted interceptor ((λ b, AddressHex (BytesToAddress b)) <$> addresses) = false →
  wsRelayRunning s = true → wsRelayCancelled s = true → relays s = 1 →
  let '(s', o) := handleEthSubscribe interceptor w conn m s in
  is_Some (subscriptions (TcpSubManager s') !! generateSubID (w_Rnd w)) ∧ relays (relay_ends s') = 0 ∧ wsRelayRunning (relay_ends s') = false.
Proof.
  intros Ep Ei Er Ec E1. unfold handleEthSubscribe. rewrite Ep. cbn [Tcp.CreateSubscription]. rewrite Ei. unfold ensureWsRelay. simpl. rewrite Er. simpl.
  rewrite lookup_insert_eq. split; [by eexists|]. unfold relay_ends. simpl. rewrite E1, Ec. done.
Qed.

(** ** Clients *)

(** A client that registers an address is found under it while connected, whoever was registered before;
    other addresses keep their clients; and a connection that closed is found under none. *)
Theorem client_table w conn m s a : parse_init (Body m) = Some a → w_IsConnect w conn = true →
  (GetClientConnection w (BytesToAddress a) (handleInitConnection conn m s)).1 = Some conn ∧
  (∀ b, b ≠ BytesToAddress a → clientConnections (handleInitConnection conn m s) !! b = clientConnections s !! b) ∧
  (∀ b, clientConnections (OnConnectionClosed conn (handleInitConnection conn m s)) !! b ≠ Some conn).
Proof.
  intros Ep Ec. split_and!.
  - unfold GetClientConnection, handleInitConnection. rewrite Ep. simpl. by rewrite lookup_insert_eq, Ec.
  - intros b Hb. unfold handleInitConnection. rewrite Ep. simpl. by rewrite lookup_insert_ne.
  - intros b. unfold OnConnectionClosed. destruct (Tcp.RemoveByConnection _ _) as [subs n]. simpl. rewrite map_lookup_filter_Some. by intros [_ Hc].
Qed.

(** ** Requests that fail *)

(** With fewer than two intercepted contracts configured, a well-formed call that the account handler
    does not answer panics. *)
Theorem eth_call_needs_two_contracts w conn m s to data : parse_eth_call (Body m) = Some (to, data) → to ≠ [] → ToAddress m ≠ zeros 20 →
  w_Pool w = Some true → Command m = "eth_call" → length (Ws.ContractsInterceptor interceptor) < 2 →
  (∀ c, Ws.ContractsInterceptor interceptor = [c] → BytesToAddress to ≠ HexToAddress c) →
  HandleRequest w conn (Some m) s = None.
Proof.
  intros Ep Nt Nf Ew Ec Hl Ha. unfold HandleRequest, RpcServer.HandleRequest. rewrite Ec. do 4 rewrite decide_False by done. rewrite decide_True by done. unfold handleEthCall. rewrite Ep. destruct to as [|b to]; [done|]. rewrite decide_False by done. rewrite Ew.
  unfold handleEthCallTCP, intercepted. destruct (Ws.ContractsInterceptor interceptor) as [|c [|c' l]] eqn:Ei; [done| |simpl in Hl; lia].
  cbn [lookup list_lookup fmap option_fmap option_map mbind option_bind]. rewrite decide_False by (by apply Ha). done.
Qed.

(** A failing nonce request is not answered at all. *)
Theorem nonce_failure_unanswered w conn m s e : Command m = "GetNonce" → length (Body m) = 20 → w_Pool w = Some true → w_Nonce w (Body m) = inl e →
  HandleRequest w conn (Some m) s = Some (s, []).
Proof.
  intros Ec El Ew En. unfold HandleRequest, RpcServer.HandleRequest. rewrite Ec. do 9 rewrite decide_False by done. rewrite decide_True by done. unfold handleGetNonce, pool_or_panic. rewrite El, Ew, En. done.
Qed.
End RpcProofs.

(** ** Concrete runs *)

Module RpcExample.
Import ToyCrypto.

#[local] Instance toy_address : EthAddress := {| BytesToAddress b := take 20 (b ++ zeros 20); AddressHex b := "0x" +:+ bytes_str b |}.
#[local] Instance toy_codec : TcpCodec := {|
  parse_subscribe b := Some ([b], []); parse_unsubscribe b := Some (bytes_str b); parse_send_tx b := Some b; parse_eth_call b := Some (b, b);
  parse_hash b := Some b; parse_init b := Some b; parse_receipt b := Some (b, b, true, b); parse_receipt_response b := Some (EmptyString, Some b);
  marshal_receipt_request b := b; marshal_hash b := b; marshal_failed e := []; parse_params b := [b]; HashHex b := bytes_str b; HexToAddress s := str_bytes s;
  HexToHash s := str_bytes s |}.

Definition world (n : client_error + Z) : World := {|
  w_Pool := Some true; w_Chain c b := inr b; w_Nonce b := n; w_Register b := ([], inr (b, true)); w_IsConnect c := true; w_Rnd := [Byte.x01];
  w_AccountCall d f := Some None; w_RobotCall d := Some None; w_Marshal f t d k := Some d; w_DecodeError a c := c; w_HttpSend b := inl b; w_RegisterBls b := inl b;
  w_Decode b := true; w_Sender b := Some b; w_Balance b := Some 0%Z; w_TopUp b := true; w_Build b := Some (Some (b, b)); w_Robot b := (false, None, false) |}.
Definition mon (l : list string) : Ws.SubscriptionInterceptor := Ws.NewSubscriptionInterceptor l.
Definition msg (cmd : string) (to body : bytes) : pb_Message :=
  {| m_Header := Some {| h_Command := cmd; h_Pubkey := []; h_ToAddress := to; h_Sign := []; h_Version := "1"; h_ID := "id" |}; m_Body := body |}.
(** A relay that was told to stop and has not noticed yet. *)
Definition stopping : RpcTcpServer :=
  {| TcpSubManager := Tcp.NewTcpSubscriptionManager; wsRelayRunning := true; wsRelayCancelled := true; relays := 1; clientConnections := {[ take 20 ([Byte.x07] ++ zeros 20) := 5%positive ]} |}.

(** The receipt of a transfer also reaches its recipient. *)
Lemma answers_addressed_witness : ∃ s' o, HandleRequest (mon ["a"; "b"]) 1 false 10 (world (inr 0%Z)) 1%positive (Some (msg "eth_sendRawTransaction" [] [Byte.x07])) stopping = Some (s', o) ∧
  o = [OutResponse 1%positive "id" [Byte.x07] None; OutReceipt 5%positive [Byte.x07]] ∧ length (answers o) = 1.
Proof.
  destruct (HandleRequest (mon ["a"; "b"]) 1 false 10 (world (inr 0%Z)) 1%positive (Some (msg "eth_sendRawTransaction" [] [Byte.x07])) stopping) as [[s' o]|] eqn:E; [|vm_compute in E; done].
  exists s', o. destruct (answers_addressed (mon ["a"; "b"]) 1 false 10 (world (inr 0%Z)) 1%positive (msg "eth_sendRawTransaction" [] [Byte.x07]) stopping s' o E) as [_ A].
  split; [done|]. split; [vm_compute in E; by injection E as _ <-|]. apply A. vm_compute. by left.
Defined.

Definition quiet : list server_op :=
  [ORequest (world (inr 0%Z)) 1%positive (Some (msg "eth_subscribe" [] [Byte.x03])); ORequest (world (inr 0%Z)) 2%positive (Some (msg "eth_subscribe" [] [Byte.x04])); OClosed 1%positive; OClosed 2%positive; ORelayEnds].
Lemma relay_single_witness : ∃ s, server_run (mon []) 1 false 10 quiet NewServer = Some s ∧ relays s = if wsRelayRunning s then 1 else 0.
Proof.
  destruct (server_run (mon []) 1 false 10 quiet NewServer) as [s|] eqn:E; [|vm_compute in E; done]. exists s. split; [done|].
  apply (relay_single (mon []) 1 false 10 quiet s E).
Defined.

Lemma relay_lost_wakeup_witness : let '(s', o) := handleEthSubscribe (mon []) (world (inr 0%Z)) 1%positive (msg "eth_subscribe" [] [Byte.x03]) stopping in
  is_Some (subscriptions (TcpSubManager s') !! generateSubID [Byte.x01]) ∧ relays (relay_ends s') = 0 ∧ wsRelayRunning (relay_ends s') = false.
Proof. apply (relay_lost_wakeup (mon []) (world (inr 0%Z)) 1%positive (msg "eth_subscribe" [] [Byte.x03]) stopping [[Byte.x03]] []); reflexivity. Defined.

Lemma client_table_witness : (GetClientConnection (world (inr 0%Z)) (BytesToAddress [Byte.x07]) (handleInitConnection 2%positive (msg "InitConnection" [] [Byte.x07]) stopping)).1 = Some 2%positive.
Proof. apply (client_table (world (inr 0%Z)) 2%positive (msg "InitConnection" [] [Byte.x07]) stopping [Byte.x07]); reflexivity. Defined.

Lemma eth_call_needs_two_contracts_witness : HandleRequest (mon ["a"]) 1 false 10 (world (inr 0%Z)) 1%positive (Some (msg "eth_call" [Byte.x09] [Byte.x03])) NewServer = None.
Proof.
  apply (eth_call_needs_two_contracts (mon ["a"]) 1 false 10 (world (inr 0%Z)) 1%positive (msg "eth_call" [Byte.x09] [Byte.x03]) NewServer [Byte.x03] [Byte.x03]); try (vm_compute; done); try (simpl; lia).
  intros c [= <-]. vm_compute. done.
Defined.

Lemma nonce_failure_unanswered_witness : HandleRequest (mon []) 1 false 10 (world (inl ErrTimeout)) 1%positive (Some (msg "GetNonce" [] (zeros 20))) NewServer = Some (NewServer, []).
Proof. apply (nonce_failure_unanswered (mon []) 1 false 10 (world (inl ErrTimeout)) 1%positive (msg "GetNonce" [] (zeros 20)) NewServer ErrTimeout); reflexivity. Defined.
End RpcExample.
