(* ===== verification/RobotHandler.v ===== *)
(** * The robot handler ([pkg/robot_handler/robot_handler.go])

    Questions and answers sent to the robot contract are broadcast as events at once and queued for
    the chain: one queue and one worker per sender, created on demand and removed after a minute
    without activity.  Queues are heap objects, because a sender may still hold one that its worker has
    closed and taken out of the table.  Senders and workers are threads of steps; [None] is a panic,
    which nobody recovers.  The calls to the chain during one attempt are an [Exec]. *)

From S2P Require Import Prelude GoLib Interfaces LevelDB HexCodec CachedWriter AccountAbi Subscriptions.
From Stdlib Require Import Strings.Byte Strings.Ascii.

(** ** The contract's ABI ([abi_robot/robotAbi.go]) *)

(** The functions with their inputs; no output is used. *)
Definition RobotABI : list (string * list abi_type) :=
  [("emitAnswer", [TAddress; TUint256; TBytes; TBytes]);
   ("emitError", [TBytes32; TString]);
   ("emitQuestion", [TAddress; TUint256; TBytes]);
   ("getDataByTxhash", [TBytes32]);
   ("getMessageCount", [TUint256]);
   ("getMessagesByPagination", [TUint256; TUint256; TUint256])].

Definition robot_events : list (string * list (abi_type * bool)) :=
  [("AnswerStored", [(TAddress, false); (TUint256, false); (TBytes, false)]);
   ("EmitError", [(TBytes32, false); (TString, false)]);
   ("QuestionAsked", [(TAddress, false); (TUint256, false); (TBytes, false)])].

(** ** State *)

Record QueuedTransaction := {
  RobotAddress : bytes; RawTransactionHex : string; txHash : string;
  SessionId : bytes; ActionId : bytes; Data : bytes }.

#[export] Instance QueuedTransaction_eq_dec : EqDecision QueuedTransaction.
Proof. solve_decision. Defined.

(** A queue object: its channel of a thousand places, and the sender its worker serves. *)
Record QueueInfo := { queue : list QueuedTransaction; q_closed : bool; lastActivity : Z; q_from : bytes }.

(** The worker of a queue: in its select; found the queue idle; in an attempt; returned. *)
Inductive worker := WWait | WExpired | WRun (tx : QueuedTransaction) (attempt : nat) | WEnd.

Record RobotHandler (St : Type) := {
  txQueues : gmap bytes nat;
  heap : gmap nat QueueInfo;
  workers : gmap nat worker;
  next_queue : nat;
  robot_store : CachedBatchWriter St errorWriteRequest StoredErrorData;
}.
Arguments txQueues {St} _.
Arguments heap {St} _.
Arguments workers {St} _.
Arguments next_queue {St} _.
Arguments robot_store {St} _.

Definition queueTimeout : Z := 60000000000.
Definition maxRetries : nat := 3.

(** What happens to the outside: events, and transactions accepted by a queue, taken by a worker and
    handed to the chain. *)
Inductive obs :=
  | Broadcast (contract : bytes) (topics : list string) (data : string)
  | Accepted (tx : QueuedTransaction)
  | Taken (tx : QueuedTransaction)
  | Sent (tx : QueuedTransaction) (raw : bytes).

(** What the handler sees of a transaction. *)
Record RobotTx := { r_Input : bytes; r_From : bytes; r_Hash : bytes }.

Inductive robot_error := ErrMethod | ErrRobotUnpack | ErrRobotArgs | ErrCallShort | ErrCallMethod | ErrLookup (e : store_error).

(** ** One attempt to execute a transaction *)

(** A poll of [WaitForReceiptTCP]: a failed request, or the error and the receipt of the response. *)
Definition poll : Type := option (string * option bytes).

(** The polls before the deadline, in order; the first receipt without an error is returned. *)
Fixpoint WaitForReceiptTCP (polls : list poll) : option bytes :=
  match polls with
  | [] => None
  | Some (EmptyString, Some receipt) :: _ => Some receipt
  | _ :: polls => WaitForReceiptTCP polls
  end.

Record Exec := {
  x_Unmarshal : bytes → bool;              (** [UnmarshalBinary] of the raw transaction *)
  x_Pool : bool;                           (** a connection to the chain *)
  x_HasKey : bytes → bool;                 (** a BLS key is on file; an error counts as none *)
  x_Build : bool → bytes → option bytes;   (** built with the key on file or with the default one *)
  x_Send : bytes → option bytes;           (** [SendTransactionWithDeviceKey]: the hash *)
  x_Polls : string → list poll;
}.

Inductive exec_error := EDecode | EUnmarshal | EPool | EBuild | ESend | EReceipt.

Definition executeSingleTransaction (x : Exec) (tx : QueuedTransaction) : list obs * option exec_error :=
  match DecodeHexPooled (RawTransactionHex tx) with
  | None => ([], Some EDecode)
  | Some raw =>
      if negb (x_Unmarshal x raw) then ([], Some EUnmarshal)
      else if negb (x_Pool x) then ([], Some EPool)
      else match x_Build x (x_HasKey x (RobotAddress tx)) raw with
           | None => ([], Some EBuild)
           | Some bTx =>
               match x_Send x bTx with
               | None => ([Sent tx bTx], Some ESend)
               | Some h =>
                   match WaitForReceiptTCP (x_Polls x ("0x" +:+ hex_EncodeToString h)) with
                   | None => ([Sent tx bTx], Some EReceipt)
                   | Some _ => ([Sent tx bTx], None)
                   end
               end
           end
  end.

(** ** The handler *)

Section Robot.
Context {St : Type} `{LevelDB St} `{Proto StoredErrorData} `{AbiCodec} `{EthCommon} `{EthAddress}.
Context (order_cache : gmap string StoredErrorData → list (string * StoredErrorData)).
(** go-ethereum's [HexToAddress] and [HexToHash], the text of an error, the configured contracts. *)
Context (HexToAddress HexToHash : string → bytes) (error_text : exec_error → string) (ContractsInterceptor : list string).
Abbreviation Handler := (RobotHandler St).

Definition NewRobotHandler (st : St) : Handler :=
  {| txQueues := ∅; heap := ∅; workers := ∅; next_queue := 0; robot_store := NewTransactionStorage st |}.

Definition set_queue (q : nat) (i : QueueInfo) (h : Handler) : Handler :=
  {| txQueues := txQueues h; heap := <[q := i]> (heap h); workers := workers h; next_queue := next_queue h; robot_store := robot_store h |}.
Definition set_worker (q : nat) (w : worker) (h : Handler) : Handler :=
  {| txQueues := txQueues h; heap := heap h; workers := <[q := w]> (workers h); next_queue := next_queue h; robot_store := robot_store h |}.
Definition set_store (s : CachedBatchWriter St errorWriteRequest StoredErrorData) (h : Handler) : Handler :=
  {| txQueues := txQueues h; heap := heap h; workers := workers h; next_queue := next_queue h; robot_store := s |}.

(** [broadcastEvent]; indexing the second contract panics when there are fewer. *)
Definition broadcastEvent (eventName : string) (eventArgs : list abi_val) : option (list obs) :=
  contract ← ContractsInterceptor !! 1;
  Some match snd ∘ snd <$> list_find (λ e : string * list (abi_type * bool), e.1 = eventName) robot_events with
       | None => []
       | Some inputs =>
           match event_topics inputs eventArgs with
           | None => []
           | Some _ =>
               match abi_Pack (non_indexed inputs) eventArgs with
               | None => []
               | Some d => [Broadcast (HexToAddress contract) [HashHex (event_ID eventName (inputs.*1))] ("0x" +:+ hex_EncodeToString d)]
               end
           end
       end.

(** The JSON object of the identifiers and the data; [json.Marshal] sorts the keys. *)
Definition quoted (s : string) : string :=
  let dq := String (ascii_of_nat 34) EmptyString in dq +:+ s +:+ dq.
Definition serializeInputData (sessionId actionId data : bytes) : string :=
  let field k v := quoted k +:+ ":" +:+ quoted ("0x" +:+ hex_EncodeToString v) in
  "{" +:+ field "actionId" actionId +:+ "," +:+ field "data" data +:+ "," +:+ field "sessionId" sessionId +:+ "}".

(** ** Submitting *)

Definition touch (now : Z) (i : QueueInfo) : QueueInfo :=
  {| queue := queue i; q_closed := q_closed i; lastActivity := now; q_from := q_from i |}.

(** A new queue with its worker. *)
Definition new_queue (now : Z) (from : bytes) (h : Handler) : nat * Handler :=
  let q := next_queue h in
  (q, {| txQueues := <[from := q]> (txQueues h);
         heap := <[q := {| queue := []; q_closed := false; lastActivity := now; q_from := from |}]> (heap h);
         workers := <[q := WWait]> (workers h); next_queue := S q; robot_store := robot_store h |}).

(** A submission as a thread: the lookup under the read lock, the second lookup or creation under the
    write lock, the update of the activity, the send. *)
Inductive submit := SLookup | SLock | STouch (q : nat) | SSend (q : nat) | SDone (queued : bool).

Definition submit_step (now : Z) (tx : QueuedTransaction) (t : submit) (h : Handler) : option (submit * list obs * Handler) :=
  match t with
  | SLookup => Some (match txQueues h !! RobotAddress tx with Some q => STouch q | None => SLock end, [], h)
  | SLock =>
      match txQueues h !! RobotAddress tx with
      | Some q => i ← heap h !! q; Some (SSend q, [], set_queue q (touch now i) h)
      | None => let '(q, h) := new_queue now (RobotAddress tx) h in Some (SSend q, [], h)
      end
  | STouch q => i ← heap h !! q; Some (SSend q, [], set_queue q (touch now i) h)
  | SSend q =>
      i ← heap h !! q;
      if q_closed i then None
      else if decide (length (queue i) < 1000) then
        Some (SDone true, [Accepted tx],
              set_queue q {| queue := queue i ++ [tx]; q_closed := false; lastActivity := lastActivity i; q_from := q_from i |} h)
      else Some (SDone false, [], h)
  | SDone b => Some (t, [], h)
  end.

(** The same without interruption. *)
Definition getOrCreateQueue (now : Z) (from : bytes) (h : Handler) : option (nat * Handler) :=
  match txQueues h !! from with
  | Some q => i ← heap h !! q; Some (q, set_queue q (touch now i) h)
  | None => Some (new_queue now from h)
  end.

Definition enqueue (now : Z) (tx : QueuedTransaction) (h : Handler) : option (list obs * Handler) :=
  '(q, h) ← getOrCreateQueue now (RobotAddress tx) h;
  '(_, o, h) ← submit_step now tx (SSend q) h;
  Some (o, h).

(** ** Transactions and calls *)

Definition robot_method (sig : bytes) : option (string * list abi_type) :=
  snd <$> list_find (λ m : string * list abi_type, selector m.1 m.2 = sig) RobotABI.

(** Handled, the hash returned, the error. *)
Definition robot_result : Type := bool * option string * option robot_error.

(** The common end of the two methods. *)
Definition emit (now : Z) (event : string) (tx : RobotTx) (raw : string) (user : bytes) (conversationId : Z) (data : bytes) (h : Handler) :
    option (robot_result * list obs * Handler) :=
  let hash := HashHex (r_Hash tx) in
  o ← broadcastEvent event [VAddress user; VBig conversationId; VBytes data];
  '(o', h) ← enqueue now {| RobotAddress := r_From tx; RawTransactionHex := raw; txHash := hash;
                            SessionId := BytesToHash (big_Bytes conversationId); ActionId := zeros 32; Data := data |} h;
  Some ((true, Some hash, None), o ++ o', h).

Definition handleEmitQuestion (now : Z) (tx : RobotTx) (inputs : list abi_type) (inputData : bytes) (raw : string) (h : Handler) :
    option (robot_result * list obs * Handler) :=
  match abi_Unpack inputs inputData with
  | None => Some ((false, None, Some ErrRobotUnpack), [], h)
  | Some (VAddress user :: VBig conversationId :: VBytes question :: _) => emit now "QuestionAsked" tx raw user conversationId question h
  | Some _ => Some ((false, None, Some ErrRobotArgs), [], h)
  end.

(** The fourth argument is the answer; the third is not read. *)
Definition handleEmitAnswer (now : Z) (tx : RobotTx) (inputs : list abi_type) (inputData : bytes) (raw : string) (h : Handler) :
    option (robot_result * list obs * Handler) :=
  match abi_Unpack inputs inputData with
  | None => Some ((false, None, Some ErrRobotUnpack), [], h)
  | Some (VAddress user :: VBig conversationId :: _ :: VBytes answer :: _) => emit now "AnswerStored" tx raw user conversationId answer h
  | Some _ => Some ((false, None, Some ErrRobotArgs), [], h)
  end.

Definition HandleRobotTransaction (now : Z) (tx : RobotTx) (raw : string) (h : Handler) : option (robot_result * list obs * Handler) :=
  if decide (length (r_Input tx) < 4) then Some ((false, None, None), [], h)
  else match robot_method (take 4 (r_Input tx)) with
       | None => Some ((false, None, None), [], h)
       | Some (name, inputs) =>
           if decide (name = "emitQuestion") then handleEmitQuestion now tx inputs (drop 4 (r_Input tx)) raw h
           else if decide (name = "emitAnswer") then handleEmitAnswer now tx inputs (drop 4 (r_Input tx)) raw h
           else Some ((false, None, Some ErrMethod), [], h)
       end.

Definition handleGetDataByTxhash (inputs : list abi_type) (inputData : bytes) (h : Handler) : (robot_error + StoredErrorData) * Handler :=
  match abi_Unpack inputs inputData with
  | None => (inl ErrRobotUnpack, h)
  | Some (VBytes32 b :: _) =>
      match GetErrorByHash order_cache (HashHex (BytesToHash b)) (robot_store h) with
      | (inl e, s) => (inl (ErrLookup e), set_store s h)
      | (inr d, s) => (inr d, set_store s h)
      end
  | Some _ => (inl ErrRobotArgs, h)
  end.

(** A call is answered, refused or, with [Some None], left to the chain. *)
Definition HandleEthCall (data : bytes) (h : Handler) : (robot_error + option StoredErrorData) * Handler :=
  if decide (length data < 4) then (inl ErrCallShort, h)
  else match robot_method (take 4 data) with
       | None => (inl ErrCallMethod, h)
       | Some (name, inputs) =>
           if decide (name = "getDataByTxhash") then
             let '(r, h) := handleGetDataByTxhash inputs (drop 4 data) h in
             (match r with inl e => inl e | inr d => inr (Some d) end, h)
           else (inr None, h)
       end.

(** ** Workers *)

Definition cleanupQueue (from : bytes) (h : Handler) : option Handler :=
  match txQueues h !! from with
  | None => Some h
  | Some q =>
      i ← heap h !! q;
      if q_closed i then None
      else Some {| txQueues := delete from (txQueues h);
                   heap := <[q := {| queue := queue i; q_closed := true; lastActivity := lastActivity i; q_from := q_from i |}]> (heap h);
                   workers := workers h; next_queue := next_queue h; robot_store := robot_store h |}
  end.

Definition criticalMsg (tx : QueuedTransaction) (from : bytes) (e : exec_error) : string :=
  "❌ [CRITICAL] Transaction " +:+ txHash tx +:+ " (from=" +:+ AddressHex from +:+ ") failed after " +:+ FormatUint (Z.of_nat maxRetries) +:+
  " retries. System must stop to prevent nonce desync. Error: " +:+ error_text e.

(** After the last attempt: the error is stored and broadcast. *)
Definition abandon (now : Z) (tx : QueuedTransaction) (from : bytes) (e : exec_error) (h : Handler) : option (list obs * Handler) :=
  let msg := criticalMsg tx from e in
  '(s, _) ← SaveError order_cache now (txHash tx) (serializeInputData (SessionId tx) (ActionId tx) (Data tx)) msg (robot_store h);
  o ← broadcastEvent "EmitError" [VBytes32 (HexToHash (txHash tx)); VString msg];
  Some (o, set_store s h).

(** The cases of the worker's select and its next step: the ticker, the queue, an attempt, the cleanup
    after an expiry.  A case that is not ready leaves everything as it is.  The worker's context is
    cancelled by its own cleanup only. *)
Inductive wchoice := CTick | CTake | CAttempt (x : Exec) | CCleanup.

Definition worker_step (now : Z) (q : nat) (c : wchoice) (h : Handler) : option (list obs * Handler) :=
  match workers h !! q, heap h !! q with
  | Some WWait, Some i =>
      match c with
      | CTick => Some ([], if (queueTimeout <? now - lastActivity i)%Z then set_worker q WExpired h else h)
      | CTake =>
          match queue i with
          | tx :: rest =>
              Some ([Taken tx], set_worker q (WRun tx 1)
                (set_queue q {| queue := rest; q_closed := q_closed i; lastActivity := now; q_from := q_from i |} h))
          | [] => Some ([], if q_closed i then set_worker q WEnd h else h)
          end
      | _ => Some ([], h)
      end
  | Some WExpired, Some i =>
      match c with CCleanup => h ← cleanupQueue (q_from i) h; Some ([], set_worker q WEnd h) | _ => Some ([], h) end
  | Some (WRun tx n), Some i =>
      match c with
      | CAttempt x =>
          match executeSingleTransaction x tx with
          | (o, None) => Some (o, set_worker q WWait h)
          | (o, Some e) =>
              if decide (n < maxRetries) then Some (o, set_worker q (WRun tx (S n)) h)
              else '(o', h) ← abandon now tx (q_from i) e h; Some (o ++ o', set_worker q WWait h)
          end
      | _ => Some ([], h)
      end
  | _, _ => Some ([], h)
  end.

(** ** Interleavings *)

(** A step of the process: a submission begins, a submitter or a worker moves. *)
Inductive robot_step := RSubmit (tx : QueuedTransaction) | RMove (i : nat) (now : Z) | RWorker (q : nat) (c : wchoice) (now : Z).

Record Process := { p_handler : Handler; p_threads : list (QueuedTransaction * submit) }.

Definition process_step (s : robot_step) (p : Process) : option (list obs * Process) :=
  match s with
  | RSubmit tx => Some ([], {| p_handler := p_handler p; p_threads := p_threads p ++ [(tx, SLookup)] |})
  | RMove i now =>
      match p_threads p !! i with
      | None => Some ([], p)
      | Some (tx, t) =>
          '(t', o, h) ← submit_step now tx t (p_handler p);
          Some (o, {| p_handler := h; p_threads := <[i := (tx, t')]> (p_threads p) |})
      end
  | RWorker q c now =>
      '(o, h) ← worker_step now q c (p_handler p);
      Some (o, {| p_handler := h; p_threads := p_threads p |})
  end.

Fixpoint process_run (ss : list robot_step) (p : Process) : option (list obs * Process) :=
  match ss with
  | [] => Some ([], p)
  | s :: ss => '(o, p) ← process_step s p; '(o', p) ← process_run ss p; Some (o ++ o', p)
  end.
End Robot.
