(* ===== verification/RobotTheorems.v ===== *)
(** * Properties of the robot handler

    Whatever the senders and workers do, the transactions of a sender are executed one at a time and in
    the order in which its queues took them; what a worker does with a transaction; and what the
    removal of idle queues can lose. *)

From S2P Require Import Prelude GoLib Interfaces LevelDB HexCodec CachedWriter CachedWriterTheorems AccountAbi AccountToy RobotHandler.
From Stdlib Require Import Strings.Byte Strings.Ascii.

Section RobotProofs.
Context {St : Type} `{LevelDB St} `{Proto StoredErrorData} `{AbiCodec} `{EthCommon} `{EthAddress}.
Context (order_cache : gmap string StoredErrorData → list (string * StoredErrorData)).
Context (HexToAddress HexToHash : string → bytes) (error_text : exec_error → string) (ContractsInterceptor : list string).
Abbreviation Handler := (RobotHandler St).
Abbreviation step := (process_step (St:=St) order_cache HexToAddress HexToHash error_text ContractsInterceptor).
Abbreviation run := (process_run (St:=St) order_cache HexToAddress HexToHash error_text ContractsInterceptor).
Abbreviation work := (worker_step (St:=St) order_cache HexToAddress HexToHash error_text ContractsInterceptor).

(** ** Order *)

(** The transactions of a sender among the observations, as accepted and as taken. *)
Definition accepted_of (a : bytes) (o : list obs) : list QueuedTransaction :=
  omap (λ x, match x with Accepted tx => if decide (RobotAddress tx = a) then Some tx else None | _ => None end) o.
Definition taken_of (a : bytes) (o : list obs) : list QueuedTransaction :=
  omap (λ x, match x with Taken tx => if decide (RobotAddress tx = a) then Some tx else None | _ => None end) o.

(** Observations about no queue. *)
Definition outside (o : list obs) : Prop := Forall (λ x, match x with Broadcast _ _ _ | Sent _ _ => True | _ => False end) o.

Lemma accepted_app a o o' : accepted_of a (o ++ o') = accepted_of a o ++ accepted_of a o'.
Proof. apply omap_app. Qed.
Lemma taken_app a o o' : taken_of a (o ++ o') = taken_of a o ++ taken_of a o'.
Proof. apply omap_app. Qed.
Lemma outside_nothing a o : outside o → accepted_of a o = [] ∧ taken_of a o = [].
Proof. induction 1 as [|x o Hx _ [IH1 IH2]]; [done|]. by destruct x. Qed.

(** The removal of a queue may lose what it holds: with [lossy] the executed transactions are some of
    the accepted ones, without it they are all of them. *)
Section Order.
Variable lossy : bool.
Definition executed (l acc : list QueuedTransaction) : Prop := if lossy then l `sublist_of` acc else l = acc.

Lemma executed_refl l : executed l l.
Proof. unfold executed. by destruct lossy. Qed.
Lemma executed_snoc l acc x : executed l acc → executed (l ++ [x]) (acc ++ [x]).
Proof. unfold executed. destruct lossy; [|by intros ->]. intros S. by apply sublist_app. Qed.
Lemma executed_lose l acc k : lossy = true → executed l acc → executed l (acc ++ k).
Proof. unfold executed. intros ->. intros S. by apply sublist_inserts_r. Qed.

(** The table, the open queues and the live workers belong together; the accepted transactions of a
    sender are those executed, in order, followed by those in its queue. *)
Record Consistent (o : list obs) (h : Handler) : Prop := {
  c_table a q : txQueues h !! a = Some q → ∃ i, heap h !! q = Some i ∧ q_from i = a ∧ q_closed i = false;
  c_open q i : heap h !! q = Some i → q_closed i = false → txQueues h !! q_from i = Some q;
  c_worker q w : workers h !! q = Some w → w ≠ WEnd → ∃ i, heap h !! q = Some i ∧ q_closed i = false;
  c_next q i : heap h !! q = Some i → q < next_queue h;
  c_items q i tx : heap h !! q = Some i → tx ∈ queue i → RobotAddress tx = q_from i;
  c_order a : match txQueues h !! a with
              | Some q => ∃ i pre, heap h !! q = Some i ∧ accepted_of a o = pre ++ queue i ∧ executed (taken_of a o) pre
              | None => executed (taken_of a o) (accepted_of a o)
              end;
}.

(** The queue a submitter holds is one of its own sender. *)
Definition thread_ok (h : Handler) (th : QueuedTransaction * submit) : Prop :=
  match th.2 with STouch q | SSend q => ∃ i, heap h !! q = Some i ∧ q_from i = RobotAddress th.1 | _ => True end.

(** A queue changes its contents only. *)
Lemma consistent_put o o' h q i i' : heap h !! q = Some i → q_closed i' = q_closed i → q_from i' = q_from i →
  (∀ tx, tx ∈ queue i' → RobotAddress tx = q_from i) →
  (∀ a, a ≠ q_from i ∨ q_closed i = true → accepted_of a o' = accepted_of a o ∧ taken_of a o' = taken_of a o) →
  (∀ pre, accepted_of (q_from i) o = pre ++ queue i → executed (taken_of (q_from i) o) pre →
     ∃ pre', accepted_of (q_from i) o' = pre' ++ queue i' ∧ executed (taken_of (q_from i) o') pre') →
  Consistent o h → Consistent o' (set_queue q i' h).
Proof.
  intros Hq Ec Ef Hitems Hother Hown [Ct Co Cw Cn Ci Cr]. split; simpl.
  - intros a q' Ha. destruct (Ct _ _ Ha) as (i0 & K1 & K2 & K3). destruct (decide (q = q')) as [<-|].
    + exists i'. rewrite lookup_insert_eq. assert (i0 = i) as -> by congruence. by rewrite Ec, Ef.
    + exists i0. by rewrite lookup_insert_ne.
  - intros q' i0. rewrite lookup_insert_Some. intros [[<- <-]|[_ Hi]] Hc; [rewrite Ef; apply Co; [done|congruence]|by apply Co].
  - intros q' w Hw Ne. destruct (Cw _ _ Hw Ne) as (i0 & K1 & K2). destruct (decide (q = q')) as [<-|].
    + exists i'. rewrite lookup_insert_eq, Ec. by assert (i0 = i) as -> by congruence.
    + exists i0. by rewrite lookup_insert_ne.
  - intros q' i0. rewrite lookup_insert_Some. intros [[<- <-]|[_ Hi]]; by eapply Cn.
  - intros q' i0 tx. rewrite lookup_insert_Some. intros [[<- <-]|[_ Hi]] Htx; [rewrite Ef; by apply Hitems|by eapply Ci].
  - intros a. specialize (Cr a). destruct (txQueues h !! a) as [q'|] eqn:Ea.
    + destruct Cr as (i0 & pre & K1 & K2 & K3). destruct (Ct _ _ Ea) as (i1 & L1 & L2 & L3). assert (i1 = i0) as -> by congruence.
      destruct (decide (q = q')) as [<-|].
      * assert (i0 = i) as -> by congruence. subst a. destruct (Hown pre K2 K3) as (pre' & ? & ?). exists i', pre'. by rewrite lookup_insert_eq.
      * destruct (Hother a) as [-> ->]; [|exists i0, pre; by rewrite lookup_insert_ne].
        destruct (q_closed i) eqn:Hc; [by right|left]. intros ->. pose proof (Co _ _ Hq Hc). congruence.
    + destruct (Hother a) as [-> ->]; [|done]. destruct (decide (a = q_from i)) as [->|]; [right|by left]. destruct (q_closed i) eqn:Hc; [done|].
      pose proof (Co _ _ Hq Hc). congruence.
Qed.

Lemma consistent_worker o h q w : Consistent o h → (w ≠ WEnd → ∃ w', workers h !! q = Some w' ∧ w' ≠ WEnd) → Consistent o (set_worker q w h).
Proof.
  intros [Ct Co Cw Cn Ci Cr] Hw. split; simpl; try done. intros q' w'. rewrite lookup_insert_Some. intros [[<- <-]|[_ Hl]] Ne; [|by eapply Cw].
  destruct (Hw Ne) as (w0 & ? & ?). by eapply Cw.
Qed.

Lemma consistent_store o h s : Consistent o h → Consistent o (set_store s h).
Proof. intros []. by split. Qed.

Lemma consistent_outside o o' h : outside o' → Consistent o h → Consistent (o ++ o') h.
Proof.
  intros Ho [Ct Co Cw Cn Ci Cr]. split; try done. intros a. destruct (outside_nothing a o' Ho) as [E1 E2].
  rewrite accepted_app, taken_app, E1, E2, !app_nil_r. apply Cr.
Qed.

Lemma consistent_new o h now from : txQueues h !! from = None → Consistent o h → Consistent o (new_queue now from h).2.
Proof.
  intros Hf [Ct Co Cw Cn Ci Cr]. assert (heap h !! next_queue h = None) as Hn.
  { destruct (heap h !! next_queue h) as [i|] eqn:E; [|done]. apply Cn in E. lia. }
  split; simpl.
  - intros a q. rewrite lookup_insert_Some. intros [[<- <-]|[_ Ha]]; [eexists; by rewrite lookup_insert_eq|].
    destruct (Ct _ _ Ha) as (i & K1 & K2 & K3). exists i. by rewrite lookup_insert_ne by congruence.
  - intros q i. rewrite lookup_insert_Some. intros [[<- <-]|[_ Hi]] Hc; simpl; [by rewrite lookup_insert_eq|].
    specialize (Co _ _ Hi Hc). by rewrite lookup_insert_ne by congruence.
  - intros q w. rewrite lookup_insert_Some. intros [[<- <-]|[Hne Hw]] Ne; [eexists; by rewrite lookup_insert_eq|].
    destruct (Cw _ _ Hw Ne) as (i & K1 & K2). exists i. by rewrite lookup_insert_ne.
  - intros q i. rewrite lookup_insert_Some. intros [[<- <-]|[_ Hi]]; [lia|]. specialize (Cn _ _ Hi). lia.
  - intros q i tx. rewrite lookup_insert_Some. intros [[<- <-]|[_ Hi]] Htx; [by apply not_elem_of_nil in Htx|by eapply Ci].
  - intros a. destruct (decide (from = a)) as [<-|Hne].
    + specialize (Cr from). rewrite Hf in Cr. rewrite lookup_insert_eq. eexists _, (accepted_of from o). rewrite lookup_insert_eq. split_and!; [done| |exact Cr]. simpl. by rewrite app_nil_r.
    + rewrite lookup_insert_ne by done. specialize (Cr a). destruct (txQueues h !! a) as [q|]; [|done].
      destruct Cr as (i & pre & K1 & K2 & K3). exists i, pre. by rewrite lookup_insert_ne by congruence.
Qed.

(** An accepted transaction joins the open queue of its sender. *)
Lemma consistent_accept o h q i tx : heap h !! q = Some i → q_closed i = false → q_from i = RobotAddress tx → Consistent o h →
  Consistent (o ++ [Accepted tx]) (set_queue q {| queue := queue i ++ [tx]; q_closed := false; lastActivity := lastActivity i; q_from := q_from i |} h).
Proof.
  intros Hq Hc Hf C. eapply (consistent_put o); [exact Hq|done|done| | | |exact C]; simpl.
  - intros tx'. rewrite elem_of_app, list_elem_of_singleton. intros [?| ->]; [by eapply (c_items _ _ C)|done].
  - intros a [Hne|?]; [|congruence]. rewrite accepted_app, taken_app. simpl. rewrite decide_False by congruence. by rewrite !app_nil_r.
  - intros pre E X. exists pre. rewrite accepted_app, taken_app. simpl. rewrite decide_True by done. by rewrite E, <- app_assoc, app_nil_r.
Qed.

(** A worker takes the first transaction of its queue. *)
Lemma consistent_take o h q i tx rest now : heap h !! q = Some i → q_closed i = false → queue i = tx :: rest → Consistent o h →
  Consistent (o ++ [Taken tx]) (set_queue q {| queue := rest; q_closed := q_closed i; lastActivity := now; q_from := q_from i |} h).
Proof.
  intros Hq Hc Hh C. assert (∀ tx', tx' ∈ tx :: rest → RobotAddress tx' = q_from i) as Hi by (intros tx'; rewrite <- Hh; by eapply (c_items _ _ C)).
  assert (RobotAddress tx = q_from i) as Hf by (apply Hi, elem_of_cons; by left).
  eapply (consistent_put o); [exact Hq|done|done| | | |exact C]; simpl.
  - intros tx' Ht. apply Hi, elem_of_cons. by right.
  - intros a [Hne|?]; [|congruence]. rewrite accepted_app, taken_app. simpl. rewrite decide_False by congruence. by rewrite !app_nil_r.
  - intros pre E X. exists (pre ++ [tx]). rewrite accepted_app, taken_app. simpl. rewrite decide_True by done. rewrite app_nil_r, E, Hh, <- app_assoc.
    split; [done|by apply executed_snoc].
Qed.

Lemma consistent_touch o h q i now : heap h !! q = Some i → Consistent o h → Consistent o (set_queue q (touch now i) h).
Proof.
  intros Hq C. eapply (consistent_put o); [exact Hq|done|done| |done|intros pre ? ?; by exists pre|exact C]. intros tx. by apply (c_items _ _ C q i).
Qed.

(** The worker of [q] removes its queue: it is the one in the table, so that no other is closed. *)
Lemma cleanup_own o h q i : heap h !! q = Some i → q_closed i = false → Consistent o h →
  cleanupQueue (q_from i) h = Some {| txQueues := delete (q_from i) (txQueues h);
    heap := <[q := {| queue := queue i; q_closed := true; lastActivity := lastActivity i; q_from := q_from i |}]> (heap h);
    workers := workers h; next_queue := next_queue h; robot_store := robot_store h |}.
Proof. intros Hq Hc C. unfold cleanupQueue. rewrite (c_open _ _ C _ _ Hq Hc). simpl. rewrite Hq. simpl. by rewrite Hc. Qed.

Lemma consistent_cleanup o h q i h' : lossy = true → heap h !! q = Some i → q_closed i = false → Consistent o h →
  cleanupQueue (q_from i) h = Some h' → Consistent o (set_worker q WEnd h').
Proof.
  intros L Hq Hc C. rewrite (cleanup_own o h q i Hq Hc C). intros [= <-]. destruct C as [Ct Co Cw Cn Ci Cr]. pose proof (Co _ _ Hq Hc) as Hm. split; simpl.
  - intros a q'. rewrite lookup_delete_Some. intros [Hne Ha]. destruct (Ct _ _ Ha) as (i0 & K1 & K2 & K3). exists i0.
    rewrite lookup_insert_ne; [done|]. intros <-. congruence.
  - intros q' i0. rewrite lookup_insert_Some. intros [[<- <-]|[Hne Hi]] Hc'; [done|]. specialize (Co _ _ Hi Hc'). rewrite lookup_delete_ne; [done|congruence].
  - intros q' w. rewrite lookup_insert_Some. intros [[<- <-]|[Hne Hw]] Ne; [done|]. destruct (Cw _ _ Hw Ne) as (i0 & K1 & K2). exists i0. by rewrite lookup_insert_ne.
  - intros q' i0. rewrite lookup_insert_Some. intros [[<- <-]|[_ Hi]]; by eapply Cn.
  - intros q' i0 tx. rewrite lookup_insert_Some. intros [[<- <-]|[_ Hi]] Htx; [by apply (Ci q i)|by eapply Ci].
  - intros a. specialize (Cr a). destruct (decide (q_from i = a)) as [<-|Hne].
    + rewrite lookup_delete_eq. rewrite Hm in Cr. destruct Cr as (i0 & pre & K1 & -> & K3). by apply executed_lose.
    + rewrite lookup_delete_ne by done. destruct (txQueues h !! a) as [q'|] eqn:Ea; [|done]. destruct Cr as (i0 & pre & K1 & K2 & K3). exists i0, pre.
      rewrite lookup_insert_ne; [done|]. intros <-. destruct (Ct _ _ Ea) as (? & ? & ? & ?). congruence.
Qed.

(** ** Steps *)

Lemma submit_consistent now tx t h t' o' h' o : submit_step now tx t h = Some (t', o', h') → thread_ok h (tx, t) → Consistent o h →
  Consistent (o ++ o') h' ∧ thread_ok h' (tx, t').
Proof.
  intros E T C. assert (∀ q i, heap h !! q = Some i → q_from i = RobotAddress tx →
    Consistent (o ++ []) (set_queue q (touch now i) h) ∧ thread_ok (set_queue q (touch now i) h) (tx, SSend q)) as Touch.
  { intros q i Hq Hf. rewrite app_nil_r. split; [by apply consistent_touch|]. exists (touch now i). simpl. by rewrite lookup_insert_eq. }
  destruct t as [| |q|q|b]; simpl in E.
  - simplify_eq. rewrite app_nil_r. split; [done|]. destruct (txQueues h' !! RobotAddress tx) as [q|] eqn:Eq; [|done].
    destruct (c_table _ _ C _ _ Eq) as (i & ? & ? & ?). by exists i.
  - destruct (txQueues h !! RobotAddress tx) as [q|] eqn:Eq.
    + destruct (c_table _ _ C _ _ Eq) as (i & Hq & Hf & ?). rewrite Hq in E. simpl in E. simplify_eq. by apply Touch.
    + simplify_eq. rewrite app_nil_r. split; [by apply (consistent_new o h now)|]. eexists. cbn. by rewrite lookup_insert_eq.
  - destruct T as (i & Hq & Hf). simpl in Hq, Hf. rewrite Hq in E. simpl in E. simplify_eq. by apply Touch.
  - destruct T as (i & Hq & Hf). simpl in Hq, Hf. rewrite Hq in E. simpl in E. destruct (q_closed i) eqn:Hc; [done|].
    case_decide; simplify_eq; [|by rewrite app_nil_r]. split; [|done]. by apply consistent_accept.
  - simplify_eq. by rewrite app_nil_r.
Qed.

Lemma execute_outside x tx o r : executeSingleTransaction x tx = (o, r) → outside o.
Proof. unfold executeSingleTransaction. intros E. repeat case_match; simplify_eq; by repeat constructor. Qed.

Lemma broadcast_outside n args o : broadcastEvent HexToAddress ContractsInterceptor n args = Some o → outside o.
Proof. unfold broadcastEvent. destruct (ContractsInterceptor !! 1); [|done]. simpl. intros [= <-]. repeat case_match; by repeat constructor. Qed.

Lemma abandon_outside now tx from e (h h' : Handler) o : abandon order_cache HexToAddress HexToHash error_text ContractsInterceptor now tx from e h = Some (o, h') →
  outside o ∧ ∃ s, h' = set_store s h.
Proof.
  unfold abandon. intros ([s b] & _ & E)%bind_Some. apply bind_Some in E as (o' & Eb & [= <- <-]). split; [by eapply broadcast_outside|]. by exists s.
Qed.

Lemma worker_consistent now q c h o' h' o : (c = CCleanup → lossy = true) → work now q c h = Some (o', h') → Consistent o h → Consistent (o ++ o') h'.
Proof.
  intros L E C. unfold worker_step in E. assert (Consistent (o ++ []) h) as C0 by (by rewrite app_nil_r).
  assert (∀ w w0, workers h !! q = Some w0 → w0 ≠ WEnd → Consistent (o ++ []) (set_worker q w h)) as Cw by (intros w w0 ? ?; apply consistent_worker; eauto).
  destruct (workers h !! q) as [w|] eqn:Ew; [|by simplify_eq]. destruct (heap h !! q) as [i|] eqn:Eh; [|by destruct w; simplify_eq].
  assert (w ≠ WEnd → q_closed i = false) as Hopen by (intros Hne; destruct (c_worker _ _ C _ _ Ew Hne) as (i0 & ? & ?); congruence).
  destruct w as [| |tx n|]; [| | |by simplify_eq].
  - destruct c as [| |x|]; [|destruct (queue i) as [|tx rest] eqn:Eq| |]; simplify_eq; try done.
    + case_match; [|done]. by apply (Cw _ WWait).
    + case_match; [|done]. by apply (Cw _ WWait).
    + apply consistent_worker; [|intros _; by exists WWait]. apply consistent_take; [done|by apply Hopen|exact Eq|done].
  - destruct c; simplify_eq; try done. apply bind_Some in E as (h1 & Ec & [= <- <-]). rewrite app_nil_r.
    apply (consistent_cleanup o h q i); [by apply L|done|by apply Hopen|done..].
  - destruct c; simplify_eq; try done. destruct (executeSingleTransaction x tx) as [o1 [e|]] eqn:Ex; pose proof (execute_outside _ _ _ _ Ex) as Ho.
    + case_decide; simplify_eq.
      * apply consistent_worker; [by apply consistent_outside|eauto].
      * apply bind_Some in E as ([o2 h1] & Eg & [= <- <-]). destruct (abandon_outside _ _ _ _ _ _ _ Eg) as [Ho2 [s ->]].
        apply consistent_worker; [|eauto]. apply consistent_store, consistent_outside; [by apply Forall_app|done].
    + simplify_eq. apply consistent_worker; [by apply consistent_outside|eauto].
Qed.

(** Queues stay on the heap and keep their sender. *)
Definition keeps (h h' : Handler) : Prop := ∀ q i, heap h !! q = Some i → ∃ i', heap h' !! q = Some i' ∧ q_from i' = q_from i.

Lemma keeps_refl h : keeps h h.
Proof. intros q i ?. by exists i. Qed.
Lemma keeps_set h h' q i i' : heap h !! q = Some i → heap h' = <[q := i']> (heap h) → q_from i' = q_from i → keeps h h'.
Proof.
  intros Hq Eh E q' i0 Hi. rewrite Eh. destruct (decide (q = q')) as [<-|]; [|exists i0; by rewrite lookup_insert_ne].
  exists i'. rewrite lookup_insert_eq. by assert (i0 = i) as -> by congruence.
Qed.

Lemma submit_keeps now tx t h t' o' h' o : submit_step now tx t h = Some (t', o', h') → Consistent o h → keeps h h'.
Proof.
  intros E C. destruct t as [| |q|q|b]; simpl in E.
  - simplify_eq. apply keeps_refl.
  - destruct (txQueues h !! RobotAddress tx) as [q|].
    + apply bind_Some in E as (i & Hq & [= <- <- <-]). by eapply (keeps_set h).
    + simplify_eq. intros q i Hq. exists i. simpl. rewrite lookup_insert_ne; [done|]. apply (c_next _ _ C) in Hq. lia.
  - apply bind_Some in E as (i & Hq & [= <- <- <-]). by eapply (keeps_set h).
  - apply bind_Some in E as (i & Hq & E). destruct (q_closed i); [done|]. case_decide; simplify_eq; [|apply keeps_refl]. by eapply (keeps_set h).
  - simplify_eq. apply keeps_refl.
Qed.

Ltac same_heap := intros ? j ?; by exists j.

Lemma worker_keeps now q c h o' h' : work now q c h = Some (o', h') → keeps h h'.
Proof.
  unfold worker_step. intros E. destruct (workers h !! q) as [w|]; [|simplify_eq; same_heap].
  destruct (heap h !! q) as [i|] eqn:Eh; [|destruct w; simplify_eq; same_heap].
  destruct w as [| |tx n|]; [| | |simplify_eq; same_heap].
  - destruct c; [|destruct (queue i) as [|tx rest]| |]; simplify_eq; try same_heap.
    + by case_match; same_heap.
    + by case_match; same_heap.
    + by eapply (keeps_set h).
  - destruct c; simplify_eq; try same_heap. apply bind_Some in E as (h1 & Ec & [= <- <-]). unfold cleanupQueue in Ec.
    destruct (txQueues h !! q_from i) as [q'|]; [|simplify_eq; same_heap]. apply bind_Some in Ec as (i' & Hq & Ec).
    destruct (q_closed i'); simplify_eq. by eapply (keeps_set h).
  - destruct c; simplify_eq; try same_heap. destruct (executeSingleTransaction x tx) as [o1 [e|]]; [|simplify_eq; same_heap].
    case_decide; simplify_eq; [same_heap|]. apply bind_Some in E as ([o2 h1] & Eg & [= <- <-]). destruct (abandon_outside _ _ _ _ _ _ _ Eg) as [_ [s ->]]. same_heap.
Qed.

Lemma thread_keeps h h' th : keeps h h' → thread_ok h th → thread_ok h' th.
Proof. intros K. unfold thread_ok. destruct th.2; try done; intros (i & Hi & <-); by apply K. Qed.

Definition loses (s : robot_step) : Prop := match s with RWorker _ CCleanup _ => True | _ => False end.

Lemma run_consistent ss : ∀ o p o' p', (lossy = false → Forall (λ s, ¬ loses s) ss) → Consistent o (p_handler p) →
  Forall (thread_ok (p_handler p)) (p_threads p) → run ss p = Some (o', p') → Consistent (o ++ o') (p_handler p').
Proof.
  induction ss as [|s ss IH]; intros o p o' p' L C T E; [simplify_eq/=; by rewrite app_nil_r|]. simpl in E.
  apply bind_Some in E as ([o1 p1] & E1 & E). apply bind_Some in E as ([o2 p2] & E2 & [= <- <-]). rewrite app_assoc.
  assert (lossy = false → Forall (λ s, ¬ loses s) ss) as L' by (intros Hl; by apply Forall_cons_1 in L as [_ ?]).
  destruct s as [tx|i now|q c now]; simpl in E1.
  - simplify_eq. eapply IH; [done| | |exact E2]; simpl; [by rewrite app_nil_r|]. apply Forall_app. by repeat constructor.
  - destruct (p_threads p !! i) as [[tx t]|] eqn:Ei; [|simplify_eq; rewrite app_nil_r; by eapply IH].
    apply bind_Some in E1 as ([[t' o3] h3] & Es & [= <- <-]).
    assert (thread_ok (p_handler p) (tx, t)) as Ht by (by eapply Forall_lookup_1).
    destruct (submit_consistent _ _ _ _ _ _ _ o Es Ht C) as [C' T']. pose proof (submit_keeps _ _ _ _ _ _ _ _ Es C) as K.
    eapply IH; [done| | |exact E2]; [exact C'|]. simpl. apply Forall_insert; [|done]. eapply Forall_impl; [exact T|]. intros th. by apply thread_keeps.
  - apply bind_Some in E1 as ([o3 h3] & Ew & [= <- <-]). pose proof (worker_keeps _ _ _ _ _ _ Ew) as K. eapply IH; [done| | |exact E2]; simpl.
    + eapply worker_consistent; [|exact Ew|done]. intros ->. destruct lossy; [done|]. specialize (L eq_refl). apply Forall_cons in L as [Ls _]. by destruct Ls.
    + eapply Forall_impl; [exact T|]. intros th. by apply thread_keeps.
Qed.

Lemma consistent_start st : Consistent [] (NewRobotHandler st).
Proof. split; simpl; try done. intros a. rewrite lookup_empty. apply executed_refl. Qed.
End Order.

Definition start (st : St) : Process := {| p_handler := NewRobotHandler st; p_threads := [] |}.

(** What waits in the queue of a sender. *)
Definition waiting (a : bytes) (p : Process (St:=St)) : list QueuedTransaction :=
  match txQueues (p_handler p) !! a ≫= λ q, heap (p_handler p) !! q with Some i => queue i | None => [] end.


(** ** Execution *)

(** A worker's attempts, each with its time and world. *)
Fixpoint attempts (q : nat) (ts : list (Z * Exec)) (h : Handler) : option (list obs * Handler) :=
  match ts with
  | [] => Some ([], h)
  | (now, x) :: ts => '(o, h) ← work now q (CAttempt x) h; '(o', h) ← attempts q ts h; Some (o ++ o', h)
  end.

Definition sends (tx : QueuedTransaction) (ts : list (Z * Exec)) : list obs := concat ((λ t, (executeSingleTransaction t.2 tx).1) <$> ts).
Definition fails (tx : QueuedTransaction) (t : Z * Exec) : Prop := (executeSingleTransaction t.2 tx).2 ≠ None.

Lemma attempts_fail q i tx ts : Forall (fails tx) ts → ∀ n h, workers h !! q = Some (WRun tx n) → heap h !! q = Some i → n + length ts ≤ maxRetries →
  attempts q ts h = Some (sends tx ts, if decide (ts = []) then h else set_worker q (WRun tx (n + length ts)) h).
Proof.
  induction 1 as [|[now x] ts Fx F IH]; intros n h Hw Hq Hn; [done|]. cbn [length] in Hn. simpl. unfold worker_step at 1. rewrite Hw, Hq.
  unfold fails in Fx. simpl in Fx. unfold sends. simpl. destruct (executeSingleTransaction x tx) as [o [e|]]; [|done]. rewrite decide_True by lia. simpl.
  rewrite (IH (S n)); [|by simpl; rewrite lookup_insert_eq|done|lia]. simpl. f_equal. f_equal. case_decide as D.
  - subst. simpl. by replace (n + 1) with (S n) by lia.
  - unfold set_worker. simpl. rewrite insert_insert_eq. by replace (n + S (length ts)) with (S (n + length ts)) by lia.
Qed.

Lemma attempts_app q ts1 ts2 : ∀ h, attempts q (ts1 ++ ts2) h = '(o, h) ← attempts q ts1 h; '(o', h) ← attempts q ts2 h; Some (o ++ o', h).
Proof.
  induction ts1 as [|[now x] ts1 IH]; intros h; simpl; [by destruct (attempts q ts2 h) as [[]|]|].
  destruct (work now q (CAttempt x) h) as [[o h1]|]; [|done]. simpl. rewrite IH. destruct (attempts q ts1 h1) as [[o1 h2]|]; [|done]. simpl.
  destruct (attempts q ts2 h2) as [[o2 h3]|]; [|done]. simpl. by rewrite app_assoc.
Qed.

Lemma sends_snoc tx ts now x : sends tx (ts ++ [(now, x)]) = sends tx ts ++ (executeSingleTransaction x tx).1.
Proof. unfold sends. rewrite fmap_app, concat_app. simpl. by rewrite app_nil_r. Qed.

(** A transaction is attempted until an attempt succeeds, at most three times; then the worker is back
    at its queue and nothing else has changed. *)
Theorem robot_success q i tx ts now x h : workers h !! q = Some (WRun tx 1) → heap h !! q = Some i →
  Forall (fails tx) ts → length ts < maxRetries → (executeSingleTransaction x tx).2 = None →
  attempts q (ts ++ [(now, x)]) h = Some (sends tx (ts ++ [(now, x)]), set_worker q WWait h).
Proof.
  intros Hw Hq F Hl Hx.
  rewrite attempts_app, (attempts_fail q i tx ts F 1 h Hw Hq) by (unfold maxRetries in *; lia). simpl.
  assert (∀ n, work now q (CAttempt x) (set_worker q (WRun tx n) h) = Some ((executeSingleTransaction x tx).1, set_worker q WWait h)) as Last.
  { intros n. unfold worker_step. simpl. rewrite lookup_insert_eq, Hq. destruct (executeSingleTransaction x tx) as [o [|]]; [done|]. unfold set_worker. simpl.
    by rewrite insert_insert_eq. }
  rewrite sends_snoc. case_decide as D; [|rewrite Last; simpl; by rewrite app_nil_r]. assert (h = set_worker q (WRun tx 1) h) as E1.
  { unfold set_worker. rewrite insert_id by done. by destruct h. }
  rewrite E1 at 1. rewrite Last. simpl. by rewrite app_nil_r.
Qed.

(** What is stored and announced when a transaction is given up. *)
Definition failure_record (now : Z) (tx : QueuedTransaction) (from : bytes) (e : exec_error) : StoredErrorData :=
  {| TxHash := txHash tx; InputData := serializeInputData (SessionId tx) (ActionId tx) (Data tx);
     ErrorMessage := criticalMsg error_text tx from e; CreatedAt := now |}.
Definition failure_event (contract : string) (d : bytes) : obs :=
  Broadcast (HexToAddress contract) [HashHex (event_ID "EmitError" [TBytes32; TString])] ("0x" +:+ hex_EncodeToString d).

Lemma abandon_spec now tx from e (h : Handler) c d : closed (robot_store h) = false → length (shards (robot_store h)) = ShardCount →
  ContractsInterceptor !! 1 = Some c →
  abi_Pack [TBytes32; TString] [VBytes32 (HexToHash (txHash tx)); VString (criticalMsg error_text tx from e)] = Some d →
  ∃ s, abandon order_cache HexToAddress HexToHash error_text ContractsInterceptor now tx from e h = Some ([failure_event c d], set_store s h) ∧
    (GetErrorByHash order_cache (txHash tx) s).1 = inr (failure_record now tx from e).
Proof.
  intros Hc Hs Hi Hd. pose proof (load_store order_cache (txHash tx) (failure_record now tx from e) (robot_store h) Hs) as Hl.
  unfold abandon, SaveError. fold (failure_record now tx from e). set (w := StoreCache order_cache (txHash tx) (failure_record now tx from e) (robot_store h)) in *.
  assert (closed w = false) as Hw by done. unfold Write. rewrite Hw.
  assert (∃ s b, (if decide (length (writeChan w) < channelBuffer w)
    then Some (set_work (db w) (writeChan w ++ [{| e_txHash := txHash tx; e_data := failure_record now tx from e |}]) (pending w) w, true)
    else Some (w, false)) = Some (s, b) ∧ LoadCache (txHash tx) s = Some (failure_record now tx from e)) as (s & b & -> & Hload).
  { case_decide; eexists _, _; (split; [done|]); exact Hl. }
  exists s. split; [|unfold GetErrorByHash; by rewrite Hload]. simpl. unfold broadcastEvent. rewrite Hi. simpl.
  change (non_indexed [(TBytes32, false); (TString, false)]) with [TBytes32; TString]. by rewrite Hd.
Qed.

(** After three failures the error is on record under the transaction's hash and announced to the
    subscribers, and the worker goes on with its queue. *)
Theorem robot_failure q i tx t1 t2 now x e h c d : workers h !! q = Some (WRun tx 1) → heap h !! q = Some i →
  fails tx t1 → fails tx t2 → (executeSingleTransaction x tx).2 = Some e →
  closed (robot_store h) = false → length (shards (robot_store h)) = ShardCount → ContractsInterceptor !! 1 = Some c →
  abi_Pack [TBytes32; TString] [VBytes32 (HexToHash (txHash tx)); VString (criticalMsg error_text tx (q_from i) e)] = Some d →
  ∃ h', attempts q [t1; t2; (now, x)] h = Some (sends tx [t1; t2; (now, x)] ++ [failure_event c d], h') ∧
    workers h' !! q = Some WWait ∧ heap h' = heap h ∧ txQueues h' = txQueues h ∧
    (GetErrorByHash order_cache (txHash tx) (robot_store h')).1 = inr (failure_record now tx (q_from i) e).
Proof.
  intros Hw Hq F1 F2 Fx Hc Hs Hi Hd. change [t1; t2; (now, x)] with ([t1; t2] ++ [(now, x)]).
  rewrite attempts_app, (attempts_fail q i tx [t1; t2] ltac:(by repeat constructor) 1 h Hw Hq) by (unfold maxRetries; simpl; lia).
  rewrite decide_False by done. destruct (abandon_spec now tx (q_from i) e (set_worker q (WRun tx 3) h) c d Hc Hs Hi Hd) as (s & Eg & Hl).
  exists (set_worker q WWait (set_store s h)). split_and!; [|by simpl; rewrite lookup_insert_eq|done..].
  cbn [mbind option_bind attempts length Nat.add]. unfold worker_step. cbn [workers heap set_worker]. rewrite lookup_insert_eq, Hq, sends_snoc.
  destruct (executeSingleTransaction x tx) as [ox r]. simpl in Fx. subst r. rewrite decide_False by (unfold maxRetries; lia).
  rewrite Eg. simpl. rewrite <- !app_assoc. simpl. unfold set_worker, set_store. simpl. by rewrite insert_insert_eq.
Qed.

(** ** Removing queues *)

(** A submitter that has looked up a queue whose worker is about to remove it panics when it sends. *)
Theorem stale_queue_panics (p : Process (St:=St)) k tx q i t0 t1 t2 : p_threads p !! k = Some (tx, STouch q) → heap (p_handler p) !! q = Some i →
  q_from i = RobotAddress tx → q_closed i = false → txQueues (p_handler p) !! RobotAddress tx = Some q → workers (p_handler p) !! q = Some WExpired →
  run [RWorker q CCleanup t0; RMove k t1; RMove k t2] p = None.
Proof.
  intros Hk Hq Hf Hc Ht Hw. simpl. unfold worker_step. rewrite Hw, Hq. unfold cleanupQueue. rewrite Hf, Ht. simpl. rewrite Hq. simpl. rewrite Hc. simpl.
  rewrite Hk. simpl. rewrite lookup_insert_eq. simpl. rewrite list_lookup_insert_eq by (by eapply lookup_lt_Some). simpl. by rewrite lookup_insert_eq.
Qed.

(** One that sends in time is told that the transaction is queued, but the worker removes the queue and
    returns without looking at it again: the transaction stays in a queue that has no worker. *)
Theorem accepted_then_dropped (p : Process (St:=St)) k tx q i t0 t1 : p_threads p !! k = Some (tx, SSend q) → heap (p_handler p) !! q = Some i →
  q_from i = RobotAddress tx → q_closed i = false → txQueues (p_handler p) !! RobotAddress tx = Some q → workers (p_handler p) !! q = Some WExpired →
  length (queue i) < 1000 →
  ∃ p', run [RMove k t0; RWorker q CCleanup t1] p = Some ([Accepted tx], p') ∧ p_threads p' !! k = Some (tx, SDone true) ∧
    workers (p_handler p') !! q = Some WEnd ∧ (∃ i', heap (p_handler p') !! q = Some i' ∧ tx ∈ queue i') ∧ txQueues (p_handler p') !! RobotAddress tx = None ∧
    (∀ now c, work now q c (p_handler p') = Some ([], p_handler p')).
Proof.
  intros Hk Hq Hf Hc Ht Hw Hl. simpl. rewrite Hk. simpl. rewrite Hq. simpl. rewrite Hc, decide_True by done. simpl. unfold worker_step at 1. simpl.
  rewrite Hw, lookup_insert_eq. unfold cleanupQueue. simpl. rewrite Hf, Ht. simpl. rewrite lookup_insert_eq. simpl.
  eexists. split; [done|]. simpl. split_and!.
  - by rewrite list_lookup_insert_eq by (by eapply lookup_lt_Some).
  - by rewrite lookup_insert_eq.
  - eexists. rewrite lookup_insert_eq. split; [done|]. simpl. apply elem_of_app. right. by apply list_elem_of_singleton.
  - by rewrite lookup_delete_eq.
  - intros now c. unfold worker_step. simpl. by rewrite lookup_insert_eq.
Qed.

(** ** Questions *)

(** A question is announced, queued behind the others of its sender, and answered with its hash. *)
Theorem robot_question now tx raw (h : Handler) inputs user conv question c d :
  4 ≤ length (r_Input tx) → robot_method (take 4 (r_Input tx)) = Some ("emitQuestion", inputs) →
  abi_Unpack inputs (drop 4 (r_Input tx)) = Some [VAddress user; VBig conv; VBytes question] →
  ContractsInterceptor !! 1 = Some c → abi_Pack [TAddress; TUint256; TBytes] [VAddress user; VBig conv; VBytes question] = Some d →
  (∀ q, txQueues h !! r_From tx = Some q → ∃ i, heap h !! q = Some i ∧ q_closed i = false ∧ length (queue i) < 1000) →
  ∃ h' q i qtx before, HandleRobotTransaction HexToAddress ContractsInterceptor now tx raw h = Some ((true, Some (HashHex (r_Hash tx)), None),
      [Broadcast (HexToAddress c) [HashHex (event_ID "QuestionAsked" [TAddress; TUint256; TBytes])] ("0x" +:+ hex_EncodeToString d); Accepted qtx], h') ∧
    txQueues h' !! r_From tx = Some q ∧ heap h' !! q = Some i ∧ queue i = before ++ [qtx] ∧ RawTransactionHex qtx = raw ∧ RobotAddress qtx = r_From tx ∧ Data qtx = question ∧
    (∀ q0 i0, txQueues h !! r_From tx = Some q0 → heap h !! q0 = Some i0 → q = q0 ∧ before = queue i0) ∧
    (∀ a, a ≠ r_From tx → txQueues h' !! a = txQueues h !! a).
Proof.
  intros Hl Hm Hu Hi Hd Ho. set (qtx := {| RobotAddress := r_From tx; RawTransactionHex := raw; txHash := HashHex (r_Hash tx);
    SessionId := BytesToHash (big_Bytes conv); ActionId := zeros 32; Data := question |}).
  assert (∃ h' q i before, enqueue now qtx h = Some ([Accepted qtx], h') ∧ txQueues h' !! r_From tx = Some q ∧ heap h' !! q = Some i ∧ queue i = before ++ [qtx] ∧
    (∀ q0 i0, txQueues h !! r_From tx = Some q0 → heap h !! q0 = Some i0 → q = q0 ∧ before = queue i0) ∧
    (∀ a, a ≠ r_From tx → txQueues h' !! a = txQueues h !! a)) as (h' & q & i & before & Ee & E1 & E2 & E3 & E4 & E5).
  { unfold enqueue, getOrCreateQueue. simpl. destruct (txQueues h !! r_From tx) as [q|] eqn:Eq.
    - destruct (Ho q eq_refl) as (i & Hq & Hc & Hn). rewrite Hq. simpl. rewrite lookup_insert_eq. simpl. rewrite Hc, decide_True by done.
      eexists _, q, _, (queue i). split; [done|]. simpl. rewrite lookup_insert_eq. split_and!; try done. intros q0 i0 [= <-] ?. split; [done|congruence].
    - simpl. rewrite lookup_insert_eq. simpl. eexists _, (next_queue h), _, []. split; [done|]. simpl.
      rewrite !lookup_insert_eq. split_and!; try done. intros a Ha. by rewrite lookup_insert_ne. }
  exists h', q, i, qtx, before. split_and!; try done. unfold HandleRobotTransaction. rewrite decide_False by lia. rewrite Hm, decide_True by done.
  unfold handleEmitQuestion. rewrite Hu. unfold emit, broadcastEvent. rewrite Hi. simpl.
  change (non_indexed [(TAddress, false); (TUint256, false); (TBytes, false)]) with [TAddress; TUint256; TBytes]. rewrite Hd. simpl. fold qtx. by rewrite Ee.
Qed.
End RobotProofs.

(** ** Concrete runs *)

Module RobotExample.
#[local] Instance str_ser : Ser string := ser_iso str_bytes bytes_str str_bytes_inv.
#[local] Instance error_eq_dec : EqDecision StoredErrorData.
Proof. solve_decision. Defined.
#[local] Instance error_ser : Ser StoredErrorData :=
  ser_iso (λ d, (TxHash d, InputData d, ErrorMessage d, CreatedAt d)) (λ '(a, b, c, d), Build_StoredErrorData a b c d) ltac:(by intros []).
#[local] Instance error_proto : Proto StoredErrorData := toy_proto (Build_StoredErrorData "" "" "" 0).
(** A selector is the position in the table. *)
#[local] Instance robot_codec : AbiCodec := {|
  selector n _ := [x00; x00; x00; z2b (Z.of_nat (length (str_bytes n)))];
  abi_Unpack := @abi_Unpack toy_abi; abi_Pack := @abi_Pack toy_abi; event_ID := @event_ID toy_abi |}.

Abbreviation order_dat := (map_to_list (K:=string) (A:=StoredErrorData) (M:=gmap string StoredErrorData)).
Abbreviation empty_db := (∅ : gmap string bytes).
Definition to_address (s : string) : bytes := BytesToAddress (default [] (DecodeHexString s)).
Definition to_hash (s : string) : bytes := BytesToHash (default [] (DecodeHexString s)).
Definition text (e : exec_error) : string := match e with EReceipt => "receipt" | _ => "other" end.
Definition contracts : list string := ["0x01"; "0x02"].
Abbreviation go := (process_run (St:=gmap string bytes) order_dat to_address to_hash text contracts).

Definition alice : bytes := who 3.
Definition qtx (n : byte) : QueuedTransaction :=
  {| RobotAddress := alice; RawTransactionHex := "0xaa"; txHash := HashHex (BytesToHash [n]); SessionId := zeros 32; ActionId := zeros 32; Data := [n] |}.
(** The chain takes everything and confirms nothing, or everything. *)
Definition chain (polls : list poll) : Exec :=
  {| x_Unmarshal _ := true; x_Pool := true; x_HasKey _ := false; x_Build _ b := Some b; x_Send b := Some b; x_Polls _ := polls |}.
Definition good : Exec := chain [Some ("pending", None); Some ("", Some [x01])].
Definition silent : Exec := chain [None].

Definition steps : list robot_step :=
  [RSubmit (qtx x01); RMove 0 1; RMove 0 1; RMove 0 1; RSubmit (qtx x02); RMove 1 2; RMove 1 2; RWorker 0 CTake 3; RMove 1 3; RWorker 0 (CAttempt silent) 4; RWorker 0 (CAttempt good) 4].


(** A worker with a transaction in hand. *)
Definition busy : RobotHandler (gmap string bytes) :=
  set_worker 0 (WRun (qtx x01) 1) (new_queue 0 alice (NewRobotHandler empty_db)).2.

Lemma robot_success_witness : attempts order_dat to_address to_hash text contracts 0 [(1%Z, silent); (2%Z, good)] busy =
  Some ([Sent (qtx x01) [xaa]; Sent (qtx x01) [xaa]], set_worker 0 WWait busy).
Proof.
  apply (robot_success order_dat to_address to_hash text contracts 0 {| queue := []; q_closed := false; lastActivity := 0; q_from := alice |} (qtx x01) [(1%Z, silent)] 2 good busy);
    [reflexivity|reflexivity|repeat constructor; discriminate|unfold maxRetries; simpl; lia|reflexivity].
Defined.

Lemma robot_failure_witness : ∃ h' d, attempts order_dat to_address to_hash text contracts 0 [(1%Z, silent); (2%Z, silent); (3%Z, silent)] busy =
    Some ([Sent (qtx x01) [xaa]; Sent (qtx x01) [xaa]; Sent (qtx x01) [xaa]; failure_event to_address "0x02" d], h') ∧
  (GetErrorByHash order_dat (txHash (qtx x01)) (robot_store h')).1 = inr (failure_record text 3 (qtx x01) alice EReceipt).
Proof.
  destruct (abi_Pack [TBytes32; TString] [VBytes32 (to_hash (txHash (qtx x01))); VString (criticalMsg text (qtx x01) alice EReceipt)]) as [d|] eqn:Ed; [|vm_compute in Ed; done].
  destruct (robot_failure order_dat to_address to_hash text contracts 0 {| queue := []; q_closed := false; lastActivity := 0; q_from := alice |} (qtx x01) (1%Z, silent) (2%Z, silent) 3 silent EReceipt busy "0x02" d)
    as (h' & E & _ & _ & _ & L); [reflexivity|reflexivity|discriminate|discriminate|reflexivity|reflexivity|reflexivity|reflexivity|exact Ed|].
  exists h', d. split; [exact E|exact L].
Defined.

(** A minute without activity: the worker has seen it when the next submission looks up the queue. *)
Definition idle : list robot_step :=
  [RSubmit (qtx x01); RMove 0 0; RMove 0 0; RMove 0 0; RWorker 0 CTake 0; RWorker 0 (CAttempt good) 0; RWorker 0 CTick 60000000001; RSubmit (qtx x02); RMove 1 60000000001].
Definition idle_process : Process (St:=gmap string bytes) := match go idle (start empty_db) with Some (_, p) => p | None => start empty_db end.

Lemma stale_queue_panics_witness : go (idle ++ [RWorker 0 CCleanup 60000000001; RMove 1 60000000001; RMove 1 60000000001]) (start empty_db) = None.
Proof.
  assert (go [RWorker 0 CCleanup 60000000001; RMove 1 60000000001; RMove 1 60000000001] idle_process = None) as E.
  { apply (stale_queue_panics order_dat to_address to_hash text contracts idle_process 1 (qtx x02) 0 {| queue := []; q_closed := false; lastActivity := 0; q_from := alice |}); vm_compute; reflexivity. }
  vm_compute in E. vm_compute. exact E.
Defined.

Definition sending : Process (St:=gmap string bytes) := match go [RMove 1 60000000001] idle_process with Some (_, p) => p | None => idle_process end.
Lemma accepted_then_dropped_witness : ∃ p', go [RMove 1 60000000001; RWorker 0 CCleanup 60000000001] sending = Some ([Accepted (qtx x02)], p') ∧
  p_threads p' !! 1 = Some (qtx x02, SDone true) ∧ workers (p_handler p') !! 0 = Some WEnd.
Proof.
  destruct (accepted_then_dropped order_dat to_address to_hash text contracts sending 1 (qtx x02) 0 {| queue := []; q_closed := false; lastActivity := 60000000001; q_from := alice |} 60000000001 60000000001)
    as (p' & E & T & W & _); [vm_compute; reflexivity..|simpl; lia|]. by exists p'.
Defined.

Definition question : RobotTx :=
  {| r_Input := @selector robot_codec "emitQuestion" [] ++ default [] (abi_Pack [TAddress; TUint256; TBytes] [VAddress alice; VBig 7; VBytes [x05]]);
     r_From := alice; r_Hash := zeros 32 |}.
Lemma robot_question_witness : ∃ h' o q, HandleRobotTransaction to_address contracts 1 question "0xaa" (NewRobotHandler empty_db) = Some ((true, Some (HashHex (zeros 32)), None), o, h') ∧
  length o = 2 ∧ txQueues h' !! alice = Some q.
Proof.
  destruct (abi_Pack [TAddress; TUint256; TBytes] [VAddress alice; VBig 7; VBytes [x05]]) as [d|] eqn:Ed; [|vm_compute in Ed; done].
  destruct (robot_question to_address to_hash contracts 1 question "0xaa" (NewRobotHandler empty_db) [TAddress; TUint256; TBytes] alice 7 [x05] "0x02" d)
    as (h' & q & i & t & b & E & Q & _); [vm_compute; lia|vm_compute; reflexivity|vm_compute; reflexivity|reflexivity|exact Ed|done|].
  eexists h', _, q. split; [exact E|]. by split.
Defined.
End RobotExample.
