(* ===== verification/FileHandler.v ===== *)
(** * The file handler ([pkg/file_handler/file_handler.go], [pkg/quic_network/quic.go])

    Upload transactions carry the chunks of a file; the handler checks them against the file's record
    on the chain and passes them to one of two storage servers over QUIC, on pooled connections and
    streams.  A stream context is a heap object shared by the chunks that use it.  QUIC, the chain and
    the clock are the class [QuicWorld]; JSON is [FileJson].  The maps are concurrent maps: an operation
    is one handler's sequential use of them. *)

From S2P Require Import Prelude GoLib Interfaces AccountAbi.
From Stdlib Require Import Strings.Byte.

Abbreviation quic_conn := positive.
Abbreviation quic_stream := positive.

(** ** Data ([pkg/models/file_model]) *)

(** [None] is a nil [*big.Int]. *)
Record FileInfo := {
  FileSize : option Z; TotalChunks : option Z; UploadTime : option Z;
  FileName : string; FileType : string; Category : string; ContentID : string;
  Status : Z; MerkleRoot : bytes; OwnerAddress : bytes; Signature : string }.

Record FileUploadProgress := { CompletedServers : Z; p_TotalChunks : option Z; StartTime : Z }.

Definition MAX_SIZE_CHUNK : nat := 1024 * 1024.
Definition MAX_CHUNK : Z := 8192.
Definition CONNECTION_POOL_SIZE : nat := 30.
Definition MAX_SEND_RETRIES : nat := 3.

(** ** What is outside *)

Class QuicWorld (W : Type) := {
  DialAddr : string → W → option quic_conn * W;
  conn_ok : quic_conn → W → bool;                             (** [Context().Err() == nil] *)
  conn_Close : quic_conn → W → W;
  OpenStreamSync : quic_conn → W → option quic_stream * W;
  stream_Close : quic_stream → W → W;
  stream_Write : quic_stream → bytes → W → bool * W;
  stream_ReadFull : quic_stream → nat → W → option bytes * W;
  GetFileInfo : bytes → W → option FileInfo * W;              (** the communicator's calls to the chain *)
  GetRustServerAddresses : W → option (list string) * W;
  time_Now : W → Z * W;
}.

Class FileJson := {
  marshal_UploadChunk : string → Z → string → list string → string → bytes;
    (** file key, index, signature, proof and root of the [UploadChunk] command *)
  parse_GenericResponse : bytes → option (string * string);   (** status, message *)
}.

(** ** The record on the chain ([pkg/utils/file_handler_helper/file.go]) *)

(** The fields of the tuple that [getFileInfo] returns, by their JSON tags. *)
Inductive field_val := FAddress (a : bytes) | FBytes32 (b : bytes) | FUint64 (z : Z) | FString (s : string) | FUint8 (z : Z) | FOther.

Definition empty_FileInfo : FileInfo :=
  {| FileSize := None; TotalChunks := None; UploadTime := None; FileName := ""; FileType := ""; Category := ""; ContentID := "";
     Status := 0; MerkleRoot := zeros 32; OwnerAddress := zeros 20; Signature := "" |}.

(** Each tag sets its field if the value has the expected type; [int64] of a large number is negative. *)
Definition set_field (i : FileInfo) (f : string * field_val) : FileInfo :=
  let '(tag, v) := f in
  let upd size total time name type cat cid st root owner :=
    {| FileSize := size; TotalChunks := total; UploadTime := time; FileName := name; FileType := type; Category := cat; ContentID := cid;
       Status := st; MerkleRoot := root; OwnerAddress := owner; Signature := Signature i |} in
  match v with
  | FAddress a => if decide (tag = "owner") then upd (FileSize i) (TotalChunks i) (UploadTime i) (FileName i) (FileType i) (Category i) (ContentID i) (Status i) (MerkleRoot i) a else i
  | FBytes32 b => if decide (tag = "merkleRoot") then upd (FileSize i) (TotalChunks i) (UploadTime i) (FileName i) (FileType i) (Category i) (ContentID i) (Status i) b (OwnerAddress i) else i
  | FUint64 z =>
      if decide (tag = "contentLen") then upd (Some (i64 z)) (TotalChunks i) (UploadTime i) (FileName i) (FileType i) (Category i) (ContentID i) (Status i) (MerkleRoot i) (OwnerAddress i)
      else if decide (tag = "totalChunks") then upd (FileSize i) (Some (i64 z)) (UploadTime i) (FileName i) (FileType i) (Category i) (ContentID i) (Status i) (MerkleRoot i) (OwnerAddress i)
      else if decide (tag = "expireTime") then upd (FileSize i) (TotalChunks i) (Some (i64 z)) (FileName i) (FileType i) (Category i) (ContentID i) (Status i) (MerkleRoot i) (OwnerAddress i)
      else i
  | FString s =>
      if decide (tag = "name") then upd (FileSize i) (TotalChunks i) (UploadTime i) s (FileType i) (Category i) (ContentID i) (Status i) (MerkleRoot i) (OwnerAddress i)
      else if decide (tag = "ext") then upd (FileSize i) (TotalChunks i) (UploadTime i) (FileName i) s (Category i) (ContentID i) (Status i) (MerkleRoot i) (OwnerAddress i)
      else if decide (tag = "contentDisposition") then upd (FileSize i) (TotalChunks i) (UploadTime i) (FileName i) (FileType i) s (ContentID i) (Status i) (MerkleRoot i) (OwnerAddress i)
      else if decide (tag = "contentID") then upd (FileSize i) (TotalChunks i) (UploadTime i) (FileName i) (FileType i) (Category i) s (Status i) (MerkleRoot i) (OwnerAddress i)
      else i
  | FUint8 z => if decide (tag = "status") then upd (FileSize i) (TotalChunks i) (UploadTime i) (FileName i) (FileType i) (Category i) (ContentID i) z (MerkleRoot i) (OwnerAddress i) else i
  | FOther => i
  end.

(** [ParseFileInfoFromResult]; [unpack] is the ABI decoder: the fields of the first result if it is a
    struct. *)
Definition ParseFileInfoFromResult (unpack : bytes → option (list (string * field_val))) (returnData : bytes) : option FileInfo :=
  match returnData with
  | [] => None
  | _ => foldl set_field empty_FileInfo <$> unpack returnData
  end.

(** ** State *)

Record FileHandler := {
  isInitialized : bool;
  cachedRustServers : string * string;
  connPool1 : list (option quic_conn);       (** empty while nil *)
  connPool2 : list (option quic_conn);
  uploadProgress : gmap string FileUploadProgress;
  fileInfoCache : gmap string FileInfo;
  streamPool : gmap string nat;              (** key to stream context *)
  contexts : gmap nat quic_stream;           (** the contexts and their current streams *)
  next_context : nat;
}.

Definition NewFileHandler : FileHandler :=
  {| isInitialized := false; cachedRustServers := ("", ""); connPool1 := []; connPool2 := []; uploadProgress := ∅; fileInfoCache := ∅;
     streamPool := ∅; contexts := ∅; next_context := 0 |}.

Definition with_init (b : bool) (h : FileHandler) : FileHandler :=
  {| isInitialized := b; cachedRustServers := cachedRustServers h; connPool1 := connPool1 h; connPool2 := connPool2 h; uploadProgress := uploadProgress h;
     fileInfoCache := fileInfoCache h; streamPool := streamPool h; contexts := contexts h; next_context := next_context h |}.
Definition with_servers (s : string * string) (h : FileHandler) : FileHandler :=
  {| isInitialized := isInitialized h; cachedRustServers := s; connPool1 := connPool1 h; connPool2 := connPool2 h; uploadProgress := uploadProgress h;
     fileInfoCache := fileInfoCache h; streamPool := streamPool h; contexts := contexts h; next_context := next_context h |}.
Definition with_pools (p1 p2 : list (option quic_conn)) (h : FileHandler) : FileHandler :=
  {| isInitialized := isInitialized h; cachedRustServers := cachedRustServers h; connPool1 := p1; connPool2 := p2; uploadProgress := uploadProgress h;
     fileInfoCache := fileInfoCache h; streamPool := streamPool h; contexts := contexts h; next_context := next_context h |}.
Definition with_caches (p : gmap string FileUploadProgress) (c : gmap string FileInfo) (h : FileHandler) : FileHandler :=
  {| isInitialized := isInitialized h; cachedRustServers := cachedRustServers h; connPool1 := connPool1 h; connPool2 := connPool2 h; uploadProgress := p;
     fileInfoCache := c; streamPool := streamPool h; contexts := contexts h; next_context := next_context h |}.
Definition with_streams (p : gmap string nat) (c : gmap nat quic_stream) (n : nat) (h : FileHandler) : FileHandler :=
  {| isInitialized := isInitialized h; cachedRustServers := cachedRustServers h; connPool1 := connPool1 h; connPool2 := connPool2 h; uploadProgress := uploadProgress h;
     fileInfoCache := fileInfoCache h; streamPool := p; contexts := c; next_context := n |}.
(** Forget a file. *)
Definition forget (fileKey : string) (h : FileHandler) : FileHandler :=
  with_caches (delete fileKey (uploadProgress h)) (delete fileKey (fileInfoCache h)) h.

Inductive file_error :=
  | ErrInput | ErrUnpackChunk | ErrFileInfo | ErrTooManyChunks | ErrActive | ErrNotOwner | ErrChunkSize
  | ErrConn | ErrStream | ErrWrite | ErrReadLength | ErrFrameSize | ErrReadData | ErrResponse | ErrServer (message : string) | ErrRetries
  | ErrServerList | ErrFewServers | ErrPools.

(** The transaction, as far as the handler reads it. *)
Record FileTx := { f_Input : bytes; f_From : bytes }.

Record FState (W : Type) := { fh : FileHandler; fw : W }.
Arguments fh {W} _.
Arguments fw {W} _.

Section Files.
Context {W : Type} `{QuicWorld W} `{FileJson}.
Abbreviation FM := (comp (FState W) file_error).

Definition on_world {A} (f : W → A * W) : FM A := λ s, let '(a, w) := f (fw s) in (Ok a, {| fh := fh s; fw := w |}).
Definition in_world (f : W → W) : FM unit := λ s, (Ok tt, {| fh := fh s; fw := f (fw s) |}).
Definition get_h : FM FileHandler := λ s, (Ok (fh s), s).
Definition put_h (f : FileHandler → FileHandler) : FM unit := λ s, (Ok tt, {| fh := f (fh s); fw := fw s |}).
Definition is_alive (c : quic_conn) : FM bool := λ s, (Ok (conn_ok c (fw s)), s).

(** ** Frames and connections ([quic.go]) *)

(** Four bytes of length in network order; the length is a [uint32]. *)
Definition writeFrameWithLength (s : quic_stream) (data : bytes) : FM unit :=
  ok ← on_world (stream_Write s (be_bytes 4 (Z.of_nat (length data) mod 2 ^ 32)));
  if (ok : bool) then
    ok ← on_world (stream_Write s data);
    if (ok : bool) then mret tt else c_fail ErrWrite
  else c_fail ErrWrite.

Definition readFrameWithLength (s : quic_stream) : FM bytes :=
  l ← on_world (stream_ReadFull s 4);
  match l with
  | None => c_fail ErrReadLength
  | Some l =>
      let length := big_SetBytes l in
      if (8 * 1024 * 1024 <? length)%Z then c_fail ErrFrameSize
      else d ← on_world (stream_ReadFull s (Z.to_nat length));
           match d with None => c_fail ErrReadData | Some d => mret d end
  end.

(** Up to [n] dials; [None] after the last failure. *)
Fixpoint dial (n : nat) (addr : string) : FM (option quic_conn) :=
  match n with
  | O => mret None
  | S n => c ← on_world (DialAddr addr); match c with Some c => mret (Some c) | None => dial n addr end
  end.
Definition CreateQuicConnection (addr : string) : FM (option quic_conn) := dial 3 addr.

(** One exchange with a server: the command, the chunk, the answer. *)
Definition SendChunkToRustServerQuic (s : quic_stream) (fileKey : string) (chunkIndex : Z) (chunkData : bytes) (signature : string)
    (proof : list bytes) (root : bytes) : FM string :=
  let jsonData := marshal_UploadChunk fileKey chunkIndex signature (hex_EncodeToString <$> proof) (hex_EncodeToString root) ++ [x0a] in
  _ ← writeFrameWithLength s jsonData;
  _ ← writeFrameWithLength s chunkData;
  r ← readFrameWithLength s;
  match parse_GenericResponse r with
  | None => c_fail ErrResponse
  | Some (status, message) => if decide (status = "SUCCESS" ∨ status = "COMPLETED") then mret status else c_fail (ErrServer message)
  end.

(** ** Connections and streams *)

(** A connection of the pool, redialled if it is gone; the index panics outside the pool. *)
Definition getAndRenewConn (isServer1 : bool) (poolIndex : Z) : FM quic_conn :=
  h ← get_h;
  let pool := if isServer1 then connPool1 h else connPool2 h in
  let addr := if isServer1 then (cachedRustServers h).1 else (cachedRustServers h).2 in
  if (poolIndex <? 0)%Z then c_panic
  else match pool !! Z.to_nat poolIndex with
       | None => c_panic
       | Some conn =>
           alive ← match conn with Some c => is_alive c | None => mret false end;
           match conn, alive with
           | Some c, true => mret c
           | _, _ =>
               _ ← match conn with Some c => in_world (conn_Close c) | None => mret tt end;
               n ← CreateQuicConnection addr;
               match n with
               | None => c_fail ErrConn
               | Some c =>
                   _ ← put_h (λ h, if isServer1 then with_pools (<[Z.to_nat poolIndex := Some c]> (connPool1 h)) (connPool2 h) h
                                   else with_pools (connPool1 h) (<[Z.to_nat poolIndex := Some c]> (connPool2 h)) h);
                   mret c
               end
           end
       end.

(** A new stream for a context after a failed send; its failures are ignored. *)
Definition renew_stream (ctx : nat) (isServer1 : bool) (poolIndex : Z) : FM unit :=
  c_try (getAndRenewConn isServer1 poolIndex) (λ r,
    match r with
    | inr _ => mret tt
    | inl conn =>
        s ← on_world (OpenStreamSync conn);
        match s with
        | None => mret tt
        | Some s =>
            h ← get_h;
            _ ← match contexts h !! ctx with Some old => in_world (stream_Close old) | None => mret tt end;
            put_h (λ h, with_streams (streamPool h) (<[ctx := s]> (contexts h)) (next_context h) h)
        end
    end).

Section Chunk.
Context (fileKey : string) (chunkIndex : Z) (chunkData : bytes) (signature : string) (proof : list bytes) (root : bytes).

(** One send on the current stream of a context. *)
Definition send_once (ctx : nat) : FM string :=
  h ← get_h;
  match contexts h !! ctx with
  | None => c_panic
  | Some s => SendChunkToRustServerQuic s fileKey chunkIndex chunkData signature proof root
  end.

Fixpoint send_loop (n : nat) (ctx : nat) (isServer1 : bool) (poolIndex : Z) : FM string :=
  match n with
  | O => _ ← put_h (with_init false); c_fail ErrRetries
  | S n =>
      c_try (send_once ctx) (λ r,
        match r with
        | inl status => mret status
        | inr _ => _ ← renew_stream ctx isServer1 poolIndex; send_loop n ctx isServer1 poolIndex
        end)
  end.
Definition sendChunk := send_loop MAX_SEND_RETRIES.
End Chunk.

(** The context of a key, opened on a pooled connection if there is none. *)
Definition get_stream (streamKey : string) (isServer1 : bool) (poolIndex : Z) : FM nat :=
  h ← get_h;
  match streamPool h !! streamKey with
  | Some ctx => mret ctx
  | None =>
      conn ← getAndRenewConn isServer1 poolIndex;
      s ← on_world (OpenStreamSync conn);
      match s with
      | None => c_fail ErrStream
      | Some s =>
          h ← get_h;
          let ctx := next_context h in
          _ ← put_h (λ h, with_streams (<[streamKey := ctx]> (streamPool h)) (<[ctx := s]> (contexts h)) (S ctx) h);
          mret ctx
      end
  end.

(** ** Uploading *)

Definition isServer1_of (i : Z) : bool := (Z.rem i 2 =? 0)%Z.
Definition poolIndex_of (i : Z) : Z := Z.rem (Z.quot i 2) (Z.of_nat CONNECTION_POOL_SIZE).
Definition streamKey_of (fileKey : string) (isServer1 : bool) (n : Z) : string :=
  fileKey +:+ "_" +:+ (if isServer1 then "true" else "false") +:+ "_" +:+ big_String n.

Definition load_info (fileKey : bytes) (fileKeyStr : string) : FM FileInfo :=
  h ← get_h;
  match fileInfoCache h !! fileKeyStr with
  | Some i => mret i
  | None =>
      r ← on_world (GetFileInfo fileKey);
      match r with
      | None => c_fail ErrFileInfo
      | Some i => _ ← put_h (λ h, with_caches (uploadProgress h) (<[fileKeyStr := i]> (fileInfoCache h)) h); mret i
      end
  end.

(** The checks of an upload. *)
Definition admit_chunk (tx : FileTx) (fileKeyStr : string) (i : FileInfo) (chunkData : bytes) : FM unit :=
  match TotalChunks i with
  | None => c_panic
  | Some total =>
      if (MAX_CHUNK <? total)%Z then c_fail ErrTooManyChunks
      else if (Status i =? 1)%Z then _ ← put_h (forget fileKeyStr); c_fail ErrActive
      else if negb (bool_decide (f_From tx = OwnerAddress i)) then c_fail ErrNotOwner
      else if decide (MAX_SIZE_CHUNK < length chunkData) then c_fail ErrChunkSize
      else mret tt
  end.

Definition load_progress (fileKeyStr : string) (i : FileInfo) : FM unit :=
  h ← get_h;
  match uploadProgress h !! fileKeyStr with
  | Some p => mret tt
  | None =>
      now ← on_world time_Now;
      put_h (λ h, with_caches (<[fileKeyStr := {| CompletedServers := 0; p_TotalChunks := TotalChunks i; StartTime := now |}]> (uploadProgress h)) (fileInfoCache h) h)
  end.

(** The streams of a finished file are closed, one key after the other. *)
Fixpoint close_streams (keys : list string) : FM unit :=
  match keys with
  | [] => mret tt
  | k :: keys =>
      h ← get_h;
      _ ← match streamPool h !! k with
          | None => mret tt
          | Some ctx =>
              _ ← match contexts h !! ctx with Some s => in_world (stream_Close s) | None => mret tt end;
              put_h (λ h, with_streams (delete k (streamPool h)) (contexts h) (next_context h) h)
          end;
      close_streams keys
  end.
Definition stream_keys (fileKeyStr : string) : list string :=
  concat ((λ i, [streamKey_of fileKeyStr true i; streamKey_of fileKeyStr false i]) <$> seqZ 0 50).

(** A server reports that it has the file: with both (one for a single chunk) the file is forgotten.
    The counter is that of the progress object loaded before the send. *)
Definition completed (fileKeyStr : string) (p : FileUploadProgress) : FM unit :=
  match p_TotalChunks p with
  | None => c_panic
  | Some total =>
      let count := (CompletedServers p + 1)%Z in
      let threshold := if (total =? 1)%Z then 1%Z else 2%Z in
      _ ← put_h (λ h, with_caches (alter (λ p, {| CompletedServers := count; p_TotalChunks := p_TotalChunks p; StartTime := StartTime p |}) fileKeyStr (uploadProgress h))
                        (fileInfoCache h) h);
      if (threshold <=? count)%Z then _ ← put_h (forget fileKeyStr); close_streams (stream_keys fileKeyStr) else mret tt
  end.

Definition doUploadChunkLogic (tx : FileTx) (fileKey : bytes) (chunkIndexInt : Z) (chunkData : bytes) (proof : list bytes) : FM unit :=
  let fileKeyStr := hex_EncodeToString fileKey in
  i ← load_info fileKey fileKeyStr;
  _ ← admit_chunk tx fileKeyStr i chunkData;
  _ ← load_progress fileKeyStr i;
  let isServer1 := isServer1_of chunkIndexInt in
  let poolIndex := poolIndex_of chunkIndexInt in
  ctx ← get_stream (streamKey_of fileKeyStr isServer1 (Z.rem chunkIndexInt 50)) isServer1 poolIndex;
  status ← sendChunk fileKeyStr chunkIndexInt chunkData (Signature i) proof (MerkleRoot i) ctx isServer1 poolIndex;
  if decide (status = "COMPLETED") then
    h ← get_h;
    match uploadProgress h !! fileKeyStr with
    | Some p => completed fileKeyStr p
    | None => mret tt
    end
  else mret tt.

(** ** Initialisation *)

(** [n] connections to a server; a failed one is nil and the error is remembered. *)
Fixpoint fill_pool (n : nat) (addr : string) : FM (list (option quic_conn) * bool) :=
  match n with
  | O => mret ([], false)
  | S n =>
      c ← CreateQuicConnection addr;
      '(l, failed) ← fill_pool n addr;
      mret (c :: l, match c with Some _ => failed | None => true end)
  end.

Fixpoint close_pool (l : list (option quic_conn)) : FM unit :=
  match l with
  | [] => mret tt
  | Some c :: l => _ ← in_world (conn_Close c); close_pool l
  | None :: l => close_pool l
  end.

(** The dials run concurrently in the code; here the first server's come first. *)
Definition initializeServerCacheAndPools : FM unit :=
  servers ← on_world GetRustServerAddresses;
  match servers with
  | None => c_fail ErrServerList
  | Some (s1 :: s2 :: _) =>
      _ ← put_h (with_servers (s1, s2));
      h ← get_h;
      _ ← close_pool (connPool1 h);
      _ ← close_pool (connPool2 h);
      '(p1, e1) ← fill_pool CONNECTION_POOL_SIZE s1;
      '(p2, e2) ← fill_pool CONNECTION_POOL_SIZE s2;
      _ ← put_h (with_pools p1 p2);
      if (e1 || e2 : bool) then c_fail ErrPools else mret tt
  | Some _ => c_fail ErrFewServers
  end.

Section Dispatch.
Context `{AbiCodec}.

Definition uploadChunk_inputs : list abi_type := [TBytes32; TBytes; TUint256; TBytes32Array].

(** [Unpack] returns values of these types. *)
Definition HandleUploadChunk (tx : FileTx) (inputData : bytes) : FM unit :=
  match abi_Unpack uploadChunk_inputs inputData with
  | None => c_fail ErrUnpackChunk
  | Some [VBytes32 fileKey; VBytes chunkData; VBig chunkIndex; VBytes32Array proof] =>
      doUploadChunkLogic tx fileKey (i64 chunkIndex) chunkData proof
  | Some _ => c_panic
  end.

(** Whether the transaction was handled.  Methods that are unknown and methods of the contract other
    than [uploadChunk] are both left to the chain.  An error of the initialisation is only logged. *)
Definition HandleFileTransactionNoReceipt (tx : FileTx) : FM bool :=
  if decide (length (f_Input tx) < 4) then c_fail ErrInput
  else if decide (take 4 (f_Input tx) = selector "uploadChunk" uploadChunk_inputs) then
    h ← get_h;
    _ ← (if isInitialized h then mret tt
         else c_try initializeServerCacheAndPools (λ _, put_h (with_init true)));
    _ ← HandleUploadChunk tx (drop 4 (f_Input tx));
    mret true
  else mret false.
End Dispatch.

(** ** Housekeeping *)

(** A tick of [monitorCacheHealth]: uploads older than a day are forgotten. *)
Definition monitorCacheHealth (now : Z) (h : FileHandler) : FileHandler :=
  let stale : gset string := dom (filter (λ '(_, p), (86400000000000 < now - StartTime p)%Z) (uploadProgress h)) in
  with_caches (filter (λ '(k, _), k ∉ stale) (uploadProgress h)) (filter (λ '(k, _), k ∉ stale) (fileInfoCache h)) h.
End Files.

(** [waitForMemoryAvailability] with the memory readings of its checks: it returns at the first reading
    within the limit, and with an error after fifty. *)
Fixpoint wait_memory (within : nat → bool) (fuel attempts : nat) : option bool :=
  match fuel with
  | O => None
  | S fuel =>
      if within attempts then Some true
      else if decide (50 ≤ S attempts) then Some false
      else wait_memory within fuel (S attempts)
  end.
Definition waitForMemoryAvailability (within : nat → bool) : option bool := wait_memory within 50 0.
