(* ===== verification/FileTheorems.v ===== *)
(** * Properties of the file handler

    A well-formed handler stays so and never panics on a chunk with a non-negative index; refused
    chunks touch no server; where a chunk goes; when a file is forgotten; frames. *)

From S2P Require Import Prelude GoLib Interfaces AccountAbi AccountToy FileHandler.
From Stdlib Require Import Strings.Byte.

(** ** Where a chunk goes *)

Lemma big_String_inj x y : big_String x = big_String y → x = y.
Proof. intros E. pose proof (big_SetString_String x) as X. rewrite E, big_SetString_String in X. congruence. Qed.

Lemma streamKey_inj k1 k2 b1 b2 n1 n2 : String.length k1 = String.length k2 → streamKey_of k1 b1 n1 = streamKey_of k2 b2 n2 → k1 = k2 ∧ b1 = b2 ∧ n1 = n2.
Proof.
  unfold streamKey_of. intros L E. apply str_app_inj_len in E as [-> E]; [|done]. split; [done|].
  destruct b1, b2; simplify_eq/=; try done; split; try done; by apply big_String_inj.
Qed.

(** Chunks alternate between the servers and go round the thirty connections of each; two chunks share a
    stream exactly if they belong to one file and their indices agree modulo fifty. *)
Theorem chunk_placement (k1 k2 : bytes) i j : length k1 = 32 → length k2 = 32 → (0 ≤ i)%Z → (0 ≤ j)%Z →
  (isServer1_of i = true ↔ (i mod 2 = 0)%Z) ∧
  (0 ≤ poolIndex_of i < Z.of_nat CONNECTION_POOL_SIZE)%Z ∧
  (streamKey_of (hex_EncodeToString k1) (isServer1_of i) (Z.rem i 50) = streamKey_of (hex_EncodeToString k2) (isServer1_of j) (Z.rem j 50) ↔
   k1 = k2 ∧ (i mod 50 = j mod 50)%Z).
Proof.
  intros L1 L2 Hi Hj. unfold isServer1_of, poolIndex_of, CONNECTION_POOL_SIZE. rewrite !(Z.rem_mod_nonneg i), !(Z.rem_mod_nonneg j) by lia.
  split; [by rewrite Z.eqb_eq|split].
  - rewrite Z.rem_mod_nonneg by (try apply Z.quot_pos; lia). zlia.
  - split.
    + intros E. apply streamKey_inj in E as (Ek & _ & En); [|by rewrite !hex_EncodeToString_length, L1, L2]. split; [by apply (inj hex_EncodeToString)|done].
    + intros [-> En]. rewrite En. f_equal. f_equal. zlia.
Qed.

(** ** Reasoning about the handler *)

Section FileProofs.
Context {W : Type} `{QuicWorld W} `{FileJson}.
Abbreviation FM := (comp (FState W) file_error).

(** From a state with [P] the operation returns with [Q] or fails with [R]; it never panics. *)
Definition triple {A} (P : FileHandler → Prop) (m : FM A) (Q : A → FileHandler → Prop) (R : FileHandler → Prop) : Prop :=
  ∀ s, P (fh s) → match m s with (Ok a, s') => Q a (fh s') | (Fail _, s') => R (fh s') | _ => False end.

Lemma triple_ret {A} P (a : A) R : triple P (mret a) (λ _, P) R.
Proof. by intros s Hs. Qed.
Lemma triple_fail {A} (R : FileHandler → Prop) e (Q : A → FileHandler → Prop) : triple R (c_fail e) Q R.
Proof. by intros s Hs. Qed.
Lemma triple_bind {A B} P (m : FM A) Q (k : A → FM B) Q' R : triple P m Q R → (∀ a, triple (Q a) (k a) Q' R) → triple P (m ≫= k) Q' R.
Proof.
  intros Hm Hk s Hs. specialize (Hm s Hs). unfold mbind, comp_bind. destruct (m s) as [[a|e| |] s']; try done. by apply Hk.
Qed.
Lemma triple_try {A B} P (m : FM A) Q R0 (k : A + file_error → FM B) Q' R : triple P m Q R0 →
  (∀ a, triple (Q a) (k (inl a)) Q' R) → (∀ e, triple R0 (k (inr e)) Q' R) → triple P (c_try m k) Q' R.
Proof.
  intros Hm Ha He s Hs. specialize (Hm s Hs). unfold c_try. destruct (m s) as [[a|e| |] s']; try done; [by apply Ha|by apply He].
Qed.
Lemma triple_pre {A} (P P' : FileHandler → Prop) (m : FM A) Q R : (∀ h, P h → P' h) → triple P' m Q R → triple P m Q R.
Proof. intros X Hm s Hs. by apply Hm, X. Qed.
Lemma triple_post {A} P (m : FM A) (Q Q' : A → FileHandler → Prop) (R R' : FileHandler → Prop) :
  (∀ a h, Q a h → Q' a h) → (∀ h, R h → R' h) → triple P m Q R → triple P m Q' R'.
Proof. intros X Y Hm s Hs. specialize (Hm s Hs). destruct (m s) as [[a|e| |] s']; auto. Qed.
Lemma triple_world {A} P (f : W → A * W) R : triple P (on_world f) (λ _, P) R.
Proof. intros s Hs. unfold on_world. by destruct (f (fw s)). Qed.
Lemma triple_in_world P (f : W → W) R : triple P (in_world f) (λ _, P) R.
Proof. by intros s Hs. Qed.
Lemma triple_get P R : triple P get_h (λ h h', h' = h ∧ P h) R.
Proof. by intros s Hs. Qed.
Lemma triple_alive P c R : triple P (is_alive c) (λ _, P) R.
Proof. by intros s Hs. Qed.
Lemma triple_put (P : FileHandler → Prop) f (Q : FileHandler → Prop) R : (∀ h, P h → Q (f h)) → triple P (put_h f) (λ _, Q) R.
Proof. intros X s Hs. by apply X. Qed.
(** A fact about the state read before. *)
Lemma triple_fact {A} (F : Prop) P (m : FM A) Q R : (F → triple P m Q R) → triple (λ h, F ∧ P h) m Q R.
Proof. intros X s [HF Hs]. by apply X. Qed.

(** ** Well-formed handlers *)

Definition threshold (p : FileUploadProgress) : Z := match p_TotalChunks p with Some 1%Z => 1 | _ => 2 end.

(** The pools are full size, every pooled stream has a context, every cached record a number of chunks,
    and no upload in progress has reached its number of confirmations. *)
Record file_ok (h : FileHandler) : Prop := {
  ok_pool1 : length (connPool1 h) = CONNECTION_POOL_SIZE;
  ok_pool2 : length (connPool2 h) = CONNECTION_POOL_SIZE;
  ok_streams k c : streamPool h !! k = Some c → is_Some (contexts h !! c);
  ok_progress k p : uploadProgress h !! k = Some p → is_Some (p_TotalChunks p) ∧ (0 ≤ CompletedServers p < threshold p)%Z;
  ok_info k i : fileInfoCache h !! k = Some i → is_Some (TotalChunks i);
}.

Lemma dial_triple P n addr R : triple P (dial n addr) (λ _, P) R.
Proof.
  induction n as [|n IH]; [apply triple_ret|]. simpl. eapply triple_bind; [apply triple_world|]. intros [c|]; [apply triple_ret|apply IH].
Qed.

(** What replacing a connection keeps. *)
Definition stable (P : FileHandler → Prop) : Prop :=
  ∀ h p1 p2, length p1 = length (connPool1 h) → length p2 = length (connPool2 h) → P h → P (with_pools p1 p2 h).

Lemma getAndRenewConn_triple (P : FileHandler → Prop) b n : stable P → (0 ≤ n < Z.of_nat CONNECTION_POOL_SIZE)%Z → (∀ h, P h → file_ok h) →
  triple P (getAndRenewConn b n) (λ _, P) P.
Proof.
  intros St Hn Hok. unfold getAndRenewConn. eapply triple_bind; [apply triple_get|]. intros h. eapply (triple_pre _ (λ h', P h ∧ P h')); [by intros h' [-> Hp]|].
  apply triple_fact. intros Hp. apply Hok in Hp as Hf. destruct (Z.ltb_spec n 0); [lia|].
  assert (is_Some ((if b then connPool1 h else connPool2 h) !! Z.to_nat n)) as [conn Hc].
  { apply lookup_lt_is_Some. destruct b; [rewrite (ok_pool1 _ Hf)|rewrite (ok_pool2 _ Hf)]; lia. }
  rewrite Hc. assert (triple P (_ ← match conn with Some c => in_world (conn_Close c) | None => mret tt end;
    c ← CreateQuicConnection (if b then (cachedRustServers h).1 else (cachedRustServers h).2);
    match c with
    | None => c_fail ErrConn
    | Some c => _ ← put_h (λ h, if b then with_pools (<[Z.to_nat n := Some c]> (connPool1 h)) (connPool2 h) h
                             else with_pools (connPool1 h) (<[Z.to_nat n := Some c]> (connPool2 h)) h); mret c
    end) (λ _, P) P) as Slow.
  { eapply (triple_bind _ _ (λ _, P)); [destruct conn; [apply triple_in_world|apply triple_ret]|intros _]. eapply triple_bind; [apply dial_triple|].
    intros [c|]; [|apply triple_fail]. eapply (triple_bind _ _ (λ _, P)); [|intros _; apply triple_ret]. apply triple_put. intros h' Hp'.
    destruct b; apply St; try done; by rewrite length_insert. }
  eapply (triple_bind _ _ (λ _, P)); [destruct conn; [apply triple_alive|apply triple_ret]|]. intros [|]; [|destruct conn; apply Slow].
  destruct conn; [apply triple_ret|apply Slow].
Qed.

(** A handler with a given context. *)
Definition has_context (ctx : nat) (h : FileHandler) : Prop := file_ok h ∧ is_Some (contexts h !! ctx).

Lemma file_ok_stable : stable file_ok.
Proof. intros h p1 p2 L1 L2 []. split; simpl; try done; congruence. Qed.
Lemma has_context_stable ctx : stable (has_context ctx).
Proof. intros h p1 p2 L1 L2 [Hf Hc]. split; [by apply file_ok_stable|done]. Qed.

Lemma renew_triple ctx b n : (0 ≤ n < Z.of_nat CONNECTION_POOL_SIZE)%Z → triple (has_context ctx) (renew_stream ctx b n) (λ _, has_context ctx) file_ok.
Proof.
  intros Hn. unfold renew_stream. eapply triple_try; [apply getAndRenewConn_triple; [apply has_context_stable|done|by intros h []]| |].
  - intros conn. eapply triple_bind; [apply triple_world|]. intros [s|]; [|apply triple_ret].
    eapply triple_bind; [apply triple_get|]. intros h. eapply (triple_bind _ _ (λ _, has_context ctx)).
    + eapply (triple_pre _ (has_context ctx)); [by intros h' [-> ?]|]. destruct (contexts h !! ctx); [apply triple_in_world|apply triple_ret].
    + intros _. apply triple_put. intros h' [[] Hc]. split; [split; simpl; try done|simpl; rewrite lookup_insert_eq; by eexists].
      intros k c Hk. destruct (decide (ctx = c)) as [<-|]; [rewrite lookup_insert_eq; by eexists|rewrite lookup_insert_ne by done; by eapply ok_streams0].
  - intros e. apply triple_ret.
Qed.

Lemma write_triple P s d : triple P (writeFrameWithLength s d) (λ _, P) P.
Proof.
  unfold writeFrameWithLength. eapply triple_bind; [apply triple_world|]. intros [|]; [|apply triple_fail].
  eapply triple_bind; [apply triple_world|]. intros [|]; [apply triple_ret|apply triple_fail].
Qed.
Lemma read_triple P s : triple P (readFrameWithLength s) (λ _, P) P.
Proof.
  unfold readFrameWithLength. eapply triple_bind; [apply triple_world|]. intros [l|]; [|apply triple_fail]. case_match; [apply triple_fail|].
  eapply triple_bind; [apply triple_world|]. intros [d|]; [apply triple_ret|apply triple_fail].
Qed.

(** An exchange answers with one of two statuses. *)
Lemma exchange_triple P s k i d sig pr r :
  triple P (SendChunkToRustServerQuic s k i d sig pr r) (λ status h, (status = "SUCCESS" ∨ status = "COMPLETED") ∧ P h) P.
Proof.
  unfold SendChunkToRustServerQuic. eapply triple_bind; [apply write_triple|]. intros []. eapply triple_bind; [apply write_triple|]. intros [].
  eapply triple_bind; [apply read_triple|]. intros resp. destruct (parse_GenericResponse resp) as [[status msg]|]; [|apply triple_fail].
  case_decide; [|apply triple_fail]. intros st Hst. simpl. done.
Qed.

Section Chunk.
Context (fileKey : string) (chunkIndex : Z) (chunkData : bytes) (signature : string) (proof : list bytes) (root : bytes).

Lemma send_once_triple ctx : triple (has_context ctx) (send_once fileKey chunkIndex chunkData signature proof root ctx)
  (λ status h, (status = "SUCCESS" ∨ status = "COMPLETED") ∧ has_context ctx h) (has_context ctx).
Proof.
  unfold send_once. eapply triple_bind; [apply triple_get|]. intros h. eapply (triple_pre _ (λ h', is_Some (contexts h !! ctx) ∧ has_context ctx h')).
  - intros h' [-> Hp]. split; [apply Hp|done].
  - apply triple_fact. intros [s ->]. apply exchange_triple.
Qed.

Lemma send_loop_triple n ctx b i : (0 ≤ i < Z.of_nat CONNECTION_POOL_SIZE)%Z →
  triple (has_context ctx) (send_loop fileKey chunkIndex chunkData signature proof root n ctx b i)
    (λ status h, (status = "SUCCESS" ∨ status = "COMPLETED") ∧ has_context ctx h) file_ok.
Proof.
  intros Hi. induction n as [|n IH]; simpl.
  - eapply (triple_bind _ _ (λ _, file_ok)); [|intros []; apply triple_fail]. apply triple_put. intros h [[] _]. by split.
  - eapply triple_try; [apply send_once_triple| |].
    + intros status. by apply triple_fact; intros ?; intros s Hs.
    + intros e. eapply triple_bind; [by apply renew_triple|]. by intros [].
Qed.

(** [sendChunk] returns a status after a successful exchange, or an error after three failed ones and
    then has the handler initialise itself again; it never panics. *)
Theorem send_chunk_outcome ctx b i s : file_ok (fh s) → is_Some (contexts (fh s) !! ctx) → (0 ≤ i < Z.of_nat CONNECTION_POOL_SIZE)%Z →
  match sendChunk fileKey chunkIndex chunkData signature proof root ctx b i s with
  | (Ok status, s') => (status = "SUCCESS" ∨ status = "COMPLETED") ∧ file_ok (fh s')
  | (Fail e, s') => e = ErrRetries ∧ isInitialized (fh s') = false ∧ file_ok (fh s')
  | _ => False
  end.
Proof.
  intros Hf Hc Hi. pose proof (send_loop_triple MAX_SEND_RETRIES ctx b i Hi s (conj Hf Hc)) as T. unfold sendChunk.
  assert (∀ n s s' e, send_loop fileKey chunkIndex chunkData signature proof root n ctx b i s = (Fail e, s') → e = ErrRetries ∧ isInitialized (fh s') = false) as F.
  { clear. induction n as [|n IH]; intros s s' e; simpl; [by intros [= <- <-]|]. unfold c_try. destruct (send_once _ _ _ _ _ _ _ s) as [[a|e'| |] s1]; try done.
    unfold mbind, comp_bind. destruct (renew_stream ctx b i s1) as [[a|e''| |] s2] eqn:E; try done; [apply IH|]. intros _. exfalso. clear IH. revert E.
    unfold renew_stream, c_try. destruct (getAndRenewConn b i s1) as [[c|e0| |] s3]; try done. unfold mbind, comp_bind, on_world, get_h.
    destruct (OpenStreamSync c (fw s3)) as [[st|] w]; [|done]. simpl. by destruct (contexts (fh s3) !! ctx). }
  destruct (send_loop _ _ _ _ _ _ _ _ _ _ s) as [[status|e| |] s'] eqn:E; try done; [destruct T as [? [? _]]; done|].
  destruct (F _ _ _ _ E). done.
Qed.
End Chunk.

(** ** Uploads *)

Lemma triple_value {A} P (f : W → A * W) (V : A → Prop) R : (∀ w, V (f w).1) → triple P (on_world f) (λ a h, V a ∧ P h) R.
Proof. intros X s Hs. unfold on_world. specialize (X (fw s)). by destruct (f (fw s)). Qed.

(** The chain's records have a number of chunks. *)
Definition chain_records : Prop := ∀ k w i, (GetFileInfo k w).1 = Some i → is_Some (TotalChunks i).

Lemma load_info_triple k ks : chain_records → triple file_ok (load_info k ks) (λ i h, is_Some (TotalChunks i) ∧ file_ok h) file_ok.
Proof.
  intros CR. unfold load_info. eapply triple_bind; [apply triple_get|]. intros h. destruct (fileInfoCache h !! ks) as [i|] eqn:E.
  - intros s [Eh Hf]. subst h. simpl. split; [by eapply (ok_info _ Hf)|done].
  - eapply (triple_pre _ file_ok); [by intros h' [-> ?]|].
    eapply triple_bind; [apply (triple_value _ _ (λ r, ∀ i, r = Some i → is_Some (TotalChunks i))); intros w i; apply CR|].
    intros [i|]; [|eapply triple_pre; [|apply triple_fail]; by intros ? []]. apply triple_fact. intros Hi.
    eapply (triple_bind _ _ (λ _, file_ok)); [|intros []; intros s Hs; simpl; by split; [apply Hi|]].
    apply triple_put. intros h' []. split; simpl; try done. intros k0 i0. rewrite lookup_insert_Some. intros [[_ <-]|[_ ?]]; [by apply Hi|by eapply ok_info0].
Qed.

Lemma forget_ok k h : file_ok h → file_ok (forget k h).
Proof.
  intros []. split; simpl; try done.
  - intros k0 p. rewrite lookup_delete_Some. intros [_ ?]. by eapply ok_progress0.
  - intros k0 i. rewrite lookup_delete_Some. intros [_ ?]. by eapply ok_info0.
Qed.

Lemma admit_triple tx ks i d : is_Some (TotalChunks i) → triple file_ok (admit_chunk tx ks i d) (λ _, file_ok) file_ok.
Proof.
  intros [n Hn]. unfold admit_chunk. rewrite Hn. destruct (_ <? _)%Z; [apply triple_fail|]. destruct (_ =? _)%Z.
  - eapply (triple_bind _ _ (λ _, file_ok)); [apply triple_put, forget_ok|intros []; apply triple_fail].
  - destruct (negb _); [apply triple_fail|]. destruct (decide _); [apply triple_fail|apply triple_ret].
Qed.

Lemma load_progress_triple ks i : is_Some (TotalChunks i) → triple file_ok (load_progress ks i) (λ _, file_ok) file_ok.
Proof.
  intros Hi. unfold load_progress. eapply triple_bind; [apply triple_get|]. intros h. eapply (triple_pre _ file_ok); [by intros h' [-> ?]|].
  destruct (uploadProgress h !! ks); [apply triple_ret|]. eapply triple_bind; [apply triple_world|]. intros now. apply triple_put. intros h' [].
  split; simpl; try done. intros k p. rewrite lookup_insert_Some. intros [[_ <-]|[_ ?]]; [|by eapply ok_progress0]. simpl. split; [done|].
  unfold threshold. simpl. destruct (TotalChunks i) as [[|[| |]|]|]; lia.
Qed.

Lemma get_stream_triple key b n : (0 ≤ n < Z.of_nat CONNECTION_POOL_SIZE)%Z → triple file_ok (get_stream key b n) has_context file_ok.
Proof.
  intros Hn. unfold get_stream. eapply triple_bind; [apply triple_get|]. intros h. destruct (streamPool h !! key) as [ctx|] eqn:E.
  - intros s [Eh Hf]. subst h. simpl. split; [done|by eapply (ok_streams _ Hf)].
  - eapply (triple_pre _ file_ok); [by intros h' [-> ?]|]. eapply triple_bind; [apply getAndRenewConn_triple; [apply file_ok_stable|done|done]|].
    intros conn. eapply triple_bind; [apply triple_world|]. intros [s|]; [|apply triple_fail]. eapply triple_bind; [apply triple_get|]. intros h0.
    eapply (triple_pre _ file_ok); [by intros h' [-> ?]|]. eapply (triple_bind _ _ (λ _, has_context (next_context h0))); [|intros []; by intros st Hs].
    apply triple_put. intros h' []. split; [split; simpl; try done|simpl; rewrite lookup_insert_eq; by eexists].
    intros k c. rewrite lookup_insert_Some. intros [[_ <-]|[_ Hk]]; [rewrite lookup_insert_eq; by eexists|].
    destruct (decide (next_context h0 = c)) as [<-|]; [rewrite lookup_insert_eq; by eexists|rewrite lookup_insert_ne by done; by eapply ok_streams0].
Qed.

Lemma close_streams_triple keys : triple file_ok (close_streams keys) (λ _, file_ok) file_ok.
Proof.
  induction keys as [|k keys IH]; [apply triple_ret|]. simpl. eapply triple_bind; [apply triple_get|]. intros h. eapply (triple_pre _ file_ok); [by intros h' [-> ?]|].
  eapply (triple_bind _ _ (λ _, file_ok)); [|intros []; apply IH]. destruct (streamPool h !! k) as [ctx|]; [|apply triple_ret].
  eapply (triple_bind _ _ (λ _, file_ok)); [destruct (contexts h !! ctx); [apply triple_in_world|apply triple_ret]|]. intros []. apply triple_put. intros h' [].
  split; simpl; try done. intros k0 c. rewrite lookup_delete_Some. intros [_ ?]. by eapply ok_streams0.
Qed.

(** The count of confirmations goes up by one, or the file is forgotten. *)
Lemma completed_triple ks p : triple (λ h, uploadProgress h !! ks = Some p ∧ file_ok h) (completed ks p) (λ _, file_ok) file_ok.
Proof.
  intros s [Hp Hf]. destruct (ok_progress _ Hf _ _ Hp) as [[total Ht] Hc]. revert s Hp Hf.
  set (count := (CompletedServers p + 1)%Z). set (f := λ p0 : FileUploadProgress, {| CompletedServers := count; p_TotalChunks := p_TotalChunks p0; StartTime := StartTime p0 |}).
  assert (∀ h, uploadProgress h !! ks = Some p → file_ok h → file_ok (forget ks (with_caches (alter f ks (uploadProgress h)) (fileInfoCache h) h))) as Done.
  { intros h Hp []. split; simpl; try done.
    - intros k q. rewrite lookup_delete_Some. intros [Hne Hq]. rewrite lookup_alter_ne in Hq by done. by eapply ok_progress0.
    - intros k q. rewrite lookup_delete_Some. intros [_ ?]. by eapply ok_info0. }
  assert (∀ h, (count < threshold p)%Z → uploadProgress h !! ks = Some p → file_ok h → file_ok (with_caches (alter f ks (uploadProgress h)) (fileInfoCache h) h)) as More.
  { intros h Hlt Hp []. split; simpl; try done. intros k q. destruct (decide (ks = k)) as [<-|Hne]; [|rewrite lookup_alter_ne by done; by eapply ok_progress0].
    rewrite lookup_alter_eq, Hp. intros [= <-]. simpl. split; [by rewrite Ht|]. unfold threshold in *. simpl. lia. }
  assert ((if (total =? 1)%Z then 1 else 2)%Z = threshold p) as Et.
  { unfold threshold. rewrite Ht. by destruct total as [|[| |]|]. }
  intros s Hp Hf. unfold completed. rewrite Ht, Et. fold count. fold f. destruct (Z.leb_spec (threshold p) count).
  - apply (close_streams_triple (stream_keys ks) {| fh := _; fw := _ |}). by apply Done.
  - by apply More.
Qed.

Lemma upload_triple tx k idx d pr : chain_records → (0 ≤ idx)%Z → triple file_ok (doUploadChunkLogic tx k idx d pr) (λ _, file_ok) file_ok.
Proof.
  intros CR Hi. unfold doUploadChunkLogic. set (ks := hex_EncodeToString k).
  assert (0 ≤ poolIndex_of idx < Z.of_nat CONNECTION_POOL_SIZE)%Z as Hp.
  { unfold poolIndex_of, CONNECTION_POOL_SIZE. rewrite Z.rem_mod_nonneg by (try apply Z.quot_pos; lia). zlia. }
  eapply triple_bind; [by apply load_info_triple|]. intros i. apply triple_fact. intros Ht.
  eapply triple_bind; [by apply admit_triple|]. intros []. eapply triple_bind; [by apply load_progress_triple|]. intros [].
  eapply triple_bind; [by apply get_stream_triple|]. intros ctx. eapply triple_bind; [by apply send_loop_triple|]. intros status. apply triple_fact. intros _.
  eapply (triple_pre _ file_ok); [by intros h []|]. case_decide; [|apply triple_ret]. eapply triple_bind; [apply triple_get|]. intros h.
  destruct (uploadProgress h !! ks) as [p|] eqn:E; [|eapply triple_pre; [|apply triple_ret]; by intros h' [-> ?]].
  eapply triple_pre; [|apply completed_triple]. by intros h' [-> ?].
Qed.

(** ** Initialisation *)

(** Well-formed but for the pools. *)
Definition caches_ok (h : FileHandler) : Prop := file_ok (with_pools (replicate CONNECTION_POOL_SIZE None) (replicate CONNECTION_POOL_SIZE None) h).

Lemma pools_ok h p1 p2 : caches_ok h → length p1 = CONNECTION_POOL_SIZE → length p2 = CONNECTION_POOL_SIZE → file_ok (with_pools p1 p2 h).
Proof. intros [] L1 L2. by split. Qed.

Lemma close_pool_triple P l R : triple P (close_pool l) (λ _, P) R.
Proof.
  induction l as [|[c|] l IH]; simpl; [apply triple_ret| |apply IH]. eapply triple_bind; [apply triple_in_world|]. intros []. apply IH.
Qed.

Lemma fill_pool_triple P n addr R : triple P (fill_pool n addr) (λ r h, length r.1 = n ∧ P h) R.
Proof.
  induction n as [|n IH]; simpl; [by intros s Hs|]. eapply triple_bind; [apply dial_triple|]. intros c. eapply triple_bind; [apply IH|]. intros [l e]. simpl.
  apply triple_fact. intros Hl s Hs. simpl. by rewrite Hl.
Qed.

Lemma init_triple s : caches_ok (fh s) → (∃ s1 s2 l, (GetRustServerAddresses (fw s)).1 = Some (s1 :: s2 :: l)) →
  match initializeServerCacheAndPools s with (Ok _, s') | (Fail _, s') => file_ok (fh s') | _ => False end.
Proof.
  intros Hc (s1 & s2 & l & E). unfold initializeServerCacheAndPools. unfold mbind at 1, comp_bind at 1, on_world at 1.
  destruct (GetRustServerAddresses (fw s)) as [r w]. simpl in E. subst r. match goal with |- match ?m ?st with _ => _ end => assert (triple caches_ok m (λ _, file_ok) file_ok) as T end.
  { eapply (triple_bind _ _ (λ _, caches_ok)); [apply triple_put; intros h []; by split|]. intros []. eapply triple_bind; [apply triple_get|]. intros h.
    eapply (triple_pre _ caches_ok); [by intros h' [-> ?]|].
    eapply triple_bind; [apply close_pool_triple|]. intros []. eapply triple_bind; [apply close_pool_triple|]. intros [].
    eapply triple_bind; [apply fill_pool_triple|]. intros [p1 e1]. apply triple_fact. intros L1.
    eapply triple_bind; [apply fill_pool_triple|]. intros [p2 e2]. apply triple_fact. intros L2. simpl in L1, L2.
    eapply (triple_bind _ _ (λ _, file_ok)); [apply triple_put; intros h' Hh'; by apply pools_ok|]. intros [].
    destruct (e1 || e2); [apply triple_fail|apply triple_ret]. }
  specialize (T {| fh := fh s; fw := w |} Hc). done.
Qed.

(** ** Whole transactions *)

(** What a transaction asks for: no method, or a chunk whose index is not negative as an [int]. *)
Definition sane_index `{AbiCodec} (tx : FileTx) : Prop :=
  ∀ k d z pr, abi_Unpack uploadChunk_inputs (drop 4 (f_Input tx)) = Some [VBytes32 k; VBytes d; VBig z; VBytes32Array pr] → (0 ≤ i64 z)%Z.


(** Where the record of a file comes from: the cache, or the chain. *)
Definition info_from (k : bytes) (s : FState W) (i : FileInfo) (w : W) : Prop :=
  match fileInfoCache (fh s) !! hex_EncodeToString k with
  | Some j => j = i ∧ w = fw s
  | None => GetFileInfo k (fw s) = (Some i, w)
  end.

Lemma load_info_from k s i w : info_from k s i w → ∃ c,
  load_info k (hex_EncodeToString k) s = (Ok i, {| fh := with_caches (uploadProgress (fh s)) c (fh s); fw := w |}) ∧ c !! hex_EncodeToString k = Some i.
Proof.
  unfold info_from, load_info, mbind, comp_bind, get_h. destruct (fileInfoCache (fh s) !! hex_EncodeToString k) as [j|] eqn:E.
  - intros [-> ->]. exists (fileInfoCache (fh s)). split; [|done]. by destruct s as [[] ?].
  - intros Eg. unfold on_world. rewrite Eg. eexists. split; [done|]. by rewrite lookup_insert_eq.
Qed.

(** A chunk of a file with too many chunks, of a file that is already active, from somebody else than its
    owner, or of too many bytes is refused before any connection or stream is touched. *)
Theorem upload_refused tx k idx d pr s i w total : info_from k s i w → TotalChunks i = Some total →
  (MAX_CHUNK < total ∨ Status i = 1 ∨ f_From tx ≠ OwnerAddress i)%Z ∨ MAX_SIZE_CHUNK < length d →
  ∃ e s', doUploadChunkLogic tx k idx d pr s = (Fail e, s') ∧ e ∈ [ErrTooManyChunks; ErrActive; ErrNotOwner; ErrChunkSize] ∧
    fw s' = w ∧ streamPool (fh s') = streamPool (fh s) ∧ contexts (fh s') = contexts (fh s) ∧ connPool1 (fh s') = connPool1 (fh s) ∧ connPool2 (fh s') = connPool2 (fh s).
Proof.
  intros Hi Ht Hbad. destruct (load_info_from k s i w Hi) as (c & El & _). unfold doUploadChunkLogic. unfold mbind at 1, comp_bind at 1. rewrite El.
  unfold mbind at 1, comp_bind at 1, admit_chunk. rewrite Ht. destruct (Z.ltb_spec MAX_CHUNK total); [by eexists _, _; split_and!; [done|set_solver|..]|].
  destruct (Z.eqb_spec (Status i) 1); [by eexists _, _; split_and!; [done|set_solver|..]|]. case_bool_decide; simpl; [|by eexists _, _; split_and!; [done|set_solver|..]].
  destruct (decide _); [by eexists _, _; split_and!; [done|set_solver|..]|]. destruct Hbad as [[|[|]]|]; try done; lia.
Qed.

(** ** Completion *)

Lemma close_streams_gone keys : ∀ s, ∃ s', close_streams keys s = (Ok tt, s') ∧ (∀ k, k ∈ keys → streamPool (fh s') !! k = None) ∧
  (∀ k, k ∉ keys → streamPool (fh s') !! k = streamPool (fh s) !! k) ∧ uploadProgress (fh s') = uploadProgress (fh s) ∧ fileInfoCache (fh s') = fileInfoCache (fh s).
Proof.
  induction keys as [|k keys IH]; intros s; [exists s; split_and!; try done; intros k Hk; by apply not_elem_of_nil in Hk|].
  assert (∃ s1, (h ← get_h; match streamPool h !! k with
      | None => mret tt
      | Some ctx => _ ← match contexts h !! ctx with Some st => in_world (stream_Close st) | None => mret tt end;
          put_h (λ h, with_streams (delete k (streamPool h)) (contexts h) (next_context h) h)
      end) s = (Ok tt, s1) ∧ streamPool (fh s1) = delete k (streamPool (fh s)) ∧ uploadProgress (fh s1) = uploadProgress (fh s) ∧ fileInfoCache (fh s1) = fileInfoCache (fh s)) as (s1 & E1 & P1 & U1 & C1).
  { unfold mbind, comp_bind, get_h. destruct (streamPool (fh s) !! k) as [ctx|] eqn:Ek; [|exists s; split_and!; try done; by rewrite delete_id].
    destruct (contexts (fh s) !! ctx); eexists; by split_and!. }
  destruct (IH s1) as (s' & E & G & O & U & C). exists s'. split.
  - cbn [close_streams]. unfold mbind, comp_bind, get_h in *. destruct (streamPool (fh s) !! k) as [ctx|]; [|by injection E1 as ->].
    destruct (contexts (fh s) !! ctx); by injection E1 as <-.
  - split_and!; [| |congruence..].
    + intros k'. rewrite elem_of_cons. intros [->|Hk]; [|by apply G]. destruct (decide (k ∈ keys)); [by apply G|]. rewrite O, P1 by done. apply lookup_delete_eq.
    + intros k'. rewrite elem_of_cons. intros Hk. rewrite O, P1 by tauto. apply lookup_delete_ne. intros ->. tauto.
Qed.

(** A confirmation below the threshold is counted; the last one (two, or one for a file of a single
    chunk) forgets the file and its streams.  Other files keep their progress and records. *)
Theorem upload_completion ks p s total : uploadProgress (fh s) !! ks = Some p → p_TotalChunks p = Some total →
  ∃ s', completed ks p s = (Ok tt, s') ∧
    (if decide (CompletedServers p + 1 < threshold p)%Z then
       ∃ p', uploadProgress (fh s') !! ks = Some p' ∧ CompletedServers p' = (CompletedServers p + 1)%Z ∧ streamPool (fh s') = streamPool (fh s)
     else uploadProgress (fh s') !! ks = None ∧ fileInfoCache (fh s') !! ks = None ∧ (∀ b i, (0 ≤ i < 50)%Z → streamPool (fh s') !! streamKey_of ks b i = None)) ∧
    (∀ k, k ≠ ks → uploadProgress (fh s') !! k = uploadProgress (fh s) !! k ∧ fileInfoCache (fh s') !! k = fileInfoCache (fh s) !! k).
Proof.
  intros Hp Ht. unfold completed. rewrite Ht. assert ((if (total =? 1)%Z then 1 else 2)%Z = threshold p) as ->.
  { unfold threshold. rewrite Ht. by destruct total as [|[| |]|]. }
  unfold mbind at 1, comp_bind at 1, put_h at 1. cbn [fst snd]. destruct (Z.leb_spec (threshold p) (CompletedServers p + 1)).
  - unfold mbind at 1, comp_bind at 1, put_h at 1. cbn [fh fw].
    match goal with |- context [close_streams _ ?st] => destruct (close_streams_gone (stream_keys ks) st) as (s' & -> & G & _ & U & C) end.
    exists s'. split; [done|]. rewrite decide_False by lia. rewrite U, C. simpl. split_and!.
    + apply lookup_delete_eq.
    + apply lookup_delete_eq.
    + intros b i Hi. apply G. unfold stream_keys. apply list_elem_of_In, in_concat. exists [streamKey_of ks true i; streamKey_of ks false i].
      split; [|destruct b; simpl; tauto]. apply list_elem_of_In, list_elem_of_fmap. exists i. split; [done|]. apply elem_of_seqZ. lia.
    + intros k Hk. by rewrite !lookup_delete_ne, lookup_alter_ne.
  - eexists. split; [done|]. rewrite decide_True by lia. simpl. split; [|intros k Hk; by rewrite lookup_alter_ne]. rewrite lookup_alter_eq, Hp. by eexists.
Qed.

(** ** Panics *)

(** The chunk passes the checks. *)
Definition admitted (tx : FileTx) (i : FileInfo) (d : bytes) : Prop :=
  (∃ total, TotalChunks i = Some total ∧ total ≤ MAX_CHUNK)%Z ∧ Status i ≠ 1%Z ∧ f_From tx = OwnerAddress i ∧ length d ≤ MAX_SIZE_CHUNK.

(** An admitted chunk whose stream is not open and whose index lies outside the pool. *)
Lemma upload_panics tx k idx d pr s i w : info_from k s i w → admitted tx i d →
  streamPool (fh s) !! streamKey_of (hex_EncodeToString k) (isServer1_of idx) (Z.rem idx 50) = None →
  (poolIndex_of idx < 0 ∨ Z.of_nat (length (if isServer1_of idx then connPool1 (fh s) else connPool2 (fh s))) ≤ poolIndex_of idx)%Z →
  (doUploadChunkLogic tx k idx d pr s).1 = Panic.
Proof.
  intros Hi ((total & Ht & Hm) & Hst & Hown & Hd) Hk Hp. destruct (load_info_from k s i w Hi) as (c & El & _). unfold doUploadChunkLogic.
  unfold mbind at 1, comp_bind at 1. rewrite El. unfold mbind at 1, comp_bind at 1, admit_chunk. rewrite Ht.
  destruct (Z.ltb_spec MAX_CHUNK total); [lia|]. destruct (Z.eqb_spec (Status i) 1); [done|]. rewrite bool_decide_eq_true_2 by done. cbn [negb].
  rewrite decide_False by lia. cbn [mret comp_ret]. unfold mbind at 1, comp_bind at 1.
  assert (∃ s1, load_progress (hex_EncodeToString k) i {| fh := with_caches (uploadProgress (fh s)) c (fh s); fw := w |} = (Ok tt, s1) ∧ streamPool (fh s1) = streamPool (fh s) ∧
    connPool1 (fh s1) = connPool1 (fh s) ∧ connPool2 (fh s1) = connPool2 (fh s)) as (s1 & -> & E1 & E2 & E3).
  { unfold load_progress, mbind, comp_bind, get_h, on_world. cbn [fh fw]. simpl. destruct (uploadProgress (fh s) !! hex_EncodeToString k); [eexists; by split_and!|].
    destruct (time_Now _) as [now w']. eexists. by split_and!. }
  unfold mbind at 1, comp_bind at 1, get_stream, mbind at 1, comp_bind at 1, get_h at 1. rewrite E1, Hk. unfold mbind at 1, comp_bind at 1, getAndRenewConn, mbind at 1, comp_bind at 1, get_h at 1.
  destruct (Z.ltb_spec (poolIndex_of idx) 0); [done|]. rewrite E2, E3, lookup_ge_None_2; [done|]. lia.
Qed.

(** If the list of servers cannot be had, the handler still counts as initialised, and its next admitted
    chunk panics on the empty pool. *)
Theorem failed_init_panics `{AbiCodec} tx k d z pr s0 w0 i w : take 4 (f_Input tx) = selector "uploadChunk" uploadChunk_inputs → 4 ≤ length (f_Input tx) →
  abi_Unpack uploadChunk_inputs (drop 4 (f_Input tx)) = Some [VBytes32 k; VBytes d; VBig z; VBytes32Array pr] →
  fh s0 = NewFileHandler → GetRustServerAddresses (fw s0) = (None, w0) → GetFileInfo k w0 = (Some i, w) → admitted tx i d →
  (HandleFileTransactionNoReceipt tx s0).1 = Panic.
Proof.
  intros Hsel Hl Hu Hh Hsrv Hinfo Hadm. unfold HandleFileTransactionNoReceipt. rewrite decide_False, decide_True by (done || lia).
  unfold mbind at 1, comp_bind at 1, get_h at 1. rewrite Hh. cbn [isInitialized NewFileHandler]. unfold mbind at 1, comp_bind at 1, c_try, initializeServerCacheAndPools.
  unfold mbind at 1, comp_bind at 1, on_world at 1. rewrite Hsrv. cbn [c_fail put_h fh fw]. rewrite Hh. unfold mbind, comp_bind, HandleUploadChunk. rewrite Hu.
  set (s1 := {| fh := with_init true NewFileHandler; fw := w0 |}). pose proof (upload_panics tx k (i64 z) d pr s1 i w) as X. unfold info_from in X. simpl in X. rewrite lookup_empty in X.
  specialize (X Hinfo Hadm). rewrite lookup_empty in X. specialize (X eq_refl). destruct (doUploadChunkLogic tx k (i64 z) d pr s1) as [r s2]. simpl in X. rewrite X; [done|].
  destruct (isServer1_of _); simpl; lia.
Qed.

(** The index of a chunk is not compared with the number of chunks: one that is 3 below 2^256 is -3 as an
    [int], and the handler panics. *)
Theorem negative_chunk_panics tx k d pr s i w : info_from k s i w → admitted tx i d →
  streamPool (fh s) !! streamKey_of (hex_EncodeToString k) false (-3) = None →
  (doUploadChunkLogic tx k (i64 (2 ^ 256 - 3)) d pr s).1 = Panic.
Proof. intros Hi Ha Hk. change (i64 (2 ^ 256 - 3)) with (-3)%Z. eapply upload_panics; [done|done|done|]. left. by compute. Qed.

(** ** Frames *)

(** A stream as two byte sequences: what was written to it and what is still to be read from it. *)
Class QuicPipe := { s_out : quic_stream → W → bytes; s_in : quic_stream → W → bytes }.
Class QuicPipeLaws `{QuicPipe} : Prop := {
  pipe_write s b w w' : stream_Write s b w = (true, w') → s_out s w' = s_out s w ++ b;
  pipe_read s n w : n ≤ length (s_in s w) → ∃ w', stream_ReadFull s n w = (Some (take n (s_in s w)), w') ∧ s_in s w' = drop n (s_in s w);
}.

(** A frame that was written is read back with what follows left in the stream, up to eight megabytes; a
    larger one is refused by the reader. *)
Theorem frame_roundtrip `{QuicPipeLaws} s t d st st' u rest : writeFrameWithLength s d st = (Ok tt, st') → (Z.of_nat (length d) < 2 ^ 32)%Z →
  ∃ b, s_out s (fw st') = s_out s (fw st) ++ b ∧
    (s_in t (fw u) = b ++ rest →
     if (Z.of_nat (length d) <=? 8 * 1024 * 1024)%Z then ∃ u', readFrameWithLength t u = (Ok d, u') ∧ s_in t (fw u') = rest ∧ fh u' = fh u
     else (readFrameWithLength t u).1 = Fail ErrFrameSize).
Proof.
  intros Ew Hd. set (hd := be_bytes 4 (Z.of_nat (length d) mod 2 ^ 32)). exists (hd ++ d).
  assert (length hd = 4) as Lh by apply be_bytes_length.
  assert (big_SetBytes hd = Z.of_nat (length d)) as Vh by (unfold hd, big_SetBytes; rewrite Z.mod_small by lia; apply be_bytes_value; change (256 ^ Z.of_nat 4)%Z with (2 ^ 32)%Z; lia).
  split.
  - unfold writeFrameWithLength, mbind, comp_bind, on_world in Ew. fold hd in Ew. destruct (stream_Write s hd (fw st)) as [ok w1] eqn:E1. destruct ok; [|done]. simpl in Ew.
    destruct (stream_Write s d w1) as [ok w2] eqn:E2. destruct ok; [|done]. injection Ew as <-. cbn [fw]. by rewrite (pipe_write _ _ _ _ E2), (pipe_write _ _ _ _ E1), app_assoc.
  - intros Ein. destruct (pipe_read t 4 (fw u)) as (w1 & R1 & I1); [rewrite Ein, !length_app, Lh; lia|].
    rewrite Ein, <- app_assoc in R1, I1. rewrite take_app_length' in R1 by done. rewrite drop_app_length' in I1 by done.
    unfold readFrameWithLength, mbind, comp_bind, on_world. rewrite R1, Vh. destruct (Z.leb_spec (Z.of_nat (length d)) (8 * 1024 * 1024)); destruct (Z.ltb_spec (8 * 1024 * 1024) (Z.of_nat (length d))); try lia; [|done].
    cbn [fw fh]. rewrite Nat2Z.id. destruct (pipe_read t (length d) w1) as (w2 & R2 & I2); [rewrite I1, length_app; lia|]. rewrite I1, take_app_length in R2. rewrite R2. rewrite I1, drop_app_length in I2.
    eexists. by split_and!.
Qed.

(** ** Housekeeping *)

(** Uploads of more than a day are forgotten, others kept; their streams stay open. *)
Theorem cache_health now h k : 
  uploadProgress (monitorCacheHealth now h) !! k = (p ← uploadProgress h !! k; if decide (86400000000000 < now - StartTime p)%Z then None else Some p) ∧
  (∀ p, uploadProgress h !! k = Some p → (86400000000000 < now - StartTime p)%Z → fileInfoCache (monitorCacheHealth now h) !! k = None) ∧
  streamPool (monitorCacheHealth now h) = streamPool h.
Proof.
  assert (∀ p, uploadProgress h !! k = Some p → k ∈ (dom (filter (λ '(_, p), (86400000000000 < now - StartTime p)%Z) (uploadProgress h)) : gset string) ↔ (86400000000000 < now - StartTime p)%Z) as D.
  { intros p Hp. rewrite elem_of_dom. unfold is_Some. setoid_rewrite map_lookup_filter_Some. split; [intros (q & Hq & ?); congruence|intros ?; by exists p]. }
  split_and!; [| |done].
  - unfold monitorCacheHealth. simpl. destruct (uploadProgress h !! k) as [p|] eqn:E; simpl.
    + specialize (D p eq_refl). case_decide as X.
      * apply map_lookup_filter_None. right. intros q _ Hn. by apply Hn, D.
      * apply map_lookup_filter_Some. split; [done|]. by rewrite D.
    + apply map_lookup_filter_None. by left.
  - intros p Hp X. unfold monitorCacheHealth. simpl. apply map_lookup_filter_None. right. intros i _ Hn. by apply Hn, (D p).
Qed.
End FileProofs.

(** The wait for memory ends after at most fifty checks. *)
Theorem memory_wait_ends within : is_Some (waitForMemoryAvailability within).
Proof.
  unfold waitForMemoryAvailability. assert (∀ fuel n, fuel + n = 50 → 0 < fuel → is_Some (wait_memory within fuel n)) as X; [|by apply X; lia].
  induction fuel as [|fuel IH]; intros n Hn Hf; [lia|]. simpl. destruct (within n); [by eexists|]. case_decide; [by eexists|]. apply IH; lia.
Qed.

(** ** Concrete runs *)

Module FileExample.
(** Servers that answer every command with the same frame. *)
Record Net := { n_up : bool; n_servers : option (list string); n_info : FileInfo; n_answer : bytes; n_out : gmap positive bytes; n_in : gmap positive bytes; n_next : positive }.
Definition net_with (o i : gmap positive bytes) (n : positive) (w : Net) : Net :=
  {| n_up := n_up w; n_servers := n_servers w; n_info := n_info w; n_answer := n_answer w; n_out := o; n_in := i; n_next := n |}.

#[export] Instance toy_quic : QuicWorld Net := {|
  DialAddr _ w := if n_up w then (Some (n_next w), net_with (n_out w) (n_in w) (Pos.succ (n_next w)) w) else (None, w);
  conn_ok _ _ := true;
  conn_Close _ w := w;
  OpenStreamSync _ w := (Some (n_next w), net_with (n_out w) (<[n_next w := n_answer w ++ n_answer w]> (n_in w)) (Pos.succ (n_next w)) w);
  stream_Close _ w := w;
  stream_Write s b w := (true, net_with (<[s := default [] (n_out w !! s) ++ b]> (n_out w)) (n_in w) (n_next w) w);
  stream_ReadFull s n w :=
    let b := default [] (n_in w !! s) in
    if decide (n ≤ length b) then (Some (take n b), net_with (n_out w) (<[s := drop n b]> (n_in w)) (n_next w) w) else (None, w);
  GetFileInfo _ w := (match TotalChunks (n_info w) with Some _ => Some (n_info w) | None => None end, w);
  GetRustServerAddresses w := (n_servers w, w);
  time_Now w := (0%Z, w);
|}.
#[export] Instance toy_json : FileJson := {| marshal_UploadChunk k i s p r := str_bytes k; parse_GenericResponse b := Some (bytes_str b, "") |}.
#[export] Instance toy_pipe : QuicPipe (W:=Net) := {| s_out s w := default [] (n_out w !! s); s_in s w := default [] (n_in w !! s) |}.
#[export] Instance toy_pipe_laws : QuicPipeLaws (W:=Net).
Proof.
  split.
  - intros s b w w' [= <-]. simpl. by rewrite lookup_insert_eq.
  - intros s n w Hn. simpl in *. rewrite decide_True by done. eexists. split; [done|]. simpl. by rewrite lookup_insert_eq.
Qed.
Definition the_key : bytes := zeros 32.
Definition chunk_args : bytes := default [] (abi_Pack uploadChunk_inputs [VBytes32 the_key; VBytes [x07]; VBig 4; VBytes32Array []]).
Definition chunk_tx (from : bytes) : FileTx := {| f_Input := selector "uploadChunk" uploadChunk_inputs ++ chunk_args; f_From := from |}.

Definition owner : bytes := zeros 20.
Definition record (status : Z) : FileInfo :=
  {| FileSize := Some 100; TotalChunks := Some 3; UploadTime := None; FileName := "f"; FileType := ""; Category := ""; ContentID := ""; Status := status;
     MerkleRoot := zeros 32; OwnerAddress := owner; Signature := "" |}%Z.
Definition framed (s : string) : bytes := be_bytes 4 (Z.of_nat (String.length s)) ++ str_bytes s.
Definition net (servers : option (list string)) (status : Z) (answer : string) : Net :=
  {| n_up := true; n_servers := servers; n_info := record status; n_answer := framed answer; n_out := ∅; n_in := ∅; n_next := 1 |}.
Definition fresh (w : Net) : FState Net := {| fh := NewFileHandler; fw := w |}.
Definition good : FState Net := fresh (net (Some ["a"; "b"]) 0 "COMPLETED").

Lemma fresh_handler_ok : caches_ok NewFileHandler.
Proof. split; simpl; try done. Qed.
Lemma records_ok : chain_records (W:=Net).
Proof. intros k w i. simpl. destruct (TotalChunks (n_info w)) eqn:E; [|done]. intros [= <-]. by eexists. Qed.


Lemma chunk_placement_witness : streamKey_of (hex_EncodeToString (zeros 32)) (isServer1_of 7) (Z.rem 7 50) = streamKey_of (hex_EncodeToString (zeros 32)) (isServer1_of 107) (Z.rem 107 50).
Proof. apply (chunk_placement (zeros 32) (zeros 32) 7 107); [reflexivity|reflexivity|lia|lia|]. split; reflexivity. Defined.

(** A handler whose pools are up, with one stream open. *)
Definition opened : FState Net :=
  {| fh := with_streams ∅ {[ 0 := 1%positive ]} 1 (with_pools (replicate 30 (Some 1%positive)) (replicate 30 (Some 1%positive)) NewFileHandler);
     fw := net_with ∅ {[ 1%positive := framed "SUCCESS" ]} 2 (net None 0 "") |}.
Lemma opened_ok : file_ok (fh opened).
Proof. split; simpl; try done. Qed.
Lemma send_chunk_outcome_witness : ∃ s', sendChunk "k" 4 [x07] "" [] (zeros 32) 0 true 2 opened = (Ok "SUCCESS", s') ∧ file_ok (fh s').
Proof.
  pose proof (send_chunk_outcome "k" 4 [x07] "" [] (zeros 32) 0 true 2 opened opened_ok ltac:(by eexists) ltac:(unfold CONNECTION_POOL_SIZE; lia)) as X.
  destruct (sendChunk "k" 4 [x07] "" [] (zeros 32) 0 true 2 opened) as [r s'] eqn:E. exists s'. assert (r = Ok "SUCCESS") as -> by (by vm_compute in E; injection E as <- _). by destruct X.
Defined.

Lemma upload_refused_witness : ∃ e s', doUploadChunkLogic (chunk_tx [x09]) the_key 4 [x07] [] good = (Fail e, s') ∧ fw s' = fw good.
Proof.
  destruct (upload_refused (chunk_tx [x09]) the_key 4 [x07] [] good (record 0) (fw good) 3) as (e & s' & E & _ & Ew & _); [reflexivity|reflexivity|left; right; right; discriminate|].
  by exists e, s'.
Defined.

Lemma negative_chunk_panics_witness : (doUploadChunkLogic (chunk_tx owner) the_key (i64 (2 ^ 256 - 3)) [x07] [] good).1 = Panic.
Proof.
  apply (negative_chunk_panics (chunk_tx owner) the_key [x07] [] good (record 0) (fw good)); [reflexivity| |reflexivity].
  split; [by exists 3%Z|]. split; [done|]. split; [done|]. unfold MAX_SIZE_CHUNK. simpl length. lia.
Defined.

Lemma failed_init_panics_witness : (HandleFileTransactionNoReceipt (chunk_tx owner) (fresh (net None 0 "SUCCESS"))).1 = Panic.
Proof.
  apply (failed_init_panics (chunk_tx owner) the_key [x07] 4 [] (fresh (net None 0 "SUCCESS")) (net None 0 "SUCCESS") (record 0) (net None 0 "SUCCESS"));
    [reflexivity|simpl; lia|reflexivity|reflexivity|reflexivity|reflexivity|].
  split; [by exists 3%Z|]. split; [done|]. split; [done|]. unfold MAX_SIZE_CHUNK. simpl length. lia.
Defined.

Definition half : FState Net :=
  {| fh := with_caches {[ "k" := {| CompletedServers := 1; p_TotalChunks := Some 3%Z; StartTime := 0 |} ]} {[ "k" := record 0 ]} NewFileHandler; fw := net None 0 "" |}.
Lemma upload_completion_witness : ∃ s', completed "k" {| CompletedServers := 1; p_TotalChunks := Some 3%Z; StartTime := 0 |} half = (Ok tt, s') ∧ fileInfoCache (fh s') !! "k" = None.
Proof.
  destruct (upload_completion "k" {| CompletedServers := 1; p_TotalChunks := Some 3%Z; StartTime := 0 |} half 3) as (s' & E & X & _); [reflexivity..|].
  exists s'. split; [done|]. rewrite decide_False in X by done. by destruct X as (_ & ? & _).
Defined.

Lemma frame_roundtrip_witness : ∃ u', readFrameWithLength 2%positive {| fh := NewFileHandler; fw := net_with ∅ {[ 2%positive := framed "abc" ++ [x00] ]} 3 (net None 0 "") |} = (Ok (str_bytes "abc"), u') ∧
  s_in 2%positive (fw u') = [x00].
Proof.
  destruct (writeFrameWithLength 1%positive (str_bytes "abc") (fresh (net None 0 ""))) as [r st'] eqn:E. assert (r = Ok tt) as -> by (by vm_compute in E; injection E as <- _).
  destruct (frame_roundtrip 1%positive 2%positive (str_bytes "abc") (fresh (net None 0 "")) st' {| fh := NewFileHandler; fw := net_with ∅ {[ 2%positive := framed "abc" ++ [x00] ]} 3 (net None 0 "") |} [x00] E) as (b & Eb & X); [by vm_compute|].
  assert (b = framed "abc") as ->. { vm_compute in E. injection E as <-. vm_compute in Eb. by rewrite <- Eb. }
  destruct X as (u' & ? & ? & _); [by vm_compute|]. by exists u'.
Defined.
End FileExample.
