(* ===== verification/ArgumentEncode.v ===== *)
(** * ABI string arguments ([pkg/smart_contract/argument_encode/decoder.go])

    Strings are byte lists; [None] is a slice-bounds panic.  The offset and the
    length are read as 256-bit words of which the low 64 bits are used, and the
    bounds are computed in [uint64], with wrap-around. *)

From S2P Require Import Prelude GoLib.
From Stdlib Require Import Strings.Byte.

Definition wordSize : Z := 32.

Definition DecodeFuncHash (input : bytes) : option (bytes * bytes) :=
  h ← go_slice input 0 4; r ← go_slice input 4 (Z.of_nat (length input)); Some (h, r).

(** [uint256.NewInt(0).SetBytes(b).Uint64()] *)
Definition word_Uint64 (b : bytes) : Z := u64 (big_SetBytes b).

Definition DecodeStringInput (input : bytes) (idx : Z) : option bytes :=
  let len := Z.of_nat (length input) in
  if (idx <? 0)%Z || (len <? (idx + 1) * wordSize)%Z then Some []
  else
    w ← go_slice input (idx * wordSize) ((idx + 1) * wordSize);
    let start := word_Uint64 w in
    if (len <? u64 (start + wordSize))%Z then Some []
    else
      w2 ← go_slice input start (u64 (start + wordSize));
      let strLen := word_Uint64 w2 in
      if (len <? u64 (start + wordSize + strLen))%Z then Some []
      else go_slice input (u64 (start + wordSize)) (u64 (start + wordSize + strLen)).

(** [EncodeStringInput]: the final padding is copied past the end of the buffer. *)
Definition EncodeStringInput (input : bytes) : bytes :=
  let strLen := length input in
  let dataOffset := 32%nat in
  let encodedData := zeros (dataOffset + 32 + strLen) in
  let encodedData := copy_at encodedData 0 (big_Bytes (Z.of_nat dataOffset)) in
  let encodedData := copy_at encodedData dataOffset (big_Bytes (Z.of_nat strLen)) in
  let encodedData := copy_at encodedData (dataOffset + 32) input in
  let paddingSize := (32 - strLen mod 32)%nat in
  if (paddingSize <? 32)%nat
  then copy_at encodedData (dataOffset + 32 + strLen) (zeros paddingSize) else encodedData.

(** The contract ABI's encoding of a single string argument. *)
Definition abi_string (s : bytes) : bytes :=
  be_bytes 32 32 ++ be_bytes 32 (Z.of_nat (length s)) ++ s ++
  zeros ((32 - length s mod 32) mod 32).

Lemma big_SetBytes_be k n : (0 ≤ n < 256 ^ Z.of_nat k)%Z → big_SetBytes (be_bytes k n) = n.
Proof. apply be_bytes_value. Qed.

Lemma word_be n : (0 ≤ n < 2 ^ 64)%Z → word_Uint64 (be_bytes 32 n) = n.
Proof. intros Hn. unfold word_Uint64. rewrite big_SetBytes_be by lia. by apply u64_small. Qed.

(** The decoder inverts the standard ABI encoding of a string argument. *)
Theorem decode_standard_abi s : (Z.of_nat (length s) < 2 ^ 63)%Z →
  DecodeStringInput (abi_string s) 0 = Some s.
Proof.
  intros Hs. unfold DecodeStringInput, abi_string.
  set (o := be_bytes 32 32). set (l := be_bytes 32 (Z.of_nat (length s))). set (p := zeros _).
  assert (length o = 32) as Ho by apply be_bytes_length. assert (length l = 32) as Hl by apply be_bytes_length.
  rewrite !length_app, Ho, Hl. unfold wordSize.
  destruct (Z.ltb_spec 0 0); [lia|]. destruct (Z.ltb_spec (Z.of_nat (32 + (32 + (length s + length p)))) ((0 + 1) * 32)); [lia|].
  cbn [orb]. rewrite (go_slice_app [] o (l ++ s ++ p)) by (simpl; lia). cbn [mbind option_bind].
  assert (word_Uint64 o = 32%Z) as -> by (apply word_be; lia).
  rewrite (u64_small (32 + 32)) by lia.
  destruct (Z.ltb_spec (Z.of_nat (32 + (32 + (length s + length p)))) (32 + 32)); [lia|].
  rewrite (go_slice_app o l (s ++ p)) by lia. cbn [mbind option_bind].
  assert (word_Uint64 l = Z.of_nat (length s)) as -> by (apply word_be; lia). rewrite u64_small by lia.
  destruct (Z.ltb_spec (Z.of_nat (32 + (32 + (length s + length p)))) (32 + 32 + Z.of_nat (length s))); [lia|].
  rewrite (app_assoc o l). apply go_slice_app; rewrite length_app; lia.
Qed.

Lemma go_copy_length dst src : length (go_copy dst src) = length dst.
Proof. unfold go_copy. rewrite length_app, length_take, length_drop. lia. Qed.

Lemma copy_at_length dst off src : length (copy_at dst off src) = length dst.
Proof. unfold copy_at. rewrite length_app, go_copy_length, length_take, length_drop. lia. Qed.

(** Writing behind the first [n] bytes leaves them alone. *)
Lemma copy_at_take dst off src n : n ≤ off → off ≤ length dst → take n (copy_at dst off src) = take n dst.
Proof.
  intros Hn Ho. unfold copy_at. rewrite take_app_le by (rewrite length_take; lia).
  rewrite take_take. f_equal. lia.
Qed.

Lemma EncodeStringInput_word s :
  length (EncodeStringInput s) = 64 + length s ∧ take 32 (EncodeStringInput s) = x20 :: zeros 31.
Proof.
  unfold EncodeStringInput. set (d0 := zeros (32 + 32 + length s)).
  assert (length d0 = 64 + length s) as L0 by apply length_replicate.
  set (d1 := copy_at d0 0 _). assert (length d1 = 64 + length s) as L1 by (by unfold d1; rewrite copy_at_length).
  assert (take 32 d1 = x20 :: zeros 31) as T1 by done.
  set (d2 := copy_at d1 32 _). assert (length d2 = 64 + length s) as L2 by (by unfold d2; rewrite copy_at_length).
  assert (take 32 d2 = x20 :: zeros 31) as T2 by (unfold d2; rewrite copy_at_take by lia; done).
  set (d3 := copy_at d2 (32 + 32) s). assert (length d3 = 64 + length s) as L3 by (by unfold d3; rewrite copy_at_length).
  assert (take 32 d3 = x20 :: zeros 31) as T3 by (unfold d3; rewrite copy_at_take by lia; done).
  destruct (_ <? 32)%nat; [|done].
  split; [by rewrite copy_at_length|]. rewrite copy_at_take by lia. done.
Qed.

Lemma go_slice_first (b : bytes) : 32 ≤ length b → go_slice b 0 32 = Some (take 32 b).
Proof.
  intros Hb. unfold go_slice. rewrite (proj2 (Z.leb_le 32 _)) by lia. simpl. by rewrite drop_0.
Qed.

(** [EncodeStringInput] does not produce the ABI encoding: it writes the offset and the length at
    the wrong end of their words, so that decoding any encoded string gives the empty string. *)
Theorem encode_decode_gives_empty s : DecodeStringInput (EncodeStringInput s) 0 = Some [].
Proof.
  destruct (EncodeStringInput_word s) as [Hlen Htake]. set (e := EncodeStringInput s) in *.
  unfold DecodeStringInput, wordSize. rewrite Hlen.
  destruct (Z.ltb_spec (Z.of_nat (64 + length s)) ((0 + 1) * 32)); [lia|]. cbn [orb Z.ltb Z.compare].
  change ((0 + 1) * 32)%Z with 32%Z. change (0 * 32)%Z with 0%Z.
  rewrite go_slice_first, Htake by lia. cbn [mbind option_bind].
  assert (word_Uint64 (x20 :: zeros 31) = 0%Z) as -> by (by vm_compute).
  change (u64 (0 + 32)) with 32%Z. destruct (Z.ltb_spec (Z.of_nat (64 + length s)) 32); [lia|].
  rewrite go_slice_first, Htake by lia. cbn [mbind option_bind].
  assert (word_Uint64 (x20 :: zeros 31) = 0%Z) as -> by (by vm_compute).
  change (u64 (0 + 32 + 0)) with 32%Z. destruct (Z.ltb_spec (Z.of_nat (64 + length s)) 32); [lia|].
  unfold go_slice. rewrite (proj2 (Z.leb_le 32 (Z.of_nat (length e)))) by lia. done.
Qed.

(** An argument whose offset word is close to 2^64 passes the wrapped-around bounds checks and
    makes the decoder panic, whatever follows it. *)
Theorem decode_panics_on_large_offset rest (d : Z) : (1 ≤ d ≤ 32)%Z →
  DecodeStringInput (be_bytes 32 (2 ^ 64 - d) ++ rest) 0 = None.
Proof.
  intros Hd. unfold DecodeStringInput, wordSize. set (w := be_bytes 32 (2 ^ 64 - d)).
  assert (length w = 32) as Hw by apply be_bytes_length. rewrite length_app, Hw.
  destruct (Z.ltb_spec (Z.of_nat (32 + length rest)) ((0 + 1) * 32)); [lia|]. cbn [orb Z.ltb Z.compare].
  rewrite (go_slice_app [] w rest) by (simpl; lia). cbn [mbind option_bind].
  assert (word_Uint64 w = 2 ^ 64 - d)%Z as -> by (apply word_be; lia).
  assert (u64 (2 ^ 64 - d + 32) = 32 - d)%Z as ->.
  { unfold u64. symmetry. apply (Z.mod_unique _ _ 1); lia. }
  destruct (Z.ltb_spec (Z.of_nat (32 + length rest)) (32 - d)); [lia|].
  unfold go_slice. destruct (Z.leb_spec (2 ^ 64 - d) (32 - d)); [lia|]. done.
Qed.

Lemma decode_standard_abi_witness : DecodeStringInput (abi_string [x68; x69]) 0 = Some [x68; x69].
Proof. apply (decode_standard_abi [x68; x69]). simpl. lia. Defined.

Lemma decode_panics_on_large_offset_witness :
  DecodeStringInput (be_bytes 32 (2 ^ 64 - 16) ++ zeros 64) 0 = None.
Proof. apply (decode_panics_on_large_offset (zeros 64) 16). lia. Defined.
