(* ===== verification/Storage.v ===== *)
(** * Storage ([pkg/storage/storage.go], [memorydb.go])

    [Storage] is what the trie's clients rely on: reads by 32-byte key and batched
    writes.  [MemoryDB], whose keys are copied into 32-byte arrays, implements it. *)

From S2P Require Import Prelude GoLib Trie CommitRefine.
From Stdlib Require Import Strings.Byte.

(** The part of [storage.Storage] the trie and the receipts use. *)
Class Storage (St : Type) := {
  st_Get : St → DB;
  st_BatchPut : list (bytes * bytes) → St → option St;
}.

(** A batch of 32-byte keys is written in order, or not at all. *)
Class StorageLaws (St : Type) `{Storage St} : Prop := {
  st_put kvs s s' k : st_BatchPut kvs s = Some s' → Forall (λ kv, length kv.1 = 32) kvs → length k = 32 →
    st_Get s' k = put_all kvs (st_Get s) k;
}.

(** ** The in-memory database *)

Record MemoryDB := { mem : gmap bytes bytes }.

Inductive mem_error := MemKeyNotFound (key : bytes).

(** [var bytes32 [32]byte; copy(bytes32[:], key)] *)
Definition bytes32 (key : bytes) : bytes := go_copy (zeros 32) key.

Definition NewMemoryDb : MemoryDB := {| mem := ∅ |}.

Definition mem_Get (key : bytes) (kv : MemoryDB) : option bytes := mem kv !! bytes32 key.

Definition mem_Put (key value : bytes) (kv : MemoryDB) : MemoryDB :=
  {| mem := <[bytes32 key := value]> (mem kv) |}.

Definition mem_Has (key : bytes) (kv : MemoryDB) : bool := bool_decide (is_Some (mem kv !! bytes32 key)).

Definition mem_Delete (key : bytes) : comp MemoryDB mem_error unit := λ kv,
  if decide (is_Some (mem kv !! bytes32 key))
  then (Ok tt, {| mem := base.delete (bytes32 key) (mem kv) |})
  else (Fail (MemKeyNotFound key), kv).

Definition mem_BatchPut (kvs : list (bytes * bytes)) (kv : MemoryDB) : MemoryDB :=
  foldl (λ kv '(k, v), mem_Put k v kv) kv kvs.

Definition mem_Size (kv : MemoryDB) : nat := size (mem kv).

(** [GetSnapShot] copies every entry. *)
Definition mem_GetSnapShot (kv : MemoryDB) : MemoryDB :=
  {| mem := map_fold (λ k v m, <[bytes32 k := v]> m) ∅ (mem kv) |}.

#[export] Instance memory_storage : Storage MemoryDB := {|
  st_Get s k := mem_Get k s;
  st_BatchPut kvs s := Some (mem_BatchPut kvs s);
|}.

(** ** Facts *)

Lemma bytes32_length k : length (bytes32 k) = 32.
Proof.
  unfold bytes32, go_copy. rewrite length_app, length_take, length_drop. unfold zeros.
  rewrite length_replicate. lia.
Qed.

Lemma bytes32_id k : length k = 32 → bytes32 k = k.
Proof. intros Hk. apply go_copy_full. by rewrite Hk. Qed.

Lemma mem_BatchPut_get kvs : ∀ kv k, Forall (λ p, length p.1 = 32) kvs → length k = 32 →
  mem_Get k (mem_BatchPut kvs kv) = put_all kvs (λ h, mem_Get h kv) k.
Proof.
  assert (∀ kvs (f g : DB), (∀ h, length h = 32 → f h = g h) → ∀ k, length k = 32 →
    put_all kvs f k = put_all kvs g k) as Hext.
  { induction kvs0 as [|[a b] kvs0 IH]; intros f g Hfg k Hk; cbn [put_all]; [by apply Hfg|].
    apply IH; [|done]. intros h Hh. destruct (decide (h = a)); [done|by apply Hfg]. }
  induction kvs as [|[a b] kvs IH]; intros kv k Hkvs Hk; [done|].
  inversion Hkvs as [|? ? Ha Hkvs']; subst. cbn [mem_BatchPut foldl put_all]. simpl in Ha.
  change (foldl (λ kv '(k, v), mem_Put k v kv) (mem_Put a b kv) kvs) with (mem_BatchPut kvs (mem_Put a b kv)).
  rewrite IH by done. apply Hext; [|done]. intros h Hh. unfold mem_Get, mem_Put. simpl.
  rewrite !bytes32_id by done. destruct (decide (h = a)) as [->|]; [by rewrite lookup_insert_eq|].
  by rewrite lookup_insert_ne.
Qed.

#[export] Instance memory_storage_laws : StorageLaws MemoryDB.
Proof. split. intros kvs s s' k [= <-] Hkvs Hk. by apply mem_BatchPut_get. Qed.

(** Every key of the database has 32 bytes. *)
Definition mem_ok (kv : MemoryDB) : Prop := ∀ k, is_Some (mem kv !! k) → length k = 32.

Lemma mem_ok_new : mem_ok NewMemoryDb.
Proof. intros k [v Hv]. simpl in Hv. by rewrite lookup_empty in Hv. Qed.

Lemma mem_ok_put k v kv : mem_ok kv → mem_ok (mem_Put k v kv).
Proof.
  intros Hok q [w Hw]. simpl in Hw. apply lookup_insert_Some in Hw as [[<- _]|[_ Hw]]; [apply bytes32_length|].
  apply Hok. by exists w.
Qed.

(** The memory database behaves as a map on keys truncated or zero-padded to 32 bytes: what is put is
    read back, other keys are unaffected, a deleted key is gone and deleting an absent key is an error. *)
Theorem memory_db_is_map k v q kv :
  mem_Get q (mem_Put k v kv) = (if decide (bytes32 q = bytes32 k) then Some v else mem_Get q kv) ∧
  mem_Has q kv = bool_decide (is_Some (mem_Get q kv)) ∧
  match mem_Delete k kv with
  | (Ok _, kv') => is_Some (mem_Get k kv) ∧
      mem_Get q kv' = (if decide (bytes32 q = bytes32 k) then None else mem_Get q kv)
  | (Fail e, kv') => e = MemKeyNotFound k ∧ mem_Get k kv = None ∧ kv' = kv
  | _ => False
  end.
Proof.
  unfold mem_Get, mem_Put, mem_Has, mem_Delete. simpl. split; [|split; [done|]].
  - destruct (decide (bytes32 q = bytes32 k)) as [->|]; [by rewrite lookup_insert_eq|by rewrite lookup_insert_ne].
  - destruct (decide (is_Some (mem kv !! bytes32 k))) as [Hs|Hn]; simpl.
    + split; [done|]. destruct (decide (bytes32 q = bytes32 k)) as [->|]; [by rewrite lookup_delete_eq|by rewrite lookup_delete_ne].
    + split; [done|]. split; [|done]. by apply eq_None_not_Some.
Qed.

(** A snapshot of the memory database has exactly its entries. *)
Theorem snapshot_same kv : mem_ok kv → mem (mem_GetSnapShot kv) = mem kv.
Proof.
  unfold mem_GetSnapShot. simpl. destruct kv as [m]. simpl. unfold mem_ok. simpl.
  induction m as [|k v m Hk Hf IH] using map_first_key_ind; intros Hok; [by rewrite map_fold_empty|].
  rewrite map_fold_insert_first_key by done. rewrite IH.
  - f_equal. apply bytes32_id, Hok. rewrite lookup_insert_eq. eauto.
  - intros q [w Hw]. apply Hok. rewrite lookup_insert_ne; [eauto|]. intros ->. congruence.
Qed.

Lemma snapshot_same_witness :
  mem (mem_GetSnapShot (mem_Put [x01] [x02] NewMemoryDb)) = mem (mem_Put [x01] [x02] NewMemoryDb).
Proof. apply (snapshot_same (mem_Put [x01] [x02] NewMemoryDb)). apply mem_ok_put, mem_ok_new. Defined.
