(* ===== verification/Receipts.v ===== *)
(** * Receipts ([pkg/receipt/receipt.go], [receipts.go])

    Receipts are collected in a dirty map, written to a trie keyed by transaction
    hash, committed to storage and read back.  The order in which Go visits the
    dirty map and in which the workers deliver the batch are parameters. *)

From S2P Require Import Prelude Interfaces GoLib HexEncoding Node Tracer Trie TrieSpec Merkle TrieRefine TrieMap Hasher Commit CommitRefine TrieTheorems Storage ArgumentEncode.
From Stdlib Require Import Strings.Byte.

(** ** One receipt *)

Definition RECEIPT_STATUS_RETURNED : Z := 0.
Definition RECEIPT_STATUS_HALTED : Z := 1.
Definition RECEIPT_STATUS_THREW : Z := 2.
Definition RECEIPT_STATUS_TRANSACTION_ERROR : Z := -1.
Definition EXCEPTION_ERR_INVALID_CODE : Z := 11.
Definition EXCEPTION_NONE : Z := -1.

Section Receipt.
Context {EventLog : Type}.

Record Receipt := {
  rc_TransactionHash : bytes;
  rc_FromAddress : bytes;
  rc_ToAddress : bytes;
  rc_Amount : bytes;
  rc_Status : Z;
  rc_Return : bytes;
  rc_Exception : Z;
  rc_GasUsed : Z;
  rc_GasFee : Z;
  rc_EventLogs : list EventLog;
  rc_TransactionIndex : Z;
  rc_ProcessingType : Z;
  rc_RHash : bytes;
}.

Definition default_receipt : Receipt :=
  {| rc_TransactionHash := []; rc_FromAddress := []; rc_ToAddress := []; rc_Amount := []; rc_Status := 0;
     rc_Return := []; rc_Exception := 0; rc_GasUsed := 0; rc_GasFee := 0; rc_EventLogs := [];
     rc_TransactionIndex := 0; rc_ProcessingType := 0; rc_RHash := [] |}.

(** The status and return data that are saved for an execution result. *)
Definition saved_status (status : Z) : Z :=
  if negb (status =? RECEIPT_STATUS_RETURNED)%Z then RECEIPT_STATUS_TRANSACTION_ERROR else status.

Definition saved_return (status : Z) (returnValue : bytes) (exception : Z) : bytes :=
  if negb (status =? RECEIPT_STATUS_RETURNED)%Z then
    let r := if (status =? RECEIPT_STATUS_HALTED)%Z
             then EncodeStringInput (str_bytes "transaction halted") else returnValue in
    if (exception =? EXCEPTION_ERR_INVALID_CODE)%Z
    then EncodeStringInput (str_bytes "transaction error invalid code") else r
  else returnValue.

(** [NewReceipt]; the block hash and number arguments are not stored. *)
Definition NewReceipt (txHash from to : bytes) (amount status : Z) (returnValue : bytes)
    (exception gasFee gasUsed : Z) (eventLogs : list EventLog) (index : Z) : Receipt :=
  {| rc_TransactionHash := txHash; rc_FromAddress := from; rc_ToAddress := to;
     rc_Amount := big_Bytes amount; rc_Status := saved_status status;
     rc_Return := saved_return status returnValue exception; rc_Exception := exception;
     rc_GasUsed := gasUsed; rc_GasFee := gasFee; rc_EventLogs := eventLogs;
     rc_TransactionIndex := index; rc_ProcessingType := 0; rc_RHash := [] |}.

Definition UpdateExecuteResult (status : Z) (returnValue : bytes) (exception gasUsed : Z)
    (eventLogs : list EventLog) (r : Receipt) : Receipt :=
  {| rc_TransactionHash := rc_TransactionHash r; rc_FromAddress := rc_FromAddress r;
     rc_ToAddress := rc_ToAddress r; rc_Amount := rc_Amount r; rc_Status := saved_status status;
     rc_Return := saved_return status returnValue exception; rc_Exception := exception;
     rc_GasUsed := gasUsed; rc_GasFee := rc_GasFee r; rc_EventLogs := eventLogs;
     rc_TransactionIndex := rc_TransactionIndex r; rc_ProcessingType := rc_ProcessingType r;
     rc_RHash := rc_RHash r |}.

Definition SetProcessingType (x : Z) (r : Receipt) : Receipt :=
  Build_Receipt (rc_TransactionHash r) (rc_FromAddress r) (rc_ToAddress r) (rc_Amount r) (rc_Status r) (rc_Return r) (rc_Exception r) (rc_GasUsed r) (rc_GasFee r) (rc_EventLogs r) (rc_TransactionIndex r) x (rc_RHash r).
Definition SetRHash (x : bytes) (r : Receipt) : Receipt :=
  Build_Receipt (rc_TransactionHash r) (rc_FromAddress r) (rc_ToAddress r) (rc_Amount r) (rc_Status r) (rc_Return r) (rc_Exception r) (rc_GasUsed r) (rc_GasFee r) (rc_EventLogs r) (rc_TransactionIndex r) (rc_ProcessingType r) x.
Definition SetToAddress (x : bytes) (r : Receipt) : Receipt :=
  Build_Receipt (rc_TransactionHash r) (rc_FromAddress r) x (rc_Amount r) (rc_Status r) (rc_Return r) (rc_Exception r) (rc_GasUsed r) (rc_GasFee r) (rc_EventLogs r) (rc_TransactionIndex r) (rc_ProcessingType r) (rc_RHash r).
Definition SetReturn (x : bytes) (r : Receipt) : Receipt :=
  Build_Receipt (rc_TransactionHash r) (rc_FromAddress r) (rc_ToAddress r) (rc_Amount r) (rc_Status r) x (rc_Exception r) (rc_GasUsed r) (rc_GasFee r) (rc_EventLogs r) (rc_TransactionIndex r) (rc_ProcessingType r) (rc_RHash r).

End Receipt.

Arguments Receipt : clear implicits.

Inductive receipts_error :=
  | ErrorReceiptNotFound
  | ErrTrie (e : trie_error)
  | ErrHashMismatch
  | ErrBatchPut
  | ErrReceiptUnmarshal.

Definition set_reader (db : DB) (t : MerklePatriciaTrie) : MerklePatriciaTrie :=
  {| root := root t; committed := committed t; reader := db; tracer := tracer t; isHash := isHash t |}.

Section Receipts.
Context `{EthCommon} `{TrieProto} `{Storage St} {EventLog : Type} `{Proto (Receipt EventLog)}.

(** The receipt collection; [trie] reads through [db]. *)
Record Receipts := {
  r_trie : MerklePatriciaTrie;
  r_db : St;
  originRootHash : bytes;
  dirtyReceipts : gmap bytes (Receipt EventLog);
  receiptBatchPut : option bytes;
}.

Definition TransactionHash (r : Receipt EventLog) : bytes := BytesToHash (rc_TransactionHash r).

Definition RM : Type → Type := comp Receipts receipts_error.
#[export] Instance RM_ret : MRet RM := comp_ret.
#[export] Instance RM_bind : MBind RM := comp_bind.

Definition set_trie (t : MerklePatriciaTrie) (r : Receipts) : Receipts :=
  {| r_trie := t; r_db := r_db r; originRootHash := originRootHash r;
     dirtyReceipts := dirtyReceipts r; receiptBatchPut := receiptBatchPut r |}.
Definition set_dirty (d : gmap bytes (Receipt EventLog)) (r : Receipts) : Receipts :=
  {| r_trie := r_trie r; r_db := r_db r; originRootHash := originRootHash r;
     dirtyReceipts := d; receiptBatchPut := receiptBatchPut r |}.
Definition set_db (db : St) (r : Receipts) : Receipts :=
  {| r_trie := set_reader (st_Get db) (r_trie r); r_db := db; originRootHash := originRootHash r;
     dirtyReceipts := dirtyReceipts r; receiptBatchPut := receiptBatchPut r |}.
Definition SetReceiptBatchPut (b : option bytes) (r : Receipts) : Receipts :=
  {| r_trie := r_trie r; r_db := r_db r; originRootHash := originRootHash r;
     dirtyReceipts := dirtyReceipts r; receiptBatchPut := b |}.
Definition set_loaded (t : MerklePatriciaTrie) (h : bytes) (r : Receipts) : Receipts :=
  {| r_trie := t; r_db := r_db r; originRootHash := h;
     dirtyReceipts := dirtyReceipts r; receiptBatchPut := receiptBatchPut r |}.

(** An operation of the trie as an operation of the receipts. *)
Definition on_trie {A} (c : comp MerklePatriciaTrie trie_error A) : RM A := λ r,
  match c (r_trie r) with
  | (Ok a, t) => (Ok a, set_trie t r)
  | (Fail e, t) => (Fail (ErrTrie e), set_trie t r)
  | (Panic, t) => (Panic, set_trie t r)
  | (OutOfFuel, t) => (OutOfFuel, set_trie t r)
  end.

(** [NewReceipts]; [None] is the panic on an error of [trie.New]. *)
Definition NewReceipts (db : St) : option Receipts :=
  match New EmptyRootHash (st_Get db) true with
  | Ok t =>
    match TrieHash t with
    | (Ok h, t') => Some {| r_trie := t'; r_db := db; originRootHash := h; dirtyReceipts := ∅;
                            receiptBatchPut := None |}
    | _ => None
    end
  | _ => None
  end.

Definition NewReceiptsFromRoot (rootHash : bytes) (db : St) : outcome receipts_error Receipts :=
  match New rootHash (st_Get db) true with
  | Ok t => Ok {| r_trie := t; r_db := db; originRootHash := rootHash; dirtyReceipts := ∅;
                  receiptBatchPut := None |}
  | Fail e => Fail (ErrTrie e)
  | Panic => Panic
  | OutOfFuel => OutOfFuel
  end.

Definition GetReceiptBatchPut : RM (option bytes) := λ r, (Ok (receiptBatchPut r), SetReceiptBatchPut None r).

Definition ReceiptsRoot : RM bytes := on_trie TrieHash.

Definition setDirtyReceipt (rc : Receipt EventLog) (r : Receipts) : Receipts :=
  set_dirty (<[TransactionHash rc := rc]> (dirtyReceipts r)) r.

Definition AddReceipt (rc : Receipt EventLog) : RM unit := c_modify (setDirtyReceipt rc).

Definition UpdateExecuteResultToReceipt (h : bytes) (status : Z) (returnValue : bytes)
    (exception gasUsed : Z) (eventLogs : list EventLog) : RM unit := λ r,
  match dirtyReceipts r !! h with
  | None => (Fail ErrorReceiptNotFound, r)
  | Some rc => (Ok tt, setDirtyReceipt (UpdateExecuteResult status returnValue exception gasUsed eventLogs rc) r)
  end.

(** The uint64 sum of the gas of the dirty receipts. *)
Definition GasUsed (r : Receipts) : Z :=
  map_fold (λ _ rc total, u64 (total + rc_GasUsed rc)) 0%Z (dirtyReceipts r).

(** [GetReceipt]: an absent entry of the trie is nil data, which unmarshals. *)
Definition GetReceipt (h : bytes) : RM (Receipt EventLog) := λ r,
  match dirtyReceipts r !! h with
  | Some rc => (Ok rc, r)
  | None =>
    match on_trie (Get h) r with
    | (Ok data, r') =>
      match proto_Unmarshal (default [] data) with
      | Some rc => (Ok rc, r')
      | None => (Fail ErrReceiptUnmarshal, r')
      end
    | (Fail _, r') => (Fail ErrorReceiptNotFound, r')
    | (Panic, r') => (Panic, r')
    | (OutOfFuel, r') => (OutOfFuel, r')
    end
  end.

Definition Discard : RM unit := λ r,
  let r := set_dirty ∅ r in
  match New (originRootHash r) (st_Get (r_db r)) true with
  | Ok t => (Ok tt, set_trie t r)
  | Fail e => (Fail (ErrTrie e), r)
  | Panic => (Panic, r)
  | OutOfFuel => (OutOfFuel, r)
  end.

(** The update loop of [IntermediateRoot]. *)
Fixpoint update_receipts (rcs : list (Receipt EventLog)) : RM unit :=
  match rcs with
  | [] => mret tt
  | rc :: rcs => _ ← on_trie (Update (TransactionHash rc) (proto_Marshal rc)); update_receipts rcs
  end.

(** [IntermediateRoot], visiting the dirty receipts in [order]. *)
Definition IntermediateRoot (order : list (Receipt EventLog)) : RM bytes := λ r,
  if decide (dirtyReceipts r = ∅) then on_trie TrieHash r
  else (_ ← update_receipts order; _ ← c_modify (set_dirty ∅); on_trie TrieHash) r.

(** Phase 3 of [Commit]: write the batch, keep its serialized form. *)
Definition write_nodes (serialize : list (bytes * bytes) → option bytes) (batch : list (bytes * bytes)) : RM unit := λ r,
  if (0 <? length batch)%nat then
    match st_BatchPut batch (r_db r) with
    | None => (Fail ErrBatchPut, r)
    | Some db => (Ok tt, match serialize batch with
                         | Some b => SetReceiptBatchPut (Some b) (set_db db r)
                         | None => set_db db r
                         end)
    end
  else (Ok tt, r).

(** Phases 4 and 5: load the committed trie. *)
Definition load_root (h : bytes) : RM bytes := λ r,
  match New h (st_Get (r_db r)) true with
  | Ok t => (Ok h, set_loaded t h r)
  | Fail e => (Fail (ErrTrie e), r)
  | Panic => (Panic, r)
  | OutOfFuel => (OutOfFuel, r)
  end.

(** [Commit]: [shuffle] is the order in which the workers deliver the batch, [serialize] the
    gob encoding kept for replication. *)
Definition Receipts_Commit (order : list (Receipt EventLog))
    (shuffle : list (bytes * bytes) → list (bytes * bytes))
    (serialize : list (bytes * bytes) → option bytes) : RM bytes :=
  intermediateHash ← IntermediateRoot order;
  '(committedHash, nodeSet, _) ← on_trie (TrieCommit true);
  if negb (bool_decide (intermediateHash = committedHash)) then c_fail ErrHashMismatch
  else
    _ ← write_nodes serialize (shuffle (batch_of nodeSet));
    load_root committedHash.

End Receipts.
