(* ===== verification/ReceiptsTheorems.v ===== *)
(** * Receipts survive a commit

    The receipt collection as two maps: what the trie holds now and what storage holds
    under the origin root. *)

From S2P Require Import Prelude Interfaces GoLib HexEncoding Node Tracer Trie TrieSpec Merkle TrieRefine TrieMap Hasher Commit CommitRefine TrieTheorems Storage ArgumentEncode Receipts.
From Stdlib Require Import Strings.Byte.

(** ** Tries in a database *)

Section Persisted.
Context `{EthCommonLaws} `{TrieProtoLaws}.

Lemma stored_ext db db' T : (∀ k, length k = 32 → db' k = db k) → stored db T → stored db' T.
Proof.
  intros Hdb. induction 1 as [k v Hk E|k cs Hk E Hs IH|cs Hlen H16 Hnz Hs IH E]; constructor; try done;
    rewrite Hdb; try done; apply Keccak256_length.
Qed.

(** The database holds the trie of [m]. *)
Definition persisted (db : DB) (m : gmap bytes bytes) : Prop :=
  holds (tree_of m) m ∧ hash_good (tree_of m) ∧ (tree_of m = TNil ∨ stored db (tree_of m)).

Lemma persisted_empty db : persisted db ∅.
Proof.
  split; [apply tree_of_holds; done|]. split; [|by left].
  split; [constructor|]. by split.
Qed.

Lemma persisted_load db m h : persisted db m →
  ∃ t, New (root_of (tree_of m)) db h = Ok t ∧ reader t = db ∧ isHash t = h ∧ Implements t m.
Proof.
  intros (HT & (_ & Hz & He) & Hs). destruct (proj1 HT) as [Hnil|Hw].
  - rewrite Hnil. eexists. split.
    { unfold New. rewrite (bool_decide_false (root_of TNil ≠ EmptyRootHash)) by (simpl; tauto).
      by rewrite andb_false_r. }
    repeat (split; [done|]). exists TNil. rewrite Hnil in HT. repeat (split; [done|]).
    split; [constructor|apply newTracer_ok].
  - destruct Hs as [Hs|Hs]; [by rewrite Hs in Hw; inversion Hw|].
    destruct (New_stored db (tree_of m) h Hw Hs He) as (t & E & HR & Hrd & Hh & Hc & Htr).
    { rewrite Forall_forall in Hz. apply Hz. inversion Hw; left. }
    exists t. assert (root_of (tree_of m) = merkle (tree_of m)) as -> by (by inversion Hw).
    repeat (split; [done|]). exists (tree_of m). rewrite Hrd. done.
Qed.

Lemma batch_keys db T ns : covers db T ns → Forall (λ kv, length kv.1 = 32) (batch_of ns).
Proof.
  intros [_ C]. apply Forall_forall. intros [k v] Hin. unfold batch_of in Hin.
  apply list_elem_of_omap in Hin as ([q w] & Hq & Hif). apply elem_of_map_to_list in Hq.
  destruct (decide _) as [|Hz]; simplify_eq/=.
  destruct (C q w Hq) as [->|(p & s & Hat & ->)]; [done|]. simpl.
  destruct (node_at_is_node T p s Hat) as [(? & ? & ->)|(? & ->)]; apply Keccak256_length.
Qed.

(** A commit whose batch reached the database persists the map. *)
Lemma commit_persists cl t m L : Implements t m →
  (∀ k v, m !! k = Some v → length k = L) → hash_good (tree_of m) →
  ∃ ns old t', TrieCommit cl t = (Ok (root_of (tree_of m), ns, old), t') ∧
    Forall (λ kv, length kv.1 = 32) (batch_of ns) ∧
    ∀ batch db', batch ≡ₚ batch_of ns → (∀ k, length k = 32 → db' k = put_all batch (reader t) k) →
      persisted db' m.
Proof.
  intros Hm HL Hgood. destruct (TrieCommit_implements cl t m Hm) as (ns & old & t' & E & Hcov & _).
  exists ns, old, t'. split; [done|]. split; [by eapply batch_keys|]. intros batch db' Hp Hdb.
  assert (holds (tree_of m) m) as HT.
  { destruct Hm as (T & _ & HT & _). by rewrite (tree_of_unique T m HT). }
  split; [done|]. split; [done|]. destruct (proj1 HT) as [Hnil|Hw]; [by left|right].
  apply (stored_ext (put_all batch (reader t))); [done|].
  eapply stored_after_write; try done.
  eapply (fixed_length_no_branch_values _ Hw (2 * L + 1)). by eapply holds_key_length.
Qed.

End Persisted.

(** ** Flushing the dirty receipts *)

Lemma model_updates_in ups : ∀ m k v, NoDup (ups.*1) → (k, v) ∈ ups →
  model_updates id ups m !! k = if decide (v = []) then None else Some v.
Proof.
  assert (∀ ups m k, k ∉ ups.*1 → model_updates id ups m !! k = m !! k) as Hnot.
  { induction ups0 as [|[a b] ups0 IH]; intros m k Hk; [done|]. cbn [model_updates].
    apply not_elem_of_cons in Hk as [Ha Hk]. rewrite IH by done. rewrite map_update_lookup.
    by rewrite decide_False. }
  induction ups as [|[a b] ups IH]; intros m k v Hnd Hin; [by apply not_elem_of_nil in Hin|].
  apply NoDup_cons in Hnd as [Ha Hnd]. cbn [model_updates].
  apply elem_of_cons in Hin as [[= <- <-]|Hin]; [|by apply IH].
  rewrite Hnot by done. rewrite map_update_lookup. by rewrite decide_True.
Qed.

Section Facts.
Context `{EthCommonLaws} `{TrieProtoLaws} `{StorageLaws St} {EventLog : Type} `{!Proto (Receipt EventLog)} `{!ProtoLaws (Receipt EventLog)}.

Implicit Types (r : Receipts (St := St) (EventLog := EventLog)) (rc : Receipt EventLog).

Record receipts_inv r (m mc : gmap bytes bytes) : Prop := {
  ri_impl : Implements (r_trie r) m;
  ri_reader : reader (r_trie r) = st_Get (r_db r);
  ri_hash : isHash (r_trie r) = true;
  ri_keys k v : m !! k = Some v → length k = 32;
  ri_dirty h rc : dirtyReceipts r !! h = Some rc → TransactionHash rc = h;
  ri_origin : persisted (st_Get (r_db r)) mc;
  ri_root : originRootHash r = root_of (tree_of mc);
}.

Definition updates_of (rcs : list (Receipt EventLog)) : list (bytes * bytes) :=
  (λ rc, (TransactionHash rc, proto_Marshal rc)) <$> rcs.

(** The trie's map after the dirty receipts are written to it. *)
Definition flushed (d : gmap bytes (Receipt EventLog)) (m : gmap bytes bytes) : gmap bytes bytes :=
  model_updates id (updates_of (map_to_list d).*2) m.

Lemma hash_key32 t k : length k = 32 → hashKey t k = k.
Proof. intros Hk. unfold hashKey. by rewrite (bool_decide_true (length k = 32)). Qed.

Lemma txhash_length rc : length (TransactionHash rc) = 32.
Proof. apply BytesToHash_length. Qed.

Lemma on_trie_ok {A} (c : comp MerklePatriciaTrie trie_error A) r a t :
  c (r_trie r) = (Ok a, t) → on_trie c r = (Ok a, set_trie t r).
Proof. intros E. unfold on_trie. by rewrite E. Qed.

Lemma inv_set_trie r m mc m' t : receipts_inv r m mc → Implements t m' → same_config (r_trie r) t →
  (∀ k v, m' !! k = Some v → length k = 32) → receipts_inv (set_trie t r) m' mc.
Proof.
  intros [Hi Hr Hh Hk Hd Ho Hroot] Ht [Ec1 Ec2] Hk'. split; simpl; try done; congruence.
Qed.

Lemma model_updates_keys rcs : ∀ m, (∀ k v, m !! k = Some v → length k = 32) →
  ∀ k v, model_updates id (updates_of rcs) m !! k = Some v → length k = 32.
Proof.
  induction rcs as [|rc rcs IH]; intros m Hm; [done|]. apply IH. intros k v.
  rewrite map_update_lookup. destruct (decide (k = id (TransactionHash rc))) as [->|]; [|by apply Hm].
  intros _. apply txhash_length.
Qed.

Lemma update_receipts_ok rcs : ∀ r m mc, receipts_inv r m mc →
  ∃ t, update_receipts rcs r = (Ok tt, set_trie t r) ∧
    receipts_inv (set_trie t r) (model_updates id (updates_of rcs) m) mc.
Proof.
  induction rcs as [|rc rcs IH]; intros r m mc Hinv.
  { exists (r_trie r). assert (set_trie (r_trie r) r = r) as -> by (by destruct r). done. }
  destruct (Update_implements (r_trie r) m (TransactionHash rc) (proto_Marshal rc) (ri_impl _ _ _ Hinv))
    as (t1 & E1 & I1 & Hcfg). rewrite hash_key32 in I1 by apply txhash_length.
  assert (receipts_inv (set_trie t1 r) (map_update (TransactionHash rc) (proto_Marshal rc) m) mc) as Hinv1.
  { eapply inv_set_trie; try done. apply (model_updates_keys [rc]). apply Hinv. }
  destruct (IH _ _ _ Hinv1) as (t2 & E2 & Hinv2). exists t2. split; [|done].
  cbn [update_receipts]. rewrite (comp_bind_ok _ _ _ _ _ (on_trie_ok _ _ _ _ E1)). exact E2.
Qed.

Lemma updates_perm (d : gmap bytes (Receipt EventLog)) order : order ≡ₚ (map_to_list d).*2 → updates_of order ≡ₚ updates_of (map_to_list d).*2.
Proof. intros Hp. unfold updates_of. by rewrite Hp. Qed.

Lemma dirty_keys r m mc : receipts_inv r m mc →
  (updates_of (map_to_list (dirtyReceipts r)).*2).*1 = (map_to_list (dirtyReceipts r)).*1.
Proof.
  intros Hinv. unfold updates_of. rewrite <- !list_fmap_compose. apply list_fmap_ext.
  intros i [h rc] Hi. simpl. apply (ri_dirty _ _ _ Hinv). apply elem_of_map_to_list.
  by eapply list_elem_of_lookup_2.
Qed.

(** [IntermediateRoot] flushes the dirty receipts, in whatever order they are visited. *)
Lemma IntermediateRoot_ok r m mc order : receipts_inv r m mc → order ≡ₚ (map_to_list (dirtyReceipts r)).*2 →
  ∃ t, IntermediateRoot order r = (Ok (root_of (tree_of (flushed (dirtyReceipts r) m))), set_trie t (set_dirty ∅ r)) ∧
    receipts_inv (set_trie t (set_dirty ∅ r)) (flushed (dirtyReceipts r) m) mc.
Proof.
  intros Hinv Hp. unfold IntermediateRoot.
  assert (∀ r' m', receipts_inv r' m' mc → dirtyReceipts r' = ∅ → ∃ t,
    on_trie TrieHash r' = (Ok (root_of (tree_of m')), set_trie t r') ∧ receipts_inv (set_trie t r') m' mc) as Hhash.
  { intros r' m' Hi _. destruct (TrieHash_implements (r_trie r') m' (ri_impl _ _ _ Hi)) as (T & t & HT & E & It & Hcfg).
    exists t. rewrite (on_trie_ok _ _ _ _ E), (tree_of_unique T m' HT). split; [done|].
    eapply inv_set_trie; try done. apply Hi. }
  destruct (decide (dirtyReceipts r = ∅)) as [He|Hne].
  - assert (set_dirty ∅ r = r) as -> by (destruct r; simpl in *; by rewrite He).
    assert (flushed (dirtyReceipts r) m = m) as ->.
    { unfold flushed. by rewrite He, map_to_list_empty. }
    by apply Hhash.
  - destruct (update_receipts_ok order r m mc Hinv) as (t & E & Hinv1).
    assert (model_updates id (updates_of order) m = flushed (dirtyReceipts r) m) as Hm.
    { unfold flushed. apply model_updates_perm; [by apply updates_perm|].
      rewrite list_fmap_id, (updates_perm _ _ Hp), (dirty_keys r m mc Hinv). apply NoDup_fst_map_to_list. }
    rewrite Hm in Hinv1.
    assert (receipts_inv (set_dirty ∅ (set_trie t r)) (flushed (dirtyReceipts r) m) mc) as Hinv2.
    { destruct Hinv1. split; done. }
    destruct (Hhash _ _ Hinv2 eq_refl) as (t2 & E2 & Hinv3). exists t2. split; [|exact Hinv3].
    rewrite (comp_bind_ok _ _ _ _ _ E). exact E2.
Qed.

Lemma flushed_keys r m mc : receipts_inv r m mc →
  ∀ k v, flushed (dirtyReceipts r) m !! k = Some v → length k = 32.
Proof. intros Hinv. apply model_updates_keys. apply Hinv. Qed.

Lemma flushed_dirty r m mc h rc : receipts_inv r m mc → dirtyReceipts r !! h = Some rc → rc ≠ proto_default →
  flushed (dirtyReceipts r) m !! h = Some (proto_Marshal rc).
Proof.
  intros Hinv Hh Hd. unfold flushed. rewrite (model_updates_in _ _ h (proto_Marshal rc)).
  - rewrite decide_False; [done|]. by apply proto_Marshal_nonempty.
  - rewrite (dirty_keys r m mc Hinv). apply NoDup_fst_map_to_list.
  - unfold updates_of. apply list_elem_of_fmap. exists rc. split; [by rewrite (ri_dirty _ _ _ Hinv h rc)|].
    apply list_elem_of_fmap. exists (h, rc). split; [done|]. by apply elem_of_map_to_list.
Qed.

Lemma GetReceipt_trie r m mc h : receipts_inv r m mc → length h = 32 → dirtyReceipts r !! h = None →
  ∃ r', GetReceipt h r = (match proto_Unmarshal (default [] (m !! h)) with
    | Some rc => Ok rc | None => Fail ErrReceiptUnmarshal end, r') ∧ receipts_inv r' m mc.
Proof.
  intros Hinv Hh Hn. unfold GetReceipt. rewrite Hn.
  destruct (Get_implements (r_trie r) m h (ri_impl _ _ _ Hinv)) as (t & E & It & Hcfg).
  rewrite hash_key32 in E by done. rewrite (on_trie_ok _ _ _ _ E). exists (set_trie t r).
  split; [by destruct (proto_Unmarshal _)|]. eapply inv_set_trie; try done. apply Hinv.
Qed.

(** Writing the batch changes the database as the storage promises. *)
Lemma write_nodes_ok r serialize batch : (∀ kvs s, is_Some (st_BatchPut (St := St) kvs s)) →
  Forall (λ kv, length kv.1 = 32) batch →
  ∃ r', write_nodes serialize batch r = (Ok tt, r') ∧ dirtyReceipts r' = dirtyReceipts r ∧
    ∀ k, length k = 32 → st_Get (r_db r') k = put_all batch (st_Get (r_db r)) k.
Proof.
  intros Hrel Hb. unfold write_nodes. destruct (Nat.ltb_spec 0 (length batch)) as [Hl|Hl].
  - destruct (Hrel batch (r_db r)) as [db Edb]. rewrite Edb. eexists. split; [done|].
    assert (∀ k, length k = 32 → st_Get db k = put_all batch (st_Get (r_db r)) k) as Hput.
    { intros k Hk. by apply (st_put batch (r_db r) db). }
    by destruct (serialize batch).
  - exists r. destruct batch; [done|]. simpl in Hl. lia.
Qed.

Lemma Commit_ok r m mc order shuffle serialize : receipts_inv r m mc →
  order ≡ₚ (map_to_list (dirtyReceipts r)).*2 → (∀ l, shuffle l ≡ₚ l) →
  (∀ kvs s, is_Some (st_BatchPut (St := St) kvs s)) →
  let m' := flushed (dirtyReceipts r) m in
  hash_good (tree_of m') →
  ∃ r', Receipts_Commit order shuffle serialize r = (Ok (root_of (tree_of m')), r') ∧
    receipts_inv r' m' m' ∧ dirtyReceipts r' = ∅.
Proof.
  intros Hinv Hp Hsh Hrel m' Hgood.
  destruct (IntermediateRoot_ok r m mc order Hinv Hp) as (t & E1 & Hinv1). fold m' in E1, Hinv1.
  set (r1 := set_trie t (set_dirty ∅ r)) in *.
  destruct (commit_persists true (r_trie r1) m' 32 (ri_impl _ _ _ Hinv1) (ri_keys _ _ _ Hinv1) Hgood)
    as (ns & old & t2 & E2 & Hkeys & Hpers).
  unfold Receipts_Commit. rewrite (comp_bind_ok _ _ _ _ _ E1).
  rewrite (comp_bind_ok _ _ _ _ _ (on_trie_ok _ _ _ _ E2)). rewrite bool_decide_true by done. cbn [negb].
  destruct (write_nodes_ok (set_trie t2 r1) serialize (shuffle (batch_of ns)) Hrel) as (r2 & E3 & Hd & Hdb).
  { by rewrite Hsh. }
  rewrite (comp_bind_ok _ _ _ _ _ E3). unfold load_root.
  assert (persisted (st_Get (r_db r2)) m') as Hper2.
  { apply (Hpers (shuffle (batch_of ns))); [done|]. intros k Hk. rewrite Hdb by done.
    by rewrite (ri_reader _ _ _ Hinv1). }
  destruct (persisted_load _ m' true Hper2) as (t3 & En & Hrd & Hh & I3). rewrite En.
  eexists. split; [done|]. split; [|by simpl; rewrite Hd].
  split; simpl; try done.
  - apply Hinv1.
  - intros h rc Hh'. rewrite Hd in Hh'. simpl in Hh'. by rewrite lookup_empty in Hh'.
Qed.

(** C4: After [Commit] every dirty receipt is read back from storage under its transaction hash, both
    through the collection and through a new one opened at the returned root; the root does not
    depend on the order in which the receipts or the batch were processed. *)
Theorem receipts_commit_persists r m mc order shuffle serialize : receipts_inv r m mc →
  order ≡ₚ (map_to_list (dirtyReceipts r)).*2 → (∀ l, shuffle l ≡ₚ l) →
  (∀ kvs s, is_Some (st_BatchPut (St := St) kvs s)) →
  hash_good (tree_of (flushed (dirtyReceipts r) m)) →
  ∃ r' r2, Receipts_Commit order shuffle serialize r = (Ok (root_of (tree_of (flushed (dirtyReceipts r) m))), r') ∧
    dirtyReceipts r' = ∅ ∧
    NewReceiptsFromRoot (root_of (tree_of (flushed (dirtyReceipts r) m))) (r_db r') = Ok r2 ∧
    ∀ h rc, dirtyReceipts r !! h = Some rc → rc ≠ proto_default →
      fst (GetReceipt h r') = Ok rc ∧ fst (GetReceipt h r2) = Ok rc.
Proof.
  intros Hinv Hp Hsh Hrel Hgood.
  destruct (Commit_ok r m mc order shuffle serialize Hinv Hp Hsh Hrel Hgood) as (r' & E & Hinv' & Hd').
  destruct (persisted_load _ _ true (ri_origin _ _ _ Hinv')) as (t2 & En & Hrd & Hh2 & I2).
  set (m' := flushed (dirtyReceipts r) m) in *.
  set (r2 := Build_Receipts (St := St) (EventLog := EventLog) t2 (r_db r') (root_of (tree_of m')) ∅ None).
  assert (receipts_inv r2 m' m') as Hinv2.
  { split; simpl; try done; apply Hinv'. }
  exists r', r2. split; [done|]. split; [done|]. split; [by unfold NewReceiptsFromRoot; rewrite En|].
  intros h rc Hh Hdef. pose proof (flushed_dirty r m mc h rc Hinv Hh Hdef) as Hm'. fold m' in Hm'.
  assert (length h = 32) as Hlen by (rewrite <- (ri_dirty _ _ _ Hinv h rc Hh); apply txhash_length).
  destruct (GetReceipt_trie r' m' m' h Hinv' Hlen) as (? & -> & _); [by rewrite Hd', lookup_empty|].
  destruct (GetReceipt_trie r2 m' m' h Hinv2 Hlen) as (? & -> & _); [simpl; by rewrite lookup_empty|].
  rewrite Hm'. simpl. by rewrite proto_roundtrip.
Qed.

(** [Discard] drops every uncommitted receipt, including those [IntermediateRoot] already wrote to
    the trie: afterwards the collection answers from the last committed state. *)
Theorem receipts_discard r m mc : receipts_inv r m mc → (∀ k v, mc !! k = Some v → length k = 32) →
  ∃ r', Discard r = (Ok tt, r') ∧ receipts_inv r' mc mc ∧ dirtyReceipts r' = ∅ ∧
    ∀ h, length h = 32 → fst (GetReceipt h r') =
      match proto_Unmarshal (default [] (mc !! h)) with Some rc => Ok rc | None => Fail ErrReceiptUnmarshal end.
Proof.
  intros [Hi Hr Hh Hk Hd Ho Hroot] Hkc.
  destruct (persisted_load _ _ true Ho) as (t & En & Hrd & Hht & It).
  unfold Discard. simpl. rewrite Hroot, En. eexists. split; [done|].
  assert (receipts_inv (set_trie t (set_dirty ∅ r)) mc mc) as Hinv'.
  { by split. }
  split; [done|]. split; [done|]. intros h Hlen.
  destruct (GetReceipt_trie _ mc mc h Hinv' Hlen) as (? & -> & _); [simpl; by rewrite lookup_empty|]. done.
Qed.

(** Looking up a transaction that has no receipt does not report [ErrorReceiptNotFound]: the trie
    returns nil data, which unmarshals to the empty receipt. *)
Theorem missing_receipt_is_empty r m mc h : receipts_inv r m mc → length h = 32 →
  dirtyReceipts r !! h = None → m !! h = None → fst (GetReceipt h r) = Ok proto_default.
Proof.
  intros Hinv Hlen Hn Hm. destruct (GetReceipt_trie r m mc h Hinv Hlen Hn) as (r' & -> & _).
  rewrite Hm. simpl. by rewrite proto_empty.
Qed.

Lemma NewReceipts_inv db : ∃ r, NewReceipts db = Some r ∧ receipts_inv r ∅ ∅ ∧ dirtyReceipts r = ∅ ∧ r_db r = db.
Proof.
  unfold NewReceipts, New. rewrite (bool_decide_false (EmptyRootHash ≠ EmptyRootHash)) by tauto.
  rewrite andb_false_r. set (t := {| root := NilNode |}). unfold TrieHash, hashRoot. simpl.
  rewrite BytesToHash_32 by done. eexists. split; [done|]. split; [|done].
  assert (tree_of ∅ = TNil) as Et by apply map_fold_empty.
  split; simpl; try done.
  - exists TNil. repeat (split; [done|]). split; [apply holds_empty|]. split; [constructor|apply newTracer_ok].
  - apply persisted_empty.
Qed.

Lemma AddReceipt_inv r m mc rc : receipts_inv r m mc → receipts_inv (setDirtyReceipt rc r) m mc.
Proof.
  intros [Hi Hr Hh Hk Hd Ho Hroot]. split; simpl; try done.
  intros h rc'. rewrite lookup_insert_Some. intros [[<- <-]|[_ ?]]; [done|eauto].
Qed.

End Facts.

(** ** A concrete collection *)

Module Example.
Import Toy.

#[export] Instance receipt_ser : Ser (Receipt bytes) :=
  ser_iso (λ r, (rc_TransactionHash r, rc_FromAddress r, rc_ToAddress r, rc_Amount r, rc_Status r, rc_Return r,
                 rc_Exception r, rc_GasUsed r, rc_GasFee r, rc_EventLogs r, rc_TransactionIndex r, rc_ProcessingType r, rc_RHash r))
          (λ '(a, b, c, d, e, f, g, h, i, j, k, l, m), Build_Receipt (EventLog := bytes) a b c d e f g h i j k l m) ltac:(by intros []).
#[export] Instance receipt_eq : EqDecision (Receipt bytes).
Proof. solve_decision. Defined.
#[export] Instance receipt_proto : Proto (Receipt bytes) := toy_proto default_receipt.
#[export] Instance receipt_proto_laws : ProtoLaws (Receipt bytes).
Proof. apply toy_proto_laws. Qed.

Definition one_receipt (i : Z) : Receipt bytes :=
  NewReceipt (key i) [] [] 5 RECEIPT_STATUS_RETURNED (val i) EXCEPTION_NONE 1 21000 [] 0.

Definition empty_receipts : Receipts (St := MemoryDB) (EventLog := bytes) :=
  Build_Receipts {| root := NilNode; committed := false; reader := st_Get NewMemoryDb; tracer := newTracer; isHash := true |}
    NewMemoryDb EmptyRootHash ∅ None.

Definition two_receipts : Receipts (St := MemoryDB) (EventLog := bytes) :=
  setDirtyReceipt (one_receipt 2) (setDirtyReceipt (one_receipt 1) empty_receipts).

Lemma empty_receipts_new : NewReceipts NewMemoryDb = Some empty_receipts.
Proof. reflexivity. Qed.

Lemma two_receipts_inv : receipts_inv two_receipts ∅ ∅.
Proof.
  apply AddReceipt_inv, AddReceipt_inv.
  destruct (NewReceipts_inv (EventLog := bytes) NewMemoryDb) as (r & E & Hinv & _).
  rewrite empty_receipts_new in E. by injection E as <-.
Qed.

Lemma two_receipts_good : hash_good (tree_of (flushed (dirtyReceipts two_receipts) ∅)).
Proof. apply (bool_decide_unpack _). vm_compute. exact I. Qed.

Lemma receipts_commit_persists_witness : ∃ r' r2,
  Receipts_Commit [one_receipt 2; one_receipt 1] reverse (λ _, None) two_receipts =
    (Ok (root_of (tree_of (flushed (dirtyReceipts two_receipts) ∅))), r') ∧
  dirtyReceipts r' = ∅ ∧
  NewReceiptsFromRoot (root_of (tree_of (flushed (dirtyReceipts two_receipts) ∅))) (r_db r') = Ok r2 ∧
  ∀ h rc, dirtyReceipts two_receipts !! h = Some rc → rc ≠ proto_default →
    fst (GetReceipt h r') = Ok rc ∧ fst (GetReceipt h r2) = Ok rc.
Proof.
  apply (receipts_commit_persists two_receipts ∅ ∅ _ reverse _ two_receipts_inv).
  - apply (bool_decide_unpack _). vm_compute. exact I.
  - apply reverse_Permutation.
  - intros kvs s. by eexists.
  - exact two_receipts_good.
Defined.

Lemma receipts_discard_witness : ∃ r', Discard two_receipts = (Ok tt, r') ∧ receipts_inv r' ∅ ∅ ∧
  dirtyReceipts r' = ∅ ∧ ∀ h, length h = 32 → fst (GetReceipt h r') =
    match proto_Unmarshal (default [] ((∅ : gmap bytes bytes) !! h)) with
    | Some rc => Ok rc | None => Fail ErrReceiptUnmarshal end.
Proof.
  apply (receipts_discard two_receipts ∅ ∅ two_receipts_inv). intros k v E. by rewrite lookup_empty in E.
Defined.

Lemma missing_receipt_is_empty_witness : fst (GetReceipt (key 3) two_receipts) = Ok proto_default.
Proof. apply (missing_receipt_is_empty two_receipts ∅ ∅ (key 3) two_receipts_inv); reflexivity. Defined.

End Example.
