(* ===== verification/Transaction.v ===== *)
(** * Transactions ([pkg/transaction])

    A transaction wraps a protobuf message and two cached hashes.  It is made from an Ethereum
    transaction (legacy, EIP-2930 or EIP-1559), sent over the wire, turned back into an
    Ethereum transaction to recover the sender, and checked against the sender's account.
    go-ethereum's transaction types, its sender recovery, BLS and secp256k1 are parameters. *)

From S2P Require Import Prelude Interfaces GoLib LevelDB AccountState.
From Stdlib Require Import Strings.Byte.

(** ** Messages *)

Record AccessTuple := { at_Address : bytes; at_StorageKeys : list bytes }.

(** The bytes fields whose nil-ness the code tests are options. *)
Record pb_Transaction := {
  tx_FromAddress : bytes;
  tx_ToAddress : bytes;
  tx_Amount : bytes;
  tx_MaxGas : Z;
  tx_MaxGasPrice : Z;
  tx_MaxTimeUse : Z;
  tx_Data : bytes;
  tx_RelatedAddresses : list bytes;
  tx_LastDeviceKey : bytes;
  tx_NewDeviceKey : bytes;
  tx_Sign : bytes;
  tx_Nonce : bytes;
  tx_ReadOnly : bool;
  tx_ChainID : Z;
  tx_Type : Z;
  tx_R : bytes;
  tx_S : bytes;
  tx_V : bytes;
  tx_GasTipCap : option bytes;
  tx_GasFeeCap : option bytes;
  tx_AccessList : list AccessTuple;
}.

Definition empty_pb_Transaction : pb_Transaction :=
  Build_pb_Transaction [] [] [] 0 0 0 [] [] [] [] [] [] false 0 0 [] [] [] None None [].

Record TransactionHashData := {
  hd_FromAddress : bytes;
  hd_ToAddress : bytes;
  hd_Amount : bytes;
  hd_MaxGas : Z;
  hd_MaxGasPrice : Z;
  hd_MaxTimeUse : Z;
  hd_Data : bytes;
  hd_Type : Z;
  hd_LastDeviceKey : bytes;
  hd_NewDeviceKey : bytes;
  hd_Nonce : bytes;
  hd_ChainID : Z;
  hd_R : bytes;
  hd_S : bytes;
  hd_V : bytes;
  hd_GasTipCap : bytes;
  hd_GasFeeCap : bytes;
  hd_AccessList : list AccessTuple;
}.

Record pb_CallData := { cd_Input : bytes }.
Record pb_DeployData := { dd_Code : bytes; dd_StorageAddress : bytes }.

Record Transaction := {
  proto : pb_Transaction;
  cachedHash : option bytes;
  cachedRHash : option bytes;
  isDebug : bool;
}.

(** ** go-ethereum's transactions *)

(** The fields all types share; the accessors return copies, never nil. *)
Record eth_body := {
  e_Nonce : Z;
  e_Gas : Z;
  e_To : option bytes;
  e_Value : Z;
  e_Data : bytes;
  e_V : Z;
  e_R : Z;
  e_S : Z;
}.

Inductive eth_tx :=
  | LegacyTx (gasPrice : Z) (b : eth_body)
  | AccessListTx (chainID gasPrice : Z) (al : list AccessTuple) (b : eth_body)
  | DynamicFeeTx (chainID tip cap : Z) (al : list AccessTuple) (b : eth_body)
  | BlobTx (chainID : Z) (b : eth_body).

Definition LegacyTxType : Z := 0.
Definition AccessListTxType : Z := 1.
Definition DynamicFeeTxType : Z := 2.

Definition eth_body_of (t : eth_tx) : eth_body :=
  match t with LegacyTx _ b | AccessListTx _ _ _ b | DynamicFeeTx _ _ _ _ b | BlobTx _ b => b end.

Inductive signer := HomesteadSigner | EIP155Signer (chainID : Z) | LondonSigner (chainID : Z) | CancunSigner (chainID : Z).

(** [deriveChainId] is the chain id a legacy transaction's V carries (0 before EIP-155). *)
Class EthTypes := {
  deriveChainId : Z → Z;
  Sender : signer → eth_tx → option bytes;
  CreateAddress : bytes → Z → bytes;
}.

(** BLS and secp256k1. *)
Class TxCrypto := {
  VerifySign : bytes → bytes → bytes → bool;
  BlsSign : bytes → bytes → bytes;
  RecoverPubkey : bytes → bytes → option bytes;
}.

(** The wire form of a transaction. *)
Class TxCodec := {
  tx_Marshal : pb_Transaction → bytes;
  tx_Unmarshal : bytes → option pb_Transaction;
}.

(** proto3 does not send an empty bytes field, and an absent one decodes to nil. *)
Definition nil_if_empty (b : option bytes) : option bytes := match b with Some [] => None | _ => b end.

Definition after_wire (p : pb_Transaction) : pb_Transaction :=
  Build_pb_Transaction (tx_FromAddress p) (tx_ToAddress p) (tx_Amount p) (tx_MaxGas p) (tx_MaxGasPrice p)
    (tx_MaxTimeUse p) (tx_Data p) (tx_RelatedAddresses p) (tx_LastDeviceKey p) (tx_NewDeviceKey p) (tx_Sign p)
    (tx_Nonce p) (tx_ReadOnly p) (tx_ChainID p) (tx_Type p) (tx_R p) (tx_S p) (tx_V p)
    (nil_if_empty (tx_GasTipCap p)) (nil_if_empty (tx_GasFeeCap p)) (tx_AccessList p).

Class TxCodecLaws `{TxCodec} : Prop := {
  tx_wire p : tx_Unmarshal (tx_Marshal p) = Some (after_wire p);
}.

(** [big.Int.Uint64]: the low 64 bits of the absolute value. *)
Definition big_Uint64 (z : Z) : Z := u64 (Z.abs z).

Inductive tx_error :=
  | ErrUnsupportedType
  | ErrSender          (** the sender could not be derived *)
  | ErrWrongType
  | ErrMissingChainID
  | ErrUnmarshalTx.

(** ** Construction *)

Definition NewTransaction (from to : bytes) (amount maxGas maxGasPrice maxTimeUse : Z) (data : bytes)
    (related : list bytes) (lastDeviceKey newDeviceKey : bytes) (nonce chainId : Z) : Transaction :=
  {| proto := Build_pb_Transaction from to (big_Bytes amount) maxGas maxGasPrice maxTimeUse data related
       lastDeviceKey newDeviceKey [] (PutUint64 nonce) false chainId 0 [] [] [] None None [];
     cachedHash := None; cachedRHash := None; isDebug := false |}.

Definition NewTransactionWithoutNonce (from to : bytes) (amount maxGas maxGasPrice maxTimeUse : Z) (data : bytes)
    (related : list bytes) (lastDeviceKey newDeviceKey : bytes) (chainId : Z) : Transaction :=
  {| proto := Build_pb_Transaction from to (big_Bytes amount) maxGas maxGasPrice maxTimeUse data related
       lastDeviceKey newDeviceKey [] [] false chainId 0 [] [] [] None None [];
     cachedHash := None; cachedRHash := None; isDebug := false |}.

(** The destination is cut to fifteen bytes; the last hash and the pending use are not stored. *)
Definition NewTransactionOffChain (from to : bytes) (amount maxGas maxGasPrice maxTimeUse : Z) (data : bytes)
    (related : list bytes) (lastDeviceKey newDeviceKey : bytes) (nonce : Z) : Transaction :=
  {| proto := Build_pb_Transaction from (take 15 to) (big_Bytes amount) maxGas maxGasPrice maxTimeUse data related
       lastDeviceKey newDeviceKey [] (PutUint64 nonce) false 0 0 [] [] [] None None [];
     cachedHash := None; cachedRHash := None; isDebug := false |}.

Definition TransactionFromProto (p : pb_Transaction) : Transaction :=
  {| proto := p; cachedHash := None; cachedRHash := None; isDebug := false |}.

(** A new message under the same caches; [FromProto] is exactly this. *)
Definition FromProto (p : pb_Transaction) (t : Transaction) : Transaction :=
  {| proto := p; cachedHash := cachedHash t; cachedRHash := cachedRHash t; isDebug := isDebug t |}.

Definition CopyTransaction (t : Transaction) : Transaction := TransactionFromProto (proto t).

Definition SetIsDebug (b : bool) (t : Transaction) : Transaction :=
  {| proto := proto t; cachedHash := cachedHash t; cachedRHash := cachedRHash t; isDebug := b |}.

Definition ClearCacheHash (t : Transaction) : Transaction :=
  {| proto := proto t; cachedHash := None; cachedRHash := None; isDebug := isDebug t |}.

Section Tx.
Context `{EthCommon} `{EthAddress} `{EthTypes} `{TxCrypto} `{TxCodec}.
Context `{Proto TransactionHashData} `{Proto pb_CallData} `{Proto pb_DeployData}.

Definition TM : Type → Type := comp Transaction tx_error.

Definition Transaction_Unmarshal (b : bytes) : TM unit := λ t,
  match tx_Unmarshal b with
  | Some p => (Ok tt, FromProto p t)
  | None => (Fail ErrUnmarshalTx, t)
  end.

(** ** Accessors *)

Definition GetNonce (t : Transaction) : Z :=
  if (length (tx_Nonce (proto t)) =? 8)%nat then default 0%Z (Uint64 (tx_Nonce (proto t))) else 0%Z.

Definition FromAddress (t : Transaction) : bytes := BytesToAddress (tx_FromAddress (proto t)).
Definition ToAddress (t : Transaction) : bytes := BytesToAddress (tx_ToAddress (proto t)).
Definition Tx_Amount (t : Transaction) : Z := big_SetBytes (tx_Amount (proto t)).
Definition LastDeviceKey (t : Transaction) : bytes := BytesToHash (tx_LastDeviceKey (proto t)).
Definition Sign (t : Transaction) : bytes := go_copy (zeros 96) (tx_Sign (proto t)).

Definition zero_address : bytes := zeros 20.

Definition IsDeployContract (t : Transaction) : bool :=
  negb (GetNonce t =? 0)%Z && negb (bool_decide (FromAddress t = ToAddress t)) &&
  bool_decide (ToAddress t = zero_address) && (0 <? length (tx_Data (proto t)))%nat.

Definition IsCallContract (t : Transaction) : bool :=
  negb (bool_decide (ToAddress t = zero_address)) && (0 <? length (tx_Data (proto t)))%nat.

Definition IsRegularTransaction (t : Transaction) : bool :=
  negb (bool_decide (ToAddress t = zero_address)) && (length (tx_Data (proto t)) =? 0)%nat.

(** [CallData().Input()]: nil when the data is not a [CallData] message. *)
Definition CallData_Input (t : Transaction) : bytes :=
  match proto_Unmarshal (tx_Data (proto t)) with Some d => cd_Input d | None => [] end.

(** [DeployData().Code()]: [None] is the nil dereference when the data is not a [DeployData] message. *)
Definition DeployData_Code (t : Transaction) : option bytes :=
  dd_Code <$> proto_Unmarshal (tx_Data (proto t)).

Definition GetData (t : Transaction) : outcome tx_error bytes :=
  if IsCallContract t then Ok (CallData_Input t)
  else if IsDeployContract t then match DeployData_Code t with Some c => Ok c | None => Panic end
  else Ok (tx_Data (proto t)).

Definition RelatedAddresses (t : Transaction) : list bytes :=
  (BytesToAddress <$> tx_RelatedAddresses (proto t)) ++ [ToAddress t].

(** [Fee] multiplies signed conversions of unsigned fields. *)
Definition Fee (currentGasPrice : Z) (t : Transaction) : Z :=
  (i64 (tx_MaxGas (proto t)) * i64 currentGasPrice * i64 (u64 (tx_MaxTimeUse (proto t) / 1000 + 1)))%Z.

Definition GasFeeCap (t : Transaction) : Z := big_SetBytes (default [] (tx_GasFeeCap (proto t))).
Definition GasTipCap (t : Transaction) : Z := big_SetBytes (default [] (tx_GasTipCap (proto t))).

Definition MaxFee (t : Transaction) : Z :=
  let maxGas := tx_MaxGas (proto t) in
  if (tx_Type (proto t) =? 0)%Z || (tx_Type (proto t) =? 1)%Z then (maxGas * tx_MaxGasPrice (proto t))%Z
  else if (tx_Type (proto t) =? 2)%Z then (maxGas * GasFeeCap t)%Z
  else 0%Z.

Definition RawSignatureValues (t : Transaction) : Z * Z * Z :=
  (big_SetBytes (tx_V (proto t)), big_SetBytes (tx_R (proto t)), big_SetBytes (tx_S (proto t))).

(** ** Hashes *)

Definition hash_data (nonce : bytes) (p : pb_Transaction) : TransactionHashData :=
  {| hd_FromAddress := tx_FromAddress p; hd_ToAddress := tx_ToAddress p; hd_Amount := tx_Amount p;
     hd_MaxGas := tx_MaxGas p; hd_MaxGasPrice := tx_MaxGasPrice p; hd_MaxTimeUse := tx_MaxTimeUse p;
     hd_Data := tx_Data p; hd_Type := tx_Type p; hd_LastDeviceKey := tx_LastDeviceKey p;
     hd_NewDeviceKey := tx_NewDeviceKey p; hd_Nonce := nonce; hd_ChainID := tx_ChainID p;
     hd_R := tx_R p; hd_S := tx_S p; hd_V := tx_V p; hd_GasTipCap := default [] (tx_GasTipCap p);
     hd_GasFeeCap := default [] (tx_GasFeeCap p); hd_AccessList := tx_AccessList p |}.

Definition hash_of (p : pb_Transaction) : bytes := Keccak256 (proto_Marshal (hash_data (tx_Nonce p) p)).
Definition rhash_of (p : pb_Transaction) : bytes := Keccak256 (proto_Marshal (hash_data [] p)).

Definition Hash (t : Transaction) : bytes * Transaction :=
  match cachedHash t with
  | Some h => (h, t)
  | None => let h := hash_of (proto t) in
    (h, {| proto := proto t; cachedHash := Some h; cachedRHash := cachedRHash t; isDebug := isDebug t |})
  end.

Definition RHash (t : Transaction) : bytes * Transaction :=
  match cachedRHash t with
  | Some h => (h, t)
  | None => let h := rhash_of (proto t) in
    (h, {| proto := proto t; cachedHash := cachedHash t; cachedRHash := Some h; isDebug := isDebug t |})
  end.

(** ** Setters *)

Definition put_related (l : list bytes) (p : pb_Transaction) : pb_Transaction :=
  Build_pb_Transaction (tx_FromAddress p) (tx_ToAddress p) (tx_Amount p) (tx_MaxGas p) (tx_MaxGasPrice p)
    (tx_MaxTimeUse p) (tx_Data p) l (tx_LastDeviceKey p) (tx_NewDeviceKey p) (tx_Sign p) (tx_Nonce p) (tx_ReadOnly p)
    (tx_ChainID p) (tx_Type p) (tx_R p) (tx_S p) (tx_V p) (tx_GasTipCap p) (tx_GasFeeCap p) (tx_AccessList p).
Definition put_device_keys (lastKey newKey : bytes) (p : pb_Transaction) : pb_Transaction :=
  Build_pb_Transaction (tx_FromAddress p) (tx_ToAddress p) (tx_Amount p) (tx_MaxGas p) (tx_MaxGasPrice p)
    (tx_MaxTimeUse p) (tx_Data p) (tx_RelatedAddresses p) lastKey newKey (tx_Sign p) (tx_Nonce p) (tx_ReadOnly p)
    (tx_ChainID p) (tx_Type p) (tx_R p) (tx_S p) (tx_V p) (tx_GasTipCap p) (tx_GasFeeCap p) (tx_AccessList p).
Definition put_sign (s : bytes) (p : pb_Transaction) : pb_Transaction :=
  Build_pb_Transaction (tx_FromAddress p) (tx_ToAddress p) (tx_Amount p) (tx_MaxGas p) (tx_MaxGasPrice p)
    (tx_MaxTimeUse p) (tx_Data p) (tx_RelatedAddresses p) (tx_LastDeviceKey p) (tx_NewDeviceKey p) s (tx_Nonce p) (tx_ReadOnly p)
    (tx_ChainID p) (tx_Type p) (tx_R p) (tx_S p) (tx_V p) (tx_GasTipCap p) (tx_GasFeeCap p) (tx_AccessList p).
Definition put_nonce (n : bytes) (p : pb_Transaction) : pb_Transaction :=
  Build_pb_Transaction (tx_FromAddress p) (tx_ToAddress p) (tx_Amount p) (tx_MaxGas p) (tx_MaxGasPrice p)
    (tx_MaxTimeUse p) (tx_Data p) (tx_RelatedAddresses p) (tx_LastDeviceKey p) (tx_NewDeviceKey p) (tx_Sign p) n (tx_ReadOnly p)
    (tx_ChainID p) (tx_Type p) (tx_R p) (tx_S p) (tx_V p) (tx_GasTipCap p) (tx_GasFeeCap p) (tx_AccessList p).
Definition put_read_only (b : bool) (p : pb_Transaction) : pb_Transaction :=
  Build_pb_Transaction (tx_FromAddress p) (tx_ToAddress p) (tx_Amount p) (tx_MaxGas p) (tx_MaxGasPrice p)
    (tx_MaxTimeUse p) (tx_Data p) (tx_RelatedAddresses p) (tx_LastDeviceKey p) (tx_NewDeviceKey p) (tx_Sign p) (tx_Nonce p) b
    (tx_ChainID p) (tx_Type p) (tx_R p) (tx_S p) (tx_V p) (tx_GasTipCap p) (tx_GasFeeCap p) (tx_AccessList p).
Definition put_gas_price (g : Z) (p : pb_Transaction) : pb_Transaction :=
  Build_pb_Transaction (tx_FromAddress p) (tx_ToAddress p) (tx_Amount p) (tx_MaxGas p) g
    (tx_MaxTimeUse p) (tx_Data p) (tx_RelatedAddresses p) (tx_LastDeviceKey p) (tx_NewDeviceKey p) (tx_Sign p) (tx_Nonce p) (tx_ReadOnly p)
    (tx_ChainID p) (tx_Type p) (tx_R p) (tx_S p) (tx_V p) (tx_GasTipCap p) (tx_GasFeeCap p) (tx_AccessList p).
Definition put_from (a : bytes) (p : pb_Transaction) : pb_Transaction :=
  Build_pb_Transaction a (tx_ToAddress p) (tx_Amount p) (tx_MaxGas p) (tx_MaxGasPrice p)
    (tx_MaxTimeUse p) (tx_Data p) (tx_RelatedAddresses p) (tx_LastDeviceKey p) (tx_NewDeviceKey p) (tx_Sign p) (tx_Nonce p) (tx_ReadOnly p)
    (tx_ChainID p) (tx_Type p) (tx_R p) (tx_S p) (tx_V p) (tx_GasTipCap p) (tx_GasFeeCap p) (tx_AccessList p).
Definition put_to (a : bytes) (p : pb_Transaction) : pb_Transaction :=
  Build_pb_Transaction (tx_FromAddress p) a (tx_Amount p) (tx_MaxGas p) (tx_MaxGasPrice p)
    (tx_MaxTimeUse p) (tx_Data p) (tx_RelatedAddresses p) (tx_LastDeviceKey p) (tx_NewDeviceKey p) (tx_Sign p) (tx_Nonce p) (tx_ReadOnly p)
    (tx_ChainID p) (tx_Type p) (tx_R p) (tx_S p) (tx_V p) (tx_GasTipCap p) (tx_GasFeeCap p) (tx_AccessList p).
Definition put_signature (chainID v r s : Z) (p : pb_Transaction) : pb_Transaction :=
  Build_pb_Transaction (tx_FromAddress p) (tx_ToAddress p) (tx_Amount p) (tx_MaxGas p) (tx_MaxGasPrice p)
    (tx_MaxTimeUse p) (tx_Data p) (tx_RelatedAddresses p) (tx_LastDeviceKey p) (tx_NewDeviceKey p) (tx_Sign p) (tx_Nonce p) (tx_ReadOnly p)
    (u64 (i64 chainID)) (tx_Type p) (big_Bytes r) (big_Bytes s) (big_Bytes v) (tx_GasTipCap p) (tx_GasFeeCap p) (tx_AccessList p).

(** Changing the message, without and with [ClearCacheHash]. *)
Definition change (f : pb_Transaction → pb_Transaction) (t : Transaction) : Transaction := FromProto (f (proto t)) t.
Definition change_clear (f : pb_Transaction → pb_Transaction) (t : Transaction) : Transaction := ClearCacheHash (change f t).

Definition UpdateRelatedAddresses (l : list bytes) := change (put_related l).
Definition UpdateDeriver (lastKey newKey : bytes) := change (put_device_keys lastKey newKey).
Definition SetSignBytes (b : bytes) := change (put_sign b).
Definition SetSign (privateKey : bytes) (t : Transaction) : Transaction :=
  let '(h, t') := Hash t in change (put_sign (BlsSign privateKey h)) t'.
Definition SetReadOnly (b : bool) := change_clear (put_read_only b).
Definition SetMaxGasPrice (g : Z) := change_clear (put_gas_price g).
Definition Tx_SetNonce (n : Z) := change_clear (put_nonce (PutUint64 n)).
Definition SetFromAddress (a : bytes) := change_clear (put_from a).
Definition SetToAddress (a : bytes) := change_clear (put_to a).
Definition SetSignatureValues (chainID v r s : Z) := change_clear (put_signature chainID v r s).

Definition AddRelatedAddress (a : bytes) (t : Transaction) : Transaction :=
  if decide (a ∈ tx_RelatedAddresses (proto t)) then t
  else change (put_related (tx_RelatedAddresses (proto t) ++ [a])) t.

End Tx.

(** ** From Ethereum ([eth_legacy.go], [eth_eip2930.go], [eth_eip1559.go]) *)

Section FromEth.
Context `{EthCommon} `{EthAddress} `{EthTypes} `{TxCrypto} `{TxCodec}.
Context `{Proto TransactionHashData} `{Proto pb_CallData} `{Proto pb_DeployData}.

(** common.HexToAddress("0xda7284fac5e804f8b9d71aa39310f0f86776b51d") *)
Definition deploy_storage_address : bytes :=
  [xda; x72; x84; xfa; xc5; xe8; x04; xf8; xb9; xd7; x1a; xa3; x93; x10; xf0; xf8; x67; x76; xb5; x1d].

Definition prepareTransactionSpecificData (t : eth_tx) (storageAddressForDeploy : bytes) : bytes :=
  match e_Data (eth_body_of t), e_To (eth_body_of t) with
  | [], _ => []
  | (_ :: _) as d, None => proto_Marshal {| dd_Code := d; dd_StorageAddress := storageAddressForDeploy |}
  | (_ :: _) as d, Some _ => proto_Marshal {| cd_Input := d |}
  end.

(** The recovery id of a legacy signature, as a byte. *)
Definition legacy_recovery_id (v chainID : Z) : byte :=
  if negb (chainID =? 0)%Z then z2b (big_Uint64 (v - (chainID * 2 + 35)))
  else
    let recoveryID := z2b (big_Uint64 (v - 27)) in
    if (1 <? b2z recoveryID)%Z && (big_Uint64 (v - 28) <=? 1)%Z then z2b (big_Uint64 (v - 28)) else recoveryID.

Definition FromEthLegacyTx (t : eth_tx) : outcome tx_error pb_Transaction :=
  match t with
  | LegacyTx gasPrice b =>
    let chainID := deriveChainId (e_V b) in
    let sgn := if negb (chainID =? 0)%Z then EIP155Signer chainID else HomesteadSigner in
    match Sender sgn t with
    | None => Fail ErrSender
    | Some from =>
      Ok (Build_pb_Transaction from (default [] (e_To b)) (big_Bytes (e_Value b)) (e_Gas b) (big_Uint64 gasPrice) 0
            (prepareTransactionSpecificData t deploy_storage_address) [] [] []
            (big_Bytes (e_R b) ++ big_Bytes (e_S b) ++ [legacy_recovery_id (e_V b) chainID])
            (PutUint64 (e_Nonce b)) false (big_Uint64 chainID) LegacyTxType
            (big_Bytes (e_R b)) (big_Bytes (e_S b)) (big_Bytes (e_V b)) None None [])
    end
  | _ => Fail ErrWrongType
  end.

(** R || S || last byte of V *)
Definition typed_sign (b : eth_body) : bytes :=
  big_Bytes (e_R b) ++ big_Bytes (e_S b) ++ [default x00 (last (big_Bytes (e_V b)))].

Definition FromEthEIP2930Tx (t : eth_tx) : outcome tx_error pb_Transaction :=
  match t with
  | AccessListTx chainID gasPrice al b =>
    match Sender (LondonSigner chainID) t with
    | None => Fail ErrSender
    | Some from =>
      Ok (Build_pb_Transaction from (default [] (e_To b)) (big_Bytes (e_Value b)) (e_Gas b) (big_Uint64 gasPrice) 0
            (prepareTransactionSpecificData t deploy_storage_address) [] [] [] (typed_sign b)
            (PutUint64 (e_Nonce b)) false (big_Uint64 chainID) AccessListTxType
            (big_Bytes (e_R b)) (big_Bytes (e_S b)) (big_Bytes (e_V b)) None None al)
    end
  | _ => Fail ErrWrongType
  end.

(** The fields an EIP-1559 transaction does not have keep the values of [pTx]. *)
Definition FromEthEIP1559Tx (t : eth_tx) (pTx : pb_Transaction) : outcome tx_error pb_Transaction :=
  match t with
  | DynamicFeeTx chainID tip cap al b =>
    match Sender (LondonSigner chainID) t with
    | None => Fail ErrSender
    | Some from =>
      Ok (Build_pb_Transaction from (default [] (e_To b)) (big_Bytes (e_Value b)) (e_Gas b) 0 (tx_MaxTimeUse pTx)
            (prepareTransactionSpecificData t deploy_storage_address) (tx_RelatedAddresses pTx)
            (tx_LastDeviceKey pTx) (tx_NewDeviceKey pTx) (typed_sign b)
            (PutUint64 (e_Nonce b)) (tx_ReadOnly pTx) (big_Uint64 chainID) DynamicFeeTxType
            (big_Bytes (e_R b)) (big_Bytes (e_S b)) (big_Bytes (e_V b))
            (Some (big_Bytes tip)) (Some (big_Bytes cap)) al)
    end
  | _ => Fail ErrWrongType
  end.

Definition FromEthTransaction (t : eth_tx) (pTx : pb_Transaction) : outcome tx_error pb_Transaction :=
  match t with
  | LegacyTx _ _ => FromEthLegacyTx t
  | AccessListTx _ _ _ _ => FromEthEIP2930Tx t
  | DynamicFeeTx _ _ _ _ _ => FromEthEIP1559Tx t pTx
  | BlobTx _ _ => Fail ErrUnsupportedType
  end.

Definition NewTransactionFromEth (t : eth_tx) : outcome tx_error Transaction :=
  match FromEthTransaction t empty_pb_Transaction with
  | Ok p => Ok (TransactionFromProto p)
  | Fail e => Fail e
  | Panic => Panic
  | OutOfFuel => OutOfFuel
  end.

(** ** To Ethereum *)

Definition toEthAccessList (al : list AccessTuple) : list AccessTuple :=
  (λ a, {| at_Address := BytesToAddress (at_Address a); at_StorageKeys := BytesToHash <$> at_StorageKeys a |}) <$> al.

(** The body of the inner transaction, with the given data. *)
Definition eth_body_from (data : bytes) (p : pb_Transaction) : eth_body :=
  {| e_Nonce := match tx_Nonce p with [] => 0%Z | n => big_Uint64 (big_SetBytes n) end;
     e_Gas := tx_MaxGas p;
     e_To := match tx_ToAddress p with [] => None | a => Some (BytesToAddress a) end;
     e_Value := big_SetBytes (tx_Amount p); e_Data := data;
     e_V := big_SetBytes (tx_V p); e_R := big_SetBytes (tx_R p); e_S := big_SetBytes (tx_S p) |}.

(** The switch of [ToEthTransaction] on the type; [None] is the nil transaction. *)
Definition eth_inner (data : bytes) (p : pb_Transaction) : option eth_tx :=
  if (tx_Type p =? LegacyTxType)%Z then Some (LegacyTx (tx_MaxGasPrice p) (eth_body_from data p))
  else if (tx_Type p =? AccessListTxType)%Z then
    if (tx_ChainID p =? 0)%Z || (tx_MaxGasPrice p =? 0)%Z then None
    else Some (AccessListTx (tx_ChainID p) (tx_MaxGasPrice p) (toEthAccessList (tx_AccessList p)) (eth_body_from data p))
  else if (tx_Type p =? DynamicFeeTxType)%Z then
    if (tx_ChainID p =? 0)%Z then None
    else match tx_GasTipCap p, tx_GasFeeCap p with
         | Some tip, Some cap => Some (DynamicFeeTx (tx_ChainID p) (big_SetBytes tip) (big_SetBytes cap)
                                         (toEthAccessList (tx_AccessList p)) (eth_body_from data p))
         | _, _ => None
         end
  else None.

Definition ToEthTransaction (t : Transaction) : outcome tx_error (option eth_tx) :=
  let data := if IsCallContract t then CallData_Input t else [] in
  if IsDeployContract t then
    match DeployData_Code t with Some code => Ok (eth_inner code (proto t)) | None => Panic end
  else Ok (eth_inner data (proto t)).

(** The signature [ToEthLegacyTx] takes from a 65-byte [Sign], or from R, S and V, if any. *)
Definition legacy_signature (p : pb_Transaction) : option (Z * Z * Z) :=
  if (length (tx_Sign p) =? 65)%nat then
    let r := big_SetBytes (take 32 (tx_Sign p)) in
    let s := big_SetBytes (take 32 (drop 32 (tx_Sign p))) in
    let vRaw := b2z (default x00 (tx_Sign p !! 64)) in
    let v := if (0 <? tx_ChainID p)%Z then (vRaw + (tx_ChainID p * 2 + 35))%Z else ((vRaw + 27) mod 256)%Z in
    Some (v, r, s)
  else if (0 <? length (tx_R p))%nat && (0 <? length (tx_S p))%nat && (0 <? length (tx_V p))%nat
  then Some (big_SetBytes (tx_V p), big_SetBytes (tx_R p), big_SetBytes (tx_S p))
  else None.

(** [ToEthLegacyTx]; an unsigned transaction has zero signature values. *)
Definition ToEthLegacyTx (p : pb_Transaction) : option eth_tx :=
  if negb (tx_Type p =? 0)%Z then None
  else
    let '(v, r, s) := default (0, 0, 0)%Z (legacy_signature p) in
    Some (LegacyTx (tx_MaxGasPrice p)
      {| e_Nonce := big_Uint64 (big_SetBytes (tx_Nonce p)); e_Gas := tx_MaxGas p;
         e_To := match tx_ToAddress p with [] => None | a => Some (BytesToAddress a) end;
         e_Value := big_SetBytes (tx_Amount p); e_Data := tx_Data p; e_V := v; e_R := r; e_S := s |}).

Definition ToEthEIP2930Tx (p : pb_Transaction) : option eth_tx :=
  if negb (tx_Type p =? AccessListTxType)%Z then None
  else if (tx_ChainID p =? 0)%Z || (tx_MaxGasPrice p =? 0)%Z then None
  else Some (AccessListTx (tx_ChainID p) (tx_MaxGasPrice p) (toEthAccessList (tx_AccessList p)) (eth_body_from (tx_Data p) p)).

Definition ToEthEIP1559Tx (p : pb_Transaction) : option eth_tx :=
  if negb (tx_Type p =? DynamicFeeTxType)%Z then None
  else if (tx_ChainID p =? 0)%Z then None
  else match tx_GasTipCap p, tx_GasFeeCap p with
       | Some tip, Some cap => Some (DynamicFeeTx (tx_ChainID p) (big_SetBytes tip) (big_SetBytes cap)
                                       (toEthAccessList (tx_AccessList p)) (eth_body_from (tx_Data p) p))
       | _, _ => None
       end.

(** ** Sender recovery *)

Definition eth_chain_id (t : eth_tx) : Z :=
  match t with
  | LegacyTx _ b => deriveChainId (e_V b)
  | AccessListTx c _ _ _ | DynamicFeeTx c _ _ _ _ | BlobTx c _ => c
  end.

Definition sender_signer (t : eth_tx) (chainID : Z) : option signer :=
  let c := eth_chain_id t in
  match t with
  | LegacyTx _ _ =>
    if (0 <? chainID)%Z && (c =? chainID)%Z then Some (EIP155Signer chainID)
    else if (c =? 0)%Z then Some HomesteadSigner else Some (EIP155Signer c)
  | AccessListTx _ _ _ _ | DynamicFeeTx _ _ _ _ _ => if (c <=? 0)%Z then None else Some (LondonSigner c)
  | BlobTx _ _ => if (c <=? 0)%Z then None else Some (CancunSigner c)
  end.

Definition DeriveSenderFromEthTransaction (t : eth_tx) (chainID : Z) : outcome tx_error bytes :=
  match sender_signer t chainID with
  | None => Fail ErrMissingChainID
  | Some sgn => match Sender sgn t with Some a => Ok a | None => Fail ErrSender end
  end.

Definition ValidEthSign (t : Transaction) : outcome tx_error bool :=
  match ToEthTransaction t with
  | Ok None => Ok false
  | Ok (Some e) =>
    match DeriveSenderFromEthTransaction e (tx_ChainID (proto t)) with
    | Ok from => Ok (bool_decide (from = FromAddress t))
    | _ => Ok false
    end
  | Fail e => Fail e
  | Panic => Panic
  | OutOfFuel => OutOfFuel
  end.

(** ** Validation *)

Definition MIN_TX_TIME : Z := 1.
Definition MAX_GROUP_TIME : Z := 9999999999999999999.
Definition TRANSFER_GAS_COST : Z := 20000.
Definition NATIVE_SMART_CONTRACT_REWARD_ADDRESS : bytes := zeros 19 ++ [x01].

Definition ValidSign (bPub : bytes) (t : Transaction) : bool * Transaction :=
  let '(h, t') := Hash t in (VerifySign bPub (Sign t) h, t').

Definition ValidChainID (chainId : Z) (t : Transaction) : bool := (tx_ChainID (proto t) =? chainId)%Z.

Definition ValidNonce (from : AccountState) (t : Transaction) : bool := (GetNonce t =? nonce from)%Z.

Definition ValidMinTimeUse (t : Transaction) : bool :=
  (MIN_TX_TIME <=? tx_MaxTimeUse (proto t))%Z && (tx_MaxTimeUse (proto t) <=? MAX_GROUP_TIME)%Z.

(** The registration transaction: nonce 0, the BLS key in the data, signed with both keys. *)
Definition ValidTx0 (from : AccountState) (chainId : string) (t : Transaction) : (bool * Z) * Transaction :=
  if (GetNonce t =? 0)%Z && (length (publicKeyBls from) =? 0)%nat then
    let dataInput := CallData_Input t in
    if negb (length dataInput =? 113)%nat then ((false, 35%Z), t)
    else
      let hash := Keccak256 (take 48 dataInput ++ str_bytes chainId) in
      let '(h, t') := Hash t in
      if negb (VerifySign (PubkeyFromBytes (take 48 dataInput)) (Sign t) h) then ((false, 36%Z), t')
      else
        match RecoverPubkey hash (drop 48 dataInput) with
        | None => ((false, 37%Z), t')
        | Some pb =>
          let addr := go_copy (zeros 20) (drop 12 (Keccak256 (drop 1 pb))) in
          if bool_decide (FromAddress t = ToAddress t) && bool_decide (addr = FromAddress t)
          then ((true, 0%Z), t') else ((false, 38%Z), t')
        end
  else if (GetNonce t =? 0)%Z && negb (length (publicKeyBls from) =? 0)%nat then ((false, 39%Z), t)
  else ((true, 0%Z), t).

Definition ValidDeviceKey (from : AccountState) (t : Transaction) : bool :=
  bool_decide (deviceKey from = zeros 32) || bool_decide (Keccak256 (LastDeviceKey t) = deviceKey from).

Definition ValidMaxGas (t : Transaction) : bool := (TRANSFER_GAS_COST <=? tx_MaxGas (proto t))%Z.

Definition ValidMaxGasPrice (currentGasPrice : Z) (t : Transaction) : bool :=
  if bool_decide (ToAddress t = NATIVE_SMART_CONTRACT_REWARD_ADDRESS) && IsCallContract t then true
  else (currentGasPrice <=? tx_MaxGasPrice (proto t))%Z.

Definition ValidAmountSpend (from : AccountState) (spendAmount : Z) (t : Transaction) : bool :=
  (spendAmount + Tx_Amount t <=? balance from + pendingBalance from)%Z.

Definition ValidMaxFee (from : AccountState) (t : Transaction) : bool := ValidAmountSpend from (MaxFee t) t.
Definition ValidAmount (from : AccountState) (t : Transaction) : bool := ValidAmountSpend from 0 t.

Definition ValidPendingUse (from : AccountState) (t : Transaction) : bool :=
  (pendingBalance from <=? pendingBalance from)%Z.

Definition ValidDeploySmartContractToAccount (from : AccountState) (t : Transaction) : bool :=
  bool_decide (CreateAddress (address from) (nonce from) = ToAddress t).
Definition ValidOpenChannelToAccount := ValidDeploySmartContractToAccount.

Definition ValidDeployData (t : Transaction) : outcome tx_error bool :=
  if IsDeployContract t then
    match DeployData_Code t with Some code => Ok (negb (length code =? 0)%nat) | None => Panic end
  else Ok true.

Definition ValidCallData (t : Transaction) : bool :=
  if IsCallContract t then negb (length (CallData_Input t) =? 0)%nat else true.

Definition ValidCallSmartContractToAccount (to : AccountState) (t : Transaction) : bool :=
  if IsCallContract t then bool_decide (is_Some (smartContractState to)) else true.

End FromEth.
