(* ===== verification/TransactionTheorems.v ===== *)
(** * Facts about transactions

    The round trip through Ethereum's types and over the wire, the hash caches, what a hash
    covers, and what the checks of a transaction guarantee. *)

From S2P Require Import Prelude Interfaces GoLib LevelDB AccountState Transaction.
From Stdlib Require Import Strings.Byte.

#[local] Arguments nil_if_empty : simpl never.
#[local] Arguments big_Bytes : simpl never.

(** The empty messages are the protobuf defaults. *)
Class TxLaws `{Proto TransactionHashData} `{Proto pb_CallData} `{Proto pb_DeployData} : Prop := {
  hash_laws : ProtoLaws TransactionHashData;
  call_laws : ProtoLaws pb_CallData;
  deploy_laws : ProtoLaws pb_DeployData;
  call_default : proto_default = {| cd_Input := [] |};
  deploy_default : proto_default = {| dd_Code := []; dd_StorageAddress := [] |};
}.
#[export] Existing Instances hash_laws call_laws deploy_laws.

Section Facts.
Context `{EthCommonLaws} `{EthAddressLaws} `{EthTypes} `{TxCrypto} `{TxCodecLaws} `{TxLaws}.

Implicit Types (t : Transaction) (p : pb_Transaction) (e : eth_tx) (b : eth_body).

(** ** Ethereum transactions that fit *)

Record body_ok b : Prop := {
  bo_nonce : (0 ≤ e_Nonce b < 2 ^ 64)%Z;
  bo_value : (0 ≤ e_Value b)%Z;
  bo_sig : (0 ≤ e_V b ∧ 0 ≤ e_R b ∧ 0 ≤ e_S b)%Z;
  bo_to a : e_To b = Some a → length a = 20 ∧ a ≠ zero_address;
}.

(** A contract creation does not use nonce 0. *)
Definition deploys_ok b : Prop := e_To b = None → e_Data b ≠ [] → e_Nonce b ≠ 0%Z.

Definition tuple_ok (a : AccessTuple) : Prop :=
  length (at_Address a) = 20 ∧ Forall (λ k, length k = 32) (at_StorageKeys a).

Definition eth_ok e : Prop :=
  body_ok (eth_body_of e) ∧
  match e with
  | LegacyTx g b => (0 ≤ g < 2 ^ 64)%Z ∧ (0 ≤ deriveChainId (e_V b) < 2 ^ 64)%Z
  | AccessListTx c g al _ => (0 < c < 2 ^ 64)%Z ∧ (0 < g < 2 ^ 64)%Z ∧ Forall tuple_ok al
  | DynamicFeeTx c tip cap al _ => (0 < c < 2 ^ 64)%Z ∧ (0 ≤ tip)%Z ∧ (0 ≤ cap)%Z ∧ Forall tuple_ok al
  | BlobTx _ _ => False
  end.

(** The signer the conversions choose. *)
Definition own_signer e : signer :=
  match e with
  | LegacyTx _ b => if negb (deriveChainId (e_V b) =? 0)%Z then EIP155Signer (deriveChainId (e_V b)) else HomesteadSigner
  | AccessListTx c _ _ _ | DynamicFeeTx c _ _ _ _ | BlobTx c _ => LondonSigner c
  end.

Lemma big_roundtrip z : (0 ≤ z)%Z → big_SetBytes (big_Bytes z) = z.
Proof. intros Hz. rewrite big_SetBytes_Bytes. lia. Qed.

Lemma big_Uint64_small z : (0 ≤ z < 2 ^ 64)%Z → big_Uint64 z = z.
Proof. intros Hz. unfold big_Uint64. rewrite Z.abs_eq by lia. by apply u64_small. Qed.

Lemma toEthAccessList_ok al : Forall tuple_ok al → toEthAccessList al = al.
Proof.
  intros Hal. unfold toEthAccessList. rewrite <- (list_fmap_id al) at 2. apply list_fmap_ext.
  intros i [a ks] Hi. rewrite Forall_lookup in Hal. destruct (Hal i _ Hi) as [Ha Hks]. simpl in *.
  rewrite BytesToAddress_20 by done. f_equal. rewrite <- (list_fmap_id ks) at 2. apply list_fmap_ext.
  intros j k Hj. simpl. rewrite Forall_lookup in Hks. by apply BytesToHash_32, (Hks j).
Qed.

(** The fields of a body survive; the data is what [data] says. *)
Lemma eth_body_from_ok p b data : body_ok b → data = e_Data b → tx_Nonce p = PutUint64 (e_Nonce b) →
  tx_MaxGas p = e_Gas b → tx_ToAddress p = default [] (e_To b) → tx_Amount p = big_Bytes (e_Value b) →
  tx_V p = big_Bytes (e_V b) → tx_R p = big_Bytes (e_R b) → tx_S p = big_Bytes (e_S b) → eth_body_from data p = b.
Proof.
  intros [Hn Hv (HV & HR & HS) Hto] -> En Eg Et Ea EV ER ES. unfold eth_body_from.
  rewrite En, Eg, Et, Ea, EV, ER, ES, !big_roundtrip by done.
  assert (big_SetBytes (PutUint64 (e_Nonce b)) = e_Nonce b) as Enb by (by apply be_bytes_value).
  assert (length (PutUint64 (e_Nonce b)) = 8) as Hlen by apply be_bytes_length.
  destruct (PutUint64 (e_Nonce b)) as [|x l]; [done|]. rewrite Enb, big_Uint64_small by done.
  assert (match default [] (e_To b) with [] => None | a => Some (BytesToAddress a) end = e_To b) as ->.
  { destruct (e_To b) as [a|] eqn:E; [|done]. destruct (Hto a eq_refl) as [Hl _]. simpl.
    destruct a; [done|]. by rewrite BytesToAddress_20. }
  by destruct b.
Qed.

Lemma GetNonce_ok p n : (0 ≤ n < 2 ^ 64)%Z → tx_Nonce p = PutUint64 n → GetNonce (TransactionFromProto p) = n.
Proof.
  intros Hn E. unfold GetNonce. simpl proto. rewrite E. unfold PutUint64 at 1. rewrite be_bytes_length.
  by rewrite Uint64_PutUint64.
Qed.

(** The data put into the message is taken out again. *)
Lemma ToEth_data p e from : body_ok (eth_body_of e) → deploys_ok (eth_body_of e) → length from = 20 → from ≠ zero_address →
  tx_FromAddress p = from → tx_Nonce p = PutUint64 (e_Nonce (eth_body_of e)) →
  tx_ToAddress p = default [] (e_To (eth_body_of e)) →
  tx_Data p = prepareTransactionSpecificData e deploy_storage_address →
  ToEthTransaction (TransactionFromProto p) = Ok (eth_inner (e_Data (eth_body_of e)) p).
Proof.
  intros Hb Hdep Hlen Hz Ef En Et Ed. set (b := eth_body_of e) in *. set (t := TransactionFromProto p).
  assert (GetNonce t = e_Nonce b) as EN by (apply GetNonce_ok; [apply Hb|done]).
  assert (FromAddress t = from) as EF by (unfold FromAddress; simpl; rewrite Ef; by apply BytesToAddress_20).
  assert (ToAddress t = default zero_address (e_To b)) as ET.
  { unfold ToAddress. simpl. rewrite Et. destruct (e_To b) as [a|] eqn:E; simpl; [|apply BytesToAddress_nil].
    by apply BytesToAddress_20, (bo_to _ Hb). }
  unfold ToEthTransaction, IsCallContract, IsDeployContract, DeployData_Code, CallData_Input.
  rewrite EN, EF, ET. simpl proto. rewrite Ed. unfold prepareTransactionSpecificData. fold b.
  destruct (e_Data b) as [|x d] eqn:Edata; [by rewrite !andb_false_r|]. destruct (e_To b) as [a|] eqn:Eto; simpl default.
  - destruct (bo_to _ Hb a Eto) as [_ Ha]. rewrite (bool_decide_false (a = zero_address)) by done. cbn [negb andb].
    rewrite andb_false_r. cbn [andb]. rewrite proto_roundtrip. cbn [cd_Input].
    set (m := {| cd_Input := x :: d |}).
    assert (proto_Marshal m ≠ []) as Hne by (apply proto_Marshal_nonempty; rewrite call_default; naive_solver).
    destruct (proto_Marshal m); done.
  - assert (e_Nonce b ≠ 0%Z) as Hn by (apply Hdep; [done|by rewrite Edata]).
    apply Z.eqb_neq in Hn. rewrite Hn, (bool_decide_true (zero_address = zero_address)), bool_decide_false by done.
    cbn [negb andb]. rewrite proto_roundtrip. cbn [fmap option_fmap option_map dd_Code].
    set (m := {| dd_Code := x :: d; dd_StorageAddress := _ |}).
    assert (proto_Marshal m ≠ []) as Hne by (apply proto_Marshal_nonempty; rewrite deploy_default; naive_solver).
    destruct (proto_Marshal m); done.
Qed.

Lemma nil_if_empty_pos z : (0 < z)%Z → nil_if_empty (Some (big_Bytes z)) = Some (big_Bytes z).
Proof.
  intros Hz. unfold nil_if_empty. destruct (big_Bytes z) as [|x l] eqn:E; [|done].
  pose proof (big_roundtrip z ltac:(lia)) as R. rewrite E in R. simpl in R. unfold big_SetBytes in R. simpl in R. lia.
Qed.

(** The message is the one of an Ethereum transaction. *)
Lemma inner_ok e from : eth_ok e → Sender (own_signer e) e = Some from →
  ∃ p, FromEthTransaction e empty_pb_Transaction = Ok p ∧ tx_FromAddress p = from ∧
    tx_Nonce p = PutUint64 (e_Nonce (eth_body_of e)) ∧ tx_ToAddress p = default [] (e_To (eth_body_of e)) ∧
    tx_Data p = prepareTransactionSpecificData e deploy_storage_address ∧ tx_ChainID p = eth_chain_id e ∧
    eth_inner (e_Data (eth_body_of e)) p = Some e ∧
    eth_inner (e_Data (eth_body_of e)) (after_wire p) =
      match e with DynamicFeeTx _ tip cap _ _ => if (tip =? 0)%Z || (cap =? 0)%Z then None else Some e | _ => Some e end.
Proof.
  intros [Hb He] Hs. destruct e as [g b|c g al b|c tip cap al b|c b]; [..|done]; simpl in Hb, Hs |- *.
  - destruct He as [Hg Hc]. rewrite Hs. eexists. split; [done|]. rewrite !big_Uint64_small by done.
    split_and!; try done; unfold eth_inner; simpl; do 2 f_equal; by apply eth_body_from_ok.
  - destruct He as (Hc & Hg & Hal). rewrite Hs. eexists. split; [done|]. rewrite !big_Uint64_small by lia.
    split_and!; try done; unfold eth_inner; simpl; (rewrite (proj2 (Z.eqb_neq c 0)), (proj2 (Z.eqb_neq g 0)) by lia);
      simpl; rewrite toEthAccessList_ok by done; do 2 f_equal; by apply eth_body_from_ok.
  - destruct He as (Hc & Ht & Hcap & Hal). rewrite Hs. eexists. split; [done|]. rewrite !big_Uint64_small by lia.
    split_and!; try done; unfold eth_inner; simpl; (rewrite (proj2 (Z.eqb_neq c 0)) by lia); simpl.
    + rewrite toEthAccessList_ok, !big_roundtrip by done. do 2 f_equal. by apply eth_body_from_ok.
    + destruct (Z.eqb_spec tip 0) as [->|Htip]; [done|]. destruct (Z.eqb_spec cap 0) as [->|Hcap'].
      { by destruct (nil_if_empty (Some (big_Bytes tip))). }
      rewrite !nil_if_empty_pos by lia. rewrite toEthAccessList_ok, !big_roundtrip by done. simpl. do 2 f_equal.
      by apply eth_body_from_ok.
Qed.

(** ** Round trips *)

Lemma own_signer_ok e : eth_ok e → sender_signer e (eth_chain_id e) = Some (own_signer e).
Proof.
  intros [_ He]. destruct e as [g b|c g al b|c tip cap al b|c b]; simpl in He |- *; [..|done].
  - destruct He as [_ Hc]. unfold sender_signer. simpl. rewrite Z.eqb_refl.
    destruct (Z.ltb_spec 0 (deriveChainId (e_V b))) as [Hlt|Hge]; cbn [andb].
    + by rewrite (proj2 (Z.eqb_neq _ _)) by lia.
    + by replace (deriveChainId (e_V b)) with 0%Z by lia.
  - unfold sender_signer. simpl. by rewrite (proj2 (Z.leb_gt _ _)) by lia.
  - unfold sender_signer. simpl. by rewrite (proj2 (Z.leb_gt _ _)) by lia.
Qed.

Lemma valid_sign_ok t e from : eth_ok e → Sender (own_signer e) e = Some from → FromAddress t = from →
  tx_ChainID (proto t) = eth_chain_id e → ToEthTransaction t = Ok (Some e) → ValidEthSign t = Ok true.
Proof.
  intros He Hs Hf Hc Ht. unfold ValidEthSign, DeriveSenderFromEthTransaction.
  rewrite Ht, Hc, own_signer_ok, Hs, Hf by done. by rewrite bool_decide_true.
Qed.



(** A contract creation with nonce 0 does not survive: it is not recognised as a creation, and the
    transaction whose sender is recovered has no code. *)
Theorem creation_at_nonce_zero g b from : eth_ok (LegacyTx g b) → e_To b = None → e_Data b ≠ [] → e_Nonce b = 0%Z →
  Sender (own_signer (LegacyTx g b)) (LegacyTx g b) = Some from →
  ∃ t, NewTransactionFromEth (LegacyTx g b) = Ok t ∧
    ToEthTransaction t = Ok (Some (LegacyTx g (Build_eth_body 0 (e_Gas b) None (e_Value b) [] (e_V b) (e_R b) (e_S b)))).
Proof.
  intros He Hto Hd Hn Hs. destruct (inner_ok _ from He Hs) as (p & Ep & Ef & En & Et & Ed & Ec & Ei & _).
  exists (TransactionFromProto p). unfold NewTransactionFromEth. rewrite Ep. split; [done|].
  simpl eth_body_of in *. rewrite Hn in En. rewrite Hto in Et.
  unfold ToEthTransaction, IsDeployContract, IsCallContract.
  rewrite (GetNonce_ok p 0) by done. cbn [Z.eqb negb andb]. unfold ToAddress. simpl proto. rewrite Et. simpl default.
  rewrite BytesToAddress_nil, (bool_decide_true (zeros 20 = zero_address)) by done. cbn [negb andb].
  unfold eth_inner in *. destruct (tx_Type p =? LegacyTxType)%Z; [|by repeat case_match; simplify_eq].
  injection Ei as Eg Eb. rewrite Eg. do 3 f_equal. rewrite <- Eb. unfold eth_body_from. simpl. by rewrite En, Et.
Qed.

(** ** Hash caches *)

(** A cached hash is the hash of the message. *)
Definition coherent t : Prop :=
  (cachedHash t = None ∨ cachedHash t = Some (hash_of (proto t))) ∧
  (cachedRHash t = None ∨ cachedRHash t = Some (rhash_of (proto t))).

Lemma coherent_clear t : coherent (ClearCacheHash t).
Proof. by split; left. Qed.

Lemma coherent_change f t : hash_of (f (proto t)) = hash_of (proto t) → rhash_of (f (proto t)) = rhash_of (proto t) →
  coherent t → coherent (change f t).
Proof. intros E1 E2 [Hh Hr]. split; simpl; by rewrite ?E1, ?E2. Qed.

(** The hashes are those of the current message, and every operation that changes a hashed field
    through a clearing setter, or a field outside the hash, keeps the caches correct. *)
Theorem tx_hash_cache t a l sg n g ro c v r sv : coherent t →
  fst (Hash t) = hash_of (proto t) ∧ fst (RHash t) = rhash_of (proto t) ∧
  Forall coherent [snd (Hash t); snd (RHash t); SetReadOnly ro t; SetMaxGasPrice g t; Tx_SetNonce n t;
    SetFromAddress a t; SetToAddress a t; SetSignatureValues c v r sv t; UpdateRelatedAddresses l t;
    AddRelatedAddress a t; SetSignBytes sg t; CopyTransaction t; SetSign sg t].
Proof.
  intros [Hh Hr]. split_and!.
  - unfold Hash. destruct Hh as [->| ->]; done.
  - unfold RHash. destruct Hr as [->| ->]; done.
  - repeat (apply Forall_cons; split); [..|by apply Forall_nil].
    + unfold Hash. destruct Hh as [E|E]; rewrite E; [|by split; auto]. split; [by right|done].
    + unfold RHash. destruct Hr as [E|E]; rewrite E; [|by split; auto]. split; [done|by right].
    + apply coherent_clear.
    + apply coherent_clear.
    + apply coherent_clear.
    + apply coherent_clear.
    + apply coherent_clear.
    + apply coherent_clear.
    + by apply coherent_change.
    + unfold AddRelatedAddress. case_decide; [done|by apply coherent_change].
    + by apply coherent_change.
    + by split; left.
    + unfold SetSign, Hash. destruct Hh as [E|E]; rewrite E; apply coherent_change; try done; split; auto.
Qed.

(** [UpdateDeriver] and [Unmarshal] replace hashed fields without clearing the caches: a hash taken
    before is returned afterwards although the hashed data has changed. *)
Theorem stale_hash t p lastKey newKey : coherent t → lastKey ≠ tx_LastDeviceKey (proto t) →
  let t1 := UpdateDeriver lastKey newKey (snd (Hash t)) in
  let t2 := snd (Transaction_Unmarshal (tx_Marshal p) (snd (Hash t))) in
  (fst (Hash t1) = hash_of (proto t) ∧ hash_data (tx_Nonce (proto t1)) (proto t1) ≠ hash_data (tx_Nonce (proto t)) (proto t)) ∧
  (fst (Hash t2) = hash_of (proto t) ∧ proto t2 = after_wire p).
Proof.
  intros [Hh Hr] Hk t1 t2. assert (proto (snd (Hash t)) = proto t ∧ cachedHash (snd (Hash t)) = Some (hash_of (proto t))) as [Ep Ec].
  { unfold Hash. destruct Hh as [E|E]; rewrite E; by split. }
  unfold t1, t2, Transaction_Unmarshal. rewrite tx_wire. cbn [snd]. split_and!.
  - unfold Hash at 1. simpl. by rewrite Ec.
  - simpl. rewrite Ep. unfold hash_data, put_device_keys. simpl. intros E. injection E. done.
  - unfold Hash at 1. simpl. by rewrite Ec.
  - done.
Qed.

(** A hash identifies every hashed field unless Keccak-256 collides; it does not cover the
    read-only flag, the related addresses and the signature, and [RHash] leaves out the nonce. *)
Theorem tx_hash_covers p p' ro l sg n :
  (hash_of p = hash_of p' → hash_data (tx_Nonce p) p = hash_data (tx_Nonce p') p' ∨
     ∃ x y, x ≠ y ∧ Keccak256 x = Keccak256 y) ∧
  hash_of (put_read_only ro p) = hash_of p ∧ hash_of (put_related l p) = hash_of p ∧
  hash_of (put_sign sg p) = hash_of p ∧ rhash_of (put_nonce n p) = rhash_of p.
Proof.
  split_and!; [|done..]. intros E.
  destruct (decide (proto_Marshal (hash_data (tx_Nonce p) p) = proto_Marshal (hash_data (tx_Nonce p') p'))) as [Em|Hm].
  - left. by apply (inj proto_Marshal).
  - right. by exists (proto_Marshal (hash_data (tx_Nonce p) p)), (proto_Marshal (hash_data (tx_Nonce p') p')).
Qed.

(** ** Checks *)

(** The fee check accepts a transaction exactly when the account can be debited the maximal fee plus
    the amount, and that debit leaves no negative balance. *)
Theorem max_fee_check from t : ValidMaxFee from t = true ↔
  ∃ from', SubTotalBalance (MaxFee t + Tx_Amount t) from = (Ok tt, from') ∧
    (0 ≤ balance from')%Z ∧ pendingBalance from' = 0%Z.
Proof.
  unfold ValidMaxFee, ValidAmountSpend, SubTotalBalance. rewrite Z.leb_le. cbv zeta. split.
  - intros Hle. rewrite (proj2 (Z.ltb_ge _ _)) by lia. eexists. split; [done|]. simpl. split; [lia|done].
  - intros (from' & E & _). destruct (Z.ltb_spec (pendingBalance from + balance from) (MaxFee t + Tx_Amount t)); [done|lia].
Qed.

(** A registration (nonce 0) that passes [ValidTx0] comes from an account without a BLS key, carries a
    key whose BLS signature over the transaction verifies and an ECDSA signature that recovers to the
    sending address, which is also the destination; the key is then accepted by the account. *)
Theorem valid_tx0_sound from chainId t : fst (ValidTx0 from chainId t) = (true, 0%Z) → GetNonce t = 0%Z →
  let input := CallData_Input t in
  publicKeyBls from = [] ∧ length input = 113 ∧
  VerifySign (take 48 input) (Sign t) (fst (Hash t)) = true ∧
  (∃ pk, RecoverPubkey (Keccak256 (take 48 input ++ str_bytes chainId)) (drop 48 input) = Some pk ∧
     drop 12 (Keccak256 (drop 1 pk)) = FromAddress t) ∧
  FromAddress t = ToAddress t ∧
  SetPublicKeyBls (take 48 input) from = (Ok tt, set_key (take 48 input) from).
Proof.
  intros Hv Hn input. unfold ValidTx0 in Hv. rewrite Hn in Hv. cbn [Z.eqb andb] in Hv. fold input in Hv.
  destruct (publicKeyBls from) as [|k ks] eqn:Ek; simpl in Hv; [|done].
  destruct (Nat.eqb_spec (length input) 113) as [Hlen|]; simpl in Hv; [|done].
  assert (length (take 48 input) = 48) as H48 by (rewrite length_take; lia).
  assert (PubkeyFromBytes (take 48 input) = take 48 input) as Epk.
  { unfold PubkeyFromBytes. rewrite H48, take_ge, app_nil_r by lia. done. }
  destruct (Hash t) as [h t'] eqn:Eh. rewrite Epk in Hv.
  destruct (VerifySign (take 48 input) (Sign t) h) eqn:Ev; simpl in Hv; [|done].
  destruct (RecoverPubkey _ _) as [pk|] eqn:Er; [|done].
  assert (length (drop 12 (Keccak256 (drop 1 pk))) = 20) as H20 by (rewrite length_drop, Keccak256_length; lia).
  rewrite go_copy_full in Hv by (unfold zeros; rewrite length_replicate; lia).
  destruct (bool_decide (FromAddress t = ToAddress t)) eqn:E1; simpl in Hv; [|done].
  destruct (bool_decide (drop 12 _ = FromAddress t)) eqn:E2; simpl in Hv; [|done].
  apply bool_decide_eq_true in E1, E2. split_and!; try done; [by exists pk|].
  unfold SetPublicKeyBls. rewrite H48, Ek. done.
Qed.

(** A creation whose data is not a [DeployData] message makes every check that looks at the code
    dereference a nil pointer. *)
Theorem bad_deploy_data_panics t : IsDeployContract t = true →
  (proto_Unmarshal (tx_Data (proto t)) : option pb_DeployData) = None →
  ValidDeployData t = Panic ∧ ToEthTransaction t = Panic ∧ ValidEthSign t = Panic ∧ GetData t = Panic.
Proof.
  intros Hd Hn. assert (DeployData_Code t = None) as E by (unfold DeployData_Code; by rewrite Hn).
  assert (ToEthTransaction t = Panic) as Et by (unfold ToEthTransaction; by rewrite Hd, E).
  split_and!; [unfold ValidDeployData; by rewrite Hd, E|done|unfold ValidEthSign; by rewrite Et|].
  unfold GetData. rewrite Hd, E. unfold IsDeployContract in Hd. unfold IsCallContract.
  destruct (bool_decide (ToAddress t = zero_address)); [done|]. by rewrite andb_false_r in Hd.
Qed.

(** The fee in [Fee] is negative for gas limits beyond the signed range. *)
Theorem fee_can_be_negative price t : (2 ^ 63 ≤ tx_MaxGas (proto t) < 2 ^ 64)%Z → (0 < price < 2 ^ 63)%Z →
  (0 ≤ tx_MaxTimeUse (proto t) < 2 ^ 63)%Z → (Fee price t < 0)%Z.
Proof.
  intros Hg Hp Ht. unfold Fee. rewrite (i64_small price) by lia.
  assert (0 ≤ tx_MaxTimeUse (proto t) / 1000 < 2 ^ 62)%Z as Hd by zlia.
  rewrite u64_small, (i64_small (_ + 1)) by lia.
  assert (i64 (tx_MaxGas (proto t)) = tx_MaxGas (proto t) - 2 ^ 64)%Z as -> by (unfold i64; zlia). nia.
Qed.

End Facts.

(** ** The theorems at concrete transactions *)

Module ToyTx.
Export ToyCrypto ToyAddress ToyProto.

#[export] Instance ser_flag : Ser bool :=
  ser_iso (λ b : bool, if b then 1%Z else 0%Z) (λ z, (z =? 1)%Z) ltac:(by intros []).
#[export] Instance ser_opt : Ser (option bytes) :=
  ser_iso (λ o : option bytes, match o with Some a => [a] | None => [] end) head ltac:(by intros []).
#[export] Instance tuple_ser : Ser AccessTuple :=
  ser_iso (λ a, (at_Address a, at_StorageKeys a)) (λ '(a, k), Build_AccessTuple a k) ltac:(by intros []).
#[export] Instance tx_ser : Ser pb_Transaction :=
  ser_iso (λ p, (tx_FromAddress p, tx_ToAddress p, tx_Amount p, tx_MaxGas p, tx_MaxGasPrice p, tx_MaxTimeUse p, tx_Data p,
                 tx_RelatedAddresses p, tx_LastDeviceKey p, tx_NewDeviceKey p, tx_Sign p, tx_Nonce p, tx_ReadOnly p,
                 tx_ChainID p, tx_Type p, tx_R p, tx_S p, tx_V p, tx_GasTipCap p, tx_GasFeeCap p, tx_AccessList p))
    (λ '(a, b, c, d, e, f, g, h, i, j, k, l, m, n, o, p, q, r, s, t, u),
      Build_pb_Transaction a b c d e f g h i j k l m n o p q r s t u) ltac:(by intros []).
#[export] Instance hash_ser : Ser TransactionHashData :=
  ser_iso (λ p, (hd_FromAddress p, hd_ToAddress p, hd_Amount p, hd_MaxGas p, hd_MaxGasPrice p, hd_MaxTimeUse p, hd_Data p,
                 hd_Type p, hd_LastDeviceKey p, hd_NewDeviceKey p, hd_Nonce p, hd_ChainID p, hd_R p, hd_S p, hd_V p,
                 hd_GasTipCap p, hd_GasFeeCap p, hd_AccessList p))
    (λ '(a, b, c, d, e, f, g, h, i, j, k, l, m, n, o, p, q, r),
      Build_TransactionHashData a b c d e f g h i j k l m n o p q r) ltac:(by intros []).
#[export] Instance call_ser : Ser pb_CallData := ser_iso cd_Input Build_pb_CallData ltac:(by intros []).
#[export] Instance deploy_ser : Ser pb_DeployData :=
  ser_iso (λ d, (dd_Code d, dd_StorageAddress d)) (λ '(a, b), Build_pb_DeployData a b) ltac:(by intros []).

#[export] Instance tuple_eq_dec : EqDecision AccessTuple.
Proof. solve_decision. Defined.
#[export] Instance hash_eq_dec : EqDecision TransactionHashData.
Proof. solve_decision. Defined.
#[export] Instance call_eq_dec : EqDecision pb_CallData.
Proof. solve_decision. Defined.
#[export] Instance deploy_eq_dec : EqDecision pb_DeployData.
Proof. solve_decision. Defined.

#[export] Instance hash_proto : Proto TransactionHashData :=
  toy_proto (Build_TransactionHashData [] [] [] 0 0 0 [] 0 [] [] [] 0 [] [] [] [] [] []).
#[export] Instance call_proto : Proto pb_CallData := toy_proto {| cd_Input := [] |}.
#[export] Instance deploy_proto : Proto pb_DeployData := toy_proto {| dd_Code := []; dd_StorageAddress := [] |}.
#[export] Instance toy_tx_laws : TxLaws.
Proof. split; [apply toy_proto_laws..|done|done]. Qed.

Lemma deser_all `{Ser T} (x : T) : fst <$> deser (ser x) = Some x.
Proof. pose proof (deser_ser x []) as E. rewrite app_nil_r in E. by rewrite E. Qed.

#[export] Instance toy_codec : TxCodec := {|
  tx_Marshal p := ser (after_wire p);
  tx_Unmarshal b := fst <$> deser b;
|}.
#[export] Instance toy_codec_laws : TxCodecLaws.
Proof. split. intros p. exact (deser_all (after_wire p)). Qed.

Definition toy_pubkey : bytes := x04 :: zeros 64.
Definition toy_sender : bytes := drop 12 (Keccak256 (drop 1 toy_pubkey)).

#[export] Instance toy_eth_types : EthTypes := {|
  deriveChainId v := if ((v =? 27) || (v =? 28))%Z then 0%Z else ((v - 35) / 2)%Z;
  Sender _ _ := Some toy_sender;
  CreateAddress a n := a;
|}.
#[export] Instance toy_tx_crypto : TxCrypto := {|
  VerifySign _ _ _ := true;
  BlsSign k h := k ++ h;
  RecoverPubkey _ _ := Some toy_pubkey;
|}.

Definition dest : bytes := zeros 19 ++ [x09].
Definition call_body : eth_body := Build_eth_body 7 21000 (Some dest) 5 [x01; x02] 1 11 12.
Definition create_body : eth_body := Build_eth_body 0 21000 None 0 [x60; x01] 27 11 12.

Lemma call_body_ok : body_ok call_body.
Proof. split; simpl; [lia|lia|lia|]. intros a [= <-]. split; [done|]. by apply (bool_decide_unpack _). Qed.

Lemma create_body_ok : body_ok create_body.
Proof. split; simpl; [lia|lia|lia|done]. Qed.

Definition dynamic (tip : Z) : eth_tx := DynamicFeeTx 991 tip 30 [Build_AccessTuple dest [zeros 32]] call_body.

Lemma dynamic_ok tip : (0 ≤ tip)%Z → eth_ok (dynamic tip).
Proof.
  intros Ht. split; [exact call_body_ok|]. simpl. split_and!; try lia. apply Forall_singleton.
  split; [done|]. by apply Forall_singleton.
Qed.

Lemma call_deploys : deploys_ok call_body.
Proof. by intros [=]. Qed.

Lemma sender_nonzero : toy_sender ≠ zero_address.
Proof. apply (bool_decide_unpack _). vm_compute. exact I. Qed.

(** A registration transaction and a signed one. *)
Definition register : Transaction :=
  NewTransaction toy_sender toy_sender 0 21000 1 1 (proto_Marshal {| cd_Input := zeros 113 |}) [] [] [] 0 991.
Definition deploying : Transaction :=
  NewTransaction toy_sender zero_address 0 21000 1 1 [x02; x01] [] [] [] 3 991.

Lemma register_coherent : coherent register.
Proof. by split; left. Qed.

End ToyTx.

Import ToyTx.



Lemma creation_at_nonce_zero_witness : ∃ t, NewTransactionFromEth (LegacyTx 1 create_body) = Ok t ∧
  ToEthTransaction t = Ok (Some (LegacyTx 1 (Build_eth_body 0 21000 None 0 [] 27 11 12))).
Proof.
  apply (creation_at_nonce_zero 1 create_body toy_sender); [|done..].
  split; [exact create_body_ok|]. by simpl.
Defined.

Lemma tx_hash_cache_witness : coherent (Tx_SetNonce 4 register).
Proof.
  destruct (tx_hash_cache register [] [] [] 4 0 false 0 0 0 0 register_coherent) as (_ & _ & Hf).
  rewrite Forall_forall in Hf. apply Hf. do 4 right. left.
Defined.

Lemma stale_hash_witness : let t1 := UpdateDeriver [x01] [x02] (snd (Hash register)) in
  fst (Hash t1) = hash_of (proto register).
Proof. refine (proj1 (proj1 (stale_hash register empty_pb_Transaction [x01] [x02] register_coherent _))). done. Defined.

Lemma valid_tx0_sound_witness : FromAddress register = ToAddress register.
Proof.
  refine (proj1 (proj2 (proj2 (proj2 (proj2 (valid_tx0_sound empty_account "991" register _ _)))))); by vm_compute.
Defined.

Lemma bad_deploy_data_panics_witness : ValidDeployData deploying = Panic.
Proof. refine (proj1 (bad_deploy_data_panics deploying _ _)); by vm_compute. Defined.

Lemma fee_can_be_negative_witness : (Fee 1 (NewTransaction [] [] 0 (2 ^ 63) 1 1 [] [] [] [] 0 0) < 0)%Z.
Proof. apply (fee_can_be_negative 1 (NewTransaction [] [] 0 (2 ^ 63) 1 1 [] [] [] [] 0 0)); simpl; lia. Defined.

Lemma tx_hash_covers_witness :
  hash_data (tx_Nonce (proto register)) (proto register) =
    hash_data (tx_Nonce (put_read_only true (proto register))) (put_read_only true (proto register)) ∨
  ∃ x y, x ≠ y ∧ Keccak256 x = Keccak256 y.
Proof. exact (proj1 (tx_hash_covers (proto register) (put_read_only true (proto register)) true [] [] []) eq_refl). Defined.
