(* ===== verification/Bls.v ===== *)
(** * BLS signatures ([pkg/bls/bls.go], [key_pair.go], [pkg/transaction/verify_transaction_sign.go])

    The wrapper around the blst library: which keys it accepts, signing, verification, aggregation, key
    pairs, and the request to verify the signature of a transaction.  blst is a parameter; [bls_crypto]
    makes of this package the signatures that transactions use. *)

From S2P Require Import Prelude Interfaces GoLib LevelDB HexCodec AccountState Transaction TransactionTheorems.
From Stdlib Require Import Strings.Byte Eqdep_dec.

(** The order of the group of BLS12-381. *)
Definition blsCurveOrder : Z := 0x73eda753299d7d483339d80809a1d80553bda402fffe5bfeffffffff00000001.

Definition dstMinPk : bytes := str_bytes "BLS_SIG_BLS12381G2_XMD:SHA-256_SSWU_RO_POP_".

Definition ValidateBlsPrivateKey (keyBytes : bytes) : bool :=
  if negb (length keyBytes =? 32)%nat then false
  else if forallb (λ b, bool_decide (b = x00)) keyBytes then false
  else (big_SetBytes keyBytes <? blsCurveOrder)%Z.

(** ** blst *)

Class Blst (SK : Type) := {
  sk_Deserialize : bytes → option SK;
  sk_Serialize : SK → bytes;
  blst_KeyGen : bytes → SK;
  pk_Compress : SK → bytes;                                     (** [new(P1Affine).From(sec).Compress()] *)
  blst_Sign : SK → bytes → bytes → bytes;                        (** [Sign(sk, msg, dst).Compress()] *)
  VerifyCompressed : bytes → bytes → bytes → bytes → bool;       (** signature, public key, message, dst *)
  AggregateVerifyCompressed : bytes → list bytes → list bytes → bytes → bool;
  AggregateCompressed : list bytes → bool * bytes;               (** success, and the aggregate compressed *)
}.

(** A scalar is accepted when it is 32 bytes, not zero and below the order; points have fixed sizes; what
    a key signs verifies under its public key, alone and aggregated. *)
Class BlstLaws (SK : Type) `{Blst SK} : Prop := {
  deserialize_valid b : is_Some (sk_Deserialize b) ↔ ValidateBlsPrivateKey b = true;
  serialize_deserialize b sk : sk_Deserialize b = Some sk → sk_Serialize sk = b;
  deserialize_serialize sk : sk_Deserialize (sk_Serialize sk) = Some sk;
  pk_length sk : length (pk_Compress sk) = 48;
  sign_length sk m d : length (blst_Sign sk m d) = 96;
  sign_verifies sk m d : VerifyCompressed (blst_Sign sk m d) (pk_Compress sk) m d = true;
  aggregate_verifies (l : list (SK * bytes)) d : l ≠ [] →
    AggregateVerifyCompressed (AggregateCompressed ((λ '(sk, m), blst_Sign sk m d) <$> l)).2 (pk_Compress ∘ fst <$> l) l.*2 d = true;
}.

(** ** The fixed-size types of [pkg/common/common.go] *)

Definition SignFromBytes (b : bytes) : bytes := go_copy (zeros 96) b.
Definition PrivateKeyFromBytes (b : bytes) : bytes := go_copy (zeros 32) b.

Record KeyPair := { publicKey : bytes; privateKey : bytes; kp_address : bytes }.

Section Bls.
Context `{EthCommon} `{EthAddress} `{Blst SK}.

(** [Sign] returns the zero signature for a key that does not validate; a key that validates is never
    rejected by blst. *)
Definition Sign (bPri bMessage : bytes) : bytes :=
  if negb (ValidateBlsPrivateKey bPri) then zeros 96
  else match sk_Deserialize bPri with
       | Some sk => SignFromBytes (blst_Sign sk bMessage dstMinPk)
       | None => zeros 96
       end.

Definition VerifySign (bPub bSig bMsg : bytes) : bool := VerifyCompressed bSig bPub bMsg dstMinPk.

Definition GetByteAddress (pubkey : bytes) : bytes := drop 12 (Keccak256 pubkey).

Definition AddressFromPubkey (pk : bytes) : bytes := BytesToAddress (drop 12 (Keccak256 pk)).

Definition GetAddressFromPublicKey (pubKey : bytes) : bytes :=
  if (length pubKey =? 0)%nat then zero_address else BytesToAddress (drop 12 (Keccak256 pubKey)).

Definition NewKeyPair (private : bytes) : option KeyPair :=
  sec ← sk_Deserialize private;
  let pub := pk_Compress sec in
  Some {| privateKey := PrivateKeyFromBytes (sk_Serialize sec); publicKey := PubkeyFromBytes pub;
          kp_address := BytesToAddress (drop 12 (Keccak256 pub)) |}.

(** [GenerateKeyPair], from the random bytes it read. *)
Definition GenerateKeyPair (random : bytes) : option KeyPair := NewKeyPair (sk_Serialize (blst_KeyGen random)).

Definition GenerateKeyPairFromSecretKey (hexSecretKey : string) : bytes * bytes * bytes :=
  match hex_DecodeString hexSecretKey with
  | None => (zeros 32, zeros 48, zero_address)
  | Some secByte =>
      if negb (length secByte =? 32)%nat then (zeros 32, zeros 48, zero_address)
      else if negb (ValidateBlsPrivateKey secByte) then (zeros 32, zeros 48, zero_address)
      else match sk_Deserialize secByte with
           | Some sec => let pk := pk_Compress sec in
               (PrivateKeyFromBytes (sk_Serialize sec), PubkeyFromBytes pk, BytesToAddress (drop 12 (Keccak256 pk)))
           | None => (zeros 32, zeros 48, zero_address)
           end
  end.

Definition VerifyAggregateSign (bPubs : list bytes) (bSig : bytes) (bMsgs : list bytes) : bool :=
  AggregateVerifyCompressed bSig bPubs bMsgs dstMinPk.

(** Whether blst accepted the signatures is not looked at. *)
Definition CreateAggregateSign (bSignatures : list bytes) : bytes := (AggregateCompressed bSignatures).2.

(** The signatures of transactions, with secp256k1's recovery beside them. *)
Definition bls_crypto (recover : bytes → bytes → option bytes) : TxCrypto :=
  {| Transaction.VerifySign := VerifySign; BlsSign := Sign; RecoverPubkey := recover |}.

End Bls.

(** ** Requests to verify a signature *)

Record pb_VerifyTransactionSignRequest := { vr_Hash : bytes; vr_Pubkey : bytes; vr_Sign : bytes }.
Record pb_VerifyTransactionSignResult := { vs_Hash : bytes; vs_Valid : bool }.

Section Verify.
Context `{EthCommon} `{Blst SK} `{Proto pb_VerifyTransactionSignRequest} `{Proto pb_VerifyTransactionSignResult}.

Definition NewVerifyTransactionRequest (transactionHash senderPubkey senderSign : bytes) : pb_VerifyTransactionSignRequest :=
  {| vr_Hash := transactionHash; vr_Pubkey := senderPubkey; vr_Sign := senderSign |}.

(** A body that does not decode leaves the request as it was. *)
Definition Request_Unmarshal (b : bytes) : comp pb_VerifyTransactionSignRequest unit unit :=
  λ r, match proto_Unmarshal b with Some r' => (Ok tt, r') | None => (Fail tt, r) end.

Definition TransactionHash (r : pb_VerifyTransactionSignRequest) : bytes := BytesToHash (vr_Hash r).
Definition SenderPublicKey (r : pb_VerifyTransactionSignRequest) : bytes := PubkeyFromBytes (vr_Pubkey r).
Definition SenderSign (r : pb_VerifyTransactionSignRequest) : bytes := SignFromBytes (vr_Sign r).

Definition Request_Valid (r : pb_VerifyTransactionSignRequest) : bool :=
  VerifySign (SenderPublicKey r) (SenderSign r) (TransactionHash r).

Definition NewVerifyTransactionResult (transactionHash : bytes) (valid : bool) : pb_VerifyTransactionSignResult :=
  {| vs_Hash := transactionHash; vs_Valid := valid |}.

Definition Result_Unmarshal (b : bytes) : comp pb_VerifyTransactionSignResult unit unit :=
  λ r, match proto_Unmarshal b with Some r' => (Ok tt, r') | None => (Fail tt, r) end.

Definition Result_TransactionHash (r : pb_VerifyTransactionSignResult) : bytes := BytesToHash (vs_Hash r).

End Verify.

(** ** Facts *)

Lemma SignFromBytes_96 b : length b = 96 → SignFromBytes b = b.
Proof. intros Hb. apply go_copy_full. by rewrite Hb. Qed.

Lemma PrivateKeyFromBytes_32 b : length b = 32 → PrivateKeyFromBytes b = b.
Proof. intros Hb. apply go_copy_full. by rewrite Hb. Qed.

Lemma valid_key_32 b : ValidateBlsPrivateKey b = true → length b = 32.
Proof. unfold ValidateBlsPrivateKey. destruct (Nat.eqb_spec (length b) 32); [done|]. by simpl. Qed.

Section Facts.
Context `{EthCommonLaws} `{EthAddressLaws} `{BlstLaws SK}.

Lemma serialize_valid (sk : SK) : ValidateBlsPrivateKey (sk_Serialize sk) = true.
Proof. apply deserialize_valid. eexists. apply deserialize_serialize. Qed.

(** A key pair is exactly a key that validates, with its public key. *)
Lemma NewKeyPair_some private kp : NewKeyPair private = Some kp ↔ ∃ sk, sk_Deserialize private = Some sk ∧
  kp = {| privateKey := private; publicKey := pk_Compress sk; kp_address := AddressFromPubkey (pk_Compress sk) |}.
Proof.
  assert (Hk : ∀ sk, sk_Deserialize private = Some sk → NewKeyPair private =
    Some {| privateKey := private; publicKey := pk_Compress sk; kp_address := AddressFromPubkey (pk_Compress sk) |}).
  { intros sk E. unfold NewKeyPair. rewrite E. simpl. rewrite PubkeyFromBytes_48 by apply pk_length.
    rewrite (serialize_deserialize private sk E), PrivateKeyFromBytes_32; [done|].
    apply valid_key_32, deserialize_valid. eauto. }
  split.
  - intros E. destruct (sk_Deserialize private) as [sk|] eqn:D; [|unfold NewKeyPair in E; by rewrite D in E].
    rewrite (Hk sk eq_refl) in E. injection E as <-. by exists sk.
  - intros (sk & D & ->). by apply Hk.
Qed.

Lemma Sign_valid private sk m : sk_Deserialize private = Some sk → Sign private m = blst_Sign sk m dstMinPk.
Proof.
  intros D. unfold Sign. rewrite D, SignFromBytes_96 by apply sign_length.
  by replace (ValidateBlsPrivateKey private) with true by (symmetry; apply deserialize_valid; eauto).
Qed.

Lemma Sign_length private m : length (Sign private m) = 96.
Proof. unfold Sign. repeat case_match; simpl; try done. by rewrite SignFromBytes_96; apply sign_length. Qed.

Lemma pair_signs private kp m : NewKeyPair private = Some kp → VerifySign (publicKey kp) (Sign (privateKey kp) m) m = true.
Proof.
  intros (sk & D & ->)%NewKeyPair_some. simpl. rewrite (Sign_valid private sk m D). apply sign_verifies.
Qed.

End Facts.

(** ** Theorems *)

Section Theorems.
Context `{EthCommonLaws} `{EthAddressLaws} `{BlstLaws SK}.

(** A private key makes a key pair exactly when it validates; the pair's address is the one computed
    from its public key by the three functions that do so; the same key written in hexadecimal gives the
    same pair; every message it signs verifies.  A key that does not validate signs with zeros. *)
Theorem key_pairs private :
  match NewKeyPair private with
  | Some kp => ValidateBlsPrivateKey private = true ∧ privateKey kp = private ∧
      kp_address kp = GetAddressFromPublicKey (publicKey kp) ∧ kp_address kp = AddressFromPubkey (publicKey kp) ∧
      kp_address kp = GetByteAddress (publicKey kp) ∧
      GenerateKeyPairFromSecretKey (hex_EncodeToString private) = (private, publicKey kp, kp_address kp) ∧
      ∀ m, VerifySign (publicKey kp) (Bls.Sign private m) m = true
  | None => ValidateBlsPrivateKey private = false ∧
      GenerateKeyPairFromSecretKey (hex_EncodeToString private) = (zeros 32, zeros 48, zero_address) ∧
      ∀ m, Bls.Sign private m = zeros 96
  end.
Proof.
  destruct (NewKeyPair private) as [kp|] eqn:E.
  - pose proof (λ m, pair_signs private kp m E) as Hm.
    apply NewKeyPair_some in E as (sk & D & ->). simpl in *.
    assert (Hv : ValidateBlsPrivateKey private = true) by (apply deserialize_valid; eauto).
    pose proof (valid_key_32 private Hv) as Hl.
    unfold GetAddressFromPublicKey, GenerateKeyPairFromSecretKey, GetByteAddress, AddressFromPubkey.
    rewrite hex_decode_encode, Hl, Hv, D, pk_length, PubkeyFromBytes_48 by apply pk_length. simpl.
    rewrite (serialize_deserialize private sk D), PrivateKeyFromBytes_32 by done. split_and!; try done.
    apply BytesToAddress_20. by rewrite length_drop, Keccak256_length.
  - assert (Hd : sk_Deserialize (SK:=SK) private = None).
    { destruct (sk_Deserialize private) eqn:D; [|done].
      assert (is_Some (NewKeyPair private)) as [? E']; [eexists; apply NewKeyPair_some; eauto|congruence]. }
    assert (Hv : ValidateBlsPrivateKey private = false).
    { destruct (ValidateBlsPrivateKey private) eqn:Ev; [|done]. apply deserialize_valid in Ev as [? ?]. congruence. }
    unfold GenerateKeyPairFromSecretKey, Bls.Sign. rewrite hex_decode_encode, Hv. simpl.
    split_and!; [done| |done]. by destruct (length private =? 32)%nat.
Qed.

(** Signatures of any number of keys over any messages aggregate to one that verifies. *)
Theorem aggregates_verify (l : list (SK * bytes)) : l ≠ [] →
  VerifyAggregateSign (pk_Compress ∘ fst <$> l)
    (CreateAggregateSign ((λ '(sk, m), Bls.Sign (sk_Serialize sk) m) <$> l)) l.*2 = true.
Proof.
  intros Hl. unfold VerifyAggregateSign, CreateAggregateSign.
  rewrite (list_fmap_ext _ (λ '(sk, m), blst_Sign sk m dstMinPk)).
  - by apply aggregate_verifies.
  - intros ? [sk m] _. apply Sign_valid, deserialize_serialize.
Qed.

(** A request made for a hash of 32 bytes and its signature survives the wire and is valid. *)
Theorem request_verifies `{ProtoLaws pb_VerifyTransactionSignRequest} private kp h r0 :
  NewKeyPair private = Some kp → length h = 32 →
  let r := NewVerifyTransactionRequest h (publicKey kp) (Bls.Sign private h) in
  Request_Unmarshal (proto_Marshal r) r0 = (Ok tt, r) ∧ Request_Valid r = true.
Proof.
  intros E Hh r. subst r. unfold Request_Unmarshal. rewrite proto_roundtrip. split; [done|].
  pose proof (pair_signs private kp h E) as Hs. apply NewKeyPair_some in E as (sk & D & ->). simpl in Hs.
  unfold Request_Valid, SenderPublicKey, SenderSign, TransactionHash, NewVerifyTransactionRequest. simpl.
  rewrite PubkeyFromBytes_48 by apply pk_length. rewrite SignFromBytes_96 by apply Sign_length.
  by rewrite BytesToHash_32.
Qed.

End Theorems.

Section Transactions.
Context `{EthCommonLaws} `{EthAddressLaws} `{BlstLaws SK} `{Proto TransactionHashData} (recover : bytes → bytes → option bytes).

#[local] Instance tx_crypto : TxCrypto := bls_crypto recover.

(** A transaction whose cached hash is right, signed with the key of a pair, passes the node's check of
    the signature under the public key of the pair. *)
Lemma signed_transaction_valid private kp (t : Transaction) : NewKeyPair private = Some kp → coherent t →
  (ValidSign (publicKey kp) (SetSign (privateKey kp) t)).1 = true.
Proof.
  intros E [Hh _]. unfold ValidSign, SetSign.
  assert (Eh : (Hash t).1 = hash_of (proto t) ∧ proto (Hash t).2 = proto t ∧ cachedHash (Hash t).2 = Some (hash_of (proto t))).
  { unfold Hash. destruct Hh as [->|Hh]; [done|]. by rewrite Hh. }
  destruct (Hash t) as [h t']. simpl in Eh. destruct Eh as (-> & Ep & Ec). unfold Hash. simpl. rewrite Ec. simpl.
  unfold Transaction.Sign. simpl. rewrite go_copy_full by (by rewrite Sign_length). by apply (pair_signs private).
Qed.

End Transactions.

(** ** A concrete library *)

Module ToyBls.

Definition SK : Type := { b : bytes | ValidateBlsPrivateKey b = true }.

Definition one : bytes := zeros 31 ++ [x01].
Definition toy_pub (b : bytes) : bytes := b ++ zeros 16.
Definition toy_sign (b m : bytes) : bytes := toy_pub b ++ ToyCrypto.digest m ++ zeros 16.

Definition toy_Deserialize (b : bytes) : option SK :=
  match bool_dec (ValidateBlsPrivateKey b) true with left E => Some (b ↾ E) | right _ => None end.

#[export] Instance toy_blst : Blst SK := {|
  sk_Deserialize := toy_Deserialize;
  sk_Serialize := proj1_sig;
  blst_KeyGen _ := one ↾ eq_refl;
  pk_Compress sk := toy_pub (proj1_sig sk);
  blst_Sign sk m _ := toy_sign (proj1_sig sk) m;
  VerifyCompressed sg pk m _ := bool_decide (sg = pk ++ ToyCrypto.digest m ++ zeros 16);
  AggregateVerifyCompressed sg pks ms _ := bool_decide (sg = concat (zip_with (λ pk m, pk ++ ToyCrypto.digest m ++ zeros 16) pks ms));
  AggregateCompressed l := (true, concat l);
|}.

Lemma toy_Deserialize_valid b (E : ValidateBlsPrivateKey b = true) : toy_Deserialize b = Some (b ↾ E).
Proof. unfold toy_Deserialize. destruct bool_dec as [E'|]; [|done]. do 2 f_equal. apply (UIP_dec bool_dec). Qed.

#[export] Instance toy_blst_laws : BlstLaws SK.
Proof.
  split; simpl.
  - intros b. split; [|intros E; eexists; exact (toy_Deserialize_valid b E)].
    unfold toy_Deserialize. destruct bool_dec; [done|by intros []].
  - intros b sk. unfold toy_Deserialize. destruct bool_dec; [by intros [= <-]|done].
  - intros [b E]. apply toy_Deserialize_valid.
  - intros [b E]. unfold toy_pub. rewrite length_app. simpl. by rewrite (valid_key_32 b E).
  - intros [b E] m _. unfold toy_sign, toy_pub. rewrite !length_app. cbn [proj1_sig]. by rewrite (valid_key_32 b E).
  - intros [b E] m _. by apply bool_decide_eq_true.
  - intros l _ _. apply bool_decide_eq_true. induction l as [|[[b E] m] l IH]; [done|].
    cbn in *. by rewrite IH.
Qed.

Import ToyProto.
#[export] Instance request_ser : Ser pb_VerifyTransactionSignRequest :=
  ToyProto.ser_iso (λ r, (vr_Hash r, vr_Pubkey r, vr_Sign r)) (λ '(h, p, s), Build_pb_VerifyTransactionSignRequest h p s) ltac:(by intros []).
#[export] Instance request_eq_dec : EqDecision pb_VerifyTransactionSignRequest.
Proof. solve_decision. Defined.
#[export] Instance request_proto : Proto pb_VerifyTransactionSignRequest := ToyProto.toy_proto {| vr_Hash := []; vr_Pubkey := []; vr_Sign := [] |}.
#[export] Instance request_proto_laws : ProtoLaws pb_VerifyTransactionSignRequest.
Proof. apply ToyProto.toy_proto_laws. Qed.

Definition pair : KeyPair := {| privateKey := one; publicKey := toy_pub one; kp_address := zeros 20 |}.

End ToyBls.

Import ToyCrypto ToyAddress ToyBls.

Lemma key_pairs_witness : ValidateBlsPrivateKey one = true.
Proof. exact (proj1 (key_pairs (SK:=SK) one)). Defined.

Lemma aggregates_verify_witness :
  VerifyAggregateSign (SK:=SK) [toy_pub one; toy_pub one] (CreateAggregateSign (SK:=SK) [Bls.Sign (SK:=SK) one [x05]; Bls.Sign (SK:=SK) one [x06]]) [[x05]; [x06]] = true.
Proof. exact (aggregates_verify (SK:=SK) [(one ↾ eq_refl : SK, [x05]); (one ↾ eq_refl : SK, [x06])] ltac:(discriminate)). Defined.

Lemma request_verifies_witness :
  Request_Valid (SK:=SK) (NewVerifyTransactionRequest (zeros 32) (toy_pub one) (Bls.Sign (SK:=SK) one (zeros 32))) = true.
Proof.
  refine (proj2 (request_verifies (SK:=SK) one {| privateKey := one; publicKey := toy_pub one; kp_address := AddressFromPubkey (toy_pub one) |} (zeros 32)
    {| vr_Hash := []; vr_Pubkey := []; vr_Sign := [] |} _ eq_refl)).
  by vm_compute.
Defined.
