(* ===== verification/RpcPayload.v ===== *)
(** * The payloads of the RPC client ([pkg/rpc_client/client.go])

    Two things stand between a message and the socket: a pool of buffers messages are marshalled into,
    each given back by the [release] function that comes with the bytes, and a reader that sends several
    byte slices, each behind its length, without copying them together. *)

From S2P Require Import Prelude GoLib.
From Stdlib Require Import Strings.Byte.

(** ** [protoBytesPool]

    A slice of the pool is known by the array it points to.  An array keeps its bytes; what lies beyond
    the length of the slice is what was written there before. *)

Record array := { ar_cap : Z; ar_data : bytes }.

Record ProtoPool := {
  arrays : gmap nat array;
  free : list nat;          (** the arrays of the buffers in the pool *)
  released : gset nat;      (** the payloads whose [release] has run *)
  next : nat;
}.

(** The slice [marshalProtoMessage] returns, with its [release]. *)
Record payload := { pl_id : nat; pl_array : nat; pl_len : nat }.

Definition empty_pool : ProtoPool := {| arrays := ∅; free := []; released := ∅; next := 0 |}.

Definition initialCap : Z := 256 * 1024.
Definition maxKeptCap : Z := 1024 * 1024.

(** [make([]byte, 0, 256*1024)] *)
Definition new_array (P : ProtoPool) : nat * ProtoPool :=
  (next P, {| arrays := <[next P := {| ar_cap := initialCap; ar_data := [] |}]> (arrays P); free := free P;
              released := released P; next := S (next P) |}).

(** [protoBytesPool.Get]: some buffer of the pool, or a new one; which is up to [sync.Pool]. *)
Definition pool_Get (pick : option nat) (P : ProtoPool) : nat * ProtoPool :=
  match pick ≫= λ i, (i,.) <$> free P !! i with
  | Some (i, a) => (a, {| arrays := arrays P; free := delete i (free P); released := released P; next := next P |})
  | None => new_array P
  end.

Definition contents (p : payload) (P : ProtoPool) : bytes :=
  match arrays P !! pl_array p with Some ar => take (pl_len p) (ar_data ar) | None => [] end.

(** Writing [msg] over the beginning of an array, or into a larger one when it does not fit; [grow] is the
    capacity the runtime chooses. *)
Definition marshal_append (grow : Z → Z → Z) (a : nat) (msg : bytes) (P : ProtoPool) : nat * ProtoPool :=
  let ar := default {| ar_cap := 0; ar_data := [] |} (arrays P !! a) in
  let len := Z.of_nat (length msg) in
  if (len <=? ar_cap ar)%Z
  then (a, {| arrays := <[a := {| ar_cap := ar_cap ar; ar_data := msg ++ drop (length msg) (ar_data ar) |}]> (arrays P);
              free := free P; released := released P; next := next P |})
  else (next P, {| arrays := <[next P := {| ar_cap := grow (ar_cap ar) len; ar_data := msg |}]> (arrays P);
                   free := free P; released := released P; next := S (next P) |}).

(** [marshalProtoMessage] of a message whose encoding is [msg]. *)
Definition marshalProtoMessage (grow : Z → Z → Z) (pick : option nat) (msg : bytes) (P : ProtoPool) : payload * ProtoPool :=
  let '(a, P) := pool_Get pick P in
  let '(a, P) := marshal_append grow a msg P in
  ({| pl_id := next P; pl_array := a; pl_len := length msg |},
   {| arrays := arrays P; free := free P; released := released P; next := S (next P) |}).

(** The function returned with the payload: a second call does nothing; a buffer that has grown past a
    megabyte is replaced by a new one. *)
Definition release (p : payload) (P : ProtoPool) : ProtoPool :=
  if decide (pl_id p ∈ released P) then P
  else
    let P := {| arrays := arrays P; free := free P; released := {[pl_id p]} ∪ released P; next := next P |} in
    let cap := match arrays P !! pl_array p with Some ar => ar_cap ar | None => 0%Z end in
    let '(a, P) := if (maxKeptCap <? cap)%Z then new_array P else (pl_array p, P) in
    {| arrays := arrays P; free := a :: free P; released := released P; next := next P |}.

(** ** [binaryPayloadReader] *)

Record binaryPayloadSegment := { header : bytes; headerPos : nat; data : bytes; dataPos : nat }.

Record binaryPayloadReader := { segments : list binaryPayloadSegment; index : nat }.

(** The length goes into the header as a uint32. *)
Definition newSegment (p : bytes) : binaryPayloadSegment :=
  {| header := be_bytes 4 (Z.of_nat (length p) mod 2 ^ 32); headerPos := 0; data := p; dataPos := 0 |}.

Definition newBinaryPayloadReader (parts : list bytes) : binaryPayloadReader * Z :=
  ({| segments := newSegment <$> parts; index := 0 |}, foldl (λ total p, total + (Z.of_nat (length p) + 4))%Z 0%Z parts).

Inductive read_result := ReadOk (p : bytes) | ReadEOF.

Definition set_segment (i : nat) (s : binaryPayloadSegment) (r : binaryPayloadReader) : binaryPayloadReader :=
  {| segments := <[i := s]> (segments r); index := index r |}.

(** The loop of [Read] into a buffer of [n] bytes, of which [written] holds those filled. *)
Fixpoint read_loop (fuel n : nat) (written : bytes) (r : binaryPayloadReader) : outcome unit read_result * binaryPayloadReader :=
  match fuel with
  | O => (OutOfFuel, r)
  | S fuel =>
      if (n <=? length written)%nat then (Ok (ReadOk written), r)
      else match segments r !! index r with
           | None => (Ok (if (length written =? 0)%nat then ReadEOF else ReadOk written), r)
           | Some seg =>
               if (headerPos seg <? length (header seg))%nat then
                 let c := take (n - length written) (drop (headerPos seg) (header seg)) in
                 let seg := {| header := header seg; headerPos := headerPos seg + length c; data := data seg; dataPos := dataPos seg |} in
                 let r := set_segment (index r) seg r in
                 if (length (written ++ c) =? n)%nat then (Ok (ReadOk (written ++ c)), r) else read_loop fuel n (written ++ c) r
               else if (dataPos seg <? length (data seg))%nat then
                 let c := take (n - length written) (drop (dataPos seg) (data seg)) in
                 let seg := {| header := header seg; headerPos := headerPos seg; data := data seg; dataPos := dataPos seg + length c |} in
                 let r := set_segment (index r) seg r in
                 if (length (written ++ c) =? n)%nat then (Ok (ReadOk (written ++ c)), r) else read_loop fuel n (written ++ c) r
               else read_loop fuel n written {| segments := segments r; index := S (index r) |}
           end
  end.

(** Every iteration fills a byte, or leaves a segment. *)
Definition Read (n : nat) (r : binaryPayloadReader) : outcome unit read_result * binaryPayloadReader :=
  read_loop (S (n + length (segments r))) n [] r.

(** A transport that reads to the end, [n] bytes at a time. *)
Fixpoint drain (fuel n : nat) (r : binaryPayloadReader) : option bytes :=
  match fuel with
  | O => None
  | S fuel =>
      match Read n r with
      | (Ok (ReadOk b), r) => (b ++.) <$> drain fuel n r
      | (Ok ReadEOF, _) => Some []
      | _ => None
      end
  end.

(** What is left to send. *)
Definition segment_rest (s : binaryPayloadSegment) : bytes := drop (headerPos s) (header s) ++ drop (dataPos s) (data s).
Definition rest (r : binaryPayloadReader) : bytes := concat (segment_rest <$> drop (index r) (segments r)).

(** The framing the reader implements, and its inverse. *)
Definition framed (parts : list bytes) : bytes := concat ((λ p, be_bytes 4 (Z.of_nat (length p) mod 2 ^ 32) ++ p) <$> parts).

Fixpoint unframe (k : nat) (b : bytes) : option (list bytes) :=
  match k with
  | O => match b with [] => Some [] | _ => None end
  | S k =>
      if (length b <? 4)%nat then None
      else let len := Z.to_nat (big_SetBytes (take 4 b)) in
           let b := drop 4 b in
           if (length b <? len)%nat then None else (take len b ::.) <$> unframe k (drop len b)
  end.

(** * Theorems

    The reader refines a byte stream, whatever the sizes of the reads; a pooled buffer has one owner until
    it is released, whatever other goroutines marshal and release and whatever the pool keeps. *)

(** ** The reader *)

Lemma take_split (k : nat) (X Y : bytes) : take k (X ++ Y) = take k X ++ take (k - length (take k X)) (drop (length (take k X)) X ++ Y).
Proof.
  rewrite take_app, length_take. f_equal. destruct (decide (k ≤ length X)).
  - replace (k - k `min` length X) with 0 by lia. replace (k - length X) with 0 by lia. by rewrite !take_0.
  - replace (k `min` length X) with (length X) by lia. by rewrite drop_all.
Qed.

Lemma drop_split (k : nat) (X Y : bytes) : drop k (X ++ Y) = drop (k - length (take k X)) (drop (length (take k X)) X ++ Y).
Proof.
  rewrite length_take. destruct (decide (k ≤ length X)).
  - replace (k `min` length X) with k by lia. rewrite Nat.sub_diag, drop_0. rewrite drop_app.
    by replace (k - length X) with 0 by lia.
  - replace (k `min` length X) with (length X) by lia. rewrite drop_all, drop_app_ge by lia. done.
Qed.

Lemma rest_at r seg : segments r !! index r = Some seg →
  rest r = segment_rest seg ++ concat (segment_rest <$> drop (S (index r)) (segments r)).
Proof. intros E. unfold rest. by rewrite (drop_S _ seg) by done. Qed.

Lemma rest_set r seg seg' : segments r !! index r = Some seg →
  rest (set_segment (index r) seg' r) = segment_rest seg' ++ concat (segment_rest <$> drop (S (index r)) (segments r)).
Proof.
  intros E. pose proof (lookup_lt_Some _ _ _ E) as Hl. rewrite (rest_at _ seg').
  - unfold set_segment. simpl. by rewrite drop_insert_lt by lia.
  - unfold set_segment. simpl. by rewrite list_lookup_insert_eq.
Qed.

Lemma rest_end r : segments r !! index r = None → rest r = [].
Proof. intros E%lookup_ge_None. unfold rest. by rewrite drop_ge. Qed.

(** The result of a read that has [w] already and wants [n]. *)
Definition read_spec (n : nat) (w : bytes) (b : bytes) : read_result :=
  match w ++ take (n - length w) b with [] => if (n =? 0)%nat then ReadOk [] else ReadEOF | out => ReadOk out end.

Lemma read_spec_full n w b : n ≤ length w → read_spec n w b = ReadOk w.
Proof.
  intros Hn. unfold read_spec. replace (n - length w) with 0 by lia. rewrite take_0, app_nil_r.
  destruct w; [|done]. simpl in Hn. by replace n with 0 by lia.
Qed.

Lemma read_spec_step n w X Y : read_spec n w (X ++ Y) =
  read_spec n (w ++ take (n - length w) X) (drop (length (take (n - length w) X)) X ++ Y).
Proof.
  unfold read_spec. rewrite (take_split (n - length w) X Y), app_assoc.
  rewrite length_app. by rewrite Nat.sub_add_distr.
Qed.

Lemma read_loop_spec fuel : ∀ n w r, (n - length w) + (length (segments r) - index r) < fuel →
  ∃ r', read_loop fuel n w r = (Ok (read_spec n w (rest r)), r') ∧
    rest r' = drop (n - length w) (rest r) ∧ length (segments r') = length (segments r).
Proof.
  induction fuel as [|fuel IH]; intros n w r Hf; [lia|]. cbn [read_loop].
  destruct (Nat.leb_spec n (length w)) as [Hn|Hn].
  { exists r. rewrite read_spec_full by done. by replace (n - length w) with 0 by lia. }
  destruct (segments r !! index r) as [seg|] eqn:E.
  2:{ exists r. rewrite (rest_end r E). unfold read_spec. rewrite take_nil, app_nil_r, drop_nil.
      destruct w; [|done]. simpl in *. by destruct n; [lia|]. }
  pose proof (lookup_lt_Some _ _ _ E) as Hi.
  assert (Hstep : ∀ X Y seg', X ≠ [] → segment_rest seg = X ++ Y →
    segment_rest seg' = drop (length (take (n - length w) X)) X ++ Y → let c := take (n - length w) X in
    ∃ r', (if (length (w ++ c) =? n)%nat then (Ok (ReadOk (w ++ c)), set_segment (index r) seg' r)
           else read_loop fuel n (w ++ c) (set_segment (index r) seg' r)) = (Ok (read_spec n w (rest r)), r') ∧
      rest r' = drop (n - length w) (rest r) ∧ length (segments r') = length (segments r)).
  { intros X Y seg' HX HS HS' c.
    assert (Hc : 1 ≤ length c) by (subst c; rewrite length_take; destruct X; [done|simpl; lia]).
    rewrite (rest_at r seg E), HS, <- app_assoc, read_spec_step, drop_split.
    pose proof (rest_set r seg seg' E) as Hr. rewrite HS', <- app_assoc in Hr. rewrite <- Hr.
    fold c. destruct (Nat.eqb_spec (length (w ++ c)) n) as [Hl|Hl].
    - exists (set_segment (index r) seg' r). rewrite read_spec_full by lia. rewrite length_app in Hl.
      replace (n - length w - length c) with 0 by lia. split_and!; [done..|]. apply length_insert.
    - destruct (IH n (w ++ c) (set_segment (index r) seg' r)) as (r' & -> & Er & El).
      + simpl. rewrite length_insert, length_app. lia.
      + exists r'. split; [done|]. split; [|by rewrite El; simpl; rewrite length_insert].
        rewrite Er, length_app. f_equal. lia. }
  destruct (Nat.ltb_spec (headerPos seg) (length (header seg))) as [Hh|Hh].
  { apply (Hstep (drop (headerPos seg) (header seg)) (drop (dataPos seg) (data seg))); [|done|].
    - intros D. apply (f_equal length) in D. rewrite length_drop in D. simpl in D. lia.
    - unfold segment_rest. simpl. by rewrite drop_drop. }
  destruct (Nat.ltb_spec (dataPos seg) (length (data seg))) as [Hd|Hd].
  { apply (Hstep (drop (dataPos seg) (data seg)) []).
    - intros D. apply (f_equal length) in D. rewrite length_drop in D. simpl in D. lia.
    - unfold segment_rest. by rewrite (drop_ge (header seg)), app_nil_r by lia.
    - unfold segment_rest. simpl. by rewrite (drop_ge (header seg)), app_nil_r, drop_drop by lia. }
  destruct (IH n w {| segments := segments r; index := S (index r) |}) as (r' & -> & Er & El); [simpl; lia|].
  assert (Hrest : rest r = rest {| segments := segments r; index := S (index r) |}).
  { rewrite (rest_at r seg E). unfold segment_rest. by rewrite !drop_ge by lia. }
  exists r'. by rewrite Hrest.
Qed.

(** A read returns the next bytes of the stream, as many as fit, and the end of the stream only when
    nothing is left; it never runs out of fuel. *)
Lemma Read_spec n r : ∃ r', Read n r = (Ok (read_spec n [] (rest r)), r') ∧ rest r' = drop n (rest r) ∧
  length (segments r') = length (segments r).
Proof.
  destruct (read_loop_spec (S (n + length (segments r))) n [] r) as (r' & E & Er & El); [simpl; lia|].
  exists r'. simpl in Er. rewrite Nat.sub_0_r in Er. done.
Qed.

Lemma rest_new parts : rest (newBinaryPayloadReader parts).1 = framed parts.
Proof.
  unfold rest, framed, newBinaryPayloadReader. cbn [fst index segments]. rewrite drop_0.
  f_equal. by induction parts as [|p l IH]; [|cbn; f_equal].
Qed.

Lemma total_length parts : (newBinaryPayloadReader parts).2 = Z.of_nat (length (framed parts)).
Proof.
  unfold newBinaryPayloadReader, framed. simpl.
  assert (G : ∀ z, foldl (λ total p, total + (Z.of_nat (length p) + 4))%Z z parts =
    (z + Z.of_nat (length (concat ((λ p, be_bytes 4 (Z.of_nat (length p) mod 2 ^ 32) ++ p) <$> parts))))%Z).
  { induction parts as [|p l IH]; intros z; [simpl; lia|].
    cbn [foldl fmap list_fmap concat]. rewrite IH, !length_app, be_bytes_length. lia. }
  by rewrite G.
Qed.

Lemma drain_rest fuel n r : 0 < n → length (rest r) < fuel → drain fuel n r = Some (rest r).
Proof.
  intros Hn. revert r. induction fuel as [|fuel IH]; intros r Hf; [lia|]. cbn [drain].
  destruct (Read_spec n r) as (r' & -> & Er & _). unfold read_spec. simpl. rewrite Nat.sub_0_r.
  destruct (rest r) as [|x l] eqn:E.
  - rewrite take_nil. by destruct n; [lia|].
  - destruct n as [|n]; [lia|]. simpl in *. rewrite IH, Er; [|rewrite Er, length_drop; lia].
    simpl. by rewrite take_drop.
Qed.

Lemma unframe_framed (parts : list bytes) : Forall (λ p, (Z.of_nat (length p) < 2 ^ 32)%Z) parts →
  unframe (length parts) (framed parts) = Some parts.
Proof.
  induction 1 as [|p l Hp Hl IH]; [done|].
  assert (Hv : big_SetBytes (be_bytes 4 (Z.of_nat (length p) mod 2 ^ 32)) = Z.of_nat (length p)).
  { unfold big_SetBytes. rewrite Z.mod_small by lia. apply be_bytes_value. simpl. lia. }
  pose proof (be_bytes_length 4 (Z.of_nat (length p) mod 2 ^ 32)) as Hh.
  change (framed (p :: l)) with ((be_bytes 4 (Z.of_nat (length p) mod 2 ^ 32) ++ p) ++ framed l).
  revert Hv Hh. generalize (be_bytes 4 (Z.of_nat (length p) mod 2 ^ 32)). intros h Hv Hh.
  rewrite <- app_assoc. cbn [length unframe].
  rewrite (take_app_length' h), (drop_app_length' h), Hv, Nat2Z.id, !length_app, Hh by done.
  destruct (Nat.ltb_spec (4 + (length p + length (framed l))) 4); [lia|].
  destruct (Nat.ltb_spec (length p + length (framed l)) (length p)); [lia|].
  by rewrite take_app_length, drop_app_length, IH.
Qed.

(** However many bytes the transport asks for at a time, the body it sends has the announced length
    and splits back into exactly the parts, when none of them is four gigabytes long. *)
Theorem payload_stream (parts : list bytes) (n : nat) : 0 < n → Forall (λ p, (Z.of_nat (length p) < 2 ^ 32)%Z) parts →
  ∃ body, drain (S (length (framed parts))) n (newBinaryPayloadReader parts).1 = Some body ∧
    Z.of_nat (length body) = (newBinaryPayloadReader parts).2 ∧ unframe (length parts) body = Some parts.
Proof.
  intros Hn Hp. exists (framed parts). rewrite drain_rest, rest_new by (rewrite ?rest_new; lia || done).
  rewrite total_length. split_and!; [done..|]. by apply unframe_framed.
Qed.

Lemma payload_stream_witness : ∃ body, drain 15 3 (newBinaryPayloadReader [[x01; x02]; []; []]).1 = Some body ∧
  Z.of_nat (length body) = 14%Z ∧ unframe 3 body = Some [[x01; x02]; []; []].
Proof. apply (payload_stream [[x01; x02]; []; []] 3); [lia|]. repeat constructor. Defined.

(** ** The pool *)

Section Pool.
Context (grow : Z → Z → Z).

(** Goroutines marshal and release, and the garbage collector empties the pool; [issued] records the
    payloads that were handed out, with their messages.  Only those can be released, once or more. *)
Inductive pool_step : ProtoPool * list (payload * bytes) → ProtoPool * list (payload * bytes) → Prop :=
  | step_marshal pick msg P iss p P' : marshalProtoMessage grow pick msg P = (p, P') → pool_step (P, iss) (P', (p, msg) :: iss)
  | step_release p m P iss : (p, m) ∈ iss → pool_step (P, iss) (release p P, iss)
  | step_gc P iss l : l `sublist_of` free P →
      pool_step (P, iss) ({| arrays := arrays P; free := l; released := released P; next := next P |}, iss).

Definition live (P : ProtoPool) (iss : list (payload * bytes)) : list (payload * bytes) :=
  filter (λ x, pl_id x.1 ∉ released P) iss.

Definition owned (P : ProtoPool) (iss : list (payload * bytes)) : list nat := pl_array ∘ fst <$> live P iss.

(** [held] is the array a goroutine has taken out of the pool and not handed out yet. *)
Record pool_inv (held : list nat) (P : ProtoPool) (iss : list (payload * bytes)) : Prop := {
  pi_ids : NoDup (pl_id ∘ fst <$> iss);
  pi_issued x : x ∈ iss → pl_id x.1 < next P;
  pi_released i : i ∈ released P → i < next P;
  pi_owners : NoDup (owned P iss ++ held ++ free P);
  pi_arrays a : a ∈ owned P iss ++ held ++ free P → a < next P ∧ is_Some (arrays P !! a);
  pi_data x : x ∈ live P iss → contents x.1 P = x.2;
}.

Lemma inv_new_array P iss : pool_inv [] P iss → pool_inv [(new_array P).1] (new_array P).2 iss.
Proof.
  intros [I1 I2 I3 I4 I5 I6]. unfold new_array. simpl.
  assert (Hf : next P ∉ owned P iss ++ [] ++ free P) by (intros ?%I5; lia).
  split; simpl; [done| | | | |].
  - intros x ?%I2. lia.
  - intros i ?%I3. lia.
  - simpl in *. change (owned _ iss) with (owned P iss). rewrite <- Permutation_middle. by apply NoDup_cons.
  - intros a Ha. destruct (decide (a = next P)) as [->|]; [rewrite lookup_insert_eq; eauto|].
    rewrite lookup_insert_ne by done. destruct (I5 a) as [? ?]; [|split; [lia|done]].
    change (owned _ iss) with (owned P iss) in Ha. simpl. set_solver.
  - intros x Hx. change (live _ iss) with (live P iss) in Hx. rewrite <- (I6 x Hx). unfold contents. simpl.
    rewrite lookup_insert_ne; [done|]. intros E. apply Hf. rewrite E. apply elem_of_app. left.
    apply list_elem_of_fmap. eauto.
Qed.

Lemma inv_get pick P iss : pool_inv [] P iss → pool_inv [(pool_Get pick P).1] (pool_Get pick P).2 iss.
Proof.
  intros I. unfold pool_Get. destruct pick as [i|]; [|by apply inv_new_array]. simpl.
  destruct (free P !! i) as [a|] eqn:E; simpl; [|by apply inv_new_array].
  destruct I as [I1 I2 I3 I4 I5 I6].
  assert (Hp : a :: delete i (free P) ≡ₚ free P) by (symmetry; by apply delete_Permutation).
  split; simpl; [done..| | |done]; change (owned _ iss) with (owned P iss).
  - simpl in I4. by rewrite Hp.
  - intros b. simpl in I5. rewrite Hp. apply I5.
Qed.

(** An array that is held can be written. *)
Lemma inv_write a ar P iss : pool_inv [a] P iss →
  pool_inv [a] {| arrays := <[a := ar]> (arrays P); free := free P; released := released P; next := next P |} iss.
Proof.
  intros [I1 I2 I3 I4 I5 I6]. split; simpl; [done..| |].
  - intros b Hb. destruct (I5 b Hb). split; [done|]. destruct (decide (b = a)) as [->|]; [by rewrite lookup_insert_eq|by rewrite lookup_insert_ne].
  - intros x Hx. change (live _ iss) with (live P iss) in Hx. rewrite <- (I6 x Hx). unfold contents. simpl.
    rewrite lookup_insert_ne; [done|]. intros ->. simpl in I4.
    rewrite <- Permutation_middle in I4. apply NoDup_cons in I4 as [I4 _]. apply I4, elem_of_app. left.
    apply list_elem_of_fmap. eauto.
Qed.

Lemma inv_forget a P iss : pool_inv [a] P iss → pool_inv [] P iss.
Proof.
  intros [I1 I2 I3 I4 I5 I6]. split; try done; simpl in *.
  - rewrite <- Permutation_middle in I4. by apply NoDup_cons in I4 as [_ ?].
  - intros b Hb. apply I5. set_solver.
Qed.

Lemma pool_append a msg P iss : pool_inv [a] P iss →
  let '(a', P') := marshal_append grow a msg P in pool_inv [a'] P' iss ∧
    ∃ ar, arrays P' !! a' = Some ar ∧ take (length msg) (ar_data ar) = msg.
Proof.
  intros I. unfold marshal_append. destruct (_ <=? _)%Z.
  - split; [by apply inv_write|]. eexists. simpl. rewrite lookup_insert_eq. split; [done|]. simpl. by rewrite take_app_length.
  - split; [|eexists; simpl; rewrite lookup_insert_eq; split; [done|]; simpl; by rewrite take_ge].
    pose proof (inv_write _ {| ar_cap := grow (ar_cap (default {| ar_cap := 0; ar_data := [] |} (arrays P !! a))) (Z.of_nat (length msg)); ar_data := msg |} _ _
      (inv_new_array P iss (inv_forget a P iss I))) as Hw. simpl in Hw. by rewrite insert_insert_eq in Hw.
Qed.

Lemma inv_marshal pick msg P iss p P' : pool_inv [] P iss → marshalProtoMessage grow pick msg P = (p, P') → pool_inv [] P' ((p, msg) :: iss).
Proof.
  intros I. unfold marshalProtoMessage.
  pose proof (inv_get pick P iss I) as I1. destruct (pool_Get pick P) as [a P1]. simpl in I1.
  pose proof (pool_append a msg P1 iss I1) as I2. destruct (marshal_append grow a msg P1) as [b P2].
  destruct I2 as ([J1 J2 J3 J4 J5 J6] & ar & Ea & Et). intros [= <- <-].
  set (p := {| pl_id := next P2; pl_array := b; pl_len := length msg |}).
  set (P3 := {| arrays := arrays P2; free := free P2; released := released P2; next := S (next P2) |}).
  assert (Hn : next P2 ∉ released P2) by (intros ?%J3; lia).
  assert (Hl : live P3 ((p, msg) :: iss) = (p, msg) :: live P2 iss) by (unfold live; by rewrite filter_cons_True).
  assert (Ho : owned P3 ((p, msg) :: iss) = b :: owned P2 iss) by (unfold owned; by rewrite Hl).
  split; simpl; rewrite ?Ho.
  - apply NoDup_cons. split; [|done]. intros (x & E & Hx)%list_elem_of_fmap. apply J2 in Hx. simpl in E. lia.
  - intros x [->|Hx]%elem_of_cons; simpl; [lia|]. apply J2 in Hx. lia.
  - intros i Hi%J3. lia.
  - simpl in *. by rewrite Permutation_middle.
  - intros c Hc. destruct (J5 c) as [? ?]; [set_solver|split; [lia|done]].
  - rewrite Hl. intros x [->|Hx]%elem_of_cons; [|by apply (J6 x)]. unfold contents. simpl. by rewrite Ea.
Qed.

Lemma inv_put a P iss : pool_inv [a] P iss →
  pool_inv [] {| arrays := arrays P; free := a :: free P; released := released P; next := next P |} iss.
Proof. by intros [I1 I2 I3 I4 I5 I6]. Qed.

Lemma filter_keeps {A} (Q : A → Prop) `{!∀ x, Decision (Q x)} (l : list A) : (∀ x, x ∈ l → Q x) → filter Q l = l.
Proof.
  induction l as [|x l IH]; intros Hq; [done|]. rewrite filter_cons_True by (apply Hq; left).
  by rewrite IH by (intros y ?; apply Hq; by right).
Qed.

Lemma live_split p (l : list (payload * bytes)) m : NoDup (pl_id ∘ fst <$> l) → (p, m) ∈ l →
  l ≡ₚ (p, m) :: filter (λ x, pl_id x.1 ≠ pl_id p) l.
Proof.
  induction l as [|[q mq] l IH]; intros Hn Hp; [set_solver|]. cbn in Hn. apply NoDup_cons in Hn as [Hq Hn].
  apply elem_of_cons in Hp as [[= <- <-]|Hp].
  - rewrite filter_cons_False by (simpl; by intros []). rewrite filter_keeps; [done|].
    intros x Hx E. apply Hq. rewrite <- E. apply list_elem_of_fmap. by exists x.
  - rewrite filter_cons_True; [by rewrite Permutation_swap, <- IH|].
    intros E. apply Hq. simpl in E. rewrite E. apply list_elem_of_fmap. by exists (p, m).
Qed.

Lemma inv_mark p m P iss : (p, m) ∈ iss → pl_id p ∉ released P → pool_inv [] P iss →
  pool_inv [pl_array p] {| arrays := arrays P; free := free P; released := {[pl_id p]} ∪ released P; next := next P |} iss.
Proof.
  intros Hp Hr [I1 I2 I3 I4 I5 I6].
  set (P' := {| arrays := arrays P; free := free P; released := {[pl_id p]} ∪ released P; next := next P |}).
  assert (Hl : live P iss ≡ₚ (p, m) :: live P' iss).
  { assert (E : live P' iss = filter (λ x, pl_id x.1 ≠ pl_id p) (live P iss)).
    { unfold live. rewrite list_filter_filter. apply list_filter_iff. intros x. simpl. set_solver. }
    rewrite E. apply live_split.
    - eapply sublist_NoDup; [exact I1|]. apply fmap_sublist, sublist_filter.
    - by apply list_elem_of_filter. }
  assert (Ho : owned P iss ≡ₚ pl_array p :: owned P' iss) by (unfold owned; by rewrite Hl).
  split; [done|done| | | |].
  - simpl. intros i [->%elem_of_singleton|?%I3]%elem_of_union; [exact (I2 _ Hp)|done].
  - simpl in *. rewrite Ho in I4. by rewrite <- Permutation_middle.
  - intros a Ha. apply I5. simpl in *. rewrite Ho. set_solver.
  - intros x Hx. apply I6. rewrite Hl. set_solver.
Qed.

Lemma inv_release p m P iss : (p, m) ∈ iss → pool_inv [] P iss → pool_inv [] (release p P) iss.
Proof.
  intros Hp I. unfold release. case_decide as Hr; [done|]. pose proof (inv_mark p m P iss Hp Hr I) as I1.
  destruct (_ <? _)%Z; [|by apply (inv_put (pl_array p)) in I1].
  apply inv_forget, inv_new_array, inv_put in I1. exact I1.
Qed.

Lemma pool_inv_step s s' : pool_step s s' → pool_inv [] s.1 s.2 → pool_inv [] s'.1 s'.2.
Proof.
  intros [pick msg P iss p P' E|p m P iss Hp|P iss l Hl] I; simpl in *.
  - by eapply inv_marshal.
  - by eapply inv_release.
  - destruct I as [I1 I2 I3 I4 I5 I6]. split; try done; simpl in *.
    + eapply sublist_NoDup; [exact I4|]. by apply sublist_app.
    + intros a Ha. apply I5. apply elem_of_app in Ha as [?|Ha]; apply elem_of_app; [by left|right].
      eapply sublist_subseteq; [exact Hl|done].
Qed.

Lemma inv_reachable s : rtc pool_step (empty_pool, []) s → pool_inv [] s.1 s.2.
Proof.
  intros Hr. assert (I : pool_inv [] empty_pool []) by (split; cbn; solve [constructor | inversion 1 | set_solver]).
  change (pool_inv [] (empty_pool, [] : list (payload * bytes)).1 (empty_pool, [] : list (payload * bytes)).2) in I.
  revert I. induction Hr as [s|s s' s'' Hs _ IH]; [done|]. intros I. by apply IH, (pool_inv_step s).
Qed.


End Pool.

(** A payload is released twice; the two marshalled after it share nothing. *)
Module PoolExample.

Definition g (_ n : Z) : Z := n.
Definition m1 := marshalProtoMessage g None [x01] empty_pool.
Definition r1 := release m1.1 m1.2.
Definition r2 := release m1.1 r1.
Definition m2 := marshalProtoMessage g (Some 0) [x02; x03] r2.
Definition m3 := marshalProtoMessage g (Some 0) [x04] m2.2.

End PoolExample.

