(* ===== verification/TransactionErrors.v ===== *)
(** * Errors of transactions ([pkg/transaction/transaction_error.go])

    The errors a node reports, their table by code, the translation of the exceptions of the virtual
    machine, and the message that tells a client which transaction failed. *)

From S2P Require Import Prelude Interfaces GoLib.
From Stdlib Require Import Strings.Byte.

Record TransactionError := { te_Code : Z; te_Description : string }.

#[export] Instance TransactionError_eq_dec : EqDecision TransactionError.
Proof. solve_decision. Defined.

Definition InvalidTransactionHash : TransactionError := {| te_Code := 1; te_Description := "invalid transaction hash" |}.
Definition InvalidNewDeviceKey : TransactionError := {| te_Code := 2; te_Description := "invalid new device key" |}.
Definition NotMatchLastHash : TransactionError := {| te_Code := 3; te_Description := "not match last hash" |}.
Definition InvalidLastDeviceKey : TransactionError := {| te_Code := 4; te_Description := "invalid last device key" |}.
Definition InvalidAmount : TransactionError := {| te_Code := 5; te_Description := "invalid amount" |}.
Definition InvalidPendingUse : TransactionError := {| te_Code := 6; te_Description := "invalid pending use" |}.
Definition InvalidDeploySmartContractToAccount : TransactionError := {| te_Code := 7; te_Description := "invalid deploy smart contract to account" |}.
Definition InvalidCallSmartContractToAccount : TransactionError := {| te_Code := 8; te_Description := "invalid call smart contract to  non-existent smart account" |}.
Definition InvalidCallSmartContractData : TransactionError := {| te_Code := 9; te_Description := "invalid call smart contract data" |}.
Definition InvalidStakeAddress : TransactionError := {| te_Code := 10; te_Description := "invalid stake address" |}.
Definition InvalidUnstakeAddress : TransactionError := {| te_Code := 11; te_Description := "invalid unstake address" |}.
Definition InvalidUnstakeAmount : TransactionError := {| te_Code := 12; te_Description := "invalid unstake amount" |}.
Definition InvalidMaxGas : TransactionError := {| te_Code := 13; te_Description := "invalid max gas" |}.
Definition InvalidMaxGasPrice : TransactionError := {| te_Code := 14; te_Description := "invalid max gas price" |}.
Definition InvalidCommissionSign : TransactionError := {| te_Code := 15; te_Description := "invalid commission sign" |}.
Definition NotEnoughBalanceForCommissionFee : TransactionError := {| te_Code := 16; te_Description := "smart contract not enough balance for commission fee" |}.
Definition InvalidOpenChannelToAccount : TransactionError := {| te_Code := 17; te_Description := "invalid open channel to account" |}.
Definition InvalidSign : TransactionError := {| te_Code := 18; te_Description := "invalid sign" |}.
Definition InvalidCommitAddress : TransactionError := {| te_Code := 19; te_Description := "invalid commit address" |}.
Definition InvalidOpenAccountAmount : TransactionError := {| te_Code := 20; te_Description := "invalid open account amount" |}.
Definition IsNotCreator : TransactionError := {| te_Code := 21; te_Description := "is not creator" |}.
Definition NotEnoughVerifyMinerToVerifyTransation : TransactionError := {| te_Code := 22; te_Description := "not enough verify miner to verify transaction" |}.
Definition VerifyTransactionSignTimedOut : TransactionError := {| te_Code := 23; te_Description := "verify transaction sign timed out" |}.
Definition InvalidCodeStorage : TransactionError := {| te_Code := 24; te_Description := "invalid code storage" |}.
Definition InvalidCallNonExitAccount : TransactionError := {| te_Code := 25; te_Description := "invalid call smart contract to non-existent account" |}.
Definition InvalidNonce : TransactionError := {| te_Code := 26; te_Description := "invalid nonce" |}.
Definition InvalidMinTimeUse : TransactionError := {| te_Code := 27; te_Description := "invalid min time use " |}.
Definition TimeoutPending : TransactionError := {| te_Code := 28; te_Description := "timeout pending" |}.
Definition CannotInitializeBLS : TransactionError := {| te_Code := 29; te_Description := "cannot initialize BLS" |}.
Definition InvalidData : TransactionError := {| te_Code := 30; te_Description := "invalid data" |}.
Definition AddressMismatch : TransactionError := {| te_Code := 31; te_Description := "address mismatch for add bls public key" |}.
Definition RequiresTwoSignatures : TransactionError := {| te_Code := 32; te_Description := "transaction requires authentication from 2 signatures" |}.
Definition InvalidTransaction : TransactionError := {| te_Code := 33; te_Description := "invalid transaction" |}.
Definition InvalidChainId : TransactionError := {| te_Code := 34; te_Description := "invalid chain id" |}.
Definition InvalidDataInputLengthForTx0 : TransactionError := {| te_Code := 35; te_Description := "invalid data input length for tx0" |}.
Definition InvalidBLSSignatureForTx0 : TransactionError := {| te_Code := 36; te_Description := "invalid BLS signature for tx0" |}.
Definition FailedToRecoverPubkeyForTx0 : TransactionError := {| te_Code := 37; te_Description := "failed to recover pubkey for tx0" |}.
Definition InvalidAddressMatchForTx0 : TransactionError := {| te_Code := 38; te_Description := "invalid address match for tx0" |}.
Definition NonceZeroButPublicKeyNotEmpty : TransactionError := {| te_Code := 39; te_Description := "nonce is 0 but public key is not empty" |}.
Definition InvalidDeployData : TransactionError := {| te_Code := 40; te_Description := "invalid deploy data" |}.
Definition InvalidCallData : TransactionError := {| te_Code := 41; te_Description := "invalid call data" |}.
Definition InvalidBlockData : TransactionError := {| te_Code := 42; te_Description := "invalid block data" |}.
Definition PublicKeyExists : TransactionError := {| te_Code := 43; te_Description := "Public key BLS already exists" |}.
Definition InvalidSignSecp : TransactionError := {| te_Code := 44; te_Description := "invalid sign SECP" |}.
Definition ErrOutOfGas : TransactionError := {| te_Code := 45; te_Description := "out of gas" |}.
Definition ErrCodeStoreOutOfGas : TransactionError := {| te_Code := 46; te_Description := "code store out of gas" |}.
Definition ErrDepth : TransactionError := {| te_Code := 47; te_Description := "depth" |}.
Definition ErrInsufficientBalance : TransactionError := {| te_Code := 48; te_Description := "insufficient balance" |}.
Definition ErrContractAddressCollision : TransactionError := {| te_Code := 49; te_Description := "contract address collision" |}.
Definition ErrExecutionReverted : TransactionError := {| te_Code := 50; te_Description := "execution reverted" |}.
Definition ErrMaxCodeSizeExceeded : TransactionError := {| te_Code := 51; te_Description := "max code size exceeded" |}.
Definition ErrInvalidJump : TransactionError := {| te_Code := 52; te_Description := "invalid jump" |}.
Definition ErrWriteProtection : TransactionError := {| te_Code := 53; te_Description := "write protection" |}.
Definition ErrReturnDataOutOfBounds : TransactionError := {| te_Code := 54; te_Description := "return data out of bounds" |}.
Definition ErrGasUintOverflow : TransactionError := {| te_Code := 55; te_Description := "gas uint overflow" |}.
Definition ErrInvalidCode : TransactionError := {| te_Code := 56; te_Description := "invalid code" |}.
Definition ErrNonceUintOverflow : TransactionError := {| te_Code := 57; te_Description := "nonce uint overflow" |}.
Definition ErrOutOfBounds : TransactionError := {| te_Code := 58; te_Description := "out of bounds" |}.
Definition ErrOverflow : TransactionError := {| te_Code := 59; te_Description := "overflow" |}.
Definition ErrAddressNotInRelated : TransactionError := {| te_Code := 60; te_Description := "address not in related" |}.
Definition ErrNone : TransactionError := {| te_Code := 61; te_Description := "none" |}.
Definition InvalidMaxFee : TransactionError := {| te_Code := 62; te_Description := "invalid max fee" |}.
Definition NodeSyncingError : TransactionError := {| te_Code := 63; te_Description := "node is syncing and not ready yet" |}.
Definition NonceConflictError : TransactionError := {| te_Code := 64; te_Description := "transaction rejected: nonce conflict detected" |}.
Definition GetStateError : TransactionError := {| te_Code := 65; te_Description := "error: Get state" |}.
Definition VerifyTransactionError : TransactionError := {| te_Code := 66; te_Description := "verify transaction failed" |}.
Definition AddToPoolError : TransactionError := {| te_Code := 67; te_Description := "failed to add transaction to pool" |}.
Definition UploadChunkError : TransactionError := {| te_Code := 68; te_Description := "failed to upload chunk" |}.

(** The table, as pairs of a code and an error. *)
Definition code_table : list (Z * TransactionError) :=
  [(1%Z, InvalidTransactionHash); (2%Z, InvalidNewDeviceKey); (3%Z, NotMatchLastHash); (4%Z, InvalidLastDeviceKey);
   (5%Z, InvalidAmount); (6%Z, InvalidPendingUse); (7%Z, InvalidDeploySmartContractToAccount); (8%Z, InvalidCallSmartContractToAccount);
   (9%Z, InvalidCallSmartContractData); (10%Z, InvalidStakeAddress); (11%Z, InvalidUnstakeAddress); (12%Z, InvalidUnstakeAmount);
   (13%Z, InvalidMaxGas); (14%Z, InvalidMaxGasPrice); (15%Z, InvalidCommissionSign); (16%Z, NotEnoughBalanceForCommissionFee);
   (17%Z, InvalidOpenChannelToAccount); (18%Z, InvalidSign); (19%Z, InvalidCommitAddress); (20%Z, InvalidOpenAccountAmount);
   (21%Z, IsNotCreator); (22%Z, NotEnoughVerifyMinerToVerifyTransation); (23%Z, VerifyTransactionSignTimedOut); (24%Z, InvalidCodeStorage);
   (25%Z, InvalidCallNonExitAccount); (26%Z, InvalidNonce); (27%Z, InvalidMinTimeUse); (28%Z, TimeoutPending);
   (29%Z, CannotInitializeBLS); (30%Z, InvalidData); (31%Z, AddressMismatch); (32%Z, RequiresTwoSignatures);
   (33%Z, InvalidTransaction); (34%Z, InvalidChainId); (35%Z, InvalidDataInputLengthForTx0); (36%Z, InvalidBLSSignatureForTx0);
   (37%Z, FailedToRecoverPubkeyForTx0); (38%Z, InvalidAddressMatchForTx0); (39%Z, NonceZeroButPublicKeyNotEmpty); (40%Z, InvalidDeployData);
   (41%Z, InvalidCallData); (42%Z, InvalidBlockData); (43%Z, PublicKeyExists); (44%Z, InvalidSignSecp);
   (45%Z, ErrOutOfGas); (46%Z, ErrCodeStoreOutOfGas); (47%Z, ErrDepth); (48%Z, ErrInsufficientBalance);
   (49%Z, ErrContractAddressCollision); (50%Z, ErrExecutionReverted); (51%Z, ErrMaxCodeSizeExceeded); (52%Z, ErrInvalidJump);
   (53%Z, ErrWriteProtection); (54%Z, ErrReturnDataOutOfBounds); (55%Z, ErrGasUintOverflow); (56%Z, ErrInvalidCode);
   (57%Z, ErrNonceUintOverflow); (58%Z, ErrOutOfBounds); (59%Z, ErrOverflow); (60%Z, ErrAddressNotInRelated);
   (61%Z, ErrNone); (62%Z, InvalidMaxFee); (63%Z, NodeSyncingError); (64%Z, NonceConflictError);
   (65%Z, GetStateError); (66%Z, VerifyTransactionError); (67%Z, AddToPoolError); (68%Z, UploadChunkError)].

Definition CodeToError (code : Z) : option TransactionError := (list_to_map code_table : gmap Z TransactionError) !! code.

(** Exceptions are numbers; an unknown one has no error. *)
Definition MapProtoExceptionToTransactionError (exception : Z) : option TransactionError :=
  match exception with
  | 0 => Some ErrOutOfGas
  | 1 => Some ErrCodeStoreOutOfGas
  | 2 => Some ErrDepth
  | 3 => Some ErrInsufficientBalance
  | 4 => Some ErrContractAddressCollision
  | 5 => Some ErrExecutionReverted
  | 6 => Some ErrMaxCodeSizeExceeded
  | 7 => Some ErrInvalidJump
  | 8 => Some ErrWriteProtection
  | 9 => Some ErrReturnDataOutOfBounds
  | 10 => Some ErrGasUintOverflow
  | 11 => Some ErrInvalidCode
  | 12 => Some ErrNonceUintOverflow
  | 13 => Some ErrOutOfBounds
  | 14 => Some ErrOverflow
  | 15 => Some ErrAddressNotInRelated
  | (-1) => Some ErrNone
  | _ => None
  end%Z.

(** ** The messages *)

Record TransactionHashWithErrorCode := { hc_Hash : bytes; hc_Code : Z }.
Record TransactionHashWithError := { he_Hash : bytes; he_Code : Z; he_Description : string; he_Output : bytes }.

#[export] Instance TransactionHashWithError_eq_dec : EqDecision TransactionHashWithError.
Proof. solve_decision. Defined.

Section Messages.
Context `{EthCommon} `{Proto TransactionError} `{Proto TransactionHashWithErrorCode} `{Proto TransactionHashWithError}.

Definition TransactionError_Marshal (e : TransactionError) : bytes := proto_Marshal e.
Definition TransactionError_Unmarshal (b : bytes) : option TransactionError := proto_Unmarshal b.

(** The hash is a 32-byte array; what the wire brings is cut or padded to it. *)
Definition NewTransactionHashWithErrorCode (hash : bytes) (code : Z) : TransactionHashWithErrorCode := {| hc_Hash := hash; hc_Code := code |}.
Definition HashWithErrorCode_FromProto (p : TransactionHashWithErrorCode) : TransactionHashWithErrorCode :=
  {| hc_Hash := BytesToHash (hc_Hash p); hc_Code := hc_Code p |}.
Definition HashWithErrorCode_Marshal (e : TransactionHashWithErrorCode) : bytes := proto_Marshal e.
Definition HashWithErrorCode_Unmarshal (b : bytes) : option TransactionHashWithErrorCode := HashWithErrorCode_FromProto <$> proto_Unmarshal b.

Definition NewTransactionHashWithError (hash : bytes) (code : Z) (description : string) (output : bytes) : TransactionHashWithError :=
  {| he_Hash := hash; he_Code := code; he_Description := description; he_Output := output |}.
Definition HashWithError_FromProto (p : TransactionHashWithError) : TransactionHashWithError :=
  {| he_Hash := BytesToHash (he_Hash p); he_Code := he_Code p; he_Description := he_Description p; he_Output := he_Output p |}.
Definition HashWithError_Marshal (e : TransactionHashWithError) : bytes := proto_Marshal e.
Definition HashWithError_Unmarshal (b : bytes) : option TransactionHashWithError := HashWithError_FromProto <$> proto_Unmarshal b.

(** ** Theorems *)

Lemma code_table_ok : Forall (λ ce : Z * TransactionError, te_Code ce.2 = ce.1) code_table ∧ code_table.*1 = Z.of_nat <$> seq 1 68.
Proof. split; [by apply (bool_decide_unpack _); vm_compute|by vm_compute]. Qed.

(** The table and the errors agree: the table has an entry for exactly the codes 1 to 68, the entry of a
    code is an error with that code, so an error is found by its own code; an exception of the virtual
    machine is translated to the code 45 after it, the absence of one to 61, and nothing else is. *)
Theorem error_codes :
  (∀ c, is_Some (CodeToError c) ↔ (1 ≤ c ≤ 68)%Z) ∧
  (∀ c e, CodeToError c = Some e → te_Code e = c) ∧
  (∀ x e, MapProtoExceptionToTransactionError x = Some e → CodeToError (te_Code e) = Some e ∧ te_Code e = (if decide (x = -1)%Z then 61 else x + 45)%Z) ∧
  (∀ x, is_Some (MapProtoExceptionToTransactionError x) ↔ (-1 ≤ x ≤ 15)%Z).
Proof.
  destruct code_table_ok as [Hc Hd].
  assert (∀ c e, CodeToError c = Some e → (c, e) ∈ code_table) as Hin by (intros c e E; by apply elem_of_list_to_map_2).
  split_and!.
  - intros c. unfold CodeToError. rewrite <- elem_of_dom, dom_list_to_map_L, elem_of_list_to_set, Hd, list_elem_of_fmap. split.
    + intros (n & -> & Hn%elem_of_seq). lia.
    + intros Hr. exists (Z.to_nat c). rewrite elem_of_seq. lia.
  - intros c e E%Hin. rewrite Forall_forall in Hc. exact (Hc _ E).
  - intros x e. unfold MapProtoExceptionToTransactionError. repeat (case_match; try done); intros [= <-]; split; by vm_compute.
  - intros x. split; [|intros Hx].
    + intros [e E]. revert E. unfold MapProtoExceptionToTransactionError. repeat (case_match; try done); intros _; lia.
    + assert (x ∈ Z.of_nat <$> seq 0 16 ∨ x = -1)%Z as [X| ->]; [|apply list_elem_of_fmap in X as (n & -> & Hn%elem_of_seq)|by eexists].
      * destruct (decide (x = -1)%Z); [by right|left]. apply list_elem_of_fmap. exists (Z.to_nat x). rewrite elem_of_seq. lia.
      * do 16 (destruct n as [|n]; [by eexists|]). lia.
Qed.

(** A message about a failed transaction is read back as it was sent. *)
Theorem hash_error_roundtrip `{!EthCommonLaws} `{!ProtoLaws TransactionHashWithError} `{!ProtoLaws TransactionHashWithErrorCode} h code d o : length h = 32 →
  HashWithError_Unmarshal (HashWithError_Marshal (NewTransactionHashWithError h code d o)) = Some (NewTransactionHashWithError h code d o) ∧
  HashWithErrorCode_Unmarshal (HashWithErrorCode_Marshal (NewTransactionHashWithErrorCode h code)) = Some (NewTransactionHashWithErrorCode h code).
Proof.
  intros L. unfold HashWithError_Unmarshal, HashWithError_Marshal, HashWithErrorCode_Unmarshal, HashWithErrorCode_Marshal. rewrite !proto_roundtrip. simpl.
  unfold HashWithError_FromProto, HashWithErrorCode_FromProto, NewTransactionHashWithError, NewTransactionHashWithErrorCode. simpl. by rewrite BytesToHash_32.
Qed.
End Messages.
