(* ===== verification/TcpClient.v ===== *)
(** * The TCP client of a node ([cmd/rpc-client/client-tcp])

    Applications call the client from many goroutines.  Answers come over one connection and are
    handled by the workers of the socket server ([network/handler.go]): an answer to a request goes to
    the channel stored under its identifier, a receipt to the goroutine that routes receipts
    ([runReceiptRouter]), an error to a channel all waiting calls read.  A call is a program
    ([prog]) of atomic actions; [machine_step] interleaves calls, workers and the router. *)

From S2P Require Import Prelude GoLib Interfaces LevelDB AccountState Wire Receipts TransactionErrors.
From Stdlib Require Import Strings.Byte.

(** ** Commands ([command/commands.go]) *)

Definition c_InitConnection : string := "InitConnection".
Definition c_Ping : string := "Ping".
Definition c_Stats : string := "Stats".
Definition c_ReadTransaction : string := "ReadTransaction".
Definition c_SendTransaction : string := "SendTransaction".
Definition c_SendTransactionWithDeviceKey : string := "SendTransactionWithDeviceKey".
Definition c_SendTransactions : string := "SendTransactions".
Definition c_GetAccountState : string := "GetAccountState".
Definition c_SubscribeToAddress : string := "SubscribeToAddress".
Definition c_GetNonce : string := "GetNonce".
Definition c_GetDeviceKey : string := "GetDeviceKey".
Definition c_Nonce : string := "Nonce".
Definition c_AccountState : string := "AccountState".
Definition c_Receipt : string := "Receipt".
Definition c_TransactionError : string := "TransactionError".
Definition c_EventLogs : string := "EventLogs".
Definition c_QueryLogs : string := "QueryLogs".
Definition c_DeviceKey : string := "DeviceKey".
Definition c_ServerBusy : string := "ServerBusy".
Definition c_ChainId : string := "ChainId".
Definition c_TransactionReceipt : string := "TransactionReceipt".
Definition c_BlockNumber : string := "BlockNumber".
Definition c_RpcResponse : string := "RpcResponse".
Definition c_RpcEvent : string := "RpcEvent".
Definition chainCmdGetChainId : string := "GetChainId".
Definition chainCmdGetBlockNumber : string := "GetBlockNumber".

(** ** Data *)

Record LastDeviceKey := { ldk_TransactionHash : bytes; ldk_LastDeviceKeyFromServer : bytes }.
Record pb_InitConnection := { ic_Address : bytes; ic_Type : string }.
(** What the handler reads of an answer and of an event of the RPC server. *)
Record pb_RpcResponse := { rr_Id : string; rr_Result : bytes }.
Record pb_RpcEvent := { re_SubscriptionId : string; re_Log : bytes }.

Definition pendingReceiptTTL : Z := 60000000000.

Inductive client_error :=
  | ErrNoParent | ErrDial | ErrSend (cmd : string) | ErrTimeout (cmd : string) | ErrTransaction (output : bytes) | ErrWaitTimeout
  | ErrUnmarshal | ErrChain (description : string) | ErrUnexpected (cmd : string) | ErrShort (n : nat) | ErrDeviceKeyLen (n : nat)
  | ErrBuild | ErrEmptyReturn | ErrParse | ErrKey.

Inductive handler_error := ErrorCommandNotFound | ErrHandlerUnmarshal | ErrNonceLen (n : nat) | ErrKeyLen (n : nat) | ErrNilDeviceKeyChan.

(** What the network, the callbacks and the application see. *)
Inductive obs :=
  | Sent (cmd id : string) (body : bytes) (ok : bool)
  | Got (m : pb_Message)
  | Ignored (e : TransactionHashWithError)
  | InitConn (address : bytes) (type : string)
  | Callback (cb : nat) (body : bytes)
  | Dialled.

Section Client.
Context `{EthCommon} `{EthAddress} {EventLog EventLogs Stats : Type}.
Context `{Proto (Receipt EventLog)} `{Proto EventLogs} `{Proto Stats} `{Proto TransactionHashWithError} `{Proto pb_AccountState} `{Proto pb_InitConnection} `{Proto pb_RpcResponse} `{Proto pb_RpcEvent}.

Abbreviation Receipt := (Receipt EventLog).

(** The client with the tables of its router and its handler.  Channels of callers are numbered. *)
Record Client := {
  waiters : gmap bytes (list nat);
  pendingReceipts : gmap bytes (Receipt * Z);
  responses : gmap nat (list Receipt);             (** the callers' channels, of one place each *)
  receiptChan : list (option Receipt);             (** one place *)
  transactionErrorChan : list TransactionHashWithError;   (** one place *)
  accountStateChan : list AccountState;
  accountStateCap : nat;
  deviceKeyChan : option (list LastDeviceKey);     (** one place, or nil *)
  nonceChan : option (list Z);
  eventLogChan : bool;                             (** set, and read by the application *)
  pendingChainRequests : gmap string nat;
  replies : gmap nat (list pb_Message);            (** one place each *)
  handlerPending : bool;                           (** [SetPendingChainRequests] was called *)
  pendingRpcRequests : option (gmap string nat);
  eventCallbacks : gmap string nat;
  next : nat;
}.

Definition with_router (w : gmap bytes (list nat)) (p : gmap bytes (Receipt * Z)) (r : gmap nat (list Receipt)) (c : Client) : Client :=
  {| waiters := w; pendingReceipts := p; responses := r; receiptChan := receiptChan c; transactionErrorChan := transactionErrorChan c;
     accountStateChan := accountStateChan c; accountStateCap := accountStateCap c; deviceKeyChan := deviceKeyChan c; nonceChan := nonceChan c;
     eventLogChan := eventLogChan c; pendingChainRequests := pendingChainRequests c; replies := replies c; handlerPending := handlerPending c;
     pendingRpcRequests := pendingRpcRequests c; eventCallbacks := eventCallbacks c; next := next c |}.
Definition with_chans (r : list (option Receipt)) (e : list TransactionHashWithError) (a : list AccountState) (d : option (list LastDeviceKey)) (n : option (list Z))
    (c : Client) : Client :=
  {| waiters := waiters c; pendingReceipts := pendingReceipts c; responses := responses c; receiptChan := r; transactionErrorChan := e;
     accountStateChan := a; accountStateCap := accountStateCap c; deviceKeyChan := d; nonceChan := n;
     eventLogChan := eventLogChan c; pendingChainRequests := pendingChainRequests c; replies := replies c; handlerPending := handlerPending c;
     pendingRpcRequests := pendingRpcRequests c; eventCallbacks := eventCallbacks c; next := next c |}.
Definition with_requests (p : gmap string nat) (r : gmap nat (list pb_Message)) (c : Client) : Client :=
  {| waiters := waiters c; pendingReceipts := pendingReceipts c; responses := responses c; receiptChan := receiptChan c;
     transactionErrorChan := transactionErrorChan c; accountStateChan := accountStateChan c; accountStateCap := accountStateCap c;
     deviceKeyChan := deviceKeyChan c; nonceChan := nonceChan c; eventLogChan := eventLogChan c; pendingChainRequests := p; replies := r;
     handlerPending := handlerPending c; pendingRpcRequests := pendingRpcRequests c; eventCallbacks := eventCallbacks c; next := next c |}.
Definition with_events (b : bool) (q : option (gmap string nat)) (cb : gmap string nat) (c : Client) : Client :=
  {| waiters := waiters c; pendingReceipts := pendingReceipts c; responses := responses c; receiptChan := receiptChan c;
     transactionErrorChan := transactionErrorChan c; accountStateChan := accountStateChan c; accountStateCap := accountStateCap c;
     deviceKeyChan := deviceKeyChan c; nonceChan := nonceChan c; eventLogChan := b; pendingChainRequests := pendingChainRequests c;
     replies := replies c; handlerPending := handlerPending c; pendingRpcRequests := q; eventCallbacks := cb; next := next c |}.
Definition with_next (n : nat) (c : Client) : Client :=
  {| waiters := waiters c; pendingReceipts := pendingReceipts c; responses := responses c; receiptChan := receiptChan c;
     transactionErrorChan := transactionErrorChan c; accountStateChan := accountStateChan c; accountStateCap := accountStateCap c;
     deviceKeyChan := deviceKeyChan c; nonceChan := nonceChan c; eventLogChan := eventLogChan c; pendingChainRequests := pendingChainRequests c;
     replies := replies c; handlerPending := handlerPending c; pendingRpcRequests := pendingRpcRequests c; eventCallbacks := eventCallbacks c; next := n |}.

(** The two constructors, once connected.  The storage client makes no channel for device keys and
    nonces, and does not give its handler the table of requests. *)
Definition NewClient : Client :=
  {| waiters := ∅; pendingReceipts := ∅; responses := ∅; receiptChan := []; transactionErrorChan := []; accountStateChan := []; accountStateCap := 2000;
     deviceKeyChan := Some []; nonceChan := Some []; eventLogChan := false; pendingChainRequests := ∅; replies := ∅; handlerPending := true;
     pendingRpcRequests := None; eventCallbacks := ∅; next := 0 |}.
Definition NewStorageClient : Client :=
  {| waiters := ∅; pendingReceipts := ∅; responses := ∅; receiptChan := []; transactionErrorChan := []; accountStateChan := []; accountStateCap := 1;
     deviceKeyChan := None; nonceChan := None; eventLogChan := true; pendingChainRequests := ∅; replies := ∅; handlerPending := false;
     pendingRpcRequests := None; eventCallbacks := ∅; next := 0 |}.

(** ** Routing receipts ([runReceiptRouter]) *)

(** A send that does not wait: a full channel drops the receipt. *)
Definition offer (r : Receipt) (ch : nat) (m : gmap nat (list Receipt)) : gmap nat (list Receipt) :=
  match m !! ch with Some [] => <[ch := [r]]> m | _ => m end.

Definition route_receipt (now : Z) (c : Client) : option Client :=
  match receiptChan c with
  | [] => None
  | x :: rest =>
      let c := with_chans rest (transactionErrorChan c) (accountStateChan c) (deviceKeyChan c) (nonceChan c) c in
      match x with
      | None => Some c
      | Some r =>
          let txHash := TransactionHash r in
          match waiters c !! txHash with
          | Some chans => Some (with_router (delete txHash (waiters c)) (pendingReceipts c) (foldl (λ m ch, offer r ch m) (responses c) chans) c)
          | None => Some (with_router (waiters c) (<[txHash := (r, now + pendingReceiptTTL)%Z]> (pendingReceipts c)) (responses c) c)
          end
      end
  end.

(** A receipt that came before and has expired is deleted, and the caller is not registered. *)
Definition register (now : Z) (txHash : bytes) (ch : nat) (c : Client) : Client :=
  match pendingReceipts c !! txHash with
  | Some (r, expiresAt) =>
      if (expiresAt <? now)%Z then with_router (waiters c) (delete txHash (pendingReceipts c)) (responses c) c
      else with_router (waiters c) (delete txHash (pendingReceipts c)) (offer r ch (responses c)) c
  | None => with_router (<[txHash := default [] (waiters c !! txHash) ++ [ch]]> (waiters c)) (pendingReceipts c) (responses c) c
  end.

Fixpoint remove_chan (ch : nat) (l : list nat) : list nat :=
  match l with [] => [] | x :: l => if decide (x = ch) then l else x :: remove_chan ch l end.

Definition cancel (txHash : bytes) (ch : nat) (c : Client) : Client :=
  match waiters c !! txHash with
  | None => c
  | Some chans =>
      match remove_chan ch chans with
      | [] => with_router (delete txHash (waiters c)) (pendingReceipts c) (responses c) c
      | chans => with_router (<[txHash := chans]> (waiters c)) (pendingReceipts c) (responses c) c
      end
  end.

Definition cleanup_pending (now : Z) (c : Client) : Client :=
  with_router (waiters c) (filter (λ kv : bytes * (Receipt * Z), ¬ (kv.2.2 < now)%Z) (pendingReceipts c)) (responses c) c.

(** ** The handler ([network/handler.go]) *)

(** What a handler may wait to send; [ToReply] is the channel of a request. *)
Inductive send :=
  | ToAccountState (a : AccountState) | ToTransactionError (e : TransactionHashWithError) | ToNonce (n : Z) | ToDeviceKey (k : LastDeviceKey)
  | ToReceipt (r : Receipt) | ToEventLogs (l : EventLogs) | ToReply (ch : nat) (m : pb_Message) | ToRpc (ch : nat) (r : pb_RpcResponse).

Inductive hresult := HReturn (e : option handler_error) | HSend (s : send).

(** Sends with their channels' capacities; [None] waits.  A nil channel waits forever; the
    application reads the event logs and the answers of the RPC server. *)
Definition try_send (s : send) (c : Client) : option Client :=
  match s with
  | ToAccountState a =>
      if decide (length (accountStateChan c) < accountStateCap c)
      then Some (with_chans (receiptChan c) (transactionErrorChan c) (accountStateChan c ++ [a]) (deviceKeyChan c) (nonceChan c) c) else None
  | ToTransactionError e =>
      if decide (length (transactionErrorChan c) < 1)
      then Some (with_chans (receiptChan c) (transactionErrorChan c ++ [e]) (accountStateChan c) (deviceKeyChan c) (nonceChan c) c) else None
  | ToNonce n =>
      match nonceChan c with
      | Some [] => Some (with_chans (receiptChan c) (transactionErrorChan c) (accountStateChan c) (deviceKeyChan c) (Some [n]) c)
      | _ => None
      end
  | ToDeviceKey k =>
      match deviceKeyChan c with
      | Some [] => Some (with_chans (receiptChan c) (transactionErrorChan c) (accountStateChan c) (Some [k]) (nonceChan c) c)
      | _ => None
      end
  | ToReceipt r =>
      if decide (length (receiptChan c) < 1)
      then Some (with_chans (receiptChan c ++ [Some r]) (transactionErrorChan c) (accountStateChan c) (deviceKeyChan c) (nonceChan c) c) else None
  | ToReply ch m => match replies c !! ch with Some [] => Some (with_requests (pendingChainRequests c) (<[ch := [m]]> (replies c)) c) | _ => None end
  | ToEventLogs _ | ToRpc _ _ => Some c
  end.

Definition handleInitConnection (m : pb_Message) (c : Client) : hresult * list obs * Client :=
  match proto_Unmarshal (Body m) with
  | None => (HReturn (Some ErrHandlerUnmarshal), [], c)
  | Some i => (HReturn None, [InitConn (BytesToAddress (ic_Address i)) (ic_Type i)], c)
  end.

Definition handleAccountState (m : pb_Message) (c : Client) : hresult * list obs * Client :=
  match AccountState_Unmarshal (Body m) empty_account with
  | (Ok _, a) => (HSend (ToAccountState a), [], c)
  | _ => (HReturn (Some ErrHandlerUnmarshal), [], c)
  end.

Definition handleTransactionError (m : pb_Message) (c : Client) : hresult * list obs * Client :=
  match HashWithError_Unmarshal (Body m) with
  | None => (HReturn (Some ErrHandlerUnmarshal), [], c)
  | Some e => (HSend (ToTransactionError e), [], c)
  end.

Definition handleNonce (m : pb_Message) (c : Client) : hresult * list obs * Client :=
  if decide (length (Body m) = 8) then (HSend (ToNonce (default 0%Z (Uint64 (Body m)))), [], c)
  else (HReturn (Some (ErrNonceLen (length (Body m)))), [], c).

Definition device_key_of (data : bytes) : option LastDeviceKey :=
  if decide (length data = 64 ∨ length data = 32)
  then Some {| ldk_TransactionHash := take 32 data; ldk_LastDeviceKeyFromServer := if decide (length data = 32) then zeroHash else drop 32 data |}
  else None.

Definition handleDeviceKey (m : pb_Message) (c : Client) : hresult * list obs * Client :=
  match device_key_of (Body m) with
  | None => (HReturn (Some (ErrKeyLen (length (Body m)))), [], c)
  | Some k => match deviceKeyChan c with
              | Some _ => (HSend (ToDeviceKey k), [], c)
              | None => (HReturn (Some ErrNilDeviceKeyChan), [], c)
              end
  end.

Definition handleReceipt (m : pb_Message) (c : Client) : hresult * list obs * Client :=
  match proto_Unmarshal (Body m) with
  | None => (HReturn (Some ErrHandlerUnmarshal), [], c)
  | Some r => (HSend (ToReceipt r), [], c)
  end.

Definition handleEventLogs (m : pb_Message) (c : Client) : hresult * list obs * Client :=
  match proto_Unmarshal (Body m) with
  | None => (HReturn (Some ErrHandlerUnmarshal), [], c)
  | Some l => if eventLogChan c then (HSend (ToEventLogs l), [], c) else (HReturn None, [], c)
  end.

Definition handleStats (m : pb_Message) (c : Client) : hresult * list obs * Client :=
  match proto_Unmarshal (Body m) : option Stats with
  | None => (HReturn (Some ErrHandlerUnmarshal), [], c)
  | Some _ => (HReturn None, [], c)
  end.

Definition handleRpcResponse (m : pb_Message) (c : Client) : hresult * list obs * Client :=
  match proto_Unmarshal (Body m) with
  | None => (HReturn (Some ErrHandlerUnmarshal), [], c)
  | Some resp =>
      match pendingRpcRequests c with
      | None => (HReturn None, [], c)
      | Some p => match p !! rr_Id resp with
                  | Some ch => (HSend (ToRpc ch resp), [], with_events (eventLogChan c) (Some (delete (rr_Id resp) p)) (eventCallbacks c) c)
                  | None => (HReturn None, [], c)
                  end
      end
  end.

Definition handleRpcEvent (m : pb_Message) (c : Client) : hresult * list obs * Client :=
  match proto_Unmarshal (Body m) with
  | None => (HReturn (Some ErrHandlerUnmarshal), [], c)
  | Some e => match eventCallbacks c !! re_SubscriptionId e with
              | Some cb => (HReturn None, [Callback cb (Body m)], c)
              | None => (HReturn None, [], c)
              end
  end.

Definition handleChainResponse (m : pb_Message) (c : Client) : hresult * list obs * Client :=
  if negb (handlerPending c) then (HReturn None, [], c)
  else match pendingChainRequests c !! ID m with
       | Some ch => (HSend (ToReply ch m), [], with_requests (delete (ID m) (pendingChainRequests c)) (replies c) c)
       | None => (HReturn None, [], c)
       end.

Definition HandleRequest (m : pb_Message) (c : Client) : hresult * list obs * Client :=
  let cmd := Command m in
  let answered := negb (bool_decide (ID m = EmptyString)) in
  if decide (cmd = c_InitConnection) then handleInitConnection m c
  else if decide (cmd = c_AccountState) then if answered then handleChainResponse m c else handleAccountState m c
  else if decide (cmd = c_Nonce) then if answered then handleChainResponse m c else handleNonce m c
  else if decide (cmd = c_TransactionError) then if answered then handleChainResponse m c else handleTransactionError m c
  else if decide (cmd = c_Receipt) then handleReceipt m c
  else if decide (cmd = c_DeviceKey) then if answered then handleChainResponse m c else handleDeviceKey m c
  else if decide (cmd = c_EventLogs) then handleEventLogs m c
  else if decide (cmd = c_QueryLogs) then handleEventLogs m c
  else if decide (cmd = c_Stats) then handleStats m c
  else if decide (cmd = c_ServerBusy) then (HReturn None, [], c)
  else if decide (cmd = c_RpcResponse) then handleRpcResponse m c
  else if decide (cmd = c_RpcEvent) then handleRpcEvent m c
  else if decide (cmd = c_ChainId ∨ cmd = c_TransactionReceipt ∨ cmd = c_BlockNumber) then handleChainResponse m c
  else (HReturn (Some ErrorCommandNotFound), [], c).

Definition SetEventLogsChan (c : Client) : Client := with_events true (pendingRpcRequests c) (eventCallbacks c) c.
Definition SetPendingRpcRequests (p : gmap string nat) (c : Client) : Client := with_events (eventLogChan c) (Some p) (eventCallbacks c) c.
Definition RegisterEventCallback (subID : string) (cb : nat) (c : Client) : Client :=
  with_events (eventLogChan c) (pendingRpcRequests c) (<[subID := cb]> (eventCallbacks c)) c.
Definition RemoveEventCallback (subID : string) (c : Client) : Client :=
  with_events (eventLogChan c) (pendingRpcRequests c) (delete subID (eventCallbacks c)) c.
Definition AddEventCallback (cb : nat) (c : Client) : Client := RegisterEventCallback "_default" cb c.

(** ** Calls as programs *)

(** How the wait for a receipt ends. *)
Inductive wait_result := WReceipt (r : Receipt) | WError (e : TransactionHashWithError) | WTimer.

(** The atomic actions of a call: tests of the parent connection, dialling it, identifiers, the clock,
    sends, the table of requests, the requests to the router, the selects, and the new channel of event
    logs.  [SelectReceipt] is
    the loop of [waitReceipt]: an error of another transaction is taken out of the channel and the loop
    goes on. *)
Inductive prog (A : Type) : Type :=
  | Ret (a : A)
  | Connected (k : bool → prog A)
  | Dial (k : bool → prog A)
  | Uuid (k : string → prog A)
  | Now (k : Z → prog A)
  | Send (cmd id : string) (body : bytes) (k : bool → prog A)
  | StoreRequest (id : string) (k : nat → prog A)
  | DeleteRequest (id : string) (k : prog A)
  | SelectReply (ch : nat) (k : option pb_Message → prog A)
  | Register (txHash : bytes) (k : nat → prog A)
  | Cancel (txHash : bytes) (ch : nat) (k : prog A)
  | Receive (ch : nat) (k : Receipt → prog A)
  | SelectReceipt (txHash : bytes) (ch : nat) (k : wait_result → prog A)
  | TryReceive (ch : nat) (k : option Receipt → prog A)
  | TakeAccountState (k : AccountState → prog A)
  | SetEvents (k : prog A).
#[global] Arguments Ret {A} _.
#[global] Arguments Connected {A} _.
#[global] Arguments Dial {A} _.
#[global] Arguments Uuid {A} _.
#[global] Arguments Now {A} _.
#[global] Arguments Send {A} _ _ _ _.
#[global] Arguments StoreRequest {A} _ _.
#[global] Arguments DeleteRequest {A} _ _.
#[global] Arguments SelectReply {A} _ _.
#[global] Arguments Register {A} _ _.
#[global] Arguments Cancel {A} _ _ _.
#[global] Arguments Receive {A} _ _.
#[global] Arguments SelectReceipt {A} _ _ _.
#[global] Arguments TryReceive {A} _ _.
#[global] Arguments TakeAccountState {A} _.
#[global] Arguments SetEvents {A} _.

Fixpoint prog_bind {A B} (p : prog A) (f : A → prog B) : prog B :=
  match p with
  | Ret a => f a
  | Connected k => Connected (λ b, prog_bind (k b) f)
  | Dial k => Dial (λ b, prog_bind (k b) f)
  | Uuid k => Uuid (λ s, prog_bind (k s) f)
  | Now k => Now (λ t, prog_bind (k t) f)
  | Send cmd id body k => Send cmd id body (λ b, prog_bind (k b) f)
  | StoreRequest id k => StoreRequest id (λ ch, prog_bind (k ch) f)
  | DeleteRequest id k => DeleteRequest id (prog_bind k f)
  | SelectReply ch k => SelectReply ch (λ m, prog_bind (k m) f)
  | Register h k => Register h (λ ch, prog_bind (k ch) f)
  | Cancel h ch k => Cancel h ch (prog_bind k f)
  | Receive ch k => Receive ch (λ r, prog_bind (k r) f)
  | SelectReceipt h ch k => SelectReceipt h ch (λ r, prog_bind (k r) f)
  | TryReceive ch k => TryReceive ch (λ r, prog_bind (k r) f)
  | TakeAccountState k => TakeAccountState (λ a, prog_bind (k a) f)
  | SetEvents k => SetEvents (prog_bind k f)
  end.

(** A call that may fail. *)
Definition call (A : Type) : Type := prog (client_error + A).
Definition ok {A} (a : A) : call A := Ret (inr a).
Definition fail {A} (e : client_error) : call A := Ret (inl e).
Definition call_bind {A B} (p : call A) (f : A → call B) : call B :=
  prog_bind p (λ r, match r with inl e => Ret (inl e) | inr a => f a end).

(** ** Requests by identifier ([client_chain.go]) *)

Definition sendChainRequest (cmd : string) (body : bytes) : call pb_Message :=
  Connected (λ up,
    if negb up then fail ErrNoParent
    else Uuid (λ id, StoreRequest id (λ respCh,
      Send cmd id body (λ sent,
        if sent then SelectReply respCh (λ r,
          match r with
          | Some resp => ok resp
          | None => DeleteRequest id (fail (ErrTimeout cmd))
          end)
        else DeleteRequest id (fail (ErrSend cmd)))))).

(** [ChainGetChainId] and [ChainGetBlockNumber]. *)
Definition uint64_reply (m : pb_Message) : call Z :=
  if decide (length (Body m) < 8) then fail (ErrShort (length (Body m))) else ok (default 0%Z (Uint64 (Body m))).
Definition ChainGetChainId : call Z := call_bind (sendChainRequest chainCmdGetChainId []) uint64_reply.
Definition ChainGetBlockNumber : call Z := call_bind (sendChainRequest chainCmdGetBlockNumber []) uint64_reply.

Definition GetAccountState (address : bytes) : call AccountState :=
  call_bind (sendChainRequest c_GetAccountState address) (λ m,
    if decide (Command m = c_TransactionError) then
      match HashWithError_Unmarshal (Body m) with
      | None => fail ErrUnmarshal
      | Some e => fail (ErrChain (he_Description e))
      end
    else if decide (Command m = c_AccountState) then
      match AccountState_Unmarshal (Body m) empty_account with
      | (Ok _, a) => ok a
      | _ => fail ErrUnmarshal
      end
    else fail (ErrUnexpected (Command m))).

(** A short answer gives the nonce 0. *)
Definition ChainGetNonce (address : bytes) : call Z :=
  call_bind (sendChainRequest c_GetNonce address) (λ m,
    ok (if decide (8 ≤ length (Body m)) then default 0%Z (Uint64 (Body m)) else 0%Z)).

Definition ChainGetDeviceKey (lastHash : bytes) : call LastDeviceKey :=
  call_bind (sendChainRequest c_GetDeviceKey lastHash) (λ m,
    match device_key_of (Body m) with
    | None => fail (ErrDeviceKeyLen (length (Body m)))
    | Some k => ok k
    end).

(** ** Waiting for receipts ([client.go]) *)

Definition waitReceipt (txHash : bytes) (timeout : Z) : call Receipt :=
  Register txHash (λ responseCh,
    if (timeout <=? 0)%Z then Receive responseCh (λ r, ok r)
    else SelectReceipt txHash responseCh (λ w,
      match w with
      | WReceipt r => ok r
      | WError e => Cancel txHash responseCh (fail (ErrTransaction (BytesToHash (he_Output e))))
      | WTimer => Cancel txHash responseCh (TryReceive responseCh (λ r,
          match r with Some r => ok r | None => fail ErrWaitTimeout end))
      end)).

Definition FindReceiptByHash (txHash : bytes) : call Receipt := waitReceipt txHash 20000000000.

Definition ReconnectToParent : call unit := Dial (λ up, if up then ok tt else fail ErrDial).

(** The beginning of every call: the parent connection, dialled again if it is gone. *)
Definition ensure_parent : call unit := Connected (λ up, if up then ok tt else ReconnectToParent).

(** [MessageSender.SendBytes] to the parent. *)
Definition SendBytes (cmd : string) (body : bytes) : prog bool := Uuid (λ id, Send cmd id body Ret).

Definition keep_alive_tick : prog unit := Connected (λ up, if up then prog_bind (SendBytes c_Ping []) (λ _, Ret tt) else Ret tt).

(** ** Execution *)

(** What the world decides about an action: the answer of a test or a send, an identifier, the clock,
    and the case a select takes. *)
Inductive choice := CBool (b : bool) | CString (s : string) | CTime (t : Z) | CGo | CReceive | CError | CTimer.

(** One action of a call; [None]: the choice does not fit or the action must wait. *)
Definition thread_step {A} (e : choice) (p : prog A) (c : Client) : option (prog A * list obs * Client) :=
  match p, e with
  | Connected k, CBool b => Some (k b, [], c)
  | Dial k, CBool b => Some (k b, if b then [Dialled] else [], c)
  | Uuid k, CString s => Some (k s, [], c)
  | Now k, CTime t => Some (k t, [], c)
  | Send cmd id body k, CBool b => Some (k b, [Sent cmd id body b], c)
  | StoreRequest id k, CGo =>
      Some (k (next c), [], with_next (S (next c)) (with_requests (<[id := next c]> (pendingChainRequests c)) (<[next c := []]> (replies c)) c))
  | DeleteRequest id k, CGo => Some (k, [], with_requests (delete id (pendingChainRequests c)) (replies c) c)
  | SelectReply ch k, CReceive =>
      match replies c !! ch with
      | Some (m :: rest) => Some (k (Some m), [Got m], with_requests (pendingChainRequests c) (<[ch := rest]> (replies c)) c)
      | _ => None
      end
  | SelectReply ch k, CTimer => Some (k None, [], c)
  | Register h k, CTime now =>
      Some (k (next c), [], register now h (next c) (with_next (S (next c)) (with_router (waiters c) (pendingReceipts c) (<[next c := []]> (responses c)) c)))
  | Cancel h ch k, CGo => Some (k, [], cancel h ch c)
  | Receive ch k, CReceive =>
      match responses c !! ch with
      | Some (r :: rest) => Some (k r, [], with_router (waiters c) (pendingReceipts c) (<[ch := rest]> (responses c)) c)
      | _ => None
      end
  | SelectReceipt h ch k, CReceive =>
      match responses c !! ch with
      | Some (r :: rest) => Some (k (WReceipt r), [], with_router (waiters c) (pendingReceipts c) (<[ch := rest]> (responses c)) c)
      | _ => None
      end
  | SelectReceipt h ch k, CError =>
      match transactionErrorChan c with
      | [] => None
      | e :: rest =>
          let c := with_chans (receiptChan c) rest (accountStateChan c) (deviceKeyChan c) (nonceChan c) c in
          if decide (BytesToHash (he_Hash e) = h) then Some (k (WError e), [], c) else Some (p, [Ignored e], c)
      end
  | SelectReceipt h ch k, CTimer => Some (k WTimer, [], c)
  | TryReceive ch k, CGo =>
      match responses c !! ch with
      | Some (r :: rest) => Some (k (Some r), [], with_router (waiters c) (pendingReceipts c) (<[ch := rest]> (responses c)) c)
      | _ => Some (k None, [], c)
      end
  | TakeAccountState k, CReceive =>
      match accountStateChan c with
      | [] => None
      | a :: rest => Some (k a, [], with_chans (receiptChan c) (transactionErrorChan c) rest (deviceKeyChan c) (nonceChan c) c)
      end
  | SetEvents k, CGo => Some (k, [], SetEventLogsChan c)
  | _, _ => None
  end.

(** A running call: what it was started as, what is left of it, and what it has done. *)
Record Thread (A : Type) := { t_call : prog A; t_rest : prog A; t_trace : list obs }.
#[global] Arguments t_call {A} _.
#[global] Arguments t_rest {A} _.
#[global] Arguments t_trace {A} _.

(** The client, its calls and the workers that wait to send. *)
Record Machine (A : Type) := { m_client : Client; m_threads : list (Thread A); m_sending : list send; m_log : list obs }.
#[global] Arguments m_client {A} _.
#[global] Arguments m_threads {A} _.
#[global] Arguments m_sending {A} _.
#[global] Arguments m_log {A} _.

(** A call starts; a call does an action; a worker takes a message; a waiting send is done; the router
    takes a receipt; its ticker fires. *)
Inductive event (A : Type) := Start (p : prog A) | Move (i : nat) (e : choice) | Arrive (m : pb_Message) | Deliver (i : nat) | Route (now : Z) | Tick (now : Z).
#[global] Arguments Start {A} _.
#[global] Arguments Move {A} _ _.
#[global] Arguments Arrive {A} _.
#[global] Arguments Deliver {A} _.
#[global] Arguments Route {A} _.
#[global] Arguments Tick {A} _.

Definition machine_step {A} (e : event A) (m : Machine A) : option (Machine A) :=
  match e with
  | Start p => Some {| m_client := m_client m; m_threads := m_threads m ++ [{| t_call := p; t_rest := p; t_trace := [] |}]; m_sending := m_sending m; m_log := m_log m |}
  | Move i e =>
      t ← m_threads m !! i;
      '(p, o, c) ← thread_step e (t_rest t) (m_client m);
      Some {| m_client := c; m_threads := <[i := {| t_call := t_call t; t_rest := p; t_trace := t_trace t ++ o |}]> (m_threads m);
              m_sending := m_sending m; m_log := m_log m |}
  | Arrive msg =>
      let '(r, o, c) := HandleRequest msg (m_client m) in
      Some {| m_client := c; m_threads := m_threads m; m_sending := match r with HSend s => m_sending m ++ [s] | HReturn _ => m_sending m end; m_log := m_log m ++ o |}
  | Deliver i =>
      s ← m_sending m !! i;
      c ← try_send s (m_client m);
      Some {| m_client := c; m_threads := m_threads m; m_sending := delete i (m_sending m); m_log := m_log m |}
  | Route now => c ← route_receipt now (m_client m); Some {| m_client := c; m_threads := m_threads m; m_sending := m_sending m; m_log := m_log m |}
  | Tick now => Some {| m_client := cleanup_pending now (m_client m); m_threads := m_threads m; m_sending := m_sending m; m_log := m_log m |}
  end.

Fixpoint machine_run {A} (es : list (event A)) (m : Machine A) : option (Machine A) :=
  match es with [] => Some m | e :: es => m ← machine_step e m; machine_run es m end.

Definition start {A} (c : Client) : Machine A := {| m_client := c; m_threads := []; m_sending := []; m_log := [] |}.

End Client.
Arguments Client : clear implicits.
Arguments hresult : clear implicits.
Arguments send : clear implicits.
