(* ===== verification/TcpFlows.v ===== *)
(** * Transactions over the TCP client ([client.go], [controllers/transaction_controller.go],
    [tcp_trans/transaction.go], [pkg/file_handler/tcpFile.go])

    The calls an application makes: build a transaction from the state of the sender's account, sign it
    with the key of the client, send it and wait for its receipt; the same through files; and the two
    queries the file handler asks the chain. *)

From S2P Require Import Prelude GoLib Interfaces LevelDB HexCodec AccountState AccountAbi Wire Receipts TransactionErrors Transaction TransactionTheorems FileHandler TcpClient.
From Stdlib Require Import Strings.Byte.

Record pb_TransactionWithDeviceKey := { wd_Transaction : option pb_Transaction; wd_DeviceKey : bytes }.

(** [proto.Marshal] of the two messages that carry transactions. *)
Class DeviceKeyCodec := {
  wd_Marshal : pb_TransactionWithDeviceKey → bytes;
  wd_Unmarshal : bytes → option pb_TransactionWithDeviceKey;
  txs_Marshal : list (option pb_Transaction) → bytes;
  txs_Unmarshal : bytes → option (list (option pb_Transaction));
}.

Class DeviceKeyCodecLaws `{DeviceKeyCodec} : Prop := {
  wd_wire m : wd_Unmarshal (wd_Marshal m) = Some {| wd_Transaction := after_wire <$> wd_Transaction m; wd_DeviceKey := wd_DeviceKey m |};
  txs_wire l : txs_Unmarshal (txs_Marshal (Some <$> l)) = Some (Some ∘ after_wire <$> l);
}.

(** go-ethereum's keys: parsing, [crypto.Sign] and [types.SignTx] under the latest signer. *)
Class EthKeys (Key : Type) := {
  HexToECDSA : string → option Key;
  crypto_Sign : bytes → Key → option bytes;
  SignTx : Z → Key → eth_tx → option eth_tx;
}.

Record ClientConfig := { KeyPair : bytes; PublicKeyHex : string; ChainId : Z; PkAdminFileStorage : string; OwnerFileStorageAddress : string; logInfo : bool }.

(** The arguments of a transaction, as the application gives them. *)
Record tx_args := { a_from : bytes; a_to : bytes; a_amount : Z; a_data : bytes; a_related : list bytes; a_maxGas : Z; a_maxGasPrice : Z; a_maxTimeUse : Z }.

Section Flows.
Context `{EthCommon} `{EthAddress} `{EthHex} `{EthTypes} `{TxCrypto} `{TxCodec} `{DeviceKeyCodec} `{AbiCodec} {Key : Type} `{EthKeys Key}.
Context `{Proto TransactionHashData} `{Proto pb_CallData} `{Proto pb_DeployData} {EventLog : Type}.
Context `{Proto TransactionHashWithError} `{Proto pb_AccountState}.
Context (config : ClientConfig).

Abbreviation call := (call (EventLog:=EventLog)).
Abbreviation Receipt := (Receipt EventLog).
Infix "≫=?" := call_bind (at level 60, right associativity).

(** ** The controller *)

(** [NewTransaction] and [SetSign], the beginning of every method. *)
Definition new_signed (a : tx_args) (lastDeviceKey newDeviceKey : bytes) (nonce chainId : Z) : Transaction :=
  SetSign (KeyPair config)
    (NewTransaction (a_from a) (a_to a) (a_amount a) (a_maxGas a) (a_maxGasPrice a) (a_maxTimeUse a) (a_data a) (a_related a) lastDeviceKey newDeviceKey nonce chainId).

Definition send_or_fail {A} (cmd : string) (body : bytes) (a : A) : call A :=
  prog_bind (SendBytes cmd body) (λ sent, if sent then ok a else fail (ErrSend cmd)).

Definition controller_SendTransaction (a : tx_args) (lastDeviceKey newDeviceKey : bytes) (nonce chainId : Z) : call Transaction :=
  let transaction := new_signed a lastDeviceKey newDeviceKey nonce chainId in
  send_or_fail c_SendTransaction (tx_Marshal (proto transaction)) transaction.

Definition controller_ReadTransaction (a : tx_args) (lastDeviceKey newDeviceKey : bytes) (nonce chainId : Z) : call Transaction :=
  let transaction := new_signed a lastDeviceKey newDeviceKey nonce chainId in
  send_or_fail c_ReadTransaction (tx_Marshal (proto transaction)) transaction.

Definition controller_SendTransactions (transactions : list Transaction) : call unit :=
  send_or_fail c_SendTransactions (txs_Marshal (Some ∘ proto <$> transactions)) tt.

Definition with_device_key (transaction : Transaction) (deviceKey : bytes) : bytes :=
  wd_Marshal {| wd_Transaction := Some (proto transaction); wd_DeviceKey := deviceKey |}.

Definition controller_SendTransactionWithDeviceKey (a : tx_args) (lastDeviceKey newDeviceKey : bytes) (nonce : Z) (deviceKey : bytes) (chainId : Z) : call Transaction :=
  let transaction := new_signed a lastDeviceKey newDeviceKey nonce chainId in
  send_or_fail c_SendTransactionWithDeviceKey (with_device_key transaction deviceKey) transaction.

Definition SendNewTransactionWithDeviceKey (transaction : Transaction) (deviceKey : bytes) : call Transaction :=
  let transaction := SetSign (KeyPair config) transaction in
  send_or_fail c_SendTransactionWithDeviceKey (with_device_key transaction deviceKey) transaction.

(** *** Transactions in files *)

(** The directory [txs]; a file is named after the hash, and writing it succeeds. *)
Definition controller_SaveTransactionWithDeviceKeyToFile (a : tx_args) (lastDeviceKey newDeviceKey : bytes) (nonce : Z) (deviceKey : bytes) (chainId : Z)
    (fs : gmap string bytes) : gmap string bytes :=
  let transaction := new_signed a lastDeviceKey newDeviceKey nonce chainId in
  let '(h, transaction) := Hash transaction in
  <[AccountState.HashHex h := with_device_key transaction deviceKey]> fs.

(** The message of the transaction, which may be missing, and the key. *)
Definition LoadTransactionWithDeviceKeyFromFile (filePath : string) (fs : gmap string bytes) : option (option pb_Transaction * bytes) :=
  b ← fs !! filePath; m ← wd_Unmarshal b; Some (wd_Transaction m, wd_DeviceKey m).

Definition LoadedTransactionWithDeviceKeyFromFile (filePath : string) (fs : gmap string bytes) : option bytes :=
  '(t, k) ← LoadTransactionWithDeviceKeyFromFile filePath fs; Some (wd_Marshal {| wd_Transaction := t; wd_DeviceKey := k |}).

(** Both senders connect first, and end the process when that fails.  A file that cannot be loaded is
    sent as an empty message by the first and left out by the second; errors of sending are logged. *)
Definition SendAllTransactionsWidthDeviceKeyInDirectory (files : list string) (fs : gmap string bytes) : call unit :=
  Dial (λ up,
    if negb up then fail ErrDial
    else foldr (λ f rest, prog_bind (SendBytes c_SendTransactionWithDeviceKey (default [] (LoadedTransactionWithDeviceKeyFromFile f fs))) (λ _, rest))
           (ok tt) files).

Definition loadable (files : list string) (fs : gmap string bytes) : list (option pb_Transaction) :=
  omap (λ f, fst <$> LoadTransactionWithDeviceKeyFromFile f fs) files.

Definition SendAllTransactionsInDirectory (files : list string) (fs : gmap string bytes) : call unit :=
  Dial (λ up,
    if negb up then fail ErrDial
    else prog_bind (SendBytes c_SendTransactions (txs_Marshal (loadable files fs))) (λ _, ok tt)).

(** ** The client's calls *)

(** The nonce is asked for and not used. *)
Definition SendTransaction (a : tx_args) : call Receipt :=
  ensure_parent ≫=? λ _,
  ChainGetNonce (a_from a) ≫=? λ _,
  GetAccountState (a_from a) ≫=? λ as_,
  controller_SendTransaction a zeroHash zeroHash (nonce as_) (ChainId config) ≫=? λ tx,
  waitReceipt (Hash tx).1 pendingReceiptTTL.

Definition ReadTransaction (a : tx_args) : call Receipt :=
  ensure_parent ≫=? λ _,
  GetAccountState (a_from a) ≫=? λ as_,
  controller_ReadTransaction a zeroHash zeroHash (nonce as_) (ChainId config) ≫=? λ tx,
  FindReceiptByHash (Hash tx).1.

(** A device key: the hash of [raw], the hash of a text and the time. *)
Definition raw_device_key (h : bytes) (now : Z) : bytes := Keccak256 (str_bytes (hex_EncodeToString h +:+ "-" +:+ FormatUint now)).

(** The state of the account and the keys a transaction with device key is made from. *)
Definition device_keys (from : bytes) : call (AccountState * bytes * bytes * bytes) :=
  ensure_parent ≫=? λ _,
  GetAccountState from ≫=? λ as_,
  ChainGetDeviceKey (lastHash as_) ≫=? λ receiveDeviceKey,
  Now (λ now,
    let rawNewDeviceKey := raw_device_key (ldk_TransactionHash receiveDeviceKey) now in
    ok (as_, HexToHash (hex_EncodeToString (ldk_LastDeviceKeyFromServer receiveDeviceKey)), rawNewDeviceKey, Keccak256 rawNewDeviceKey)).

Definition send_with_device_key (a : tx_args) : call Transaction :=
  device_keys (a_from a) ≫=? λ '(as_, lastDeviceKey, rawNewDeviceKey, newDeviceKey),
  controller_SendTransactionWithDeviceKey a lastDeviceKey newDeviceKey (nonce as_) rawNewDeviceKey (ChainId config).

Definition SendTransactionWithDeviceKey (a : tx_args) : call Receipt :=
  send_with_device_key a ≫=? λ tx, waitReceipt (Hash tx).1 pendingReceiptTTL.

(** The package [tcp_trans] waits 20 seconds instead of 60. *)
Definition trans_SendTransactionWithDeviceKey (a : tx_args) : call Receipt :=
  send_with_device_key a ≫=? λ tx, FindReceiptByHash (Hash tx).1.

(** The sender and the destination are added to the related addresses. *)
Definition SaveTransactionWithDeviceKeyToFile (a : tx_args) (fs : gmap string bytes) : call (gmap string bytes) :=
  device_keys (a_from a) ≫=? λ '(as_, lastDeviceKey, rawNewDeviceKey, newDeviceKey),
  ok (controller_SaveTransactionWithDeviceKeyToFile
        {| a_from := a_from a; a_to := a_to a; a_amount := a_amount a; a_data := a_data a; a_related := a_related a ++ [a_from a; a_to a];
           a_maxGas := a_maxGas a; a_maxGasPrice := a_maxGasPrice a; a_maxTimeUse := a_maxTimeUse a |}
        lastDeviceKey newDeviceKey (nonce as_) rawNewDeviceKey (ChainId config) fs).

(** The state of the account comes through the channel all calls share. *)
Definition SendTransactionWithFullInfo (a : tx_args) (lastDeviceKey newDeviceKey : bytes) : call Receipt :=
  ensure_parent ≫=? λ _,
  prog_bind (SendBytes c_GetAccountState (a_from a)) (λ _,
  TakeAccountState (λ as_,
    controller_SendTransaction a lastDeviceKey newDeviceKey (nonce as_) (ChainId config) ≫=? λ tx,
    waitReceipt (Hash tx).1 pendingReceiptTTL)).

(** *** Registration of an account *)

Definition setBlsPublicKey_contract : bytes := zeros 16 ++ [xd8; x44; xbb; x55].

Definition CreateSignedSetBLSPublicKeyTx (privateKeyHex blsPubKeyHex : string) (chainID : Z) : option eth_tx :=
  privateKey ← HexToECDSA (TrimPrefix privateKeyHex "0x");
  blsPubKeyBytes ← hex_DecodeString (TrimPrefix blsPubKeyHex "0x");
  packed ← abi_Pack [TBytes] [VBytes blsPubKeyBytes];
  SignTx chainID privateKey
    (LegacyTx 100000 {| e_Nonce := 0; e_Gas := 1000000000; e_To := Some setBlsPublicKey_contract; e_Value := 0;
                        e_Data := selector "setBlsPublicKey" [TBytes] ++ packed; e_V := 0; e_R := 0; e_S := 0 |}).

(** Printing a transaction computes, and caches, its hash. *)
Definition log_transaction (t : Transaction) : Transaction := if logInfo config then (Hash t).2 else t.

(** The transaction of [AddAccountForClient] from the Ethereum transaction: it is printed before its
    device keys are set. *)
Definition account_transaction (ethTx : eth_tx) (deviceKey : bytes) : option Transaction :=
  match NewTransactionFromEth ethTx with
  | Ok t => Some (SetSign (KeyPair config) (UpdateDeriver deviceKey zeroHash (UpdateRelatedAddresses [] (log_transaction t))))
  | _ => None
  end.

Definition AddAccountForClient (privateKey : string) (chainId : Z) : call Receipt :=
  match CreateSignedSetBLSPublicKeyTx privateKey (PublicKeyHex config) chainId with
  | None => fail ErrBuild
  | Some ethTx =>
      ensure_parent ≫=? λ _,
      match Sender (EIP155Signer chainId) ethTx with
      | None => fail ErrBuild
      | Some from =>
          GetAccountState from ≫=? λ as_,
          Now (λ now,
            match account_transaction ethTx (Keccak256 (raw_device_key (lastHash as_) now)) with
            | None => fail ErrBuild
            | Some t => SendNewTransactionWithDeviceKey t zeroHash ≫=? λ tx, waitReceipt (Hash tx).1 pendingReceiptTTL
            end)
      end
  end.

(** [BuildTransactionTx0] does the same without printing. *)
Definition BuildTransactionTx0 (ethTx : eth_tx) (as_ : AccountState) (now : Z) : option Transaction :=
  match NewTransactionFromEth ethTx with
  | Ok t => Some (SetSign (KeyPair config) (UpdateDeriver (Keccak256 (raw_device_key (lastHash as_) now)) zeroHash (UpdateRelatedAddresses [] t)))
  | _ => None
  end.

(** ** Subscriptions *)

Fixpoint subscribe_all (addresses : list bytes) : call unit :=
  match addresses with
  | [] => ok tt
  | a :: rest => prog_bind (SendBytes c_SubscribeToAddress a) (λ sent, if sent then subscribe_all rest else fail (ErrSend c_SubscribeToAddress))
  end.

(** [Subcribe] and [Subcribes] dial the storage node, [ParentSubcribes] uses the parent; all end with a
    new channel of event logs. *)
Definition subscribed (p : call unit) : call unit := p ≫=? λ _, SetEvents (ok tt).
Definition Subcribes (addresses : list bytes) : call unit := Dial (λ up, if up then subscribed (subscribe_all addresses) else fail ErrDial).
Definition Subcribe (address : bytes) : call unit := Subcribes [address].
Definition ParentSubcribes (addresses : list bytes) : call unit := subscribed (subscribe_all addresses).

Definition SendQueryLogs (query : bytes) : prog (EventLog:=EventLog) unit := prog_bind (SendBytes c_QueryLogs query) (λ _, Ret tt).

(** The rounds of [RetryConnectToStorage]: whether the parent is up and whether dialling it succeeds.
    [true] is the panic at the end of a round. *)
Fixpoint RetryConnectToStorage (rounds : list (bool * bool)) : bool :=
  match rounds with
  | [] => false
  | (up, dialled) :: rounds => if negb up && negb dialled then RetryConnectToStorage rounds else true
  end.

(** ** What the file handler asks ([tcp_trans], [TCPCommunicator]) *)

Definition call_args (from to : bytes) (inputData : bytes) : tx_args :=
  {| a_from := from; a_to := to; a_amount := 0; a_data := proto_Marshal {| cd_Input := inputData |}; a_related := [];
     a_maxGas := 20000000; a_maxGasPrice := 10000000; a_maxTimeUse := 60 |}.

Context (unpack_info : bytes → option (list (string * field_val))) (unpack_servers : bytes → option (list string)).

(** An error of packing is not looked at: the input is then empty. *)
Definition GetFileInfoTransaction (fileKey from to : bytes) : call FileInfo :=
  let inputData := match abi_Pack [TBytes32] [VBytes32 fileKey] with Some b => selector "getFileInfo" [TBytes32] ++ b | None => [] end in
  ReadTransaction (call_args from to inputData) ≫=? λ receipt,
  let returnData := rc_Return receipt in
  if decide (length returnData = 0) then fail ErrEmptyReturn
  else match ParseFileInfoFromResult unpack_info returnData with None => fail ErrParse | Some i => ok i end.

Definition GetRustServerAddressesListTransaction (from to : bytes) : call (list string) :=
  match abi_Pack [] [] with
  | None => fail ErrBuild
  | Some b =>
      ReadTransaction (call_args from to (selector "getRustServerAddresses" [] ++ b)) ≫=? λ receipt,
      let returnData := rc_Return receipt in
      if decide (length returnData = 0) then fail ErrEmptyReturn
      else match unpack_servers returnData with None => fail ErrParse | Some l => ok l end
  end.

Definition sign_info (s : string) (i : FileInfo) : FileInfo :=
  {| FileSize := FileSize i; TotalChunks := TotalChunks i; UploadTime := UploadTime i; FileName := FileName i; FileType := FileType i;
     Category := Category i; ContentID := ContentID i; Status := Status i; MerkleRoot := MerkleRoot i; OwnerAddress := OwnerAddress i; Signature := s |}.

(** [TCPCommunicator.GetFileInfo]: the record, with the administrator's signature of the file key and
    the Merkle root. *)
Definition comm_GetFileInfo (fileKey from to : bytes) : call FileInfo :=
  GetFileInfoTransaction fileKey from to ≫=? λ i,
  let hash := Keccak256 (str_bytes "0x00" ++ str_bytes (hex_EncodeToString fileKey +:+ hex_EncodeToString (MerkleRoot i))) in
  match HexToECDSA (PkAdminFileStorage config) with
  | None => fail ErrKey
  | Some key => match crypto_Sign hash key with None => fail ErrKey | Some s => ok (sign_info (hex_EncodeToString s) i) end
  end.

Definition comm_GetRustServerAddresses (from to : bytes) : call (list string) := GetRustServerAddressesListTransaction from to.

Definition SendConfirmation (fileKey to : bytes) : call Receipt :=
  match abi_Pack [TBytes32] [VBytes32 fileKey] with
  | None => fail ErrBuild
  | Some b =>
      trans_SendTransactionWithDeviceKey
        (call_args (HexToAddress (OwnerFileStorageAddress config)) to (selector "confirmFileActive" [TBytes32] ++ b))
  end.

End Flows.

(** ** A concrete wire form of transactions with device keys *)

Module ToyDeviceKey.
Import ToyProto ToyTx ToyState.

#[export] Instance wd_ser : Ser pb_TransactionWithDeviceKey :=
  ser_iso (λ m, (match wd_Transaction m with Some t => [t] | None => [] end, wd_DeviceKey m)) (λ '(t, k), {| wd_Transaction := head t; wd_DeviceKey := k |})
    ltac:(by intros [[] ?]).
#[export] Instance dk_codec : DeviceKeyCodec := {|
  wd_Marshal m := ser {| wd_Transaction := after_wire <$> wd_Transaction m; wd_DeviceKey := wd_DeviceKey m |};
  wd_Unmarshal b := fst <$> deser b;
  txs_Marshal l := ser (omap (λ o, after_wire <$> o) l);
  txs_Unmarshal b := (λ x : list pb_Transaction * bytes, Some <$> x.1) <$> deser b;
|}.
Lemma wired_all (l : list pb_Transaction) : omap (λ o, after_wire <$> o) (Some <$> l) = after_wire <$> l.
Proof. induction l as [|x l IH]; [done|]. cbn. f_equal. exact IH. Qed.
#[export] Instance dk_codec_laws : DeviceKeyCodecLaws.
Proof.
  split; [intros m; apply (deser_all _)|]. intros l. cbn [txs_Unmarshal txs_Marshal dk_codec]. rewrite wired_all.
  pose proof (deser_ser (after_wire <$> l) []) as E. rewrite app_nil_r in E. rewrite E. cbn. f_equal. by rewrite <- list_fmap_compose.
Qed.

End ToyDeviceKey.
