(* ===== verification/TcpLogic.v ===== *)
(** * A program logic for the calls of the TCP client

    [wp] is the weakest precondition of a call against every answer the network, the router and the
    other calls may give: a reply carries the identifier of its request and a receipt the hash it is
    waited for.  [adequacy] justifies these two assumptions for every interleaving of
    [TcpClient.machine_step]; [spec] is the form in which the calls are specified. *)

From S2P Require Import Prelude GoLib Interfaces LevelDB AccountState Wire Receipts TransactionErrors TcpClient.
From Stdlib Require Import Strings.Byte.

Inductive kind := KReceipt (h : bytes) | KReply (id : string).

Section Logic.
Context `{EthCommon} `{EthAddress} {EventLog EventLogs Stats : Type}.
Context `{Proto (Receipt EventLog)} `{Proto EventLogs} `{Proto Stats} `{Proto TransactionHashWithError} `{Proto pb_AccountState} `{Proto pb_InitConnection} `{Proto pb_RpcResponse} `{Proto pb_RpcEvent}.

Abbreviation prog := (prog (EventLog:=EventLog)).
Abbreviation Client := (Client EventLog).
Abbreviation send := (send EventLog EventLogs).

(** [G]: the channels the call has made, and what they are for; [tr]: what it has done. *)
Fixpoint wp {A} (G : gmap nat kind) (tr : list obs) (p : prog A) (Q : list obs → A → Prop) : Prop :=
  match p with
  | Ret a => Q tr a
  | Connected k => ∀ b, wp G tr (k b) Q
  | Dial k => ∀ b : bool, wp G (tr ++ if b then [Dialled] else []) (k b) Q
  | Uuid k => ∀ s, wp G tr (k s) Q
  | Now k => ∀ t, wp G tr (k t) Q
  | Send cmd id body k => ∀ b, wp G (tr ++ [Sent cmd id body b]) (k b) Q
  | StoreRequest id k => ∀ ch, G !! ch = None → wp (<[ch := KReply id]> G) tr (k ch) Q
  | DeleteRequest _ k => wp G tr k Q
  | SelectReply ch k => ∃ id, G !! ch = Some (KReply id) ∧ wp G tr (k None) Q ∧ ∀ m, ID m = id → wp G (tr ++ [Got m]) (k (Some m)) Q
  | Register h k => ∀ ch, G !! ch = None → wp (<[ch := KReceipt h]> G) tr (k ch) Q
  | Cancel _ _ k => wp G tr k Q
  | Receive ch k => ∃ h, G !! ch = Some (KReceipt h) ∧ ∀ r, TransactionHash r = h → wp G tr (k r) Q
  | SelectReceipt h ch k => G !! ch = Some (KReceipt h) ∧ ∀ es,
      let tr := tr ++ (Ignored <$> es) in
      (∀ r, TransactionHash r = h → wp G tr (k (WReceipt r)) Q) ∧
      (∀ e, BytesToHash (he_Hash e) = h → wp G tr (k (WError e)) Q) ∧
      wp G tr (k WTimer) Q
  | TryReceive ch k => ∃ h, G !! ch = Some (KReceipt h) ∧ wp G tr (k None) Q ∧ ∀ r, TransactionHash r = h → wp G tr (k (Some r)) Q
  | TakeAccountState k => ∀ a, wp G tr (k a) Q
  | SetEvents k => wp G tr k Q
  end.

Lemma wp_mono {A} (p : prog A) : ∀ G tr (Q Q' : list obs → A → Prop), (∀ tr a, Q tr a → Q' tr a) → wp G tr p Q → wp G tr p Q'.
Proof. induction p; intros G tr Q Q' HQ; simpl; naive_solver. Qed.

Lemma wp_bind {A B} (p : prog A) (f : A → prog B) : ∀ G tr (Q : list obs → B → Prop),
  wp G tr p (λ tr' a, ∀ G', wp G' tr' (f a) Q) → wp G tr (prog_bind p f) Q.
Proof. induction p; intros G tr Q; simpl; naive_solver. Qed.

(** A call does [seg] and ends with a result related to it, whatever was done before. *)
Definition spec {A} (p : prog A) (R : list obs → A → Prop) : Prop :=
  ∀ G tr, wp G tr p (λ tr' a, ∃ seg, tr' = tr ++ seg ∧ R seg a).

Lemma spec_ret {A} (a : A) (R : list obs → A → Prop) : R [] a → spec (Ret a) R.
Proof. intros HR G tr. simpl. exists []. by rewrite app_nil_r. Qed.

Lemma spec_weaken {A} (p : prog A) (R R' : list obs → A → Prop) : spec p R → (∀ seg a, R seg a → R' seg a) → spec p R'.
Proof. intros Hp HR G tr. eapply wp_mono; [|apply Hp]. naive_solver. Qed.

Lemma spec_bind {A B} (p : prog A) (f : A → prog B) R1 (R2 : A → list obs → B → Prop) (R : list obs → B → Prop) :
  spec p R1 → (∀ a, spec (f a) (R2 a)) → (∀ s1 s2 a b, R1 s1 a → R2 a s2 b → R (s1 ++ s2) b) → spec (prog_bind p f) R.
Proof.
  intros Hp Hf HR G tr. apply wp_bind. eapply wp_mono; [|apply Hp]. intros tr' a (s1 & -> & Ha) G'.
  eapply wp_mono; [|apply (Hf a)]. intros tr' b (s2 & -> & Hb). exists (s1 ++ s2). rewrite app_assoc. eauto.
Qed.

Lemma spec_call {A B} (p : call A) (f : A → call B) R1 (R2 : A → list obs → client_error + B → Prop) (R : list obs → client_error + B → Prop) :
  spec p R1 → (∀ a, spec (f a) (R2 a)) → (∀ s e, R1 s (inl e) → R s (inl e)) → (∀ s1 s2 a r, R1 s1 (inr a) → R2 a s2 r → R (s1 ++ s2) r) →
  spec (call_bind p f) R.
Proof.
  intros Hp Hf He HR. unfold call_bind.
  apply (spec_bind p _ R1 (λ r s b, match r with inl e => s = [] ∧ b = inl e | inr a => R2 a s b end)); [done| |].
  - intros [e|a]; [by apply spec_ret|apply Hf].
  - intros s1 s2 [e|a] b; [|apply HR]. intros HR1 [-> ->]. rewrite app_nil_r. by apply He.
Qed.

(** ** The invariant of the client *)

Record client_ok (Γ : gmap nat kind) (c : Client) (out : list send) : Prop := {
  ok_next ch : next c ≤ ch → Γ !! ch = None ∧ responses c !! ch = None;
  ok_responses ch l r : responses c !! ch = Some l → r ∈ l → Γ !! ch = Some (KReceipt (TransactionHash r));
  ok_waiters h l ch : waiters c !! h = Some l → ch ∈ l → Γ !! ch = Some (KReceipt h) ∧ responses c !! ch = Some [];
  ok_lists h l : waiters c !! h = Some l → NoDup l ∧ l ≠ [] ∧ pendingReceipts c !! h = None;
  ok_pending h r t : pendingReceipts c !! h = Some (r, t) → TransactionHash r = h;
  ok_replies ch l m : replies c !! ch = Some l → m ∈ l → Γ !! ch = Some (KReply (ID m));
  ok_requests id ch : pendingChainRequests c !! id = Some ch → Γ !! ch = Some (KReply id);
  ok_out ch m : ToReply ch m ∈ out → Γ !! ch = Some (KReply (ID m));
}.

Definition fresh_client (c : Client) : Prop :=
  waiters c = ∅ ∧ pendingReceipts c = ∅ ∧ responses c = ∅ ∧ replies c = ∅ ∧ pendingChainRequests c = ∅.

Lemma fresh_ok c : fresh_client c → client_ok ∅ c [].
Proof.
  intros (E1 & E2 & E3 & E4 & E5). split.
  all: rewrite ?E1, ?E2, ?E3, ?E4, ?E5. all: intros *; rewrite ?lookup_empty; try done. by intros ?%elem_of_nil.
Qed.

(** An update that keeps the tables keeps the invariant. *)
Lemma ok_same Γ c c' out : client_ok Γ c out → waiters c' = waiters c → pendingReceipts c' = pendingReceipts c → responses c' = responses c →
  replies c' = replies c → pendingChainRequests c' = pendingChainRequests c → next c' = next c → client_ok Γ c' out.
Proof. intros [] E1 E2 E3 E4 E5 E6. split; rewrite ?E1, ?E2, ?E3, ?E4, ?E5, ?E6; eauto. Qed.

Lemma ok_less Γ c out out' : client_ok Γ c out → (∀ s, s ∈ out' → s ∈ out) → client_ok Γ c out'.
Proof. intros [] Hs. split; eauto. Qed.

(** What an offer leaves in a channel. *)
Definition fill (r : Receipt EventLog) (x : option (list (Receipt EventLog))) : option (list (Receipt EventLog)) :=
  match x with Some [] => Some [r] | _ => x end.

Lemma offer_lookup r ch m ch' : offer r ch m !! ch' = if decide (ch' = ch) then fill r (m !! ch) else m !! ch'.
Proof.
  unfold offer, fill. case_decide as D; [subst ch'|]; destruct (m !! ch) as [[|x l]|] eqn:E; rewrite ?lookup_insert_eq; try done.
  by rewrite lookup_insert_ne by done.
Qed.

Lemma offers_lookup r l : ∀ m ch, foldl (λ m ch, offer r ch m) m l !! ch = if decide (ch ∈ l) then fill r (m !! ch) else m !! ch.
Proof.
  induction l as [|x l IH]; intros m ch; cbn [foldl]; [by rewrite decide_False by apply not_elem_of_nil|].
  rewrite IH, offer_lookup. destruct (decide (ch = x)) as [<-|Hx].
  - rewrite (decide_True (P := ch ∈ ch :: l)) by (apply elem_of_cons; by left). case_decide; [|done]. by destruct (m !! ch) as [[]|].
  - destruct (decide (ch ∈ l)); [rewrite decide_True|rewrite decide_False]; rewrite ?elem_of_cons; naive_solver.
Qed.

Lemma elem_of_remove_chan x ch l : x ∈ remove_chan ch l → x ∈ l.
Proof. induction l as [|y l IH]; simpl; [done|]. case_decide; rewrite ?elem_of_cons; naive_solver. Qed.
Lemma remove_chan_nodup ch l : NoDup l → NoDup (remove_chan ch l).
Proof.
  induction l as [|y l IH]; simpl; [done|]. intros Hd%NoDup_cons. destruct Hd as [Hy Hl]. case_decide; [done|].
  apply NoDup_cons. split; [|auto]. intros X%elem_of_remove_chan. done.
Qed.

Lemma cancel_ok Γ c out h ch : client_ok Γ c out → client_ok Γ (cancel h ch c) out.
Proof.
  intros [O1 O2 O3 O4 O5 O6 O7 O8]. unfold cancel. destruct (waiters c !! h) as [l|] eqn:E; [|by split].
  pose proof (O4 _ _ E) as (Hn & Hne & Hp). destruct (remove_chan ch l) as [|y l'] eqn:R.
  - split; simpl; eauto.
    + intros h' l' ch' E'%lookup_delete_Some Hin. destruct E' as [? E']. eauto.
    + intros h' l' E'%lookup_delete_Some. destruct E' as [? E']. eauto.
  - assert (∀ x, x ∈ y :: l' → x ∈ l) as Hin by (rewrite <- R; intros x; apply elem_of_remove_chan).
    assert (NoDup (y :: l')) as Hd by (rewrite <- R; by apply remove_chan_nodup).
    split; simpl; eauto.
    + intros h' l0 ch' [(<- & <-)|(? & E')]%lookup_insert_Some Hc; [apply (O3 h l ch' E); auto|eauto].
    + intros h' l0 [(<- & <-)|(? & E')]%lookup_insert_Some; [auto|eauto].
Qed.

Lemma register_ok Γ c out now h : client_ok Γ c out →
  client_ok (<[next c := KReceipt h]> Γ)
    (register now h (next c) (with_next (S (next c)) (with_router (waiters c) (pendingReceipts c) (<[next c := []]> (responses c)) c))) out.
Proof.
  intros [O1 O2 O3 O4 O5 O6 O7 O8]. destruct (O1 (next c) ltac:(done)) as [Hg Hr].
  assert (∀ ch k, Γ !! ch = Some k → <[next c := KReceipt h]> Γ !! ch = Some k) as Up by (intros ch k Hk; rewrite lookup_insert_ne; naive_solver).
  assert (∀ ch, S (next c) ≤ ch → <[next c := KReceipt h]> Γ !! ch = None ∧ <[next c := ([] : list (Receipt EventLog))]> (responses c) !! ch = None) as O1'.
  { intros ch Hc. rewrite !lookup_insert_ne by lia. apply O1. lia. }
  assert (∀ ch l r, <[next c := []]> (responses c) !! ch = Some l → r ∈ l → <[next c := KReceipt h]> Γ !! ch = Some (KReceipt (TransactionHash r))) as O2'.
  { intros ch l r [(<- & <-)|(? & E)]%lookup_insert_Some Hi; [by apply elem_of_nil in Hi|eauto]. }
  assert (∀ h' l ch, waiters c !! h' = Some l → ch ∈ l → <[next c := KReceipt h]> Γ !! ch = Some (KReceipt h') ∧ <[next c := ([] : list (Receipt EventLog))]> (responses c) !! ch = Some []) as O3'.
  { intros h' l ch E Hi. destruct (O3 _ _ _ E Hi) as [K1 K2]. split; [auto|]. rewrite lookup_insert_ne; [done|]. naive_solver. }
  unfold register. simpl. destruct (pendingReceipts c !! h) as [[r t]|] eqn:E; [case_match|].
  - split; simpl; eauto.
    + intros h' l E'. destruct (O4 _ _ E') as (? & ? & P). split_and!; [done..|]. rewrite lookup_delete_None. auto.
    + intros h' r' t' [? E']%lookup_delete_Some. eauto.
  - assert (∀ ch, offer r (next c) (<[next c := []]> (responses c)) !! ch = if decide (ch = next c) then Some [r] else responses c !! ch) as Off.
    { intros ch. rewrite offer_lookup, lookup_insert_eq. case_decide; [done|]. by rewrite lookup_insert_ne by done. }
    split; simpl; eauto.
    + intros ch Hc. rewrite Off, decide_False by lia. rewrite lookup_insert_ne by lia. apply O1. lia.
    + intros ch l r'. rewrite Off. case_decide as D; [subst ch; intros [= <-] ->%list_elem_of_singleton; rewrite lookup_insert_eq; by rewrite (O5 _ _ _ E)|eauto].
    + intros h' l ch E' Hi. destruct (O3 _ _ _ E' Hi) as [K1 K2]. split; [auto|]. rewrite Off, decide_False; [done|]. naive_solver.
    + intros h' l E'. destruct (O4 _ _ E') as (? & ? & P). split_and!; [done..|]. rewrite lookup_delete_None. auto.
    + intros h' r' t' [? E']%lookup_delete_Some. eauto.
  - split; simpl; eauto.
    + intros h' l ch [(<- & <-)|(? & E')]%lookup_insert_Some; [|eauto]. intros [Hi|Hi]%elem_of_app.
      * destruct (waiters c !! h) as [l|] eqn:E'; simpl in Hi; [eauto|by apply elem_of_nil in Hi].
      * apply list_elem_of_singleton in Hi as ->. by rewrite !lookup_insert_eq.
    + intros h' l [(<- & <-)|(? & E')]%lookup_insert_Some; [|eauto]. destruct (waiters c !! h) as [l|] eqn:E'; simpl.
      * destruct (O4 _ _ E') as (Hd & Hne & P). split_and!; [|by destruct l|done]. apply NoDup_app. split_and!; [done| |apply NoDup_singleton].
        intros x Hx ->%list_elem_of_singleton. destruct (O3 _ _ _ E' Hx). naive_solver.
      * split_and!; [apply NoDup_singleton|done|done].
Qed.

Lemma route_ok Γ c out now c' : client_ok Γ c out → route_receipt now c = Some c' → client_ok Γ c' out.
Proof.
  intros O. unfold route_receipt. destruct (receiptChan c) as [|[r|] rest]; [done| |intros [= <-]; by eapply ok_same].
  destruct O as [O1 O2 O3 O4 O5 O6 O7 O8]. simpl. destruct (waiters c !! TransactionHash r) as [l|] eqn:E; intros [= <-].
  - split; simpl; eauto.
    + intros ch Hc. destruct (O1 ch Hc) as [Hg Hr]. split; [done|]. rewrite offers_lookup, Hr. by case_decide.
    + intros ch l' r'. rewrite offers_lookup. case_decide as D; [|eauto]. destruct (O3 _ _ _ E D) as [K ->]. intros [= <-] ->%list_elem_of_singleton. done.
    + intros h' l' ch [? E']%lookup_delete_Some Hi. destruct (O3 _ _ _ E' Hi) as [K1 K2]. split; [done|]. rewrite offers_lookup, decide_False; [done|].
      intros Hl. destruct (O3 _ _ _ E Hl). congruence.
    + intros h' l' [? E']%lookup_delete_Some. eauto.
  - split; simpl; eauto.
    + intros h' l E'. destruct (O4 _ _ E') as (? & ? & P). split_and!; [done..|]. rewrite lookup_insert_ne; [done|congruence].
    + intros h' r' t' [(<- & [= <- _])|(? & E')]%lookup_insert_Some; eauto.
Qed.

Lemma tick_ok Γ c out now : client_ok Γ c out → client_ok Γ (cleanup_pending now c) out.
Proof.
  intros [O1 O2 O3 O4 O5 O6 O7 O8]. split; simpl; eauto.
  - intros h l E. destruct (O4 _ _ E) as (? & ? & P). split_and!; [done..|]. rewrite map_lookup_filter_None. auto.
  - intros h r t [E _]%map_lookup_filter_Some. eauto.
Qed.

(** A receive from a channel of receipts. *)
Lemma take_ok Γ c out ch r rest : client_ok Γ c out → responses c !! ch = Some (r :: rest) →
  client_ok Γ (with_router (waiters c) (pendingReceipts c) (<[ch := rest]> (responses c)) c) out ∧ Γ !! ch = Some (KReceipt (TransactionHash r)).
Proof.
  intros [O1 O2 O3 O4 O5 O6 O7 O8] E. split; [|eapply O2; [exact E|apply elem_of_cons; by left]]. split; simpl; eauto.
  - intros ch' Hc. destruct (O1 ch' Hc) as [Hg Hr]. split; [done|]. rewrite lookup_insert_ne; [done|congruence].
  - intros ch' l r' [(<- & <-)|(? & E')]%lookup_insert_Some Hi; [|eauto]. eapply O2; [exact E|]. apply elem_of_cons. by right.
  - intros h l ch' E' Hi. destruct (O3 _ _ _ E' Hi). split; [done|]. rewrite lookup_insert_ne; [done|congruence].
Qed.

Lemma handle_ok Γ c out m r o c' : client_ok Γ c out → HandleRequest (EventLogs:=EventLogs) (Stats:=Stats) m c = (r, o, c') →
  client_ok Γ c' (match r with HSend s => out ++ [s] | HReturn _ => out end).
Proof.
  intros O. assert (∀ c1 s, waiters c1 = waiters c → pendingReceipts c1 = pendingReceipts c → responses c1 = responses c → replies c1 = replies c →
      pendingChainRequests c1 = pendingChainRequests c → next c1 = next c → (∀ ch m, s ≠ ToReply ch m) → client_ok Γ c1 (out ++ [s])) as S.
  { intros c1 s E1 E2 E3 E4 E5 E6 Hs. destruct (ok_same Γ c c1 out O E1 E2 E3 E4 E5 E6) as [O1 O2 O3 O4 O5 O6 O7 O8]. split; eauto.
    intros ch x [Hx|Hx%list_elem_of_singleton]%elem_of_app; [eauto|by destruct (Hs ch x)]. }
  unfold HandleRequest, handleInitConnection, handleAccountState, handleTransactionError, handleNonce, handleDeviceKey, handleReceipt, handleEventLogs,
    handleStats, handleRpcResponse, handleRpcEvent, handleChainResponse.
  repeat case_match; intros [= <- <- <-]; try done; try (by apply S).
  all: destruct O as [O1 O2 O3 O4 O5 O6 O7 O8].
  all: split; simpl; eauto; [intros id ch [? E]%lookup_delete_Some; eauto|].
  all: intros ch' x [Hx|Hx%list_elem_of_singleton]%elem_of_app; [eauto|]; injection Hx as -> ->; eauto.
Qed.

Lemma deliver_ok Γ c out i s c' : client_ok Γ c out → out !! i = Some s → try_send s c = Some c' → client_ok Γ c' (delete i out).
Proof.
  intros O Hi E. apply (ok_less _ _ out); [|intros x Hx; by eapply list_elem_of_delete_inv].
  destruct s; simpl in E; repeat case_match; simplify_eq; try (by eapply ok_same).
  pose proof O as [O1 O2 O3 O4 O5 O6 O7 O8]. split; simpl; eauto.
  intros ch' l x [(<- & <-)|(? & E')]%lookup_insert_Some Hx; [|eauto]. apply list_elem_of_singleton in Hx as ->. eapply O8, list_elem_of_lookup_2, Hi.
Qed.

(** ** Threads *)

Lemma thread_ok {A} Γ c out e (p p' : prog A) o c' : client_ok Γ c out → thread_step e p c = Some (p', o, c') →
  ∃ Γ', Γ ⊆ Γ' ∧ client_ok Γ' c' out ∧ ∀ G tr Q, G ⊆ Γ → wp G tr p Q → ∃ G', G' ⊆ Γ' ∧ wp G' (tr ++ o) p' Q.
Proof.
  intros O E. assert (∀ (G : gmap nat kind) ch k, G ⊆ Γ → G !! ch = Some k → Γ !! ch = Some k) as Look by (intros G ch k HG Hk; by eapply lookup_weaken).
  assert (∀ k, Γ ⊆ <[next c := k]> Γ) as Grow by (intros k; apply insert_subseteq, (ok_next _ _ _ O); done).
  assert (∀ (G : gmap nat kind) k, G ⊆ Γ → G !! next c = None ∧ <[next c := k]> G ⊆ <[next c := k]> Γ) as New.
  { intros G k HG. split; [|by apply insert_mono]. eapply lookup_weaken_None, HG. by apply (ok_next _ _ _ O). }
  destruct p, e; simpl in E; try done; simplify_eq.
  - exists Γ. split_and!; [done..|]. intros G tr Q HG Hw. exists G. rewrite app_nil_r. auto.
  - exists Γ. split_and!; [done..|]. intros G tr Q HG Hw. exists G. auto.
  - exists Γ. split_and!; [done..|]. intros G tr Q HG Hw. exists G. rewrite app_nil_r. auto.
  - exists Γ. split_and!; [done..|]. intros G tr Q HG Hw. exists G. rewrite app_nil_r. auto.
  - exists Γ. split_and!; [done..|]. intros G tr Q HG Hw. exists G. auto.
  - exists (<[next c := KReply id]> Γ). split_and!; [done| |].
    + destruct O as [O1 O2 O3 O4 O5 O6 O7 O8]. assert (∀ ch κ, Γ !! ch = Some κ → <[next c := KReply id]> Γ !! ch = Some κ) as Up
        by (intros ch κ Hk; rewrite lookup_insert_ne; [done|]; intros <-; destruct (O1 (next c) ltac:(done)); congruence).
      split; simpl; eauto.
      * intros ch Hc. rewrite lookup_insert_ne by lia. apply O1. lia.
      * intros h l ch E' Hi. destruct (O3 _ _ _ E' Hi). auto.
      * intros ch l m [(<- & <-)|(? & E')]%lookup_insert_Some Hi; [by apply elem_of_nil in Hi|eauto].
      * intros id' ch [(<- & <-)|(? & E')]%lookup_insert_Some; [by rewrite lookup_insert_eq|eauto].
    + intros G tr Q HG Hw. destruct (New G (KReply id) HG) as [Hn Hs]. exists (<[next c := KReply id]> G). rewrite app_nil_r. auto.
  - exists Γ. split_and!; [done| |].
    + destruct O as [O1 O2 O3 O4 O5 O6 O7 O8]. split; simpl; eauto. intros id' ch [? E']%lookup_delete_Some. eauto.
    + intros G tr Q HG Hw. exists G. rewrite app_nil_r. auto.
  - destruct (replies c !! ch) as [[|m rest]|] eqn:Er; simplify_eq. pose proof (ok_replies _ _ _ O _ _ m Er ltac:(apply elem_of_cons; by left)) as Km.
    exists Γ. split_and!; [done| |].
    + destruct O as [O1 O2 O3 O4 O5 O6 O7 O8]. split; simpl; eauto.
      intros ch' l x [(<- & <-)|(? & E')]%lookup_insert_Some Hi; [|eauto]. eapply O6; [exact Er|]. apply elem_of_cons. by right.
    + intros G tr Q HG (id & Hid & _ & Hw). exists G. split; [done|]. apply Hw. pose proof (Look _ _ _ HG Hid). congruence.
  - exists Γ. split_and!; [done..|]. intros G tr Q HG (id & Hid & Hw & _). exists G. rewrite app_nil_r. auto.
  - exists (<[next c := KReceipt txHash]> Γ). split_and!; [done|by apply register_ok|].
    intros G tr Q HG Hw. destruct (New G (KReceipt txHash) HG) as [Hn Hs]. exists (<[next c := KReceipt txHash]> G). rewrite app_nil_r. auto.
  - exists Γ. split_and!; [done|by apply cancel_ok|]. intros G tr Q HG Hw. exists G. rewrite app_nil_r. auto.
  - destruct (responses c !! ch) as [[|r rest]|] eqn:Er; simplify_eq. destruct (take_ok _ _ _ _ _ _ O Er) as [O' Kr].
    exists Γ. split_and!; [done..|]. intros G tr Q HG (h & Hh & Hw). exists G. rewrite app_nil_r. split; [done|]. apply Hw. pose proof (Look _ _ _ HG Hh). congruence.
  - destruct (responses c !! ch) as [[|r rest]|] eqn:Er; simplify_eq. destruct (take_ok _ _ _ _ _ _ O Er) as [O' Kr].
    exists Γ. split_and!; [done..|]. intros G tr Q HG (Hh & Hw). exists G. split; [done|]. apply (Hw []). pose proof (Look _ _ _ HG Hh). congruence.
  - destruct (transactionErrorChan c) as [|e rest] eqn:Ee; [done|]. case_decide as D; simplify_eq.
    + exists Γ. split_and!; [done|by eapply ok_same|]. intros G tr Q HG (Hh & Hw). exists G. split; [done|]. by apply (Hw []).
    + exists Γ. split_and!; [done|by eapply ok_same|]. intros G tr Q HG (Hh & Hw). exists G. split; [done|]. split; [done|].
      intros es. rewrite <- app_assoc. apply (Hw (e :: es)).
  - exists Γ. split_and!; [done..|]. intros G tr Q HG (Hh & Hw). exists G. split; [done|]. apply (Hw []).
  - destruct (responses c !! ch) as [[|r rest]|] eqn:Er; simplify_eq.
    + exists Γ. split_and!; [done..|]. intros G tr Q HG (h & Hh & Hw & _). exists G. rewrite app_nil_r. auto.
    + destruct (take_ok _ _ _ _ _ _ O Er) as [O' Kr].
      exists Γ. split_and!; [done..|]. intros G tr Q HG (h & Hh & _ & Hw). exists G. rewrite app_nil_r. split; [done|]. apply Hw. pose proof (Look _ _ _ HG Hh). congruence.
    + exists Γ. split_and!; [done..|]. intros G tr Q HG (h & Hh & Hw & _). exists G. rewrite app_nil_r. auto.
  - destruct (accountStateChan c) as [|a rest] eqn:Ea; [done|]. simplify_eq.
    exists Γ. split_and!; [done|by eapply ok_same|]. intros G tr Q HG Hw. exists G. rewrite app_nil_r. auto.
  - exists Γ. split_and!; [done|by eapply ok_same|]. intros G tr Q HG Hw. exists G. rewrite app_nil_r. auto.
Qed.

(** ** The machine *)

Abbreviation Machine := (Machine (EventLog:=EventLog) (EventLogs:=EventLogs)).
Abbreviation run := (machine_run (EventLog:=EventLog) (EventLogs:=EventLogs) (Stats:=Stats)).

Definition thread_fine {A} (Γ : gmap nat kind) (t : Thread A) : Prop :=
  ∀ Q, wp ∅ [] (t_call t) Q → ∃ G, G ⊆ Γ ∧ wp G (t_trace t) (t_rest t) Q.

Definition machine_ok {A} (m : Machine A) : Prop :=
  ∃ Γ, client_ok Γ (m_client m) (m_sending m) ∧ Forall (thread_fine Γ) (m_threads m).

Lemma machine_step_ok {A} e (m m' : Machine A) : machine_ok m → machine_step (Stats:=Stats) e m = Some m' → machine_ok m'.
Proof.
  intros (Γ & O & T). destruct e as [p|i e|msg|i|now|now]; simpl.
  - intros [= <-]. exists Γ. split; [done|]. simpl. apply Forall_app. split; [done|]. apply Forall_singleton. intros Q Hw. exists ∅. split; [apply map_empty_subseteq|done].
  - destruct (m_threads m !! i) as [t|] eqn:Et; simpl; [|done]. destruct (thread_step e (t_rest t) (m_client m)) as [[[p o] c]|] eqn:Es; simpl; [|done].
    intros [= <-]. destruct (thread_ok _ _ _ _ _ _ _ _ O Es) as (Γ' & HΓ & O' & Hw). exists Γ'. split; [done|]. simpl.
    assert (Forall (thread_fine Γ') (m_threads m)) as T' by (eapply Forall_impl; [exact T|]; intros x Hx Q HQ; destruct (Hx Q HQ) as (G & HG & HW); exists G; split; [by etrans|done]).
    apply Forall_insert; [done|]. intros Q HQ. simpl in *. rewrite Forall_lookup in T. destruct (T _ _ Et Q HQ) as (G & HG & HW). eauto.
  - destruct (HandleRequest msg (m_client m)) as [[r o] c] eqn:Eh. intros [= <-]. exists Γ. split; [by eapply handle_ok|done].
  - destruct (m_sending m !! i) as [s|] eqn:Es; simpl; [|done]. destruct (try_send s (m_client m)) as [c|] eqn:Ec; simpl; [|done].
    intros [= <-]. exists Γ. split; [by eapply deliver_ok|done].
  - destruct (route_receipt now (m_client m)) as [c|] eqn:Ec; simpl; [|done]. intros [= <-]. exists Γ. split; [by eapply route_ok|done].
  - intros [= <-]. exists Γ. split; [by apply tick_ok|done].
Qed.

Lemma machine_run_ok {A} es : ∀ m m' : Machine A, machine_ok m → run es m = Some m' → machine_ok m'.
Proof.
  induction es as [|e es IH]; intros m m' Hm; simpl; [by intros [= <-]|].
  destruct (machine_step e m) as [m1|] eqn:E; simpl; [|done]. apply IH. by eapply machine_step_ok.
Qed.

Lemma start_ok {A} c : fresh_client c → machine_ok (start c : Machine A).
Proof. intros F. exists ∅. split; [by apply fresh_ok|constructor]. Qed.

(** A specified call that has ended in some interleaving has ended as specified. *)
Lemma adequacy {A} es c (m : Machine A) i p a tr R : fresh_client c → run es (start c) = Some m →
  m_threads m !! i = Some {| t_call := p; t_rest := Ret a; t_trace := tr |} → spec p R → R tr a.
Proof.
  intros F E Ht Hp. destruct (machine_run_ok es _ _ (start_ok c F) E) as (Γ & _ & T). rewrite Forall_lookup in T.
  destruct (T _ _ Ht _ (Hp ∅ [])) as (G & _ & seg & Es & HR). simpl in Es. by subst.
Qed.

End Logic.
