(* ===== verification/TcpClientTheorems.v ===== *)
(** * The TCP client: what its calls return, and what may go wrong

    The calls of [TcpFlows] are specified with the program logic of [TcpLogic]; the theorems hold in
    every interleaving of calls, workers and the router. *)

From S2P Require Import Prelude GoLib Interfaces LevelDB HexCodec AccountState AccountAbi Wire Receipts TransactionErrors Transaction FileHandler TcpClient TcpFlows TcpLogic.
From S2P Require Import ReceiptsTheorems TransactionTheorems AccountToy.
From Stdlib Require Import Strings.Byte.

(** What was sent with a command, and whether the send succeeded. *)
Definition sent_bodies (cmd : string) (tr : list obs) : list (bytes * bool) :=
  omap (λ o, match o with Sent c _ b sent => if decide (c = cmd) then Some (b, sent) else None | _ => None end) tr.

Lemma sent_bodies_app cmd s1 s2 : sent_bodies cmd (s1 ++ s2) = sent_bodies cmd s1 ++ sent_bodies cmd s2.
Proof. apply omap_app. Qed.

Section Specs.
Context `{EthCommon} `{EthAddress} `{EthHex} `{EthTypes} `{TxCrypto} `{TxCodec} `{DeviceKeyCodec} `{AbiCodec} {Key : Type} `{EthKeys Key}.
Context `{Proto TransactionHashData} `{Proto pb_CallData} `{Proto pb_DeployData} {EventLog EventLogs Stats : Type}.
Context `{Proto (Receipt EventLog)} `{Proto EventLogs} `{Proto Stats} `{Proto TransactionHashWithError} `{Proto pb_AccountState} `{Proto pb_InitConnection} `{Proto pb_RpcResponse} `{Proto pb_RpcEvent}.
Context (config : ClientConfig).

Abbreviation call := (call (EventLog:=EventLog)).
Abbreviation spec := (spec (EventLog:=EventLog)).
Abbreviation Machine := (Machine (EventLog:=EventLog) (EventLogs:=EventLogs)).
Abbreviation run := (machine_run (EventLog:=EventLog) (EventLogs:=EventLogs) (Stats:=Stats)).

(** ** Specifications of the building blocks *)

Lemma ensure_parent_spec : spec ensure_parent (λ seg _, seg = [] ∨ seg = [Dialled]).
Proof. intros G tr [|]; simpl; [exists []; rewrite app_nil_r; auto|]. intros [|]; simpl; [by exists [Dialled]; auto|by exists []; auto]. Qed.

Definition request_result (cmd : string) (body : bytes) (seg : list obs) (res : client_error + pb_Message) : Prop :=
  match res with
  | inr m => seg = [Sent cmd (ID m) body true; Got m]
  | inl _ => seg = [] ∨ ∃ id b, seg = [Sent cmd id body b]
  end.

Lemma request_spec cmd body : spec (sendChainRequest cmd body) (request_result cmd body).
Proof.
  intros G tr [|]; simpl; [|exists []; rewrite app_nil_r; auto]. intros id ch Hch [|]; simpl.
  - exists id. rewrite lookup_insert_eq. split_and!; [done| |].
    + eexists; split; [done|]. eauto.
    + intros m Hm. rewrite <- app_assoc. eexists; split; [done|]. by rewrite Hm.
  - eexists; split; [done|]. eauto.
Qed.

Definition the_ret {B} (p : call B) : client_error + B := match p with Ret r => r | _ => inl ErrUnmarshal end.

(** A request whose answer is only looked at. *)
Lemma reply_spec {B} cmd body (f : pb_Message → call B) : (∀ m, f m = Ret (the_ret (f m))) →
  spec (call_bind (sendChainRequest cmd body) f)
    (λ seg res, ∃ q, request_result cmd body seg q ∧ res = match q with inl e => inl e | inr m => the_ret (f m) end).
Proof.
  intros Hf. eapply (spec_call _ _ _ (λ m s r, s = [] ∧ r = the_ret (f m))); [apply request_spec| | |].
  - intros m. rewrite Hf. by apply spec_ret.
  - intros s e Hs. by exists (inl e).
  - intros s1 s2 m r Hs [-> ->]. rewrite app_nil_r. by exists (inr m).
Qed.

Lemma account_state_spec addr : spec (GetAccountState addr)
  (λ seg res, ∃ q, request_result c_GetAccountState addr seg q ∧
     match res with inr as_ => ∃ m, q = inr m ∧ Command m = c_AccountState ∧ AccountState_Unmarshal (Body m) empty_account = (Ok tt, as_) | inl _ => True end).
Proof.
  eapply spec_weaken.
  - unfold GetAccountState. apply reply_spec. intros m. repeat case_match; reflexivity.
  - intros seg res (q & Hq & ->). exists q. split; [done|]. destruct q as [e|m]; [done|]. simpl.
    case_decide; [by destruct (HashWithError_Unmarshal (Body m))|]. case_decide; [|done]. destruct (AccountState_Unmarshal (Body m) empty_account) as [[[]| | |] a] eqn:E; try done. simpl. by exists m.
Qed.

Lemma device_key_spec h : spec (ChainGetDeviceKey h)
  (λ seg res, ∃ q, request_result c_GetDeviceKey h seg q ∧ match res with inr k => ∃ m, q = inr m ∧ device_key_of (Body m) = Some k | inl _ => True end).
Proof.
  eapply spec_weaken.
  - unfold ChainGetDeviceKey. apply reply_spec. intros m. by case_match.
  - intros seg res (q & Hq & ->). exists q. split; [done|]. destruct q as [e|m]; [done|]. simpl. destruct (device_key_of (Body m)) eqn:E; [|done]. simpl. eauto.
Qed.

Lemma nonce_spec a : spec (ChainGetNonce a) (λ seg _, ∃ q, request_result c_GetNonce a seg q).
Proof. eapply spec_weaken; [unfold ChainGetNonce; by apply reply_spec|]. naive_solver. Qed.

Lemma send_spec {A} cmd body (a : A) : spec (send_or_fail cmd body a)
  (λ seg res, ∃ id b, seg = [Sent cmd id body b] ∧ res = if b : bool then inr a else inl (ErrSend cmd)).
Proof. intros G tr id [|]; simpl; eauto 10. Qed.

Lemma wait_spec h t : spec (waitReceipt h t)
  (λ seg res, (∃ es, seg = Ignored <$> es) ∧
     match res with inr r => TransactionHash r = h | inl e => e = ErrWaitTimeout ∨ ∃ o, e = ErrTransaction o end).
Proof.
  intros G tr ch Hch. simpl. case_match; simpl.
  - exists h. rewrite lookup_insert_eq. split; [done|]. intros r Hr. exists []. rewrite app_nil_r. split; [done|]. split; [by exists []|done].
  - rewrite lookup_insert_eq. split; [done|]. intros es. split_and!.
    + intros r Hr. eauto 10.
    + intros e He. eauto 10.
    + exists h. split; [done|]. split; [eauto 10|]. intros r Hr. eauto 10.
Qed.

Lemma sent_ignored cmd es : sent_bodies cmd (Ignored <$> es) = [].
Proof. by induction es. Qed.

Lemma sent_request cmd cmd' body seg q : request_result cmd' body seg q → cmd' ≠ cmd → sent_bodies cmd seg = [].
Proof.
  intros Hq Hn. destruct q as [e|m]; simpl in Hq; [destruct Hq as [->|(id & b & ->)]; [done|]|subst seg]; simpl; by rewrite decide_False by congruence.
Qed.

(** ** Transactions *)

(** The account's state was the answer to the call's own request. *)
Definition asked_account (from : bytes) (as_ : AccountState) (seg : list obs) : Prop :=
  ∃ m, Sent c_GetAccountState (ID m) from true ∈ seg ∧ Got m ∈ seg ∧ Command m = c_AccountState ∧
       AccountState_Unmarshal (Body m) empty_account = (Ok tt, as_).

(** A call that answers with the receipt of the one transaction it sent. *)
Definition confirms (cmd : string) (from : bytes) (good : AccountState → Transaction → bytes → Prop) (seg : list obs) (res : client_error + Receipt EventLog) : Prop :=
  match res with
  | inr r => ∃ as_ tx body, asked_account from as_ seg ∧ good as_ tx body ∧ sent_bodies cmd seg = [(body, true)] ∧ TransactionHash r = (Hash tx).1
  | inl _ => length (sent_bodies cmd seg) ≤ 1
  end.

(** The common end of the calls: build and send a transaction, then wait for its receipt. *)
Lemma send_and_wait cmd body tx t : spec (call_bind (send_or_fail cmd body tx) (λ tx, waitReceipt (Hash tx).1 t))
  (λ seg res, match res with inr r => sent_bodies cmd seg = [(body, true)] ∧ TransactionHash r = (Hash tx).1 | inl _ => length (sent_bodies cmd seg) ≤ 1 end).
Proof.
  eapply spec_call; [apply send_spec|intros a; apply wait_spec| |].
  - intros s e (id & b & -> & _). simpl. by rewrite decide_True.
  - intros s1 s2 tx' r (id & b & -> & E) ((es & ->) & Hr). destruct b; [|done]. injection E as <-. rewrite sent_bodies_app, sent_ignored, app_nil_r.
    simpl. rewrite decide_True by done. destruct r; [done|]. auto.
Qed.

(** A call that asks for the account and then sends. *)
Lemma ask_and_send cmd from (f : AccountState → call (Receipt EventLog)) (good : AccountState → Transaction → bytes → Prop) :
  cmd ≠ c_GetAccountState →
  (∀ as_, spec (f as_) (λ seg res, match res with
     | inr r => ∃ tx body, good as_ tx body ∧ sent_bodies cmd seg = [(body, true)] ∧ TransactionHash r = (Hash tx).1
     | inl _ => length (sent_bodies cmd seg) ≤ 1 end)) →
  spec (call_bind (GetAccountState from) f) (confirms cmd from good).
Proof.
  intros Hc Hf. eapply spec_call; [apply account_state_spec|exact Hf| |].
  - intros s e (q & Hq & _). simpl. rewrite (sent_request _ _ _ _ _ Hq (not_eq_sym Hc)). simpl. lia.
  - intros s1 s2 as_ r (q & Hq & m & -> & Hm & Ha) Hr. pose proof (sent_request _ _ _ _ _ Hq (not_eq_sym Hc)) as Hs. simpl in Hq.
    destruct r as [e|r]; simpl; rewrite sent_bodies_app, Hs; [done|]. destruct Hr as (tx & body & Hg & Hb & Hh). exists as_, tx, body. split; [|done].
    exists m. subst s1. rewrite !elem_of_app, !elem_of_cons. auto 10.
Qed.

(** What comes before does not send the command. *)
Lemma confirms_after {B} cmd from (pre : call B) p good :
  spec pre (λ seg _, sent_bodies cmd seg = []) → spec p (confirms cmd from good) → spec (call_bind pre (λ _, p)) (confirms cmd from good).
Proof.
  intros Hp Hr. eapply spec_call; [exact Hp|intros ?; exact Hr| |].
  - intros s e Hs. simpl. rewrite Hs. simpl. lia.
  - intros s1 s2 a r Hs Hc. destruct r as [e|r]; simpl in *; rewrite sent_bodies_app, Hs; [done|].
    destruct Hc as (as_ & tx & body & (m & I1 & I2 & Hm & Ha) & Hrest). exists as_, tx, body. split; [|done]. exists m. rewrite !elem_of_app. auto.
Qed.

Lemma ensure_sends_nothing cmd : spec ensure_parent (λ seg _, sent_bodies cmd seg = []).
Proof. eapply spec_weaken; [apply ensure_parent_spec|]. by intros seg a [-> | ->]. Qed.

Definition plain_transaction (a : tx_args) (as_ : AccountState) (tx : Transaction) (body : bytes) : Prop :=
  tx = new_signed config a zeroHash zeroHash (nonce as_) (ChainId config) ∧ body = tx_Marshal (proto tx).

(** With a device key: the last key is what the chain answered for the account's last hash, the new
    key the hash of the key that is sent along. *)
Definition keyed_transaction (a : tx_args) (as_ : AccountState) (tx : Transaction) (body : bytes) : Prop :=
  ∃ data k now, device_key_of data = Some k ∧
    let raw := raw_device_key (ldk_TransactionHash k) now in
    tx = new_signed config a (HexToHash (hex_EncodeToString (ldk_LastDeviceKeyFromServer k))) (Keccak256 raw) (nonce as_) (ChainId config) ∧
    body = wd_Marshal {| wd_Transaction := Some (proto tx); wd_DeviceKey := raw |}.

Lemma nonce_sends_nothing cmd addr : cmd ≠ c_GetNonce → spec (ChainGetNonce addr) (λ seg _, sent_bodies cmd seg = []).
Proof. intros Hc. eapply spec_weaken; [apply nonce_spec|]. intros seg a (q & Hq). by apply (sent_request _ _ _ _ _ Hq). Qed.

Lemma send_transaction_spec a : spec (SendTransaction config a) (confirms c_SendTransaction (a_from a) (plain_transaction a)).
Proof.
  apply confirms_after; [apply ensure_sends_nothing|]. apply confirms_after; [by apply nonce_sends_nothing|]. apply ask_and_send; [done|].
  intros as_. eapply spec_weaken; [apply send_and_wait|]. intros seg [e|r]; [done|]. intros [Hs Hr]. do 2 eexists. split; [done|]. split; [exact Hs|exact Hr].
Qed.

Lemma read_transaction_spec a : spec (ReadTransaction config a) (confirms c_ReadTransaction (a_from a) (plain_transaction a)).
Proof.
  apply confirms_after; [apply ensure_sends_nothing|]. apply ask_and_send; [done|].
  intros as_. eapply spec_weaken; [apply send_and_wait|]. intros seg [e|r]; [done|]. intros [Hs Hr]. do 2 eexists. split; [done|]. split; [exact Hs|exact Hr].
Qed.

(** What the device keys were made from. *)
Definition keys_from (k : LastDeviceKey) (now : Z) (x : bytes * bytes * bytes) : Prop :=
  let raw := raw_device_key (ldk_TransactionHash k) now in
  x = (HexToHash (hex_EncodeToString (ldk_LastDeviceKeyFromServer k)), raw, Keccak256 raw).

Definition keys_result (from : bytes) (seg : list obs) (res : client_error + (AccountState * bytes * bytes * bytes)) : Prop :=
  sent_bodies c_SendTransactionWithDeviceKey seg = [] ∧
  match res with
  | inr (as_, lastKey, raw, newKey) => asked_account from as_ seg ∧ ∃ data k now, device_key_of data = Some k ∧ keys_from k now (lastKey, raw, newKey)
  | inl _ => True
  end.

Lemma last_key_spec as_ : spec (call_bind (ChainGetDeviceKey (lastHash as_)) (λ k, Now (λ now,
      ok (as_, HexToHash (hex_EncodeToString (ldk_LastDeviceKeyFromServer k)), raw_device_key (ldk_TransactionHash k) now,
          Keccak256 (raw_device_key (ldk_TransactionHash k) now)))))
  (λ seg res, sent_bodies c_SendTransactionWithDeviceKey seg = [] ∧ match res with
     | inr (as', lastKey, raw, newKey) => as' = as_ ∧ ∃ data k now, device_key_of data = Some k ∧ keys_from k now (lastKey, raw, newKey)
     | inl _ => True end).
Proof.
  eapply (spec_call _ _ _ (λ k s r, s = [] ∧ ∃ now, match r with inr (as', l, raw, n) => as' = as_ ∧ keys_from k now (l, raw, n) | inl _ => True end));
    [apply device_key_spec| | |].
  - intros k G tr now. simpl. exists []. rewrite app_nil_r. split; [done|]. split; [done|]. by exists now.
  - intros s e (q & Hq & _). split; [|done]. by apply (sent_request _ _ _ _ _ Hq).
  - intros s1 s2 k r (q & Hq & m & -> & Hk) (-> & now & Hr). rewrite app_nil_r. split; [by apply (sent_request _ _ _ _ _ Hq)|].
    destruct r as [e|[[[as' l] raw] n]]; [done|]. destruct Hr as [-> Hr]. split; [done|]. by exists (Body m), k, now.
Qed.

Lemma device_keys_spec from : spec (device_keys from) (keys_result from).
Proof.
  apply (spec_call _ _ (λ seg _, sent_bodies c_SendTransactionWithDeviceKey seg = []) (λ _, keys_result from)); [apply ensure_sends_nothing| | |].
  - intros ?. eapply spec_call; [apply account_state_spec|exact last_key_spec| |].
    + intros s e (q & Hq & _). split; [|exact I]. by apply (sent_request _ _ _ _ _ Hq).
    + intros s1 s2 as_ r (q & Hq & m & -> & Hm & Ha) [Hs Hr]. unfold keys_result.
      split; [rewrite sent_bodies_app, Hs; by rewrite (sent_request _ _ _ _ _ Hq)|]. destruct r as [e|[[[as' l] raw] n]]; [done|]. destruct Hr as [-> Hr].
      split; [|done]. exists m. simpl in Hq. subst s1. rewrite !elem_of_app, !elem_of_cons. auto 10.
  - intros s e Hs. by split.
  - intros s1 s2 [] r Hs [Hs2 Hr]. split; [by rewrite sent_bodies_app, Hs, Hs2|]. destruct r as [e|[[[as' l] raw] n]]; [done|]. destruct Hr as [(m & I1 & I2 & Hm) Hr].
    split; [|done]. exists m. rewrite !elem_of_app. auto.
Qed.

Lemma send_with_device_key_spec a : spec (send_with_device_key config a)
  (λ seg res, match res with
     | inr tx => ∃ as_ body, asked_account (a_from a) as_ seg ∧ keyed_transaction a as_ tx body ∧ sent_bodies c_SendTransactionWithDeviceKey seg = [(body, true)]
     | inl _ => length (sent_bodies c_SendTransactionWithDeviceKey seg) ≤ 1 end).
Proof.
  eapply (spec_call _ _ _ (λ x s r, ∃ id b, let '(as_, l, raw, n) := x in let tx := new_signed config a l n (nonce as_) (ChainId config) in
     s = [Sent c_SendTransactionWithDeviceKey id (with_device_key tx raw) b] ∧ r = if b : bool then inr tx else inl (ErrSend c_SendTransactionWithDeviceKey)));
    [apply device_keys_spec| | |].
  - intros [[[as_ l] raw] n]. eapply spec_weaken; [apply send_spec|]. intros seg r (id & b & Hs & Hr). by exists id, b.
  - intros s e [Hs _]. rewrite Hs. simpl. lia.
  - intros s1 s2 [[[as_ l] raw] n] r [Hs ((m & I1 & I2 & Hm) & data & k & now & Hk & E)] (id & b & -> & ->). rewrite sent_bodies_app, Hs. simpl.
    destruct b; [|done]. injection E as -> -> ->. eexists as_, _. split; [exists m; rewrite !elem_of_app; auto|]. split; [|done].
    exists data, k, now. split; [done|]. split; [done|reflexivity].
Qed.

Lemma device_key_transaction_spec a t : spec (call_bind (send_with_device_key config a) (λ tx, waitReceipt (Hash tx).1 t))
  (confirms c_SendTransactionWithDeviceKey (a_from a) (keyed_transaction a)).
Proof.
  eapply spec_call; [apply send_with_device_key_spec|intros tx; apply wait_spec| |].
  - intros s e Hs. exact Hs.
  - intros s1 s2 tx r (as_ & body & (m & I1 & I2 & Hm) & Hk & Hs) ((es & ->) & Hr). destruct r as [e|r]; simpl; rewrite sent_bodies_app, sent_ignored, app_nil_r, Hs; [done|].
    exists as_, tx, body. split; [exists m; rewrite !elem_of_app; auto|done].
Qed.


(** ** Receipts *)


(** ** The storage client *)

Definition deaf (c : Client EventLog) (out : list (send EventLog EventLogs)) : Prop :=
  handlerPending c = false ∧ (∀ ch l, replies c !! ch = Some l → l = []) ∧ ∀ ch m, ToReply ch m ∉ out.

Lemma deaf_same c c' out : deaf c out → handlerPending c' = handlerPending c → replies c' = replies c → deaf c' out.
Proof. intros (D1 & D2 & D3) E1 E2. unfold deaf. by rewrite E1, E2. Qed.

Lemma deaf_thread {A} e (p p' : prog A) o c c' out : deaf c out → thread_step e p c = Some (p', o, c') → deaf c' out ∧ ∀ x, Got x ∉ o.
Proof.
  intros D E. destruct p, e; simpl in E; try done.
  all: repeat (case_match; try done); simplify_eq.
  all: try match goal with E : replies _ !! _ = Some (_ :: _) |- _ => by apply (proj1 (proj2 D)) in E end.
  all: try (split; [by eapply deaf_same; [exact D|..]|set_solver]).
  - split; [|set_solver]. destruct D as (D1 & D2 & D3). split_and!; [done| |done]. simpl. intros ch l [(<- & <-)|(? & E)]%lookup_insert_Some; [done|eauto].
  - split; [|set_solver]. eapply deaf_same; [exact D|..]; unfold register; by repeat case_match.
  - split; [|set_solver]. eapply deaf_same; [exact D|..]; unfold cancel; by repeat case_match.
Qed.

Lemma deaf_handle m c r o c' out : deaf c out → HandleRequest (EventLogs:=EventLogs) (Stats:=Stats) m c = (r, o, c') →
  deaf c' (match r with HSend s => out ++ [s] | HReturn _ => out end).
Proof.
  intros D E. assert (∀ c1 s, handlerPending c1 = handlerPending c → replies c1 = replies c → (∀ ch x, s ≠ ToReply ch x) → deaf c1 (out ++ [s])) as S.
  { intros c1 s E1 E2 Hs. destruct (deaf_same c c1 out D E1 E2) as (D1 & D2 & D3). split_and!; [done..|].
    intros ch x [Hx|Hx%list_elem_of_singleton]%elem_of_app; [by apply (D3 ch x)|by apply (Hs ch x)]. }
  revert E. unfold HandleRequest, handleInitConnection, handleAccountState, handleTransactionError, handleNonce, handleDeviceKey, handleReceipt, handleEventLogs,
    handleStats, handleRpcResponse, handleRpcEvent, handleChainResponse. rewrite (proj1 D). simpl.
  repeat case_match; intros [= <- <- <-]; try done; by apply S.
Qed.

Lemma deaf_step {A} e (m m' : Machine A) : deaf (m_client m) (m_sending m) → Forall (λ t, ∀ x, Got x ∉ t_trace t) (m_threads m) →
  machine_step (Stats:=Stats) e m = Some m' → deaf (m_client m') (m_sending m') ∧ Forall (λ t, ∀ x, Got x ∉ t_trace t) (m_threads m').
Proof.
  intros D T. destruct e as [p|i e|msg|i|now|now]; simpl.
  - intros [= <-]. simpl. split; [done|]. apply Forall_app. split; [done|]. apply Forall_singleton. simpl. set_solver.
  - destruct (m_threads m !! i) as [t|] eqn:Et; simpl; [|done]. destruct (thread_step e (t_rest t) (m_client m)) as [[[p o] c]|] eqn:Es; simpl; [|done].
    intros [= <-]. destruct (deaf_thread _ _ _ _ _ _ _ D Es) as [D' Ho]. split; [done|]. simpl. apply Forall_insert; [done|]. intros x. simpl.
    rewrite Forall_lookup in T. specialize (T _ _ Et x). rewrite elem_of_app. intros [?|?]; [done|by apply (Ho x)].
  - destruct (HandleRequest msg (m_client m)) as [[r o] c] eqn:Eh. intros [= <-]. simpl. split; [by eapply deaf_handle|done].
  - destruct (m_sending m !! i) as [s|] eqn:Es; simpl; [|done]. destruct (try_send s (m_client m)) as [c|] eqn:Ec; simpl; [|done].
    intros [= <-]. simpl. split; [|done]. assert (deaf c (m_sending m)) as (D1 & D2 & D3).
    { destruct s; simpl in Ec; repeat case_match; simplify_eq; try done. destruct D as (_ & _ & D3). by destruct (D3 ch m0); eapply list_elem_of_lookup_2. }
    split_and!; [done..|]. intros ch x Hx%list_elem_of_delete_inv. by apply (D3 ch x).
  - destruct (route_receipt now (m_client m)) as [c|] eqn:Ec; simpl; [|done]. intros [= <-]. simpl. split; [|done].
    apply (deaf_same (m_client m)); [done|..]; unfold route_receipt in Ec; repeat case_match; by simplify_eq.
  - intros [= <-]. by split.
Qed.

Lemma deaf_run {A} es : ∀ m m' : Machine A, deaf (m_client m) (m_sending m) → Forall (λ t, ∀ x, Got x ∉ t_trace t) (m_threads m) →
  run es m = Some m' → Forall (λ t, ∀ x, Got x ∉ t_trace t) (m_threads m').
Proof.
  induction es as [|e es IH]; intros m m' D T; simpl; [by intros [= <-]|].
  destruct (machine_step e m) as [m1|] eqn:E; simpl; [|done]. destruct (deaf_step _ _ _ D T E). by apply IH.
Qed.

(** The client made for storage nodes does not give its handler the table of requests, so no answer
    ever reaches a call: every call that asks the chain ends with an error. *)
Theorem storage_client_deaf es (m : Machine (client_error + Receipt EventLog)) i a p res tr : run es (start NewStorageClient) = Some m →
  p = SendTransaction config a ∨ p = ReadTransaction config a ∨ p = SendTransactionWithDeviceKey config a →
  m_threads m !! i = Some {| t_call := p; t_rest := Ret res; t_trace := tr |} → ∃ e, res = inl e.
Proof.
  intros E Hp Ht. assert (fresh_client (NewStorageClient (EventLog:=EventLog))) as F by done.
  assert (∀ x, Got x ∉ tr) as G.
  { assert (Forall (λ t, ∀ x, Got x ∉ t_trace t) (m_threads m)) as T.
    { eapply deaf_run; [| |exact E]; [|constructor]. split_and!; [done|by intros ch l|]. intros ch x Hx. by apply elem_of_nil in Hx. }
    rewrite Forall_lookup in T. exact (T _ _ Ht). }
  assert (∀ cmd good, confirms cmd (a_from a) good tr res → ∃ e, res = inl e) as C.
  { intros cmd good Hc. destruct res as [e|r]; [by exists e|]. destruct Hc as (as_ & tx & body & (x & _ & Hx & _) & _). by destruct (G x). }
  destruct Hp as [-> |[-> | ->]]; (eapply C, (adequacy (Stats:=Stats) es _ m i); [exact F|exact E|exact Ht|]).
  - apply send_transaction_spec.
  - apply read_transaction_spec.
  - apply device_key_transaction_spec.
Qed.

(** ** Answers nobody asked for *)

(** Nobody reads the channel of nonces: once it holds one, a worker that brings another waits forever. *)
Theorem second_nonce_blocks {A} es : ∀ (m m' : Machine A) n n', nonceChan (m_client m) = Some [n] → ToNonce n' ∈ m_sending m → run es m = Some m' →
  nonceChan (m_client m') = Some [n] ∧ ToNonce n' ∈ m_sending m'.
Proof.
  induction es as [|e es IH]; intros m m' n n' Hn Hs; simpl; [by intros [= <-]|].
  destruct (machine_step e m) as [m1|] eqn:E; simpl; [|done]. intros R. cut (nonceChan (m_client m1) = Some [n] ∧ ToNonce n' ∈ m_sending m1); [intros [? ?]; by eapply IH|].
  clear R IH. destruct e as [p|i e|msg|i|now|now]; simpl in E.
  - by simplify_eq.
  - destruct (m_threads m !! i) as [t|] eqn:Et; simpl in E; [|done]. destruct (thread_step e (t_rest t) (m_client m)) as [[[p o] c]|] eqn:Es; simpl in E; [|done].
    simplify_eq. simpl. split; [|done]. destruct (t_rest t), e; simpl in Es; try done; unfold register, cancel in Es; repeat (case_match; try done); by simplify_eq.
  - destruct (HandleRequest msg (m_client m)) as [[r o] c] eqn:Eh. simplify_eq. simpl. split; [|case_match; [done|]; rewrite elem_of_app; auto].
    revert Eh. unfold HandleRequest, handleInitConnection, handleAccountState, handleTransactionError, handleNonce, handleDeviceKey, handleReceipt, handleEventLogs,
      handleStats, handleRpcResponse, handleRpcEvent, handleChainResponse. repeat case_match; by intros [= <- <- <-].
  - destruct (m_sending m !! i) as [s|] eqn:Es; simpl in E; [|done]. destruct (try_send s (m_client m)) as [c|] eqn:Ec; simpl in E; [|done]. simplify_eq. simpl.
    assert (s ≠ ToNonce n') as Hd by (intros ->; simpl in Ec; by rewrite Hn in Ec). split.
    + destruct s; simpl in Ec; rewrite ?Hn in Ec; repeat case_match; by simplify_eq.
    + apply list_elem_of_lookup in Hs as [j Hj]. assert (j ≠ i) by congruence. apply list_elem_of_lookup.
      destruct (decide (j < i)); [exists j; by rewrite list_lookup_delete_lt|exists (j - 1)]. rewrite list_lookup_delete_ge by lia. by replace (S (j - 1)) with j by lia.
  - destruct (route_receipt now (m_client m)) as [c|] eqn:Ec; simpl in E; [|done]. simplify_eq. simpl. split; [|done].
    unfold route_receipt in Ec. repeat case_match; by simplify_eq.
  - by simplify_eq.
Qed.

(** The calls of a run are those that were started. *)
Definition started {A} (es : list (event A)) : list (prog (EventLog:=EventLog) A) := omap (λ e, match e with Start p => Some p | _ => None end) es.

Lemma calls_started {A} es : ∀ m m' : Machine A, run es m = Some m' → t_call <$> m_threads m' = (t_call <$> m_threads m) ++ started es.
Proof.
  induction es as [|e es IH]; intros m m'; simpl; [intros [= <-]; by rewrite app_nil_r|].
  destruct (machine_step e m) as [m1|] eqn:E; simpl; [|done]. intros R. rewrite (IH _ _ R). clear R IH. destruct e as [p|i e|msg|i|now|now]; simpl in E.
  - simplify_eq. simpl. by rewrite fmap_app, <- app_assoc.
  - destruct (m_threads m !! i) as [t|] eqn:Et; simpl in E; [|done]. destruct (thread_step e (t_rest t) (m_client m)) as [[[p o] c]|] eqn:Es; simpl in E; [|done].
    simplify_eq. simpl. f_equal. rewrite list_fmap_insert. simpl. apply list_insert_id. by rewrite list_lookup_fmap, Et.
  - destruct (HandleRequest msg (m_client m)) as [[r o] c] eqn:Eh. by simplify_eq.
  - destruct (m_sending m !! i) as [s|] eqn:Es; simpl in E; [|done]. destruct (try_send s (m_client m)) as [c|]; simpl in E; [|done]. by simplify_eq.
  - destruct (route_receipt now (m_client m)) as [c|]; simpl in E; [|done]. by simplify_eq.
  - by simplify_eq.
Qed.

(** The result of the [i]-th call, once it has ended. *)
Definition result {A} (i : nat) (m : option (Machine A)) : option A :=
  m ← m; t ← m_threads m !! i; match t_rest t with Ret a => Some a | _ => None end.

Lemma result_thread {A} i es c (a : A) p : result i (run es (start c)) = Some a → started es !! i = Some p →
  ∃ m tr, run es (start c) = Some m ∧ m_threads m !! i = Some {| t_call := p; t_rest := Ret a; t_trace := tr |}.
Proof.
  unfold result. destruct (run es (start c)) as [m|] eqn:E; simpl; [|done]. destruct (m_threads m !! i) as [[p' r tr]|] eqn:Et; simpl; [|done].
  destruct r; intros [= ->] Hs. exists m, tr. split; [done|]. rewrite Et. pose proof (calls_started _ _ _ E) as C. simpl in C.
  apply (f_equal (.!! i)) in C. rewrite list_lookup_fmap, Et, Hs in C. simpl in C. by injection C as ->.
Qed.

(** ** Registration and files *)

(** [AddAccountForClient] prints the transaction before it sets the device key.  When the log level lets
    the line through, the hash that is signed and waited for is that of the transaction without the
    key, which is not the hash of what is sent, or two inputs of the hash function collide. *)
Theorem registration_signs_stale_hash `{!ProtoLaws TransactionHashData} ethTx deviceKey t0 t :
  NewTransactionFromEth ethTx = Ok t0 → account_transaction config ethTx deviceKey = Some t → deviceKey ≠ tx_LastDeviceKey (proto t0) →
  tx_LastDeviceKey (proto t) = deviceKey ∧
  if logInfo config
  then tx_Sign (proto t) = BlsSign (KeyPair config) (hash_of (proto t0)) ∧ (Hash t).1 = hash_of (proto t0) ∧
       (hash_of (proto t0) = hash_of (proto t) → ∃ x y, x ≠ y ∧ Keccak256 x = Keccak256 y)
  else tx_Sign (proto t) = BlsSign (KeyPair config) (hash_of (proto t)) ∧ (Hash t).1 = hash_of (proto t).
Proof.
  intros E0. unfold account_transaction, log_transaction. rewrite E0. intros [= <-] Hk.
  assert (t0 = TransactionFromProto (proto t0)) as -> by (unfold NewTransactionFromEth in E0; repeat case_match; by simplify_eq).
  split; [by destruct (logInfo config)|]. destruct (logInfo config).
  - split; [done|]. split; [done|]. intros Eh. unfold hash_of in Eh. do 2 eexists. split; [|exact Eh]. intros X%(inj proto_Marshal)%(f_equal hd_LastDeviceKey). simpl in X. by apply Hk.
  - split; done.
Qed.

Lemma new_signed_wire a l n nn ci : after_wire (proto (new_signed config a l n nn ci)) = proto (new_signed config a l n nn ci).
Proof. done. Qed.

(** A transaction saved to a file is loaded as it was, under its hash, with its device key; no other file
    is touched.  Sending a directory sends the transactions of the files that can be loaded, in the order
    of the files and in one message. *)
Theorem saved_transaction_loads `{!DeviceKeyCodecLaws} a l n nn k ci fs files :
  let tx := new_signed config a l n nn ci in
  let fs' := controller_SaveTransactionWithDeviceKeyToFile config a l n nn k ci fs in
  LoadTransactionWithDeviceKeyFromFile (AccountState.HashHex (Hash tx).1) fs' = Some (Some (proto tx), k) ∧
  (∀ f, f ≠ AccountState.HashHex (Hash tx).1 → fs' !! f = fs !! f) ∧
  spec (SendAllTransactionsInDirectory files fs')
    (λ seg res, res = inr tt → ∃ b, sent_bodies c_SendTransactions seg = [(txs_Marshal (loadable files fs'), b)]).
Proof.
  simpl. set (h := hash_of _). split_and!.
  - unfold LoadTransactionWithDeviceKeyFromFile, controller_SaveTransactionWithDeviceKeyToFile. simpl. fold h. rewrite lookup_insert_eq. simpl.
    unfold with_device_key. rewrite wd_wire. done.
  - intros f Hf. unfold controller_SaveTransactionWithDeviceKeyToFile. simpl. fold h. by rewrite lookup_insert_ne by done.
  - intros G tr [|]; simpl; [|exists []; split; [by rewrite app_nil_r|done]]. intros id b. rewrite <- app_assoc. eexists. split; [done|]. intros _. by exists b.
Qed.

(** Reconnecting to the storage node always ends in a panic: at the first round in which the parent is
    connected or can be dialled. *)
Theorem storage_retry_panics rounds : RetryConnectToStorage rounds = existsb (λ x : bool * bool, x.1 || x.2) rounds.
Proof. induction rounds as [|[[] []] rounds IH]; simpl; try done. Qed.

End Specs.

(** ** Concrete runs *)

Module TcpExample.
Import ToyTx ToyState ToyDeviceKey ReceiptsTheorems.Example.

#[local] Instance error_ser : Ser TransactionHashWithError :=
  ser_iso (λ e, (he_Hash e, he_Code e, he_Description e, he_Output e)) (λ '(a, b, c, d), Build_TransactionHashWithError a b c d) ltac:(by intros []).
#[local] Instance error_proto : Proto TransactionHashWithError := toy_proto {| he_Hash := []; he_Code := 0; he_Description := ""; he_Output := [] |}.
#[local] Instance bytes_proto : Proto bytes := toy_proto [].
#[local] Instance init_proto : Proto pb_InitConnection := {| proto_Marshal _ := []; proto_Unmarshal _ := None; proto_default := {| ic_Address := []; ic_Type := "" |} |}.
#[local] Instance rpc_proto : Proto pb_RpcResponse := {| proto_Marshal _ := []; proto_Unmarshal _ := None; proto_default := {| rr_Id := ""; rr_Result := [] |} |}.
#[local] Instance event_proto : Proto pb_RpcEvent := {| proto_Marshal _ := []; proto_Unmarshal _ := None; proto_default := {| re_SubscriptionId := ""; re_Log := [] |} |}.
#[local] Instance keys : EthKeys bytes := {| HexToECDSA s := Some (str_bytes s); crypto_Sign h k := Some (k ++ h); SignTx _ _ t := Some t |}.

Definition cfg (log : bool) : ClientConfig :=
  {| KeyPair := [x01]; PublicKeyHex := "0xab"; ChainId := 991; PkAdminFileStorage := "k"; OwnerFileStorageAddress := ""; logInfo := log |}.
Abbreviation M := (Machine (EventLog:=bytes) (EventLogs:=bytes) (client_error + Receipt bytes)).
Abbreviation go := (machine_run (EventLog:=bytes) (EventLogs:=bytes) (Stats:=bytes) (A:=client_error + Receipt bytes)).

Definition msg (cmd id : string) (body : bytes) : pb_Message :=
  {| m_Header := Some {| h_Command := cmd; h_Pubkey := []; h_ToAddress := []; h_Sign := []; h_Version := ""; h_ID := id |}; m_Body := body |}.
Definition receipt_of (h : bytes) : Receipt bytes := NewReceipt h [] [] 0 RECEIPT_STATUS_RETURNED [x07] EXCEPTION_NONE 1 21000 [] 0.
Definition hA : bytes := replicate 32 x0a.
Definition hB : bytes := replicate 32 x0b.

(** *** A transaction *)

Definition args : tx_args :=
  {| a_from := zeros 20; a_to := dest; a_amount := 5; a_data := []; a_related := []; a_maxGas := 21000; a_maxGasPrice := 1; a_maxTimeUse := 60 |}.
Definition sent_tx : Transaction := new_signed (cfg true) args zeroHash zeroHash 1 991.
Definition conversation : list (event (client_error + Receipt bytes)) :=
  [Start (SendTransaction (cfg true) args); Move 0 (CBool true);
   Move 0 (CBool true); Move 0 (CString "n"); Move 0 CGo; Move 0 (CBool true); Arrive (msg c_Nonce "n" (PutUint64 1)); Deliver 0; Move 0 CReceive;
   Move 0 (CBool true); Move 0 (CString "a"); Move 0 CGo; Move 0 (CBool true);
   Arrive (msg c_AccountState "a" (AccountState_Marshal funded)); Deliver 0; Move 0 CReceive;
   Move 0 (CString "t"); Move 0 (CBool true); Move 0 (CTime 0);
   Arrive (msg c_Receipt "" (proto_Marshal (receipt_of (Hash sent_tx).1))); Deliver 0; Route 1; Move 0 CReceive].

Definition confirmed : Receipt bytes := receipt_of (Hash sent_tx).1.


(** *** Receipts and errors *)

Definition waiting : list (event (client_error + Receipt bytes)) :=
  [Start (waitReceipt hA pendingReceiptTTL); Move 0 (CTime 0); Arrive (msg c_Receipt "" (proto_Marshal (receipt_of hA))); Deliver 0].


Definition error_of (h : bytes) : TransactionHashWithError := NewTransactionHashWithError h 1 "invalid nonce" [].

(** All waiting calls read one channel of errors: the error of a transaction may be taken, and thrown away,
    by the call that waits for another; its own call then waits for its timeout. *)
Theorem error_stolen : ∃ es m t, go es (start NewClient) = Some m ∧ In (Arrive (msg c_TransactionError "" (HashWithError_Marshal (error_of hB)))) es ∧
  m_threads m !! 0 = Some t ∧ t_trace t = [Ignored (error_of hB)] ∧ result 1 (Some m) = Some (inl ErrWaitTimeout).
Proof.
  exists [Start (waitReceipt hA pendingReceiptTTL); Start (waitReceipt hB pendingReceiptTTL); Move 0 (CTime 0); Move 1 (CTime 0);
          Arrive (msg c_TransactionError "" (HashWithError_Marshal (error_of hB))); Deliver 0; Move 0 CError; Move 1 CTimer; Move 1 CGo; Move 1 CGo].
  do 2 eexists. split; [vm_compute; reflexivity|]. split; [simpl; tauto|]. split; [reflexivity|]. split; [vm_compute; reflexivity|reflexivity].
Qed.

(** A receipt that came more than a minute before the call deletes itself and leaves the call unregistered:
    when the receipt comes again the call does not get it and runs into its timeout. *)
Theorem expired_receipt_hides : ∃ es, result 0 (go es (start NewClient)) = Some (inl ErrWaitTimeout) ∧
  es = [Arrive (msg c_Receipt "" (proto_Marshal (receipt_of hA))); Deliver 0; Route 0;
        Start (waitReceipt hA pendingReceiptTTL); Move 0 (CTime (pendingReceiptTTL + 1));
        Arrive (msg c_Receipt "" (proto_Marshal (receipt_of hA))); Deliver 0; Route (pendingReceiptTTL + 2);
        Move 0 CTimer; Move 0 CGo; Move 0 CGo].
Proof. eexists. split; [|reflexivity]. vm_compute. reflexivity. Qed.

Definition deaf_run_steps : list (event (client_error + Receipt bytes)) :=
  [Start (SendTransaction (cfg true) args); Move 0 (CBool true); Move 0 (CBool true); Move 0 (CString "n"); Move 0 CGo; Move 0 (CBool true);
   Arrive (msg c_Nonce "n" (PutUint64 1)); Move 0 CTimer; Move 0 CGo].

Lemma storage_client_deaf_witness : ∃ m tr, go deaf_run_steps (start NewStorageClient) = Some m ∧
  m_threads m !! 0 = Some {| t_call := SendTransaction (cfg true) args; t_rest := Ret (inl (ErrTimeout c_GetNonce)); t_trace := tr |} ∧
  ∃ e, (inl (ErrTimeout c_GetNonce) : client_error + Receipt bytes) = inl e.
Proof.
  destruct (result_thread (EventLogs:=bytes) (Stats:=bytes) 0 deaf_run_steps NewStorageClient (inl (ErrTimeout c_GetNonce)) (SendTransaction (cfg true) args)) as (m & tr & E & Ht);
    [vm_compute; reflexivity|reflexivity|].
  exists m, tr. split; [exact E|]. split; [exact Ht|].
  exact (storage_client_deaf (EventLogs:=bytes) (Stats:=bytes) (cfg true) deaf_run_steps m 0 args _ _ tr E (or_introl eq_refl) Ht).
Defined.

Definition two_nonces : list (event (EventLog:=bytes) (client_error + Receipt bytes)) :=
  [Arrive (msg c_Nonce "" (PutUint64 1)); Deliver 0; Arrive (msg c_Nonce "" (PutUint64 2))].

Lemma second_nonce_blocks_witness : ∃ m m', go two_nonces (start NewClient) = Some m ∧ go [Tick 5; Tick 6] m = Some m' ∧
  nonceChan (m_client m') = Some [1%Z] ∧ ToNonce 2 ∈ m_sending m'.
Proof.
  assert (∃ m, go two_nonces (start NewClient) = Some m ∧ nonceChan (m_client m) = Some [1%Z] ∧ m_sending m = [ToNonce 2]) as (m & E & N & S)
    by (eexists; split; [vm_compute; reflexivity|split; reflexivity]).
  exists m. eexists. split; [exact E|]. split; [reflexivity|].
  apply (second_nonce_blocks (Stats:=bytes) [Tick 5; Tick 6] m _ 1 2 N ltac:(rewrite S; apply list_elem_of_singleton; reflexivity) eq_refl).
Defined.

(** *** Registration and files *)

Definition registered : option Transaction := account_transaction (cfg true) (dynamic 3) (zeros 32).

Lemma registration_signs_stale_hash_witness : ∃ t0 t, NewTransactionFromEth (dynamic 3) = Ok t0 ∧ registered = Some t ∧
  tx_Sign (proto t) = x01 :: hash_of (proto t0) ∧ hash_of (proto t0) ≠ hash_of (proto t).
Proof.
  assert (∃ t0, NewTransactionFromEth (dynamic 3) = Ok t0 ∧ tx_LastDeviceKey (proto t0) = []) as (t0 & E0 & L0) by (eexists; split; [vm_compute; reflexivity|reflexivity]).
  assert (∃ t, registered = Some t) as (t & E) by (unfold registered, account_transaction; rewrite E0; eexists; reflexivity).
  destruct (registration_signs_stale_hash (cfg true) (dynamic 3) (zeros 32) t0 t E0 E ltac:(rewrite L0; discriminate)) as (_ & S & _ & _).
  exists t0, t. split; [exact E0|]. split; [exact E|]. split; [exact S|].
  assert (option_map (λ t, bool_decide (hash_of (proto t0) = hash_of (proto t))) registered = Some false) as B.
  { vm_compute in E0. injection E0 as <-. vm_compute. reflexivity. }
  rewrite E in B. apply (inj Some) in B. exact (proj1 (bool_decide_eq_false _) B).
Defined.

Lemma saved_transaction_loads_witness :
  let fs := controller_SaveTransactionWithDeviceKeyToFile (cfg true) args zeroHash zeroHash 1 [x05] 991 ∅ in
  loadable [AccountState.HashHex (Hash sent_tx).1; "missing"] fs = [Some (proto sent_tx)].
Proof.
  intros fs. destruct (saved_transaction_loads (EventLog:=bytes) (cfg true) args zeroHash zeroHash 1 [x05] 991 ∅ []) as (L & O & _).
  unfold loadable. simpl. change (hash_of _) with (Hash sent_tx).1. fold fs in L. simpl in L. rewrite L. simpl.
  unfold LoadTransactionWithDeviceKeyFromFile. fold fs in O. rewrite O; [reflexivity|]. vm_compute. discriminate.
Defined.

End TcpExample.
