(* ===== verification/RpcClient.v ===== *)
(** * The RPC client of the proxy ([pkg/rpc_client])

    The client asks a node for the state of an account, builds the transaction of a user out of it, signs
    it with the BLS key of the proxy and sends it, over HTTP (JSON-RPC or a binary body) or over the TCP
    connection of [connection_client].  The network, the clock, the scheduler's choice of a pooled buffer
    and encoding/json's codecs are parameters. *)

From S2P Require Import Prelude GoLib Interfaces LevelDB HexCodec AccountState Transaction TcpFlows Bls RpcPayload.
From Stdlib Require Import Strings.Byte Strings.Ascii.

(** ** JSON-RPC *)

(** What encoding/json makes of a value: a number is a float64, known here by its integer part, which is
    all the client reads of it. *)
Inductive json :=
  | JNull | JBool (b : bool) | JNumber (z : Z) | JString (s : string)
  | JArray (l : list json) | JObject (l : list (string * json)).

Record JSONRPCError := {
  Code : Z; Message : string; Data : string; Decoded : bool; ErrorType : string; ErrorName : string; ErrorSig : string;
  Arguments_ : list (string * json); PanicCode : string; ContractAddr : string; ContractName : string; PC : Z; CallDepth : Z;
  Function_ : string }.

Inductive param := PString (s : string) | PBytes (b : bytes).

(** [Id] is nil as [JNull]. *)
Record JSONRPCRequest := { rq_Jsonrpc : string; Method_ : string; Params : list param; rq_Id : json }.

Record JSONRPCResponse := { rs_Jsonrpc : string; Result : json; Error_ : option JSONRPCError; rs_Id : json }.

Definition rpcError (code : Z) (msg : string) : JSONRPCError :=
  {| Code := code; Message := msg; Data := ""; Decoded := false; ErrorType := ""; ErrorName := ""; ErrorSig := "";
     Arguments_ := []; PanicCode := ""; ContractAddr := ""; ContractName := ""; PC := 0; CallDepth := 0; Function_ := "" |}.

Definition rpcErrorData (code : Z) (msg data : string) : JSONRPCError :=
  {| Code := code; Message := msg; Data := data; Decoded := false; ErrorType := ""; ErrorName := ""; ErrorSig := "";
     Arguments_ := []; PanicCode := ""; ContractAddr := ""; ContractName := ""; PC := 0; CallDepth := 0; Function_ := "" |}.

(** The responses the client makes itself. *)
Definition failed (msg : string) (id : json) : JSONRPCResponse :=
  {| rs_Jsonrpc := "2.0"; Result := JNull; Error_ := Some (rpcError (-1) msg); rs_Id := id |}.

(** ** Collaborators *)

(** An error of the HTTP client: its text, and whether it is a [net.Error] that is a timeout or
    temporary. *)
Record http_error := { err_text : string; err_transient : bool }.

(** A response, with its body or the error of reading it. *)
Inductive http_result := HttpErr (e : http_error) | HttpResp (status : Z) (body : string + bytes).

Class RpcNet (N : Type) := {
  http_Post : string → bytes → N → http_result * N;          (** URL and JSON body *)
  http_NewRequest : string → option string;                   (** the error of a URL that does not parse *)
  http_Do : string → bytes → Z → N → http_result * N;         (** URL, body as read from the reader, announced length *)
  read_size : nat;                                             (** the transport's buffer, less one byte *)
  ws_WriteJSON : JSONRPCRequest → N → option string * N;
  ws_ReadJSON : N → (string + JSONRPCResponse) * N;
  Sleep : Z → N → N;                                           (** in milliseconds *)
  Unix : N → Z * N;
  chain_GetAccountState : bytes → N → option bytes * N;        (** [ConnectionClient.GetAccountState] *)
  chain_GetDeviceKey : bytes → N → option bytes * N;
  pick_buffer : N → option nat * N;
  append_cap : Z → Z → Z;
}.

Class RpcJson := {
  json_Marshal : JSONRPCRequest → string + bytes;
  json_Decode : bytes → string + JSONRPCResponse;
  json_backendErr : bytes → option (Z * string * string);
}.

(** go-ethereum's rpc and hexutil; the conversions of a float64 outside the range of the integer are
    left to the Go implementation. *)
Class EthRpc := {
  LatestBlock : string;                                        (** the text of the latest block number *)
  hexutil_DecodeUint64 : string → option Z;
  overflow_uint64 : Z → Z;
  overflow_int32 : Z → Z;
}.

(** ** Strings *)

Fixpoint Contains (s sub : string) : bool :=
  HasPrefix s sub || match s with EmptyString => false | String _ s => Contains s sub end.

Fixpoint TrimRight_slash (s : string) : string :=
  match s with
  | EmptyString => EmptyString
  | String c s =>
      let r := TrimRight_slash s in
      if decide (c = "/"%char ∧ r = EmptyString) then EmptyString else String c r
  end.

(** [strings.ToLower] on ASCII letters. *)
Definition lower_char (c : Ascii.ascii) : Ascii.ascii :=
  let n := Ascii.nat_of_ascii c in if ((65 <=? n) && (n <=? 90))%nat then Ascii.ascii_of_nat (n + 32) else c.
Definition ToLower (s : string) : string := String.string_of_list_ascii (lower_char <$> String.list_ascii_of_string s).

(** ** The client *)

Inductive rpc_error :=
  | ErrServer (code : Z) (msg : string)
  | ErrNotMap (j : json) | ErrNoResult
  | ErrParam (field value : string)
  | ErrAccountState (e : rpc_error)
  | ErrGetSender | ErrNoBlsKey | ErrOtherBlsKey | ErrNilCfg | ErrTopUp | ErrConvert (e : tx_error)
  | ErrBalance (have need : Z)
  | ErrChainState | ErrChainUnmarshal | ErrChainKey | ErrChainKeyLength (n : nat)
  | ErrReceipt (msg : string) | ErrReceiptJson | ErrReceiptTimeout (hash : string).

(** [None] is a nil [KeyPair] (a private key that does not validate) and a nil [WsConn]. *)
Record ClientRPC := { UrlHTTP : string; UrlWS : string; c_KeyPair : option KeyPair; c_ChainId : Z; WsConn : bool }.

Record RpcSt (N : Type) := { st_net : N; st_pool : ProtoPool }.
Arguments st_net {_} _.
Arguments st_pool {_} _.

Record CallObjectSchema := {
  s_From : string; s_To : string; s_Gas : string; s_GasPrice : string; s_MaxFeePerGas : string; s_MaxPriorityFeePerGas : string;
  s_Value : string; s_Nonce : string; s_Data : string; s_Input : string }.

Record DecodedCallObject := { Schema : CallObjectSchema; d_FromAddress : bytes; d_ToAddress : bytes; HasTo : bool; Payload : bytes }.

(** The fields of the proxy's configuration that the builders read. *)
Record FreeGasConfig := { f_DisableFreeGas : bool; f_FreeGasMinBalance : option Z }.

Definition GetFreeGasMinBalance (c : FreeGasConfig) : Z :=
  match f_FreeGasMinBalance c with
  | Some v => if (0 <? v)%Z then v else 10000000000000000
  | None => 10000000000000000
  end.

Definition MINIMUM_BASE_FEE : Z := 1000000.
Definition ACCOUNT_SETTING_ADDRESS_SELECT : string := "account".

Definition maxHTTPRetries : nat := 3.
Definition baseRetryDelay : Z := 2000.

Definition StatusOK : Z := 200.

Definition shouldRetryStatus (status : Z) : bool := bool_decide (status ∈ [502; 503; 504; 429]%Z).

Definition isRetryableError (e : http_error) : bool :=
  err_transient e || Contains (err_text e) "use of closed network connection"
  || Contains (err_text e) "connection reset by peer" || Contains (err_text e) "broken pipe".

Section Client.
Context `{EthCommon} `{EthAddress} `{EthHex} `{EthTypes} `{TxCrypto} `{TxCodec} `{DeviceKeyCodec} `{Blst SK}.
Context `{Proto TransactionHashData} `{Proto pb_CallData} `{Proto pb_DeployData} `{Proto pb_AccountState}.
Context {N : Type} `{RpcNet N} `{RpcJson} `{EthRpc}.

Definition M : Type → Type := comp (RpcSt N) rpc_error.

Definition net {A} (f : N → A * N) : M A := λ s,
  let '(a, n) := f (st_net s) in (Ok a, {| st_net := n; st_pool := st_pool s |}).
Definition sleep (ms : Z) : M unit := net (λ n, (tt, Sleep ms n)).
Definition get_pool : M ProtoPool := λ s, (Ok (st_pool s), s).
Definition on_pool {A} (f : ProtoPool → A * ProtoPool) : M A := λ s,
  let '(a, P) := f (st_pool s) in (Ok a, {| st_net := st_net s; st_pool := P |}).
Definition err {A} (e : rpc_error) : M A := c_fail e.

Definition NewClientRPC (urlHTTP urlWS privateKey : string) (chainId : Z) : ClientRPC :=
  {| UrlHTTP := urlHTTP; UrlWS := urlWS; c_KeyPair := NewKeyPair (FromHex privateKey); c_ChainId := chainId; WsConn := false |}.

(** [c.KeyPair], which the code dereferences without a test. *)
Definition key (c : ClientRPC) : M KeyPair := match c_KeyPair c with Some k => mret k | None => c_panic end.

(** *** Requests *)

(** The loop of attempts: the response to give up with, or the body of a response with status 200. *)
Fixpoint http_attempts (rem : nat) (c : ClientRPC) (body : bytes) (id : json) : M (JSONRPCResponse + (string + bytes)) :=
  match rem with
  | O => mret (inl (failed "unexpected nil response after retries" id))
  | S rem =>
      let attempt := Z.of_nat (maxHTTPRetries - rem) in
      r ← net (http_Post (UrlHTTP c) body);
      match r with
      | HttpErr e =>
          if (rem =? 0)%nat || negb (isRetryableError e) then mret (inl (failed (err_text e) id))
          else _ ← sleep (attempt * baseRetryDelay); http_attempts rem c body id
      | HttpResp status b =>
          if negb (status =? StatusOK)%Z then
            if shouldRetryStatus status && negb (rem =? 0)%nat then _ ← sleep (attempt * baseRetryDelay); http_attempts rem c body id
            else mret (inl (failed ("HTTP status code: " +:+ big_String status) id))
          else mret (inr b)
      end
  end.

Definition SendHTTPRequest (c : ClientRPC) (request : JSONRPCRequest) : M JSONRPCResponse :=
  match json_Marshal request with
  | inl e => mret (failed e (rq_Id request))
  | inr requestBody =>
      r ← http_attempts maxHTTPRetries c requestBody (rq_Id request);
      match r with
      | inl response => mret response
      | inr (inl e) => mret (failed e (rq_Id request))
      | inr (inr body) =>
          match json_Decode body with
          | inl e => mret (failed e (rq_Id request))
          | inr response => mret response
          end
      end
  end.

(** [NewClientRPC] leaves [WsConn] nil. *)
Definition SendWSRequest (c : ClientRPC) (request : JSONRPCRequest) : M JSONRPCResponse :=
  if negb (WsConn c) then c_panic
  else
    e ← net (ws_WriteJSON request);
    match e with
    | Some e => mret (failed e (rq_Id request))
    | None =>
        r ← net ws_ReadJSON;
        match r with
        | inl e => mret (failed e (rq_Id request))
        | inr response => mret response
        end
    end.

Definition call_rpc (method : string) (params : list param) (id : json) (c : ClientRPC) : M JSONRPCResponse :=
  SendHTTPRequest c {| rq_Jsonrpc := "2.0"; Method_ := method; Params := params; rq_Id := id |}.

(** *** The state of an account *)

(** [resultValue[k]]: nil when the key is missing. *)
Definition json_get (k : string) (l : list (string * json)) : json :=
  match list_find (λ x, x.1 = k) l with Some (_, (_, v)) => v | None => JNull end.

(** Type assertions without the comma: they panic. *)
Definition as_string (j : json) : M string := match j with JString s => mret s | _ => c_panic end.
Definition as_float (j : json) : M Z := match j with JNumber z => mret z | _ => c_panic end.

Definition float_uint64 (z : Z) : Z := if decide (0 ≤ z < 2 ^ 64)%Z then z else overflow_uint64 z.
Definition float_int32 (z : Z) : Z := if decide (- 2 ^ 31 ≤ z < 2 ^ 31)%Z then z else overflow_int32 z.

Definition GetAccountState (c : ClientRPC) (addr : bytes) (blockNrOrHash : string) : M AccountState :=
  response ← call_rpc "mtn_getAccountState" [PString (AddressHex addr); PString blockNrOrHash] (JNumber 1) c;
  match Error_ response with
  | Some e => err (ErrServer (Code e) (Message e))
  | None =>
      match Result response with
      | JNull => err ErrNoResult
      | JObject resultValue =>
          a ← as_string (json_get "address" resultValue);
          b ← as_string (json_get "balance" resultValue);
          pb ← as_string (json_get "pendingBalance" resultValue);
          lh ← as_string (json_get "lastHash" resultValue);
          dk ← as_string (json_get "deviceKey" resultValue);
          n ← as_float (json_get "nonce" resultValue);
          pk ← as_string (json_get "publicKeyBls" resultValue);
          ty ← as_float (json_get "accountType" resultValue);
          mret (ToAccountState {| j_Address := a; j_Balance := b; j_PendingBalance := pb; j_LastHash := lh; j_DeviceKey := dk;
            j_SmartContractState := None; j_Nonce := float_uint64 n; j_PublicKeyBls := pk; j_AccountType := float_int32 ty |})
      | j => err (ErrNotMap j)
      end
  end.

Definition GetDeviceKey (c : ClientRPC) (hash : bytes) : M bytes :=
  response ← call_rpc "mtn_getDeviceKey" [PString (HashHex hash)] (JNumber 1) c;
  match Error_ response with
  | Some e => err (ErrServer (Code e) (Message e))
  | None =>
      match Result response with
      | JNull => err ErrNoResult
      | j => s ← as_string j; mret (HexToHash s)
      end
  end.

(** Over TCP; the nonce is read without a test of its length. *)
Definition GetAccountStateTCP (addr : bytes) : M AccountState :=
  asBytes ← net (chain_GetAccountState addr);
  match asBytes with
  | None => err ErrChainState
  | Some asBytes =>
      match proto_Unmarshal asBytes with
      | None => err ErrChainUnmarshal
      | Some pbAS =>
          match Uint64 (pb_Nonce pbAS) with
          | None => c_panic
          | Some n =>
              mret (ToAccountState {| j_Address := AddressHex (BytesToAddress (pb_Address pbAS));
                j_Balance := big_String (big_SetBytes (pb_Balance pbAS));
                j_PendingBalance := big_String (big_SetBytes (pb_PendingBalance pbAS));
                j_LastHash := HashHex (BytesToHash (pb_LastHash pbAS));
                j_DeviceKey := HashHex (BytesToHash (pb_DeviceKey pbAS));
                j_SmartContractState := None; j_Nonce := n;
                j_PublicKeyBls := hex_EncodeToString (pb_PublicKeyBls pbAS); j_AccountType := pb_AccountType pbAS |})
          end
      end
  end.

(** The answer is the transaction's hash, with the device key behind it when there is one. *)
Definition GetDeviceKeyTCP (hash : bytes) : M bytes :=
  d ← net (chain_GetDeviceKey hash);
  match d with
  | None => err ErrChainKey
  | Some d =>
      if negb (length d =? 64)%nat && negb (length d =? 32)%nat then err (ErrChainKeyLength (length d))
      else if (length d =? 32)%nat then mret zeroHash
      else mret (BytesToHash (drop 32 d))
  end.

(** *** Sending *)

Definition SendRawTransaction (c : ClientRPC) (input ethInput pubKeyBls : bytes) : M JSONRPCResponse :=
  call_rpc "eth_sendRawTransactionWithDeviceKey" [PBytes input; PBytes ethInput; PBytes pubKeyBls] (JNumber 1) c.

Definition SendRawEthTransaction (c : ClientRPC) (rawTxHex : string) (id : json) : M JSONRPCResponse :=
  let id := match id with JNull => JNumber 1 | _ => id end in
  call_rpc "eth_sendRawTransaction" [PString rawTxHex] id c.

Definition hexutil_String (b : bytes) : string := "0x" +:+ hex_EncodeToString b.

(** The identifier of these two requests is nil. *)
Definition SendCallTransaction (c : ClientRPC) (input : bytes) : M JSONRPCResponse :=
  call_rpc "eth_call" [PString (hexutil_String input)] JNull c.

Definition SendEstimateGas (c : ClientRPC) (input : bytes) : M JSONRPCResponse :=
  call_rpc "eth_estimateGas" [PString (hexutil_String input)] JNull c.

Definition SendDeployContract (c : ClientRPC) (constructorBytecode : bytes) : M JSONRPCResponse :=
  call_rpc "eth_deployContract" [PString (hexutil_String constructorBytecode)] (JNumber 1) c.

(** A byte slice of a caller: its own, or one of the pool. *)
Inductive slice := Own (b : bytes) | Pooled (p : payload).

Definition slice_bytes (s : slice) (P : ProtoPool) : bytes := match s with Own b => b | Pooled p => contents p P end.

(** The [release] functions of the two payloads, which may be nil. *)
Definition run_release (r : option payload) : M unit :=
  match r with Some p => on_pool (λ P, (tt, release p P)) | None => mret tt end.

Definition release_both (releaseMeta releaseEth : option payload) : M unit :=
  _ ← run_release releaseMeta; run_release releaseEth.

Definition binaryURL (c : ClientRPC) : string := TrimRight_slash (UrlHTTP c) +:+ "/mtn/sendRawTransactionBin".

(** What the body of a response with the given status means. *)
Definition binary_response (status : Z) (body : string + bytes) : JSONRPCResponse :=
  match body with
  | inl e => failed e JNull
  | inr body =>
      if negb (status =? StatusOK)%Z then
        match json_backendErr body with
        | None => failed ("status " +:+ big_String status +:+ ": " +:+ TrimSpace (bytes_str body)) JNull
        | Some (code, msg, data) => {| rs_Jsonrpc := "2.0"; Result := JNull; Error_ := Some (rpcErrorData code msg data); rs_Id := JNull |}
        end
      else if negb (length body =? 32)%nat then failed ("unexpected hash length " +:+ big_String (Z.of_nat (length body))) JNull
      else {| rs_Jsonrpc := "2.0"; Result := JString (HashHex body); Error_ := None; rs_Id := JNull |}
  end.

Definition SendRawTransactionBinary (c : ClientRPC) (metaTx : slice) (releaseMeta : option payload)
    (ethTx : slice) (releaseEth : option payload) (pubKeyBls : bytes) : M JSONRPCResponse :=
  P ← get_pool;
  let parts := [slice_bytes metaTx P; slice_bytes ethTx P; pubKeyBls] in
  let '(reader, totalLen) := newBinaryPayloadReader parts in
  match http_NewRequest (binaryURL c) with
  | Some e => _ ← release_both releaseMeta releaseEth; mret (failed e JNull)
  | None =>
      match drain (S (Z.to_nat totalLen)) (S read_size) reader with
      | None => c_nofuel
      | Some body =>
          r ← net (http_Do (binaryURL c) body totalLen);
          match r with
          | HttpErr e => _ ← release_both releaseMeta releaseEth; mret (failed (err_text e) JNull)
          | HttpResp status b => _ ← release_both releaseMeta releaseEth; mret (binary_response status b)
          end
      end
  end.

(** *** Numbers of a call object *)

Definition resolveUint64Param (value : string) (defaultVal : Z) (field : string) : M Z :=
  let value := TrimSpace value in
  if decide (value = "") then mret defaultVal
  else
    let parsed := if HasPrefix value "0x" || HasPrefix value "0X" then hexutil_DecodeUint64 value else ParseUint value in
    match parsed with Some n => mret n | None => err (ErrParam field value) end.

Fixpoint resolveUint64WithFallback (values : list string) (defaultVal : Z) (field : string) : M Z :=
  match values with
  | [] => mret defaultVal
  | val :: values =>
      let val := TrimSpace val in
      if decide (val = "") then resolveUint64WithFallback values defaultVal field
      else resolveUint64Param val defaultVal field
  end.

(** *** Building transactions *)

(** [GetAddressSelector] of [pkg/utils]. *)
Definition GetAddressSelector (methodSignature : string) : bytes := BytesToAddress (take 4 (Keccak256 (str_bytes methodSignature))).

(** An error keeps its text inside a longer one. *)
Definition wrap {A} (f : rpc_error → rpc_error) (m : M A) : M A :=
  c_try m (λ r, match r with inl a => mret a | inr e => err (f e) end).

(** [BuildCallTransaction] and [BuildDeployTransaction] differ in the destination and the time. *)
Definition build_call (c : ClientRPC) (decoded : DecodedCallObject) (to : bytes) (maxTimeUse : Z) : M bytes :=
  maxGas ← resolveUint64Param (s_Gas (Schema decoded)) 100000000 "gas";
  maxGasPrice ← resolveUint64WithFallback
    [s_GasPrice (Schema decoded); s_MaxFeePerGas (Schema decoded); s_MaxPriorityFeePerGas (Schema decoded)] MINIMUM_BASE_FEE "gasPrice";
  as_ ← wrap ErrAccountState (GetAccountState c (d_FromAddress decoded) LatestBlock);
  let bData := proto_Marshal {| cd_Input := Payload decoded |} in
  let txx := NewTransaction (d_FromAddress decoded) to 0 maxGas maxGasPrice maxTimeUse bData [] zeroHash zeroHash
               (nonce as_) (big_Uint64 (c_ChainId c)) in
  k ← key c;
  mret (tx_Marshal (proto (SetSign (privateKey k) txx))).

Definition BuildCallTransaction (c : ClientRPC) (decoded : DecodedCallObject) : M bytes := build_call c decoded (d_ToAddress decoded) 600.
Definition BuildDeployTransaction (c : ClientRPC) (decoded : DecodedCallObject) : M bytes := build_call c decoded zero_address 6000000.

Definition marshal_payload (msg : bytes) : M payload :=
  pick ← net pick_buffer; on_pool (marshalProtoMessage append_cap pick msg).

(** The payload a transaction and its raw device key travel in. *)
Definition with_key_payload (t : Transaction) (rawNewDeviceKey : bytes) : M payload :=
  marshal_payload (wd_Marshal {| wd_Transaction := Some (proto t); wd_DeviceKey := rawNewDeviceKey |}).

(** The account's last device key (zero when it cannot be had) and a new one made from the last hash and
    the time. *)
Definition new_keys (getDK : bytes → M bytes) (as_ : AccountState) : M (bytes * bytes) :=
  deviceKey ← c_try (getDK (lastHash as_)) (λ r, mret match r with inl k => k | inr _ => zeroHash end);
  now ← net Unix;
  mret (deviceKey, raw_device_key (lastHash as_) now).

(** Unless the transaction registers a key, the account's BLS key must be the proxy's. *)
Definition check_key (c : ClientRPC) (as_ : AccountState) (noKey otherKey : rpc_error) : M unit :=
  if (length (publicKeyBls as_) =? 0)%nat then err noKey
  else k ← key c; if decide (publicKeyBls as_ = publicKey k) then mret tt else err otherKey.

Definition registers (ethTx : eth_tx) : bool :=
  match e_To (eth_body_of ethTx) with
  | Some to => bool_decide (to = GetAddressSelector ACCOUNT_SETTING_ADDRESS_SELECT)
  | None => false
  end.

(** The sender of [types.NewCancunSigner(ethTx.ChainId())]. *)
Definition eth_sender (ethTx : eth_tx) : M bytes :=
  match Sender (CancunSigner (eth_chain_id ethTx)) ethTx with Some a => mret a | None => err ErrGetSender end.

Definition from_eth (ethTx : eth_tx) : M Transaction := λ s,
  match NewTransactionFromEth ethTx with
  | Ok t => (Ok t, s) | Fail e => (Fail (ErrConvert e), s) | Panic => (Panic, s) | OutOfFuel => (OutOfFuel, s)
  end.

Definition BuildTransactionWithDeviceKey (c : ClientRPC) (ethTx : eth_tx) : M (payload * Transaction) :=
  fromAddress ← eth_sender ethTx;
  as_ ← wrap ErrAccountState (GetAccountState c fromAddress LatestBlock);
  _ ← (if registers ethTx then mret tt else check_key c as_ ErrNoBlsKey ErrOtherBlsKey);
  '(deviceKey, rawNewDeviceKey) ← new_keys (GetDeviceKey c) as_;
  t ← from_eth ethTx;
  let t := UpdateDeriver deviceKey (Keccak256 rawNewDeviceKey) (UpdateRelatedAddresses [] t) in
  k ← key c;
  let t := SetSign (privateKey k) t in
  p ← with_key_payload t rawNewDeviceKey;
  mret (p, t).

(** A balance below the threshold asks the caller's function for a top-up; [None] is a nil pointer. *)
Definition top_up (cfgCom : option FreeGasConfig) (topUpFunc : option (bytes → M bool)) (as_ : AccountState) (from : bytes) : M unit :=
  match cfgCom with
  | None => c_panic
  | Some cfg =>
      if negb (f_DisableFreeGas cfg) && (balance as_ <? GetFreeGasMinBalance cfg)%Z then
        match topUpFunc with
        | Some f => ok ← f from; if (ok : bool) then mret tt else err ErrTopUp
        | None => mret tt
        end
      else mret tt
  end.

(** The body of [BuildTransactionWithDeviceKeyFromEthTx] and of its TCP variant. *)
Definition build_from_eth (getAS : bytes → M AccountState) (getDK : bytes → M bytes) (c : ClientRPC) (ethTx : eth_tx)
    (cfg : bool) (cfgCom : option FreeGasConfig) (isSetNonce : bool) (topUpFunc : option (bytes → M bool)) : M (payload * Transaction) :=
  fromAddress ← eth_sender ethTx;
  as_ ← wrap ErrAccountState (getAS fromAddress);
  _ ← (if registers ethTx then mret tt else check_key c as_ ErrNoBlsKey ErrOtherBlsKey);
  if negb cfg then err ErrNilCfg
  else
    _ ← top_up cfgCom topUpFunc as_ fromAddress;
    '(deviceKey, rawNewDeviceKey) ← new_keys getDK as_;
    t ← from_eth ethTx;
    let t := if (isSetNonce : bool) then Tx_SetNonce (nonce as_) t else t in
    let t := UpdateDeriver deviceKey (Keccak256 rawNewDeviceKey) (UpdateRelatedAddresses [] t) in
    k ← key c;
    let t := SetSign (privateKey k) t in
    p ← with_key_payload t rawNewDeviceKey;
    mret (p, t).

Definition BuildTransactionWithDeviceKeyFromEthTx (c : ClientRPC) :=
  build_from_eth (λ a, GetAccountState c a LatestBlock) (GetDeviceKey c) c.

Definition BuildTransactionWithDeviceKeyFromEthTxTCP (c : ClientRPC) := build_from_eth GetAccountStateTCP GetDeviceKeyTCP c.

(** With the private key of the account instead of the proxy's; only the TCP variant looks at [cfg]. *)
Definition build_with_private (getAS : bytes → M AccountState) (getDK : bytes → M bytes) (cfg : bool) (ethTx : eth_tx) (private : bytes)
    : M (payload * Transaction) :=
  fromAddress ← eth_sender ethTx;
  as_ ← wrap ErrAccountState (getAS fromAddress);
  if negb cfg then err ErrNilCfg
  else
    '(deviceKey, rawNewDeviceKey) ← new_keys getDK as_;
    t ← from_eth ethTx;
    let t := UpdateDeriver deviceKey (Keccak256 rawNewDeviceKey) (UpdateRelatedAddresses [] t) in
    let t := SetSign private (Tx_SetNonce (nonce as_) t) in
    p ← with_key_payload t rawNewDeviceKey;
    mret (p, t).

Definition BuildTransactionWithDeviceKeyFromEthTxAndBlsPrivateKey (c : ClientRPC) (ethTx : eth_tx) (private : bytes) :=
  build_with_private (λ a, GetAccountState c a LatestBlock) (GetDeviceKey c) true ethTx private.

Definition BuildTransactionWithDeviceKeyFromEthTxAndBlsPrivateKeyTCP (ethTx : eth_tx) (cfg : bool) (private : bytes) :=
  build_with_private GetAccountStateTCP GetDeviceKeyTCP cfg ethTx private.

(** A transfer. *)
Definition build_transfer (getAS : bytes → M AccountState) (getDK : bytes → M bytes) (c : ClientRPC) (from to : bytes) (amount : Z)
    : M (payload * Transaction) :=
  as_ ← wrap ErrAccountState (getAS from);
  if (balance as_ <? amount)%Z then err (ErrBalance (balance as_) amount)
  else
    _ ← check_key c as_ ErrNoBlsKey ErrOtherBlsKey;
    '(deviceKey, rawNewDeviceKey) ← new_keys getDK as_;
    let txx := NewTransaction from to amount 21000 MINIMUM_BASE_FEE 600 [] [] deviceKey (Keccak256 rawNewDeviceKey)
                 (nonce as_) (big_Uint64 (c_ChainId c)) in
    k ← key c;
    let txx := SetSign (privateKey k) txx in
    p ← with_key_payload txx rawNewDeviceKey;
    mret (p, txx).

Definition BuildTransferTransaction (c : ClientRPC) := build_transfer (λ a, GetAccountState c a LatestBlock) (GetDeviceKey c) c.
Definition BuildTransferTransactionTCP (c : ClientRPC) := build_transfer GetAccountStateTCP GetDeviceKeyTCP c.

(** *** Waiting for a receipt ([receipt.go]) *)

Definition checkInterval : Z := 100.

(** The attempts left; one of them asks for the receipt and, when it is not there, sleeps. *)
Fixpoint receipt_attempts (rem : nat) (c : ClientRPC) (txHash : string) : M (list (string * json)) :=
  match rem with
  | O => err (ErrReceiptTimeout txHash)
  | S rem =>
      let again := (_ ← sleep checkInterval; receipt_attempts rem c txHash) in
      response ← call_rpc "eth_getTransactionReceipt" [PString txHash] (JNumber 1) c;
      match Error_ response with
      | Some e =>
          if Contains (ToLower (Message e)) "not found" || Contains (ToLower (Message e)) "pending" then again
          else err (ErrReceipt (Message e))
      | None =>
          match Result response with
          | JNull => again
          | JString s => if decide (s ∈ ["<nil>"; "null"; ""]) then again else err ErrReceiptJson
          | JObject receipt => match json_get "blockNumber" receipt with JNull => again | _ => mret receipt end
          | _ => err ErrReceiptJson
          end
      end
  end.

(** [timeout] in milliseconds. *)
Definition WaitForReceipt (c : ClientRPC) (txHash : string) (timeout : Z) : M (list (string * json)) :=
  let maxAttempts := Z.quot timeout checkInterval in
  receipt_attempts (Z.to_nat (if (maxAttempts =? 0)%Z then 1 else maxAttempts)) c txHash.

End Client.
