(* ===== verification/RpcClientTheorems.v ===== *)
(** * What the RPC client guarantees

    How often a request is posted, what a built transaction contains and whose signature it carries, when
    HTTP and TCP give the same account, and what a binary request sends. *)

From S2P Require Import Prelude GoLib Interfaces LevelDB HexCodec AccountState Transaction TransactionTheorems TcpFlows Bls RpcPayload RpcClient.
From Stdlib Require Import Strings.Byte Strings.Ascii.

(** The conversion of an integer to float64: 53 bits, to the nearest, ties to even. *)
Definition float64 (z : Z) : Z :=
  let n := Z.abs z in
  let e := (Z.log2 n - 52)%Z in
  if (e <=? 0)%Z then z
  else
    let q := (n / 2 ^ e)%Z in
    let r := (n mod 2 ^ e)%Z in
    let half := (2 ^ (e - 1))%Z in
    let q := if ((half <? r) || ((r =? half) && Z.odd q))%Z then (q + 1)%Z else q in
    (Z.sgn z * (q * 2 ^ e))%Z.

Lemma float64_exact z : (0 ≤ z ≤ 2 ^ 53)%Z → float64 z = z.
Proof.
  intros Hz. unfold float64. destruct (decide (z = 2 ^ 53)%Z) as [->|]; [done|].
  destruct (Z.leb_spec (Z.log2 (Z.abs z) - 52) 0) as [|Hl]; [done|].
  assert (Z.log2 (Z.abs z) < 53)%Z; [|lia]. destruct (decide (z = 0)%Z) as [->|]; [done|]. apply Z.log2_lt_pow2; lia.
Qed.

Section Steps.
Context {N : Type}.

Lemma bind_ok_inv {A B} (m : M (N:=N) A) (k : A → M B) s b s' : (m ≫= k) s = (Ok b, s') →
  ∃ a s1, m s = (Ok a, s1) ∧ k a s1 = (Ok b, s').
Proof. unfold mbind, comp_bind. destruct (m s) as [[a| | |] s1]; [eauto|done..]. Qed.

Lemma wrap_ok_inv {A} f (m : M (N:=N) A) s a s' : wrap f m s = (Ok a, s') → m s = (Ok a, s').
Proof. unfold wrap, c_try. destruct (m s) as [[x| | |] s1]; [by intros [= <- <-]|done..]. Qed.

Lemma key_ok_inv c s k s' : key (N:=N) c s = (Ok k, s') → c_KeyPair c = Some k ∧ s' = s.
Proof. unfold key. destruct (c_KeyPair c); [by intros [= <- <-]|done]. Qed.

End Steps.

Section Build.
Context `{EthCommon} `{EthAddress} `{EthHex} `{EthTypes} `{TxCrypto} `{TxCodec} `{DeviceKeyCodec} `{Blst SK}.
Context `{Proto TransactionHashData} `{Proto pb_CallData} `{Proto pb_DeployData} `{Proto pb_AccountState}.
Context {N : Type} `{RpcNet N} `{RpcJson} `{EthRpc}.

Implicit Types (s : RpcSt N) (c : ClientRPC).

(** ** Requests *)

(** The state of the network after [k] attempts, each but the last followed by its pause. *)
Fixpoint after_attempts (k done : nat) (url : string) (body : bytes) (n : N) : N :=
  match k with
  | O => n
  | 1 => (http_Post url body n).2
  | S k => after_attempts k (S done) url body (Sleep (Z.of_nat (S done) * baseRetryDelay) (http_Post url body n).2)
  end.

Lemma http_attempts_spec rem c body id s : 1 ≤ rem ≤ 3 →
  ∃ r k, http_attempts rem c body id s = (Ok r, {| st_net := after_attempts k (3 - rem) (UrlHTTP c) body (st_net s); st_pool := st_pool s |}) ∧
    1 ≤ k ≤ rem.
Proof.
  revert s. induction rem as [|rem IH]; intros s Hr; [lia|]. cbn [http_attempts].
  unfold mbind at 1, comp_bind at 1, net at 1.
  destruct (http_Post (UrlHTTP c) body (st_net s)) as [r n] eqn:E.
  assert (Hstop : ∀ x : JSONRPCResponse + (string + bytes), ∃ r k, (mret x : M _) {| st_net := n; st_pool := st_pool s |} =
    (Ok r, {| st_net := after_attempts k (3 - S rem) (UrlHTTP c) body (st_net s); st_pool := st_pool s |}) ∧ 1 ≤ k ≤ S rem).
  { intros x. exists x, 1. simpl. rewrite E. split; [done|lia]. }
  assert (Hagain : rem ≠ 0 → ∃ r k, (_ ← sleep (Z.of_nat (maxHTTPRetries - rem) * baseRetryDelay); http_attempts rem c body id)
      {| st_net := n; st_pool := st_pool s |} =
    (Ok r, {| st_net := after_attempts k (3 - S rem) (UrlHTTP c) body (st_net s); st_pool := st_pool s |}) ∧ 1 ≤ k ≤ S rem).
  { intros Hne. unfold mbind, comp_bind, sleep, net. cbn [st_net st_pool].
    destruct (IH {| st_net := Sleep (Z.of_nat (maxHTTPRetries - rem) * baseRetryDelay) n; st_pool := st_pool s |}) as (r' & k & Er & Hk); [lia|].
    exists r', (S k). rewrite Er. split; [|lia]. do 2 f_equal. destruct k as [|k]; [lia|].
    cbn [after_attempts st_net]. rewrite E. simpl. replace (maxHTTPRetries - rem) with (S (2 - rem)) by (unfold maxHTTPRetries; lia).
    by replace (3 - rem) with (S (2 - rem)) by lia. }
  destruct r as [e|status b].
  - destruct (Nat.eqb_spec rem 0); simpl; [apply Hstop|]. destruct (isRetryableError e); simpl; [by apply Hagain|apply Hstop].
  - destruct (status =? StatusOK)%Z; simpl; [apply Hstop|].
    destruct (shouldRetryStatus status); simpl; [|apply Hstop]. destruct (Nat.eqb_spec rem 0); simpl; [apply Hstop|by apply Hagain].
Qed.

(** A request is answered by a response, never by an error or a panic, and is posted at most three times,
    with pauses of two and four seconds between; the pool is not touched. *)
Theorem at_most_three_posts c request s : ∃ r k,
  SendHTTPRequest c request s = (Ok r, {| st_net := match json_Marshal request with
    | inl _ => st_net s | inr body => after_attempts k 0 (UrlHTTP c) body (st_net s) end; st_pool := st_pool s |}) ∧ 1 ≤ k ≤ 3.
Proof.
  unfold SendHTTPRequest. destruct (json_Marshal request) as [e|body]; [destruct s; exists (failed e (rq_Id request)), 1; split; [done|lia]|].
  destruct (http_attempts_spec 3 c body (rq_Id request) s ltac:(lia)) as (r & k & E & Hk).
  unfold mbind, comp_bind. change maxHTTPRetries with 3. rewrite E. simpl.
  destruct r as [r|[e|b]]; [eauto..|]. destruct (json_Decode b); eauto.
Qed.

(** ** Transactions *)

Lemma marshal_contents grow pick msg P : let '(p, P') := marshalProtoMessage grow pick msg P in contents p P' = msg.
Proof.
  unfold marshalProtoMessage. destruct (pool_Get pick P) as [a P1]. unfold marshal_append.
  destruct (_ <=? _)%Z; unfold contents; simpl; rewrite lookup_insert_eq; simpl; [by rewrite take_app_length|by rewrite take_ge].
Qed.

Lemma with_key_payload_ok t raw s p s' : with_key_payload t raw s = (Ok p, s') →
  contents p (st_pool s') = wd_Marshal {| wd_Transaction := Some (proto t); wd_DeviceKey := raw |}.
Proof.
  unfold with_key_payload, marshal_payload, mbind, comp_bind, net, on_pool. destruct (pick_buffer (st_net s)) as [pick n]. cbn [st_pool].
  pose proof (marshal_contents append_cap pick (wd_Marshal {| wd_Transaction := Some (proto t); wd_DeviceKey := raw |}) (st_pool s)) as Hc.
  destruct (marshalProtoMessage _ _ _ _) as [q P]. by intros [= <- <-].
Qed.

Lemma from_eth_ok ethTx s t s' : from_eth ethTx s = (Ok t, s') → NewTransactionFromEth ethTx = Ok t ∧ s' = s.
Proof. unfold from_eth. destruct (NewTransactionFromEth ethTx); by intros [= <- <-]. Qed.

Lemma eth_sender_ok ethTx s a s' : eth_sender ethTx s = (Ok a, s') → Sender (CancunSigner (eth_chain_id ethTx)) ethTx = Some a ∧ s' = s.
Proof. unfold eth_sender. destruct (Sender _ ethTx); [by intros [= <- <-]|done]. Qed.

Lemma check_key_ok c as_ e1 e2 s s' : check_key c as_ e1 e2 s = (Ok tt, s') → ∃ k, c_KeyPair c = Some k ∧ publicKeyBls as_ = publicKey k.
Proof.
  unfold check_key. destruct (length (publicKeyBls as_) =? 0)%nat; [done|].
  intros (k & s1 & [Ek ->]%key_ok_inv & E)%bind_ok_inv. exists k. split; [done|]. by destruct (decide (publicKeyBls as_ = publicKey k)).
Qed.

Lemma new_keys_ok getDK as_ s dk raw s' : new_keys getDK as_ s = (Ok (dk, raw), s') → ∃ now, raw = raw_device_key (lastHash as_) now.
Proof.
  unfold new_keys. intros (k & s1 & _ & E)%bind_ok_inv. apply bind_ok_inv in E as (now & s2 & _ & [= <- <- <-]). eauto.
Qed.

(** The transaction the builders make of an Ethereum transaction. *)
Definition built_tx (private : bytes) (t0 : Transaction) (setNonce : option Z) (deviceKey raw : bytes) : Transaction :=
  let t := match setNonce with Some n => Tx_SetNonce n t0 | None => t0 end in
  SetSign private (UpdateDeriver deviceKey (Keccak256 raw) (UpdateRelatedAddresses [] t)).

Lemma build_from_eth_ok getAS getDK c ethTx cfg cfgCom sn topUp s p t s' :
  build_from_eth getAS getDK c ethTx cfg cfgCom sn topUp s = (Ok (p, t), s') →
  ∃ from as_ s1 k t0 dk now,
    Sender (CancunSigner (eth_chain_id ethTx)) ethTx = Some from ∧ getAS from s = (Ok as_, s1) ∧ c_KeyPair c = Some k ∧
    (registers ethTx = false → publicKeyBls as_ = publicKey k) ∧ NewTransactionFromEth ethTx = Ok t0 ∧
    t = built_tx (privateKey k) t0 (if (sn : bool) then Some (nonce as_) else None) dk (raw_device_key (lastHash as_) now) ∧
    contents p (st_pool s') = wd_Marshal {| wd_Transaction := Some (proto t); wd_DeviceKey := raw_device_key (lastHash as_) now |}.
Proof.
  unfold build_from_eth. intros (from & ? & [Hs ->]%eth_sender_ok & E)%bind_ok_inv.
  apply bind_ok_inv in E as (as_ & s1 & Ha%wrap_ok_inv & E). apply bind_ok_inv in E as ([] & s2 & Hk & E).
  destruct cfg; [|done]. simpl in E. apply bind_ok_inv in E as ([] & s3 & _ & E).
  apply bind_ok_inv in E as ([dk raw] & s4 & (now & ->)%new_keys_ok & E).
  apply bind_ok_inv in E as (t0 & ? & [Ht ->]%from_eth_ok & E). apply bind_ok_inv in E as (k & ? & [Ek ->]%key_ok_inv & E).
  apply bind_ok_inv in E as (q & s5 & Hp%with_key_payload_ok & [= -> <- ->]).
  exists from, as_, s1, k, t0, dk, now. split_and!; [done..| |done|by destruct sn|done].
  intros Hr. rewrite Hr in Hk. apply check_key_ok in Hk as (k' & Ek' & ->). congruence.
Qed.

(** Nothing the builders do to the new transaction leaves a stale hash behind. *)
Lemma built_coherent private t0 sn dk raw : cachedHash t0 = None → cachedRHash t0 = None →
  coherent (UpdateDeriver dk (Keccak256 raw) (UpdateRelatedAddresses [] match sn with Some n => Tx_SetNonce n t0 | None => t0 end)) ∧
  coherent (built_tx private t0 sn dk raw).
Proof.
  intros Eh Er.
  assert (Hc : coherent (UpdateDeriver dk (Keccak256 raw) (UpdateRelatedAddresses [] match sn with Some n => Tx_SetNonce n t0 | None => t0 end))).
  { destruct sn; split; left; done. }
  split; [done|]. unfold built_tx, SetSign, Hash. destruct Hc as [[E|E] Hr]; rewrite E; apply coherent_change; try done; split; auto.
Qed.

Lemma SetSign_sign private t : coherent t → tx_Sign (proto (SetSign private t)) = BlsSign private (hash_of (proto (SetSign private t))).
Proof. intros [Hh _]. unfold SetSign, Hash. destruct Hh as [E|E]; by rewrite E. Qed.

Lemma built_fields private t0 sn dk raw : let p := proto (built_tx private t0 sn dk raw) in
  tx_FromAddress p = tx_FromAddress (proto t0) ∧ tx_ToAddress p = tx_ToAddress (proto t0) ∧ tx_Amount p = tx_Amount (proto t0) ∧
  tx_Data p = tx_Data (proto t0) ∧ tx_LastDeviceKey p = dk ∧ tx_NewDeviceKey p = Keccak256 raw ∧
  tx_Nonce p = match sn with Some n => PutUint64 n | None => tx_Nonce (proto t0) end.
Proof. unfold built_tx, SetSign, Hash. destruct sn; simpl; [|destruct (cachedHash t0)]; done. Qed.

Lemma new_tx_no_cache ethTx t : NewTransactionFromEth ethTx = Ok t → cachedHash t = None ∧ cachedRHash t = None.
Proof. unfold NewTransactionFromEth. destruct (FromEthTransaction ethTx _); by intros [= <-]. Qed.

End Build.

Section Accepted.
Context `{EthCommonLaws} `{EthAddressLaws} `{EthHex} `{EthTypes} `{TxCodec} `{DeviceKeyCodecLaws} `{BlstLaws SK}.
Context `{Proto TransactionHashData} `{Proto pb_CallData} `{Proto pb_DeployData} `{Proto pb_AccountState}.
Context {N : Type} `{RpcNet N} `{RpcJson} `{EthRpc} (recover : bytes → bytes → option bytes).

#[local] Instance client_crypto : TxCrypto := bls_crypto recover.


End Accepted.

(** ** The two transports *)

Section Transports.
Context `{EthCommonLaws} `{EthAddressLaws} `{!EthHex} `{!EthHexLaws} `{ProtoLaws pb_AccountState}.
Context {N : Type} `{RpcNet N} `{RpcJson} `{EthRpc}.

(** The object the client reads an account from. *)
Definition rpc_account (as_ : AccountState) : list (string * json) :=
  [("address", JString (AddressHex (address as_))); ("balance", JString (big_String (balance as_)));
   ("pendingBalance", JString (big_String (pendingBalance as_))); ("lastHash", JString (HashHex (lastHash as_)));
   ("deviceKey", JString (HashHex (deviceKey as_))); ("nonce", JNumber (float64 (nonce as_)));
   ("publicKeyBls", JString (hex_EncodeToString (publicKeyBls as_))); ("accountType", JNumber (accountType as_))].

(** The same account under the names [JsonAccountState] gives its fields. *)
Definition state_account (as_ : AccountState) : list (string * json) :=
  [("address", JString (AddressHex (address as_))); ("balance", JString (big_String (balance as_)));
   ("pending_balance", JString (big_String (pendingBalance as_))); ("last_hash", JString (HashHex (lastHash as_)));
   ("device_key", JString (HashHex (deviceKey as_))); ("smart_contract_state", JNull); ("nonce", JNumber (float64 (nonce as_)));
   ("publicKeyBls", JString (hex_EncodeToString (publicKeyBls as_))); ("accountType", JNumber (accountType as_))].

(** The node answers a request with this result, at the first attempt. *)
Definition answers (c : ClientRPC) (s : RpcSt N) (method : string) (params : list param) (result : json) : Prop :=
  ∃ body b n id, json_Marshal {| rq_Jsonrpc := "2.0"; Method_ := method; Params := params; rq_Id := JNumber 1 |} = inr body ∧
    http_Post (UrlHTTP c) body (st_net s) = (HttpResp StatusOK (inr b), n) ∧
    json_Decode b = inr {| rs_Jsonrpc := "2.0"; Result := result; Error_ := None; rs_Id := id |}.

Lemma answers_call c s method params result : answers c s method params result → ∃ id s',
  call_rpc method params (JNumber 1) c s = (Ok {| rs_Jsonrpc := "2.0"; Result := result; Error_ := None; rs_Id := id |}, s').
Proof.
  intros (body & b & n & id & E1 & E2 & E3). unfold call_rpc, SendHTTPRequest. rewrite E1. change maxHTTPRetries with 3.
  unfold mbind, comp_bind. cbn [http_attempts]. unfold mbind, comp_bind, net. rewrite E2. simpl. rewrite E3. eauto.
Qed.

Lemma GetAccountState_answer c addr s as_ : account_ok as_ → (- 2 ^ 31 ≤ accountType as_ < 2 ^ 31)%Z →
  answers c s "mtn_getAccountState" [PString (AddressHex addr); PString LatestBlock] (JObject (rpc_account as_)) →
  (GetAccountState c addr LatestBlock s).1 = Ok (SetNonce (float_uint64 (float64 (nonce as_))) (SetSmartContractState None as_)).
Proof.
  intros Hok Hty (id & s' & E)%answers_call. unfold GetAccountState, mbind, comp_bind. rewrite E. simpl.
  unfold float_int32. rewrite decide_True by done. destruct Hok as [Ha Hl Hd Hn Hb Hp _].
  unfold ToAccountState. simpl. by rewrite HexToAddress_Hex, !HexToHash_Hex, !big_SetString_String, FromHex_hex.
Qed.

Lemma GetAccountStateTCP_answer addr (s : RpcSt N) as_ n : account_ok as_ →
  chain_GetAccountState addr (st_net s) = (Some (AccountState_Marshal as_), n) →
  (GetAccountStateTCP addr s).1 = Ok (SetSmartContractState None as_).
Proof.
  intros [Ha Hl Hd Hn Hb Hp _] E. unfold GetAccountStateTCP, mbind, comp_bind, net. rewrite E. simpl.
  unfold AccountState_Marshal. rewrite proto_roundtrip. change (pb_Nonce (AccountState_Proto as_)) with (PutUint64 (nonce as_)). rewrite Uint64_PutUint64 by done. simpl.
  unfold ToAccountState. simpl. rewrite BytesToAddress_20, HexToAddress_Hex, !BytesToHash_32, !HexToHash_Hex, !big_SetString_String, FromHex_hex by done.
  simpl. rewrite !big_SetBytes_Bytes, !Z.abs_eq by done. done.
Qed.

(** C20: A node that serves the same account and device key over both transports gives the client the same
    account, without its contract, and the same key; over HTTP the nonce goes through a float64, which
    keeps every nonce up to 2^53. *)
Theorem transports_agree c addr hash (s1 s2 : RpcSt N) as_ dk n1 n2 : account_ok as_ → (- 2 ^ 31 ≤ accountType as_ < 2 ^ 31)%Z →
  length hash = 32 → length dk = 32 →
  answers c s1 "mtn_getAccountState" [PString (AddressHex addr); PString LatestBlock] (JObject (rpc_account as_)) →
  chain_GetAccountState addr (st_net s2) = (Some (AccountState_Marshal as_), n1) →
  answers c s1 "mtn_getDeviceKey" [PString (HashHex hash)] (JString (HashHex dk)) →
  chain_GetDeviceKey hash (st_net s2) = (Some (hash ++ dk), n2) →
  (GetAccountState c addr LatestBlock s1).1 = Ok (SetNonce (float_uint64 (float64 (nonce as_))) (SetSmartContractState None as_)) ∧
  (GetAccountStateTCP addr s2).1 = Ok (SetSmartContractState None as_) ∧
  ((nonce as_ ≤ 2 ^ 53)%Z → (GetAccountState c addr LatestBlock s1).1 = (GetAccountStateTCP addr s2).1) ∧
  (GetDeviceKey c hash s1).1 = Ok dk ∧ (GetDeviceKeyTCP hash s2).1 = Ok dk.
Proof.
  intros Hok Hty Hh Hdk E1 E2 E3 E4.
  rewrite (GetAccountState_answer c addr s1 as_) by done. rewrite (GetAccountStateTCP_answer addr s2 as_ n1) by done.
  split_and!; [done|done| | |].
  - intros Hn. destruct Hok as [_ _ _ Hr _ _ _]. rewrite float64_exact by lia. unfold float_uint64.
    rewrite decide_True by lia. by destruct as_.
  - apply answers_call in E3 as (id & s' & E). unfold GetDeviceKey, mbind, comp_bind. rewrite E. simpl. by rewrite HexToHash_Hex.
  - unfold GetDeviceKeyTCP, mbind, comp_bind, net. rewrite E4. rewrite length_app, Hh, Hdk. simpl.
    by rewrite drop_app_length', BytesToHash_32.
Qed.

(** An account sent under the names [JsonAccountState] declares is not an error but a panic. *)
Theorem state_names_panic c addr (s : RpcSt N) as_ :
  answers c s "mtn_getAccountState" [PString (AddressHex addr); PString LatestBlock] (JObject (state_account as_)) →
  (GetAccountState c addr LatestBlock s).1 = Panic.
Proof. intros (id & s' & E)%answers_call. unfold GetAccountState, mbind, comp_bind. by rewrite E. Qed.

(** Over TCP an account whose nonce field is shorter than eight bytes, such as one that was never
    written, is a panic, where [FromProto] of the same message reads zero. *)
Theorem short_nonce_panics addr (s : RpcSt N) pb n : length (pb_Nonce pb) < 8 →
  chain_GetAccountState addr (st_net s) = (Some (proto_Marshal pb), n) →
  (GetAccountStateTCP addr s).1 = Panic ∧ nonce (AccountState_FromProto pb empty_account) = 0%Z.
Proof.
  intros Hl E. unfold GetAccountStateTCP, mbind, comp_bind, net. rewrite E, proto_roundtrip. split.
  - unfold Uint64. by destruct (Nat.leb_spec 8 (length (pb_Nonce pb))); [lia|].
  - simpl. by destruct (Nat.eqb_spec (length (pb_Nonce pb)) 8); [lia|].
Qed.

End Transports.

(** ** Sending *)

Section Sending.
Context `{EthCommon} `{EthAddress} `{EthHex} `{EthTypes} `{TxCrypto} `{TxCodec} `{DeviceKeyCodec} `{Blst SK}.
Context `{Proto TransactionHashData} `{Proto pb_CallData} `{Proto pb_DeployData} `{Proto pb_AccountState}.
Context {N : Type} `{RpcNet N} `{RpcJson} `{EthRpc}.

(** A binary request sends one body, which splits into the transaction of the pool, the user's
    transaction and the public key; after it the payload is released, whatever the node answered, and a
    hash of 32 bytes is the only answer that is not an error. *)
Theorem binary_request c (p : payload) (ethTx pubKeyBls : bytes) (s : RpcSt N) :
  http_NewRequest (binaryURL c) = None →
  Forall (λ b, (Z.of_nat (length b) < 2 ^ 32)%Z) [contents p (st_pool s); ethTx; pubKeyBls] →
  ∃ body r, unframe 3 body = Some [contents p (st_pool s); ethTx; pubKeyBls] ∧
    let '(answer, n) := http_Do (binaryURL c) body (Z.of_nat (length body)) (st_net s) in
    SendRawTransactionBinary c (Pooled p) (Some p) (Own ethTx) None pubKeyBls s = (Ok r, {| st_net := n; st_pool := release p (st_pool s) |}) ∧
    (Error_ r = None → ∃ h, answer = HttpResp StatusOK (inr h) ∧ length h = 32 ∧ Result r = JString (HashHex h)).
Proof.
  intros Hu Hp. set (parts := [contents p (st_pool s); ethTx; pubKeyBls]).
  assert (Hf : unframe 3 (framed parts) = Some parts) by exact (unframe_framed parts Hp). pose proof (total_length parts) as Ht.
  assert (Hd : drain (S (Z.to_nat (newBinaryPayloadReader parts).2)) (S read_size) (newBinaryPayloadReader parts).1 = Some (framed parts)).
  { rewrite drain_rest, rest_new; [done|lia|]. rewrite rest_new, Ht. lia. }
  exists (framed parts). unfold SendRawTransactionBinary, mbind, comp_bind, get_pool.
  change [slice_bytes (Pooled p) (st_pool s); slice_bytes (Own ethTx) (st_pool s); pubKeyBls] with parts.
  clearbody parts. destruct (newBinaryPayloadReader parts) as [reader total] eqn:Er. cbn [fst snd] in Ht, Hd. subst total. rewrite Hu, Hd. unfold net.
  destruct (http_Do (binaryURL c) (framed parts) (Z.of_nat (length (framed parts))) (st_net s)) as [[e|status b] n]; simpl.
  - eexists. split; [exact Hf|]. split; [done|]. done.
  - eexists. split; [exact Hf|]. split; [done|]. unfold binary_response. destruct b as [e|b]; [done|].
    destruct (Z.eqb_spec status StatusOK) as [->|]; simpl; [|by destruct (json_backendErr b) as [[[? ?] ?]|]].
    destruct (Nat.eqb_spec (length b) 32); simpl; [|done]. eauto.
Qed.

(** Failing to get the last device key does not stop a build: the key becomes zero. *)
Theorem device_key_failure_ignored (getDK : bytes → M (N:=N) bytes) as_ (s s1 : RpcSt N) e : getDK (lastHash as_) s = (Fail e, s1) →
  ∃ raw s2, new_keys getDK as_ s = (Ok (zeroHash, raw), s2).
Proof.
  intros E. unfold new_keys, mbind, comp_bind, c_try, net. rewrite E. simpl. destruct (Unix (st_net s1)) as [now n]. eauto.
Qed.

(** A client has no WebSocket, and a private key that does not validate leaves it without a key: using
    either is a panic. *)
Theorem missing_parts_panic urlHTTP urlWS private chainId request (s : RpcSt N) :
  let c := NewClientRPC urlHTTP urlWS private chainId in
  SendWSRequest c request s = (Panic, s) ∧ (NewKeyPair (FromHex private) = None → key c s = (Panic, s)).
Proof. split; [done|]. intros E. unfold key, NewClientRPC. simpl. by rewrite E. Qed.

(** A transfer is built only from an account that has the amount and whose registered key is the
    client's. *)
Theorem transfer_funded getAS getDK c from to amount (s s' : RpcSt N) p t :
  build_transfer getAS getDK c from to amount s = (Ok (p, t), s') →
  ∃ as_ s1 k, getAS from s = (Ok as_, s1) ∧ (amount ≤ balance as_)%Z ∧ c_KeyPair c = Some k ∧ publicKeyBls as_ = publicKey k ∧
    tx_Sign (proto t) = BlsSign (privateKey k) (hash_of (proto t)) ∧ tx_Nonce (proto t) = PutUint64 (nonce as_) ∧
    tx_ToAddress (proto t) = to ∧ tx_Amount (proto t) = big_Bytes amount.
Proof.
  unfold build_transfer. intros (as_ & s1 & Ha%wrap_ok_inv & E)%bind_ok_inv.
  destruct (Z.ltb_spec (balance as_) amount) as [|Hb]; [done|].
  apply bind_ok_inv in E as ([] & s2 & (k & Ek & Epk)%check_key_ok & E).
  apply bind_ok_inv in E as ([dk raw] & s3 & _ & E). apply bind_ok_inv in E as (k' & s4 & [Ek' ->]%key_ok_inv & E).
  rewrite Ek in Ek'. injection Ek' as <-.
  apply bind_ok_inv in E as (q & s5 & _ & [= -> <- ->]). exists as_, s1, k. split_and!; done.
Qed.

End Sending.

(** ** At a concrete node *)

Module RpcExample.
Import ToyCrypto ToyAddress ToyBls ToyState ToyProto ToyTx ToyDeviceKey.

(** The account the node serves has the key of [one]. *)
Definition account : AccountState := set_key (toy_pub one) (set_balance 100 (NewAccountState toy_sender)).

Lemma account_is_ok : account_ok account.
Proof. by split; simpl. Qed.

(** The node answers every post at once, and every message of the chain. *)
#[local] Instance node_net : RpcNet nat := {|
  http_Post _ b n := (HttpResp 200 (inr b), S n);
  http_NewRequest _ := None;
  http_Do _ _ _ n := (HttpResp 200 (inr (zeros 32)), S n);
  read_size := 9;
  ws_WriteJSON _ n := (None, n);
  ws_ReadJSON n := (inl "closed", n);
  Sleep _ n := n;
  Unix n := (1700000000%Z, n);
  chain_GetAccountState _ n := (Some (AccountState_Marshal account), S n);
  chain_GetDeviceKey h n := (Some (h ++ repeat x07 32), S n);
  pick_buffer n := (None, n);
  append_cap _ n := n;
|}.

Definition answer (j : json) : JSONRPCResponse := {| rs_Jsonrpc := "2.0"; Result := j; Error_ := None; rs_Id := JNumber 1 |}.

#[local] Instance node_json : RpcJson := {|
  json_Marshal r := inr (str_bytes (Method_ r));
  json_Decode b := inr (answer (if decide (b = str_bytes "mtn_getAccountState") then JObject (rpc_account account)
                                else JString (HashHex (repeat x07 32))));
  json_backendErr _ := None;
|}.

#[local] Instance node_eth : EthRpc := {| LatestBlock := "latest"; hexutil_DecodeUint64 _ := None; overflow_uint64 _ := 0%Z; overflow_int32 _ := 0%Z |}.

Definition recover0 : bytes → bytes → option bytes := λ _ _, None.
#[local] Instance crypto0 : TxCrypto := bls_crypto (SK:=SK) recover0.

Definition client : ClientRPC := NewClientRPC (SK:=SK) "http://node/" "" (hex_EncodeToString one) 991.
Definition start : RpcSt nat := {| st_net := 0; st_pool := empty_pool |}.
Definition free_gas : FreeGasConfig := {| f_DisableFreeGas := false; f_FreeGasMinBalance := None |}.
Definition no_top_up : option (bytes → M (N:=nat) bool) := None.
Definition built := BuildTransactionWithDeviceKeyFromEthTxTCP client (dynamic 2) true (Some free_gas) true no_top_up start.

Definition built_tx0 : payload * Transaction :=
  match built.1 with Ok x => x | _ => ({| pl_id := 0; pl_array := 0; pl_len := 0 |}, register) end.

Lemma built_ok : built = (Ok built_tx0, built.2).
Proof. by vm_compute. Qed.


Lemma transports_agree_witness : (GetAccountState client toy_sender "latest" start).1 = (GetAccountStateTCP toy_sender start).1.
Proof.
  refine (proj1 (proj2 (proj2 (transports_agree client toy_sender (zeros 32) start start account (repeat x07 32) 1 1 account_is_ok _ eq_refl eq_refl _ _ _ _))) _).
  - by vm_compute.
  - eexists _, _, _, _. split_and!; reflexivity.
  - reflexivity.
  - eexists _, _, _, _. split_and!; reflexivity.
  - reflexivity.
  - by vm_compute.
Defined.

Lemma binary_request_witness : ∃ body : bytes, unframe 3 body = Some [[]; [x01]; [x02]].
Proof.
  destruct (binary_request (N:=nat) client {| pl_id := 0; pl_array := 0; pl_len := 0 |} [x01] [x02] start) as (body & r & E & _).
  - reflexivity.
  - repeat constructor.
  - by exists body.
Defined.

End RpcExample.
