(* ===== verification/ErrorDecoder.v ===== *)
(** * The decoder of reverted calls ([pkg/debug/error_decoder.go])

    A failed call carries the data a contract reverted with, in the [Data] of the error or in its
    message.  The decoder finds it, tells panics, [Error(string)] and the errors declared in the ABI of
    the contract apart, and writes what it found into the error.  go-ethereum's ABI and the printing of
    its values are parameters. *)

From S2P Require Import Prelude GoLib Interfaces HexCodec ArgumentEncode RpcClient.
From Stdlib Require Import Strings.Byte Strings.Ascii.

(** An error of an ABI: the hash of its signature, the signature and the names of its inputs. *)
Record AbiError := { ae_ID : bytes; ae_Sig : string; ae_Inputs : list string }.

(** [abi_Errors] lists the errors in the order the map is iterated in, [order_args] the arguments. *)
Class AbiErrors := {
  abi_Errors : string → option (list (string * AbiError));
  abi_Unpack : AbiError → bytes → option (list json);
  fmt_value : json → string;                                   (** [fmt.Sprintf("%v", value)] *)
  order_args : gmap string json → list (string * json);
}.

Record DecodedError := {
  de_ErrorType : string; de_ErrorName : string; de_ErrorSig : string; de_Arguments : list (string * json); de_Message : string; de_PanicCode : string }.

Definition ErrorSelectorString : bytes := [x08; xc3; x79; xa0].
Definition PanicSelector : bytes := [x4e; x48; x7b; x71].

(** ** Finding the data *)

(** [s[strings.Index(s, "0x"):]], when there is one. *)
Fixpoint from_0x (s : string) : option string :=
  if HasPrefix s "0x" then Some s else match s with EmptyString => None | String _ s => from_0x s end.

(** [strings.Split(s, " ")[0]] *)
Fixpoint upto_space (s : string) : string :=
  match s with EmptyString => EmptyString | String c s => if decide (c = " "%char) then EmptyString else String c (upto_space s) end.

Definition hex_data (s : string) : option bytes :=
  b ← hex_DecodeString (TrimPrefix s "0x"); if (4 <=? length b)%nat then Some b else None.

Definition ExtractRevertData (err : JSONRPCError) : option bytes :=
  let from_data := if decide (Data err = "") then None else hex_data (TrimSpace (Data err)) in
  match from_data with
  | Some d => Some d
  | None => s ← from_0x (Message err); hex_data (upto_space s)
  end.

(** ** Decoding *)

Definition panicMessages : list (string * string) :=
  [("0x00000001", "Assertion failed"); ("0x00000011", "Arithmetic overflow or underflow"); ("0x00000012", "Division by zero");
   ("0x00000021", "Invalid enum value"); ("0x00000022", "Storage byte array incorrectly encoded");
   ("0x00000031", "Empty array pop"); ("0x00000032", "Array index out of bounds")].

Definition getPanicMessage (code : string) : string :=
  match list_find (λ x, x.1 = code) panicMessages with Some (_, (_, m)) => m | None => "Unknown panic: " +:+ code end.

Definition decodePanic (revertData : bytes) : option DecodedError :=
  if (length revertData <? 36)%nat then None
  else
    let panicCode := "0x" +:+ hex_EncodeToString (take 4 (drop 28 (drop 4 revertData))) in
    Some {| de_ErrorType := "panic"; de_ErrorName := ""; de_ErrorSig := ""; de_Arguments := [];
            de_Message := getPanicMessage panicCode; de_PanicCode := panicCode |}.

(** The length is a 64-bit word read as an [int]; the end of the text wraps around. *)
Definition decodeStandardError (revertData : bytes) : outcome unit DecodedError :=
  let n := Z.of_nat (length revertData) in
  if (n <? 36)%Z then Fail tt
  else if (n <? 68)%Z then Fail tt
  else
    let len := i64 (word_Uint64 (take 32 (drop 36 revertData))) in
    if (n <? i64 (68 + len))%Z then Fail tt
    else match go_slice revertData 68 (i64 (68 + len)) with
         | None => Panic
         | Some m => Ok {| de_ErrorType := "standard"; de_ErrorName := ""; de_ErrorSig := ""; de_Arguments := [];
                           de_Message := bytes_str m; de_PanicCode := "" |}
         end.

Section Decoder.
Context `{AbiErrors}.

Definition spaced (l : list string) : string :=
  match l with [] => "" | x :: l => foldl (λ acc y, acc +:+ " " +:+ y) x l end.

Definition formatErrorMessage (errorName : string) (args : gmap string json) : string :=
  if (size args =? 0)%nat then errorName +:+ "()"
  else errorName +:+ "([" +:+ spaced ((λ '(n, v), n +:+ "=" +:+ fmt_value v) <$> order_args args) +:+ "])".

(** [argMap]: a name that comes twice keeps its last value. *)
Definition arg_map (names : list string) (args : list json) : gmap string json :=
  foldl (λ m '(n, v), <[n := v]> m) ∅ (zip names args).

Definition decodeCustomError (revertData : bytes) (abi : string) : option DecodedError :=
  errors ← abi_Errors abi;
  '(_, (name, e)) ← list_find (λ x, take 4 (ae_ID x.2) = take 4 revertData) errors;
  args ← abi_Unpack e (drop 4 revertData);
  let argMap := arg_map (ae_Inputs e) args in
  Some {| de_ErrorType := "custom"; de_ErrorName := name; de_ErrorSig := ae_Sig e; de_Arguments := order_args argMap;
          de_Message := formatErrorMessage name argMap; de_PanicCode := "" |}.

Definition set_unknown (e : JSONRPCError) : JSONRPCError :=
  {| Code := Code e; Message := Message e; Data := Data e; Decoded := false; ErrorType := "unknown"; ErrorName := ErrorName e;
     ErrorSig := ErrorSig e; Arguments_ := Arguments_ e; PanicCode := PanicCode e; ContractAddr := ContractAddr e;
     ContractName := ContractName e; PC := PC e; CallDepth := CallDepth e; Function_ := Function_ e |}.

Definition set_place (contractAddr : string) (pc : Z) (e : JSONRPCError) : JSONRPCError :=
  {| Code := Code e; Message := Message e; Data := Data e; Decoded := Decoded e; ErrorType := ErrorType e; ErrorName := ErrorName e;
     ErrorSig := ErrorSig e; Arguments_ := Arguments_ e; PanicCode := PanicCode e; ContractAddr := contractAddr;
     ContractName := ContractName e; PC := pc; CallDepth := CallDepth e; Function_ := Function_ e |}.

Definition set_decoded (d : DecodedError) (e : JSONRPCError) : JSONRPCError :=
  {| Code := Code e; Message := de_Message d; Data := Data e; Decoded := true; ErrorType := de_ErrorType d; ErrorName := de_ErrorName d;
     ErrorSig := de_ErrorSig d; Arguments_ := de_Arguments d; PanicCode := de_PanicCode d; ContractAddr := ContractAddr e;
     ContractName := ContractName e; PC := PC e; CallDepth := CallDepth e; Function_ := Function_ e |}.

(** The decoding of [revertData]; [artifact] is the ABI stored for the contract, when there is one. *)
Definition decode_revert (artifact : string → option string) (contractAddr : string) (revertData : bytes) : outcome unit DecodedError :=
  let selector := take 4 revertData in
  if decide (selector = PanicSelector) then match decodePanic revertData with Some d => Ok d | None => Fail tt end
  else if decide (selector = ErrorSelectorString) then decodeStandardError revertData
  else match artifact contractAddr with
       | Some abi => match decodeCustomError revertData abi with Some d => Ok d | None => Fail tt end
       | None => Fail tt
       end.

Definition DecodeError (artifact : string → option string) (contractAddr : string) (pc : Z) (response : JSONRPCResponse) : outcome unit JSONRPCResponse :=
  match Error_ response with
  | None => Ok response
  | Some e =>
      match ExtractRevertData e with
      | None => Ok response
      | Some revertData =>
          let put e := {| rs_Jsonrpc := rs_Jsonrpc response; Result := Result response; Error_ := Some e; rs_Id := rs_Id response |} in
          if (length revertData <? 4)%nat then Ok (put (set_unknown e))
          else
            let e := set_place contractAddr pc e in
            match decode_revert artifact contractAddr revertData with
            | Ok d => Ok (put (set_decoded d e))
            | Fail _ => Ok (put (set_unknown e))
            | Panic => Panic
            | OutOfFuel => OutOfFuel
            end
      end
  end.

End Decoder.

(** ** Facts *)

Definition hex_chars : list byte := [x30; x31; x32; x33; x34; x35; x36; x37; x38; x39; x61; x62; x63; x64; x65; x66].

Lemma hex_bytes_in b : Forall (.∈ hex_chars) (str_bytes (hex_EncodeToString b)).
Proof.
  assert (Hd : ∀ z, (0 ≤ z < 16)%Z → Ascii.byte_of_ascii (hex_digit z) ∈ hex_chars).
  { intros z Hz. assert (F : Forall (λ z, Ascii.byte_of_ascii (hex_digit z) ∈ hex_chars) (seqZ 0 16)) by (apply (bool_decide_unpack _); by vm_compute).
    rewrite Forall_forall in F. apply F, elem_of_seqZ. lia. }
  induction b as [|x b IH]; [constructor|]. cbn [hex_EncodeToString String.list_byte_of_string String.list_ascii_of_string map].
  pose proof (b2z_range x). constructor; [apply Hd; zlia|]. constructor; [apply Hd; zlia|]. exact IH.
Qed.

Lemma strip_none fuel encs (b : bytes) : Forall (λ e, take (length e) b ≠ e) encs → strip fuel encs b = b.
Proof.
  destruct fuel; [done|]. intros Hn. cbn [strip]. destruct (list_find _ encs) as [[i e]|] eqn:E; [|done].
  apply list_find_Some in E as (Hi & He & _). rewrite Forall_lookup in Hn. by apply (Hn i e) in He.
Qed.

(** No white space begins with a hexadecimal digit, or, read backwards, ends with one. *)
Definition starts_outside (l : list byte) (e : bytes) : bool := match e with [] => false | x :: _ => bool_decide (x ∉ l) end.

Lemma strip_outside fuel encs l c (b : bytes) : c ∈ l → forallb (starts_outside l) encs = true → strip fuel encs (c :: b) = c :: b.
Proof.
  intros Hc He. apply strip_none, Forall_forall. intros e Hin. rewrite forallb_forall in He.
  specialize (He e (proj1 (list_elem_of_In _ _) Hin)). destruct e as [|x e]; [done|].
  apply bool_decide_eq_true in He. cbn [length take]. by intros [= -> _].
Qed.

Lemma TrimSpace_hex b : TrimSpace ("0x" +:+ hex_EncodeToString b) = "0x" +:+ hex_EncodeToString b.
Proof.
  unfold TrimSpace. change (str_bytes ("0x" +:+ hex_EncodeToString b)) with (x30 :: x78 :: str_bytes (hex_EncodeToString b)).
  rewrite (strip_outside _ _ hex_chars); [|by apply (bool_decide_unpack _)|by vm_compute].
  assert (Hr : ∃ c r, rev (x30 :: x78 :: str_bytes (hex_EncodeToString b)) = c :: r ∧ (c ∈ hex_chars ∨ c = x78)).
  { pose proof (hex_bytes_in b) as F. induction (str_bytes (hex_EncodeToString b)) as [|d l _] using rev_ind; [eexists _, _; split; [done|by right]|].
    exists d, (rev (x30 :: x78 :: l)). split; [|left; apply Forall_app in F as [_ F]; by inversion F].
    by rewrite !app_comm_cons, rev_app_distr. }
  destruct Hr as (c & r & Er & Hc). rewrite Er.
  rewrite (strip_outside _ _ (x78 :: hex_chars)); [|destruct Hc; set_solver|by vm_compute].
  rewrite <- Er, rev_involutive. change (bytes_str (str_bytes ("0x" +:+ hex_EncodeToString b)) = "0x" +:+ hex_EncodeToString b). apply str_bytes_inv.
Qed.

Lemma hex_data_encoded d : 4 ≤ length d → hex_data ("0x" +:+ hex_EncodeToString d) = Some d.
Proof.
  intros Hd. unfold hex_data. change (TrimPrefix ("0x" +:+ hex_EncodeToString d) "0x") with (hex_EncodeToString d).
  rewrite hex_decode_encode. cbn [mbind option_bind]. by destruct (Nat.leb_spec 4 (length d)); [|lia].
Qed.

Lemma extract_data e d : Data e = "0x" +:+ hex_EncodeToString d → 4 ≤ length d → ExtractRevertData e = Some d.
Proof. intros E Hd. unfold ExtractRevertData. rewrite E, TrimSpace_hex, hex_data_encoded by done. by rewrite decide_False. Qed.

Lemma word_Uint64_be n : (0 ≤ n < 2 ^ 64)%Z → word_Uint64 (be_bytes 32 n) = n.
Proof.
  intros Hn. unfold word_Uint64, big_SetBytes. rewrite be_bytes_value; [by apply u64_small|].
  change (256 ^ Z.of_nat 32)%Z with (2 ^ 256)%Z. lia.
Qed.

(** The data a contract reverts with: a selector, and for a text its offset, its length and its bytes. *)
Definition error_string_data (len : Z) (r rest : bytes) : bytes := ErrorSelectorString ++ be_bytes 32 32 ++ be_bytes 32 len ++ r ++ rest.

Lemma error_string_parts len r rest : let d := error_string_data len r rest in
  length d = 68 + (length r + length rest) ∧ take 4 d = ErrorSelectorString ∧ take 32 (drop 36 d) = be_bytes 32 len ∧ drop 68 d = r ++ rest.
Proof.
  intros d. unfold d, error_string_data. pose proof (be_bytes_length 32 32) as L1. pose proof (be_bytes_length 32 len) as L2.
  revert L1 L2. generalize (be_bytes 32 32), (be_bytes 32 len). intros a b L1 L2. split_and!.
  - rewrite !length_app, L1, L2. done.
  - done.
  - rewrite app_assoc, drop_app_length' by (rewrite length_app, L1; done). by rewrite take_app_length'.
  - rewrite !app_assoc. rewrite <- (app_assoc _ r rest). apply drop_app_length'. rewrite !length_app, L1, L2. done.
Qed.

Lemma i64_wrap z : (2 ^ 63 ≤ z < 2 ^ 64)%Z → i64 z = (z - 2 ^ 64)%Z.
Proof. intros Hz. unfold i64. rewrite (Z.mod_eq (z + 2 ^ 63)) by lia. replace ((z + 2 ^ 63) / 2 ^ 64)%Z with 1%Z; [lia|]. apply Z.div_unique with (z - 2 ^ 63)%Z; lia. Qed.

Lemma go_slice_from (d : bytes) (k : nat) (n : Z) (r s : bytes) : drop k d = r ++ s → k ≤ length d → n = (Z.of_nat k + Z.of_nat (length r))%Z →
  go_slice d (Z.of_nat k) n = Some r.
Proof.
  intros E Hk ->. rewrite <- (take_drop k d), E. apply go_slice_app; rewrite length_take; lia.
Qed.

Section Theorems.
Context `{AbiErrors}.

(** The message of a revert with [Error(string)] reaches the caller: the decoder replaces the message of
    the error by the text, keeps code, data, result and identifier, and does not panic. *)
Theorem revert_reason_decoded artifact contractAddr pc response e r rest : Error_ response = Some e →
  Data e = "0x" +:+ hex_EncodeToString (error_string_data (Z.of_nat (length r)) r rest) → (Z.of_nat (length r + length rest) < 2 ^ 62)%Z →
  ∃ e', DecodeError artifact contractAddr pc response =
      Ok {| rs_Jsonrpc := rs_Jsonrpc response; Result := Result response; Error_ := Some e'; rs_Id := rs_Id response |} ∧
    Message e' = bytes_str r ∧ ErrorType e' = "standard" ∧ Decoded e' = true ∧ Code e' = Code e ∧ Data e' = Data e ∧
    ContractAddr e' = contractAddr ∧ PC e' = pc.
Proof.
  intros Ee Ed Hl. destruct (error_string_parts (Z.of_nat (length r)) r rest) as (L & T & W & D).
  unfold DecodeError. rewrite Ee, (extract_data e _ Ed) by lia. rewrite L. simpl (_ <? 4)%nat.
  unfold decode_revert, decodeStandardError. rewrite T, L, W. rewrite decide_False by done. rewrite decide_True by done.
  destruct (Z.ltb_spec (Z.of_nat (68 + (length r + length rest))) 36); [lia|].
  destruct (Z.ltb_spec (Z.of_nat (68 + (length r + length rest))) 68); [lia|].
  rewrite word_Uint64_be by lia. rewrite (i64_small (Z.of_nat (length r))) by lia. rewrite i64_small by lia.
  destruct (Z.ltb_spec (Z.of_nat (68 + (length r + length rest))) (68 + Z.of_nat (length r))); [lia|].
  rewrite (go_slice_from _ 68 _ r rest) by (done || lia). eauto 10.
Qed.

(** A length of 2^63 or more is taken for a negative number, passes the test of the bounds and panics. *)
Theorem huge_length_panics artifact contractAddr pc response e len r rest : Error_ response = Some e →
  Data e = "0x" +:+ hex_EncodeToString (error_string_data len r rest) → (2 ^ 63 ≤ len < 2 ^ 64)%Z →
  (Z.of_nat (length r + length rest) < 2 ^ 62)%Z → DecodeError artifact contractAddr pc response = Panic.
Proof.
  intros Ee Ed Hl Hn. destruct (error_string_parts len r rest) as (L & T & W & D).
  unfold DecodeError. rewrite Ee, (extract_data e _ Ed) by lia. rewrite L. simpl (_ <? 4)%nat.
  unfold decode_revert, decodeStandardError. rewrite T, L, W. rewrite decide_False by done. rewrite decide_True by done.
  destruct (Z.ltb_spec (Z.of_nat (68 + (length r + length rest))) 36); [lia|].
  destruct (Z.ltb_spec (Z.of_nat (68 + (length r + length rest))) 68); [lia|].
  rewrite word_Uint64_be by lia. rewrite (i64_wrap len) by lia. unfold go_slice.
  assert (Hs : (i64 (68 + (len - 2 ^ 64)) < 68 ∧ i64 (68 + (len - 2 ^ 64)) <= 68)%Z) by (rewrite i64_small by lia; lia).
  destruct (Z.ltb_spec (Z.of_nat (68 + (length r + length rest))) (i64 (68 + (len - 2 ^ 64)))); [lia|].
  by destruct (Z.leb_spec 68 (i64 (68 + (len - 2 ^ 64)))); [lia|].
Qed.

(** A panic of a contract is named by the last four bytes of its code. *)
Theorem panic_decoded artifact contractAddr pc response e (hi lo : bytes) : Error_ response = Some e →
  Data e = "0x" +:+ hex_EncodeToString (PanicSelector ++ hi ++ lo) → length hi = 28 → length lo = 4 →
  ∃ e', DecodeError artifact contractAddr pc response =
      Ok {| rs_Jsonrpc := rs_Jsonrpc response; Result := Result response; Error_ := Some e'; rs_Id := rs_Id response |} ∧
    PanicCode e' = "0x" +:+ hex_EncodeToString lo ∧ Message e' = getPanicMessage (PanicCode e') ∧ ErrorType e' = "panic".
Proof.
  intros Ee Ed H1 H2. unfold DecodeError. rewrite Ee, (extract_data e _ Ed) by (rewrite !length_app, H1, H2; simpl; lia).
  rewrite !length_app, H1, H2. unfold decode_revert. change (take 4 (PanicSelector ++ hi ++ lo)) with PanicSelector.
  rewrite decide_True by done. unfold decodePanic. rewrite !length_app, H1, H2.
  change (drop 4 (PanicSelector ++ hi ++ lo)) with (hi ++ lo). rewrite drop_app_length', take_ge by (done || lia).
  eexists. split; [done|]. done.
Qed.

(** Without an error, or without revert data in it, nothing changes. *)
Theorem decode_frame artifact contractAddr pc response : (∀ e, Error_ response = Some e → ExtractRevertData e = None) →
  DecodeError artifact contractAddr pc response = Ok response.
Proof. intros He. unfold DecodeError. destruct (Error_ response) as [e|]; [|done]. by rewrite (He e eq_refl). Qed.

End Theorems.

(** ** A concrete revert *)

Module DecoderExample.

#[local] Instance no_abi : AbiErrors :=
  { abi_Errors := λ _, None; abi_Unpack := λ _ _, None; fmt_value := λ _, ""; order_args := map_to_list }.

Definition reason : bytes := [x70; x61; x75; x73; x65; x64].

Definition reverted (len : Z) : JSONRPCError :=
  {| Code := -32000; Message := "execution reverted"; Data := "0x" +:+ hex_EncodeToString (error_string_data len reason (replicate 26 x00));
     Decoded := false; ErrorType := ""; ErrorName := ""; ErrorSig := ""; Arguments_ := []; PanicCode := ""; ContractAddr := "";
     ContractName := ""; PC := 0; CallDepth := 0; Function_ := "" |}.

Definition answer (len : Z) : JSONRPCResponse := {| rs_Jsonrpc := "2.0"; Result := JNull; Error_ := Some (reverted len); rs_Id := JNumber 7 |}.

End DecoderExample.

Lemma revert_reason_decoded_witness : ∃ e', @DecodeError DecoderExample.no_abi (λ _, None) "0xc0" 4 (DecoderExample.answer 6) =
    Ok {| rs_Jsonrpc := "2.0"; Result := JNull; Error_ := Some e'; rs_Id := JNumber 7 |} ∧ Message e' = "paused".
Proof.
  destruct (@revert_reason_decoded DecoderExample.no_abi (λ _, None) "0xc0" 4%Z (DecoderExample.answer 6) (DecoderExample.reverted 6)
    DecoderExample.reason (replicate 26 x00) eq_refl eq_refl ltac:(vm_compute; reflexivity)) as (e' & E & M & _).
  exists e'. split; [exact E|exact M].
Defined.
