(* ===== verification/Proxy.v ===== *)
(** * The RPC proxy ([cmd/rpc-client]: [handlers], [internal/proxy], [utils], [setup/middleware.go], [main.go])

    A request of a user reaches the proxy over HTTP or over a WebSocket.  Some methods the proxy answers
    itself, with the RPC client, the account and robot handlers, the store of private keys and the
    registry of artifacts; the others are forwarded.  A handler is a computation on the state [App] that
    returns a response or panics; it has no errors of its own.  encoding/json, gjson, go-ethereum and the
    external compiler are parameters; the account and robot handlers are known here by what they answer
    ([AccountHandler] and [RobotHandler] model them). *)

From S2P Require Import Prelude GoLib Interfaces LevelDB LdbIter HexCodec CachedWriter CachedWriterTheorems PrivateKeys AccountState Transaction TcpFlows Bls RpcPayload TransactionTheorems RpcClient RpcClientTheorems ErrorDecoder.
From Stdlib Require Import Strings.Byte Strings.Ascii.

(** ** Data *)

(** [Params] is the raw JSON. *)
Record JSONRPCRequestRaw := { r_Jsonrpc : string; r_Method : string; r_Params : bytes; r_Id : json }.

Record RegisterBlsKeyParams := { p_Address : string; p_BlsPrivateKey : string; p_Timestamp : string; p_Signature : string }.

Record PushArtifactParams := {
  pa_ContractAddress : string; pa_SourceCode : string; pa_SourceMap : string; pa_StorageLayout : string; pa_Metadata : string; pa_VerifyBytecode : bool }.

Record CompilerSettings := { SolcVersion : string; OptimizerSettings : string; EVMVersion : string; LinkedLibraries : string; cs_ABI : string }.

(** What [extractCompilerSettingsFromMetadata] reads of a metadata file; the three members it marshals
    again come with the result of that. *)
Record ConfigFile := {
  cf_Version : string; cf_Optimizer : string + string; cf_EVMVersion : string; cf_Libraries : string + string; cf_ABI : string + string }.

(** The fields of an artifact besides those of [CachedWriter.ArtifactData]. *)
Record ArtifactRest := {
  ar_Metadata : string; ar_Abi : string; ar_SourceCode : string; ar_SourceMap : string; ar_StorageLayout : string;
  ar_CreatedAt : Z; ar_Verified : bool; ar_VerifiedAt : Z }.

Record gjson_result := { g_Raw : bytes; g_String : string }.

(** The [interface{}] a handler answers with: nil, a string, or a value with what json.Marshal makes of it. *)
Inductive call_result := RNil | RString (s : string) | RValue (marshalled : string + bytes).

(** The part of the configuration the proxy reads; [None] in [ExtraAmount] is a nil pointer. *)
Record ProxyConfig := { ContractsInterceptor : list string; FreeGas_ : FreeGasConfig; ExtraAmount : option Z }.

(** [app.Context]; [None] is a nil pointer. *)
Record Context_ := { Cfg : option ProxyConfig; ClientRpc : ClientRPC; PKS : option PrivateKeyStore; has_ErrorDecoder : bool }.

(** ** Collaborators *)

Class ProxyJson := {
  gjson_Get : bytes → string → option gjson_result;        (** document and path *)
  raw_value : bytes → option json;
  raw_list : bytes → option (list bytes);                   (** into a [[]json.RawMessage] *)
  raw_string : bytes → option string;
  raw_request : bytes → option JSONRPCRequestRaw;
  raw_schema : bytes → string + CallObjectSchema;
  raw_register : bytes → string + RegisterBlsKeyParams;
  raw_push : bytes → string + PushArtifactParams;
  raw_config : string → string + ConfigFile;
  marshal_string : string → bytes;
  rest_Marshal : ArtifactRest → bytes;
  rest_Abi : bytes → string;
}.

Class ProxyEth := {
  UnmarshalBinary : bytes → option eth_tx;
  LatestSignerForChainID : Z → signer;
  IsHexAddress : string → bool;
  hexutil_Decode : string → string + bytes;
  Parse_RFC3339Nano : string → option Z;                    (** nanoseconds *)
  Parse_RFC3339 : string → option Z;
  Ecrecover : bytes → bytes → option bytes;
  UnmarshalPubkey : bytes → option bytes;
  PubkeyToAddress : bytes → bytes;
  (** the texts of errors *)
  hex_text : string → string;
  sender_text : eth_tx → string;
  rpc_text : rpc_error → string;
  pks_text : pks_error → string;
}.

Class ProxyEnv (N : Type) := {
  GetAccountHandler : N → option string * N;                (** the error *)
  account_HandleEthCall : bytes → bytes → N → (string + call_result) * N;
  SendHelpPayTransfer : bytes → option Z → N → option string * N;
  GetRobotHandler : N → option string * N;
  robot_HandleEthCall : bytes → N → (string + call_result) * N;
  CompileBytecodeFromMetadata : string → string → N → (string + string * string) * N;
  Now : N → Z * N;
  rand_nonce : N → option bytes * N;
}.

(** ** Responses ([utils/response.go]) *)

Definition error_response (code : Z) (id : json) (message : string) : JSONRPCResponse :=
  {| rs_Jsonrpc := "2.0"; Result := JNull; Error_ := Some (rpcError code message); rs_Id := id |}.
Definition MakeInvalidParamError := error_response (-32602).
Definition MakeInternalError := error_response (-32000).
Definition MakeAuthError := error_response (-32002).
Definition MakeSuccessResponse (id : json) (result : json) : JSONRPCResponse :=
  {| rs_Jsonrpc := "2.0"; Result := result; Error_ := None; rs_Id := id |}.

Definition set_id (id : json) (r : JSONRPCResponse) : JSONRPCResponse :=
  {| rs_Jsonrpc := rs_Jsonrpc r; Result := Result r; Error_ := Error_ r; rs_Id := id |}.

(** ** State *)

(** [keys] is the database of the key store; the registry of artifacts may be nil. *)
Record App (N KS AS : Type) := { rpc : RpcSt N; keys : KS; artifacts : option (CachedBatchWriter AS ArtifactData ArtifactData) }.
Arguments rpc {_ _ _} _.
Arguments keys {_ _ _} _.
Arguments artifacts {_ _ _} _.

Section Proxy.
Context `{EthCommon} `{EthAddress} `{EthHex} `{EthTypes} `{TxCrypto} `{TxCodec} `{DeviceKeyCodec} `{Blst SK}.
Context `{Proto TransactionHashData} `{Proto pb_CallData} `{Proto pb_DeployData} `{Proto pb_AccountState} `{Proto ArtifactData}.
Context {N KS AS : Type} `{RpcNet N} `{RpcJson} `{EthRpc} `{LevelDBIter KS} `{KeyCipher} `{LevelDB AS}.
Context `{ProxyEnv N} `{ProxyJson} `{ProxyEth} `{AbiErrors}.
Context (order_cache : gmap string ArtifactData → list (string * ArtifactData)).

Abbreviation St := (App N KS AS).
Definition PM : Type → Type := comp St Empty_set.

Definition with_rpc (r : RpcSt N) (s : St) : St := {| rpc := r; keys := keys s; artifacts := artifacts s |}.
Definition with_keys (k : KS) (s : St) : St := {| rpc := rpc s; keys := k; artifacts := artifacts s |}.
Definition with_artifacts a (s : St) : St := {| rpc := rpc s; keys := keys s; artifacts := a |}.

(** A call of the RPC client: its result or its error. *)
Definition client {A} (m : M (N := N) A) : PM (A + rpc_error) := λ s,
  let '(o, r) := m (rpc s) in
  (match o with Ok a => Ok (inl a) | Fail e => Ok (inr e) | Panic => Panic | OutOfFuel => OutOfFuel end, with_rpc r s).

(** A call that cannot fail. *)
Definition client_ {A} (m : M (N := N) A) : PM A :=
  r ← client m; match r with inl a => mret a | inr _ => c_panic end.

Definition ask {A} (f : N → A * N) : PM A := λ s,
  let '(a, n) := f (st_net (rpc s)) in (Ok a, with_rpc {| st_net := n; st_pool := st_pool (rpc s) |} s).

Definition text {A} (r : string + A) : string := match r with inl e => e | inr _ => "" end.

(** ** Call objects ([utils/decode.go], [utils/readWrite.go]) *)

Definition ExtractRequestID (body : bytes) : json :=
  match gjson_Get body "id" with
  | None => JNull
  | Some idResult => default JNull (raw_value (g_Raw idResult))
  end.

Definition set_data (data input : string) (s : CallObjectSchema) : CallObjectSchema :=
  {| s_From := s_From s; s_To := s_To s; s_Gas := s_Gas s; s_GasPrice := s_GasPrice s; s_MaxFeePerGas := s_MaxFeePerGas s;
     s_MaxPriorityFeePerGas := s_MaxPriorityFeePerGas s; s_Value := s_Value s; s_Nonce := s_Nonce s; s_Data := data; s_Input := input |}.

Definition HasTo_of (s : CallObjectSchema) : bool := negb (bool_decide (s_To s = "") || bool_decide (s_To s = "0x")).

Definition decoded_object (schema : CallObjectSchema) (payload : bytes) : DecodedCallObject :=
  {| Schema := schema; d_FromAddress := if decide (s_From schema = "") then zero_address else HexToAddress (s_From schema);
     d_ToAddress := if HasTo_of schema then HexToAddress (s_To schema) else zero_address; HasTo := HasTo_of schema; Payload := payload |}.

Definition DecodeCallObject (raw : bytes) : string + DecodedCallObject :=
  match raw_schema raw with
  | inl e => inl e
  | inr schema =>
      let payloadHex := if decide (s_Data schema = "") then s_Input schema else s_Data schema in
      if decide (payloadHex = "") then inr (decoded_object (set_data "" "" schema) [])
      else
        let payloadHex := if HasPrefix payloadHex "0x" || HasPrefix payloadHex "0X" then payloadHex else "0x" +:+ payloadHex in
        match DecodeHexString payloadHex with
        | None => inl (hex_text payloadHex)
        | Some data => inr (decoded_object (set_data payloadHex (if decide (s_Input schema = "") then payloadHex else s_Input schema) schema) data)
        end
  end.

(** ** Handlers ([handlers]) *)

Section Handlers.
Context (ctx : Context_).

Definition cfg : PM ProxyConfig := match Cfg ctx with Some c => mret c | None => c_panic end.

(** [HexToAddress(appCtx.Cfg.ContractsInterceptor[i])] *)
Definition interceptor (i : nat) : PM bytes :=
  c ← cfg; match ContractsInterceptor c !! i with Some a => mret (HexToAddress a) | None => c_panic end.

(** Whether the error decoder will look for an artifact. *)
Definition consults_registry (rs : JSONRPCResponse) : bool :=
  match Error_ rs with
  | None => false
  | Some e =>
      match ExtractRevertData e with
      | None => false
      | Some d => negb (bool_decide (take 4 d = PanicSelector)) && negb (bool_decide (take 4 d = ErrorSelectorString))
      end
  end.

Definition run_decoder (abi : option string) (contractAddr : string) (rs : JSONRPCResponse) : outcome Empty_set JSONRPCResponse :=
  match DecodeError (λ _, abi) contractAddr 0 rs with Ok r => Ok r | Panic | Fail _ => Panic | OutOfFuel => OutOfFuel end.

(** [ErrorDecoder.DecodeError] over the registry, whose cache it may fill; a nil registry is dereferenced. *)
Definition decode_error (contractAddr : string) (rs : JSONRPCResponse) : PM JSONRPCResponse := λ s,
  if consults_registry rs then
    match artifacts s with
    | None => (Panic, s)
    | Some w =>
        let '(r, w) := GetArtifactByAddress order_cache contractAddr w in
        (run_decoder (match r with inr a => Some (rest_Abi (a_rest a)) | inl _ => None end) contractAddr rs, with_artifacts (Some w) s)
    end
  else (run_decoder None contractAddr rs, s).

(** A transaction for [eth_call] and [eth_estimateGas]. *)
Definition build (decoded : DecodedCallObject) : PM (bytes + rpc_error) :=
  client (if HasTo decoded then BuildCallTransaction (ClientRpc ctx) decoded else BuildDeployTransaction (ClientRpc ctx) decoded).

(** *** [eth_call] *)

Definition hex_result (id : json) (json_bytes : bytes) : JSONRPCResponse := MakeSuccessResponse id (JString ("0x" +:+ hex_EncodeToString json_bytes)).

(** The answer of the account handler: a hexadecimal string as it is, anything else as the hexadecimal
    form of its JSON; nil is not an answer. *)
Definition account_answer (id : json) (r : string + call_result) : option JSONRPCResponse :=
  match r with
  | inl e => Some (MakeInternalError id ("Account handler error: " +:+ e))
  | inr RNil => None
  | inr (RString s) => if (2 <? String.length s)%nat && HasPrefix s "0x" then Some (MakeSuccessResponse id (JString s)) else Some (hex_result id (marshal_string s))
  | inr (RValue (inl e)) => Some (MakeInternalError id ("Failed to encode result: " +:+ e))
  | inr (RValue (inr b)) => Some (hex_result id b)
  end.

Definition robot_answer (id : json) (r : string + call_result) : option JSONRPCResponse :=
  match r with
  | inl e => Some (MakeInternalError id ("Robot handler error: " +:+ e))
  | inr RNil => None
  | inr (RString s) => Some (hex_result id (marshal_string s))
  | inr (RValue (inl e)) => Some (MakeInternalError id ("Failed to encode result robot: " +:+ e))
  | inr (RValue (inr b)) => Some (hex_result id b)
  end.

Definition account_call (id : json) (decoded : DecodedCallObject) : PM (option JSONRPCResponse) :=
  e ← ask GetAccountHandler;
  match e with
  | Some e => mret (Some (MakeInternalError id ("Failed to get account handler: " +:+ e)))
  | None => r ← ask (account_HandleEthCall (Payload decoded) (d_FromAddress decoded)); mret (account_answer id r)
  end.

Definition robot_call (id : json) (decoded : DecodedCallObject) : PM (option JSONRPCResponse) :=
  e ← ask GetRobotHandler;
  match e with
  | Some e => mret (Some (MakeInternalError id ("Failed to get robot handler: " +:+ e)))
  | None => r ← ask (robot_HandleEthCall (Payload decoded)); mret (robot_answer id r)
  end.

(** The handler of the [i]-th intercepted contract, when the call is to it. *)
Definition intercepted_call (i : nat) (h : json → DecodedCallObject → PM (option JSONRPCResponse)) (id : json) (decoded : DecodedCallObject)
    : PM (option JSONRPCResponse) :=
  if HasTo decoded then a ← interceptor i; if decide (d_ToAddress decoded = a) then h id decoded else mret None
  else mret None.

Definition chain_call (id : json) (decoded : DecodedCallObject) : PM JSONRPCResponse :=
  r ← build decoded;
  match r with
  | inr e => mret (MakeInternalError id ("Failed to build transaction for eth_call " +:+ rpc_text e))
  | inl bTx =>
      rs ← client_ (SendCallTransaction (ClientRpc ctx) bTx);
      rs ← (if HasTo decoded && has_ErrorDecoder ctx then decode_error (AddressHex (d_ToAddress decoded)) rs else mret rs);
      mret (set_id id rs)
  end.

Definition processEthCallParams (id : json) (callObjectRaw : bytes) : PM JSONRPCResponse :=
  match DecodeCallObject callObjectRaw with
  | inl _ => mret (MakeInvalidParamError id "Invalid eth_call parameter")
  | inr decoded =>
      r ← intercepted_call 0 account_call id decoded;
      match r with
      | Some rs => mret rs
      | None =>
          r ← intercepted_call 1 robot_call id decoded;
          match r with Some rs => mret rs | None => chain_call id decoded end
      end
  end.

(** The first parameter of a request, for the methods that read a list of raw values. *)
Definition with_first (req : JSONRPCRequestRaw) (message : string) (h : bytes → PM JSONRPCResponse) : PM JSONRPCResponse :=
  match raw_list (r_Params req) with
  | Some (p :: _) => h p
  | _ => mret (MakeInvalidParamError (r_Id req) message)
  end.

Definition HandleEthCall (req : JSONRPCRequestRaw) : PM JSONRPCResponse :=
  with_first req "Cannot unmarshal params for eth_call" (processEthCallParams (r_Id req)).

Definition HandleEthCallRaw (callParam : bytes) (id : json) : PM JSONRPCResponse := processEthCallParams id callParam.

(** *** [eth_estimateGas] *)

Definition monitored (to : bytes) : bool :=
  match Cfg ctx with Some c => existsb (λ a, bool_decide (to = HexToAddress a)) (ContractsInterceptor c) | None => false end.

Definition HandleEstimateGasRaw (callParam : bytes) (id : json) : PM JSONRPCResponse :=
  match DecodeCallObject callParam with
  | inl e => mret (MakeInvalidParamError id ("Invalid eth_estimateGas parameter: " +:+ e))
  | inr decoded =>
      if HasTo decoded && monitored (d_ToAddress decoded) then mret (MakeSuccessResponse id (JString "0x30d40"))
      else
        r ← build decoded;
        match r with
        | inr e => mret (MakeInternalError id ("Failed to build transaction for estimateGas: " +:+ rpc_text e))
        | inl bTx => rs ← client_ (SendEstimateGas (ClientRpc ctx) bTx); mret (set_id id rs)
        end
  end.

Definition HandleEstimateGas (req : JSONRPCRequestRaw) : PM JSONRPCResponse :=
  with_first req "Cannot unmarshal params for eth_estimateGas" (λ p, HandleEstimateGasRaw p (r_Id req)).

(** *** [eth_deployContract] *)

Definition HandleDeployContract (req : JSONRPCRequestRaw) : PM JSONRPCResponse :=
  with_first req "Cannot unmarshal params for eth_deployContract" (λ p,
    match raw_string p with
    | None => mret (MakeInvalidParamError (r_Id req) "Invalid constructor bytecode parameter")
    | Some constructorBytecodeHex =>
        match hexutil_Decode constructorBytecodeHex with
        | inl e => mret (MakeInvalidParamError (r_Id req) ("Invalid hex string for constructor bytecode: " +:+ e))
        | inr constructorBytecode => rs ← client_ (SendDeployContract (ClientRpc ctx) constructorBytecode); mret (set_id (r_Id req) rs)
        end
    end).

(** *** [eth_sendRawTransaction] *)

(** The decoded bytes live in a pooled buffer that every branch gives back once ([HexCodec] says what they
    are); a sender below the threshold is topped up first. *)
Definition free_gas (from : bytes) (as_ : AccountState) : PM (option string) :=
  c ← cfg;
  if negb (f_DisableFreeGas (FreeGas_ c)) && (balance as_ <? GetFreeGasMinBalance (FreeGas_ c))%Z then
    e ← ask GetAccountHandler;
    match e with
    | Some e => mret (Some ("get account handler error: " +:+ e))
    | None => ask (SendHelpPayTransfer from (ExtraAmount c))
    end
  else mret None.

Definition send_converted (t : Transaction) (rawTransactionHex : string) (id : json) : PM JSONRPCResponse :=
  rs ← client_ (SendRawEthTransaction (ClientRpc ctx) rawTransactionHex id);
  if bool_decide (is_Some (Error_ rs)) && negb (bool_decide (ToAddress t = zero_address)) && has_ErrorDecoder ctx then
    decode_error (AddressHex (ToAddress t)) rs
  else mret rs.

Definition ProcessSendRawTransaction (rawTransactionHex : string) (id : json) : PM JSONRPCResponse :=
  match DecodeHexPooled rawTransactionHex with
  | None => mret (MakeInvalidParamError id "Invalid raw transaction hex data")
  | Some decodedTxBytes =>
      match UnmarshalBinary decodedTxBytes with
      | None => mret (MakeInternalError id "Failed to unmarshal Ethereum transaction")
      | Some ethTx =>
          match Sender (LatestSignerForChainID (c_ChainId (ClientRpc ctx))) ethTx with
          | None => mret (MakeInternalError id ("Failed to derive sender from transaction " +:+ sender_text ethTx))
          | Some fromAddress =>
              r ← client (GetAccountState (ClientRpc ctx) fromAddress LatestBlock);
              match r with
              | inr e => mret (MakeInternalError id ("Failed to get account state: " +:+ rpc_text e))
              | inl as_ =>
                  e ← free_gas fromAddress as_;
                  match e with
                  | Some e => mret (MakeInternalError id ("topUpFunc failed: " +:+ e))
                  | None =>
                      r ← client (from_eth ethTx);
                      match r with
                      | inr e => mret (MakeInternalError id ("Failed to build transaction: " +:+ rpc_text e))
                      | inl t => send_converted t rawTransactionHex id
                      end
                  end
              end
          end
      end
  end.

Definition HandleSendRawTransaction (req : JSONRPCRequestRaw) : PM JSONRPCResponse :=
  match gjson_Get (r_Params req) "0" with
  | None => mret (MakeInvalidParamError (r_Id req) "Invalid params for sendRawTransaction")
  | Some rawTxResult => ProcessSendRawTransaction (g_String rawTxResult) (r_Id req)
  end.

(** Whether the request is kept from the chain, and then its hash or error. *)
Definition ProcessSendRawTransactionWithDeviceKey (rawTransactionHex : string) (id : json) : bool * string * option string := (false, "", None).

(** *** [rpc_registerBlsKeyWithSignature] *)

Definition newline : string := String (Ascii.ascii_of_nat 10) "".

Definition messageToVerify (params : RegisterBlsKeyParams) : string :=
  "BLS Data: " +:+ p_BlsPrivateKey params +:+ newline +:+ "Timestamp: " +:+ p_Timestamp params.

Definition prefixedMessage (m : string) : string :=
  String (Ascii.ascii_of_nat 25) "Ethereum Signed Message:" +:+ newline +:+ big_String (Z.of_nat (String.length m)) +:+ m.

(** [v] of 27 or 28 becomes 0 or 1. *)
Definition normalize_v (sig : bytes) : bytes :=
  if (length sig =? 65)%nat then
    match sig !! 64 with
    | Some v => if (b2z v =? 27)%Z || (b2z v =? 28)%Z then <[64 := z2b (b2z v - 27)]> sig else sig
    | None => sig
    end
  else sig.

Definition client_time (timestamp : string) : option Z :=
  match Parse_RFC3339Nano timestamp with Some t => Some t | None => Parse_RFC3339 timestamp end.

(** 2 minutes, in nanoseconds. *)
Definition max_age : Z := 120000000000.

(** The signer of the message, or the failed step of recovering it. *)
Definition recovered_signer (params : RegisterBlsKeyParams) (signatureBytes : bytes) : string + bytes :=
  match Ecrecover (Keccak256 (str_bytes (prefixedMessage (messageToVerify params)))) (normalize_v signatureBytes) with
  | None => inl "Signature verification failed: could not recover public key."
  | Some pk =>
      match UnmarshalPubkey pk with
      | None => inl "Signature verification failed: could not unmarshal recovered public key."
      | Some pub => inr (PubkeyToAddress pub)
      end
  end.

Definition put_key (pks : PrivateKeyStore) (rnd : option bytes) (address : bytes) (privateKey : string) (id : json) : PM JSONRPCResponse := λ s,
  let '(o, k) := SetPrivateKey pks rnd address privateKey (keys s) in
  (match o with
   | Ok _ => Ok (MakeSuccessResponse id (JString "BLS private key successfully registered."))
   | Fail e => Ok (MakeInternalError id ("Failed to store BLS private key: " +:+ pks_text e))
   | Panic => Panic
   | OutOfFuel => OutOfFuel
   end, with_keys k s).

(** Whether the account's BLS key on the chain is the proxy's. *)
Definition already_registered (signerAddress : bytes) : PM bool :=
  r ← client (GetAccountState (ClientRpc ctx) signerAddress LatestBlock);
  match r with
  | inl as_ =>
      if (0 <? length (publicKeyBls as_))%nat then
        k ← client_ (key (ClientRpc ctx)); mret (bool_decide (publicKeyBls as_ = publicKey k))
      else mret false
  | inr _ => mret false
  end.

Definition store_key (pks : PrivateKeyStore) (signerAddress : bytes) (params : RegisterBlsKeyParams) (id : json) : PM JSONRPCResponse :=
  registered ← already_registered signerAddress;
  if (registered : bool) then mret (MakeSuccessResponse id (JString "BLS private key already registered with RPC."))
  else rnd ← ask rand_nonce; put_key pks rnd signerAddress (p_BlsPrivateKey params) id.

Definition check_signature (params : RegisterBlsKeyParams) (signerAddress : bytes) (id : json) : PM JSONRPCResponse :=
  match DecodeHexPooled (p_Signature params) with
  | None => mret (MakeInvalidParamError id ("Invalid signature hex data: " +:+ hex_text (p_Signature params)))
  | Some signatureBytes =>
      match recovered_signer params signatureBytes with
      | inl e => mret (MakeAuthError id e)
      | inr recoveredAddress =>
          if decide (recoveredAddress = signerAddress) then
            match PKS ctx with
            | None => mret (MakeInternalError id "Internal server error: Private key store not available.")
            | Some pks => store_key pks signerAddress params id
            end
          else mret (MakeAuthError id "Signature verification failed: address mismatch.")
      end
  end.

Definition processRegisterBlsKeyParams (params : RegisterBlsKeyParams) (id : json) : PM JSONRPCResponse :=
  if negb (IsHexAddress (p_Address params)) then mret (MakeInvalidParamError id "Invalid Ethereum address format.")
  else if negb (HasPrefix (p_BlsPrivateKey params) "0x") || negb (String.length (p_BlsPrivateKey params) =? 66)%nat then
    mret (MakeInvalidParamError id "Invalid BLS private key format. Expected 0x prefixed 32-byte hex string.")
  else match DecodeHexPooled (p_BlsPrivateKey params) with
  | None => mret (MakeInvalidParamError id "Invalid BLS private key hex data.")
  | Some blsPrivKeyBytes =>
      if negb (length blsPrivKeyBytes =? 32)%nat then mret (MakeInvalidParamError id "Invalid BLS private key hex data.")
      else if negb (ValidateBlsPrivateKey blsPrivKeyBytes) then
        mret (MakeInvalidParamError id "Invalid BLS private key: key is invalid or out of bounds.")
      else match client_time (p_Timestamp params) with
      | None => mret (MakeInvalidParamError id "Invalid timestamp format. Expected ISO 8601.")
      | Some clientTimestamp =>
          now ← ask Now;
          if (max_age <? Z.abs (now - clientTimestamp))%Z then mret (MakeAuthError id "Timestamp is too old or in the future.")
          else check_signature params (HexToAddress (p_Address params)) id
      end
  end.

Definition HandleRpcRegisterBlsKeyWithSignatureRaw (param : bytes) (id : json) : PM JSONRPCResponse :=
  match raw_register param with
  | inl e => mret (MakeInvalidParamError id ("Invalid parameters for rpc_registerBlsKeyWithSignature: " +:+ e))
  | inr params => processRegisterBlsKeyParams params id
  end.

Definition HandleRpcRegisterBlsKeyWithSignature (req : JSONRPCRequestRaw) : PM JSONRPCResponse :=
  with_first req "Cannot unmarshal params or params array is empty for rpc_registerBlsKeyWithSignature"
    (λ p, HandleRpcRegisterBlsKeyWithSignatureRaw p (r_Id req)).

(** *** [rpc_pushArtifact] *)

Definition go_type (j : json) : string :=
  match j with
  | JNull => "<nil>" | JBool _ => "bool" | JNumber _ => "float64" | JString _ => "string"
  | JArray _ => "[]interface {}" | JObject _ => "map[string]interface {}"
  end.

(** The code in a response, with one "0x" in front. *)
Definition code_of (prefix invalid empty : string) (response : JSONRPCResponse) : string + string :=
  match Error_ response with
  | Some e => inl (prefix +:+ ": code=" +:+ big_String (Code e) +:+ ", message=" +:+ Message e)
  | None =>
      match Result response with
      | JString s => let h := TrimPrefix s "0x" in if decide (h = "") then inl empty else inr ("0x" +:+ h)
      | j => inl (invalid +:+ ": " +:+ go_type j)
      end
  end.

Definition getBytecodeFromChain (contractAddress : string) : PM (string + string) :=
  if negb (IsHexAddress contractAddress) then mret (inl ("invalid contract address: " +:+ contractAddress))
  else
    response ← client_ (call_rpc "eth_getCode" [PString contractAddress; PString "latest"] (JNumber 1) (ClientRpc ctx));
    mret (code_of "RPC error" "invalid bytecode result type" "bytecode is empty" response).

Definition deployOnChain (bytecode : string) : PM (string + string) :=
  let bytecode := if HasPrefix bytecode "0x" then bytecode else "0x" +:+ bytecode in
  response ← client_ (call_rpc "eth_deployContract" [PString bytecode] (JNumber 1) (ClientRpc ctx));
  mret (code_of "RPC error (eth_deployContract)" "invalid response type from eth_deployContract" "deployed bytecode is empty" response).

Definition normalized (code : string) : string := TrimPrefix (ToLower code) "0x".

(** Equal, or one a prefix of the other. *)
Definition bytecodeMatch (fromDeploy fromChain : string) : bool :=
  let d := normalized fromDeploy in
  let c := normalized fromChain in
  if (String.length d =? String.length c)%nat then bool_decide (d = c)
  else if (String.length d <? String.length c)%nat then HasPrefix c d
  else HasPrefix d c.

(** [s[:strings.Index(s, "+")]] when the index is positive. *)
Fixpoint before_plus (s : string) : option string :=
  match s with
  | EmptyString => None
  | String c s => if decide (c = "+"%char) then Some EmptyString else String c <$> before_plus s
  end.

Definition solc_version (version : string) : string :=
  match before_plus version with Some EmptyString | None => version | Some v => v end.

Definition extractCompilerSettingsFromMetadata (metadataJSON : string) : string + CompilerSettings :=
  match raw_config metadataJSON with
  | inl e => inl ("failed to parse metadata: " +:+ e)
  | inr config =>
      match cf_Optimizer config, cf_Libraries config, cf_ABI config with
      | inl e, _, _ => inl ("failed to marshal optimizer settings: " +:+ e)
      | _, inl e, _ => inl ("failed to marshal libraries: " +:+ e)
      | _, _, inl e => inl ("failed to marshal libraries: " +:+ e)
      | inr o, inr l, inr abi =>
          inr {| SolcVersion := solc_version (cf_Version config); OptimizerSettings := o;
                 EVMVersion := if decide (cf_EVMVersion config = "") then "default" else cf_EVMVersion config;
                 LinkedLibraries := l; cs_ABI := abi |}
      end
  end.

Definition artifact_of (params : PushArtifactParams) (bytecodeHash : string) (cs : CompilerSettings) (created verifiedAt : Z) : ArtifactData :=
  {| ArtifactId := CalculateArtifactID bytecodeHash (SolcVersion cs) (OptimizerSettings cs) (EVMVersion cs) (LinkedLibraries cs);
     ContractAddress := pa_ContractAddress params; BytecodeHash := bytecodeHash;
     a_rest := rest_Marshal {| ar_Metadata := pa_Metadata params; ar_Abi := cs_ABI cs; ar_SourceCode := pa_SourceCode params;
       ar_SourceMap := pa_SourceMap params; ar_StorageLayout := pa_StorageLayout params; ar_CreatedAt := created;
       ar_Verified := true; ar_VerifiedAt := verifiedAt |} |}.

(** [SaveArtifact] reports no error; a closed channel panics. *)
Definition save (a : ArtifactData) : PM unit := λ s,
  match artifacts s with
  | None => (Panic, s)
  | Some w => match SaveArtifact order_cache a w with None => (Panic, s) | Some (w, _) => (Ok tt, with_artifacts (Some w) s) end
  end.

Definition pushed (id : json) (a : ArtifactData) : JSONRPCResponse :=
  MakeSuccessResponse id (JObject [("artifact_id", JString (ArtifactId a)); ("bytecode_hash", JString (BytecodeHash a));
    ("contract_address", JString (ContractAddress a)); ("verified", JBool true)]).

(** After the verification. *)
Definition register_artifact (params : PushArtifactParams) (bytecodeFromChain : string) (id : json) : PM JSONRPCResponse :=
  match CalculateBytecodeHash HashHex bytecodeFromChain with
  | None => mret (MakeInternalError id ("Failed to calculate bytecode hash: " +:+ hex_text bytecodeFromChain))
  | Some bytecodeHash =>
      match extractCompilerSettingsFromMetadata (pa_Metadata params) with
      | inl e => mret (MakeInternalError id ("Failed to parse metadata: " +:+ e))
      | inr cs =>
          created ← ask Unix;
          verifiedAt ← ask Unix;
          let a := artifact_of params bytecodeHash cs created verifiedAt in
          _ ← save a;
          mret (pushed id a)
      end
  end.

Definition verify_artifact (params : PushArtifactParams) (id : json) : PM JSONRPCResponse :=
  r ← ask (CompileBytecodeFromMetadata (pa_Metadata params) (pa_SourceCode params));
  match r with
  | inl e => mret (MakeInternalError id ("Failed to compile bytecode: " +:+ e))
  | inr (creation, _) =>
      r ← deployOnChain creation;
      match r with
      | inl e => mret (MakeInternalError id ("Failed to deploy bytecode: " +:+ e))
      | inr bytecodeFromDeploy =>
          r ← getBytecodeFromChain (pa_ContractAddress params);
          match r with
          | inl e => mret (MakeInternalError id ("Failed to get bytecode from chain: " +:+ e))
          | inr bytecodeFromChain =>
              if bytecodeMatch bytecodeFromDeploy bytecodeFromChain then register_artifact params bytecodeFromChain id
              else mret (MakeInternalError id "Bytecode verification failed: deployed bytecode does not match bytecode from chain")
          end
      end
  end.

Definition HandlePushArtifact (req : JSONRPCRequestRaw) : PM JSONRPCResponse :=
  s ← c_get;
  match artifacts s with
  | None => mret (MakeInternalError (r_Id req) "Artifact Registry storage not initialized")
  | Some _ =>
      match raw_push (r_Params req) with
      | inl e => mret (MakeInvalidParamError (r_Id req) ("Invalid params for rpc_pushArtifact: " +:+ e))
      | inr params =>
          if decide (pa_SourceCode params = "") then mret (MakeInvalidParamError (r_Id req) "source_code is required")
          else if decide (pa_Metadata params = "") then mret (MakeInvalidParamError (r_Id req) "metadata is required for bytecode generation")
          else if decide (pa_ContractAddress params = "") then mret (MakeInvalidParamError (r_Id req) "contract_address is required")
          else verify_artifact params (r_Id req)
      end
  end.

(** ** Over HTTP ([internal/proxy/http_handler.go]) *)

(** What becomes of a request: an answer in JSON, its body forwarded, or a bare status. *)
Inductive http_action := Answer (r : JSONRPCResponse) | Forward (body : bytes) | HttpError (status : Z) (message : string).

Inductive body_error := ErrRequestBodyTooLarge | ErrBodyRead.

Definition version_response (id : json) : JSONRPCResponse := MakeSuccessResponse id (JString (big_String (c_ChainId (ClientRpc ctx)))).

(** The first parameter by its path in the body. *)
Definition first_param (body : bytes) (id : json) (message : string) (h : gjson_result → PM http_action) : PM http_action :=
  match gjson_Get body "params.0" with
  | None => mret (Answer (MakeInvalidParamError id message))
  | Some p => h p
  end.

Definition answering (m : PM JSONRPCResponse) : PM http_action := r ← m; mret (Answer r).

Definition whole_request (body : bytes) (id : json) (h : JSONRPCRequestRaw → PM JSONRPCResponse) : PM http_action :=
  match raw_request body with
  | None => mret (Answer (MakeInvalidParamError id "Invalid JSON-RPC request"))
  | Some req => answering (h req)
  end.

(** The switch of the method. *)
Definition route_http (method : string) (body : bytes) (id : json) : PM http_action :=
  if decide (method = "eth_sendRawTransaction") then
    first_param body id "Invalid params for sendRawTransaction" (λ p, answering (ProcessSendRawTransaction (g_String p) id))
  else if decide (method = "mtn_sendRawTransactionWithDeviceKey") then
    first_param body id "Invalid params for sendRawTransactionWithDeviceKey" (λ p,
      match ProcessSendRawTransactionWithDeviceKey (g_String p) id with
      | (true, _, Some e) => mret (Answer (MakeInternalError id e))
      | (true, hash, None) => mret (Answer (MakeSuccessResponse id (JString hash)))
      | (false, _, _) => mret (Forward body)
      end)
  else if decide (method = "net_version") then mret (Answer (version_response id))
  else if decide (method = "eth_estimateGas") then
    first_param body id "Cannot unmarshal params for eth_estimateGas" (λ p, answering (HandleEstimateGasRaw (g_Raw p) id))
  else if decide (method = "eth_call") then
    first_param body id "Cannot unmarshal params for eth_call" (λ p, answering (HandleEthCallRaw (g_Raw p) id))
  else if decide (method = "rpc_registerBlsKeyWithSignature") then
    first_param body id "Cannot unmarshal params for rpc_registerBlsKeyWithSignature"
      (λ p, answering (HandleRpcRegisterBlsKeyWithSignatureRaw (g_Raw p) id))
  else if decide (method = "eth_deployContract") then whole_request body id HandleDeployContract
  else if decide (method = "rpc_pushArtifact") then whole_request body id HandlePushArtifact
  else mret (Forward body).

(** [ServeHTTP] on the outcome of reading the body. *)
Definition ServeHTTP (read : body_error + bytes) : PM http_action :=
  match read with
  | inl ErrRequestBodyTooLarge => mret (HttpError 413 "Request entity too large")
  | inl ErrBodyRead => mret (HttpError 500 "Failed to read request body")
  | inr body =>
      match gjson_Get body "method" with
      | None => mret (Forward body)
      | Some methodResult => route_http (g_String methodResult) body (ExtractRequestID body)
      end
  end.

(** ** Over a WebSocket ([internal/proxy/ws_routes.go]) *)

(** [defer recover()] in a function whose results are then the zero values. *)
Definition recovering {A} (zero : A) (m : PM A) : PM A := λ s,
  match m s with (Panic, s) => (Ok zero, s) | r => r end.

(** A nil interface is [None]. *)
Definition handleWithPanicRecovery (fn : PM (option JSONRPCResponse)) : PM (option JSONRPCResponse) := recovering None fn.

(** [.(rpc_client.JSONRPCResponse)], which panics on nil. *)
Definition assert_response (r : option JSONRPCResponse) : PM (option JSONRPCResponse) :=
  match r with Some r => mret (Some r) | None => c_panic end.

Definition handled (m : PM JSONRPCResponse) : PM (option JSONRPCResponse) :=
  r ← handleWithPanicRecovery (r ← m; mret (Some r)); assert_response r.

Definition device_key_request (req : JSONRPCRequestRaw) : PM (option JSONRPCResponse) :=
  match gjson_Get (r_Params req) "0" with
  | None => mret (Some (MakeInvalidParamError (r_Id req) "Invalid params for sendRawTransactionWithDeviceKey"))
  | Some p =>
      match ProcessSendRawTransactionWithDeviceKey (g_String p) (r_Id req) with
      | (true, _, Some e) => mret (Some (MakeInternalError (r_Id req) e))
      | (true, hash, None) => mret (Some (MakeSuccessResponse (r_Id req) (JString hash)))
      | (false, _, _) => mret None
      end
  end.

Definition route_ws (req : JSONRPCRequestRaw) : PM (option JSONRPCResponse) :=
  let method := r_Method req in
  if decide (method = "eth_sendRawTransaction") then handled (HandleSendRawTransaction req)
  else if decide (method = "net_version") then mret (Some (version_response (r_Id req)))
  else if decide (method = "eth_estimateGas") then handled (HandleEstimateGas req)
  else if decide (method = "eth_call") then handled (HandleEthCall req)
  else if decide (method = "rpc_registerBlsKeyWithSignature") then handled (HandleRpcRegisterBlsKeyWithSignature req)
  else if decide (method = "mtn_sendRawTransactionWithDeviceKey") then handleWithPanicRecovery (device_key_request req)
  else mret None.

(** [None] is [(nil, false)]: the request is to be forwarded. *)
Definition RouteWebSocketMessage (req : JSONRPCRequestRaw) : PM (option JSONRPCResponse) := recovering None (route_ws req).

End Handlers.

(** ** The HTTP server ([main.go], [setup/middleware.go]) *)

(** Scheme and host of a URL. *)
Context (url_Parse : string → option (string * string)).

(** Where the handler of "/" sends a request. *)
Inductive route :=
  | WithInterceptor (target : string) | WithoutInterceptor (target : string)
  | Readonly (path : string) | Main | Refuse (status : Z) (message : string).

Record RpcReverseProxy := { has_ReadonlyReverseProxy : bool; ReadonlyWSSServerURL : string }.

(** [New]: the second error is of the read-only URL. *)
Definition New (rpcServerURL readonlyRPCServerURL readonlyWSSServerURL : string) : string + RpcReverseProxy :=
  match url_Parse rpcServerURL with
  | None => inl ("invalid RPC server URL '" +:+ rpcServerURL +:+ "'")
  | Some _ =>
      if decide (readonlyRPCServerURL = "") then inr {| has_ReadonlyReverseProxy := false; ReadonlyWSSServerURL := readonlyWSSServerURL |}
      else match url_Parse readonlyRPCServerURL with
           | None => inl ("invalid readonly RPC server URL '" +:+ readonlyRPCServerURL +:+ "'")
           | Some _ => inr {| has_ReadonlyReverseProxy := true; ReadonlyWSSServerURL := readonlyWSSServerURL |}
           end
  end.

Definition unconfigured : route := Refuse 503 "Target WebSocket endpoint is not configured".

(** [None] is the nil URL that the ignored error of [url.Parse] leaves. *)
Definition route_upgrade (p : RpcReverseProxy) (urlWS path : string) : option route :=
  if HasPrefix path "/interceptor" then Some (if decide (urlWS = "") then unconfigured else WithInterceptor urlWS)
  else if HasPrefix path "/readonly" then
    if decide (ReadonlyWSSServerURL p = "") then Some (Refuse 503 "Readonly WebSocket endpoint is not configured")
    else match url_Parse (ReadonlyWSSServerURL p) with
         | None => None
         | Some (scheme, host) => Some (WithoutInterceptor (scheme +:+ "://" +:+ host +:+ TrimPrefix path "/readonly"))
         end
  else Some (if decide (urlWS = "") then unconfigured else WithoutInterceptor urlWS).

Definition route_plain (p : RpcReverseProxy) (path : string) : route :=
  if HasPrefix path "/readonly" then
    if has_ReadonlyReverseProxy p then
      let rest := TrimPrefix path "/readonly" in Readonly (if HasPrefix rest "/" then rest else "/" +:+ rest)
    else Refuse 501 "Readonly endpoint is not configured"
  else Main.

Definition route_request (p : RpcReverseProxy) (urlWS path : string) (upgrade : bool) : option route :=
  if upgrade then route_upgrade p urlWS path else Some (route_plain p path).

(** The headers the middleware sets, and whether the request goes on. *)
Definition CORSMiddleware (origin requestHeaders method : string) : list (string * string) * bool :=
  ((if decide (origin = "") then [("Access-Control-Allow-Origin", "*")]
    else [("Access-Control-Allow-Origin", origin); ("Vary", "Origin"); ("Access-Control-Allow-Credentials", "true")])
   ++ [("Access-Control-Allow-Methods", "POST, GET, OPTIONS, PUT, DELETE, HEAD");
       ("Access-Control-Allow-Headers",
          if decide (requestHeaders = "") then "Content-Type, Authorization, Accept, Origin, X-Requested-With" else requestHeaders);
       ("Access-Control-Max-Age", "86400")],
   negb (bool_decide (method = "OPTIONS"))).

End Proxy.

(** ** The handlers as computations *)

Section Facts.
Context `{EthCommon} `{EthAddress} `{EthHex} `{EthTypes} `{TxCrypto} `{TxCodec} `{DeviceKeyCodec} `{Blst SK}.
Context `{Proto TransactionHashData} `{Proto pb_CallData} `{Proto pb_DeployData} `{Proto pb_AccountState} `{Proto ArtifactData}.
Context {N KS AS : Type} `{RpcNet N} `{RpcJson} `{EthRpc} `{LevelDBIter KS} `{KeyCipher} `{LevelDB AS}.
Context `{ProxyEnv N} `{ProxyJson} `{ProxyEth} `{AbiErrors}.
Context (order_cache : gmap string ArtifactData → list (string * ArtifactData)).
Abbreviation St := (App N KS AS).
Abbreviation PM := (comp St Empty_set).
Implicit Types s : St.

(** *** Over HTTP and over a WebSocket *)

Lemma answering_spec (m : PM JSONRPCResponse) s : answering m s =
  match m s with (Ok r, s') => (Ok (Answer r), s') | (Panic, s') => (Panic, s') | (OutOfFuel, s') => (OutOfFuel, s') | (Fail e, s') => match e with end end.
Proof. unfold answering, mbind, comp_bind, mret, comp_ret. by destruct (m s) as [[?|[]| |] ?]. Qed.

Lemma handled_spec (m : PM JSONRPCResponse) s : recovering None (handled m) s =
  match m s with (Ok r, s') => (Ok (Some r), s') | (Panic, s') => (Ok None, s') | (OutOfFuel, s') => (OutOfFuel, s') | (Fail e, s') => match e with end end.
Proof.
  unfold recovering, handled, handleWithPanicRecovery, recovering, assert_response, mbind, comp_bind, mret, comp_ret.
  by destruct (m s) as [[?|[]| |] ?].
Qed.

(** What the WebSocket makes of what HTTP makes of a request. *)
Definition ws_view (r : outcome Empty_set http_action * St) : outcome Empty_set (option JSONRPCResponse) * St :=
  match r with
  | (Ok (Answer r), s) => (Ok (Some r), s)
  | (Ok _, s) | (Panic, s) => (Ok None, s)
  | (OutOfFuel, s) => (OutOfFuel, s)
  | (Fail e, s) => match e with end
  end.

Lemma handled_answering (m : PM JSONRPCResponse) s : recovering None (handled m) s = ws_view (answering m s).
Proof. rewrite handled_spec, answering_spec. by destruct (m s) as [[?|[]| |] ?]. Qed.

(** A request says the same to gjson and to encoding/json. *)
Record same_request (body : bytes) (req : JSONRPCRequestRaw) (p : gjson_result) : Prop := {
  sr_method : ∃ m, gjson_Get body "method" = Some m ∧ g_String m = r_Method req;
  sr_id : ExtractRequestID body = r_Id req;
  sr_first : gjson_Get body "params.0" = Some p;
  sr_param : gjson_Get (r_Params req) "0" = Some p;
  sr_list : ∃ ps, raw_list (r_Params req) = Some (g_Raw p :: ps);
}.


(** *** Identifiers *)

Definition has_id (id : json) (m : PM JSONRPCResponse) : Prop := ∀ s r s', m s = (Ok r, s') → rs_Id r = id.

Lemma id_ret id r : rs_Id r = id → has_id id (mret r).
Proof. by intros <- s r' s' [= <- _]. Qed.
Lemma id_panic id : has_id id c_panic.
Proof. by intros s r s'. Qed.
Lemma id_bind {A} id (m : PM A) (k : A → PM JSONRPCResponse) : (∀ a, has_id id (k a)) → has_id id (m ≫= k).
Proof.
  intros Hk s r s'. unfold mbind, comp_bind. destruct (m s) as [[a|[]| |] s1]; [|done..]. apply Hk.
Qed.

Lemma id_put_key pks rnd a k id : has_id id (put_key pks rnd a k id).
Proof. intros s r s'. unfold put_key. destruct (SetPrivateKey _ _ _ _ _) as [[?|?| |] ?]; by intros [= <- _]. Qed.

Ltac id_step := match goal with
  | |- has_id _ (mret _) => apply id_ret; reflexivity
  | |- has_id _ c_panic => apply id_panic
  | |- has_id _ (put_key _ _ _ _ _) => apply id_put_key
  | |- has_id _ (_ ≫= _) => apply id_bind; intros ?
  | |- has_id _ (match ?x with _ => _ end) => destruct x
  | |- has_id _ (if ?x then _ else _) => destruct x
  end.

Lemma id_with_first req msg h : (∀ p, has_id (r_Id req) (h p)) → has_id (r_Id req) (with_first req msg h).
Proof. intros Hh. unfold with_first. repeat (id_step || apply Hh). Qed.

(** A handler of an intercepted contract answers with the identifier, or not at all. *)
Definition id_or_none (id : json) (m : PM (option JSONRPCResponse)) : Prop := ∀ s r s', m s = (Ok (Some r), s') → rs_Id r = id.

Lemma id_intercepted ctx i h id d (k : option JSONRPCResponse → PM JSONRPCResponse) : id_or_none id (h id d) →
  (∀ r, rs_Id r = id → has_id id (k (Some r))) → has_id id (k None) → has_id id (intercepted_call ctx i h id d ≫= k).
Proof.
  intros Hh Hs Hn s r s'. unfold mbind at 1, comp_bind at 1. destruct (intercepted_call ctx i h id d s) as [[[a|]|[]| |] s1] eqn:E; [|by apply Hn|done..].
  apply Hs. revert E. unfold intercepted_call. destruct (HasTo d); [|done].
  unfold mbind, comp_bind. destruct (interceptor ctx i s) as [[b|[]| |] s2]; [|done..]. destruct (decide _); [|done]. apply Hh.
Qed.

Lemma id_asked {R} id (f : N → option string * N) (g : N → R * N) msg (answer : R → option JSONRPCResponse) :
  (∀ r a, answer r = Some a → rs_Id a = id) →
  id_or_none id (e ← ask f; match e with Some e => mret (Some (MakeInternalError id (msg e))) | None => r ← ask g; mret (answer r) end).
Proof.
  intros Ha s r s'. unfold mbind, comp_bind, ask. destruct (f _) as [[e|] n]; [by intros [= <- _]|].
  destruct (g _) as [b n']. intros [= Hb _]. by apply (Ha b).
Qed.

Lemma account_answer_id id r a : account_answer id r = Some a → rs_Id a = id.
Proof. destruct r as [e|[|s|[e|b]]]; simpl; [by intros [= <-]|done| |by intros [= <-]..]. by destruct (_ && _); intros [= <-]. Qed.
Lemma robot_answer_id id r a : robot_answer id r = Some a → rs_Id a = id.
Proof. by destruct r as [e|[|s|[e|b]]]; simpl; intros [= <-]. Qed.

Lemma id_eth_call ctx id raw : has_id id (processEthCallParams order_cache ctx id raw).
Proof.
  unfold processEthCallParams. id_step; [id_step|].
  apply id_intercepted; [apply id_asked, account_answer_id|intros r <-; id_step|].
  apply id_intercepted; [apply id_asked, robot_answer_id|intros r <-; id_step|].
  unfold chain_call. repeat id_step.
Qed.

Lemma id_estimate ctx raw id : has_id id (HandleEstimateGasRaw ctx raw id).
Proof. unfold HandleEstimateGasRaw. repeat id_step. Qed.

Lemma id_register ctx raw id : has_id id (HandleRpcRegisterBlsKeyWithSignatureRaw ctx raw id).
Proof. unfold HandleRpcRegisterBlsKeyWithSignatureRaw, processRegisterBlsKeyParams, check_signature, store_key. repeat id_step. Qed.

Lemma id_deploy ctx req : has_id (r_Id req) (HandleDeployContract ctx req).
Proof. apply id_with_first. intros p. repeat id_step. Qed.

Lemma id_push ctx req : has_id (r_Id req) (HandlePushArtifact order_cache ctx req).
Proof. unfold HandlePushArtifact, verify_artifact, register_artifact. repeat id_step. Qed.

Lemma pm_bind_ok {A B} (m : PM A) (k : A → PM B) s b s' : (m ≫= k) s = (Ok b, s') → ∃ a s1, m s = (Ok a, s1) ∧ k a s1 = (Ok b, s').
Proof. unfold mbind, comp_bind. destruct (m s) as [[a|[]| |] s1]; [|done..]. by exists a, s1. Qed.

Lemma DecodeError_id artifact a pc rs r : DecodeError artifact a pc rs = Ok r → rs_Id r = rs_Id rs.
Proof.
  unfold DecodeError. destruct (Error_ rs) as [e|]; [|by intros [= <-]]. destruct (ExtractRevertData e) as [d|]; [|by intros [= <-]].
  destruct (_ <? _)%nat; [by intros [= <-]|]. by destruct (decode_revert _ _ _); intros [= <-].
Qed.

Lemma decode_error_id a rs s r s' : decode_error order_cache a rs s = (Ok r, s') → rs_Id r = rs_Id rs.
Proof.
  assert (D : ∀ abi, run_decoder abi a rs = Ok r → rs_Id r = rs_Id rs).
  { intros abi. unfold run_decoder. destruct (DecodeError _ _ _ _) eqn:E; intros [= <-]. by eapply DecodeError_id. }
  unfold decode_error. destruct (consults_registry rs); [|intros [= E _]; by eapply D]. destruct (artifacts s) as [w|]; [|done].
  destruct (GetArtifactByAddress order_cache a w) as [[?|?] ?]; intros [= E _]; by eapply D.
Qed.

(** The identifier in an answer to a raw transaction: the request's, or the one of the node's response. *)
Definition sent_id (ctx : Context_) (id j : json) : Prop :=
  j = id ∨ ∃ raw s1 s2 rs, client_ (SendRawEthTransaction (ClientRpc ctx) raw id) (s1 : St) = (Ok rs, s2) ∧ j = rs_Id rs.

Lemma id_send_raw ctx raw id s r s' : ProcessSendRawTransaction order_cache ctx raw id s = (Ok r, s') → sent_id ctx id (rs_Id r).
Proof.
  unfold ProcessSendRawTransaction. destruct (DecodeHexPooled raw) as [b|]; [|intros [= <- _]; by left].
  destruct (UnmarshalBinary b) as [e|]; [|intros [= <- _]; by left]. destruct (Sender _ e) as [from|]; [|intros [= <- _]; by left].
  intros ([as_|err] & s1 & _ & E)%pm_bind_ok; [|injection E as <- _; by left].
  apply pm_bind_ok in E as ([e'|] & s2 & _ & E); [injection E as <- _; by left|].
  apply pm_bind_ok in E as ([t|e'] & s3 & _ & E); [|injection E as <- _; by left].
  right. apply pm_bind_ok in E as (rs & s4 & Es & E). exists raw, s3, s4, rs. split; [done|].
  destruct (_ && _ && _); [by eapply decode_error_id|by injection E as <- _].
Qed.

Lemma id_ws ctx req m P s r s' : RouteWebSocketMessage order_cache ctx req s = (Ok (Some r), s') →
  route_ws order_cache ctx req = handled m → (∀ s1 r s2, m s1 = (Ok r, s2) → P (rs_Id r)) → P (rs_Id r).
Proof.
  unfold RouteWebSocketMessage. intros E Er HP. rewrite Er, handled_spec in E. destruct (m s) as [[a|[]| |] s1] eqn:Em; [|done..].
  injection E as -> _. by eapply HP.
Qed.

(** Every answer over a WebSocket carries the identifier of its request; only the answer to a raw
    transaction may carry the one the node gave its response. *)
Theorem ws_answers_carry_id ctx req s r s' : RouteWebSocketMessage order_cache ctx req s = (Ok (Some r), s') →
  rs_Id r = r_Id req ∨ r_Method req = "eth_sendRawTransaction" ∧ sent_id ctx (r_Id req) (rs_Id r).
Proof.
  intros E. destruct (decide (r_Method req = "eth_sendRawTransaction")) as [Em|].
  { right. split; [done|]. refine (id_ws ctx req (HandleSendRawTransaction order_cache ctx req) (sent_id ctx (r_Id req)) s r s' E _ _).
    { unfold route_ws. by rewrite Em. }
    unfold HandleSendRawTransaction. intros s1 r1 s2. destruct (gjson_Get _ _); [apply id_send_raw|intros [= <- _]; by left]. }
  left. pose proof (λ m, id_ws ctx req m (λ j, j = r_Id req) s r s' E) as W. unfold RouteWebSocketMessage, route_ws in E, W.
  rewrite decide_False in E, W by done. destruct (decide (r_Method req = "net_version")); [by injection E as <- _|].
  destruct (decide (r_Method req = "eth_estimateGas")); [apply (W _ eq_refl), id_with_first; intros ?; apply id_estimate|].
  destruct (decide (r_Method req = "eth_call")); [apply (W _ eq_refl), id_with_first; intros ?; apply id_eth_call|].
  destruct (decide (r_Method req = "rpc_registerBlsKeyWithSignature")); [apply (W _ eq_refl), id_with_first; intros ?; apply id_register|].
  destruct (decide (r_Method req = "mtn_sendRawTransactionWithDeviceKey")); [|done].
  revert E. unfold recovering, handleWithPanicRecovery, recovering, device_key_request.
  destruct (gjson_Get _ _); [done|by intros [= <- _]].
Qed.

Lemma id_http (m : PM JSONRPCResponse) P s r s' : answering m s = (Ok (Answer r), s') → (∀ s1 r s2, m s1 = (Ok r, s2) → P (rs_Id r)) → P (rs_Id r).
Proof. rewrite answering_spec. intros E HP. destruct (m s) as [[a|[]| |] s1] eqn:Em; [|done..]. injection E as -> _. by eapply HP. Qed.

Lemma id_first body id msg h P s r s' : P id → (∀ p, h p s = (Ok (Answer r), s') → P (rs_Id r)) →
  first_param body id msg h s = (Ok (Answer r), s') → P (rs_Id r).
Proof. unfold first_param. intros Hi Hh. destruct (gjson_Get _ _); [apply Hh|by intros [= <- _]]. Qed.

Lemma id_whole body id (h : JSONRPCRequestRaw → PM JSONRPCResponse) s r s' : (∀ req, has_id (r_Id req) (h req)) →
  whole_request body id h s = (Ok (Answer r), s') → rs_Id r = id ∨ ∃ req, raw_request body = Some req ∧ rs_Id r = r_Id req.
Proof.
  intros Hh. unfold whole_request. destruct (raw_request body) as [req|]; [|intros [= <- _]; by left].
  intros E. right. exists req. split; [done|]. by apply (id_http _ (λ j, j = r_Id req) _ _ _ E), Hh.
Qed.

(** The same over HTTP; two methods take the identifier from the whole request instead of the path. *)
Theorem http_answers_carry_id ctx method body id s r s' : route_http order_cache ctx method body id s = (Ok (Answer r), s') →
  rs_Id r = id ∨ method = "eth_sendRawTransaction" ∧ sent_id ctx id (rs_Id r) ∨ ∃ req, raw_request body = Some req ∧ rs_Id r = r_Id req.
Proof.
  unfold route_http. destruct (decide (method = "eth_sendRawTransaction")).
  { intros E. right. left. split; [done|]. revert E. apply (id_first _ _ _ _ (sent_id ctx id)); [by left|].
    intros p E. apply (id_http _ _ _ _ _ E). apply id_send_raw. }
  destruct (decide (method = "mtn_sendRawTransactionWithDeviceKey")).
  { intros E. left. revert E. by apply (id_first _ _ _ _ (λ j, j = id)). }
  destruct (decide (method = "net_version")); [intros [= <- _]; by left|].
  destruct (decide (method = "eth_estimateGas")).
  { intros E. left. revert E. apply (id_first _ _ _ _ (λ j, j = id)); [done|]. intros p E. exact (id_http _ (λ j, j = id) _ _ _ E (id_estimate ctx (g_Raw p) id)). }
  destruct (decide (method = "eth_call")).
  { intros E. left. revert E. apply (id_first _ _ _ _ (λ j, j = id)); [done|]. intros p E. exact (id_http _ (λ j, j = id) _ _ _ E (id_eth_call ctx id (g_Raw p))). }
  destruct (decide (method = "rpc_registerBlsKeyWithSignature")).
  { intros E. left. revert E. apply (id_first _ _ _ _ (λ j, j = id)); [done|]. intros p E. exact (id_http _ (λ j, j = id) _ _ _ E (id_register ctx (g_Raw p) id)). }
  destruct (decide (method = "eth_deployContract")); [intros [E|E]%id_whole; [by left|by right; right|intros ?; apply id_deploy]|].
  destruct (decide (method = "rpc_pushArtifact")); [intros [E|E]%id_whole; [by left|by right; right|intros ?; apply id_push]|done].
Qed.

End Facts.

(** ** Registration of a BLS key *)

Section Registration.
Context `{EthCommon} `{EthAddressLaws} `{EthHex} `{EthTypes} `{TxCrypto} `{TxCodec} `{DeviceKeyCodec} `{Blst SK}.
Context `{Proto TransactionHashData} `{Proto pb_CallData} `{Proto pb_DeployData} `{Proto pb_AccountState} `{Proto ArtifactData}.
Context {N KS AS : Type} `{RpcNet N} `{RpcJson} `{EthRpc} `{LevelDBLaws KS} `{!LevelDBIter KS} `{!LevelDBIterLaws KS} `{KeyCipherLaws} `{LevelDB AS}.
Context `{ProxyEnv N} `{ProxyJson} `{ProxyEth} `{AbiErrors}.
Abbreviation St := (App N KS AS).
Implicit Types s : St.

(** A well-formed address, a valid BLS key, a time stamp within two minutes of [now], and a signature of
    both by the address. *)
Record authorised (params : RegisterBlsKeyParams) (now : Z) : Prop := {
  au_address : IsHexAddress (p_Address params) = true;
  au_format : HasPrefix (p_BlsPrivateKey params) "0x" = true ∧ String.length (p_BlsPrivateKey params) = 66;
  au_key : ∃ b, DecodeHexPooled (p_BlsPrivateKey params) = Some b ∧ ValidateBlsPrivateKey b = true;
  au_time : ∃ t, client_time (p_Timestamp params) = Some t ∧ (Z.abs (now - t) ≤ max_age)%Z;
  au_signature : ∃ sig, DecodeHexPooled (p_Signature params) = Some sig ∧ recovered_signer params sig = inr (HexToAddress (p_Address params));
}.

(** The state after reading the clock. *)
Definition after_now s : St := with_rpc {| st_net := (Now (st_net (rpc s))).2; st_pool := st_pool (rpc s) |} s.

Lemma ask_now {A} (k : Z → comp St Empty_set A) s : (ask Now ≫= k) s = k (Now (st_net (rpc s))).1 (after_now s).
Proof. unfold mbind, comp_bind, ask, after_now. by destruct (Now _). Qed.

Lemma register_authorised ctx params id s pks : authorised params (Now (st_net (rpc s))).1 → PKS ctx = Some pks →
  processRegisterBlsKeyParams ctx params id s = store_key ctx pks (HexToAddress (p_Address params)) params id (after_now s).
Proof.
  intros [Ha [Hf1 Hf2] (b & Hb & Hv) (t & Ht & Hage) (sig & Hs & Hr)] Hp. unfold processRegisterBlsKeyParams.
  rewrite Ha, Hf1, Hf2, Hb, Hv, (valid_key_32 b Hv), Ht. cbn [negb orb Nat.eqb]. rewrite ask_now.
  destruct (Z.ltb_spec max_age (Z.abs ((Now (st_net (rpc s))).1 - t))); [lia|].
  unfold check_signature. by rewrite Hs, Hr, decide_True, Hp.
Qed.

Lemma register_refused ctx params id s : ¬ authorised params (Now (st_net (rpc s))).1 →
  ∃ r s', processRegisterBlsKeyParams ctx params id s = (Ok r, s') ∧ is_Some (Error_ r) ∧ keys s' = keys s ∧ artifacts s' = artifacts s.
Proof.
  intros Hn. unfold processRegisterBlsKeyParams.
  destruct (IsHexAddress _) eqn:Ha; cbn [negb]; [|by eauto 10].
  destruct (HasPrefix _ _) eqn:Hf1; cbn [negb orb]; [|by eauto 10].
  destruct (Nat.eqb_spec (String.length (p_BlsPrivateKey params)) 66) as [Hf2|]; cbn [negb]; [|by eauto 10].
  destruct (DecodeHexPooled (p_BlsPrivateKey params)) as [b|] eqn:Hb; [|by eauto 10].
  destruct (negb (length b =? 32)%nat); [by eauto 10|].
  destruct (ValidateBlsPrivateKey b) eqn:Hv; cbn [negb]; [|by eauto 10].
  destruct (client_time _) as [t|] eqn:Ht; [|by eauto 10]. rewrite ask_now.
  destruct (Z.ltb_spec max_age (Z.abs ((Now (st_net (rpc s))).1 - t))); [by eauto 10|].
  unfold check_signature. destruct (DecodeHexPooled (p_Signature params)) as [sig|] eqn:Hs; [|by eauto 10].
  destruct (recovered_signer params sig) as [e|a] eqn:Hr; [by eauto 10|].
  destruct (decide _) as [->|]; [|by eauto 10]. destruct Hn. split; eauto.
Qed.

Lemma client_keeps {A} (m : M (N:=N) A) s : keys (client (KS:=KS) (AS:=AS) m s).2 = keys s ∧ artifacts (client (KS:=KS) m s).2 = artifacts s.
Proof. unfold client. by destruct (m (rpc s)) as [? ?]. Qed.

Lemma already_keeps ctx a s o s1 : already_registered ctx a s = (o, s1) → keys s1 = keys s ∧ artifacts s1 = artifacts s.
Proof.
  unfold already_registered, mbind, comp_bind at 1. pose proof (client_keeps (GetAccountState (ClientRpc ctx) a LatestBlock) s) as K.
  destruct (client _ s) as [[[as_|e]|[]| |] s2]; cbn [snd] in K; [|by intros [= _ <-]..].
  destruct (0 <? _)%nat; [|by intros [= _ <-]]. unfold client_, mbind, comp_bind. pose proof (client_keeps (key (ClientRpc ctx)) s2) as K2.
  destruct (client _ s2) as [[[k|e]|[]| |] s3]; cbn [snd] in K2; intros [= _ <-]; destruct K, K2; split; congruence.
Qed.

(** C21: Registration of a BLS key is authorised: the key store changes only when the request carries a valid
    key, a fresh time stamp and the signature of the address it names, and then it holds that key for that
    address and every other key as before; an unauthorised request is answered with an error.  An account
    whose key on the chain is the proxy's is left alone. *)
Theorem registration_authorised ctx params id s pks K : PKS ctx = Some pks → ¬ ldb_fault (keys s) → Keyring pks (LevelDB.contents (keys s)) K →
  length (HexToAddress (p_Address params)) = 20 → (∀ n, ∃ nonce, (rand_nonce n).1 = Some nonce ∧ length nonce = nonceSize) →
  let now := (Now (st_net (rpc s))).1 in
  (¬ authorised params now → ∃ r s', processRegisterBlsKeyParams ctx params id s = (Ok r, s') ∧ is_Some (Error_ r) ∧ keys s' = keys s) ∧
  (authorised params now → ∀ o s1, already_registered ctx (HexToAddress (p_Address params)) (after_now s) = (o, s1) →
     keys s1 = keys s ∧
     match o with
     | Ok false => ∃ r s', processRegisterBlsKeyParams ctx params id s = (Ok r, s') ∧ Error_ r = None ∧
                     Keyring pks (LevelDB.contents (keys s')) (<[HexToAddress (p_Address params) := p_BlsPrivateKey params]> K)
     | Ok true => ∃ r, processRegisterBlsKeyParams ctx params id s = (Ok r, s1) ∧ Error_ r = None
     | Panic => processRegisterBlsKeyParams ctx params id s = (Panic, s1)
     | _ => True
     end).
Proof.
  intros Hp Hok HK Hl Hr now. split; [intros Hn; destruct (register_refused ctx params id s Hn) as (r & s' & ? & ? & ? & _); eauto|].
  intros Ha o s1 E. assert (K1 : keys s1 = keys s) by (by apply already_keeps in E as [-> _]). split; [done|].
  rewrite (register_authorised ctx params id s pks) by done. unfold store_key.
  destruct o as [[]|[]| |]; [rewrite (comp_bind_ok _ _ _ _ _ E); by eexists| |unfold mbind, comp_bind; by rewrite E|done].
  rewrite (comp_bind_ok _ _ _ _ _ E). destruct (Hr (st_net (rpc s1))) as (nonce & En & Hn).
  assert (Hk : p_BlsPrivateKey params ≠ EmptyString) by (intros Hk; destruct Ha as [_ [_ Hlen] _ _ _]; by rewrite Hk in Hlen).
  destruct (set_key_ok pks K (keys s) (HexToAddress (p_Address params)) (p_BlsPrivateKey params) nonce) as (k' & Es & HK'); [done..|].
  unfold mbind, comp_bind, ask, put_key. destruct (rand_nonce _) as [rnd n]. cbn [fst] in En. subst rnd.
  cbn [keys with_rpc]. rewrite K1, Es. eauto 10.
Qed.

End Registration.

(** ** Artifacts *)

Lemma HasPrefix_refl s : HasPrefix s s = true.
Proof. induction s; simpl; [done|]. by rewrite decide_True. Qed.

Lemma HasPrefix_eq s p : HasPrefix s p = true → String.length s = String.length p → s = p.
Proof.
  revert s. induction p as [|c p IH]; intros [|d s] Hp Hl; try done. simpl in *. destruct (decide (c = d)) as [->|]; [|done].
  f_equal. apply IH; [done|lia].
Qed.

Lemma HasPrefix_length s p : HasPrefix s p = true → String.length p ≤ String.length s.
Proof.
  revert s. induction p as [|c p IH]; intros [|d s] Hp; simpl in *; try done; [lia..|]. destruct (decide _); [|done]. apply IH in Hp. lia.
Qed.

(** Codes match when, in lower case and without "0x", one begins with the other. *)
Lemma bytecodeMatch_spec d c : bytecodeMatch d c = true ↔ HasPrefix (normalized c) (normalized d) = true ∨ HasPrefix (normalized d) (normalized c) = true.
Proof.
  unfold bytecodeMatch. cbv zeta. generalize (normalized d), (normalized c). intros x y.
  destruct (Nat.eqb_spec (String.length x) (String.length y)) as [E|E].
  - rewrite bool_decide_eq_true. split; [intros ->; left; apply HasPrefix_refl|]. intros [P|P]; [symmetry|]; by apply HasPrefix_eq.
  - destruct (Nat.ltb_spec (String.length x) (String.length y)).
    + split; [by left|]. intros [P|P]; [done|]. apply HasPrefix_length in P. lia.
    + split; [by right|]. intros [P|P]; [|done]. apply HasPrefix_length in P. lia.
Qed.

Section Registry.
Context `{EthCommon} `{EthAddress} `{EthHex} `{EthTypes} `{TxCrypto} `{TxCodec} `{DeviceKeyCodec} `{Blst SK}.
Context `{Proto TransactionHashData} `{Proto pb_CallData} `{Proto pb_DeployData} `{Proto pb_AccountState} `{Proto ArtifactData}.
Context {N KS AS : Type} `{RpcNet N} `{RpcJson} `{EthRpc} `{LevelDBIter KS} `{KeyCipher} `{LevelDBLaws AS} `{!LevelDBReliable AS}.
Context `{ProxyEnv N} `{ProxyJson} `{ProxyEth} `{AbiErrors}.
Context (order order_cache : gmap string ArtifactData → list (string * ArtifactData)) (order_perm : ∀ m, order m ≡ₚ map_to_list m).
Abbreviation St := (App N KS AS).
Abbreviation Store := (CachedBatchWriter AS ArtifactData ArtifactData).
Implicit Types (s : St) (w : Store).

(** What a successful push has checked and done. *)
Theorem push_verified ctx req s r s' : HandlePushArtifact order_cache ctx req s = (Ok r, s') → Error_ r = None →
  ∃ params creation s1 s2 s3 deployed code hash cs created verifiedAt w w' taken,
    raw_push (r_Params req) = inr params ∧ (∃ rest, (CompileBytecodeFromMetadata (pa_Metadata params) (pa_SourceCode params) (st_net (rpc s))).1 = inr (creation, rest)) ∧
    deployOnChain ctx creation s1 = (Ok (inr deployed), s2) ∧ getBytecodeFromChain ctx (pa_ContractAddress params) s2 = (Ok (inr code), s3) ∧
    bytecodeMatch deployed code = true ∧ CalculateBytecodeHash HashHex code = Some hash ∧
    extractCompilerSettingsFromMetadata (pa_Metadata params) = inr cs ∧
    let a := artifact_of params hash cs created verifiedAt in
    SaveArtifact order_cache a w = Some (w', taken) ∧ artifacts s' = Some w' ∧ r = pushed (r_Id req) a.
Proof.
  unfold HandlePushArtifact. intros (sg & s0 & [= <- <-] & E)%pm_bind_ok Hr.
  destruct (artifacts s) as [w0|] eqn:Ea; [|by injection E as <- _].
  destruct (raw_push (r_Params req)) as [e|params]; [by injection E as <- _|].
  destruct (decide _); [by injection E as <- _|]. destruct (decide _); [by injection E as <- _|]. destruct (decide _); [by injection E as <- _|].
  unfold verify_artifact in E. apply pm_bind_ok in E as ([e|[creation rest]] & s1 & Ec & E); [by injection E as <- _|].
  assert (Hc : (CompileBytecodeFromMetadata (pa_Metadata params) (pa_SourceCode params) (st_net (rpc s))).1 = inr (creation, rest)).
  { unfold ask in Ec. destruct (CompileBytecodeFromMetadata _ _ _). by injection Ec as -> _. }
  apply pm_bind_ok in E as ([e|deployed] & s2 & Ed & E); [by injection E as <- _|].
  apply pm_bind_ok in E as ([e|code] & s3 & Eg & E); [by injection E as <- _|].
  destruct (bytecodeMatch deployed code) eqn:Em; [|by injection E as <- _]. unfold register_artifact in E.
  destruct (CalculateBytecodeHash HashHex code) as [hash|] eqn:Eh; [|by injection E as <- _].
  destruct (extractCompilerSettingsFromMetadata _) as [e|cs] eqn:Ex; [by injection E as <- _|].
  apply pm_bind_ok in E as (created & s4 & _ & E). apply pm_bind_ok in E as (verifiedAt & s5 & _ & E).
  apply pm_bind_ok in E as ([] & s6 & Es & E). injection E as <- <-.
  unfold save in Es. destruct (artifacts s5) as [w|]; [|done]. destruct (SaveArtifact _ _ w) as [[w' taken]|] eqn:Esave; [|done]. injection Es as <-.
  eauto 30.
Qed.

(** The goroutine takes one artifact from an empty writer and flushes it. *)
Lemma flush_one a w : writeChan w = [a] → pending w = ∅ → ∃ kvs, artifact_pairs a = Some kvs ∧
  let w' := flush artifact_pairs order (recv ArtifactId artifact_pairs order w) in
  LevelDB.contents (db w') = put_pairs kvs (LevelDB.contents (db w)) ∧ shards w' = shards w.
Proof.
  intros Hq Hp. eexists. split; [done|]. cbv zeta.
  assert (Ho : order {[ArtifactId a := a]} = [(ArtifactId a, a)]) by (apply Permutation_singleton_r; rewrite order_perm; by rewrite map_to_list_singleton).
  unfold recv. rewrite Hq, Hp, insert_empty.
  set (w1 := set_work (db w) [] {[ArtifactId a := a]} w).
  assert (F : LevelDB.contents (db (flush artifact_pairs order w1)) = put_pairs (default [] (artifact_pairs a)) (LevelDB.contents (db w)) ∧
    shards (flush artifact_pairs order w1) = shards w ∧ pending (flush artifact_pairs order w1) = ∅).
  { unfold flush. cbn [pending set_work w1]. rewrite decide_False by apply map_non_empty_singleton. unfold batch_pairs. rewrite Ho.
    destruct (ldb_Write_ok ((λ '(k, v), BPut k v) <$> concat (omap (λ '(_, it), artifact_pairs it) [(ArtifactId a, a)])) (db w) (ldb_reliable _)) as (st & E & Ec).
    cbn [db set_work w1]. rewrite E. cbn [db set_work shards pending]. split_and!; [|done..]. rewrite Ec, apply_puts. cbn [omap list_omap artifact_pairs concat].
    by rewrite app_nil_r. }
  destruct F as (F1 & F2 & F3). destruct (_ <=? _)%Z; [|done].
  unfold flush at 1 3. rewrite F3, !decide_True by done. done.
Qed.

Lemma index_lookup a kvs m k : ContractAddress a ≠ "" → artifact_pairs a = Some kvs →
  put_pairs kvs m !! (PREFIX_ADDRESS_TO_ID +:+ k) = if decide (k = ContractAddress a) then Some (str_bytes (ArtifactId a)) else m !! (PREFIX_ADDRESS_TO_ID +:+ k).
Proof.
  intros Hc [= <-]. rewrite (decide_False (P := ContractAddress a = _)) by done.
  assert (B : ∀ l m', (l = [] ∨ ∃ h v, l = [(PREFIX_BYTECODE_TO_ID +:+ h, v)]) → put_pairs l m' !! (PREFIX_ADDRESS_TO_ID +:+ k) = m' !! (PREFIX_ADDRESS_TO_ID +:+ k)).
  { intros l m' [->|(h & v & ->)]; [done|]. by apply lookup_insert_ne. }
  change (put_pairs (?x :: [?y] ++ ?l) m) with (put_pairs l (put_pairs [x; y] m)). rewrite B by (destruct (decide _); eauto).
  cbn [put_pairs foldl]. destruct (decide (k = ContractAddress a)) as [->|Hk]; [apply lookup_insert_eq|].
  rewrite lookup_insert_ne by (intros E%str_app_inj_l; congruence). by rewrite lookup_insert_ne.
Qed.

(** C26: A pushed artifact serves the error decoder: once the writer has flushed it, a custom error of the
    contract is decoded with the ABI of the metadata, provided the artifact was pushed under the
    checksummed spelling of the address; under any other spelling the decoder does not find it. *)
Theorem pushed_abi_decodes params hash cs created verifiedAt w w' s to rs : let a := artifact_of params hash cs created verifiedAt in
  SaveArtifact order_cache a w = Some (w', true) → length (shards w) = ShardCount → writeChan w = [] → pending w = ∅ →
  pa_ContractAddress params ≠ "" → (∀ r, rest_Abi (rest_Marshal r) = ar_Abi r) →
  artifacts s = Some (flush artifact_pairs order (recv ArtifactId artifact_pairs order w')) → consults_registry rs = true →
  (AddressHex to = pa_ContractAddress params → (decode_error order_cache (AddressHex to) rs s).1 = run_decoder (Some (cs_ABI cs)) (AddressHex to) rs) ∧
  (AddressHex to ≠ pa_ContractAddress params → ldb_Get (PREFIX_ADDRESS_TO_ID +:+ AddressHex to) (db w) = NotFound →
    (decode_error order_cache (AddressHex to) rs s).1 = run_decoder None (AddressHex to) rs).
Proof.
  intros a Hs Hl Hq Hp Hc Hrest Ha Hr. unfold SaveArtifact, Write in Hs. destruct (closed _); [done|]. destruct (decide _); [|done]. injection Hs as <-.
  destruct (flush_one a (set_work (db w) (writeChan w ++ [a]) (pending w) (StoreCache order_cache (ArtifactId a) a w))) as (kvs & Ek & Ec & Esh);
    [by cbn; rewrite Hq|done|].
  unfold decode_error. rewrite Hr, Ha. unfold GetArtifactByAddress, GetArtifactIDByAddress, get_index.
  set (w2 := flush artifact_pairs order _) in *. rewrite (ldb_Get_ok _ (db w2)) by apply ldb_reliable. rewrite Ec, (index_lookup a kvs) by done.
  split.
  - intros E. rewrite decide_True by done. rewrite str_bytes_inv. unfold GetArtifactByID.
    assert (LoadCache (ArtifactId a) w2 = Some a) as ->.
    { unfold LoadCache, getShard. rewrite Esh. exact (load_store order_cache (ArtifactId a) a w Hl). }
    cbn. by rewrite Hrest.
  - intros E Hn. rewrite decide_False by done. rewrite (ldb_Get_ok _ (db w)) in Hn by apply ldb_reliable. cbn [db set_work StoreCache put_shard set_shards].
    by destruct (LevelDB.contents (db w) !! _).
Qed.

(** Without a registry the decoder dereferences a nil pointer on every custom error. *)
Theorem no_registry_panics ctx id decoded s s1 s2 bTx rs : artifacts s2 = None → HasTo decoded = true → has_ErrorDecoder ctx = true →
  build ctx decoded s = (Ok (inl bTx), s1) → client_ (SendCallTransaction (ClientRpc ctx) bTx) s1 = (Ok rs, s2) → consults_registry rs = true →
  chain_call order_cache ctx id decoded s = (Panic, s2).
Proof.
  intros Ha Ht Hd Eb Es Hr. unfold chain_call. rewrite (comp_bind_ok _ _ _ _ _ Eb). rewrite (comp_bind_ok _ _ _ _ _ Es), Ht, Hd.
  assert (Ed : decode_error order_cache (AddressHex (d_ToAddress decoded)) rs s2 = (Panic, s2)) by (unfold decode_error; by rewrite Hr, Ha).
  unfold mbind, comp_bind. cbn [andb]. by rewrite Ed.
Qed.

(** A call with a destination needs two intercepted contracts in the configuration. *)
Theorem eth_call_needs_two ctx c id raw decoded s : Cfg ctx = Some c → length (ContractsInterceptor c) < 2 → DecodeCallObject raw = inr decoded →
  HasTo decoded = true → (∀ a, ContractsInterceptor c = [a] → d_ToAddress decoded ≠ HexToAddress a) →
  processEthCallParams order_cache ctx id raw s = (Panic, s).
Proof.
  intros Hc Hl Hd Ht Hne. unfold processEthCallParams. rewrite Hd. unfold intercepted_call, interceptor, cfg. rewrite Ht, Hc.
  unfold mbind, comp_bind, mret, comp_ret.
  destruct (ContractsInterceptor c) as [|a [|b l]] eqn:E; [done| |simpl in Hl; lia].
  cbn. by rewrite decide_False by (by apply Hne).
Qed.

(** The estimate for an intercepted contract is a constant and asks nobody. *)
Theorem estimate_intercepted ctx raw id decoded s : DecodeCallObject raw = inr decoded → HasTo decoded = true → monitored ctx (d_ToAddress decoded) = true →
  HandleEstimateGasRaw ctx raw id s = (Ok (MakeSuccessResponse id (JString "0x30d40")), s).
Proof. intros Hd Ht Hm. unfold HandleEstimateGasRaw. by rewrite Hd, Ht, Hm. Qed.

End Registry.

(** ** At a concrete node *)

Module ProxyExample.
Import ToyCrypto ToyAddress ToyBls ToyState ToyProto ToyTx ToyDeviceKey ToyCipher.

#[local] Existing Instance RpcExample.node_net.
#[local] Existing Instance RpcExample.node_eth.
#[local] Existing Instance RpcExample.crypto0.
#[local] Existing Instance WriterExample.artifact_proto.
#[local] Existing Instance DecoderExample.no_abi.

(** The account of the user has no BLS key yet. *)
#[local] Instance fresh_json : RpcJson := {|
  json_Marshal r := inr (str_bytes (Method_ r));
  json_Decode b := inr (RpcExample.answer (JObject (rpc_account (NewAccountState toy_sender))));
  json_backendErr _ := None;
|}.

Definition user : string := AddressHex toy_sender.
Definition registration : RegisterBlsKeyParams :=
  {| p_Address := user; p_BlsPrivateKey := "0x" +:+ hex_EncodeToString one; p_Timestamp := "now"; p_Signature := "0x00" |}.
Definition param0 : gjson_result := {| g_Raw := [x01]; g_String := "0x00" |}.

(** A body is the name of its method. *)
#[local] Instance toy_json : ProxyJson := {|
  gjson_Get b path := Some (if decide (path = "method") then {| g_Raw := b; g_String := bytes_str b |} else param0);
  raw_value _ := Some (JNumber 7);
  raw_list _ := Some [[x01]];
  raw_string _ := None;
  raw_request b := Some {| r_Jsonrpc := "2.0"; r_Method := bytes_str b; r_Params := [x01]; r_Id := JNumber 7 |};
  raw_schema _ := inl "no schema";
  raw_register _ := inr registration;
  raw_push _ := inl "no artifact";
  raw_config _ := inl "no metadata";
  marshal_string s := str_bytes s;
  rest_Marshal r := str_bytes (ar_Abi r);
  rest_Abi b := bytes_str b;
|}.

#[local] Instance toy_proxy_eth : ProxyEth := {|
  UnmarshalBinary _ := None; LatestSignerForChainID c := CancunSigner c; IsHexAddress _ := true;
  hexutil_Decode _ := inl "no hex"; Parse_RFC3339Nano _ := None; Parse_RFC3339 _ := Some 1000%Z;
  Ecrecover _ _ := Some [x02]; UnmarshalPubkey b := Some b; PubkeyToAddress _ := HexToAddress user;
  hex_text s := s; sender_text _ := ""; rpc_text _ := ""; pks_text _ := "";
|}.

#[local] Instance toy_env : ProxyEnv nat := {|
  GetAccountHandler n := (None, n); account_HandleEthCall _ _ n := (inr RNil, n); SendHelpPayTransfer _ _ n := (None, n);
  GetRobotHandler n := (None, n); robot_HandleEthCall _ n := (inr RNil, n);
  CompileBytecodeFromMetadata _ _ n := (inl "no compiler", n); Now n := (2000%Z, n); rand_nonce n := (Some (zeros 12), n);
|}.

Definition pks0 : PrivateKeyStore := {| kdfSalt := [x01]; masterPassword := "pw"; appPepper := "pp" |}.
Definition ctx0 : Context_ :=
  {| Cfg := Some {| ContractsInterceptor := []; FreeGas_ := RpcExample.free_gas; ExtraAmount := None |}; ClientRpc := RpcExample.client;
     PKS := Some pks0; has_ErrorDecoder := true |}.
Definition keys0 : gmap string bytes := snd (NewPrivateKeyStore (Some [x01]) "pw" "pp" (∅ : gmap string bytes)).
Definition registry0 : CachedBatchWriter (gmap string bytes) ArtifactData ArtifactData := NewArtifactStorage ∅.
Definition app0 : App nat (gmap string bytes) (gmap string bytes) := {| rpc := RpcExample.start; keys := keys0; artifacts := Some registry0 |}.
Abbreviation order0 := (map_to_list (K:=string) (A:=ArtifactData) (M:=gmap string ArtifactData)).

Definition body0 : bytes := str_bytes "rpc_registerBlsKeyWithSignature".
Definition req0 : JSONRPCRequestRaw := {| r_Jsonrpc := "2.0"; r_Method := "rpc_registerBlsKeyWithSignature"; r_Params := [x01]; r_Id := JNumber 7 |}.


Lemma keyring0 : Keyring pks0 (LevelDB.contents keys0) ∅.
Proof. by destruct (keyring_new (∅ : gmap string bytes) [x01] "pw" "pp" (map_ldb_no_fault _)) as (s' & E & HK); [done..|]; unfold keys0; rewrite E. Qed.

Lemma registration_ok : authorised registration 2000.
Proof.
  split; [done|done| | |].
  - exists one. split; by vm_compute.
  - exists 1000%Z. split; [done|]. by apply Z.leb_le.
  - exists [x00]. split; by vm_compute.
Qed.

Lemma registration_authorised_witness : ∃ r s', processRegisterBlsKeyParams ctx0 registration (JNumber 7) app0 = (Ok r, s') ∧ Error_ r = None ∧
  Keyring pks0 (LevelDB.contents (keys s')) {[HexToAddress user := "0x" +:+ hex_EncodeToString one]}.
Proof.
  destruct (registration_authorised ctx0 registration (JNumber 7) app0 pks0 ∅ eq_refl (map_ldb_no_fault _) keyring0) as [_ A].
  - by vm_compute.
  - intros n. by exists (zeros 12).
  - destruct (A registration_ok (Ok false) {| rpc := {| st_net := 1; st_pool := empty_pool |}; keys := keys0; artifacts := Some registry0 |}) as [_ R].
    + by vm_compute.
    + exact R.
Defined.

(** An artifact of the contract at [toy_sender], and a custom error of it. *)
Definition artifact_params : PushArtifactParams :=
  {| pa_ContractAddress := user; pa_SourceCode := "c"; pa_SourceMap := ""; pa_StorageLayout := ""; pa_Metadata := "m"; pa_VerifyBytecode := true |}.
Definition settings : CompilerSettings := {| SolcVersion := "0.8"; OptimizerSettings := ""; EVMVersion := ""; LinkedLibraries := ""; cs_ABI := "abi" |}.
Definition artifact0 : ArtifactData := artifact_of artifact_params "0xhash" settings 1 1.
Definition saved0 : CachedBatchWriter (gmap string bytes) ArtifactData ArtifactData :=
  match SaveArtifact order0 artifact0 registry0 with Some (w, _) => w | None => registry0 end.
Definition app1 : App nat (gmap string bytes) (gmap string bytes) :=
  {| rpc := RpcExample.start; keys := keys0; artifacts := Some (flush artifact_pairs order0 (recv ArtifactId artifact_pairs order0 saved0)) |}.
Definition custom_error : JSONRPCResponse :=
  {| rs_Jsonrpc := "2.0"; Result := JNull; Error_ := Some (rpcErrorData 3 "execution reverted" "0x11223344"); rs_Id := JNumber 7 |}.

Lemma pushed_abi_decodes_witness : (decode_error order0 (AddressHex toy_sender) custom_error app1).1 = run_decoder (Some "abi") (AddressHex toy_sender) custom_error.
Proof.
  refine (proj1 (pushed_abi_decodes order0 order0 (λ m, Permutation_refl _) artifact_params "0xhash" settings 1 1 registry0 saved0 app1 toy_sender custom_error
    _ _ _ _ _ _ _ _) _).
  - reflexivity.
  - reflexivity.
  - reflexivity.
  - reflexivity.
  - by vm_compute.
  - intros r. apply str_bytes_inv.
  - reflexivity.
  - by vm_compute.
  - reflexivity.
Defined.

End ProxyExample.
