(* ===== verification/ProxyTraffic.v ===== *)
(** * Bodies and WebSocket traffic of the proxy ([cmd/rpc-client/internal/proxy], [utils/memory.go])

    [Body] reads the body of an HTTP request into a growing pooled buffer under a limit, with the bytes of
    all buffers counted by a semaphore.  [Traffic] is one proxied WebSocket connection: two readers, a
    goroutine per message and the main goroutine that waits for an error, interleaved step by step.  The
    body of a request and the two sockets are parameters. *)

From S2P Require Import Prelude GoLib Interfaces LevelDB LdbIter HexCodec Subscriptions WsSubscriptions CachedWriter PrivateKeys AccountState Transaction TcpFlows Bls RpcPayload TransactionTheorems CachedWriterTheorems RpcClient RpcClientTheorems ErrorDecoder Proxy.
From Stdlib Require Import Strings.Byte Strings.Ascii.

(** ** Bodies of requests ([helper.go], [utils/memory.go], [constants/common.go]) *)

Module Body.

Definition MaxRequestBodyBytes : Z := 8 * 2 ^ 20.
Definition MaxInFlightBodyBytes : Z := 5 * 2 ^ 30.

(** [limiter] is the weight held of the semaphore; the first four are the variables of [utils], the others
    the ones of the same names in [constants]. *)
Record BodyStats := {
  limiter : Z; CurrentBodyBytes : Z; PeakBodyBytes : Z; BodyUsageBucket : Z;
  CurrentBodyRequests : Z; CumulativeBodyBytes : Z; CumulativeBodyCount : Z }.

(** A wait on the semaphore. *)
Inductive stuck := Blocked.
Definition BM : Type → Type := comp BodyStats stuck.

Definition set_memory (l c p u : Z) (st : BodyStats) : BodyStats :=
  {| limiter := l; CurrentBodyBytes := c; PeakBodyBytes := p; BodyUsageBucket := u; CurrentBodyRequests := CurrentBodyRequests st;
     CumulativeBodyBytes := CumulativeBodyBytes st; CumulativeBodyCount := CumulativeBodyCount st |}.
Definition set_requests (r b n : Z) (st : BodyStats) : BodyStats :=
  {| limiter := limiter st; CurrentBodyBytes := CurrentBodyBytes st; PeakBodyBytes := PeakBodyBytes st; BodyUsageBucket := BodyUsageBucket st;
     CurrentBodyRequests := r; CumulativeBodyBytes := b; CumulativeBodyCount := n |}.

Definition UpdatePeakBodyBytes (total : Z) (st : BodyStats) : BodyStats :=
  if (total <=? PeakBodyBytes st)%Z then st else set_memory (limiter st) (CurrentBodyBytes st) total (BodyUsageBucket st) st.

(** The log line apart, the tenth of the limit in use. *)
Definition MaybeLogBodyUsage (total : Z) (st : BodyStats) : BodyStats :=
  let percent := if (0 <? total)%Z then Z.quot (total * 100) MaxInFlightBodyBytes else 0%Z in
  set_memory (limiter st) (CurrentBodyBytes st) (PeakBodyBytes st) (Z.quot percent 10) st.

Definition AcquireBodyBytes (n : Z) : BM unit :=
  if (n <=? 0)%Z then mret tt
  else λ st,
    if (limiter st + n <=? MaxInFlightBodyBytes)%Z then
      let total := (CurrentBodyBytes st + n)%Z in
      (Ok tt, MaybeLogBodyUsage total (UpdatePeakBodyBytes total (set_memory (limiter st + n) total (PeakBodyBytes st) (BodyUsageBucket st) st)))
    else (Fail Blocked, st).

(** The semaphore panics when more is released than held. *)
Definition ReleaseBodyBytes (n : Z) : BM unit :=
  if (n <=? 0)%Z then mret tt
  else λ st,
    if (limiter st <? n)%Z then (Panic, st)
    else
      let total := Z.max 0 (CurrentBodyBytes st - n) in
      (Ok tt, MaybeLogBodyUsage total (set_memory (limiter st - n) total (PeakBodyBytes st) (BodyUsageBucket st) st)).

(** [http.Request.Body]: what a read of at most [n] bytes returns; [body_rest] is what is still to come,
    [body_end] how it ends, [body_fuel] a bound on the reads that return no end. *)
Inductive read_end := EOF | Broken.

Class BodyReader (R : Type) := {
  body_Read : nat → R → bytes * option read_end * R;
  body_rest : R → bytes;
  body_end : R → read_end;
  body_fuel : R → nat;
}.

Class BodyReaderLaws (R : Type) `{BodyReader R} : Prop := {
  read_length n r : length (body_Read n r).1.1 ≤ n;
  read_rest n r : body_rest r = (body_Read n r).1.1 ++ body_rest (body_Read n r).2;
  read_same_end n r : body_end (body_Read n r).2 = body_end r;
  read_at_end n r e : (body_Read n r).1.2 = Some e → e = body_end r ∧ body_rest (body_Read n r).2 = [];
  read_progress n r : 0 < n → (body_Read n r).1.2 = None → body_fuel (body_Read n r).2 < body_fuel r;
}.

(** A slice: its bytes and its capacity. *)
Record buffer := { b_data : bytes; b_cap : Z }.

Section Reader.
Context {R : Type} `{BodyReader R}.

(** The larger buffer is acquired before the smaller one is released. *)
Definition grow (b : buffer) (held : Z) : BM (buffer * Z) :=
  let newCap := (let c := (b_cap b * 2)%Z in if (c =? 0)%Z then 4096 else c)%Z in
  let newCap := Z.min newCap MaxRequestBodyBytes in
  _ ← AcquireBodyBytes newCap;
  _ ← ReleaseBodyBytes (b_cap b);
  mret ({| b_data := b_data b; b_cap := newCap |}, held + newCap - b_cap b)%Z.

(** One turn of the loop: the buffer, the bytes held and, unless the loop goes on, its end. *)
Definition turn (b : buffer) (held : Z) (r : R) : BM (buffer * Z * R * option (option body_error)) :=
  let full := (Z.of_nat (length (b_data b)) =? b_cap b)%Z in
  if full && (MaxRequestBodyBytes <=? b_cap b)%Z then mret (b, held, r, Some (Some ErrRequestBodyTooLarge))
  else
    '(b, held) ← (if full then grow b held else mret (b, held));
    let readSize := (b_cap b - Z.of_nat (length (b_data b)))%Z in
    let '(tmp, e, r) := body_Read (Z.to_nat readSize) r in
    let b := {| b_data := b_data b ++ tmp; b_cap := b_cap b |} in
    match e with
    | Some EOF => mret (b, held, r, Some None)
    | Some Broken => mret (b, held, r, Some (Some ErrBodyRead))
    | None => if (length tmp =? 0)%nat && (readSize =? 0)%Z then mret (b, held, r, Some None) else mret (b, held, r, None)
    end.

Fixpoint read_loop (fuel : nat) (b : buffer) (held : Z) (r : R) : BM (buffer * Z * option body_error) :=
  match fuel with
  | O => c_nofuel
  | S fuel =>
      '(b, held, r, e) ← turn b held r;
      match e with Some e => mret (b, held, e) | None => read_loop fuel b held r end
  end.

(** [release]: the capacity of the slice that goes back into the pool. *)
Definition release (held : Z) (counted : bool) (b : buffer) : BM Z :=
  _ ← ReleaseBodyBytes held;
  _ ← (if counted then c_modify (λ st, set_requests (CurrentBodyRequests st - 1) (CumulativeBodyBytes st) (CumulativeBodyCount st) st) else mret tt);
  mret (if (256 * 1024 <? b_cap b)%Z then 16 * 1024 else b_cap b)%Z.

(** The counters of a body that was read; the number of requests is increased twice. *)
Definition count (size : Z) (st : BodyStats) : BodyStats :=
  MaybeLogBodyUsage 0 (set_requests (CurrentBodyRequests st + 1 + 1) (CumulativeBodyBytes st + size) (CumulativeBodyCount st + 1) st).

(** With a pooled slice of capacity [pooled]: the error, after [release]; or the body with what its
    [release] needs. *)
Definition ReadBodyWithLimit (fuel : nat) (pooled : Z) (r : R) : BM (body_error + bytes * (buffer * Z)) :=
  _ ← AcquireBodyBytes pooled;
  '(b, held, e) ← read_loop fuel {| b_data := []; b_cap := pooled |} pooled r;
  match e with
  | Some e => _ ← release held false b; mret (inl e)
  | None => _ ← c_modify (count (Z.of_nat (length (b_data b)))); mret (inr (b_data b, (b, held)))
  end.

End Reader.

(** *** Facts *)

Section Facts.
Context {R : Type} `{BodyReaderLaws R}.
Implicit Types (st : BodyStats) (r : R).

(** [L] and [C] are the weight and the bytes that the other requests hold. *)
Definition holds (L C : Z) (n : Z) (st : BodyStats) : Prop := limiter st = (L + n)%Z ∧ CurrentBodyBytes st = (C + n)%Z.

Lemma acquire_ok L C n k st : (0 ≤ k)%Z → (L + n + k ≤ MaxInFlightBodyBytes)%Z → holds L C n st →
  ∃ st', AcquireBodyBytes k st = (Ok tt, st') ∧ holds L C (n + k) st' ∧ CurrentBodyRequests st' = CurrentBodyRequests st ∧
    CumulativeBodyBytes st' = CumulativeBodyBytes st ∧ CumulativeBodyCount st' = CumulativeBodyCount st.
Proof.
  intros Hk Hm [Hl Hc]. unfold AcquireBodyBytes. destruct (Z.leb_spec k 0).
  { exists st. split; [done|]. unfold holds. split; [lia|done]. }
  destruct (Z.leb_spec (limiter st + k) MaxInFlightBodyBytes); [|lia]. eexists. split; [done|]. unfold MaybeLogBodyUsage, UpdatePeakBodyBytes, holds.
  destruct (_ <=? _)%Z; cbn; split_and!; (lia || done).
Qed.

Lemma release_ok L C n k st : (0 ≤ L)%Z → (0 ≤ C)%Z → (0 ≤ k ≤ n)%Z → holds L C n st →
  ∃ st', ReleaseBodyBytes k st = (Ok tt, st') ∧ holds L C (n - k) st' ∧ CurrentBodyRequests st' = CurrentBodyRequests st ∧
    CumulativeBodyBytes st' = CumulativeBodyBytes st ∧ CumulativeBodyCount st' = CumulativeBodyCount st.
Proof.
  intros HL HC Hk [Hl Hc]. unfold ReleaseBodyBytes. destruct (Z.leb_spec k 0).
  { exists st. split; [done|]. unfold holds. split; [lia|done]. }
  destruct (Z.ltb_spec (limiter st) k); [lia|]. eexists. split; [done|]. unfold MaybeLogBodyUsage, holds. cbn. split_and!; (lia || done).
Qed.

(** The counters the memory accounting leaves alone. *)
Definition same_counts st st' : Prop :=
  CurrentBodyRequests st' = CurrentBodyRequests st ∧ CumulativeBodyBytes st' = CumulativeBodyBytes st ∧ CumulativeBodyCount st' = CumulativeBodyCount st.

Lemma grow_ok L C b st : (0 ≤ L)%Z → (0 ≤ C)%Z → (0 ≤ b_cap b < MaxRequestBodyBytes)%Z → (L + 2 * MaxRequestBodyBytes ≤ MaxInFlightBodyBytes)%Z →
  holds L C (b_cap b) st → ∃ cap st', grow b (b_cap b) st = (Ok ({| b_data := b_data b; b_cap := cap |}, cap), st') ∧
    (b_cap b < cap ≤ MaxRequestBodyBytes)%Z ∧ holds L C cap st' ∧ same_counts st st'.
Proof.
  intros HL HC Hb Hm Hh. unfold grow. set (cap := Z.min _ MaxRequestBodyBytes).
  assert (Hcap : (b_cap b < cap ≤ MaxRequestBodyBytes)%Z).
  { unfold cap, MaxRequestBodyBytes in *. destruct (Z.eqb_spec (b_cap b * 2) 0); lia. }
  destruct (acquire_ok L C (b_cap b) cap st) as (s1 & E1 & G1 & ? & ? & ?); [lia..|done|].
  destruct (release_ok L C (b_cap b + cap) (b_cap b) s1) as (s2 & E2 & G2 & ? & ? & ?); [lia..|done|].
  rewrite (comp_bind_ok _ _ _ _ _ E1), (comp_bind_ok _ _ _ _ _ E2). exists cap, s2. unfold same_counts. split_and!; try (lia || congruence).
  - unfold mret, comp_ret. do 3 f_equal. lia.
  - by replace cap with (b_cap b + cap - b_cap b)%Z by lia.
Qed.

(** A turn keeps the bytes held equal to the capacity, and reads on or ends for a reason. *)
Lemma turn_ok L C b r st : (0 ≤ L)%Z → (0 ≤ C)%Z → (Z.of_nat (length (b_data b)) ≤ b_cap b ≤ MaxRequestBodyBytes)%Z →
  (L + 2 * MaxRequestBodyBytes ≤ MaxInFlightBodyBytes)%Z → holds L C (b_cap b) st →
  ∃ b' r' e st', turn b (b_cap b) r st = (Ok (b', b_cap b', r', e), st') ∧ (Z.of_nat (length (b_data b')) ≤ b_cap b' ≤ MaxRequestBodyBytes)%Z ∧
    holds L C (b_cap b') st' ∧ same_counts st st' ∧ body_end r' = body_end r ∧ b_data b' ++ body_rest r' = b_data b ++ body_rest r ∧
    match e with
    | None => body_fuel r' < body_fuel r
    | Some None => body_end r = EOF ∧ body_rest r' = []
    | Some (Some ErrBodyRead) => body_end r = Broken ∧ body_rest r' = []
    | Some (Some ErrRequestBodyTooLarge) => Z.of_nat (length (b_data b')) = MaxRequestBodyBytes
    end.
Proof.
  intros HL HC Hb Hm Hh. unfold turn. set (full := (Z.of_nat (length (b_data b)) =? b_cap b)%Z).
  destruct (full && (MaxRequestBodyBytes <=? b_cap b)%Z) eqn:Ef.
  { apply andb_true_iff in Ef as [Ef1%Z.eqb_eq Ef2%Z.leb_le]. exists b, r, (Some (Some ErrRequestBodyTooLarge)), st. unfold same_counts. split_and!; (lia || done). }
  assert (G : ∃ cap st1, (if full then grow b (b_cap b) else mret (b, b_cap b)) st = (Ok ({| b_data := b_data b; b_cap := cap |}, cap), st1) ∧
    (Z.of_nat (length (b_data b)) < cap ≤ MaxRequestBodyBytes)%Z ∧ holds L C cap st1 ∧ same_counts st st1).
  { unfold full in *. destruct (Z.eqb_spec (Z.of_nat (length (b_data b))) (b_cap b)) as [Eq|Ne].
    - cbn in Ef. apply Z.leb_gt in Ef. destruct (grow_ok L C b st) as (cap & st1 & E & ? & ? & ?); [lia..|done|]. exists cap, st1. split_and!; (lia || done).
    - exists (b_cap b), st. split; [by destruct b|]. unfold same_counts. split_and!; (lia || done). }
  destruct G as (cap & st1 & E & Hcap & Hh1 & Hs). rewrite (comp_bind_ok _ _ _ _ _ E). cbn [b_data b_cap].
  set (n := Z.to_nat (cap - Z.of_nat (length (b_data b)))).
  pose proof (read_length n r) as Q1. pose proof (read_rest n r) as Q2. pose proof (read_same_end n r) as Q3.
  pose proof (read_at_end n r) as Q4. pose proof (read_progress n r) as Q5.
  destruct (body_Read n r) as [[tmp e] r']. cbn [fst snd] in *.
  assert (Hlen : (Z.of_nat (length (b_data b ++ tmp)) ≤ cap)%Z) by (rewrite length_app; unfold n in Q1; lia).
  assert (Happ : (b_data b ++ tmp) ++ body_rest r' = b_data b ++ body_rest r) by (by rewrite <- app_assoc, <- Q2).
  set (b' := {| b_data := b_data b ++ tmp; b_cap := cap |}).
  destruct e as [[]|].
  - destruct (Q4 _ eq_refl) as [? ?]. exists b', r', (Some None), st1. split_and!; cbn; (lia || done || congruence).
  - destruct (Q4 _ eq_refl) as [? ?]. exists b', r', (Some (Some ErrBodyRead)), st1. split_and!; cbn; (lia || done || congruence).
  - rewrite (proj2 (Z.eqb_neq _ _)), andb_false_r by lia. exists b', r', None, st1.
    split_and!; cbn; (lia || done || congruence || (apply Q5; [unfold n; lia|done])).
Qed.

Lemma read_loop_ok fuel : ∀ L C b r st, body_fuel r < fuel → (0 ≤ L)%Z → (0 ≤ C)%Z → (Z.of_nat (length (b_data b)) ≤ b_cap b ≤ MaxRequestBodyBytes)%Z →
  (L + 2 * MaxRequestBodyBytes ≤ MaxInFlightBodyBytes)%Z → holds L C (b_cap b) st →
  ∃ b' e st', read_loop fuel b (b_cap b) r st = (Ok (b', b_cap b', e), st') ∧ holds L C (b_cap b') st' ∧ (0 ≤ b_cap b' ≤ MaxRequestBodyBytes)%Z ∧
    same_counts st st' ∧
    match e with
    | None => body_end r = EOF ∧ b_data b' = b_data b ++ body_rest r ∧ (Z.of_nat (length (b_data b ++ body_rest r)) ≤ MaxRequestBodyBytes)%Z
    | Some ErrBodyRead => body_end r = Broken ∧ (Z.of_nat (length (b_data b ++ body_rest r)) ≤ MaxRequestBodyBytes)%Z
    | Some ErrRequestBodyTooLarge => (MaxRequestBodyBytes ≤ Z.of_nat (length (b_data b ++ body_rest r)))%Z
    end.
Proof.
  induction fuel as [|fuel IH]; intros L C b r st Hf HL HC Hb Hm Hh; [lia|]. cbn [read_loop].
  destruct (turn_ok L C b r st) as (b1 & r1 & e & st1 & E & Hb1 & Hh1 & Hs1 & He & Happ & Hx); [done..|]. rewrite (comp_bind_ok _ _ _ _ _ E).
  destruct e as [e|].
  - exists b1, e, st1. split; [done|]. split; [done|]. split; [lia|]. split; [done|]. rewrite <- Happ.
    destruct e as [[]|].
    + rewrite length_app. lia.
    + destruct Hx as [? Hr]. rewrite Hr, app_nil_r. split; [done|lia].
    + destruct Hx as [? Hr]. rewrite Hr, app_nil_r. split_and!; (done || lia).
  - destruct (IH L C b1 r1 st1) as (b2 & e2 & st2 & E2 & Hh2 & Hb2 & Hs2 & Hx2); [lia|done..|].
    exists b2, e2, st2. rewrite E2. unfold same_counts in *. rewrite <- Happ, <- He. split_and!; (done || lia || naive_solver congruence).
Qed.

(** C25: Bodies are read whole, below the limit only, and their memory is given back: a body shorter than the
    limit is returned unchanged, a longer one refused, a broken one an error, with fuel for its reads; after
    the error, or after the body's release, this request holds nothing of the semaphore. *)
Theorem bodies_bounded fuel pooled r st L C : (0 ≤ L)%Z → (0 ≤ C)%Z → holds L C 0 st → (0 ≤ pooled ≤ MaxRequestBodyBytes)%Z →
  (L + 2 * MaxRequestBodyBytes ≤ MaxInFlightBodyBytes)%Z → body_fuel r < fuel →
  let n := Z.of_nat (length (body_rest r)) in
  ∃ o st', ReadBodyWithLimit fuel pooled r st = (Ok o, st') ∧
    ((n < MaxRequestBodyBytes)%Z → body_end r = EOF → ∃ x, o = inr (body_rest r, x)) ∧
    ((n < MaxRequestBodyBytes)%Z → body_end r = Broken → o = inl ErrBodyRead) ∧
    ((MaxRequestBodyBytes < n)%Z → o = inl ErrRequestBodyTooLarge) ∧
    match o with
    | inl _ => holds L C 0 st'
    | inr (_, (b, held)) => holds L C held st' ∧ CurrentBodyRequests st' = (CurrentBodyRequests st + 2)%Z ∧
        ∃ cap st'', release held true b st' = (Ok cap, st'') ∧ holds L C 0 st'' ∧ CurrentBodyRequests st'' = (CurrentBodyRequests st + 1)%Z
    end.
Proof.
  intros HL HC Hh Hp Hm Hf n. unfold ReadBodyWithLimit.
  destruct (acquire_ok L C 0 pooled st) as (s1 & E1 & G1 & R1 & ? & ?); [lia|unfold MaxRequestBodyBytes in *; lia|done|].
  rewrite (comp_bind_ok _ _ _ _ _ E1).
  destruct (read_loop_ok fuel L C {| b_data := []; b_cap := pooled |} r s1) as (b & e & s2 & E2 & G2 & Hb & (Rq & _) & Hx); [done|done|done|cbn; lia|done|done|].
  cbn [b_cap b_data app] in E2, Hx. rewrite (comp_bind_ok _ _ _ _ _ E2). destruct e as [e|].
  - destruct (release_ok L C (b_cap b) (b_cap b) s2) as (s3 & E3 & G3 & _); [lia..|done|].
    rewrite Z.sub_diag in G3. exists (inl e), s3. split.
    { unfold release, mbind, comp_bind. by rewrite E3. }
    split; [intros ? He; exfalso; destruct e; [lia|destruct Hx; congruence]|].
    split; [intros ? _; destruct e; [lia|done]|]. split; [intros ?; destruct e; [done|lia]|done].
  - destruct Hx as (He & Hd & Hn). eexists _, _. split; [done|].
    split; [intros _ _; eexists; by rewrite Hd|]. split; [congruence|]. split; [lia|].
    unfold holds, count, MaybeLogBodyUsage in *. cbn. split; [done|]. split; [lia|].
    unfold release, mbind, comp_bind.
    match goal with |- context [ReleaseBodyBytes _ ?st] => destruct (release_ok L C (b_cap b) (b_cap b) st) as (s3 & E3 & G3 & R3 & _); [lia..|split; cbn; lia|] end.
    rewrite E3. eexists _, _. split; [done|]. rewrite Z.sub_diag in G3. destruct G3. cbn in R3 |- *. split_and!; (done || lia).
Qed.

(** Growing holds the old buffer while it waits for the new one: when the memory is full of buffers that
    are full themselves, no request can go on and none of them releases anything.  1280 bodies that have
    reached four of the eight megabytes allowed are enough. *)
Theorem full_memory_deadlocks fuel b held r st : limiter st = MaxInFlightBodyBytes → Z.of_nat (length (b_data b)) = b_cap b →
  (b_cap b < MaxRequestBodyBytes)%Z → read_loop (S fuel) b held r st = (Fail Blocked, st).
Proof.
  intros Hl Hf Hc. cbn [read_loop]. unfold turn. rewrite Hf, Z.eqb_refl. destruct (Z.leb_spec MaxRequestBodyBytes (b_cap b)); [lia|]. cbn [andb].
  unfold grow, AcquireBodyBytes. set (cap := Z.min _ MaxRequestBodyBytes).
  assert (0 < cap)%Z by (unfold cap, MaxRequestBodyBytes; destruct (Z.eqb_spec (b_cap b * 2) 0); lia).
  destruct (Z.leb_spec cap 0); [lia|]. unfold mbind, comp_bind. rewrite Hl. destruct (Z.leb_spec (MaxInFlightBodyBytes + cap) MaxInFlightBodyBytes); [lia|done].
Qed.

Lemma full_memory_reachable : (1280 * (4 * 2 ^ 20) = MaxInFlightBodyBytes)%Z.
Proof. done. Qed.

End Facts.

(** A body in memory; its end comes with the last bytes. *)
#[local] Instance memory_body : BodyReader bytes := {|
  body_Read n r := (take n r, if decide (drop n r = []) then Some EOF else None, drop n r);
  body_rest r := r; body_end _ := EOF; body_fuel r := length r;
|}.

#[local] Instance memory_body_laws : BodyReaderLaws bytes.
Proof.
  split; cbn.
  - intros n r. rewrite length_take. lia.
  - intros n r. by rewrite take_drop.
  - done.
  - intros n r e. destruct (decide _); [by intros [= <-]|done].
  - intros n r Hn. destruct (decide _) as [|Hd]; [done|]. intros _. destruct r as [|x r]; [by destruct Hd; destruct n|]. rewrite length_drop. cbn. lia.
Qed.

Definition idle : BodyStats :=
  {| limiter := 0; CurrentBodyBytes := 0; PeakBodyBytes := 0; BodyUsageBucket := 0; CurrentBodyRequests := 0; CumulativeBodyBytes := 0; CumulativeBodyCount := 0 |}.

Lemma bodies_bounded_witness : ∃ x st', ReadBodyWithLimit 4 16384 [x7b; x7d] idle = (Ok (inr ([x7b; x7d], x)), st').
Proof.
  destruct (bodies_bounded 4 16384 [x7b; x7d] idle 0 0) as (o & st' & E & R & _);
    [done|done|by split|by split|by vm_compute|cbn; lia|].
  destruct R as [x ->]; [by vm_compute|reflexivity|]. exists x, st'. exact E.
Defined.

End Body.

(** ** A proxied WebSocket ([ws_handler.go], [ws_interceptor_helper.go], [ws_writer.go]) *)

Module Traffic.

(** An error of a socket: whether it is [io.EOF], the code of a close frame, its text. *)
Record ws_error := { we_eof : bool; we_code : option Z; we_text : string }.

Definition isExpectedCloseError (e : ws_error) : bool :=
  we_eof e
  || match we_code e with Some c => bool_decide (c ∈ [1000; 1001; 1006; 1005]%Z) | None => false end
  || Contains (we_text e) "client read error" || Contains (we_text e) "client write error".

(** [fmt.Errorf("...: %w", err)], which is neither [io.EOF] nor a close error. *)
Definition wrap_error (prefix : string) (e : ws_error) : ws_error := {| we_eof := false; we_code := None; we_text := prefix +:+ ": " +:+ we_text e |}.

(** What is written to the client. *)
Inductive to_client :=
  | CResponse (r : JSONRPCResponse) | CRaw (mType : Z) (message : bytes)
  | CError (id : json) (code : Z) (message : string) | CSubscribed (id : json) (subID : string) | CClose (code : Z) (text : string).

(** *** Opening *)

(** The response of a server that did not switch protocols. *)
Record dial_response := { d_Status : string; d_StatusCode : Z; d_Body : string }.

Definition handleDialError (err targetURL : string) (resp : option dial_response) : string :=
  match resp with
  | None => "Could not connect to target WebSocket " +:+ targetURL +:+ ": " +:+ err
  | Some r =>
      if (d_StatusCode r =? 200)%Z then
        "WebSocket handshake error: Target server returned HTTP 200 OK, not a WebSocket upgrade. Check WSS URL path in config."
      else if (500 <=? d_StatusCode r)%Z then "Upstream server error (HTTP " +:+ big_String (d_StatusCode r) +:+ "): " +:+ d_Body r
      else if (400 <=? d_StatusCode r)%Z then "Client/config error (HTTP " +:+ big_String (d_StatusCode r) +:+ "): " +:+ d_Body r
      else "Target WebSocket handshake failed with HTTP status " +:+ d_Status r +:+ ". Server responded with: " +:+ d_Body r
  end.

Inductive opening := NotUpgraded | Refused (m : to_client) | Proxied.

(** [ServeWebSocketWithInterceptor] and [ServeWebSocketWithoutInterceptor] up to the traffic; [dial] is the
    error of dialling the upstream server. *)
Definition serve_websocket (upgraded : bool) (targetURL : string) (dial : option (string * option dial_response)) : opening :=
  if negb upgraded then NotUpgraded
  else if decide (targetURL = "") then Refused (CClose 1011 "Target WebSocket URL not configured")
  else match dial with
       | Some (e, resp) => Refused (CClose 1001 ("Failed to connect to upstream: " +:+ handleDialError e targetURL resp))
       | None => Proxied
       end.

(** The reason of a close frame has at most 123 bytes (RFC 6455), and the library refuses a longer one, so
    a client is not told that its server answered 200. *)
Lemma close_reason_too_long e targetURL r : targetURL ≠ "" → d_StatusCode r = 200%Z → ∃ text,
  serve_websocket true targetURL (Some (e, Some r)) = Refused (CClose 1001 text) ∧ 123 < String.length text.
Proof.
  intros Hu Hr. unfold serve_websocket, handleDialError. rewrite Hr. cbn [negb]. rewrite decide_False by done. eexists. split; [reflexivity|]. vm_compute. lia.
Qed.

(** *** [TriggerFakePingEvent] *)

Definition PingEventHash : string := "0xa08082c7663f884e3c4d325ad1de149f6e167a84556be205103c16b1595d22cc".

Definition ping_event (contractAddr : string) (id : Z) (packedData : bytes) : gmap string jval :=
  list_to_map [("address", Subscriptions.JString contractAddr);
    ("topics", JStrings [PingEventHash; "0x" +:+ hex_EncodeToString (be_bytes 32 id)]);
    ("data", Subscriptions.JString ("0x" +:+ hex_EncodeToString packedData)); ("blockNumber", Subscriptions.JString "0x3DF");
    ("transactionHash", Subscriptions.JString PingEventHash); ("blockHash", Subscriptions.JString PingEventHash);
    ("logIndex", Subscriptions.JString "0x0"); ("transactionIndex", Subscriptions.JString "0x0"); ("removed", Subscriptions.JBool false)].

(** [Pack] is the ABI's; [None] is its error. *)
Definition TriggerFakePingEvent (Pack : string → option bytes) marshal iter_ws iter_tcp (contractAddr : string) (id : Z) (message : string)
    (sm : Ws.SubscriptionInterceptor) : option (list Ws.ws_message * list (conn_id * bytes)) :=
  packedData ← Pack message;
  Some (Ws.BroadcastEventToContract marshal iter_ws iter_tcp contractAddr [PingEventHash] (ping_event contractAddr id packedData) sm).

(** *** [HandleSubscribeRequest] *)

Inductive subscribe_action := SubError (message : string) | SubForward | SubCreate (addrs topics : list string).

Definition string_items (l : list json) : list string := omap (λ j, match j with JString s => Some s | _ => None end) l.

Definition subscribe_addresses (filter : list (string * json)) : list string :=
  match json_get "address" filter with JString a => [a] | JArray l => string_items l | _ => [] end.

(** The first alternative of each topic. *)
Definition subscribe_topics (filter : list (string * json)) : list string :=
  match json_get "topics" filter with
  | JArray l => omap (λ t, match t with JArray (JString s :: _) => Some s | _ => None end) l
  | _ => []
  end.

(** *** State *)

(** What the goroutine of a request does when its answer cannot be written: report it on the error channel,
    tell the client (the error of a subscription), or nothing. *)
Inductive on_failure := FReport | FRetry | FIgnore.

(** The goroutine of a request or of a message, by what it does next; [TSend] waits for the error channel
    or [quit], and then may have one more message to write. *)
Inductive task :=
  | TRequest (req : JSONRPCRequestRaw)
  | TAnswer (req : JSONRPCRequestRaw) (m : to_client) (f : on_failure)
  | TUpstream (req : JSONRPCRequestRaw) (subscribe : bool)
  | TForward (mType : Z) (message : bytes)
  | TSend (e : ws_error) (after : option to_client)
  | TNotify (m : to_client).

Inductive reader := RRun | RSend (e : ws_error) | REnd.
Inductive main := MWait | MClosing | MEnd.

(** What became of the requests and of the messages is recorded besides the state of the code. *)
Record Conn (A : Type) := {
  app : A; subs : Ws.SubscriptionInterceptor;
  c_reader : reader; u_reader : reader; tasks : list task;
  errChan : list ws_error; quit : bool; c_main : main;
  client_out : list to_client; up_out : list JSONRPCRequestRaw;
  read_reqs : list JSONRPCRequestRaw; read_msgs : list (Z * bytes);
  answered : list JSONRPCRequestRaw; lost_reqs : list JSONRPCRequestRaw; lost_msgs : list (Z * bytes);
}.
Arguments app {A} _.
Arguments subs {A} _.
Arguments c_reader {A} _.
Arguments u_reader {A} _.
Arguments tasks {A} _.
Arguments errChan {A} _.
Arguments quit {A} _.
Arguments c_main {A} _.
Arguments client_out {A} _.
Arguments up_out {A} _.
Arguments read_reqs {A} _.
Arguments read_msgs {A} _.
Arguments answered {A} _.
Arguments lost_reqs {A} _.
Arguments lost_msgs {A} _.

Section Connection.
(** [json.Unmarshal] of the parameters, and the texts of the errors. *)
Context (parse_params : bytes → string + list json) (validate_text : Ws.validate_error → string).

Definition HandleSubscribeRequest (sm : Ws.SubscriptionInterceptor) (params : bytes) : subscribe_action :=
  match parse_params params with
  | inl e => SubError ("failed to parse subscribe params: " +:+ e)
  | inr (_ :: JObject filterMap :: _) =>
      match subscribe_addresses filterMap with
      | [] => SubForward
      | contractAddrs =>
          match Ws.ValidateSubscriptionAddresses contractAddrs sm with
          | (_, Some e) => SubError (validate_text e)
          | (true, None) => SubCreate contractAddrs (subscribe_topics filterMap)
          | (false, None) => SubForward
          end
      end
  | inr (_ :: _ :: _) => SubError "invalid filter format: expected object"
  | inr _ => SubError "invalid eth_subscribe params: expected at least 2 params"
  end.

Context {A : Type} (route : JSONRPCRequestRaw → comp A Empty_set (option JSONRPCResponse)).
(** The socket of the client, its writer, and whether the connection has the interceptor. *)
Context (conn : conn_id) (writer : positive) (intercept : bool).
Implicit Types s : Conn A.

Definition start (a : A) (sm : Ws.SubscriptionInterceptor) : Conn A :=
  {| app := a; subs := sm; c_reader := RRun; u_reader := RRun; tasks := []; errChan := []; quit := false; c_main := MWait;
     client_out := []; up_out := []; read_reqs := []; read_msgs := []; answered := []; lost_reqs := []; lost_msgs := [] |}.

Definition set_state (a : A) (sm : Ws.SubscriptionInterceptor) s : Conn A :=
  {| app := a; subs := sm; c_reader := c_reader s; u_reader := u_reader s; tasks := tasks s; errChan := errChan s; quit := quit s; c_main := c_main s;
     client_out := client_out s; up_out := up_out s; read_reqs := read_reqs s; read_msgs := read_msgs s; answered := answered s;
     lost_reqs := lost_reqs s; lost_msgs := lost_msgs s |}.
Definition set_readers (c u : reader) s : Conn A :=
  {| app := app s; subs := subs s; c_reader := c; u_reader := u; tasks := tasks s; errChan := errChan s; quit := quit s; c_main := c_main s;
     client_out := client_out s; up_out := up_out s; read_reqs := read_reqs s; read_msgs := read_msgs s; answered := answered s;
     lost_reqs := lost_reqs s; lost_msgs := lost_msgs s |}.
Definition set_tasks (l : list task) s : Conn A :=
  {| app := app s; subs := subs s; c_reader := c_reader s; u_reader := u_reader s; tasks := l; errChan := errChan s; quit := quit s; c_main := c_main s;
     client_out := client_out s; up_out := up_out s; read_reqs := read_reqs s; read_msgs := read_msgs s; answered := answered s;
     lost_reqs := lost_reqs s; lost_msgs := lost_msgs s |}.
Definition set_main (ch : list ws_error) (q : bool) (m : main) s : Conn A :=
  {| app := app s; subs := subs s; c_reader := c_reader s; u_reader := u_reader s; tasks := tasks s; errChan := ch; quit := q; c_main := m;
     client_out := client_out s; up_out := up_out s; read_reqs := read_reqs s; read_msgs := read_msgs s; answered := answered s;
     lost_reqs := lost_reqs s; lost_msgs := lost_msgs s |}.
Definition set_out (c : list to_client) (u : list JSONRPCRequestRaw) s : Conn A :=
  {| app := app s; subs := subs s; c_reader := c_reader s; u_reader := u_reader s; tasks := tasks s; errChan := errChan s; quit := quit s; c_main := c_main s;
     client_out := c; up_out := u; read_reqs := read_reqs s; read_msgs := read_msgs s; answered := answered s;
     lost_reqs := lost_reqs s; lost_msgs := lost_msgs s |}.
Definition set_read (r : list JSONRPCRequestRaw) (m : list (Z * bytes)) s : Conn A :=
  {| app := app s; subs := subs s; c_reader := c_reader s; u_reader := u_reader s; tasks := tasks s; errChan := errChan s; quit := quit s; c_main := c_main s;
     client_out := client_out s; up_out := up_out s; read_reqs := r; read_msgs := m; answered := answered s;
     lost_reqs := lost_reqs s; lost_msgs := lost_msgs s |}.
Definition set_fate (a l : list JSONRPCRequestRaw) (m : list (Z * bytes)) s : Conn A :=
  {| app := app s; subs := subs s; c_reader := c_reader s; u_reader := u_reader s; tasks := tasks s; errChan := errChan s; quit := quit s; c_main := c_main s;
     client_out := client_out s; up_out := up_out s; read_reqs := read_reqs s; read_msgs := read_msgs s; answered := a;
     lost_reqs := l; lost_msgs := m |}.

(** *** Steps *)

(** A write returns nil or an error. *)
Abbreviation written := (option ws_error).

Definition write_client (m : to_client) s : Conn A := set_out (client_out s ++ [m]) (up_out s) s.

(** [select { case errChan <- e: case <-quit: }], when one of the two is ready; the first if both are and
    [choose]. *)
Definition send (choose : bool) (e : ws_error) s : option (Conn A) :=
  if (length (errChan s) <? 2)%nat && (choose || negb (quit s)) then Some (set_main (errChan s ++ [e]) (quit s) (c_main s) s)
  else if quit s then Some s
  else None.

(** [proxyClientToUpstream] and its variant without the interceptor, around one read. *)
Definition client_read (r : ws_error + JSONRPCRequestRaw) s : option (Conn A) :=
  match c_reader s with
  | RRun =>
      match r with
      | inr req => Some (set_read (read_reqs s ++ [req]) (read_msgs s) (set_tasks (tasks s ++ [TRequest req]) s))
      | inl e => Some (set_readers (if isExpectedCloseError e then REnd else RSend (wrap_error "client read error" e)) (u_reader s) s)
      end
  | _ => None
  end.

(** [proxyUpstreamToClient] *)
Definition upstream_read (r : ws_error + Z * bytes) s : option (Conn A) :=
  match u_reader s with
  | RRun =>
      match r with
      | inr (mType, message) => Some (set_read (read_reqs s) (read_msgs s ++ [(mType, message)]) (set_tasks (tasks s ++ [TForward mType message]) s))
      | inl e => Some (set_readers (c_reader s) (if isExpectedCloseError e then REnd else RSend (wrap_error "upstream read error" e)) s)
      end
  | _ => None
  end.

(** A reader at the top of its loop, or at its send. *)
Definition reader_step (client choose : bool) s : option (Conn A) :=
  let put r s := if client then set_readers r (u_reader s) s else set_readers (c_reader s) r s in
  match (if client then c_reader s else u_reader s) with
  | RRun => if quit s then Some (put REnd s) else None
  | RSend e => s' ← send choose e s; Some (put REnd s')
  | REnd => None
  end.

(** The goroutine of a request up to its write; [None] when a panic without the interceptor ends it. *)
Definition handle_request (rnd : bytes) (req : JSONRPCRequestRaw) s : option task * Conn A :=
  if intercept && bool_decide (r_Method req = "eth_subscribe") then
    match HandleSubscribeRequest (subs s) (r_Params req) with
    | SubError e => (Some (TAnswer req (CError (r_Id req) (-32602) e) FIgnore), s)
    | SubForward => (Some (TUpstream req true), s)
    | SubCreate addrs topics =>
        let '(sm, subID) := Ws.CreateSubscription conn writer addrs topics rnd (subs s) in
        (Some (TAnswer req (CSubscribed (r_Id req) subID) FRetry), set_state (app s) sm s)
    end
  else
    let sm := if intercept && bool_decide (r_Method req = "eth_unsubscribe") then Ws.RemoveByConnection conn (subs s) else subs s in
    match route req (app s) with
    | (Ok (Some r), a) => (Some (TAnswer req (CResponse r) FReport), set_state a sm s)
    | (Ok None, a) => (Some (TUpstream req false), set_state a sm s)
    | (_, a) =>
        let s := set_state a sm s in
        if intercept then (Some (TAnswer req (CError (r_Id req) (-32603) "Internal server error") FIgnore), s)
        else (None, set_fate (answered s) (lost_reqs s ++ [req]) (lost_msgs s) s)
    end.

(** The next action of a task, where a write returns [w]; the result is what is left of it. *)
Definition run_task (rnd : bytes) (w : written) (choose : bool) (t : task) s : option (option task * Conn A) :=
  match t with
  | TRequest req => Some (handle_request rnd req s)
  | TAnswer req m f =>
      match w with
      | None => Some (None, set_fate (answered s ++ [req]) (lost_reqs s) (lost_msgs s) (write_client m s))
      | Some e =>
          Some (match f with
                | FReport => Some (TSend (wrap_error "client write error" e) None)
                | FRetry => Some (TNotify (CError (r_Id req) (-32602) (we_text e)))
                | FIgnore => None
                end, set_fate (answered s) (lost_reqs s ++ [req]) (lost_msgs s) s)
      end
  | TUpstream req subscribe =>
      match w with
      | None => Some (None, set_out (client_out s) (up_out s ++ [req]) s)
      | Some e =>
          Some (Some (TSend (wrap_error "upstream write error" e) (if subscribe then Some (CError (r_Id req) (-32602) (we_text e)) else None)),
                set_fate (answered s) (lost_reqs s ++ [req]) (lost_msgs s) s)
      end
  | TForward mType message =>
      match w with
      | None => Some (None, write_client (CRaw mType message) s)
      | Some e => Some (Some (TSend (wrap_error "client write error" e) None), set_fate (answered s) (lost_reqs s) (lost_msgs s ++ [(mType, message)]) s)
      end
  | TSend e after => s' ← send choose e s; Some (TNotify <$> after, s')
  | TNotify m => Some (None, match w with None => write_client m s | Some _ => s end)
  end.

Definition task_step (i : nat) (rnd : bytes) (w : written) (choose : bool) s : option (Conn A) :=
  t ← tasks s !! i;
  '(o, s') ← run_task rnd w choose t (set_tasks (take i (tasks s) ++ drop (S i) (tasks s)) s);
  Some (set_tasks (take i (tasks s) ++ option_list o ++ drop (S i) (tasks s)) s').

(** The main goroutine: an error from the channel, or the end of the request's context; then it closes
    [quit], and tells the client unless the error counts as expected. *)
Definition main_step (done : option ws_error) (w : written) s : option (Conn A) :=
  match c_main s with
  | MWait =>
      '(finalError, rest) ← match done with Some e => Some (e, errChan s) | None => match errChan s with e :: l => Some (e, l) | [] => None end end;
      let s := set_main rest true MClosing s in
      Some (if isExpectedCloseError finalError then s else match w with None => write_client (CClose 1011 "Proxy error") s | Some _ => s end)
  | _ => None
  end.

(** Both readers have ended, or five seconds have passed; the deferred calls run. *)
Definition finish s : option (Conn A) :=
  match c_main s with
  | MClosing => Some (set_state (app s) (if intercept then Ws.RemoveByConnection conn (subs s) else subs s) (set_main (errChan s) (quit s) MEnd s))
  | _ => None
  end.

Inductive label :=
  | LClient (r : ws_error + JSONRPCRequestRaw) | LUpstream (r : ws_error + Z * bytes) | LReader (client choose : bool)
  | LTask (i : nat) (rnd : bytes) (w : written) (choose : bool) | LMain (done : option ws_error) (w : written) | LFinish.

Definition step (l : label) s : option (Conn A) :=
  match l with
  | LClient r => client_read r s
  | LUpstream r => upstream_read r s
  | LReader client choose => reader_step client choose s
  | LTask i rnd w choose => task_step i rnd w choose s
  | LMain done w => main_step done w s
  | LFinish => finish s
  end.

Fixpoint run (ls : list label) s : option (Conn A) := match ls with [] => Some s | l :: ls => s' ← step l s; run ls s' end.

Inductive reachable (a : A) (sm : Ws.SubscriptionInterceptor) : Conn A → Prop :=
  | reach_start : reachable a sm (start a sm)
  | reach_step s l s' : reachable a sm s → step l s = Some s' → reachable a sm s'.

Lemma run_reachable ls : ∀ a sm s s', reachable a sm s → run ls s = Some s' → reachable a sm s'.
Proof.
  induction ls as [|l ls IH]; intros a sm s s' R E; [by injection E as <-|]. cbn in E. destruct (step l s) as [s1|] eqn:E1; [|done].
  apply (IH a sm s1); [by eapply reach_step|done].
Qed.

(** *** Nothing is lost but by a failed write, nothing is doubled *)

Definition t_reqs (t : task) : list JSONRPCRequestRaw := match t with TRequest r | TAnswer r _ _ | TUpstream r _ => [r] | _ => [] end.
Definition t_msgs (t : task) : list (Z * bytes) := match t with TForward k b => [(k, b)] | _ => [] end.
Definition raw_of (m : to_client) : option (Z * bytes) := match m with CRaw k b => Some (k, b) | _ => None end.
Definition raw_out (l : list to_client) : list (Z * bytes) := omap raw_of l.

(** Only [TForward] writes raw messages. *)
Definition t_ok (t : task) : Prop := match t with TAnswer _ m _ | TNotify m | TSend _ (Some m) => raw_of m = None | _ => True end.

Record conserved s : Prop := {
  co_tasks : Forall t_ok (tasks s);
  co_reqs : read_reqs s ≡ₚ (tasks s ≫= t_reqs) ++ answered s ++ up_out s ++ lost_reqs s;
  co_msgs : read_msgs s ≡ₚ (tasks s ≫= t_msgs) ++ raw_out (client_out s) ++ lost_msgs s;
}.

Lemma raw_out_app l m : raw_out (l ++ [m]) = raw_out l ++ option_list (raw_of m).
Proof. unfold raw_out. rewrite omap_app. cbn. by destruct (raw_of m). Qed.

Lemma send_frame ch e s s' : send ch e s = Some s' → ∃ l, s' = set_main l (quit s) (c_main s) s ∧ (length (errChan s) ≤ 2 → length l ≤ 2).
Proof.
  unfold send. destruct (Nat.ltb_spec (length (errChan s)) 2) as [Hl|Hl]; cbn [andb].
  - destruct (ch || negb (quit s)).
    + intros [= <-]. eexists. split; [done|]. rewrite length_app. cbn. lia.
    + destruct (quit s) eqn:Eq; [|done]. intros [= <-]. exists (errChan s). split; [|lia]. rewrite <- Eq. by destruct s.
  - destruct (quit s) eqn:Eq; [|done]. intros [= <-]. exists (errChan s). split; [|lia]. rewrite <- Eq. by destruct s.
Qed.

(** One action of a task accounts for its request or message. *)
Record accounts (t : task) s (o : option task) s' : Prop := {
  ac_tasks : tasks s' = tasks s;
  ac_read : read_reqs s' = read_reqs s ∧ read_msgs s' = read_msgs s;
  ac_reqs : t_reqs t ++ answered s ++ up_out s ++ lost_reqs s ≡ₚ (option_list o ≫= t_reqs) ++ answered s' ++ up_out s' ++ lost_reqs s';
  ac_msgs : t_msgs t ++ raw_out (client_out s) ++ lost_msgs s ≡ₚ (option_list o ≫= t_msgs) ++ raw_out (client_out s') ++ lost_msgs s';
  ac_ok : Forall t_ok (option_list o);
}.

Ltac account := split; cbn -[raw_out]; rewrite ?raw_out_app; cbn -[raw_out]; repeat match goal with |- Forall _ _ => constructor end; try done; try solve_Permutation.

Lemma handle_request_accounts rnd req s o s' : handle_request rnd req s = (o, s') → accounts (TRequest req) s o s'.
Proof.
  unfold handle_request. destruct (intercept && _).
  { destruct (HandleSubscribeRequest _ _); [intros [= <- <-]; account..|]. by unfold Ws.CreateSubscription; intros [= <- <-]; account. }
  destruct (route req (app s)) as [[[r|]|[]| |] a]; [intros [= <- <-]; account..| |]; destruct intercept; intros [= <- <-]; account.
Qed.

Lemma run_task_accounts rnd w ch t s o s' : t_ok t → run_task rnd w ch t s = Some (o, s') → accounts t s o s'.
Proof.
  intros Ht. destruct t as [req|req m f|req sub|k b|e after|m]; cbn [run_task t_ok] in *.
  - intros [= E]. by apply handle_request_accounts in E.
  - destruct w as [e|]; [destruct f|]; intros [= <- <-]; account; rewrite ?Ht; cbn; solve_Permutation.
  - destruct w as [e|]; [destruct sub|]; intros [= <- <-]; account.
  - destruct w as [e|]; intros [= <- <-]; account.
  - destruct (send ch e s) as [s1|] eqn:E; [|done]. apply send_frame in E as (l & -> & _). intros [= <- <-]. destruct after; account.
  - destruct w as [e|]; intros [= <- <-]; account. rewrite Ht; cbn. solve_Permutation.
Qed.

Lemma perm_middle_swap {T} (B O K C X X' : list T) : B ++ X ≡ₚ O ++ X' → (K ++ B ++ C) ++ X ≡ₚ (K ++ O ++ C) ++ X'.
Proof. intros E. transitivity (K ++ C ++ (B ++ X)); [solve_Permutation|]. rewrite E. solve_Permutation. Qed.

Lemma task_step_conserved i rnd w ch s s' : conserved s → task_step i rnd w ch s = Some s' → conserved s'.
Proof.
  intros [Ok Hr Hm]. unfold task_step. destruct (tasks s !! i) as [t|] eqn:Et; [|done]. cbn [mbind option_bind].
  destruct (run_task _ _ _ _ _) as [[o s1]|] eqn:E; [|done]. intros [= <-].
  rewrite <- (take_drop_middle _ _ _ Et) in Ok, Hr, Hm. apply Forall_app in Ok as [Ok1 Ok2]. apply Forall_cons in Ok2 as [Okt Ok2].
  apply run_task_accounts in E as [_ [R1 R2] Q1 Q2 Q3]; [|done]. cbn [read_reqs read_msgs set_tasks answered up_out lost_reqs client_out lost_msgs] in *.
  split; cbn [tasks set_tasks read_reqs read_msgs answered up_out lost_reqs client_out lost_msgs].
  - by rewrite !Forall_app.
  - rewrite R1, Hr, !bind_app, bind_cons. by apply perm_middle_swap.
  - rewrite R2, Hm, !bind_app, bind_cons. by apply perm_middle_swap.
Qed.

Lemma main_step_frame done w s s' : main_step done w s = Some s' → c_main s = MWait ∧ ∃ l cl, s' = set_out (client_out s ++ cl) (up_out s) (set_main l true MClosing s) ∧
  (cl = [] ∨ cl = [CClose 1011 "Proxy error"]) ∧ (length (errChan s) ≤ 2 → length l ≤ 2).
Proof.
  unfold main_step. destruct (c_main s); [|done..].
  assert (F : ∀ e l, (length (errChan s) ≤ 2 → length l ≤ 2) → Some (if isExpectedCloseError e then set_main l true MClosing s
      else match w with None => write_client (CClose 1011 "Proxy error") (set_main l true MClosing s) | Some _ => set_main l true MClosing s end) = Some s' →
    ∃ l cl, s' = set_out (client_out s ++ cl) (up_out s) (set_main l true MClosing s) ∧ (cl = [] ∨ cl = [CClose 1011 "Proxy error"]) ∧ (length (errChan s) ≤ 2 → length l ≤ 2)).
  { intros e l Hl [= <-]. destruct (isExpectedCloseError e); [|destruct w].
    1,2: exists l, []; rewrite app_nil_r; by auto.
    exists l, [CClose 1011 "Proxy error"]. by auto. }
  intros E. split; [done|]. destruct done as [e|]; [by apply (F e (errChan s))|]. destruct (errChan s) as [|e1 l1] eqn:El; [done|].
  apply (F e1 l1); [cbn; lia|done].
Qed.

Lemma step_conserved l s s' : conserved s → step l s = Some s' → conserved s'.
Proof.
  intros Hc. destruct l as [r|r|client ch|i rnd w ch|d w|]; cbn [step]; [| | |by apply task_step_conserved| |].
  - unfold client_read. destruct (c_reader s); [|done..]. destruct r as [e|req]; intros [= <-]; destruct Hc as [Ok Hr Hm]; split; cbn; try done.
    + apply Forall_app. by repeat constructor.
    + rewrite Hr, bind_app. cbn. solve_Permutation.
    + rewrite Hm, bind_app. cbn. by rewrite app_nil_r.
  - unfold upstream_read. destruct (u_reader s); [|done..]. destruct r as [e|[k b]]; intros [= <-]; destruct Hc as [Ok Hr Hm]; split; cbn; try done.
    + apply Forall_app. by repeat constructor.
    + rewrite Hr, bind_app. cbn. by rewrite app_nil_r.
    + rewrite Hm, bind_app. cbn. solve_Permutation.
  - unfold reader_step. destruct Hc as [Ok Hr Hm]. destruct (if client then c_reader s else u_reader s) as [|e|]; [|destruct (send ch e s) as [s1|] eqn:E|done].
    + destruct (quit s); [|done]. intros [= <-]. by destruct client.
    + apply send_frame in E as (l & -> & _). cbn [mbind option_bind]. intros [= <-]. by destruct client.
    + done.
  - intros (_ & l & cl & -> & Ho & _)%main_step_frame. destruct Hc as [Ok Hr Hm]. split; cbn -[raw_out]; [done..|].
    destruct Ho as [-> | ->]; [by rewrite app_nil_r|]. rewrite raw_out_app. cbn -[raw_out]. by rewrite app_nil_r.
  - unfold finish. destruct (c_main s); [done| |done]. intros [= <-]. by destruct Hc.
Qed.

(** C24: Every request the client sent is still being handled, was answered, was passed on to the node, or was
    lost by a failed write, and only one of these; every message of the node is on its way, was written to
    the client as it came, or was lost by a failed write.  Nothing is written twice.  Without failed
    writes and with no goroutine left, the client has got exactly the node's messages, in some order. *)
Theorem traffic_conserved a sm s : reachable a sm s →
  read_reqs s ≡ₚ (tasks s ≫= t_reqs) ++ answered s ++ up_out s ++ lost_reqs s ∧
  read_msgs s ≡ₚ (tasks s ≫= t_msgs) ++ raw_out (client_out s) ++ lost_msgs s ∧
  (tasks s = [] → lost_reqs s = [] → lost_msgs s = [] → read_reqs s ≡ₚ answered s ++ up_out s ∧ read_msgs s ≡ₚ raw_out (client_out s)).
Proof.
  intros R. assert (Hc : conserved s) by (induction R; [by split|by eapply step_conserved]). destruct Hc as [_ Hr Hm]. split_and!; [done..|].
  intros Et El Em. rewrite Et, El in Hr. rewrite Et, Em in Hm. cbn in Hr, Hm. rewrite app_nil_r in Hr. rewrite app_nil_r in Hm. done.
Qed.

(** *** The error channel *)

Lemma run_task_main rnd w ch t s o s' : run_task rnd w ch t s = Some (o, s') →
  quit s' = quit s ∧ c_main s' = c_main s ∧ (length (errChan s) ≤ 2 → length (errChan s') ≤ 2).
Proof.
  destruct t as [req|req m f|req sub|k b|e after|m]; cbn [run_task].
  - intros [= E]. revert E. unfold handle_request. destruct (intercept && _).
    { by destruct (HandleSubscribeRequest _ _); unfold Ws.CreateSubscription; intros [= _ <-]. }
    by destruct (route req (app s)) as [[[r|]|[]| |] a]; [| | |]; try destruct intercept; intros [= _ <-].
  - by destruct w; intros [= _ <-].
  - by destruct w; intros [= _ <-].
  - by destruct w; intros [= _ <-].
  - destruct (send ch e s) as [s1|] eqn:E; [|done]. apply send_frame in E as (l & -> & Hl). by intros [= _ <-].
  - by destruct w; intros [= _ <-].
Qed.

(** At most two errors are queued, and [quit] is closed exactly when the main goroutine has gone on. *)
Definition main_ok s : Prop := length (errChan s) ≤ 2 ∧ (quit s = true ↔ c_main s ≠ MWait).

Lemma step_main_ok l s s' : main_ok s → step l s = Some s' → main_ok s'.
Proof.
  intros [Hl Hq]. destruct l as [r|r|client ch|i rnd w ch|d w|]; cbn [step].
  - unfold client_read. destruct (c_reader s); [|done..]. by destruct r as [e|req]; intros [= <-].
  - unfold upstream_read. destruct (u_reader s); [|done..]. by destruct r as [e|[k b]]; intros [= <-].
  - unfold reader_step. destruct (if client then c_reader s else u_reader s) as [|e|]; [|destruct (send ch e s) as [s1|] eqn:E|done].
    + destruct (quit s) eqn:Eq; [|done]. intros [= <-]. unfold main_ok. by destruct client; cbn; rewrite Eq.
    + apply send_frame in E as (l & -> & Hl'). cbn [mbind option_bind]. intros [= <-]. unfold main_ok. destruct client; cbn; split; auto.
    + done.
  - unfold task_step. destruct (tasks s !! i) as [t|]; [|done]. cbn [mbind option_bind]. destruct (run_task _ _ _ _ _) as [[o s1]|] eqn:E; [|done].
    apply run_task_main in E as (E1 & E2 & E3). intros [= <-]. cbn in *. unfold main_ok. cbn. rewrite E1, E2. split; auto.
  - intros (Hm & l & out & -> & _ & Hl')%main_step_frame. unfold main_ok. cbn. split; [auto|done].
  - unfold finish. destruct (c_main s) eqn:Em; [done| |done]. intros [= <-]. unfold main_ok. cbn. split; [done|]. split; [done|intros _]. by apply Hq.
Qed.

(** No goroutine is stuck on the error channel: whatever waits to send an error can do it or see [quit]
    closed, or the main goroutine can take an error; and it takes one only once. *)
Theorem senders_not_stuck a sm s : reachable a sm s →
  (∀ i e after, tasks s !! i = Some (TSend e after) → is_Some (task_step i [] None true s) ∨ is_Some (main_step None None s)) ∧
  (∀ (client : bool) e, (if client then c_reader s else u_reader s) = RSend e → is_Some (reader_step client true s) ∨ is_Some (main_step None None s)) ∧
  (quit s = true → ∀ d w, main_step d w s = None).
Proof.
  intros R. assert (Hm : main_ok s) by (induction R; [split; cbn; [lia|by split]|by eapply step_main_ok]). destruct Hm as [Hl Hq].
  assert (Send : ∀ e s0, errChan s0 = errChan s → quit s0 = quit s → is_Some (send true e s0) ∨ is_Some (main_step None None s)).
  { intros e s0 Ee Eq. unfold send. rewrite Ee, Eq. destruct (Nat.ltb_spec (length (errChan s)) 2); [left; by eexists|]. cbn [andb].
    destruct (quit s) eqn:Eq'; [left; by eexists|]. right. unfold main_step.
    destruct (c_main s) eqn:Em; [|by exfalso; cut (false = true); [|apply Hq]..].
    destruct (errChan s) as [|e0 l]; [cbn in *; lia|]. by eexists. }
  split_and!.
  - intros i e after Ei. unfold task_step. rewrite Ei. cbn [mbind option_bind run_task].
    destruct (Send e (set_tasks (take i (tasks s) ++ drop (S i) (tasks s)) s) eq_refl eq_refl) as [[s1 ->]|]; [left; by eexists|by right].
  - intros client e Er. unfold reader_step. rewrite Er. destruct (Send e s eq_refl eq_refl) as [[s1 ->]|]; [left; by eexists|by right].
  - intros Eq d w. unfold main_step. apply Hq in Eq. by destruct (c_main s).
Qed.

(** *** Whose answers the client gets *)

Section Answers.
Context (Q : JSONRPCRequestRaw → JSONRPCResponse → Prop) (route_Q : ∀ req a r a', route req a = (Ok (Some r), a') → Q req r).

Definition from_request (L : list JSONRPCRequestRaw) (m : to_client) : Prop :=
  match m with CResponse r => ∃ req, req ∈ L ∧ Q req r | _ => True end.
Definition not_response (m : to_client) : Prop := match m with CResponse _ => False | _ => True end.
Definition t_answers (L : list JSONRPCRequestRaw) (t : task) : Prop :=
  match t with
  | TRequest req => req ∈ L
  | TAnswer _ m _ => from_request L m
  | TSend _ (Some m) | TNotify m => not_response m
  | _ => True
  end.
Definition answers_ok s : Prop := Forall (t_answers (read_reqs s)) (tasks s) ∧ Forall (from_request (read_reqs s)) (client_out s).

Lemma from_request_mono L L' m : L ⊆ L' → from_request L m → from_request L' m.
Proof. destruct m; cbn; [|done..]. intros HL (req & ? & ?). exists req. split; [by apply HL|done]. Qed.
Lemma t_answers_mono L L' t : L ⊆ L' → t_answers L t → t_answers L' t.
Proof. destruct t as [| | | |? []|]; cbn; [auto|apply from_request_mono|done..]. Qed.
Lemma not_response_from L m : not_response m → from_request L m.
Proof. by destruct m. Qed.

Lemma run_task_answers rnd w ch t s o s' : t_answers (read_reqs s) t → Forall (from_request (read_reqs s)) (client_out s) → run_task rnd w ch t s = Some (o, s') →
  read_reqs s' = read_reqs s ∧ Forall (t_answers (read_reqs s)) (option_list o) ∧ Forall (from_request (read_reqs s)) (client_out s').
Proof.
  intros Ht Ho. assert (W : ∀ m, from_request (read_reqs s) m → Forall (from_request (read_reqs s)) (client_out s ++ [m])) by (intros; apply Forall_app; by repeat constructor).
  destruct t as [req|req m f|req sub|k b|e after|m]; cbn [run_task t_answers] in *.
  - intros [= E]. revert E. unfold handle_request. destruct (intercept && _).
    { by destruct (HandleSubscribeRequest _ _); unfold Ws.CreateSubscription; intros [= <- <-]; cbn; repeat constructor. }
    destruct (route req (app s)) as [[[r|]|[]| |] a] eqn:Er; [|by intros [= <- <-]; cbn; repeat constructor| |]; [|by destruct intercept; intros [= <- <-]; cbn; repeat constructor..].
    intros [= <- <-]. cbn. split_and!; [done| |done]. constructor; [|constructor]. exists req. split; [done|by eapply route_Q].
  - destruct w as [e|]; [|intros [= <- <-]; cbn; by auto]. by destruct f; intros [= <- <-]; cbn; repeat constructor.
  - destruct w as [e|]; [destruct sub|]; intros [= <- <-]; cbn; by repeat constructor.
  - destruct w as [e|]; intros [= <- <-]; cbn; split_and!; try done; [by repeat constructor|by apply W].
  - destruct (send ch e s) as [s1|] eqn:E; [|done]. apply send_frame in E as (l & -> & _). intros [= <- <-]. cbn. destruct after; cbn; by repeat constructor.
  - destruct w as [e|]; intros [= <- <-]; cbn; split_and!; try done. by apply W, not_response_from.
Qed.

Lemma step_answers l s s' : answers_ok s → step l s = Some s' → answers_ok s'.
Proof.
  intros [Ht Ho]. destruct l as [r|r|client ch|i rnd w ch|d w|]; cbn [step].
  - unfold client_read. destruct (c_reader s); [|done..]. destruct r as [e|req]; intros [= <-]; [done|]. unfold answers_ok. cbn.
    assert (HL : read_reqs s ⊆ read_reqs s ++ [req]) by set_solver. split; [apply Forall_app; split|].
    + eapply Forall_impl; [exact Ht|]. intros t. by apply t_answers_mono.
    + constructor; [|done]. cbn. set_solver.
    + eapply Forall_impl; [exact Ho|]. intros m. by apply from_request_mono.
  - unfold upstream_read. destruct (u_reader s); [|done..]. destruct r as [e|[k b]]; intros [= <-]; [done|]. unfold answers_ok. cbn.
    split; [|done]. apply Forall_app. by repeat constructor.
  - unfold reader_step. destruct (if client then c_reader s else u_reader s) as [|e|]; [|destruct (send ch e s) as [s1|] eqn:E|done].
    + destruct (quit s); [|done]. intros [= <-]. by destruct client.
    + apply send_frame in E as (l & -> & _). cbn [mbind option_bind]. intros [= <-]. by destruct client.
    + done.
  - unfold task_step. destruct (tasks s !! i) as [t|] eqn:Et; [|done]. cbn [mbind option_bind]. destruct (run_task _ _ _ _ _) as [[o s1]|] eqn:E; [|done].
    pose proof Ht as Ht'. rewrite <- (take_drop_middle _ _ _ Et) in Ht'. apply Forall_app in Ht' as [F1 F2]. apply Forall_cons in F2 as [Ft F2].
    apply run_task_answers in E as (E1 & E2 & E3); [|done..]. intros [= <-]. unfold answers_ok. cbn in *. rewrite E1. by rewrite !Forall_app.
  - intros (_ & l & cl & -> & Hcl & _)%main_step_frame. unfold answers_ok. cbn. split; [done|]. apply Forall_app. split; [done|].
    destruct Hcl as [-> | ->]; by repeat constructor.
  - unfold finish. destruct (c_main s); [done| |done]. by intros [= <-].
Qed.

End Answers.

(** A connection "without interceptor" answers the proxy's methods itself all the same. *)
Theorem plain_connection_routes rnd req s r a : intercept = false → route req (app s) = (Ok (Some r), a) →
  handle_request rnd req s = (Some (TAnswer req (CResponse r) FReport), set_state a (subs s) s).
Proof. intros Hi Hr. unfold handle_request. by rewrite Hi, Hr. Qed.

(** A subscription to intercepted contracts is created. *)
Lemma handle_subscribe rnd req s addrs topics : intercept = true → r_Method req = "eth_subscribe" →
  HandleSubscribeRequest (subs s) (r_Params req) = SubCreate addrs topics →
  handle_request rnd req s = (Some (TAnswer req (CSubscribed (r_Id req) (generateSubID rnd)) FRetry),
    set_state (app s) (Ws.CreateSubscription conn writer addrs topics rnd (subs s)).1 s).
Proof. intros Hi Hm Hs. unfold handle_request. rewrite Hi, bool_decide_true by done. cbn [andb]. by rewrite Hs. Qed.

Lemma run_cons l ls s s1 : step l s = Some s1 → run (l :: ls) s = run ls s1.
Proof. intros E. cbn [run]. by rewrite E. Qed.

(** A client that closes as expected ends its reader and nothing else: the main goroutine is not told. *)
Theorem expected_close_not_reported e s s' : isExpectedCloseError e = true → client_read (inl e) s = Some s' →
  errChan s' = errChan s ∧ c_main s' = c_main s ∧ quit s' = quit s ∧ u_reader s' = u_reader s ∧ c_reader s' = REnd.
Proof. unfold client_read. destruct (c_reader s); [|done..]. intros -> [= <-]. done. Qed.

End Connection.

(** An error of the client's socket counts as expected once it is wrapped: the client is never told. *)
Theorem client_errors_expected e : isExpectedCloseError (wrap_error "client read error" e) = true ∧ isExpectedCloseError (wrap_error "client write error" e) = true.
Proof. unfold isExpectedCloseError, wrap_error. split; cbn; by rewrite ?orb_true_r. Qed.

(** *** Runs *)

Section Runs.
Context (rnd : bytes) (sm : Ws.SubscriptionInterceptor).

(** A proxy that answers nothing itself. *)
Definition pass (req : JSONRPCRequestRaw) : comp unit Empty_set (option JSONRPCResponse) := mret None.
Definition filter_params (a : string) : list json := [JString "logs"; JObject [("address", JString a)]].
Definition subscribe_to (a : string) : JSONRPCRequestRaw := {| r_Jsonrpc := "2.0"; r_Method := "eth_subscribe"; r_Params := []; r_Id := JNumber 1 |}.
Definition timeout : ws_error := {| we_eof := false; we_code := None; we_text := "i/o timeout" |}.

(** Two messages of the node, the second goroutine first. *)
Theorem messages_reordered : ∃ ls s, run (λ _, inr []) (λ _, "") pass 1 1 false ls (start tt sm) = Some s ∧
  read_msgs s = [(1, [x01]); (1, [x02])]%Z ∧ client_out s = [CRaw 1 [x02]; CRaw 1 [x01]] ∧ tasks s = [].
Proof.
  exists [LUpstream (inr (1%Z, [x01])); LUpstream (inr (1%Z, [x02])); LTask 1 [] None true; LTask 0 [] None true].
  eexists. split; [reflexivity|]. done.
Qed.

(** A subscription request that is handled after the connection has ended leaves its subscription behind. *)
Theorem subscription_outlives_connection a conn : Ws.IsMonitoredContract a sm = true → ∃ ls s,
  run (λ _, inr (filter_params a)) (λ _, "") pass conn 1 true ls (start tt sm) = Some s ∧ c_main s = MEnd ∧
  subscriptions (Ws.store (subs s)) !! generateSubID rnd =
    Some {| w_ID := generateSubID rnd; w_ClientConn := conn; w_ClientWriter := 1; w_ContractAddresses := [a]; w_Topics := [] |}.
Proof.
  intros Ha. set (req := subscribe_to a). exists [LClient (inr req); LMain (Some timeout) None; LFinish; LTask 0 rnd None true].
  set (s1 := set_read [req] [] (set_tasks [TRequest req] (start tt sm))).
  set (s2 := write_client (CClose 1011 "Proxy error") (set_main [] true MClosing s1)).
  set (s3 := set_state tt (Ws.RemoveByConnection conn sm) (set_main [] true MEnd s2)).
  assert (Ht : isExpectedCloseError timeout = false) by (by vm_compute).
  assert (V : Ws.ValidateSubscriptionAddresses [a] (subs s3) = (true, None)).
  { assert (Hm : Ws.IsMonitoredContract a (subs s3) = true) by exact Ha.
    unfold Ws.ValidateSubscriptionAddresses. cbn [foldl length]. by rewrite Hm. }
  assert (E2 : main_step (Some timeout) None s1 = Some s2) by (unfold main_step; cbn [c_main s1 set_read set_tasks start mbind option_bind]; by rewrite Ht).
  rewrite (run_cons _ _ _ _ _ _ _ _ _ s1), (run_cons _ _ _ _ _ _ _ _ _ s2), (run_cons _ _ _ _ _ _ _ _ _ s3) by done.
  eexists. split; [|split].
  - eapply eq_trans; [apply run_cons|reflexivity]. cbn [step]. unfold task_step. change (tasks s3 !! 0) with (Some (TRequest req)). cbn [mbind option_bind run_task].
    rewrite (handle_subscribe _ _ _ _ _ true rnd req _ [a] []); [reflexivity|done|done|].
    unfold HandleSubscribeRequest, filter_params. change (subscribe_addresses [("address", JString a)]) with [a]. cbn iota beta.
    change (subs (set_tasks _ s3)) with (subs s3). by rewrite V.
  - done.
  - apply lookup_insert_eq.
Qed.

End Runs.

(** An interceptor that monitors no contract. *)
Definition idle_sm : Ws.SubscriptionInterceptor := Ws.NewSubscriptionInterceptor [].

Definition two_messages : list label := [LUpstream (inr (1%Z, [x01])); LUpstream (inr (1%Z, [x02])); LTask 1 [] None true; LTask 0 [] None true].

Lemma traffic_conserved_witness : ∃ s, run (λ _, inr []) (λ _, "") pass 1 1 false two_messages (start tt idle_sm) = Some s ∧
  read_msgs s ≡ₚ raw_out (client_out s) ∧ length (read_msgs s) = 2.
Proof.
  eexists. split; [reflexivity|]. split; [|reflexivity].
  refine (proj2 (proj2 (proj2 (traffic_conserved (λ _, inr []) (λ _, "") pass 1 1 false tt idle_sm _ _)) _ _ _)); [|reflexivity..].
  apply (run_reachable (λ _, inr []) (λ _, "") pass 1 1 false two_messages tt idle_sm (start tt idle_sm)); [apply reach_start|reflexivity].
Defined.

(** A state in which a goroutine waits to report a failed write. *)
Definition waiting : list label := [LUpstream (inr (1%Z, [x01])); LTask 0 [] (Some timeout) true].

Lemma senders_not_stuck_witness : ∃ s, run (λ _, inr []) (λ _, "") pass 1 1 false waiting (start tt idle_sm) = Some s ∧
  (is_Some (task_step (λ _, inr []) (λ _, "") pass 1 1 false 0 [] None true s) ∨ is_Some (main_step None None s)).
Proof.
  eexists. split; [reflexivity|].
  refine (proj1 (senders_not_stuck (λ _, inr []) (λ _, "") pass 1 1 false tt idle_sm _ _) 0 (wrap_error "client write error" timeout) None _).
  - apply (run_reachable (λ _, inr []) (λ _, "") pass 1 1 false waiting tt idle_sm (start tt idle_sm)); [apply reach_start|reflexivity].
  - reflexivity.
Defined.

(** *** With the proxy behind it *)

Section Composed.
Context `{EthCommon} `{EthAddress} `{EthHex} `{EthTypes} `{TxCrypto} `{TxCodec} `{DeviceKeyCodec} `{Blst SK}.
Context `{Proto TransactionHashData} `{Proto pb_CallData} `{Proto pb_DeployData} `{Proto pb_AccountState} `{Proto ArtifactData}.
Context {N KS AS : Type} `{RpcNet N} `{RpcJson} `{EthRpc} `{LevelDBIter KS} `{KeyCipher} `{LevelDB AS}.
Context `{ProxyEnv N} `{ProxyJson} `{ProxyEth} `{AbiErrors}.
Context (order_cache : gmap string ArtifactData → list (string * ArtifactData)).


End Composed.

(** A client asks for the version of the network. *)
Section VersionRun.
Import ToyCrypto ToyAddress ToyBls ToyState ToyProto ToyTx ToyDeviceKey ToyCipher.
#[local] Existing Instances RpcExample.node_net RpcExample.node_eth RpcExample.crypto0 WriterExample.artifact_proto DecoderExample.no_abi.
#[local] Existing Instances ProxyExample.fresh_json ProxyExample.toy_json ProxyExample.toy_proxy_eth ProxyExample.toy_env.

Definition version_req : JSONRPCRequestRaw := {| r_Jsonrpc := "2.0"; r_Method := "net_version"; r_Params := []; r_Id := JNumber 5 |}.
Definition version_route := RouteWebSocketMessage (KS:=gmap string bytes) (AS:=gmap string bytes) ProxyExample.order0 ProxyExample.ctx0.
Definition version_sm : Ws.SubscriptionInterceptor := Ws.NewSubscriptionInterceptor [].
Definition version_run : option (Conn (App nat (gmap string bytes) (gmap string bytes))) :=
  run (λ _, inr []) (λ _, "") version_route 1 1 false [LClient (inr version_req); LTask 0 [] None true; LTask 0 [] None true] (start ProxyExample.app0 version_sm).


End VersionRun.
End Traffic.
