(* ===== verification/TransactionArgs.v ===== *)
(** * Arguments of transactions and calls ([cmd/rpc-client/transaction_args.go])

    The arguments of a call or a transaction as JSON gives them, where every field may be missing, the
    defaults for calls, and the conversions to a message for the virtual machine and to a transaction.  A
    missing field is a nil pointer ([None]); a dereferenced nil pointer is a panic. *)

From S2P Require Import Prelude GoLib Interfaces Transaction.

(** Blobs, commitments and proofs are passed through as they are. *)
Record BlobTxSidecar := { sc_Blobs : list bytes; sc_Commitments : list bytes; sc_Proofs : list bytes }.

Record TransactionArgs := {
  ta_From : option bytes; ta_To : option bytes; ta_Gas : option Z; ta_GasPrice : option Z; ta_MaxFeePerGas : option Z;
  ta_MaxPriorityFeePerGas : option Z; ta_Value : option Z; ta_Nonce : option Z; ta_Data : option bytes; ta_Input : option bytes;
  ta_AccessList : option (list AccessTuple); ta_ChainID : option Z; ta_BlobFeeCap : option Z; ta_BlobHashes : option (list bytes);
  ta_Blobs : option (list bytes); ta_Commitments : list bytes; ta_Proofs : list bytes }.

(** [core.Message]; [None] is a nil pointer. *)
Record Message := {
  ms_From : bytes; ms_To : option bytes; ms_Value : option Z; ms_Nonce : Z; ms_GasLimit : Z; ms_GasPrice : option Z; ms_GasFeeCap : option Z;
  ms_GasTipCap : option Z; ms_Data : bytes; ms_AccessList : list AccessTuple; ms_BlobGasFeeCap : option Z; ms_BlobHashes : option (list bytes);
  SkipNonceChecks : bool; SkipFromEOACheck : bool }.

(** [types.TxData] *)
Inductive TxData :=
  | LegacyTx (to : option bytes) (nonce gas : Z) (gasPrice value : option Z) (data : bytes)
  | AccessListTx (to : option bytes) (chainID : option Z) (nonce gas : Z) (gasPrice value : option Z) (data : bytes) (al : list AccessTuple)
  | DynamicFeeTx (to : option bytes) (chainID : option Z) (nonce gas : Z) (feeCap tipCap value : option Z) (data : bytes) (al : list AccessTuple)
  | BlobTx (to : bytes) (chainID : option Z) (nonce gas : Z) (feeCap tipCap value : option Z) (data : bytes) (al : list AccessTuple)
      (hashes : option (list bytes)) (blobFeeCap : option Z) (sidecar : option BlobTxSidecar).

Inductive tx_type := LegacyTxType | AccessListTxType | DynamicFeeTxType | BlobTxType.
#[export] Instance tx_type_eq_dec : EqDecision tx_type.
Proof. solve_decision. Defined.

Inductive args_error := ErrBothFees | ErrChainId (have want : Z).

Definition from (args : TransactionArgs) : bytes := default zero_address (ta_From args).

Definition data (args : TransactionArgs) : bytes :=
  match ta_Input args with Some b => b | None => default [] (ta_Data args) end.

Definition set_BlobFeeCap (v : option Z) (a : TransactionArgs) : TransactionArgs :=
  {| ta_From := ta_From a; ta_To := ta_To a; ta_Gas := ta_Gas a; ta_GasPrice := ta_GasPrice a; ta_MaxFeePerGas := ta_MaxFeePerGas a;
     ta_MaxPriorityFeePerGas := ta_MaxPriorityFeePerGas a; ta_Value := ta_Value a; ta_Nonce := ta_Nonce a; ta_Data := ta_Data a; ta_Input := ta_Input a;
     ta_AccessList := ta_AccessList a; ta_ChainID := ta_ChainID a; ta_BlobFeeCap := v; ta_BlobHashes := ta_BlobHashes a;
     ta_Blobs := ta_Blobs a; ta_Commitments := ta_Commitments a; ta_Proofs := ta_Proofs a |}.

(** [CalcBlobFee] is go-ethereum's; [ExcessBlobGas] of the header may be nil. *)
Definition setCancunFeeDefaults (CalcBlobFee : Z → Z) (ExcessBlobGas : option Z) (args : TransactionArgs) : TransactionArgs :=
  match ta_BlobHashes args, ta_BlobFeeCap args with
  | Some _, None => set_BlobFeeCap (Some (CalcBlobFee (default 0%Z ExcessBlobGas) * 2)%Z) args
  | _, _ => args
  end.

(** [math.MaxUint64 / 2] *)
Definition halfMaxUint64 : Z := 2 ^ 63 - 1.

Definition default_gas (globalGasCap : Z) (gas : option Z) : Z :=
  match gas with
  | None => if (globalGasCap =? 0)%Z then halfMaxUint64 else globalGasCap
  | Some g => if (0 <? globalGasCap)%Z && (globalGasCap <? g)%Z then globalGasCap else g
  end.

Definition CallDefaults (globalGasCap : Z) (baseFee : option Z) (chainID : Z) (args : TransactionArgs) : args_error + TransactionArgs :=
  match ta_GasPrice args, ta_MaxFeePerGas args, ta_MaxPriorityFeePerGas args with
  | Some _, Some _, _ | Some _, _, Some _ => inl ErrBothFees
  | _, _, _ =>
      let has_base := bool_decide (is_Some baseFee) in
      if decide (default chainID (ta_ChainID args) = chainID) then
        inr {| ta_From := ta_From args; ta_To := ta_To args; ta_Gas := Some (default_gas globalGasCap (ta_Gas args));
               ta_GasPrice := if has_base then ta_GasPrice args else Some (default 0%Z (ta_GasPrice args));
               ta_MaxFeePerGas := if has_base then Some (default 0%Z (ta_MaxFeePerGas args)) else ta_MaxFeePerGas args;
               ta_MaxPriorityFeePerGas := if has_base then Some (default 0%Z (ta_MaxPriorityFeePerGas args)) else ta_MaxPriorityFeePerGas args;
               ta_Value := Some (default 0%Z (ta_Value args)); ta_Nonce := Some (default 0%Z (ta_Nonce args));
               ta_Data := ta_Data args; ta_Input := ta_Input args; ta_AccessList := ta_AccessList args; ta_ChainID := Some chainID;
               ta_BlobFeeCap := match ta_BlobFeeCap args, ta_BlobHashes args with None, Some _ => Some 0%Z | c, _ => c end;
               ta_BlobHashes := ta_BlobHashes args; ta_Blobs := ta_Blobs args; ta_Commitments := ta_Commitments args; ta_Proofs := ta_Proofs args |}
      else inl (ErrChainId (default chainID (ta_ChainID args)) chainID)
  end.

(** Gas price, fee cap and tip cap; [None] is the panic of [BitLen] on a nil pointer. *)
Definition message_fees (baseFee : option Z) (args : TransactionArgs) : option (option Z * option Z * option Z) :=
  match baseFee, ta_GasPrice args with
  | None, p => Some (p, p, p)
  | Some _, Some p => Some (Some p, Some p, Some p)
  | Some base, None =>
      match ta_MaxFeePerGas args, ta_MaxPriorityFeePerGas args with
      | Some feeCap, Some tipCap =>
          let gasPrice := if negb (feeCap =? 0)%Z || negb (tipCap =? 0)%Z then Z.min (tipCap + base) feeCap else 0%Z in
          Some (Some gasPrice, Some feeCap, Some tipCap)
      | _, _ => None
      end
  end.

Definition ToMessage (baseFee : option Z) (skipNonceCheck skipEoACheck : bool) (args : TransactionArgs) : option Message :=
  '(gasPrice, gasFeeCap, gasTipCap) ← message_fees baseFee args;
  nonce ← ta_Nonce args;
  gas ← ta_Gas args;
  Some {| ms_From := from args; ms_To := ta_To args; ms_Value := ta_Value args; ms_Nonce := nonce; ms_GasLimit := gas; ms_GasPrice := gasPrice;
          ms_GasFeeCap := gasFeeCap; ms_GasTipCap := gasTipCap; ms_Data := data args; ms_AccessList := default [] (ta_AccessList args);
          ms_BlobGasFeeCap := ta_BlobFeeCap args; ms_BlobHashes := ta_BlobHashes args; SkipNonceChecks := skipNonceCheck; SkipFromEOACheck := skipEoACheck |}.

Definition used_type (defaultType : tx_type) (args : TransactionArgs) : tx_type :=
  if bool_decide (is_Some (ta_GasPrice args)) then LegacyTxType
  else if bool_decide (is_Some (ta_BlobHashes args)) || bool_decide (defaultType = BlobTxType) then BlobTxType
  else if bool_decide (is_Some (ta_MaxFeePerGas args)) || bool_decide (defaultType = DynamicFeeTxType) then DynamicFeeTxType
  else if bool_decide (is_Some (ta_AccessList args)) || bool_decide (defaultType = AccessListTxType) then AccessListTxType
  else LegacyTxType.

(** [MustFromBig] is of holiman/uint256: [None] is its panic; the pointer may be nil. *)
Definition ToTransaction (MustFromBig : option Z → option (option Z)) (defaultType : tx_type) (args : TransactionArgs) : option TxData :=
  let al := default [] (ta_AccessList args) in
  match used_type defaultType args with
  | BlobTxType =>
      to ← ta_To args; chainID ← MustFromBig (ta_ChainID args); nonce ← ta_Nonce args; gas ← ta_Gas args;
      feeCap ← MustFromBig (ta_MaxFeePerGas args); tipCap ← MustFromBig (ta_MaxPriorityFeePerGas args);
      value ← MustFromBig (ta_Value args); blobFeeCap ← MustFromBig (ta_BlobFeeCap args);
      Some (BlobTx to chainID nonce gas feeCap tipCap value (data args) al (ta_BlobHashes args) blobFeeCap
        (match ta_Blobs args with
         | Some blobs => Some {| sc_Blobs := blobs; sc_Commitments := ta_Commitments args; sc_Proofs := ta_Proofs args |}
         | None => None
         end))
  | DynamicFeeTxType =>
      nonce ← ta_Nonce args; gas ← ta_Gas args;
      Some (DynamicFeeTx (ta_To args) (ta_ChainID args) nonce gas (ta_MaxFeePerGas args) (ta_MaxPriorityFeePerGas args) (ta_Value args) (data args) al)
  | AccessListTxType =>
      nonce ← ta_Nonce args; gas ← ta_Gas args; al ← ta_AccessList args;
      Some (AccessListTx (ta_To args) (ta_ChainID args) nonce gas (ta_GasPrice args) (ta_Value args) (data args) al)
  | LegacyTxType =>
      nonce ← ta_Nonce args; gas ← ta_Gas args;
      Some (LegacyTx (ta_To args) nonce gas (ta_GasPrice args) (ta_Value args) (data args))
  end.

Definition IsEIP4844 (args : TransactionArgs) : bool := bool_decide (is_Some (ta_BlobHashes args)) || bool_decide (is_Some (ta_BlobFeeCap args)).

(** ** Theorems *)

Lemma CallDefaults_ok cap baseFee chainID args args' : CallDefaults cap baseFee chainID args = inr args' →
  (ta_GasPrice args = None ∨ ta_MaxFeePerGas args = None ∧ ta_MaxPriorityFeePerGas args = None) ∧
  ta_Gas args' = Some (default_gas cap (ta_Gas args)) ∧ ta_Nonce args' = Some (default 0%Z (ta_Nonce args)) ∧
  ta_Value args' = Some (default 0%Z (ta_Value args)) ∧ ta_ChainID args' = Some chainID ∧ from args' = from args ∧ ta_To args' = ta_To args ∧ data args' = data args ∧
  (baseFee = None → ta_GasPrice args' = Some (default 0%Z (ta_GasPrice args))) ∧
  (is_Some baseFee → ta_GasPrice args' = ta_GasPrice args ∧ ta_MaxFeePerGas args' = Some (default 0%Z (ta_MaxFeePerGas args)) ∧
     ta_MaxPriorityFeePerGas args' = Some (default 0%Z (ta_MaxPriorityFeePerGas args))) ∧
  ta_BlobHashes args' = ta_BlobHashes args ∧ ta_AccessList args' = ta_AccessList args.
Proof.
  unfold CallDefaults. intros E.
  assert (F : (ta_GasPrice args = None ∨ ta_MaxFeePerGas args = None ∧ ta_MaxPriorityFeePerGas args = None)).
  { destruct (ta_GasPrice args), (ta_MaxFeePerGas args), (ta_MaxPriorityFeePerGas args); try done; auto. }
  split; [done|]. destruct (decide (default chainID (ta_ChainID args) = chainID)).
  2: { destruct (ta_GasPrice args), (ta_MaxFeePerGas args), (ta_MaxPriorityFeePerGas args); done. }
  destruct baseFee as [base|]; cbn [is_Some bool_decide] in E;
    destruct (ta_GasPrice args), (ta_MaxFeePerGas args), (ta_MaxPriorityFeePerGas args); try done; injection E as <-; cbn;
    split_and!; try done; intros Hb; try done; by destruct Hb.
Qed.

(** After [CallDefaults] every call can become a message: no nil pointer is dereferenced, the gas is within
    a positive cap, the message names the caller, the target and the data of the arguments, the price never
    exceeds the fee cap, and with nothing given it is zero. *)
Theorem call_message cap baseFee chainID args args' skipNonce skipEoA : CallDefaults cap baseFee chainID args = inr args' →
  ∃ m gasPrice feeCap, ToMessage baseFee skipNonce skipEoA args' = Some m ∧ ms_GasPrice m = Some gasPrice ∧ ms_GasFeeCap m = Some feeCap ∧ (gasPrice ≤ feeCap)%Z ∧
    ((0 < cap)%Z → (ms_GasLimit m ≤ cap)%Z) ∧ ms_From m = from args ∧ ms_To m = ta_To args ∧ ms_Data m = data args ∧ ms_Value m = Some (default 0%Z (ta_Value args)) ∧
    (∀ p, ta_GasPrice args = Some p → gasPrice = p) ∧
    (∀ base, baseFee = Some base → ta_GasPrice args = None →
       gasPrice = let fee := default 0%Z (ta_MaxFeePerGas args) in let tip := default 0%Z (ta_MaxPriorityFeePerGas args) in
                  if decide (fee = 0 ∧ tip = 0)%Z then 0%Z else Z.min (tip + base) fee).
Proof.
  intros (Hf & Hg & Hn & Hv & Hc & Hfr & Ht & Hd & Hp & Hb & _)%CallDefaults_ok.
  assert (G : (0 < cap)%Z → (default_gas cap (ta_Gas args) ≤ cap)%Z).
  { intros Hcap. unfold default_gas. destruct (ta_Gas args) as [g|].
    - destruct (Z.ltb_spec 0 cap); [|lia]. cbn [andb]. destruct (Z.ltb_spec cap g); lia.
    - destruct (Z.eqb_spec cap 0); lia. }
  assert (F : ∃ gasPrice feeCap tip, message_fees baseFee args' = Some (Some gasPrice, Some feeCap, tip) ∧ (gasPrice ≤ feeCap)%Z ∧
    (∀ p, ta_GasPrice args = Some p → gasPrice = p) ∧
    (∀ base, baseFee = Some base → ta_GasPrice args = None →
       gasPrice = if decide (default 0%Z (ta_MaxFeePerGas args) = 0%Z ∧ default 0%Z (ta_MaxPriorityFeePerGas args) = 0%Z) then 0%Z
                  else Z.min (default 0%Z (ta_MaxPriorityFeePerGas args) + base) (default 0%Z (ta_MaxFeePerGas args)))).
  { unfold message_fees. destruct baseFee as [base|].
    - destruct (Hb ltac:(by eexists)) as (H1 & H2 & H3). rewrite H1, H2, H3. destruct (ta_GasPrice args) as [p|].
      + eexists _, _, _. split; [done|]. split_and!; [lia|naive_solver|done].
      + set (fee := default 0%Z (ta_MaxFeePerGas args)). set (tip := default 0%Z (ta_MaxPriorityFeePerGas args)).
        eexists _, _, _. split; [done|]. split_and!; [|done|].
        * destruct (Z.eqb_spec fee 0), (Z.eqb_spec tip 0); cbn; lia.
        * intros base' [= <-] _. destruct (Z.eqb_spec fee 0), (Z.eqb_spec tip 0); cbn; [by rewrite decide_True|by rewrite decide_False by naive_solver..].
    - rewrite (Hp eq_refl). eexists _, _, _. split; [done|]. split_and!; [lia| |done]. by intros p ->. }
  destruct F as (gp & fc & tip & E & Hle & F1 & F2). unfold ToMessage. rewrite E, Hn, Hg. cbn [mbind option_bind].
  eexists _, gp, fc. split; [done|]. cbn. rewrite Hv, Ht. split_and!; done.
Qed.

(** What [ToTransaction] needs beyond the defaults: a target for blobs, a list for the access-list type. *)
Theorem to_transaction_panics MustFromBig defaultType args :
  (used_type defaultType args = BlobTxType → ta_To args = None → ToTransaction MustFromBig defaultType args = None) ∧
  (used_type defaultType args = AccessListTxType → ta_AccessList args = None → ToTransaction MustFromBig defaultType args = None).
Proof.
  unfold ToTransaction. split; intros -> E; rewrite E; [done|]. by destruct (ta_Nonce args), (ta_Gas args).
Qed.

(** With a base fee the defaults turn every call without a gas price into a dynamic-fee transaction, whatever
    type was asked for, unless it carries blob hashes or blobs were asked for. *)
Theorem defaults_make_dynamic MustFromBig cap base chainID defaultType args args' : CallDefaults cap (Some base) chainID args = inr args' →
  ta_GasPrice args = None → ta_BlobHashes args = None → defaultType ≠ BlobTxType →
  ToTransaction MustFromBig defaultType args' = Some (DynamicFeeTx (ta_To args) (Some chainID) (default 0%Z (ta_Nonce args)) (default_gas cap (ta_Gas args))
    (Some (default 0%Z (ta_MaxFeePerGas args))) (Some (default 0%Z (ta_MaxPriorityFeePerGas args))) (Some (default 0%Z (ta_Value args))) (data args)
    (default [] (ta_AccessList args))).
Proof.
  intros (Hf & Hg & Hn & Hv & Hc & Hfr & Ht & Hd & _ & Hb & Hbl & Hal)%CallDefaults_ok Hp Hh Hdt.
  destruct (Hb ltac:(by eexists)) as (H1 & H2 & H3). rewrite Hp in H1.
  unfold ToTransaction, used_type. rewrite H1, Hbl, Hh, H2. rewrite (bool_decide_false (defaultType = BlobTxType)) by done. cbn [is_Some bool_decide orb].
  rewrite Hn, Hg, H3, Hv, Ht, Hc, Hd, Hal. done.
Qed.

(** ** A call with a tip *)

Definition example_args : TransactionArgs :=
  {| ta_From := None; ta_To := Some zero_address; ta_Gas := Some 90000%Z; ta_GasPrice := None; ta_MaxFeePerGas := Some 100%Z; ta_MaxPriorityFeePerGas := Some 5%Z;
     ta_Value := None; ta_Nonce := None; ta_Data := None; ta_Input := None; ta_AccessList := None; ta_ChainID := None; ta_BlobFeeCap := None; ta_BlobHashes := None;
     ta_Blobs := None; ta_Commitments := []; ta_Proofs := [] |}.

Lemma call_message_witness : ∃ args' m, CallDefaults 50000 (Some 30%Z) 991 example_args = inr args' ∧ ToMessage (Some 30%Z) true true args' = Some m ∧
  ms_GasPrice m = Some 35%Z ∧ (ms_GasLimit m ≤ 50000)%Z.
Proof.
  eexists. destruct (call_message 50000 (Some 30%Z) 991 example_args _ true true eq_refl) as (m & gp & fc & E & Ep & _ & _ & G & _ & _ & _ & _ & _ & F).
  exists m. split; [reflexivity|]. split; [exact E|]. rewrite (F 30%Z eq_refl eq_refl) in Ep. split; [exact Ep|]. apply G. reflexivity.
Defined.
